(* ===== verification/_CoqProject ===== *)
-Q . S2P
Prelude.v
Kstring.v
Kalloc.v
Vm.v
VmProps.v
UvmProps.v
CopyProps.v
VmDemo.v
Spinlock.v
Block.v
Sleeplock.v
BufCache.v
Bio.v
BioProps.v
BioSpec.v
Log.v
LogDisk.v
LogProps.v
Txn.v
LogDemo.v
Fs.v
FsBase.v
FsBlock.v
FsFile.v
FsBmap.v
FsIO.v
FsWrite.v
FsInode.v
UserVm.v
FsDemo.v
Proc.v
ProcProps.v
ProcTable.v
ProcFork.v
ProcInv.v
Crit.v
ProcSteps.v
SleepWakeup.v
FsKeeps.v
File.v
PipeProps.v
FileSafe.v
Syscall.v
Sysfile.v
Exec.v
Trap.v
Kvm.v
SysSafe.v
TrapSafe.v
Kernel.v
User.v
Ulib.v
Uprintf.v
Regex.v
Grep.v
Utils.v
Programs.v
Umalloc.v
UmallocProps.v
Sh.v
ShShow.v
ShStrings.v
ShRun.v
ShMain.v
Init.v
Ring.v
Console.v
ConsoleProps.v
ConsoleRead.v
Virtio.v
VirtioSys.v
VirtioSteps.v
VirtioProps.v
Mkfs.v
MkfsProps.v
MkfsMain.v
Asm.v
AsmProps.v
Boot.v
