(* ===== verification/Prelude.v ===== *)
(** * A verification development for the xv6 kernel of this repository

    The program is xv6-riscv as the repository builds it ([-DSNU]): a kernel
    (src/kernel), the programs that run on it (src/user) and the tool that
    writes the first disk image (src/mkfs).  The development is a shallow
    embedding: each C function is a Rocq function of the same name, over
    records for its structs, [Z] with explicit wrap-around for its integers,
    and byte-addressed memory where the code casts and overlaps.

    ** The pieces and the files

    - Machine integers, the monads of kernel code with their program logics
      ([wp] total, [wlp] partial, [wps] total with sleeping), memory, pages:
      this file.  A kernel function returns, panics, goes to sleep on a
      channel (the state is what the others see) or, in a loop bounded by
      fuel, runs out of it.
    - kernel/string.c: [Kstring].  kernel/kalloc.c: [Kalloc], the free list
      inside the free pages.
    - kernel/vm.c: [Vm], the three-level tables in memory; [VmProps] relates
      them to the function from addresses to entries, [UvmProps] and
      [CopyProps] prove the user-memory functions against that view;
      [UserVm] offers the copies to the file system.
    - kernel/spinlock.c: [Spinlock], with the harts interleaved;
      kernel/sleeplock.c: [Sleeplock].
    - kernel/bio.c: [Bio]; [BufCache] is the interface it promises (a class of
      operations with laws), [BioProps] and [BioSpec] discharge it.
    - kernel/log.c: [Log], over [BufCache]; [LogDisk] and [LogProps] for the
      disk after a crash; [Txn] is what an open transaction promises to its
      caller.
    - kernel/fs.c: [Fs], over the log; [FsPath], [FsBase], [FsBlock],
      [FsFile], [FsBmap], [FsIO], [FsWrite], [FsInode] prove it layer by layer.
    - kernel/proc.c: [Proc]; [ProcProps], [ProcTable], [ProcFork] specify its
      functions, [Awake] says which code never sleeps, [ProcInv] is the
      invariant of the table, [Crit] the invariant while a process is inside
      the kernel, [ProcSteps] the transitions, [Scheduler] one pass of the
      scheduler, [SleepWakeup] sleep and wakeup interleaved on several harts,
      [KillZero] an anomaly of kill.
    - kernel/file.c and kernel/pipe.c: [File]; [PipeProps] refines pipes to
      bounded queues.
    - kernel/syscall.c, sysproc.c, sysfile.c: [Syscall], [Sysfile];
      kernel/exec.c: [Exec]; kernel/trap.c: [Trap].  [FsKeeps], [FileSafe],
      [SysSafe] and [TrapSafe] carry the process table's invariant through
      all of them, and [Kernel] composes them into one transition system.
    - user/ulib.c, printf.c, umalloc.c: [Ulib], [Uprintf], [Umalloc] with
      [UmallocProps]; user programs run in the monad of [User] on memory,
      descriptors and exit codes: [Regex] and [Grep] (grep.c), [Utils]
      (cat.c, wc.c, echo.c).
    - The files named Demo hold concrete states on which the theorems are
      instantiated.

    ** What is shown

    - Storage: a crash at any write of a commit or of a recovery leaves all or
      nothing of the transaction; recovery can be repeated; the cache never
      changes what a block contains and keeps its list a ring in order of use;
      [balloc], [bfree], [bmap], [readi] and [writei] do what a file is meant
      to do, holes, full disks and partial copies included.
    - Memory: pages are handed out once; mapping, growing, shrinking and
      copying change exactly the entries and the bytes they should, or nothing.
    - Concurrency: mutual exclusion of spin locks and the absence of lost
      wakeups in every interleaving; the scheduler's turns.
    - Composition: in every state the kernel reaches after boot the process
      table is sound, whatever traps, system calls and interrupts occur.
    - User space: the allocator's blocks are disjoint, grep decides the
      language of its patterns and prints the lines in it, wc counts, printf
      and atoi agree.
    - Anomalies found on the way are stated as lemmas and listed with the
      properties (a log reservation that is one block too generous, kill(0),
      requests to malloc that wrap around, and others).

    ** Bounds and fuel

    Loops that are not structural take fuel computed from the data they run
    over (the length of a range, the size of a table, the bytes left in a
    stream); the theorems show that it is enough, so they speak of functions
    that return.  [malloc], [free] and the string searches take the fuel as an
    argument, and their theorems say how much suffices.

    ** What is not modelled

    - Assembly (entry, trampoline, swtch, kernelvec, initcode): saving and
      restoring registers; [Proc] and [Trap] take up where the C code does.
    - Other harts while one hart runs a kernel function: [Kernel] is one hart;
      [Spinlock] and [SleepWakeup] interleave harts.
    - Device drivers (console, uart, virtio), the machine setup of main.c,
      start.c and plic.c, the kernel's own page table, mkfs, the shell and the
      other user programs.
    - Test programs (usertests, grind, forktest, stressfs) and the ram disk,
      which the kernel does not link. *)

From Stdlib Require Export ZArith Lia.
From stdpp Require Export functions.
From stdpp Require Export base numbers list gmap strings.
#[global] Open Scope Z_scope.
Coercion Z.of_nat : nat >-> Z.

(* ------------------------------------------------------------------ *)
(** ** Machine integers *)

(** An unsigned [w]-bit value is a [Z] in [[0, 2^w)]; C's implicit
    conversions and unsigned arithmetic reduce modulo [2^w]. *)
Definition wrap (w z : Z) : Z := z `mod` 2 ^ w.
Abbreviation u8 := (wrap 8).
Abbreviation u16 := (wrap 16).
Abbreviation u32 := (wrap 32).
Abbreviation u64 := (wrap 64).

(** A signed [w]-bit value (two's complement), as a C [int], [short] or
    [char] holds it. *)
Definition swrap (w z : Z) : Z := (z + 2 ^ (w - 1)) `mod` 2 ^ w - 2 ^ (w - 1).
Abbreviation s8 := (swrap 8).
Abbreviation s16 := (swrap 16).
Abbreviation s32 := (swrap 32).

(** [x & mask] as a C truth value. *)
Definition has_bits (x mask : Z) : bool := negb (Z.land x mask =? 0).

Lemma wrap_range w z : 0 ≤ w → 0 ≤ wrap w z < 2 ^ w.
Proof. intros. apply Z.mod_pos_bound. lia. Qed.

Lemma wrap_small w z : 0 ≤ z < 2 ^ w → wrap w z = z.
Proof. apply Z.mod_small. Qed.

Lemma wrap_wrap w z : 0 ≤ w → wrap w (wrap w z) = wrap w z.
Proof. intros. apply wrap_small, wrap_range, H. Qed.

Lemma u8_range z : 0 ≤ u8 z < 256.
Proof. apply (wrap_range 8). lia. Qed.
Lemma u32_range z : 0 ≤ u32 z < 4294967296.
Proof. apply (wrap_range 32). lia. Qed.
Lemma u64_range z : 0 ≤ u64 z < 18446744073709551616.
Proof. apply (wrap_range 64). lia. Qed.

Lemma swrap_small w z : - 2 ^ (w - 1) ≤ z < 2 ^ (w - 1) → 0 < w → swrap w z = z.
Proof.
  intros. unfold swrap. assert (2 ^ w = 2 * 2 ^ (w - 1)).
  { rewrite <- Z.pow_succ_r by lia. f_equal; lia. }
  rewrite Z.mod_small; lia.
Qed.

Lemma geb_true a b : b ≤ a → (a >=? b) = true.
Proof. intros. rewrite Z.geb_leb. by apply Z.leb_le. Qed.
Lemma geb_false a b : a < b → (a >=? b) = false.
Proof. intros. rewrite Z.geb_leb. by apply Z.leb_gt. Qed.
Lemma gtb_true a b : b < a → (a >? b) = true.
Proof. intros. rewrite Z.gtb_ltb. by apply Z.ltb_lt. Qed.
Lemma gtb_false a b : a ≤ b → (a >? b) = false.
Proof. intros. rewrite Z.gtb_ltb. by apply Z.ltb_ge. Qed.

(** Decides the integer comparisons of the goal that [lia] can decide. *)
Ltac zb_side := first [done | lia].
Ltac zbool :=
  repeat match goal with
  | |- context [?a =? ?b] =>
      first [ rewrite (proj2 (Z.eqb_eq a b)) by zb_side | rewrite (proj2 (Z.eqb_neq a b)) by zb_side ]
  | |- context [?a <=? ?b] =>
      first [ rewrite (proj2 (Z.leb_le a b)) by zb_side | rewrite (proj2 (Z.leb_gt a b)) by zb_side ]
  | |- context [?a <? ?b] =>
      first [ rewrite (proj2 (Z.ltb_lt a b)) by zb_side | rewrite (proj2 (Z.ltb_ge a b)) by zb_side ]
  | |- context [?a >=? ?b] =>
      first [ rewrite (geb_true a b) by zb_side | rewrite (geb_false a b) by zb_side ]
  | |- context [?a >? ?b] =>
      first [ rewrite (gtb_true a b) by zb_side | rewrite (gtb_false a b) by zb_side ]
  end.

(** ** Lists *)

Lemma filter_ext_in {A} (P P' : A → Prop) `{!∀ x, Decision (P x), !∀ x, Decision (P' x)} (l : list A) :
  (∀ x, x ∈ l → P x ↔ P' x) → filter P l = filter P' l.
Proof.
  induction l as [|a l IH]; intros HP; [done|]. rewrite !filter_cons.
  rewrite IH by (intros x Hx; apply HP, elem_of_cons; auto).
  assert (P a ↔ P' a) by (apply HP, elem_of_cons; auto). repeat case_decide; tauto || done.
Qed.

Lemma filter_all {A} (P : A → Prop) `{!∀ x, Decision (P x)} (l : list A) : (∀ x, x ∈ l → P x) → filter P l = l.
Proof.
  induction l as [|a l IH]; intros HP; [done|]. rewrite filter_cons, decide_True by (apply HP, elem_of_cons; auto).
  f_equal. apply IH. intros x Hx. apply HP, elem_of_cons. auto.
Qed.

(** Changing a predicate at one element changes the count by one at most. *)
Lemma count_upd {A} (P P' : A → Prop) `{!∀ i, Decision (P i), !∀ i, Decision (P' i)} (l : list A) b :
  NoDup l → b ∈ l → (∀ i, i ∈ l → i ≠ b → P i ↔ P' i) →
  Z.of_nat (length (filter P' l)) + (if decide (P b) then 1 else 0) =
  Z.of_nat (length (filter P l)) + (if decide (P' b) then 1 else 0).
Proof.
  intros Hnd (l1&l2&->)%list_elem_of_split Hx. apply NoDup_app in Hnd as (_&Hd&Hnd%NoDup_cons).
  rewrite !filter_app, !filter_cons, !length_app.
  rewrite (filter_ext_in P' P l1), (filter_ext_in P' P l2).
  - repeat case_decide; simpl; lia.
  - intros i Hi. symmetry. apply Hx; [|by intros ->; destruct Hnd]. apply elem_of_app. right. apply elem_of_cons. auto.
  - intros i Hi. symmetry. apply Hx; [apply elem_of_app; auto|]. intros ->. apply (Hd b Hi). apply elem_of_cons. auto.
Qed.

(* ------------------------------------------------------------------ *)
(** ** The kernel monad

    A kernel function runs on a state and returns a value, panics (the
    kernel's [panic] never returns), goes to sleep on a channel (the state is
    the one the other processes see), or, for the loops bounded by fuel,
    exhausts it.  [wp] is total correctness: the function returns. *)

Inductive outcome (S A : Type) : Type :=
  | Ok (a : A) (s : S)
  | Panic (msg : string)
  | Sleep (chan : Z) (s : S)
  | NoFuel.
Arguments Ok {S A}. Arguments Panic {S A}. Arguments Sleep {S A}. Arguments NoFuel {S A}.

Definition M (S A : Type) : Type := S → outcome S A.

#[global] Instance M_ret S : MRet (M S) := λ A a s, Ok a s.
#[global] Instance M_bind S : MBind (M S) := λ A B k m s,
  match m s with
  | Ok a s' => k a s'
  | Panic e => Panic e
  | Sleep c s' => Sleep c s'
  | NoFuel => NoFuel
  end.

Section monad_ops.
Context {S : Type}.
Definition gets {A} (f : S → A) : M S A := λ s, Ok (f s) s.
Definition modify (f : S → S) : M S unit := λ s, Ok tt (f s).
Definition panic {A} (msg : string) : M S A := λ _, Panic msg.
Definition sleep_on {A} (chan : Z) : M S A := λ s, Sleep chan s.
Definition nofuel {A} : M S A := λ _, NoFuel.
Definition when (b : bool) (m : M S unit) : M S unit := if b then m else mret tt.

(** [acquire]/[release] of a spinlock that belongs to the component: the
    flag says that this CPU holds it ([Spinlock] refines it to the lock word,
    the owner and the interrupt nesting). *)
Definition acquire (get : S → bool) (set : bool → S → S) : M S unit :=
  b ← gets get; if (b : bool) then panic "acquire" else modify (set true).
Definition release (get : S → bool) (set : bool → S → S) : M S unit :=
  b ← gets get; if (b : bool) then modify (set false) else panic "release".

Definition wp {A} (m : M S A) (Q : A → S → Prop) (s : S) : Prop :=
  match m s with Ok a s' => Q a s' | _ => False end.
End monad_ops.

(** Running a function of a sub-component on the state that contains it. *)
Definition zoom {S T A} (get : T → S) (put : S → T → T) (m : M S A) : M T A := λ t,
  match m (get t) with
  | Ok a s => Ok a (put s t)
  | Panic e => Panic e
  | Sleep c s => Sleep c (put s t)
  | NoFuel => NoFuel
  end.

Section wp_rules.
Context {S : Type}.
Implicit Types s : S.

Lemma wp_ret {A} (a : A) (Q : A → S → Prop) s : Q a s → wp (mret a) Q s.
Proof. done. Qed.
Lemma wp_bind {A B} (m : M S A) (k : A → M S B) (Q : B → S → Prop) s :
  wp m (λ a, wp (k a) Q) s → wp (m ≫= k) Q s.
Proof. unfold wp, mbind, M_bind. by destruct (m s). Qed.
Lemma wp_bind_inv {A B} (m : M S A) (k : A → M S B) (Q : B → S → Prop) s :
  wp (m ≫= k) Q s → wp m (λ a, wp (k a) Q) s.
Proof. unfold wp, mbind, M_bind. by destruct (m s). Qed.
Lemma wp_mono {A} (m : M S A) (Q R : A → S → Prop) s :
  wp m Q s → (∀ a s', Q a s' → R a s') → wp m R s.
Proof. unfold wp. destruct (m s); auto. Qed.
Lemma wp_gets {A} (f : S → A) (Q : A → S → Prop) s : Q (f s) s → wp (gets f) Q s.
Proof. done. Qed.
Lemma wp_modify (f : S → S) (Q : unit → S → Prop) s : Q tt (f s) → wp (modify f) Q s.
Proof. done. Qed.
Lemma wp_when_true (b : bool) (m : M S unit) (Q : unit → S → Prop) s :
  b = true → wp m Q s → wp (when b m) Q s.
Proof. by intros ->. Qed.
Lemma wp_when_false (b : bool) (m : M S unit) (Q : unit → S → Prop) s :
  b = false → Q tt s → wp (when b m) Q s.
Proof. by intros ->. Qed.
Lemma wp_inv {A} (m : M S A) (Q : A → S → Prop) s :
  wp m Q s → ∃ a s', m s = Ok a s' ∧ Q a s'.
Proof. unfold wp. destruct (m s); naive_solver. Qed.
Lemma wp_Ok {A} (m : M S A) (Q : A → S → Prop) s a s' : wp m Q s → m s = Ok a s' → Q a s'.
Proof. unfold wp. by intros H E; rewrite E in H. Qed.
Lemma wp_intro {A} (m : M S A) (Q : A → S → Prop) s a s' :
  m s = Ok a s' → Q a s' → wp m Q s.
Proof. unfold wp. by intros ->. Qed.
End wp_rules.

Lemma bind_Ok {S A B} (m : M S A) (k : A → M S B) s b s'' :
  (m ≫= k) s = Ok b s'' ↔ ∃ a s', m s = Ok a s' ∧ k a s' = Ok b s''.
Proof.
  unfold mbind, M_bind. destruct (m s); (split; [intros; try discriminate; eauto|intros (?&?&?&?); congruence]).
Qed.

Lemma wp_acquire {S} (get : S → bool) set (Q : unit → S → Prop) s :
  get s = false → Q tt (set true s) → wp (acquire get set) Q s.
Proof. intros Hg HQ. unfold acquire. apply wp_bind, wp_gets. by rewrite Hg. Qed.
Lemma wp_release {S} (get : S → bool) set (Q : unit → S → Prop) s :
  get s = true → Q tt (set false s) → wp (release get set) Q s.
Proof. intros Hg HQ. unfold release. apply wp_bind, wp_gets. by rewrite Hg. Qed.

(** One structural step of a [wp] goal. *)
Ltac wp_step :=
  lazymatch goal with
  | |- wp (mbind _ _) _ _ => apply wp_bind
  | |- wp (mret _) _ _ => apply wp_ret
  | |- wp (gets _) _ _ => apply wp_gets
  | |- wp (modify _) _ _ => apply wp_modify
  | |- wp (acquire _ _) _ _ => apply wp_acquire; [done|]
  | |- wp (release _ _) _ _ => apply wp_release; [done|]
  end; cbv beta.
Ltac wp_steps := repeat wp_step.
(** Use a proved specification for the head call. *)
Tactic Notation "wp_use" uconstr(H) := eapply wp_mono; [eapply H|cbv beta].

(* ------------------------------------------------------------------ *)
(** ** Byte-addressed memory

    Physical memory maps an address to the byte stored there.  Multi-byte
    values are little-endian, as on RISC-V. *)

Definition mem : Type := Z → Z.

Definition store8 (m : mem) (a v : Z) : mem := λ x, if x =? a then u8 v else m x.

Fixpoint load_le (m : mem) (a : Z) (n : nat) : Z :=
  match n with
  | O => 0
  | S n => m a + 256 * load_le m (a + 1) n
  end.

Fixpoint store_le (m : mem) (a : Z) (n : nat) (v : Z) : mem :=
  match n with
  | O => m
  | S n => store_le (store8 m a v) (a + 1) n (v / 256)
  end.

Definition load32 (m : mem) (a : Z) : Z := load_le m a 4.
Definition load64 (m : mem) (a : Z) : Z := load_le m a 8.
Definition store32 (m : mem) (a v : Z) : mem := store_le m a 4 v.
Definition store64 (m : mem) (a v : Z) : mem := store_le m a 8 v.

(** Every cell holds a byte. *)
Definition bytes_ok (m : mem) : Prop := ∀ a, 0 ≤ m a < 256.

(** The [n] bytes from [a], as a list. *)
Fixpoint read_bytes (m : mem) (a : Z) (n : nat) : list Z :=
  match n with O => [] | S n => m a :: read_bytes m (a + 1) n end.

Lemma store8_eq m a v : store8 m a v a = u8 v.
Proof. unfold store8. by rewrite Z.eqb_refl. Qed.
Lemma store8_ne m a v x : x ≠ a → store8 m a v x = m x.
Proof. intros. unfold store8. by destruct (Z.eqb_spec x a). Qed.

Lemma store_le_other m a (n : nat) v x :
  x < a ∨ a + n ≤ x → store_le m a n v x = m x.
Proof.
  revert m a v. induction n as [|n IH]; intros m a v Hx; simpl; [done|].
  rewrite IH by lia. apply store8_ne. lia.
Qed.

Lemma load_le_ext m m' a (n : nat) :
  (∀ x, a ≤ x < a + n → m x = m' x) → load_le m a n = load_le m' a n.
Proof.
  revert a. induction n as [|n IH]; intros a Hx; simpl; [done|].
  rewrite (Hx a) by lia. rewrite (IH (a + 1)); [done|]. intros; apply Hx; lia.
Qed.

Lemma load_store_le m a (n : nat) v : load_le (store_le m a n v) a n = v `mod` 256 ^ n.
Proof.
  revert m a v. induction n as [|n IH]; intros m a v; simpl load_le.
  - by rewrite Z.mod_1_r.
  - simpl store_le. rewrite IH, store_le_other, store8_eq by lia.
    rewrite Nat2Z.inj_succ, Z.pow_succ_r, Z.rem_mul_r by lia. done.
Qed.

Lemma load_store_le_other m a (n : nat) v b (k : nat) :
  b + k ≤ a ∨ a + n ≤ b → load_le (store_le m a n v) b k = load_le m b k.
Proof. intros. apply load_le_ext. intros x ?. apply store_le_other. lia. Qed.

Lemma load_le_range m a (n : nat) : bytes_ok m → 0 ≤ load_le m a n < 256 ^ n.
Proof.
  intros Hm. revert a. induction n as [|n IH]; intros a; simpl load_le; [lia|].
  rewrite Nat2Z.inj_succ, Z.pow_succ_r by lia. specialize (IH (a + 1)). specialize (Hm a). lia.
Qed.

Lemma store8_bytes_ok m a v : bytes_ok m → bytes_ok (store8 m a v).
Proof.
  intros Hm x. unfold store8. destruct (x =? a); [|apply Hm]. apply u8_range.
Qed.

Lemma store_le_bytes_ok m a n v : bytes_ok m → bytes_ok (store_le m a n v).
Proof. revert m a v. induction n; simpl; auto using store8_bytes_ok. Qed.

Lemma load64_store64 m a v : 0 ≤ v < 2 ^ 64 → load64 (store64 m a v) a = v.
Proof. intros. unfold load64, store64. rewrite load_store_le. apply Z.mod_small. lia. Qed.
Lemma load64_store64_other m a v b :
  b + 8 ≤ a ∨ a + 8 ≤ b → load64 (store64 m a v) b = load64 m b.
Proof. intros. apply load_store_le_other. lia. Qed.
Lemma load64_ext m m' a :
  (∀ x, a ≤ x < a + 8 → m x = m' x) → load64 m a = load64 m' a.
Proof. intros. apply load_le_ext. intros; apply H; lia. Qed.
Lemma load64_range m a : bytes_ok m → 0 ≤ load64 m a < 2 ^ 64.
Proof. apply (load_le_range m a 8). Qed.

Lemma length_read_bytes m a n : length (read_bytes m a n) = n.
Proof. revert a; induction n; simpl; auto. Qed.
Lemma read_bytes_lookup m a (n i : nat) :
  (i < n)%nat → read_bytes m a n !! i = Some (m (a + i)).
Proof.
  revert a i. induction n as [|n IH]; intros a [|i] ?; simpl; try lia.
  - by rewrite Z.add_0_r.
  - rewrite IH by lia. do 2 f_equal. lia.
Qed.
Lemma read_bytes_ext m m' a b (n : nat) :
  (∀ i, 0 ≤ i < n → m (a + i) = m' (b + i)) → read_bytes m a n = read_bytes m' b n.
Proof.
  revert a b. induction n as [|n IH]; intros a b Hx; simpl; [done|]. f_equal.
  - specialize (Hx 0). rewrite !Z.add_0_r in Hx. apply Hx. lia.
  - apply IH. intros i Hi. replace (a + 1 + i) with (a + (i + 1)) by lia.
    replace (b + 1 + i) with (b + (i + 1)) by lia. apply Hx. lia.
Qed.
Lemma read_bytes_app m a (n k : nat) :
  read_bytes m a (n + k) = read_bytes m a n ++ read_bytes m (a + n) k.
Proof.
  revert a. induction n as [|n IH]; intros a; simpl.
  - by rewrite Z.add_0_r.
  - rewrite IH. do 3 f_equal. lia.
Qed.

(* ------------------------------------------------------------------ *)
(** ** Pages (kernel/riscv.h) *)

Definition PGSIZE : Z := 4096.
Definition PGROUNDUP (sz : Z) : Z := Z.land (u64 (sz + PGSIZE - 1)) (Z.lnot (PGSIZE - 1)).
Definition PGROUNDDOWN (a : Z) : Z := Z.land a (Z.lnot (PGSIZE - 1)).

Lemma land_page_mask a : Z.land a (Z.lnot (PGSIZE - 1)) = PGSIZE * (a / PGSIZE).
Proof.
  change (PGSIZE - 1) with (Z.ones 12). rewrite <- Z.ldiff_land, Z.ldiff_ones_r by lia.
  rewrite Z.shiftl_mul_pow2, Z.shiftr_div_pow2 by lia. change (2 ^ 12) with PGSIZE. lia.
Qed.
Lemma PGROUNDDOWN_eq a : PGROUNDDOWN a = PGSIZE * (a / PGSIZE).
Proof. apply land_page_mask. Qed.
Lemma PGROUNDUP_eq a : 0 ≤ a → a + PGSIZE - 1 < 2 ^ 64 →
  PGROUNDUP a = PGSIZE * ((a + PGSIZE - 1) / PGSIZE).
Proof. unfold PGSIZE. intros. unfold PGROUNDUP. rewrite land_page_mask, wrap_small by (unfold PGSIZE; lia). done. Qed.

Definition aligned (a : Z) : Prop := a `mod` PGSIZE = 0.

Lemma aligned_mul k : aligned (PGSIZE * k).
Proof. unfold aligned. rewrite Z.mul_comm. by apply Z.mod_mul. Qed.
Lemma aligned_inv a : aligned a → a = PGSIZE * (a / PGSIZE).
Proof. unfold aligned. intros H. pose proof (Z.div_mod a PGSIZE). unfold PGSIZE in *. lia. Qed.
Lemma aligned_disjoint a b : aligned a → aligned b → a ≠ b → a + PGSIZE ≤ b ∨ b + PGSIZE ≤ a.
Proof. intros Ha%aligned_inv Hb%aligned_inv. unfold PGSIZE in *. lia. Qed.
Lemma aligned_add a k : aligned a → aligned (a + PGSIZE * k).
Proof. intros ->%aligned_inv. rewrite <- Z.mul_add_distr_l. apply aligned_mul. Qed.

(** Arithmetic with the page size. *)
Ltac pg_lia := unfold PGSIZE in *; lia.
Ltac zb_side ::= first [done | lia | pg_lia].

(* ------------------------------------------------------------------ *)
(** ** Partial correctness

    [wlp m Q R s]: if the function returns, [Q] holds, and if it goes to
    sleep, [R] holds of the state the others see. *)
Definition wlp {S A} (m : M S A) (Q : A → S → Prop) (R : S → Prop) (s : S) : Prop :=
  match m s with Ok a s' => Q a s' | Sleep _ s' => R s' | _ => True end.

Section wlp_rules.
Context {S : Type}.
Implicit Types (s : S) (R : S → Prop).

Lemma wlp_wp {A} (m : M S A) (Q : A → S → Prop) R s : wp m Q s → wlp m Q R s.
Proof. unfold wp, wlp. destruct (m s); tauto. Qed.
Lemma wlp_ret {A} (a : A) (Q : A → S → Prop) R s : Q a s → wlp (mret a) Q R s.
Proof. done. Qed.
Lemma wlp_bind {A B} (m : M S A) (k : A → M S B) (Q : B → S → Prop) R s :
  wlp m (λ a, wlp (k a) Q R) R s → wlp (m ≫= k) Q R s.
Proof. unfold wlp, mbind, M_bind. by destruct (m s). Qed.
Lemma wlp_mono {A} (m : M S A) (Q Q' : A → S → Prop) R R' s :
  wlp m Q R s → (∀ a s', Q a s' → Q' a s') → (∀ s', R s' → R' s') → wlp m Q' R' s.
Proof. unfold wlp. destruct (m s); auto. Qed.
Lemma wlp_gets {A} (f : S → A) (Q : A → S → Prop) R s : Q (f s) s → wlp (gets f) Q R s.
Proof. done. Qed.
Lemma wlp_modify (f : S → S) (Q : unit → S → Prop) R s : Q tt (f s) → wlp (modify f) Q R s.
Proof. done. Qed.
Lemma wlp_panic {A} e (Q : A → S → Prop) R s : wlp (panic e) Q R s.
Proof. done. Qed.
Lemma wlp_any {A} (m : M S A) (Q : A → S → Prop) (R : S → Prop) s : (∀ a s', Q a s') → (∀ s', R s') → wlp m Q R s.
Proof. intros HQ HR. unfold wlp. destruct (m s); auto. Qed.
Lemma wlp_sleep_on {A} c (Q : A → S → Prop) R s : R s → wlp (sleep_on c) Q R s.
Proof. done. Qed.
Lemma wlp_Ok {A} (m : M S A) (Q : A → S → Prop) R s a s' : wlp m Q R s → m s = Ok a s' → Q a s'.
Proof. unfold wlp. by intros H E; rewrite E in H. Qed.
Lemma wlp_Sleep {A} (m : M S A) (Q : A → S → Prop) R s c s' : wlp m Q R s → m s = Sleep c s' → R s'.
Proof. unfold wlp. by intros H E; rewrite E in H. Qed.
End wlp_rules.

(** One structural step of a [wlp] goal. *)
Ltac wlp_step :=
  lazymatch goal with
  | |- wlp (mbind _ _) _ _ _ => apply wlp_bind
  | |- wlp (mret _) _ _ _ => apply wlp_ret
  | |- wlp (gets _) _ _ _ => apply wlp_gets
  | |- wlp (modify _) _ _ _ => apply wlp_modify
  | |- wlp (panic _) _ _ _ => apply wlp_panic
  end; cbv beta.
Ltac wlp_steps := repeat wlp_step.

(** Total correctness of a function that may also go to sleep. *)
Definition wps {S A} (m : M S A) (Q : A → S → Prop) (R : S → Prop) (s : S) : Prop :=
  match m s with Ok a s' => Q a s' | Sleep _ s' => R s' | _ => False end.

Section wps_rules.
Context {S : Type}.
Implicit Types (s : S) (R : S → Prop).
Lemma wps_wp {A} (m : M S A) (Q : A → S → Prop) R s : wp m Q s → wps m Q R s.
Proof. unfold wp, wps. destruct (m s); tauto. Qed.
Lemma wps_wlp {A} (m : M S A) (Q : A → S → Prop) R s : wps m Q R s → wlp m Q R s.
Proof. unfold wlp, wps. destruct (m s); tauto. Qed.
Lemma wps_bind {A B} (m : M S A) (k : A → M S B) (Q : B → S → Prop) R s :
  wps m (λ a, wps (k a) Q R) R s → wps (m ≫= k) Q R s.
Proof. unfold wps, mbind, M_bind. by destruct (m s). Qed.
Lemma wps_bind_wp {A B} (m : M S A) (k : A → M S B) (Q : B → S → Prop) R s :
  wp m (λ a, wps (k a) Q R) s → wps (m ≫= k) Q R s.
Proof. intros Hm. apply wps_bind, wps_wp, Hm. Qed.
Lemma wlp_bind_wp {A B} (m : M S A) (k : A → M S B) (Q : B → S → Prop) R s :
  wp m (λ a, wlp (k a) Q R) s → wlp (m ≫= k) Q R s.
Proof. intros Hm. apply wlp_bind, wlp_wp, Hm. Qed.
Lemma wps_mono {A} (m : M S A) (Q Q' : A → S → Prop) R R' s :
  wps m Q R s → (∀ a s', Q a s' → Q' a s') → (∀ s', R s' → R' s') → wps m Q' R' s.
Proof. unfold wps. destruct (m s); auto. Qed.
End wps_rules.

Lemma wlp_cut {S A B} (P : S → Prop) (m : M S A) (k : A → M S B) (Q : B → S → Prop) R s :
  wlp m (λ _, P) R s → (∀ a s', P s' → wlp (k a) Q R s') → wlp (m ≫= k) Q R s.
Proof. intros Hm Hk. apply wlp_bind. eapply wlp_mono; [exact Hm| |done]. intros a s' HP. by apply Hk. Qed.
