(* ===== verification/Kstring.v ===== *)
(** * kernel/string.c: byte-string routines on memory

    Each routine is the loop of the source over byte-addressed memory, with
    the source's pointer increments; source and destination may overlap.  The
    theorems give each routine its meaning: [memmove] copies the original
    bytes whatever the overlap, [strncpy] pads, [safestrcpy] terminates and
    stays inside its buffer, [strncmp] decides equality of bounded strings. *)

From S2P Require Import Prelude.

(** [while (n iterations left) cdst[i++] = c] *)
Fixpoint memset_from (m : mem) (cdst c i : Z) (k : nat) : mem :=
  match k with
  | O => m
  | S k => memset_from (store8 m (cdst + i) c) cdst c (i + 1) k
  end.

Definition memset (m : mem) (dst c n : Z) : mem := memset_from m dst c 0 (Z.to_nat n).

Fixpoint memcmp (m : mem) (s1 s2 : Z) (n : nat) : Z :=
  match n with
  | O => 0
  | S n => if m s1 =? m s2 then memcmp m (s1 + 1) (s2 + 1) n else m s1 - m s2
  end.

(** The forward loop of [memmove]. *)
Fixpoint copy_up (m : mem) (d s : Z) (n : nat) : mem :=
  match n with
  | O => m
  | S n => copy_up (store8 m d (m s)) (d + 1) (s + 1) n
  end.

(** The backward loop of [memmove]: both pointers start past the end. *)
Fixpoint copy_down (m : mem) (d s : Z) (n : nat) : mem :=
  match n with
  | O => m
  | S n => copy_down (store8 m (d - 1) (m (s - 1))) (d - 1) (s - 1) n
  end.

Definition memmove (m : mem) (dst src n : Z) : mem :=
  if n =? 0 then m
  else if (src <? dst) && (src + n >? dst)
  then copy_down m (dst + n) (src + n) (Z.to_nat n)
  else copy_up m dst src (Z.to_nat n).

Definition memcpy (m : mem) (dst src n : Z) : mem := memmove m dst src n.

Fixpoint strncmp (m : mem) (p q : Z) (n : nat) : Z :=
  match n with
  | O => 0
  | S n =>
      if negb (m p =? 0) && (m p =? m q) then strncmp m (p + 1) (q + 1) n
      else m p - m q
  end.

(** The first loop of [strncpy], copying up to and
    including the terminator: the memory, the destination pointer and the count it leaves. *)
Fixpoint strncpy_copy (m : mem) (s t : Z) (n : nat) : mem * Z * nat :=
  match n with
  | O => (m, s, O)
  | S n =>
      let c := m t in
      let m := store8 m s c in
      if negb (c =? 0) then strncpy_copy m (s + 1) (t + 1) n else (m, s + 1, n)
  end.

(** The second loop, storing zeros. *)
Fixpoint strncpy_pad (m : mem) (s : Z) (n : nat) : mem :=
  match n with
  | O => m
  | S n => strncpy_pad (store8 m s 0) (s + 1) n
  end.

Definition strncpy (m : mem) (s t n : Z) : mem :=
  let '(m, s, k) := strncpy_copy m s t (Z.to_nat n) in strncpy_pad m s k.

(** The loop of [safestrcpy], [k = n - 1] iterations at most. *)
Fixpoint safestrcpy_copy (m : mem) (s t : Z) (k : nat) : mem * Z :=
  match k with
  | O => (m, s)
  | S k =>
      let c := m t in
      let m := store8 m s c in
      if negb (c =? 0) then safestrcpy_copy m (s + 1) (t + 1) k else (m, s + 1)
  end.

Definition safestrcpy (m : mem) (s t n : Z) : mem :=
  if n <=? 0 then m
  else let '(m, s) := safestrcpy_copy m s t (Z.to_nat (n - 1)) in store8 m s 0.

(** [for(n = 0; s[n]; n++)]; the fuel bounds the search for the terminator. *)
Fixpoint strlen_from (m : mem) (s n : Z) (fuel : nat) : option Z :=
  match fuel with
  | O => None
  | S fuel => if m (s + n) =? 0 then Some n else strlen_from m s (n + 1) fuel
  end.

Definition strlen (m : mem) (s : Z) (fuel : nat) : option Z := strlen_from m s 0 fuel.

(* ------------------------------------------------------------------ *)
(** ** Range specifications *)

(** Rewrites a read of an updated memory under arithmetic side conditions. *)
Ltac mem_at :=
  repeat match goal with
  | |- context [store8 ?m ?a ?v ?x] =>
      first
        [ rewrite (store8_ne m a v x) by lia
        | replace x with a by lia; rewrite store8_eq
        | let E := fresh "E" in
          destruct (Z.eq_dec x a) as [E|E];
          [rewrite E, store8_eq|rewrite (store8_ne m a v x) by exact E] ]
  end.

Lemma memset_from_at m d c i k x :
  memset_from m d c i k x = if bool_decide (d + i ≤ x < d + i + k) then u8 c else m x.
Proof.
  revert m i. induction k as [|k IH]; intros m i; simpl.
  - rewrite bool_decide_eq_false_2 by lia. done.
  - rewrite IH. repeat case_bool_decide; try lia; mem_at; auto; lia.
Qed.

Lemma memset_at m d c n x : 0 ≤ n →
  memset m d c n x = if bool_decide (d ≤ x < d + n) then u8 c else m x.
Proof.
  intros. unfold memset. rewrite memset_from_at.
  repeat case_bool_decide; auto; lia.
Qed.

Lemma memset_in m d c n x : d ≤ x < d + n → memset m d c n x = u8 c.
Proof. intros. rewrite memset_at, bool_decide_eq_true_2 by lia. done. Qed.
Lemma memset_out m d c n x : 0 ≤ n → x < d ∨ d + n ≤ x → memset m d c n x = m x.
Proof. intros. rewrite memset_at, bool_decide_eq_false_2 by lia. done. Qed.

Lemma memset_bytes_ok m d c n : bytes_ok m → bytes_ok (memset m d c n).
Proof.
  intros Hm. unfold memset. generalize 0. revert m Hm.
  induction (Z.to_nat n); simpl; auto using store8_bytes_ok.
Qed.

Lemma u8_byte m a : bytes_ok m → u8 (m a) = m a.
Proof. intros Hm. apply wrap_small. specialize (Hm a). lia. Qed.

Lemma copy_up_at m d s (n : nat) x : bytes_ok m → d ≤ s ∨ s + n ≤ d →
  copy_up m d s n x = if bool_decide (d ≤ x < d + n) then m (s + (x - d)) else m x.
Proof.
  revert m d s. induction n as [|n IH]; intros m d s Hm Hd; simpl.
  - rewrite bool_decide_eq_false_2 by lia. done.
  - rewrite IH by (auto using store8_bytes_ok; lia).
    repeat case_bool_decide; try lia; mem_at; try rewrite u8_byte by done; try lia; f_equal; lia.
Qed.

Lemma copy_down_at m d s (n : nat) x : bytes_ok m → s ≤ d ∨ d ≤ s - n →
  copy_down m d s n x = if bool_decide (d - n ≤ x < d) then m (s + (x - d)) else m x.
Proof.
  revert m d s. induction n as [|n IH]; intros m d s Hm Hd; simpl.
  - rewrite bool_decide_eq_false_2 by lia. done.
  - rewrite IH by (auto using store8_bytes_ok; lia).
    repeat case_bool_decide; try lia; mem_at; try rewrite u8_byte by done; try lia; f_equal; lia.
Qed.

Lemma memmove_at m d s n x : bytes_ok m → 0 ≤ n →
  memmove m d s n x = if bool_decide (d ≤ x < d + n) then m (s + (x - d)) else m x.
Proof.
  intros Hm Hn. unfold memmove. destruct (Z.eqb_spec n 0) as [->|].
  { rewrite bool_decide_eq_false_2 by lia. done. }
  destruct (Z.ltb_spec s d), (Z.gtb_spec (s + n) d); simpl;
    first [rewrite copy_down_at by (auto; lia) | rewrite copy_up_at by (auto; lia)];
    repeat case_bool_decide; try lia; f_equal; lia.
Qed.

Lemma copy_up_bytes_ok m d s n : bytes_ok m → bytes_ok (copy_up m d s n).
Proof. revert m d s. induction n; simpl; auto using store8_bytes_ok. Qed.
Lemma copy_down_bytes_ok m d s n : bytes_ok m → bytes_ok (copy_down m d s n).
Proof. revert m d s. induction n; simpl; auto using store8_bytes_ok. Qed.
Lemma memmove_bytes_ok m d s n : bytes_ok m → bytes_ok (memmove m d s n).
Proof.
  intros. unfold memmove. repeat case_match; auto using copy_up_bytes_ok, copy_down_bytes_ok.
Qed.

(* ------------------------------------------------------------------ *)
(** ** Bounded and terminated strings *)

(** The string a bounded routine sees at [a]: the bytes before the first
    NUL, [n] at most. *)
Fixpoint strn (m : mem) (a : Z) (n : nat) : list Z :=
  match n with
  | O => []
  | S n => if m a =? 0 then [] else m a :: strn m (a + 1) n
  end.

(** [l] is the NUL-terminated string at [a]. *)
Fixpoint cstr (m : mem) (a : Z) (l : list Z) : Prop :=
  match l with
  | [] => m a = 0
  | c :: l => m a = c ∧ c ≠ 0 ∧ cstr m (a + 1) l
  end.

Lemma cstr_inj m a l l' : cstr m a l → cstr m a l' → l = l'.
Proof.
  revert a l'. induction l as [|c l IH]; intros a [|c' l']; simpl; try done.
  - intros -> (<-&?&?). done.
  - intros (<-&?&?) ?. done.
  - intros (<-&?&?) (<-&?&?). f_equal. eauto.
Qed.

Lemma cstr_ext m m' a l :
  (∀ x, a ≤ x ≤ a + length l → m x = m' x) → cstr m a l → cstr m' a l.
Proof.
  revert a. induction l as [|c l IH]; simpl; intros a Hx.
  - rewrite (Hx a) by lia. done.
  - rewrite (Hx a) by lia. intros (?&?&?). split_and!; auto. apply IH; auto.
    intros; apply Hx; lia.
Qed.

Lemma strn_ext m m' a (n : nat) :
  (∀ x, a ≤ x < a + n → m x = m' x) → strn m a n = strn m' a n.
Proof.
  revert a. induction n as [|n IH]; intros a Hx; simpl; [done|].
  rewrite (Hx a) by lia. rewrite (IH (a + 1)); [done|]. intros; apply Hx; lia.
Qed.

Lemma length_strn m a n : (length (strn m a n) ≤ n)%nat.
Proof. revert a; induction n; intros a; simpl; [lia|]. case_match; simpl; [lia|]. specialize (IHn (a+1)). lia. Qed.

Lemma cstr_strn m a l (n : nat) : cstr m a l → (length l < n)%nat → strn m a n = l.
Proof.
  revert a n. induction l as [|c l IH]; intros a [|n]; simpl; try lia.
  - by intros ->.
  - intros (->&Hc&?) ?. rewrite (proj2 (Z.eqb_neq _ _) Hc). f_equal. apply IH; auto. lia.
Qed.

Lemma strncmp_strn m p q n : strncmp m p q n = 0 ↔ strn m p n = strn m q n.
Proof.
  revert p q. induction n as [|n IH]; intros p q; simpl; [done|].
  destruct (Z.eqb_spec (m p) 0) as [Hp|Hp]; simpl.
  - rewrite Hp. destruct (Z.eqb_spec (m q) 0); (split; [try lia; done|try lia; done]).
  - destruct (Z.eqb_spec (m p) (m q)) as [Hpq|Hpq].
    + rewrite IH, <- Hpq, (proj2 (Z.eqb_neq _ _) Hp). split; congruence.
    + destruct (Z.eqb_spec (m q) 0); split; try lia; intros; simplify_eq.
Qed.

Lemma strncpy_pad_at m s (n : nat) x :
  strncpy_pad m s n x = if bool_decide (s ≤ x < s + n) then 0 else m x.
Proof.
  revert m s. induction n as [|n IH]; intros m s; simpl.
  - rewrite bool_decide_eq_false_2 by lia. done.
  - rewrite IH. repeat case_bool_decide; try lia; mem_at; auto; lia.
Qed.

(** What the copying loop of [strncpy] leaves: [l] bytes copied, then the
    terminator when there was one. *)
Lemma strncpy_copy_at m s t (n : nat) m' s' (k : nat) :
  bytes_ok m → s + n ≤ t ∨ t + n ≤ s → strncpy_copy m s t n = (m', s', k) →
  let l := length (strn m t n) in
  s' + k = s + n ∧ s + l ≤ s' ∧
  ∀ x, m' x = if bool_decide (s ≤ x < s')
              then (if bool_decide (x < s + l) then m (t + (x - s)) else 0) else m x.
Proof.
  revert m s t. induction n as [|n IH]; intros m s t Hm Hd; simpl.
  { intros [= <- <- <-]. simpl. split_and!; try lia. intros x.
    by rewrite bool_decide_eq_false_2 by lia. }
  destruct (Z.eqb_spec (m t) 0) as [Hz|Hz]; simpl.
  { intros [= <- <- <-]. simpl. split_and!; try lia. intros x.
    repeat case_bool_decide; try lia; mem_at; try lia. by rewrite Hz. }
  intros Hc. apply IH in Hc; [|auto using store8_bytes_ok|lia].
  rewrite (strn_ext _ m) in Hc by (intros; rewrite store8_ne; lia).
  destruct Hc as (?&?&Hx). split_and!; try lia. intros x. rewrite Hx.
  repeat case_bool_decide; try lia; mem_at; try rewrite u8_byte by done; try lia; f_equal; lia.
Qed.

Lemma strncpy_at m s t (n : nat) x :
  bytes_ok m → s + n ≤ t ∨ t + n ≤ s →
  strncpy m s t n x =
    if bool_decide (s ≤ x < s + n)
    then (if bool_decide (x < s + length (strn m t n)) then m (t + (x - s)) else 0)
    else m x.
Proof.
  intros Hm Hd. unfold strncpy. rewrite Nat2Z.id.
  destruct (strncpy_copy m s t n) as [[m' s'] k] eqn:Hc.
  apply strncpy_copy_at in Hc as (?&?&Hx); auto. rewrite strncpy_pad_at, Hx.
  repeat case_bool_decide; lia.
Qed.

Lemma safestrcpy_copy_eq m s t k :
  safestrcpy_copy m s t k = (strncpy_copy m s t k).1.
Proof.
  revert m s t. induction k as [|k IH]; intros; simpl; [done|]. case_match; auto.
Qed.

Lemma strn_lookup m a (n i : nat) :
  (i < length (strn m a n))%nat → strn m a n !! i = Some (m (a + i)) ∧ m (a + i) ≠ 0.
Proof.
  revert a i. induction n as [|n IH]; intros a i; simpl; [lia|].
  destruct (Z.eqb_spec (m a) 0); simpl; [lia|]. destruct i as [|i]; simpl; intros Hi.
  - by rewrite Z.add_0_r.
  - replace (a + S i) with (a + 1 + i) by lia. apply IH. lia.
Qed.

(** A string of non-NUL bytes followed by a NUL, from its bytes. *)
Lemma cstr_intro m a l :
  (∀ (i : nat) c, l !! i = Some c → m (a + i) = c ∧ c ≠ 0) → m (a + length l) = 0 → cstr m a l.
Proof.
  revert a. induction l as [|c l IH]; intros a Hl Hz; simpl.
  - by rewrite Z.add_0_r in Hz.
  - destruct (Hl 0%nat c) as [Hc ?]; [done|]. rewrite Z.add_0_r in Hc.
    split_and!; auto. apply IH.
    + intros i d Hd. specialize (Hl (S i) d Hd).
      by replace (a + 1 + i) with (a + S i) by lia.
    + rewrite <- Hz. simpl. f_equal. lia.
Qed.

Lemma safestrcpy_at m s t n :
  bytes_ok m → 0 < n → s + n ≤ t ∨ t + n ≤ s →
  cstr (safestrcpy m s t n) s (strn m t (Z.to_nat (n - 1))) ∧
  ∀ x, x < s ∨ s + n ≤ x → safestrcpy m s t n x = m x.
Proof.
  intros Hm Hn Hd. unfold safestrcpy. rewrite (proj2 (Z.leb_gt _ _)) by lia.
  rewrite safestrcpy_copy_eq. destruct (strncpy_copy m s t _) as [[m' s'] k] eqn:Hc.
  apply strncpy_copy_at in Hc as (?&?&Hx); [|done|lia]. simpl.
  set (l := strn m t (Z.to_nat (n - 1))) in *. split.
  - apply cstr_intro.
    + intros i c Hi. pose proof (lookup_lt_Some _ _ _ Hi).
      destruct (strn_lookup m t (Z.to_nat (n - 1)) i) as [Hi' Hnz]; [done|].
      fold l in Hi'. rewrite Hi in Hi'. injection Hi' as ->. split; [|done].
      rewrite store8_ne, Hx, !bool_decide_eq_true_2 by lia. f_equal. lia.
    + destruct (Z.eq_dec (s + length l) s') as [->|]; [by rewrite store8_eq|].
      rewrite store8_ne, Hx, bool_decide_eq_true_2, bool_decide_eq_false_2 by lia. done.
  - intros x ?. rewrite store8_ne, Hx, bool_decide_eq_false_2 by lia. done.
Qed.

Lemma strlen_from_cstr m s n l fuel :
  cstr m (s + n) l → (length l < fuel)%nat → strlen_from m s n fuel = Some (n + length l).
Proof.
  revert n fuel. induction l as [|c l IH]; intros n [|fuel]; simpl; try lia.
  - intros -> _. simpl. f_equal. lia.
  - intros (->&Hc&Hl) ?. rewrite (proj2 (Z.eqb_neq _ _) Hc), IH; [f_equal; lia| |lia].
    by replace (s + (n + 1)) with (s + n + 1) by lia.
Qed.

(** Conversion reasons about these by their lemmas, not by running the loops. *)
Lemma cstr_end m a l : cstr m a l → m (a + length l) = 0.
Proof.
  revert a. induction l as [|c l IH]; intros a; simpl; [by rewrite Z.add_0_r|].
  intros (_&_&Hl). apply IH in Hl. by replace (a + S (length l)) with (a + 1 + length l) by lia.
Qed.

Lemma strn_intro m a (n : nat) l :
  (length l ≤ n)%nat → (∀ (i : nat) c, l !! i = Some c → m (a + i) = c ∧ c ≠ 0) →
  (length l = n ∨ m (a + length l) = 0) → strn m a n = l.
Proof.
  revert a n. induction l as [|c l IH]; intros a [|n]; simpl; intros Hn Hl Hz; try lia; auto.
  - destruct Hz as [?|Hz]; [lia|]. rewrite Z.add_0_r in Hz. by rewrite Hz.
  - destruct (Hl O c eq_refl) as [Hc Hc0]. rewrite Z.add_0_r in Hc. rewrite Hc, (proj2 (Z.eqb_neq _ _) Hc0). f_equal.
    apply IH; [lia| |].
    + intros i c' Hi. replace (a + 1 + i) with (a + S i) by lia. by apply Hl.
    + destruct Hz as [?|Hz]; [left; lia|right]. by replace (a + 1 + length l) with (a + S (length l)) by lia.
Qed.

(** The name stored by [strncpy] is the (bounded) name it was given. *)
Lemma strn_strncpy m s t (n : nat) :
  bytes_ok m → s + n ≤ t ∨ t + n ≤ s → strn (strncpy m s t n) s n = strn m t n.
Proof.
  intros Hm Hd. pose proof (length_strn m t n) as Hl. apply strn_intro; [done| |].
  - intros i c Hi. pose proof (lookup_lt_Some _ _ _ Hi) as Hlt. destruct (strn_lookup m t n i Hlt) as [Hi' Hnz].
    rewrite strncpy_at by done. rewrite !bool_decide_eq_true_2 by lia.
    replace (t + (s + i - s)) with (t + i) by lia. split; congruence.
  - destruct (decide (length (strn m t n) = n)); [by left|right].
    rewrite strncpy_at by done. rewrite bool_decide_eq_true_2, bool_decide_eq_false_2 by lia. done.
Qed.

(** [memmove] copies the bytes the source range held before the call,
    however the ranges overlap, and writes nothing else. *)
Theorem memmove_correct m d s n :
  bytes_ok m → 0 ≤ n →
  read_bytes (memmove m d s n) d (Z.to_nat n) = read_bytes m s (Z.to_nat n) ∧
  ∀ x, ¬ (d ≤ x < d + n) → memmove m d s n x = m x.
Proof.
  intros Hm Hn. split.
  - apply read_bytes_ext. intros i Hi. rewrite memmove_at, bool_decide_eq_true_2 by (auto; lia). f_equal. lia.
  - intros x Hx. by rewrite memmove_at, bool_decide_eq_false_2.
Qed.

(** [safestrcpy] into a buffer of [n] bytes leaves a terminated string:
    the source string, cut to [n - 1] characters, which [strlen] measures;
    nothing outside the buffer changes. *)
Theorem safestrcpy_terminates m s t n :
  bytes_ok m → 0 < n → s + n ≤ t ∨ t + n ≤ s →
  let m' := safestrcpy m s t n in
  strn m' s (Z.to_nat n) = strn m t (Z.to_nat (n - 1)) ∧
  (∃ k, strlen m' s (Z.to_nat n) = Some k ∧ 0 ≤ k < n ∧ m' (s + k) = 0) ∧
  ∀ x, x < s ∨ s + n ≤ x → m' x = m x.
Proof.
  intros Hm Hn Hd m'. destruct (safestrcpy_at m s t n Hm Hn Hd) as [Hc Hx].
  set (l := strn m t (Z.to_nat (n - 1))) in *. assert (length l ≤ Z.to_nat (n - 1))%nat by apply length_strn.
  split_and!; [apply cstr_strn; auto; lia| |done]. exists (length l). split_and!; [|lia..|].
  - unfold strlen. rewrite (strlen_from_cstr _ _ 0 l); [done|by rewrite Z.add_0_r|lia].
  - by apply cstr_end.
Qed.

(** A name stored by [strncpy] into an [n]-byte field (the name of a
    directory entry) compares equal under [strncmp] to exactly the names
    with the same first [n] characters, although a full field has no
    terminator. *)
Theorem strncpy_strncmp m s t q (n : nat) :
  bytes_ok m → s + n ≤ t ∨ t + n ≤ s → s + n ≤ q ∨ q + n ≤ s →
  strncmp (strncpy m s t n) s q n = 0 ↔ strn m q n = strn m t n.
Proof.
  intros Hm Ht Hq. rewrite strncmp_strn, strn_strncpy by done.
  rewrite (strn_ext (strncpy m s t n) m q); [done|].
  intros x ?. rewrite strncpy_at by done. by rewrite bool_decide_eq_false_2 by lia.
Qed.

(** "abc" at address 8, zero elsewhere. *)
Definition mem_abc : mem := λ x, if x =? 8 then 97 else if x =? 9 then 98 else if x =? 10 then 99 else 0.

Lemma mem_abc_ok : bytes_ok mem_abc.
Proof. intros x. unfold mem_abc. repeat case_match; lia. Qed.

Lemma memmove_correct_witness :
  read_bytes (memmove mem_abc 9 8 3) 9 3 = [97; 98; 99] ∧
  ∀ x, ¬ (9 ≤ x < 9 + 3) → memmove mem_abc 9 8 3 x = mem_abc x.
Proof. apply (memmove_correct mem_abc 9 8 3 mem_abc_ok). lia. Defined.

Lemma safestrcpy_terminates_witness :
  let m' := safestrcpy mem_abc 32 8 3 in
  strn m' 32 3 = [97; 98] ∧
  (∃ k, strlen m' 32 3 = Some k ∧ 0 ≤ k < 3 ∧ m' (32 + k) = 0) ∧
  ∀ x, x < 32 ∨ 32 + 3 ≤ x → m' x = mem_abc x.
Proof. apply (safestrcpy_terminates mem_abc 32 8 3 mem_abc_ok); lia. Defined.

Lemma strncpy_strncmp_witness :
  strncmp (strncpy mem_abc 32 8 14%nat) 32 64 14%nat = 0 ↔ strn mem_abc 64 14 = strn mem_abc 8 14.
Proof. apply (strncpy_strncmp mem_abc 32 8 64 14 mem_abc_ok); lia. Defined.

#[global] Opaque memset memmove.
