(* ===== verification/Kalloc.v ===== *)
(** * kernel/kalloc.c: the physical page allocator

    The free list is the linked list the source keeps inside the free pages
    themselves: [kmem.freelist] points to the first page, whose first eight
    bytes hold the next pointer.  [kend] stands for the linker's [end] symbol
    (kernel.ld), the first address after the kernel. *)

From S2P Require Import Prelude Kstring.

Definition KERNBASE : Z := 0x80000000.
Definition PHYSTOP : Z := KERNBASE + 128 * 1024 * 1024.

Record kstate := KState {
  k_mem : mem;        (* physical memory *)
  k_free : Z;         (* kmem.freelist *)
  k_lock : bool       (* kmem.lock held by this CPU *)
}.

Definition set_mem (m : mem) (s : kstate) : kstate := KState m (k_free s) (k_lock s).
Definition set_free (p : Z) (s : kstate) : kstate := KState (k_mem s) p (k_lock s).
Definition set_lock (b : bool) (s : kstate) : kstate := KState (k_mem s) (k_free s) b.
Definition upd_mem (f : mem → mem) : M kstate unit := modify (λ s, set_mem (f (k_mem s)) s).

Section kalloc.
Variable kend : Z.

Definition kfree (pa : Z) : M kstate unit :=
  if negb (pa `mod` PGSIZE =? 0) || (pa <? kend) || (pa >=? PHYSTOP)
  then panic "kfree"
  else
    upd_mem (λ m, memset m pa 1 PGSIZE) ;;
    acquire k_lock set_lock ;;
    next ← gets k_free;
    upd_mem (λ m, store64 m pa next) ;;
    modify (set_free pa) ;;
    release k_lock set_lock.

Definition kalloc : M kstate Z :=
  acquire k_lock set_lock ;;
  r ← gets k_free;
  (if r =? 0 then mret tt
   else next ← gets (λ s, load64 (k_mem s) r); modify (set_free next)) ;;
  release k_lock set_lock ;;
  (if r =? 0 then mret tt else upd_mem (λ m, memset m r 5 PGSIZE)) ;;
  mret r.

Fixpoint freerange_loop (p pa_end : Z) (fuel : nat) : M kstate unit :=
  match fuel with
  | O => λ _, NoFuel
  | S fuel =>
      if p + PGSIZE <=? pa_end
      then kfree p ;; freerange_loop (p + PGSIZE) pa_end fuel
      else mret tt
  end.

(** One iteration per page of the range and one to leave the loop. *)
Definition freerange (pa_start pa_end : Z) : M kstate unit :=
  freerange_loop (PGROUNDUP pa_start) pa_end
    (Z.to_nat ((pa_end - PGROUNDUP pa_start) / PGSIZE + 1) + 1).

Definition kinit : M kstate unit :=
  modify (set_lock false) ;; freerange kend PHYSTOP.

(* ------------------------------------------------------------------ *)
(** ** The allocator's invariant *)

(** A page the allocator may hand out. *)
Definition page_ok (p : Z) : Prop := aligned p ∧ kend ≤ p < PHYSTOP.

(** The free list from [head] runs through the pages [l]. *)
Fixpoint free_at (m : mem) (head : Z) (l : list Z) : Prop :=
  match l with
  | [] => head = 0
  | p :: l => head = p ∧ free_at m (load64 m p) l
  end.

Record kmem_ok (s : kstate) (l : list Z) : Prop := {
  ok_bytes : bytes_ok (k_mem s);
  ok_list : free_at (k_mem s) (k_free s) l;
  ok_pages : Forall page_ok l;
  ok_nodup : NoDup l;
  ok_lock : k_lock s = false
}.

(** Memory outside the page [p] is the same. *)
Definition same_outside (p : Z) (m m' : mem) : Prop :=
  ∀ x, x < p ∨ p + PGSIZE ≤ x → m' x = m x.

Hypothesis kend_pos : 0 < kend.

Lemma page_ok_nz p : page_ok p → p ≠ 0.
Proof. unfold page_ok. lia. Qed.

Lemma kfree_guard p :
  page_ok p ↔ negb (p `mod` PGSIZE =? 0) || (p <? kend) || (p >=? PHYSTOP) = false.
Proof.
  unfold page_ok, aligned. rewrite !orb_false_iff, negb_false_iff, Z.eqb_eq, Z.ltb_ge, Z.geb_leb, Z.leb_gt. lia.
Qed.

Lemma free_at_ext m m' h l :
  (∀ p x, p ∈ l → p ≤ x < p + 8 → m x = m' x) → free_at m h l → free_at m' h l.
Proof.
  revert h. induction l as [|p l IH]; intros h Hx; simpl; [done|]. intros [-> Hl]. split; [done|].
  rewrite <- (load64_ext m). { apply IH; [|done]. intros; eapply Hx; [by right|done]. }
  intros; eapply Hx; [by left|lia].
Qed.

(** A change confined to a page off the list leaves the list alone. *)
Lemma free_at_same_outside m m' h l p :
  page_ok p → Forall page_ok l → p ∉ l → same_outside p m m' → free_at m h l → free_at m' h l.
Proof.
  intros [Hp _] Hl Hn Hs. apply free_at_ext. intros q x Hq ?. symmetry. apply Hs.
  rewrite Forall_forall in Hl. destruct (Hl q Hq) as [Hqa _].
  assert (q ≠ p) by congruence. destruct (aligned_disjoint q p Hqa Hp); unfold PGSIZE in *; lia.
Qed.

Lemma kfree_wp p s l :
  kmem_ok s l → page_ok p → p ∉ l →
  wp (kfree p) (λ _ s', kmem_ok s' (p :: l) ∧ same_outside p (k_mem s) (k_mem s')) s.
Proof.
  intros [Hb Hl Hp Hn Hk] Hok Hnin. unfold kfree.
  rewrite (proj1 (kfree_guard p) Hok). unfold upd_mem.
  destruct s as [m h lk]; simpl in *; subst lk.
  wp_steps. simpl. assert (Hs : same_outside p m (store64 (memset m p 1 PGSIZE) p h)).
  { intros x Hx. unfold store64. rewrite store_le_other, memset_out; auto; unfold PGSIZE in *; lia. }
  split; [split|done]; simpl; auto.
  - apply store_le_bytes_ok, memset_bytes_ok, Hb.
  - split; [done|]. rewrite load64_store64; [by eapply free_at_same_outside|].
    destruct l as [|q l]; simpl in Hl; [subst; lia|]. destruct Hl as [-> _].
    inversion_clear Hp as [|? ? [_ Hq] _]. unfold PHYSTOP, KERNBASE in Hq. lia.
  - by constructor.
Qed.

Lemma kalloc_empty_wp s :
  kmem_ok s [] → kalloc s = Ok 0 s.
Proof.
  intros [Hb Hl Hp Hn Hk]. destruct s as [m h lk]; simpl in *; subst. done.
Qed.

Lemma kalloc_wp s p l :
  kmem_ok s (p :: l) →
  wp kalloc (λ r s', r = p ∧ kmem_ok s' l ∧ same_outside p (k_mem s) (k_mem s') ∧
                     ∀ x, p ≤ x < p + PGSIZE → k_mem s' x = 5) s.
Proof.
  intros [Hb Hl Hp Hn Hk]. destruct s as [m h lk]; simpl in *; subst lk.
  destruct Hl as [-> Hl]. apply Forall_cons in Hp as [Hok Hp]. apply NoDup_cons in Hn as [Hnin Hn].
  assert (Hs : same_outside p m (memset m p 5 PGSIZE)).
  { intros x Hx. apply memset_out; auto. unfold PGSIZE; lia. }
  unfold kalloc, upd_mem. wp_steps. simpl.
  rewrite (proj2 (Z.eqb_neq p 0)) by (by apply page_ok_nz).
  wp_steps. simpl. split_and!; auto.
  - split; simpl; auto using memset_bytes_ok. by eapply free_at_same_outside.
  - intros x ?. by rewrite memset_in.
Qed.

(** ** Building the free list *)

Fixpoint pages_from (p : Z) (n : nat) : list Z :=
  match n with O => [] | S n => p :: pages_from (p + PGSIZE) n end.

Lemma elem_of_pages_from p n q :
  q ∈ pages_from p n ↔ ∃ i : nat, (i < n)%nat ∧ q = p + PGSIZE * i.
Proof.
  revert p. induction n as [|n IH]; intros p; simpl.
  - rewrite elem_of_nil. split; [done|intros (?&?&?); lia].
  - rewrite elem_of_cons, IH. split.
    + intros [->|(i&?&->)]; [exists 0%nat|exists (S i)]; (split; [lia|unfold PGSIZE; lia]).
    + intros ([|i]&?&->); [left; lia|right; exists i; split; [lia|unfold PGSIZE; lia]].
Qed.

Lemma freerange_loop_wp p e (n fuel : nat) s l :
  p + PGSIZE * n ≤ e < p + PGSIZE * n + PGSIZE → (n < fuel)%nat →
  kmem_ok s l → Forall page_ok (pages_from p n) → (∀ q, q ∈ l → q < p) →
  wp (freerange_loop p e fuel) (λ _ s', kmem_ok s' (reverse (pages_from p n) ++ l) ∧ ∀ x, x < kend → k_mem s' x = k_mem s x) s.
Proof.
  revert p fuel s l. induction n as [|n IH]; intros p [|fuel] s l He Hf Hs Hp Hl; simpl; try lia.
  - rewrite (proj2 (Z.leb_gt _ _)) by (unfold PGSIZE in *; lia). by apply wp_ret.
  - rewrite (proj2 (Z.leb_le _ _)) by (unfold PGSIZE in *; lia).
    simpl in Hp. apply Forall_cons in Hp as [Hok Hp]. wp_step.
    wp_use kfree_wp; [done|done|intros ?%Hl; lia|]. intros _ s' [Hs' Ho].
    wp_use (IH (p + PGSIZE) fuel s' (p :: l)); auto; try (unfold PGSIZE in *; lia).
    + intros q [->|Hq%Hl]%elem_of_cons; unfold PGSIZE; lia.
    + intros _ s'' [Hs'' Ho']. rewrite reverse_cons, <- (assoc_L (++)). split; [done|]. intros x Hx. rewrite Ho' by done.
      apply Ho. destruct Hok. lia.
Qed.

Lemma page_ok_iff_range n p :
  kend ≤ PHYSTOP → n = Z.to_nat ((PHYSTOP - PGROUNDUP kend) / PGSIZE) →
  p ∈ pages_from (PGROUNDUP kend) n ↔ page_ok p.
Proof.
  intros He ->. rewrite elem_of_pages_from. unfold page_ok.
  assert (PHYSTOP = PGSIZE * 557056) as HPS by reflexivity.
  rewrite PGROUNDUP_eq by (unfold PGSIZE; rewrite ?HPS in *; unfold PGSIZE in *; lia).
  rewrite HPS, <- Z.mul_sub_distr_l, Z.mul_comm, Z.div_mul by done.
  assert (kend ≤ PGSIZE * ((kend + PGSIZE - 1) / PGSIZE) < kend + PGSIZE) as Hr.
  { pose proof (Z.div_mod (kend + PGSIZE - 1) PGSIZE). pose proof (Z.mod_pos_bound (kend + PGSIZE - 1) PGSIZE).
    unfold PGSIZE in *. lia. }
  set (k := (kend + PGSIZE - 1) / PGSIZE) in *. split.
  - intros (i&?&->). rewrite <- Z.mul_add_distr_l. split; [apply aligned_mul|]. unfold PGSIZE in *. lia.
  - intros [Hp%aligned_inv Hb]. exists (Z.to_nat (p / PGSIZE - k)). unfold PGSIZE in *. lia.
Qed.

Lemma kinit_wp s :
  kend ≤ PHYSTOP → bytes_ok (k_mem s) → k_free s = 0 →
  wp kinit (λ _ s', ∃ l, kmem_ok s' l ∧ (∀ p, p ∈ l ↔ page_ok p) ∧ ∀ x, x < kend → k_mem s' x = k_mem s x) s.
Proof.
  intros He Hb Hf. unfold kinit, freerange. wp_steps.
  set (n := Z.to_nat ((PHYSTOP - PGROUNDUP kend) / PGSIZE)).
  assert (PHYSTOP = PGSIZE * 557056) as HPS by reflexivity.
  assert (0 ≤ PHYSTOP - PGROUNDUP kend ∧ aligned (PHYSTOP - PGROUNDUP kend)) as [Hge Hal].
  { rewrite PGROUNDUP_eq by (rewrite ?HPS in *; unfold PGSIZE in *; lia).
    rewrite HPS, <- Z.mul_sub_distr_l in *. split; [|apply aligned_mul].
    apply Z.mul_nonneg_nonneg; [done|]. apply Z.le_0_sub, Z.lt_succ_r, Z.div_lt_upper_bound;
      unfold PGSIZE in *; lia. }
  apply aligned_inv in Hal. assert (0 ≤ (PHYSTOP - PGROUNDUP kend) / PGSIZE) by (apply Z.div_pos; [lia|done]).
  wp_use (freerange_loop_wp _ _ n _ _ []); unfold n.
  - rewrite Z2Nat.id by done. unfold PGSIZE in *. lia.
  - lia.
  - split; simpl; auto. constructor.
  - apply Forall_forall. intros p. by apply page_ok_iff_range.
  - by intros q ?%elem_of_nil.
  - intros _ s' [Hs' Hlow]. eexists. split; [exact Hs'|]. split; [|exact Hlow]. intros p.
    rewrite app_nil_r, elem_of_reverse. by apply page_ok_iff_range.
Qed.

(* ------------------------------------------------------------------ *)
(** ** The allocator as a machine

    [a] lists the pages handed out.  Their owners may write to them and give
    them back in any order. *)
Inductive kstep : kstate * list Z → kstate * list Z → Prop :=
  | ks_alloc s s' r a : kalloc s = Ok r s' → r ≠ 0 → kstep (s, a) (s', r :: a)
  | ks_empty s s' a : kalloc s = Ok 0 s' → kstep (s, a) (s', a)
  | ks_write s a p m : p ∈ a → same_outside p (k_mem s) m → bytes_ok m →
      kstep (s, a) (set_mem m s, a)
  | ks_free s s' a1 p a2 : kfree p s = Ok tt s' → kstep (s, a1 ++ p :: a2) (s', a1 ++ a2).

(** Free and allocated pages together are the pages of the machine, each once. *)
Definition accounted (st : kstate * list Z) : Prop :=
  ∃ l, kmem_ok st.1 l ∧ NoDup (l ++ st.2) ∧ ∀ p, p ∈ l ++ st.2 ↔ page_ok p.

Lemma kstep_accounted st st' : kstep st st' → accounted st → accounted st'.
Proof.
  intros Hstep (l&Hk&Hnd&Hall). destruct Hstep as [s s' r a Ha Hr|s s' a Ha|s a p m Hp Hm Hb|s s' a1 p a2 Hf];
    unfold accounted in *; simpl in *.
  - destruct l as [|q l]. { rewrite kalloc_empty_wp in Ha by done. naive_solver. }
    pose proof (kalloc_wp _ _ _ Hk) as Hw. unfold wp in Hw. rewrite Ha in Hw.
    destruct Hw as (->&Hk'&_). exists l. split; [done|].
    assert (l ++ q :: a ≡ₚ (q :: l) ++ a) as HP by (symmetry; apply Permutation_middle).
    split; [by rewrite HP|]. intros x. by rewrite HP.
  - destruct l as [|q l]. { rewrite kalloc_empty_wp in Ha by done. simplify_eq. by exists []. }
    pose proof (kalloc_wp _ _ _ Hk) as Hw. unfold wp in Hw. rewrite Ha in Hw. destruct Hw as (<-&_).
    destruct Hk as [_ _ Hok _ _]. apply Forall_cons in Hok as [[_ ?] _]. lia.
  - exists l. split; [|done]. destruct Hk. split; simpl; auto.
    eapply free_at_same_outside; eauto.
    + apply Hall. set_solver.
    + intros Hpl. apply NoDup_app in Hnd as (_&Hd&_). by eapply Hd.
  - assert (page_ok p) as Hok by (apply Hall; set_solver).
    assert (l ++ a1 ++ p :: a2 ≡ₚ (p :: l) ++ a1 ++ a2) as HP.
    { rewrite <- Permutation_middle, <- Permutation_middle. done. }
    assert (p ∉ l) as Hnin. { rewrite HP in Hnd. simpl in Hnd. apply NoDup_cons in Hnd. set_solver. }
    pose proof (kfree_wp _ _ _ Hk Hok Hnin) as Hw. unfold wp in Hw. rewrite Hf in Hw.
    exists (p :: l). split; [apply Hw|]. split; [by rewrite <- HP|]. intros x. by rewrite <- HP.
Qed.

(** What the rest of the kernel relies on: no page is handed out twice or
    lost, [kalloc] finds a page whenever one is free, and every page handed
    out can be given back. *)
Definition alloc_safe (st : kstate * list Z) : Prop :=
  accounted st ∧
  wp kalloc (λ r _, r = 0 ∧ (∀ p, page_ok p → p ∈ st.2) ∨ page_ok r ∧ r ∉ st.2) st.1 ∧
  ∀ p, p ∈ st.2 → wp (kfree p) (λ _ _, True) st.1.

Lemma accounted_safe st : accounted st → alloc_safe st.
Proof.
  intros (l&Hk&Hnd&Hall). split; [by exists l|]. destruct st as [s a]; simpl in *.
  apply NoDup_app in Hnd as (Hndl&Hd&Hnda). split.
  - destruct l as [|q l].
    + unfold wp. rewrite kalloc_empty_wp by done. left. split; [done|]. intros p ?. by apply Hall.
    + wp_use (kalloc_wp s q l); [done|]. intros r s' (->&_). right. split; [apply Hall; set_solver|].
      apply Hd. set_solver.
  - intros p Hp. wp_use (kfree_wp p s l); [done|apply Hall; set_solver| |done].
    intros Hpl. by apply (Hd p).
Qed.

(** C38: After [kinit], and after any sequence of allocations, frees and writes
    by page owners to their own pages, free and allocated pages together are
    exactly the pages between the kernel's end and PHYSTOP, each once;
    [kalloc] returns 0 only when every page is handed out, never returns a
    page in use, and no page handed out makes [kfree] panic. *)
Theorem kalloc_pages_accounted s :
  kend ≤ PHYSTOP → bytes_ok (k_mem s) → k_free s = 0 →
  wp kinit (λ _ s1, ∀ st, rtc kstep (s1, []) st → alloc_safe st) s.
Proof.
  intros He Hb Hf. wp_use (kinit_wp s); auto. intros _ s1 (l&Hk&Hall&_) st Hst. apply accounted_safe.
  assert (accounted (s1, [])) as Ha.
  { exists l. simpl. rewrite app_nil_r. split; [done|]. split; [apply Hk|done]. }
  remember (s1, @nil Z) as st0 eqn:E. clear E. induction Hst; eauto using kstep_accounted.
Qed.

(** [kfree] panics on exactly the addresses that are not page-aligned
    pages of the allocator's range; otherwise it gives the page back: the
    next [kalloc] returns it, and the allocator is as before. *)
Theorem kfree_kalloc_roundtrip p s l :
  kmem_ok s l → p ∉ l →
  (page_ok p → wp (kfree p ;; kalloc) (λ r s', r = p ∧ kmem_ok s' l ∧ same_outside p (k_mem s) (k_mem s')) s) ∧
  (¬ page_ok p → kfree p s = Panic "kfree").
Proof.
  intros Hk Hp. split.
  - intros Hok. wp_step. wp_use kfree_wp; [done..|]. intros _ s1 [Hk1 Hs1].
    wp_use kalloc_wp; [done|]. intros r s2 (->&Hk2&Hs2&_). split_and!; auto.
    intros x Hx. rewrite Hs2 by done. by apply Hs1.
  - intros Hn. unfold kfree. destruct (_ || _) eqn:E; [done|]. by apply kfree_guard in E.
Qed.

End kalloc.

(** The machine of kernel.ld's [end] just above the kernel image, memory zero. *)
Definition kend_ex : Z := 0x80021000.
Definition kstate_ex : kstate := KState (λ _, 0) 0 false.

Lemma kalloc_pages_accounted_witness :
  wp (kinit kend_ex) (λ _ s1, ∀ st, rtc (kstep kend_ex) (s1, []) st → alloc_safe kend_ex st) kstate_ex.
Proof. apply (kalloc_pages_accounted kend_ex); [done|done|intros x; simpl; lia|done]. Defined.

Lemma kfree_kalloc_roundtrip_witness :
  wp (kfree kend_ex kend_ex ;; kalloc)
    (λ r s', r = kend_ex ∧ kmem_ok kend_ex s' [] ∧ same_outside kend_ex (k_mem kstate_ex) (k_mem s')) kstate_ex ∧
  kfree kend_ex 0x80021008 kstate_ex = Panic "kfree".
Proof.
  assert (kmem_ok kend_ex kstate_ex []) as Hk by (split; simpl; try done; try constructor; simpl; lia).
  split.
  - apply (kfree_kalloc_roundtrip kend_ex ltac:(done) kend_ex kstate_ex [] Hk); [apply not_elem_of_nil|].
    split; [reflexivity|done].
  - apply (kfree_kalloc_roundtrip kend_ex ltac:(done) 0x80021008 kstate_ex [] Hk); [apply not_elem_of_nil|].
    intros [H _]. discriminate H.
Defined.
