(* ===== verification/Vm.v ===== *)
(** * kernel/vm.c: page tables and user memory

    Page tables live in physical memory as the three-level Sv39 tree of 512
    64-bit entries per page; every function is the source's, over the
    allocator's state ([Kalloc.kstate]).  Kernel buffers are addresses of the
    same memory, since the kernel maps physical memory directly.  Pointers and
    sizes are 64-bit; [kend] is the linker's [end].  Loops carry a fuel
    computed from the range they cover. *)

From S2P Require Import Prelude Kstring Kalloc.

(** ** kernel/riscv.h: page-table entries and indices *)

Definition PTE_V : Z := Z.shiftl 1 0.
Definition PTE_R : Z := Z.shiftl 1 1.
Definition PTE_W : Z := Z.shiftl 1 2.
Definition PTE_X : Z := Z.shiftl 1 3.
Definition PTE_U : Z := Z.shiftl 1 4.

Definition PA2PTE (pa : Z) : Z := u64 (Z.shiftl (Z.shiftr pa 12) 10).
Definition PTE2PA (pte : Z) : Z := u64 (Z.shiftl (Z.shiftr pte 10) 12).
Definition PTE_FLAGS (pte : Z) : Z := Z.land pte 0x3FF.
Definition PXSHIFT (level : Z) : Z := 12 + 9 * level.
Definition PX (level va : Z) : Z := Z.land (Z.shiftr va (PXSHIFT level)) 0x1FF.
Definition MAXVA : Z := Z.shiftl 1 (9 + 9 + 9 + 12 - 1).

(** kernel/memlayout.h *)
Definition TRAMPOLINE : Z := MAXVA - PGSIZE.
Definition TRAPFRAME : Z := TRAMPOLINE - PGSIZE.

Section vm.
Variable kend : Z.

Definition load_pte (a : Z) : M kstate Z := gets (λ s, load64 (k_mem s) a).
Definition store_pte (a v : Z) : M kstate unit := upd_mem (λ m, store64 m a v).

(** The loop of [walk], from [level] down to the last table. *)
Fixpoint walk_levels (pagetable va : Z) (alloc : bool) (level : nat) : M kstate Z :=
  match level with
  | O => mret (pagetable + 8 * PX 0 va)
  | S level' =>
      let pte := pagetable + 8 * PX level va in
      v ← load_pte pte;
      if has_bits v PTE_V then walk_levels (PTE2PA v) va alloc level'
      else if negb alloc then mret 0
      else
        pagetable ← kalloc;
        if pagetable =? 0 then mret 0
        else
          upd_mem (λ m, memset m pagetable 0 PGSIZE) ;;
          store_pte pte (Z.lor (PA2PTE pagetable) PTE_V) ;;
          walk_levels pagetable va alloc level'
  end.

Definition walk (pagetable va : Z) (alloc : bool) : M kstate Z :=
  if va >=? MAXVA then panic "walk" else walk_levels pagetable va alloc 2.

Definition walkaddr (pagetable va : Z) : M kstate Z :=
  if va >=? MAXVA then mret 0
  else
    pte ← walk pagetable va false;
    if pte =? 0 then mret 0
    else
      v ← load_pte pte;
      if negb (has_bits v PTE_V) then mret 0
      else if negb (has_bits v PTE_U) then mret 0
      else mret (PTE2PA v).

(** The loop of [mappages]: [0] on success, [-1] when [walk] is out of
    memory. *)
Fixpoint mappages_loop (pagetable a last pa perm : Z) (fuel : nat) : M kstate Z :=
  match fuel with
  | O => λ _, NoFuel
  | S fuel =>
      pte ← walk pagetable a true;
      if pte =? 0 then mret (-1)
      else
        v ← load_pte pte;
        if has_bits v PTE_V then panic "mappages: remap"
        else
          store_pte pte (Z.lor (Z.lor (PA2PTE pa) perm) PTE_V) ;;
          if a =? last then mret 0
          else mappages_loop pagetable (u64 (a + PGSIZE)) last (u64 (pa + PGSIZE)) perm fuel
  end.

(** The loop runs to [last], or, when the range wraps, until [walk] panics
    above [MAXVA]. *)
Definition mappages_fuel (a last : Z) : nat :=
  if a <=? last then Z.to_nat ((last - a) / PGSIZE + 1)
  else Z.to_nat (MAXVA / PGSIZE + 2).

Definition mappages (pagetable va size pa perm : Z) : M kstate Z :=
  if size =? 0 then panic "mappages: size"
  else
    let a := PGROUNDDOWN va in
    let last := PGROUNDDOWN (u64 (va + size - 1)) in
    mappages_loop pagetable a last pa perm (mappages_fuel a last).

Definition kvmmap (kpgtbl va pa sz perm : Z) : M kstate unit :=
  r ← mappages kpgtbl va sz pa perm;
  if r =? 0 then mret tt else panic "kvmmap".

Fixpoint uvmunmap_loop (pagetable a aend : Z) (do_free : bool) (fuel : nat) : M kstate unit :=
  match fuel with
  | O => λ _, NoFuel
  | S fuel =>
      if a <? aend then
        pte ← walk pagetable a false;
        if pte =? 0 then panic "uvmunmap: walk"
        else
          v ← load_pte pte;
          if negb (has_bits v PTE_V) then panic "uvmunmap: not mapped"
          else if PTE_FLAGS v =? PTE_V then panic "uvmunmap: not a leaf"
          else
            when do_free (kfree kend (PTE2PA v)) ;;
            store_pte pte 0 ;;
            uvmunmap_loop pagetable (u64 (a + PGSIZE)) aend do_free fuel
      else mret tt
  end.

(** Iterations left from [a] to [aend], and one to leave the loop. *)
Definition range_fuel (a aend : Z) : nat := Z.to_nat ((aend - a) / PGSIZE + 2).

Definition uvmunmap (pagetable va npages : Z) (do_free : bool) : M kstate unit :=
  if negb (va `mod` PGSIZE =? 0) then panic "uvmunmap: not aligned"
  else
    let aend := u64 (va + npages * PGSIZE) in
    uvmunmap_loop pagetable va aend do_free (range_fuel va aend).

Definition uvmcreate : M kstate Z :=
  pagetable ← kalloc;
  if pagetable =? 0 then mret 0
  else upd_mem (λ m, memset m pagetable 0 PGSIZE) ;; mret pagetable.

Definition uvmfirst (pagetable src sz : Z) : M kstate unit :=
  if sz >=? PGSIZE then panic "uvmfirst: more than a page"
  else
    mem ← kalloc;
    upd_mem (λ m, memset m mem 0 PGSIZE) ;;
    mappages pagetable 0 PGSIZE mem (Z.lor (Z.lor (Z.lor PTE_W PTE_R) PTE_X) PTE_U) ;;
    upd_mem (λ m, memmove m mem src sz).

Definition uvmdealloc (pagetable oldsz newsz : Z) : M kstate Z :=
  if newsz >=? oldsz then mret oldsz
  else
    (if PGROUNDUP newsz <? PGROUNDUP oldsz then
       let npages := s32 ((PGROUNDUP oldsz - PGROUNDUP newsz) / PGSIZE) in
       uvmunmap pagetable (PGROUNDUP newsz) (u64 npages) true
     else mret tt) ;;
    mret newsz.

Fixpoint uvmalloc_loop (pagetable a oldsz newsz xperm : Z) (fuel : nat) : M kstate Z :=
  match fuel with
  | O => λ _, NoFuel
  | S fuel =>
      if a <? newsz then
        mem ← kalloc;
        if mem =? 0 then uvmdealloc pagetable a oldsz ;; mret 0
        else
          upd_mem (λ m, memset m mem 0 PGSIZE) ;;
          r ← mappages pagetable a PGSIZE mem (Z.lor (Z.lor PTE_R PTE_U) xperm);
          if negb (r =? 0) then
            kfree kend mem ;; uvmdealloc pagetable a oldsz ;; mret 0
          else uvmalloc_loop pagetable (u64 (a + PGSIZE)) oldsz newsz xperm fuel
      else mret newsz
  end.

Definition uvmalloc (pagetable oldsz newsz xperm : Z) : M kstate Z :=
  if newsz <? oldsz then mret oldsz
  else
    let oldsz := PGROUNDUP oldsz in
    uvmalloc_loop pagetable oldsz oldsz newsz xperm (range_fuel oldsz newsz).

(** [freewalk] recurses on the children of a table; [depth] bounds the height
    of the tree (three tables deep for Sv39). *)
Fixpoint freewalk_entries (sub : Z → M kstate unit) (pagetable : Z) (i : Z) (n : nat) : M kstate unit :=
  match n with
  | O => mret tt
  | S n =>
      pte ← load_pte (pagetable + 8 * i);
      (if has_bits pte PTE_V && (Z.land pte (Z.lor (Z.lor PTE_R PTE_W) PTE_X) =? 0) then
         sub (PTE2PA pte) ;; store_pte (pagetable + 8 * i) 0
       else if has_bits pte PTE_V then panic "freewalk: leaf"
       else mret tt) ;;
      freewalk_entries sub pagetable (i + 1) n
  end.

Fixpoint freewalk (depth : nat) (pagetable : Z) : M kstate unit :=
  match depth with
  | O => λ _, NoFuel
  | S depth =>
      freewalk_entries (freewalk depth) pagetable 0 512 ;;
      kfree kend pagetable
  end.

Definition uvmfree (pagetable sz : Z) : M kstate unit :=
  (if sz >? 0 then uvmunmap pagetable 0 (PGROUNDUP sz / PGSIZE) true else mret tt) ;;
  freewalk 3 pagetable.

Fixpoint uvmcopy_loop (old new i sz : Z) (fuel : nat) : M kstate Z :=
  match fuel with
  | O => λ _, NoFuel
  | S fuel =>
      if i <? sz then
        pte ← walk old i false;
        if pte =? 0 then panic "uvmcopy: pte should exist"
        else
          v ← load_pte pte;
          if negb (has_bits v PTE_V) then panic "uvmcopy: page not present"
          else
            let pa := PTE2PA v in
            let flags := PTE_FLAGS v in
            mem ← kalloc;
            if mem =? 0 then uvmunmap new 0 (i / PGSIZE) true ;; mret (-1)
            else
              upd_mem (λ m, memmove m mem pa PGSIZE) ;;
              r ← mappages new i PGSIZE mem flags;
              if negb (r =? 0) then
                kfree kend mem ;; uvmunmap new 0 (i / PGSIZE) true ;; mret (-1)
              else uvmcopy_loop old new (u64 (i + PGSIZE)) sz fuel
      else mret 0
  end.

Definition uvmcopy (old new sz : Z) : M kstate Z :=
  uvmcopy_loop old new 0 sz (range_fuel 0 sz).

Definition uvmclear (pagetable va : Z) : M kstate unit :=
  pte ← walk pagetable va false;
  if pte =? 0 then panic "uvmclear"
  else v ← load_pte pte; store_pte pte (Z.land v (Z.lnot PTE_U)).

(** ** Copying between kernel and user space *)

(** Each round covers at least one byte and, from the second on, a page. *)
Definition copy_fuel (len : Z) : nat := Z.to_nat (len / PGSIZE + 3).

Fixpoint copyout_loop (pagetable dstva src len : Z) (fuel : nat) : M kstate Z :=
  match fuel with
  | O => λ _, NoFuel
  | S fuel =>
      if len >? 0 then
        let va0 := PGROUNDDOWN dstva in
        pa0 ← walkaddr pagetable va0;
        if pa0 =? 0 then mret (-1)
        else
          let n := PGSIZE - (dstva - va0) in
          let n := if n >? len then len else n in
          upd_mem (λ m, memmove m (pa0 + (dstva - va0)) src n) ;;
          copyout_loop pagetable (u64 (va0 + PGSIZE)) (src + n) (len - n) fuel
      else mret 0
  end.

Definition copyout (pagetable dstva src len : Z) : M kstate Z :=
  copyout_loop pagetable dstva src len (copy_fuel len).

Fixpoint copyin_loop (pagetable dst srcva len : Z) (fuel : nat) : M kstate Z :=
  match fuel with
  | O => λ _, NoFuel
  | S fuel =>
      if len >? 0 then
        let va0 := PGROUNDDOWN srcva in
        pa0 ← walkaddr pagetable va0;
        if pa0 =? 0 then mret (-1)
        else
          let n := PGSIZE - (srcva - va0) in
          let n := if n >? len then len else n in
          upd_mem (λ m, memmove m dst (pa0 + (srcva - va0)) n) ;;
          copyin_loop pagetable (dst + n) (u64 (va0 + PGSIZE)) (len - n) fuel
      else mret 0
  end.

Definition copyin (pagetable dst srcva len : Z) : M kstate Z :=
  copyin_loop pagetable dst srcva len (copy_fuel len).

(** The inner loop of [copyinstr] over the [n] bytes left of a page: whether
    the NUL was met, and the destination and budget it leaves. *)
Fixpoint copyinstr_page (p dst max : Z) (n : nat) : M kstate (bool * Z * Z) :=
  match n with
  | O => mret (false, dst, max)
  | S n =>
      c ← gets (λ s, k_mem s p);
      if c =? 0 then upd_mem (λ m, store8 m dst 0) ;; mret (true, dst, max)
      else
        upd_mem (λ m, store8 m dst c) ;;
        copyinstr_page (p + 1) (dst + 1) (max - 1) n
  end.

Fixpoint copyinstr_loop (pagetable dst srcva max : Z) (got_null : bool) (fuel : nat) : M kstate Z :=
  match fuel with
  | O => λ _, NoFuel
  | S fuel =>
      if negb got_null && (max >? 0) then
        let va0 := PGROUNDDOWN srcva in
        pa0 ← walkaddr pagetable va0;
        if pa0 =? 0 then mret (-1)
        else
          let n := PGSIZE - (srcva - va0) in
          let n := if n >? max then max else n in
          '(got_null, dst, max) ← copyinstr_page (pa0 + (srcva - va0)) dst max (Z.to_nat n);
          copyinstr_loop pagetable dst (u64 (va0 + PGSIZE)) max got_null fuel
      else if got_null then mret 0 else mret (-1)
  end.

Definition copyinstr (pagetable dst srcva max : Z) : M kstate Z :=
  copyinstr_loop pagetable dst srcva max false (copy_fuel max).

End vm.
