(* ===== verification/VmProps.v ===== *)
(** * What the page-table code does

    The abstract view of a page table is the function [pte_val] from virtual
    addresses to page-table entries ([0] where there is none).  [pt_rep] ties
    it to the tree in memory through the finite map [t] from index prefixes to
    table pages.  The operations of vm.c are updates of that function: the
    tree, the allocator and the other pages of memory are the detail. *)

From S2P Require Import Prelude Kstring Kalloc Vm.

(** ** Entries and indices *)

Lemma has_bits_testbit x k : 0 ≤ k → has_bits x (Z.shiftl 1 k) = Z.testbit x k.
Proof.
  intros Hk. unfold has_bits. rewrite Z.shiftl_1_l.
  destruct (Z.testbit x k) eqn:Hb.
  - destruct (Z.eqb_spec (Z.land x (2 ^ k)) 0) as [He|]; [|done].
    apply (f_equal (λ z, Z.testbit z k)) in He.
    rewrite Z.land_spec, Z.pow2_bits_true, Hb, Z.testbit_0_l in He by done. done.
  - rewrite (proj2 (Z.eqb_eq _ _)); [done|]. apply Z.bits_inj_0. intros n.
    rewrite Z.land_spec, Z.pow2_bits_eqb by done. destruct (Z.eqb_spec k n); [subst; by rewrite Hb|by rewrite andb_false_r].
Qed.

Lemma PX_mod l va : 0 ≤ l → PX l va = (va / 2 ^ (12 + 9 * l)) `mod` 512.
Proof.
  intros. unfold PX, PXSHIFT. change 0x1FF with (Z.ones 9).
  rewrite Z.land_ones, Z.shiftr_div_pow2 by lia. done.
Qed.

Lemma PX_range l va : 0 ≤ l → 0 ≤ PX l va < 512.
Proof. intros. rewrite PX_mod by done. by apply Z.mod_pos_bound. Qed.

(** The three indices determine the page of a virtual address. *)
Lemma PX_page va : 0 ≤ va < MAXVA → va / PGSIZE = PX 0 va + 512 * PX 1 va + 262144 * PX 2 va.
Proof.
  intros [? Hlt]. change MAXVA with 274877906944 in Hlt. rewrite !PX_mod by lia.
  change (2 ^ (12 + 9 * 0)) with PGSIZE. change (2 ^ (12 + 9 * 1)) with (PGSIZE * 512).
  change (2 ^ (12 + 9 * 2)) with (PGSIZE * 512 * 512).
  rewrite <- !Z.div_div by done. set (q := va / PGSIZE).
  assert (0 ≤ q < 67108864). { unfold q. split; [by apply Z.div_pos|]. apply Z.div_lt_upper_bound; unfold PGSIZE; lia. }
  clearbody q. Z.to_euclidean_division_equations. lia.
Qed.

Lemma PX_page_inj va va' : 0 ≤ va < MAXVA → 0 ≤ va' < MAXVA →
  PX 0 va = PX 0 va' → PX 1 va = PX 1 va' → PX 2 va = PX 2 va' → va / PGSIZE = va' / PGSIZE.
Proof. intros H H' ???. rewrite (PX_page va), (PX_page va') by done. lia. Qed.

Lemma PX_same_page l va va' : 0 ≤ l → va / PGSIZE = va' / PGSIZE → PX l va = PX l va'.
Proof.
  intros Hl Hq. rewrite !PX_mod by done. rewrite Z.pow_add_r by lia. change (2 ^ 12) with PGSIZE.
  rewrite <- !Z.div_div by (done || (apply Z.pow_pos_nonneg; lia)). by rewrite Hq.
Qed.

(** An entry as [mappages] and [walk] build it. *)
Definition mkpte (pa perm : Z) : Z := Z.lor (Z.lor (PA2PTE pa) perm) PTE_V.

Lemma PA2PTE_eq pa : 0 ≤ pa < 2 ^ 56 → PA2PTE pa = pa / PGSIZE * 1024.
Proof.
  intros. unfold PA2PTE. rewrite Z.shiftr_div_pow2, Z.shiftl_mul_pow2 by lia. change (2 ^ 12) with PGSIZE.
  apply wrap_small. assert (0 ≤ pa / PGSIZE < 2 ^ 44).
  { split; [apply Z.div_pos; [lia|done]|apply Z.div_lt_upper_bound; unfold PGSIZE; lia]. } lia.
Qed.

Lemma lor_disjoint_flags a f : 0 ≤ f < 1024 → Z.lor (a * 1024) f = a * 1024 + f.
Proof.
  intros. change 1024 with (2 ^ 10) in *. rewrite <- Z.shiftl_mul_pow2 by lia.
  assert (Z.land (Z.shiftl a 10) f = 0) as Hd; [|by rewrite Z.add_nocarry_lxor, Z.lxor_lor].
  apply Z.bits_inj_0. intros n. rewrite Z.land_spec.
  destruct (Z.lt_ge_cases n 10).
  - destruct (Z.lt_ge_cases n 0); [by rewrite !Z.testbit_neg_r by done|].
    by rewrite Z.shiftl_spec_low by done.
  - rewrite <- (Z.mod_small f (2 ^ 10)), Z.mod_pow2_bits_high by lia. apply andb_false_r.
Qed.

Section entry.
Context (pa perm : Z) (Hpa : 0 ≤ pa < 2 ^ 56) (Hal : aligned pa) (Hperm : 0 ≤ perm < 1024).

Lemma lor_perm_range : 0 ≤ Z.lor perm PTE_V < 1024.
Proof using Hperm.
  split; [apply Z.lor_nonneg; split; [lia|done]|].
  apply Z.log2_lt_cancel. rewrite Z.log2_lor by (done || lia). change (Z.log2 1024) with 10.
  apply Z.max_lub_lt; [|done]. destruct (Z.eq_dec perm 0) as [->|]; [done|].
  apply Z.log2_lt_pow2; lia.
Qed.

Lemma mkpte_eq : mkpte pa perm = pa / PGSIZE * 1024 + Z.lor perm PTE_V.
Proof using Hpa Hperm.
  unfold mkpte. rewrite <- Z.lor_assoc, PA2PTE_eq by done. apply lor_disjoint_flags, lor_perm_range.
Qed.

Lemma mkpte_PTE2PA : PTE2PA (mkpte pa perm) = pa.
Proof using Hpa Hal Hperm.
  pose proof lor_perm_range. rewrite mkpte_eq. unfold PTE2PA.
  rewrite Z.shiftr_div_pow2, Z.shiftl_mul_pow2 by lia. change (2 ^ 10) with 1024. change (2 ^ 12) with PGSIZE.
  rewrite Z.div_add_l by done. rewrite (Z.div_small (Z.lor _ _)) by done.
  rewrite Z.add_0_r, Z.mul_comm, <- aligned_inv by done. apply wrap_small. lia.
Qed.

Lemma mkpte_flags : PTE_FLAGS (mkpte pa perm) = Z.lor perm PTE_V.
Proof using Hpa Hperm.
  pose proof lor_perm_range. rewrite mkpte_eq. unfold PTE_FLAGS. change 0x3FF with (Z.ones 10).
  rewrite Z.land_ones by lia. change (2 ^ 10) with 1024.
  rewrite Z.add_comm, Z.mod_add by done. by apply Z.mod_small.
Qed.

Lemma mkpte_V : has_bits (mkpte pa perm) PTE_V = true.
Proof using. unfold mkpte, PTE_V. rewrite has_bits_testbit by done. rewrite Z.lor_spec. apply orb_true_r. Qed.

Lemma mkpte_bit k : 0 < k < 10 → has_bits (mkpte pa perm) (Z.shiftl 1 k) = has_bits perm (Z.shiftl 1 k).
Proof using Hpa Hperm.
  intros. rewrite !has_bits_testbit by lia.
  assert (Z.testbit (mkpte pa perm) k = Z.testbit (PTE_FLAGS (mkpte pa perm)) k) as ->.
  { unfold PTE_FLAGS. change 0x3FF with (Z.ones 10). rewrite Z.land_spec, Z.ones_spec_low by lia.
    by rewrite andb_true_r. }
  rewrite mkpte_flags, Z.lor_spec. unfold PTE_V. rewrite Z.shiftl_spec, (Z.bits_above_log2 1) by (simpl; lia).
  apply orb_false_r.
Qed.

Lemma mkpte_range : 0 ≤ mkpte pa perm < 2 ^ 64.
Proof using Hpa Hperm.
  pose proof lor_perm_range. rewrite mkpte_eq. assert (0 ≤ pa / PGSIZE < 2 ^ 44).
  { split; [apply Z.div_pos; [lia|done]|apply Z.div_lt_upper_bound; unfold PGSIZE; lia]. } lia.
Qed.
End entry.

(* ------------------------------------------------------------------ *)
(** ** The tree in memory *)

Abbreviation tables := (gmap (list Z) Z).

Definition idx (i : Z) : Prop := 0 ≤ i < 512.

(** The table entry [i] of the table at [p] points to, if valid. *)
Definition child (m : mem) (p i : Z) : option Z :=
  let v := load64 m (p + 8 * i) in if has_bits v PTE_V then Some (PTE2PA v) else None.

(** The tables of the page table rooted at [pt], by the indices leading to
    them: the root is [[]], the last level has two indices. *)
Record pt_rep (m : mem) (pt : Z) (t : tables) : Prop := {
  rep_root : t !! [] = Some pt;
  rep_good : ∀ x p, t !! x = Some p → (length x ≤ 2)%nat ∧ Forall idx x;
  rep_inj : ∀ x y p, t !! x = Some p → t !! y = Some p → x = y;
  rep_parent : ∀ x i q, t !! (x ++ [i]) = Some q → is_Some (t !! x);
  rep_child : ∀ x p i, t !! x = Some p → (length x < 2)%nat → idx i →
    child m p i = t !! (x ++ [i])
}.

(** The abstract page table. *)
Definition pte_val (m : mem) (t : tables) (va : Z) : Z :=
  match t !! [PX 2 va; PX 1 va] with
  | Some p => load64 m (p + 8 * PX 0 va)
  | None => 0
  end.

(** The bytes of the table pages. *)
Definition in_tables (t : tables) (x : Z) : Prop := ∃ y p, t !! y = Some p ∧ p ≤ x < p + PGSIZE.

Section rep.
Variable kend : Z.
Hypothesis kend_pos : 0 < kend.

(** The allocator is consistent, the tree is represented, and its pages are
    allocated. *)
Record vm_ok (s : kstate) (pt : Z) (t : tables) (l : list Z) : Prop := {
  vm_kmem : kmem_ok kend s l;
  vm_rep : pt_rep (k_mem s) pt t;
  vm_pages : ∀ x p, t !! x = Some p → page_ok kend p ∧ p ∉ l
}.

Lemma entry_in_page p i x : idx i → p + 8 * i ≤ x < p + 8 * i + 8 → p ≤ x < p + PGSIZE.
Proof. unfold idx, PGSIZE. lia. Qed.

Lemma rep_entry_in_tables t x p i z :
  t !! x = Some p → idx i → p + 8 * i ≤ z < p + 8 * i + 8 → in_tables t z.
Proof. intros. exists x, p. split; [done|]. by eapply entry_in_page. Qed.

Lemma child_ext m m' p i :
  (∀ x, p + 8 * i ≤ x < p + 8 * i + 8 → m' x = m x) → child m' p i = child m p i.
Proof. intros Hx. unfold child. by rewrite (load64_ext m' m). Qed.

Lemma pt_rep_ext m m' pt t :
  (∀ x, in_tables t x → m' x = m x) → pt_rep m pt t → pt_rep m' pt t.
Proof.
  intros Hx [? ? ? ? Hc]. split; auto. intros x p i Hp Hlen Hi. rewrite <- (Hc x p i) by done.
  apply child_ext. intros z ?. apply Hx. by eapply rep_entry_in_tables.
Qed.

Lemma pte_val_ext m m' t va :
  (∀ x, in_tables t x → m' x = m x) → pte_val m' t va = pte_val m t va.
Proof.
  intros Hx. unfold pte_val. destruct (t !! _) as [p|] eqn:Hp; [|done].
  apply load64_ext. intros z ?. apply Hx. eapply (rep_entry_in_tables _ _ _ (PX 0 va)); [done|apply PX_range; lia|done].
Qed.

Lemma child_Some m p i q :
  child m p i = Some q → has_bits (load64 m (p + 8 * i)) PTE_V = true ∧ PTE2PA (load64 m (p + 8 * i)) = q.
Proof. unfold child. destruct (has_bits _ _); naive_solver. Qed.
Lemma child_None m p i :
  child m p i = None → has_bits (load64 m (p + 8 * i)) PTE_V = false.
Proof. unfold child. destruct (has_bits _ _); naive_solver. Qed.

(** Distinct entries of the tree do not overlap. *)
Lemma entry_disjoint s pt t l x y p q i j :
  vm_ok s pt t l → t !! x = Some p → t !! y = Some q → idx i → idx j → (x, i) ≠ (y, j) →
  p + 8 * i + 8 ≤ q + 8 * j ∨ q + 8 * j + 8 ≤ p + 8 * i.
Proof.
  intros Hok Hp Hq Hi Hj Hne. unfold idx in *. destruct (Z.eq_dec p q) as [->|Hpq].
  - assert (x = y) as -> by (eapply rep_inj; [eapply vm_rep|..]; eauto).
    assert (i ≠ j) by congruence. lia.
  - destruct (vm_pages _ _ _ _ Hok _ _ Hp) as [[? _] _], (vm_pages _ _ _ _ Hok _ _ Hq) as [[? _] _].
    destruct (aligned_disjoint p q) as [?|?]; auto; pg_lia.
Qed.

Lemma PX_idx l va : 0 ≤ l → idx (PX l va).
Proof. apply PX_range. Qed.

(** The address [walk] finds without allocating. *)
Definition pte_addr (t : tables) (va : Z) : Z :=
  match t !! [PX 2 va; PX 1 va] with Some p => p + 8 * PX 0 va | None => 0 end.

Lemma walk_levels_valid s p va alloc (n : nat) k q :
  k = Z.of_nat (S n) → child (k_mem s) p (PX k va) = Some q →
  walk_levels p va alloc (S n) s = walk_levels q va alloc n s.
Proof.
  intros -> [H <-]%child_Some. cbn [walk_levels]. unfold mbind, M_bind, load_pte, gets. cbv beta iota.
  by rewrite H.
Qed.

Lemma walk_levels_invalid s p va (n : nat) k :
  k = Z.of_nat (S n) → child (k_mem s) p (PX k va) = None →
  walk_levels p va false (S n) s = Ok 0 s.
Proof.
  intros -> H%child_None. cbn [walk_levels]. unfold mbind, M_bind, load_pte, gets. cbv beta iota.
  by rewrite H.
Qed.

Lemma rep_child2 m pt t va : pt_rep m pt t → child m pt (PX 2 va) = t !! [PX 2 va].
Proof. intros H. apply (rep_child _ _ _ H [] pt); [apply H|simpl; lia|apply PX_idx; lia]. Qed.
Lemma rep_child1 m pt t va p : pt_rep m pt t → t !! [PX 2 va] = Some p →
  child m p (PX 1 va) = t !! [PX 2 va; PX 1 va].
Proof. intros H Hp. apply (rep_child _ _ _ H [_] p); [done|simpl; lia|apply PX_idx; lia]. Qed.
Lemma rep_None1 m pt t va : pt_rep m pt t → t !! [PX 2 va] = None → t !! [PX 2 va; PX 1 va] = None.
Proof.
  intros H Hn. destruct (t !! [PX 2 va; PX 1 va]) as [q|] eqn:E; [|done].
  apply (rep_parent _ _ _ H [PX 2 va]) in E. rewrite Hn in E. by destruct E.
Qed.

Lemma walk_noalloc s pt t l va :
  vm_ok s pt t l → va < MAXVA → walk pt va false s = Ok (pte_addr t va) s.
Proof.
  intros [_ Hr _] Hva. unfold walk, pte_addr. zbool.
  pose proof (rep_child2 _ _ _ va Hr) as H2. destruct (t !! [PX 2 va]) as [p1|] eqn:E1.
  - rewrite (walk_levels_valid _ _ _ _ 1 2 _ eq_refl H2).
    pose proof (rep_child1 _ _ _ va p1 Hr E1) as H1.
    destruct (t !! [PX 2 va; PX 1 va]) as [p0|].
    + by rewrite (walk_levels_valid _ _ _ _ 0 1 _ eq_refl H1).
    + by rewrite (walk_levels_invalid _ _ _ 0 1 eq_refl H1).
  - by rewrite (walk_levels_invalid _ _ _ 1 2 eq_refl H2), (rep_None1 _ _ _ _ Hr E1).
Qed.

(* ------------------------------------------------------------------ *)
(** ** [walk] with allocation *)

Lemma load64_zero m a : (∀ x, a ≤ x < a + 8 → m x = 0) → load64 m a = 0.
Proof. intros Hx. by rewrite (load64_ext m (λ _, 0)). Qed.

Lemma app_singleton_inj (x y : list Z) i j : x ++ [i] = y ++ [j] → x = y ∧ i = j.
Proof. intros H. by apply app_inj_tail in H. Qed.

(** A fresh empty table under entry [i] of the table at [x]. *)
Lemma pt_rep_insert m m' pt t x p i q :
  pt_rep m pt t → t !! x = Some p → (length x < 2)%nat → idx i →
  t !! (x ++ [i]) = None → (∀ y, t !! y ≠ Some q) →
  child m' p i = Some q →
  (∀ y r j, t !! y = Some r → idx j → (y, j) ≠ (x, i) → child m' r j = child m r j) →
  (∀ j, idx j → child m' q j = None) →
  pt_rep m' pt (<[x ++ [i] := q]> t).
Proof.
  intros [Hroot Hgood Hinj Hpar Hc] Hx Hlen Hi Hnew Hfresh Hpi Hoth Hq.
  assert (Hcase : ∀ y r, <[x ++ [i]:=q]> t !! y = Some r →
            (y = x ++ [i] ∧ r = q) ∨ (y ≠ x ++ [i] ∧ t !! y = Some r)).
  { intros y r [[<- <-]|[? ?]]%lookup_insert_Some; auto. }
  split.
  - rewrite lookup_insert_ne by (by destruct x). done.
  - intros y r [[-> _]|[_ Hy]]%Hcase; [|by eapply Hgood].
    rewrite length_app, Forall_app. destruct (Hgood _ _ Hx). simpl. split; [lia|]. auto.
  - intros y z r [[-> ->]|[_ Hy]]%Hcase [[-> Hr]|[_ Hz]]%Hcase; subst; auto; try naive_solver.
  - intros y j r [[[-> ->]%app_singleton_inj _]|[_ Hy]]%Hcase.
    + rewrite lookup_insert_ne; [eauto|]. intros E%(f_equal length). rewrite length_app in E. simpl in E. lia.
    + apply Hpar in Hy. rewrite lookup_insert. case_decide; eauto.
  - intros y r j [[-> ->]|[Hne Hy]]%Hcase Hl Hj.
    + rewrite Hq, lookup_insert_ne by (try intros E%(f_equal length); rewrite ?length_app in *; simpl in *; lia || done).
      destruct (t !! ((x ++ [i]) ++ [j])) eqn:E; [|done]. apply Hpar in E. rewrite Hnew in E. by destruct E.
    + rewrite lookup_insert. case_decide as E.
      * apply app_singleton_inj in E as [<- <-]. simplify_eq. done.
      * rewrite (Hoth y r j), (Hc y r j) by (auto; congruence). done.
Qed.

(** [s'] changes the page table of [s] and takes tables from the free list;
    memory outside the tables is the same. *)
Record vm_evolve (pt : Z) (s : kstate) (t : tables) (l : list Z)
    (s' : kstate) (t' : tables) (l' : list Z) : Prop := {
  ev_ok : vm_ok s' pt t' l';
  ev_sub : t ⊆ t';
  ev_free : ∃ k, l = k ++ l';
  ev_new : ∀ x p, t' !! x = Some p → t !! x = Some p ∨ p ∈ l;
  ev_taken : ∀ p, p ∈ l → p ∈ l' ∨ ∃ x, t' !! x = Some p;
  ev_frame : ∀ x, ¬ in_tables t' x → k_mem s' x = k_mem s x
}.

(** ... and leaves every entry as it was. *)
Record vm_grow (pt : Z) (s : kstate) (t : tables) (l : list Z)
    (s' : kstate) (t' : tables) (l' : list Z) : Prop := {
  grow_ev : vm_evolve pt s t l s' t' l';
  grow_pte : ∀ va, pte_val (k_mem s') t' va = pte_val (k_mem s) t va
}.

Lemma vm_evolve_refl pt s t l : vm_ok s pt t l → vm_evolve pt s t l s t l.
Proof. intros. split; auto. by exists []. Qed.
Lemma vm_grow_refl pt s t l : vm_ok s pt t l → vm_grow pt s t l s t l.
Proof. intros. split; auto using vm_evolve_refl. Qed.

Lemma in_tables_mono t t' x : t ⊆ t' → in_tables t x → in_tables t' x.
Proof. intros Hs (y&p&Hy&?). exists y, p. split; [|done]. by eapply lookup_weaken. Qed.

Lemma vm_evolve_trans pt s t l s1 t1 l1 s2 t2 l2 :
  vm_evolve pt s t l s1 t1 l1 → vm_evolve pt s1 t1 l1 s2 t2 l2 → vm_evolve pt s t l s2 t2 l2.
Proof.
  intros [Ho1 Hs1 [k1 Hf1] Hn1 Ht1 Hm1] [Ho2 Hs2 [k2 Hf2] Hn2 Ht2 Hm2]. split; auto.
  - by etrans.
  - exists (k1 ++ k2). rewrite Hf1, Hf2. by rewrite (assoc_L (++)).
  - intros x p [?|?]%Hn2; [auto|]. right. rewrite Hf1. set_solver.
  - intros p [?%Ht2|[x Hx]]%Ht1; [done|]. right. exists x. by eapply lookup_weaken.
  - intros x Hx. rewrite Hm2, Hm1; auto. intros ?. apply Hx. by eapply in_tables_mono.
Qed.

Lemma vm_grow_trans pt s t l s1 t1 l1 s2 t2 l2 :
  vm_grow pt s t l s1 t1 l1 → vm_grow pt s1 t1 l1 s2 t2 l2 → vm_grow pt s t l s2 t2 l2.
Proof.
  intros [? Hp1] [? Hp2]. split; [by eapply vm_evolve_trans|]. intros va. by rewrite Hp2.
Qed.

Lemma page_ok_bound p : page_ok kend p → 0 ≤ p < 2 ^ 56 ∧ aligned p ∧ p + PGSIZE < 2 ^ 56.
Proof. intros [? ?]. unfold PHYSTOP, KERNBASE, PGSIZE in *. split_and!; auto; lia. Qed.

Lemma mkpte_0 q : Z.lor (PA2PTE q) PTE_V = mkpte q 0.
Proof. unfold mkpte. by rewrite Z.lor_0_r. Qed.

(** Memory after [walk] has linked the zeroed page [q] under entry [i] of [p]. *)
Lemma link_table m m1 p i q :
  page_ok kend p → page_ok kend q → p ≠ q → idx i → same_outside q m m1 →
  let m' := store64 (memset m1 q 0 PGSIZE) (p + 8 * i) (Z.lor (PA2PTE q) PTE_V) in
  (load64 m' (p + 8 * i) = mkpte q 0) ∧
  (∀ a, p + 8 * i + 8 ≤ a ∨ a + 8 ≤ p + 8 * i → q + PGSIZE ≤ a ∨ a + 8 ≤ q → load64 m' a = load64 m a) ∧
  (∀ j, idx j → load64 m' (q + 8 * j) = 0) ∧
  (∀ x, x < p ∨ p + PGSIZE ≤ x → x < q ∨ q + PGSIZE ≤ x → m' x = m x).
Proof.
  intros Hp Hq Hpq Hi Hs m'. unfold idx in *.
  destruct (page_ok_bound _ Hp) as (?&Hpa&_), (page_ok_bound _ Hq) as (?&Hqa&_).
  pose proof (aligned_disjoint p q Hpa Hqa Hpq) as Hd.
  assert (Hz : 0 ≤ PGSIZE) by done. split_and!.
  - unfold m'. rewrite mkpte_0, load64_store64; [done|]. apply mkpte_range; auto; lia.
  - intros a Ha1 Ha2. unfold m'. rewrite load64_store64_other by lia.
    apply load64_ext. intros x ?. rewrite memset_out by lia. apply Hs. lia.
  - intros j Hj. unfold m'. unfold idx in Hj. rewrite load64_store64_other by pg_lia.
    apply load64_zero. intros x ?. rewrite memset_in by pg_lia. done.
  - intros x Hx1 Hx2. unfold m'. unfold store64. rewrite store_le_other by (unfold PGSIZE in *; simpl; lia).
    rewrite memset_out by lia. apply Hs. lia.
Qed.

Lemma kmem_ok_set_mem s l m :
  kmem_ok kend s l → bytes_ok m →
  (∀ r x, r ∈ l → r ≤ x < r + PGSIZE → m x = k_mem s x) → kmem_ok kend (set_mem m s) l.
Proof.
  intros [? Hl ? ? ?] Hb Hx. split; simpl; auto. eapply free_at_ext; [|exact Hl].
  intros p x Hp ?. symmetry. apply (Hx p); auto. unfold PGSIZE. lia.
Qed.

Lemma free_page_disjoint s l p r : kmem_ok kend s l → page_ok kend p → p ∉ l → r ∈ l →
  p + PGSIZE ≤ r ∨ r + PGSIZE ≤ p.
Proof.
  intros [_ _ Hall _ _] [Hp _] Hn Hr. rewrite Forall_forall in Hall. destruct (Hall r Hr) as [Hra _].
  apply aligned_disjoint; auto. congruence.
Qed.

Lemma link_table_grow s pt t q l s1 x p i :
  vm_ok s pt t (q :: l) → t !! x = Some p → (length x < 2)%nat → idx i → t !! (x ++ [i]) = None →
  kmem_ok kend s1 l → same_outside q (k_mem s) (k_mem s1) →
  vm_grow pt s t (q :: l)
    (set_mem (store64 (memset (k_mem s1) q 0 PGSIZE) (p + 8 * i) (Z.lor (PA2PTE q) PTE_V)) s1)
    (<[x ++ [i] := q]> t) l.
Proof.
  intros Hok Hx Hlen Hi Hnew Hk1 Hs1. destruct Hok as [Hk Hr Hpg] eqn:Eok.
  pose proof (ok_pages _ _ _ Hk) as [Hqok _]%Forall_cons. pose proof (ok_nodup _ _ _ Hk) as [Hql _]%NoDup_cons.
  destruct (Hpg _ _ Hx) as [Hpok Hpl].
  assert (Hfresh : ∀ y, t !! y ≠ Some q). { intros y Hy. destruct (Hpg _ _ Hy). set_solver. }
  assert (Hpq : p ≠ q). { intros ->. by apply (Hfresh x). }
  destruct (link_table (k_mem s) (k_mem s1) p i q Hpok Hqok Hpq Hi Hs1) as (Hpi&Hoth&Hz&Hfr).
  set (m' := store64 _ _ _) in *.
  assert (Hent : ∀ y r j, t !! y = Some r → idx j → (y, j) ≠ (x, i) →
            load64 m' (r + 8 * j) = load64 (k_mem s) (r + 8 * j)).
  { intros y r j Hy Hj Hne. apply Hoth.
    - destruct (entry_disjoint s pt t (q :: l) y x r p j i); auto.
    - destruct (Hpg _ _ Hy) as [[Hra _] _]. assert (r ≠ q) by (intros ->; by eapply Hfresh).
      destruct (aligned_disjoint r q) as [?|?]; auto; [apply Hqok|..]; unfold idx, PGSIZE in *; lia. }
  split; simpl; fold m'; [split; simpl; fold m'|].
  - split; simpl.
    + apply kmem_ok_set_mem; [done|by apply store_le_bytes_ok, memset_bytes_ok, Hk1|].
      intros r z Hr' ?. destruct (free_page_disjoint _ _ p r Hk1 Hpok) as [?|?]; auto; [set_solver|..];
      (destruct (free_page_disjoint _ _ q r Hk1 Hqok) as [?|?]; auto;
       rewrite Hfr by lia; symmetry; apply Hs1; lia).
    + eapply pt_rep_insert; eauto.
      * destruct (page_ok_bound q Hqok) as (?&?&_).
        unfold child. rewrite Hpi, mkpte_V, mkpte_PTE2PA by (done || lia). done.
      * intros y r j Hy Hj Hne. unfold child. by rewrite (Hent y).
      * intros j Hj. unfold child. by rewrite Hz.
    + intros y r [[<- <-]|[_ Hy]]%lookup_insert_Some; [done|]. destruct (Hpg _ _ Hy). set_solver.
  - by apply insert_subseteq.
  - by exists [q].
  - intros y r [[<- <-]|[_ Hy]]%lookup_insert_Some; [right; set_solver|auto].
  - intros r [->|?]%elem_of_cons; [|by left]. right. exists (x ++ [i]). by rewrite lookup_insert_eq.
  - intros z Hz'. apply Hfr.
    + destruct (decide (p ≤ z < p + PGSIZE)) as [?|?]; [|lia]. destruct Hz'. exists x, p. split; [|done].
      rewrite lookup_insert_ne; [done|]. intros E%(f_equal length). rewrite length_app in E. simpl in E. lia.
    + destruct (decide (q ≤ z < q + PGSIZE)) as [?|?]; [|lia]. destruct Hz'. exists (x ++ [i]), q.
      by rewrite lookup_insert_eq.
  - intros va. unfold pte_val. rewrite lookup_insert. case_decide as E.
    + rewrite <- E, Hnew, Hz; [done|apply PX_idx; lia].
    + destruct (t !! [PX 2 va; PX 1 va]) as [r|] eqn:Hy; [|done]. eapply Hent; [done|apply PX_idx; lia|].
      intros [= <- _]. simpl in Hlen. lia.
Qed.

Lemma wp_alloc_table s pt t l x p i (k : Z → M kstate Z) Q :
  vm_ok s pt t l → t !! x = Some p → (length x < 2)%nat → idx i → t !! (x ++ [i]) = None →
  (l = [] → Q 0 s) →
  (∀ q l' s', l = q :: l' → vm_grow pt s t l s' (<[x ++ [i] := q]> t) l' → wp (k q) Q s') →
  wp (q ← kalloc;
      if q =? 0 then mret 0
      else upd_mem (λ m, memset m q 0 PGSIZE) ;;
           store_pte (p + 8 * i) (Z.lor (PA2PTE q) PTE_V) ;; k q) Q s.
Proof.
  intros Hok Hx Hlen Hi Hnew Hnil Hcons. wp_step. destruct l as [|q l].
  { eapply wp_intro; [apply (kalloc_empty_wp kend), Hok|]. simpl. apply wp_ret. auto. }
  wp_use kalloc_wp; [done|apply Hok|]. intros r s1 (->&Hk1&Hs1&_).
  pose proof (ok_pages _ _ _ (vm_kmem _ _ _ _ Hok)) as [Hqok _]%Forall_cons.
  pose proof (page_ok_nz kend kend_pos q Hqok). zbool. unfold store_pte, upd_mem. wp_steps. simpl.
  eapply Hcons; [done|]. eapply (link_table_grow s pt t q l s1 x p i); auto.
Qed.

(** The tables on the way to an address, and that only those are new. *)
Definition on_path (va : Z) (x : list Z) : Prop := x = [PX 2 va] ∨ x = [PX 2 va; PX 1 va].
Definition new_on (P : Z → Prop) (t t' : tables) : Prop :=
  ∀ x, is_Some (t' !! x) → is_Some (t !! x) ∨ ∃ va, P va ∧ on_path va x.

Lemma new_on_refl P t : new_on P t t.
Proof. by left. Qed.
Lemma new_on_trans (P Q R : Z → Prop) t t1 t2 : new_on P t t1 → new_on Q t1 t2 → (∀ v, P v ∨ Q v → R v) → new_on R t t2.
Proof. intros H1 H2 HR x [Hx|(v&?&?)]%H2; [apply H1 in Hx as [?|(v&?&?)]|]; eauto 6. Qed.
Lemma new_on_insert (P : Z → Prop) t x q va : P va → on_path va x → new_on P t (<[x := q]> t).
Proof.
  intros HP Hx y. destruct (decide (y = x)) as [->|]; [right; eauto|]. rewrite lookup_insert_ne by done. by left.
Qed.

(** The last level of [walk] below a table that is there. *)
Lemma walk_levels_alloc1 s pt t l va p1 :
  vm_ok s pt t l → t !! [PX 2 va] = Some p1 →
  wp (walk_levels p1 va true 1) (λ r s', ∃ t' l', vm_grow pt s t l s' t' l' ∧ new_on (eq va) t t' ∧
    ((r = 0 ∧ l' = []) ∨ ∃ p, t' !! [PX 2 va; PX 1 va] = Some p ∧ r = p + 8 * PX 0 va)) s.
Proof.
  intros Hok H1. pose proof (rep_child1 _ _ _ va p1 (vm_rep _ _ _ _ Hok) H1) as Hc.
  destruct (t !! [PX 2 va; PX 1 va]) as [p0|] eqn:E0.
  - unfold wp. rewrite (walk_levels_valid _ _ _ _ 0 1 _ eq_refl Hc). simpl.
    exists t, l. split_and!; [by apply vm_grow_refl|apply new_on_refl|]. right. eauto.
  - apply child_None in Hc. cbn [walk_levels]. wp_step. apply wp_gets. change (Z.of_nat 1) with 1. rewrite Hc. simpl.
    eapply (wp_alloc_table s pt t l [PX 2 va] p1 (PX 1 va)); [done|done|simpl; lia|apply PX_idx; lia|done|..].
    + intros ->. exists t, []. split_and!; [by apply vm_grow_refl|apply new_on_refl|]. by left.
    + intros q l' s' -> Hg. apply wp_ret. eexists _, l'. split_and!; [exact Hg|eapply new_on_insert; [done|by right]|]. right. exists q.
      simpl. by rewrite lookup_insert_eq.
Qed.

Lemma walk_alloc_wp s pt t l va :
  vm_ok s pt t l → va < MAXVA →
  wp (walk pt va true) (λ r s', ∃ t' l', vm_grow pt s t l s' t' l' ∧ new_on (eq va) t t' ∧
    ((r = 0 ∧ l' = []) ∨ ∃ p, t' !! [PX 2 va; PX 1 va] = Some p ∧ r = p + 8 * PX 0 va)) s.
Proof.
  intros Hok Hva. unfold walk. zbool. pose proof (rep_child2 _ _ _ va (vm_rep _ _ _ _ Hok)) as Hc.
  destruct (t !! [PX 2 va]) as [p1|] eqn:E1.
  - unfold wp. rewrite (walk_levels_valid _ _ _ _ 1 2 _ eq_refl Hc).
    by apply walk_levels_alloc1.
  - apply child_None in Hc. cbn [walk_levels]. wp_step. apply wp_gets. change (Z.of_nat 2) with 2. rewrite Hc. simpl negb. cbv iota.
    eapply (wp_alloc_table s pt t l [] pt (PX 2 va)); [done|apply Hok|simpl; lia|apply PX_idx; lia|done|..].
    + intros ->. exists t, []. split_and!; [by apply vm_grow_refl|apply new_on_refl|]. by left.
    + intros q l' s' -> Hg. wp_use walk_levels_alloc1; [apply Hg|by rewrite lookup_insert_eq|].
      intros r s'' (t''&l''&Hg'&Hn&Hr). exists t'', l''. split_and!; [by eapply vm_grow_trans| |done].
      eapply new_on_trans; [eapply (new_on_insert (eq va)); [done|by left]|done|]. tauto.
Qed.

(* ------------------------------------------------------------------ *)
(** ** Writing entries: [mappages] *)

Lemma same_page_iff a va : aligned a → va / PGSIZE = a / PGSIZE ↔ a ≤ va < a + PGSIZE.
Proof.
  intros Ha%aligned_inv. pose proof (Z.div_mod va PGSIZE ltac:(done)) as Hd.
  pose proof (Z.mod_pos_bound va PGSIZE ltac:(done)). split; intros Hq.
  - rewrite Hq in Hd. lia.
  - symmetry. apply (Z.div_unique_pos _ _ _ (va - a)); lia.
Qed.

Lemma set_leaf s pt t l va p v :
  vm_ok s pt t l → 0 ≤ va < MAXVA → t !! [PX 2 va; PX 1 va] = Some p → 0 ≤ v < 2 ^ 64 →
  let s' := set_mem (store64 (k_mem s) (p + 8 * PX 0 va) v) s in
  vm_evolve pt s t l s' t l ∧
  ∀ va', 0 ≤ va' < MAXVA →
    pte_val (k_mem s') t va' =
      if decide (va' / PGSIZE = va / PGSIZE) then v else pte_val (k_mem s) t va'.
Proof.
  intros Hok Hva Hp Hv s'. destruct (vm_pages _ _ _ _ Hok _ _ Hp) as [Hpok Hpl].
  assert (Hpx : idx (PX 0 va)) by (apply PX_idx; lia).
  assert (Hent : ∀ y r j, t !! y = Some r → idx j → (y, j) ≠ ([PX 2 va; PX 1 va], PX 0 va) →
            load64 (k_mem s') (r + 8 * j) = load64 (k_mem s) (r + 8 * j)).
  { intros y r j Hy Hj Hne. apply load64_store64_other.
    destruct (entry_disjoint s pt t l y _ r p j (PX 0 va) Hok Hy Hp Hj Hpx Hne); lia. }
  assert (Hout : ∀ x, x < p ∨ p + PGSIZE ≤ x → k_mem s' x = k_mem s x).
  { intros x Hx. apply store_le_other. unfold idx, PGSIZE in *. simpl. lia. }
  split; [split; auto|].
  - destruct Hok as [Hk Hr Hpg]. split; [|split; try apply Hr|done].
    + apply kmem_ok_set_mem; [done|apply store_le_bytes_ok, Hk|]. intros r x Hr' ?. apply Hout.
      destruct (free_page_disjoint _ _ p r Hk Hpok) as [?|?]; auto; lia.
    + intros y r j Hy Hl Hj. rewrite <- (rep_child _ _ _ Hr y r j) by done. unfold child.
      rewrite (Hent y); auto. intros [= -> _]. simpl in Hl. lia.
  - by exists [].
  - intros x Hx. apply Hout. destruct (decide (p ≤ x < p + PGSIZE)); [|lia]. destruct Hx. by eexists _, p.
  - intros va' Hva'. unfold pte_val. case_decide as E.
    + rewrite !(PX_same_page _ va' va), Hp by (done || lia). by apply load64_store64.
    + destruct (t !! [PX 2 va'; PX 1 va']) as [r|] eqn:Hr; [|done].
      eapply Hent; [done|apply PX_idx; lia|]. intros [= ? ? ?]. destruct E. by apply PX_page_inj.
Qed.

(** The entry behind the pointer [walk] returned. *)
Lemma pte_val_Some m t va p :
  t !! [PX 2 va; PX 1 va] = Some p → load64 m (p + 8 * PX 0 va) = pte_val m t va.
Proof. intros Hp. unfold pte_val. by rewrite Hp. Qed.

Lemma pte_ptr_nz s pt t l va p :
  vm_ok s pt t l → t !! [PX 2 va; PX 1 va] = Some p → p + 8 * PX 0 va ≠ 0.
Proof.
  intros Hok Hp. destruct (vm_pages _ _ _ _ Hok _ _ Hp) as [[_ ?] _].
  pose proof (PX_range 0 va). lia.
Qed.

(** Entries after mapping [j] pages from [a] to [pa]. *)
Definition mapped (a pa perm : Z) (j : nat) (old : Z → Z) (va : Z) : Z :=
  if decide (a ≤ va < a + PGSIZE * j) then mkpte (pa + (PGROUNDDOWN va - a)) perm else old va.

Lemma mapped_S a pa perm (j : nat) old va :
  aligned a →
  mapped a pa perm (S j) old va =
  mapped (a + PGSIZE) (pa + PGSIZE) perm j
    (λ va, if decide (va / PGSIZE = a / PGSIZE) then mkpte pa perm else old va) va.
Proof.
  intros Ha. unfold mapped. pose proof (same_page_iff a va Ha) as Hs.
  repeat case_decide; unfold PGSIZE in *; try lia; auto.
  - f_equal. lia.
  - assert (PGROUNDDOWN va = a) as ->; [|f_equal; lia].
    rewrite PGROUNDDOWN_eq. unfold PGSIZE. apply aligned_inv in Ha. unfold PGSIZE in *. lia.
Qed.

(** The pages from [a] are free to be mapped. *)
Definition unmapped (m : mem) (t : tables) (a : Z) (n : Z) : Prop :=
  ∀ va, a ≤ va < a + PGSIZE * n → has_bits (pte_val m t va) PTE_V = false.

Section mappages.
Context (pt perm : Z) (Hperm : 0 ≤ perm < 1024).

Definition map_post (a pa : Z) (n : nat) (s : kstate) (t : tables) (l : list Z) (r : Z) (s' : kstate) : Prop :=
  ∃ t' l' (j : nat), vm_evolve pt s t l s' t' l' ∧ new_on (λ va, a ≤ va < a + PGSIZE * n) t t' ∧
    (∀ va, 0 ≤ va < MAXVA → pte_val (k_mem s') t' va = mapped a pa perm j (pte_val (k_mem s) t) va) ∧
    ((r = 0 ∧ j = n) ∨ (r = -1 ∧ (j < n)%nat ∧ l' = [])).

Lemma mappages_loop_wp (n fuel : nat) a pa s t l :
  vm_ok s pt t l → aligned a → 0 ≤ a → a + PGSIZE * S n ≤ MAXVA → (n < fuel)%nat →
  aligned pa → 0 ≤ pa → pa + PGSIZE * n + PGSIZE < 2 ^ 56 →
  unmapped (k_mem s) t a (S n) →
  wp (mappages_loop pt a (a + PGSIZE * n) pa perm fuel) (map_post a pa (S n) s t l) s.
Proof using Hperm kend_pos.
  revert fuel a pa s t l. induction n as [|n IH]; intros [|fuel] a pa s t l Hok Ha Ha0 Hlt Hf Hpa Hpa0 Hpal Hun;
    try lia; cbn [mappages_loop]; wp_step.
  all: assert (HM : MAXVA = 274877906944) by reflexivity.
  all: assert (Ha' : 0 ≤ a < MAXVA) by pg_lia.
  all: wp_use walk_alloc_wp; [done|lia|]; intros r s1 (t1&l1&[Hev1 Hpte1]&Hn1&[[-> ->]|(p&Hp&->)]).
  1,3: simpl; apply wp_ret; exists t1, [], 0%nat; split_and!; [done|eapply new_on_trans; [exact Hn1|apply (new_on_refl (eq a))|intros v Hv; pg_lia]| |right; split_and!; [done|lia|done]];
       intros va Hva; unfold mapped; rewrite decide_False by lia; apply Hpte1.
  all: pose proof (pte_ptr_nz _ _ _ _ _ _ (ev_ok _ _ _ _ _ _ _ Hev1) Hp); zbool; wp_step; apply wp_gets.
  all: rewrite (pte_val_Some _ _ _ _ Hp), Hpte1, Hun by pg_lia.
  all: wp_step; apply wp_modify.
  all: fold (mkpte pa perm).
  all: destruct (set_leaf s1 pt t1 l1 a p (mkpte pa perm) (ev_ok _ _ _ _ _ _ _ Hev1) Ha' Hp)
         as [Hev2 Hpte2]; [apply mkpte_range; [pg_lia|lia]|].
  all: set (s2 := set_mem _ s1) in *.
  - zbool. apply wp_ret. exists t1, l1, 1%nat. split_and!; [by eapply vm_evolve_trans| | |by left].
    { eapply new_on_trans; [exact Hn1|apply (new_on_refl (eq a))|intros v Hv; pg_lia]. }
    intros va Hva. rewrite Hpte2, mapped_S by done. unfold mapped.
    repeat case_decide; unfold PGSIZE in *; try lia; auto.
  - zbool.
    rewrite !wrap_small by pg_lia.
    replace (a + PGSIZE * S n) with (a + PGSIZE + PGSIZE * n) by lia.
    wp_use (IH fuel (a + PGSIZE) (pa + PGSIZE) s2 t1 l1); try pg_lia; auto.
    + apply Hev2.
    + apply (aligned_add a 1 Ha).
    + apply (aligned_add pa 1 Hpa).
    + intros va Hva. rewrite Hpte2 by pg_lia.
      rewrite decide_False by (rewrite same_page_iff by done; pg_lia).
      rewrite Hpte1. apply Hun. pg_lia.
    + intros r' s3 (t3&l3&j&Hev3&Hn3&Hpte3&Hr). exists t3, l3, (S j). split_and!.
      * eapply vm_evolve_trans; [exact Hev1|]. by eapply vm_evolve_trans.
      * eapply new_on_trans; [exact Hn1|exact Hn3|]. intros v [<-|?]; pg_lia.
      * intros va Hva. rewrite Hpte3, mapped_S by done. unfold mapped.
        case_decide; [done|]. rewrite Hpte2, Hpte1 by done. done.
      * destruct Hr as [[-> ->]|(->&?&->)]; [by left|right; split_and!; auto; lia].
Qed.
End mappages.

(** The number of pages [mappages] covers. *)
Definition npages (va size : Z) : Z := (PGROUNDDOWN (va + size - 1) - PGROUNDDOWN va) / PGSIZE + 1.

Lemma npages_pos va size : 0 < size → 0 < npages va size ∧
  PGROUNDDOWN (va + size - 1) = PGROUNDDOWN va + PGSIZE * (npages va size - 1).
Proof.
  intros. unfold npages. rewrite !PGROUNDDOWN_eq, <- Z.mul_sub_distr_l.
  rewrite (Z.mul_comm PGSIZE (_ - _)), Z.div_mul by done.
  assert (va / PGSIZE ≤ (va + size - 1) / PGSIZE) by (apply Z.div_le_mono; [done|lia]). lia.
Qed.

Lemma PGROUNDDOWN_aligned a : aligned (PGROUNDDOWN a).
Proof. rewrite PGROUNDDOWN_eq. apply aligned_mul. Qed.
Lemma PGROUNDDOWN_le a : PGROUNDDOWN a ≤ a < PGROUNDDOWN a + PGSIZE.
Proof.
  rewrite PGROUNDDOWN_eq. pose proof (Z.div_mod a PGSIZE). pose proof (Z.mod_pos_bound a PGSIZE). pg_lia.
Qed.
Lemma PGROUNDDOWN_id a : aligned a → PGROUNDDOWN a = a.
Proof. intros Ha. rewrite PGROUNDDOWN_eq. by rewrite <- aligned_inv. Qed.

Lemma npages_aligned va n : aligned va → npages va (PGSIZE * n) = n.
Proof.
  intros Ha. pose proof (aligned_inv _ Ha) as E. unfold npages. rewrite (PGROUNDDOWN_id va Ha), PGROUNDDOWN_eq.
  replace (va + PGSIZE * n - 1) with (PGSIZE - 1 + (va / PGSIZE + n - 1) * PGSIZE) by pg_lia.
  rewrite Z.div_add by done. change ((PGSIZE - 1) / PGSIZE) with 0.
  replace (PGSIZE * (0 + (va / PGSIZE + n - 1)) - va) with ((n - 1) * PGSIZE) by lia. rewrite Z.div_mul by done. lia.
Qed.

Lemma mappages_wp pt perm s t l va size pa :
  0 ≤ perm < 1024 → vm_ok s pt t l → 0 ≤ va → 0 < size → va + size ≤ MAXVA →
  aligned pa → 0 ≤ pa → pa + PGSIZE * npages va size < 2 ^ 56 →
  unmapped (k_mem s) t (PGROUNDDOWN va) (npages va size) →
  wp (mappages pt va size pa perm)
     (map_post pt perm (PGROUNDDOWN va) pa (Z.to_nat (npages va size)) s t l) s.
Proof.
  intros Hperm Hok Hva Hsz Hmax Hpa Hpa0 Hpal Hun. unfold mappages. zbool.
  destruct (npages_pos va size Hsz) as [Hn Hlast].
  assert (HM : MAXVA = PGSIZE * 67108864) by reflexivity.
  rewrite (wrap_small 64) by (unfold MAXVA in *; pg_lia).
  rewrite Hlast. unfold mappages_fuel.
  pose proof (PGROUNDDOWN_le va). pose proof (PGROUNDDOWN_le (va + size - 1)).
  pose proof (PGROUNDDOWN_aligned va) as Hal. pose proof (aligned_inv _ Hal).
  pose proof (aligned_inv _ (PGROUNDDOWN_aligned (va + size - 1))).
  zbool. replace (PGROUNDDOWN va + PGSIZE * (npages va size - 1) - PGROUNDDOWN va)
    with ((npages va size - 1) * PGSIZE) by lia.
  rewrite Z.div_mul, Z.sub_add by done.
  destruct (Z.to_nat (npages va size)) as [|n] eqn:En; [lia|].
  replace (npages va size - 1) with (Z.of_nat n) by lia.
  apply mappages_loop_wp; auto; try pg_lia.
  by replace (Z.of_nat (S n)) with (npages va size) by lia.
Qed.

(* ------------------------------------------------------------------ *)
(** ** Pages outside the tables *)

(** A page that is neither free nor a table: user memory or a kernel buffer. *)
Definition data_page (t : tables) (l : list Z) (p : Z) : Prop :=
  page_ok kend p ∧ p ∉ l ∧ ∀ x, t !! x ≠ Some p.

Lemma not_in_tables s pt t l p x :
  vm_ok s pt t l → page_ok kend p → (∀ y, t !! y ≠ Some p) → p ≤ x < p + PGSIZE → ¬ in_tables t x.
Proof.
  intros Hok [Hp _] Hn Hx (y&q&Hy&Hq). destruct (vm_pages _ _ _ _ Hok _ _ Hy) as [[? _] _].
  destruct (aligned_disjoint p q); auto; [|lia..]. intros <-. by eapply Hn.
Qed.

(** A write confined to such a page keeps everything else. *)
Lemma vm_ok_data s pt t l p m :
  vm_ok s pt t l → data_page t l p → bytes_ok m → same_outside p (k_mem s) m →
  vm_ok (set_mem m s) pt t l ∧ ∀ va, pte_val m t va = pte_val (k_mem s) t va.
Proof.
  intros Hok (Hp&Hl&Ht) Hb Hs.
  assert (Hin : ∀ x, in_tables t x → m x = k_mem s x).
  { intros x Hx. apply Hs. destruct (decide (p ≤ x < p + PGSIZE)); [|lia].
    by destruct (not_in_tables s pt t l p x). }
  split; [|intros; by apply pte_val_ext]. split; [|by eapply pt_rep_ext, Hok|apply Hok].
  apply kmem_ok_set_mem; [apply Hok|done|]. intros r x Hr ?. apply Hs.
  destruct (free_page_disjoint s l p r) as [?|?]; auto; [apply Hok|lia..].
Qed.

Lemma vm_ok_same_mem s s' pt t l l' :
  vm_ok s pt t l → k_mem s' = k_mem s → kmem_ok kend s' l' → (∀ x p, t !! x = Some p → p ∉ l') →
  vm_ok s' pt t l'.
Proof.
  intros [_ Hr Hp] Hm Hk Hl. split; auto; [by rewrite Hm|]. intros x p Hx. split; [by eapply Hp|eauto].
Qed.

Lemma kfree_vm_wp s pt t l p :
  vm_ok s pt t l → data_page t l p →
  wp (kfree kend p) (λ _ s', vm_ok s' pt t (p :: l) ∧ same_outside p (k_mem s) (k_mem s') ∧
    ∀ va, pte_val (k_mem s') t va = pte_val (k_mem s) t va) s.
Proof.
  intros Hok Hd. destruct Hd as (Hp&Hl&Ht) eqn:E. wp_use kfree_wp; [done|apply Hok|done|done|].
  intros _ s' [Hk Hs]. destruct (vm_ok_data s pt t l p (k_mem s') Hok Hd) as [Hok' Hpte]; auto; [apply Hk|].
  split_and!; auto. eapply vm_ok_same_mem; eauto. intros x q Hx.
  destruct (vm_pages _ _ _ _ Hok _ _ Hx). rewrite not_elem_of_cons. split; [|done]. intros ->. by eapply Ht.
Qed.

Lemma kalloc_vm_wp s pt t p l :
  vm_ok s pt t (p :: l) →
  wp kalloc (λ r s', r = p ∧ vm_ok s' pt t l ∧ data_page t l p ∧ same_outside p (k_mem s) (k_mem s') ∧
    ∀ va, pte_val (k_mem s') t va = pte_val (k_mem s) t va) s.
Proof.
  intros Hok. pose proof (ok_pages _ _ _ (vm_kmem _ _ _ _ Hok)) as [Hp _]%Forall_cons.
  pose proof (ok_nodup _ _ _ (vm_kmem _ _ _ _ Hok)) as [Hnl _]%NoDup_cons.
  assert (Ht : ∀ x, t !! x ≠ Some p).
  { intros x Hx. destruct (vm_pages _ _ _ _ Hok _ _ Hx). set_solver. }
  wp_use kalloc_wp; [done|apply Hok|]. intros r s' (->&Hk&Hs&_). split_and!; auto; [|done|].
  - split; [done| |]. 
    + eapply pt_rep_ext; [|apply Hok]. intros x Hx. apply Hs.
      destruct (decide (p ≤ x < p + PGSIZE)); [|lia]. by destruct (not_in_tables s pt t (p :: l) p x).
    + intros x q Hx. destruct (vm_pages _ _ _ _ Hok _ _ Hx). set_solver.
  - intros va. apply pte_val_ext. intros x Hx. apply Hs.
    destruct (decide (p ≤ x < p + PGSIZE)); [|lia]. by destruct (not_in_tables s pt t (p :: l) p x).
Qed.

End rep.
