(* ===== verification/UvmProps.v ===== *)
(** * User memory: unmapping, growing, shrinking and copying

    The functions of vm.c that handle a process's memory, proved against the
    abstract page table of [VmProps]: which entries they change, which pages
    they take from and give back to the allocator, and, for [copyout] and
    [copyin], which bytes of physical memory they move. *)

From S2P Require Import Prelude Kstring Kalloc Vm VmProps.

(** A valid entry that is not a pointer to a table. *)
Definition leaf (v : Z) : Prop := has_bits v PTE_V = true ∧ PTE_FLAGS v ≠ PTE_V.

(** The pages behind the [n] entries from [a]. *)
Fixpoint frames (m : mem) (t : tables) (a : Z) (n : nat) : list Z :=
  match n with
  | O => []
  | S n => PTE2PA (pte_val m t a) :: frames m t (a + PGSIZE) n
  end.

Definition leaves (m : mem) (t : tables) (a : Z) (n : nat) : Prop :=
  ∀ i : nat, (i < n)%nat → leaf (pte_val m t (a + PGSIZE * i)).

(** The entries with the [n] pages from [a] removed. *)
Definition cleared (a : Z) (n : nat) (old : Z → Z) (va : Z) : Z :=
  if decide (a ≤ va < a + PGSIZE * n) then 0 else old va.

Lemma frames_ext m m' t t' a n :
  (∀ i : nat, (i < n)%nat → pte_val m' t' (a + PGSIZE * i) = pte_val m t (a + PGSIZE * i)) →
  frames m' t' a n = frames m t a n.
Proof.
  revert a. induction n as [|n IH]; intros a Hx; simpl; [done|]. f_equal.
  - specialize (Hx 0%nat ltac:(lia)). rewrite Z.mul_0_r, Z.add_0_r in Hx. by rewrite Hx.
  - apply IH. intros i ?. replace (a + PGSIZE + PGSIZE * i) with (a + PGSIZE * S i) by lia. apply Hx. lia.
Qed.

Lemma leaves_S m t a n : leaves m t a (S n) ↔ leaf (pte_val m t a) ∧ leaves m t (a + PGSIZE) n.
Proof.
  unfold leaves. split.
  - intros H. split.
    + specialize (H 0%nat ltac:(lia)). by rewrite Z.mul_0_r, Z.add_0_r in H.
    + intros i ?. replace (a + PGSIZE + PGSIZE * i) with (a + PGSIZE * S i) by lia. apply H. lia.
  - intros [H0 H] [|i] ?; [by rewrite Z.mul_0_r, Z.add_0_r|].
    replace (a + PGSIZE * S i) with (a + PGSIZE + PGSIZE * i) by lia. apply H. lia.
Qed.

Lemma pte_val_valid m t va :
  has_bits (pte_val m t va) PTE_V = true → ∃ p, t !! [PX 2 va; PX 1 va] = Some p.
Proof. unfold pte_val. destruct (t !! _); [eauto|done]. Qed.

(** A memory confined to a page [p] and the tables. *)
Definition same_but (t : tables) (ps : list Z) (m m' : mem) : Prop :=
  ∀ x, ¬ in_tables t x → (∀ p, p ∈ ps → x < p ∨ p + PGSIZE ≤ x) → m' x = m x.

Section uvm.
Variable kend : Z.
Hypothesis kend_pos : 0 < kend.
Variable pt : Z.

Lemma uvmunmap_loop_wp (do_free : bool) t (n fuel : nat) a s l :
  let fs := if do_free then frames (k_mem s) t a n else [] in
  vm_ok kend s pt t l → aligned a → 0 ≤ a → a + PGSIZE * n ≤ MAXVA → (n < fuel)%nat →
  leaves (k_mem s) t a n → NoDup fs → Forall (data_page kend t l) fs →
  wp (uvmunmap_loop kend pt a (a + PGSIZE * n) do_free fuel) (λ _ s',
    vm_ok kend s' pt t (reverse fs ++ l) ∧
    (∀ va, 0 ≤ va < MAXVA → pte_val (k_mem s') t va = cleared a n (pte_val (k_mem s) t) va) ∧
    same_but t fs (k_mem s) (k_mem s')) s.
Proof using kend_pos.
  assert (HM : MAXVA = 274877906944) by reflexivity.
  revert fuel a s l. induction n as [|n IH]; intros [|fuel] a s l fs Hok Ha Ha0 Hmax Hf Hlv Hnd Hfs; try lia;
    cbn [uvmunmap_loop].
  { zbool. apply wp_ret. assert (fs = []) as -> by (unfold fs; by destruct do_free). split_and!; auto.
    - intros va ?. unfold cleared. by rewrite decide_False by lia.
    - by intros x. }
  zbool. wp_step. assert (Ha' : 0 ≤ a < MAXVA) by pg_lia.
  eapply wp_intro; [by eapply walk_noalloc; [|lia]|].
  apply leaves_S in Hlv as [[HV Hfl] Hlv]. destruct (pte_val_valid _ _ _ HV) as [p Hp].
  unfold pte_addr. rewrite Hp. pose proof (pte_ptr_nz _ kend_pos _ _ _ _ _ _ Hok Hp). zbool.
  wp_step. apply wp_gets. rewrite (pte_val_Some _ _ _ _ Hp), HV. simpl negb. cbv iota.
  rewrite (proj2 (Z.eqb_neq _ _) Hfl). set (q := PTE2PA (pte_val (k_mem s) t a)).
  (* the free and the cleared entry *)
  set (l1 := if do_free then q :: l else l).
  wp_step. eapply (wp_mono _ (λ _ s1, vm_ok kend s1 pt t l1 ∧
    (∀ va, pte_val (k_mem s1) t va = pte_val (k_mem s) t va) ∧
    same_but t (if do_free then [q] else []) (k_mem s) (k_mem s1))).
  { destruct do_free; simpl.
    - simpl in Hfs. apply Forall_cons in Hfs as [Hq _]. wp_use kfree_vm_wp; [done|done|done|].
      intros _ s1 (?&Hs&?). split_and!; auto. intros x _ Hx. apply Hs, Hx. set_solver.
    - apply wp_ret. split_and!; auto. by intros x. }
  intros _ s1 (Hok1&Hpte1&Hs1). wp_step. apply wp_modify.
  destruct (set_leaf kend s1 pt t l1 a p 0 Hok1 Ha' Hp ltac:(lia)) as [[Hok2 _ _ _ _ Hfr2] Hpte2].
  set (s2 := set_mem _ s1) in *. rewrite wrap_small by pg_lia.
  assert (Hptes : ∀ va, 0 ≤ va < MAXVA → a + PGSIZE ≤ va → pte_val (k_mem s2) t va = pte_val (k_mem s) t va).
  { intros va ??. rewrite Hpte2 by done. rewrite decide_False, Hpte1; [done|].
    rewrite same_page_iff by done. lia. }
  assert (Hfs2 : frames (k_mem s2) t (a + PGSIZE) n = frames (k_mem s) t (a + PGSIZE) n).
  { apply frames_ext. intros i ?. apply Hptes; pg_lia. }
  replace (a + PGSIZE * S n) with (a + PGSIZE + PGSIZE * n) by lia.
  wp_use (IH fuel (a + PGSIZE) s2 l1); auto; try pg_lia.
  - apply (aligned_add a 1 Ha).
  - intros i ?. rewrite Hptes by pg_lia. by apply Hlv.
  - rewrite Hfs2. destruct do_free; [|done]. simpl in Hnd. by apply NoDup_cons in Hnd as [_ ?].
  - rewrite Hfs2. unfold l1. destruct do_free; [|done]. simpl in Hnd, Hfs.
    apply NoDup_cons in Hnd as [Hnq _]. apply Forall_cons in Hfs as [_ Hfs].
    rewrite Forall_forall in Hfs |- *. intros r Hr. destruct (Hfs r Hr) as (?&?&?). split_and!; auto.
    rewrite not_elem_of_cons. split; [by intros ->|done].
  - intros _ s3 (Hok3&Hpte3&Hs3). rewrite Hfs2 in *. split_and!.
    + unfold fs, l1 in *. destruct do_free; [|done]. simpl. fold q.
      by rewrite reverse_cons, <- (assoc_L (++)).
    + intros va Hva. rewrite Hpte3 by done. unfold cleared.
      repeat case_decide; try pg_lia; auto.
      * rewrite Hpte2, decide_True by (done || (apply same_page_iff; auto; pg_lia)). done.
      * rewrite Hpte2, decide_False, Hpte1 by (done || (rewrite same_page_iff by done; pg_lia)). done.
    + intros x Hx Hout. assert (∀ r, r ∈ (if do_free then frames (k_mem s) t (a + PGSIZE) n else []) → r ∈ fs) as Hsub.
      { unfold fs. destruct do_free; simpl; set_solver. }
      rewrite Hs3, Hfr2, Hs1; auto. intros r Hr. apply Hout. unfold fs. destruct do_free; simpl in *; set_solver.
Qed.

Lemma uvmunmap_wp (do_free : bool) t (n : nat) a s l :
  let fs := if do_free then frames (k_mem s) t a n else [] in
  vm_ok kend s pt t l → aligned a → 0 ≤ a → a + PGSIZE * n ≤ MAXVA →
  leaves (k_mem s) t a n → NoDup fs → Forall (data_page kend t l) fs →
  wp (uvmunmap kend pt a n do_free) (λ _ s',
    vm_ok kend s' pt t (reverse fs ++ l) ∧
    (∀ va, 0 ≤ va < MAXVA → pte_val (k_mem s') t va = cleared a n (pte_val (k_mem s) t) va) ∧
    same_but t fs (k_mem s) (k_mem s')) s.
Proof using kend_pos.
  intros fs Hok Ha Ha0 Hmax Hlv Hnd Hfs. unfold uvmunmap.
  assert (HM : MAXVA = 274877906944) by reflexivity.
  rewrite (proj2 (Z.eqb_eq _ _) Ha). simpl negb. cbv iota.
  rewrite wrap_small by pg_lia. rewrite (Z.mul_comm n PGSIZE).
  apply uvmunmap_loop_wp; auto. unfold range_fuel.
  replace (a + PGSIZE * n - a) with (n * PGSIZE) by lia. rewrite Z.div_mul by done. lia.
Qed.

(* ------------------------------------------------------------------ *)
(** ** [uvmdealloc] and [uvmalloc] *)

Lemma PGROUNDUP_spec a : 0 ≤ a ≤ MAXVA → aligned (PGROUNDUP a) ∧ a ≤ PGROUNDUP a < a + PGSIZE.
Proof.
  intros. assert (HM : MAXVA = 274877906944) by reflexivity.
  rewrite PGROUNDUP_eq by pg_lia. split; [apply aligned_mul|].
  pose proof (Z.div_mod (a + PGSIZE - 1) PGSIZE). pose proof (Z.mod_pos_bound (a + PGSIZE - 1) PGSIZE). pg_lia.
Qed.
Lemma PGROUNDUP_id a : 0 ≤ a ≤ MAXVA → aligned a → PGROUNDUP a = a.
Proof.
  intros Hb Ha. destruct (PGROUNDUP_spec a Hb) as [Hu%aligned_inv ?]. apply aligned_inv in Ha. pg_lia.
Qed.
Lemma PGROUNDUP_max a : 0 ≤ a ≤ MAXVA → PGROUNDUP a ≤ MAXVA.
Proof.
  intros Hb. destruct (PGROUNDUP_spec a Hb) as [Hu%aligned_inv ?].
  assert (HM : MAXVA = PGSIZE * 67108864) by reflexivity. pg_lia.
Qed.

(** Shrinking from [oldsz] to [newsz] frees the [n] pages in between. *)
Lemma uvmdealloc_wp t (n : nat) oldsz newsz s l :
  let base := PGROUNDUP newsz in
  let fs := frames (k_mem s) t base n in
  vm_ok kend s pt t l → 0 ≤ newsz < oldsz → oldsz ≤ MAXVA → PGROUNDUP oldsz = base + PGSIZE * n →
  leaves (k_mem s) t base n → NoDup fs → Forall (data_page kend t l) fs →
  wp (uvmdealloc kend pt oldsz newsz) (λ r s',
    r = newsz ∧ vm_ok kend s' pt t (reverse fs ++ l) ∧
    (∀ va, 0 ≤ va < MAXVA → pte_val (k_mem s') t va = cleared base n (pte_val (k_mem s) t) va) ∧
    same_but t fs (k_mem s) (k_mem s')) s.
Proof using kend_pos.
  intros base fs Hok Hnew Hold Hup Hlv Hnd Hfs. unfold uvmdealloc. zbool. fold base.
  destruct (PGROUNDUP_spec newsz) as [Hal Hb]; [lia|]. fold base in Hal, Hb.
  pose proof (PGROUNDUP_max oldsz ltac:(lia)) as Hm. assert (HM : MAXVA = PGSIZE * 67108864) by reflexivity.
  rewrite Hup. wp_step. destruct n as [|n].
  - zbool. apply wp_ret, wp_ret. split_and!; auto.
    + intros va ?. unfold cleared. by rewrite decide_False by lia.
    + by intros x.
  - zbool. replace (base + PGSIZE * S n - base) with (S n * PGSIZE) by lia. rewrite Z.div_mul by done.
    rewrite swrap_small, wrap_small by pg_lia.
    wp_use (uvmunmap_wp true t (S n) base s l); auto; try pg_lia.
    intros _ s' ?. by apply wp_ret.
Qed.

Lemma frames_snoc m t a n :
  frames m t a (S n) = frames m t a n ++ [PTE2PA (pte_val m t (a + PGSIZE * n))].
Proof.
  revert a. induction n as [|n IH]; intros a; simpl in *.
  - by rewrite Z.mul_0_r, Z.add_0_r.
  - rewrite IH. do 5 f_equal. lia.
Qed.

Lemma elem_of_frames m t a n p :
  p ∈ frames m t a n ↔ ∃ i : nat, (i < n)%nat ∧ p = PTE2PA (pte_val m t (a + PGSIZE * i)).
Proof.
  induction n as [|n IH]; [simpl; rewrite elem_of_nil; split; [done|intros (?&?&?); lia]|].
  rewrite frames_snoc, elem_of_app, IH, list_elem_of_singleton. split.
  - intros [(i&?&->)| ->]; eauto with lia.
  - intros (i&?&->). destruct (decide (i = n)) as [->|]; [by right|left; exists i; split; [lia|done]].
Qed.

Lemma frames_lookup m t a (n i : nat) :
  (i < n)%nat → frames m t a n !! i = Some (PTE2PA (pte_val m t (a + PGSIZE * i))).
Proof.
  revert a i. induction n as [|n IH]; intros a [|i] Hi; simpl in *; try lia.
  - by rewrite Z.mul_0_r, Z.add_0_r.
  - rewrite IH by lia. do 3 f_equal. lia.
Qed.

Lemma data_page_evolve s t l s' t' l' p :
  vm_evolve kend pt s t l s' t' l' → data_page kend t l p → data_page kend t' l' p.
Proof.
  intros [_ _ [k ->] Hn _ _] (Hp&Hl&Ht). split_and!; auto; [set_solver|].
  intros x [?|?]%Hn; [by eapply Ht|done].
Qed.

Lemma data_page_not_in_tables s t l p x :
  vm_ok kend s pt t l → data_page kend t l p → p ≤ x < p + PGSIZE → ¬ in_tables t x.
Proof. intros Hok (?&?&?). by eapply not_in_tables. Qed.

Definition zeroed (m : mem) (p : Z) : Prop := ∀ x, p ≤ x < p + PGSIZE → m x = 0.

Section grow.
Context (s0 : kstate) (t0 : tables) (l0 : list Z) (base perm : Z).
Context (Hperm : 0 ≤ perm < 1024) (HpermR : has_bits perm PTE_R = true).
Context (Hbase : aligned base) (Hbase0 : 0 ≤ base).

(** After [k] pages of growth: they are mapped to distinct zeroed pages that
    came from the free list; everything else is as before. *)
Record grown (k : nat) (s : kstate) (t : tables) (l : list Z) : Prop := {
  gr_ok : vm_ok kend s pt t l;
  gr_sub : t0 ⊆ t;
  gr_free : ∀ p, p ∈ l → p ∈ l0;
  gr_acct : ∀ p, p ∈ l0 → p ∈ l ∨ (∃ x, t !! x = Some p) ∨ p ∈ frames (k_mem s) t base k;
  gr_from : ∀ p, p ∈ frames (k_mem s) t base k → p ∈ l0;
  gr_pte : ∀ i : nat, (i < k)%nat →
    pte_val (k_mem s) t (base + PGSIZE * i) = mkpte (PTE2PA (pte_val (k_mem s) t (base + PGSIZE * i))) perm;
  gr_nodup : NoDup (frames (k_mem s) t base k);
  gr_data : Forall (data_page kend t l) (frames (k_mem s) t base k);
  gr_zero : Forall (zeroed (k_mem s)) (frames (k_mem s) t base k);
  gr_old : ∀ va, 0 ≤ va < MAXVA → ¬ (base ≤ va < base + PGSIZE * k) →
    pte_val (k_mem s) t va = pte_val (k_mem s0) t0 va;
  gr_frame : ∀ x, ¬ in_tables t x → (∀ p, p ∈ l0 → x < p ∨ p + PGSIZE ≤ x) → k_mem s x = k_mem s0 x
}.

Lemma mkpte_leaf p : 0 ≤ p < 2 ^ 56 → leaf (mkpte p perm).
Proof using Hperm HpermR.
  intros Hp. split; [apply mkpte_V|]. rewrite mkpte_flags by done. intros E.
  apply (f_equal (λ z, Z.testbit z 1)) in E. rewrite Z.lor_spec in E.
  unfold PTE_R in HpermR. rewrite has_bits_testbit in HpermR by lia. rewrite HpermR in E. done.
Qed.

Lemma grown_leaves k s t l : grown k s t l → leaves (k_mem s) t base k.
Proof using Hperm HpermR kend_pos.
  intros Hg i Hi. rewrite (gr_pte _ _ _ _ Hg i Hi). apply mkpte_leaf.
  pose proof (gr_data _ _ _ _ Hg) as Hd. rewrite Forall_forall in Hd.
  destruct (Hd (PTE2PA (pte_val (k_mem s) t (base + PGSIZE * i)))) as (Hok&_&_).
  { apply elem_of_frames. eauto. }
  destruct (page_ok_bound kend kend_pos _ Hok). lia.
Qed.

(** One round of growth leaves the pages already mapped as they are. *)
Lemma grown_keep k s t p l s3 t' l' :
  grown k s t (p :: l) →
  vm_ok kend s3 pt t' l' → t ⊆ t' → (∀ q, q ∈ l' → q ∈ p :: l) →
  (∀ x q, t' !! x = Some q → t !! x = Some q ∨ q ∈ l) →
  (∀ q, q ∈ l → q ∈ l' ∨ ∃ x, t' !! x = Some q) →
  (∀ x, ¬ in_tables t' x → x < p ∨ p + PGSIZE ≤ x → k_mem s3 x = k_mem s x) →
  (∀ va, 0 ≤ va < MAXVA → ¬ (base + PGSIZE * k ≤ va < base + PGSIZE * k + PGSIZE) →
     pte_val (k_mem s3) t' va = pte_val (k_mem s) t va) →
  base + PGSIZE * k + PGSIZE ≤ MAXVA →
  frames (k_mem s3) t' base k = frames (k_mem s) t base k ∧
  Forall (data_page kend t' l') (frames (k_mem s) t base k) ∧
  Forall (zeroed (k_mem s3)) (frames (k_mem s) t base k) ∧
  p ∉ frames (k_mem s) t base k.
Proof using All.
  intros Hg Hok Hsub Hl' Hnew Htk Hfr Hpte Hmax.
  assert (Hpf : p ∉ frames (k_mem s) t base k).
  { intros Hp. pose proof (gr_data _ _ _ _ Hg) as Hd. rewrite Forall_forall in Hd.
    destruct (Hd p Hp) as (_&Hn&_). set_solver. }
  assert (Hdat : Forall (data_page kend t' l') (frames (k_mem s) t base k)).
  { eapply Forall_impl; [apply (gr_data _ _ _ _ Hg)|]. intros q (Hq&Hql&Hqt). split_and!; [done|by intros ?%Hl'|].
    intros x [?|?]%Hnew; [by eapply Hqt|set_solver]. }
  split_and!; auto.
  - apply frames_ext. intros i Hi. apply Hpte; pg_lia.
  - pose proof (gr_zero _ _ _ _ Hg) as Hz. rewrite Forall_forall in Hz, Hdat |- *. intros q Hq x Hx.
    rewrite Hfr; [by apply (Hz q Hq)| |].
    + eapply data_page_not_in_tables; [exact Hok|by apply Hdat|done].
    + pose proof (gr_data _ _ _ _ Hg) as Hd. rewrite Forall_forall in Hd.
      destruct (Hd q Hq) as ([Hqa _]&_&_). pose proof (ok_pages _ _ _ (vm_kmem _ _ _ _ _ (gr_ok _ _ _ _ Hg))) as Hp'.
      apply Forall_cons in Hp' as [[Hpa _] _].
      destruct (aligned_disjoint q p) as [?|?]; auto; [congruence|lia..].
Qed.

(** One round of [uvmalloc] with a free page: a page more, or an error that
    leaves the table as it was. *)
Lemma grow_page_wp k s t p l (K E1 E2 : M kstate Z) Q :
  grown k s t (p :: l) → base + PGSIZE * k + PGSIZE ≤ MAXVA →
  (∀ va, base + PGSIZE * k ≤ va < base + PGSIZE * k + PGSIZE → pte_val (k_mem s0) t0 va = 0) →
  (∀ s' t' l', grown (S k) s' t' l' → wp K Q s') →
  (∀ s' t' l', grown k s' t' l' → wp E2 Q s') →
  wp (mem ← kalloc;
      if mem =? 0 then E1
      else
        upd_mem (λ m, memset m mem 0 PGSIZE) ;;
        r ← mappages pt (base + PGSIZE * k) PGSIZE mem perm;
        if negb (r =? 0) then kfree kend mem ;; E2 else K) Q s.
Proof using All.
  intros Hg Hmax Hz HK HE. assert (HM : MAXVA = 274877906944) by reflexivity.
  set (a := base + PGSIZE * k) in *. assert (Ha : aligned a) by (by apply aligned_add).
  pose proof (gr_ok _ _ _ _ Hg) as Hok. wp_step. wp_use kalloc_vm_wp; [done|exact Hok|].
  intros r s1 (->&Hok1&Hdp&Hs1&Hpte1). pose proof (page_ok_nz kend kend_pos p (proj1 Hdp)). zbool.
  wp_step. apply wp_modify. set (m2 := memset (k_mem s1) p 0 PGSIZE).
  assert (Hs2 : same_outside p (k_mem s1) m2). { intros x ?. by apply memset_out. }
  destruct (vm_ok_data kend s1 pt t l p m2 Hok1 Hdp) as [Hok2 Hpte2]; auto.
  { apply memset_bytes_ok, Hok1. }
  set (s2 := set_mem m2 s1) in *. destruct (page_ok_bound kend kend_pos p (proj1 Hdp)) as (Hpb&Hpa&Hpb').
  assert (Hnp : npages a PGSIZE = 1) by (by apply (npages_aligned a 1)).
  wp_step. wp_use (mappages_wp kend kend_pos pt perm s2 t l a PGSIZE p); rewrite ?Hnp; auto; try pg_lia.
  { intros va Hva. rewrite (PGROUNDDOWN_id a Ha), Z.mul_1_r in Hva. simpl. rewrite Hpte2, Hpte1.
    rewrite (gr_old _ _ _ _ Hg), Hz; auto; unfold a in *; pg_lia. }
  rewrite (PGROUNDDOWN_id a Ha). intros r s3 (t'&l'&j&Hev&_&Hpte3&Hr).
  assert (Hj : ∀ va, 0 ≤ va < MAXVA → ¬ (a ≤ va < a + PGSIZE) → pte_val (k_mem s3) t' va = pte_val (k_mem s) t va).
  { intros va Hva Hn. rewrite Hpte3 by done. unfold mapped. rewrite decide_False by (destruct Hr as [[? ->]|(?&?&?)]; pg_lia).
    simpl. by rewrite Hpte2, Hpte1. }
  assert (Hfr : ∀ x, ¬ in_tables t' x → x < p ∨ p + PGSIZE ≤ x → k_mem s3 x = k_mem s x).
  { intros x Hx Hp. rewrite (ev_frame _ _ _ _ _ _ _ _ Hev) by done. simpl. by rewrite Hs2, Hs1. }
  assert (Hl' : ∀ q, q ∈ l' → q ∈ p :: l).
  { intros q Hq. destruct (ev_free _ _ _ _ _ _ _ _ Hev) as [kk ->]. set_solver. }
  destruct (grown_keep k s t p l s3 t' l') as (Hf&Hd&Hzr&Hpf); auto; try apply Hev.
  assert (Hdp' : data_page kend t' l' p) by (by eapply data_page_evolve).
  assert (Hsub : t0 ⊆ t') by (etrans; [apply (gr_sub _ _ _ _ Hg)|apply Hev]).
  assert (Hacct : ∀ q, q ∈ l0 → q = p ∨ q ∈ l' ∨ (∃ x, t' !! x = Some q) ∨ q ∈ frames (k_mem s) t base k).
  { intros q [[->|Hq]%elem_of_cons|[[x Hx]|Hq]]%(gr_acct _ _ _ _ Hg); auto.
    - destruct (ev_taken _ _ _ _ _ _ _ _ Hev q Hq); auto.
    - right; right; left. exists x. eapply lookup_weaken; [done|apply Hev]. }
  assert (Hfr0 : ∀ x, ¬ in_tables t' x → (∀ q, q ∈ l0 → x < q ∨ q + PGSIZE ≤ x) → k_mem s3 x = k_mem s0 x).
  { intros x Hx Hout. rewrite Hfr; auto; [|apply Hout, (gr_free _ _ _ _ Hg); set_solver].
    apply (gr_frame _ _ _ _ Hg); auto. intros ?. apply Hx. eapply in_tables_mono; [apply Hev|done]. }
  destruct Hr as [[-> ->]|(->&?&->)]; simpl negb; cbv iota.
  - assert (Hpa3 : pte_val (k_mem s3) t' a = mkpte p perm).
    { rewrite Hpte3 by pg_lia. unfold mapped. rewrite decide_True by pg_lia.
      rewrite PGROUNDDOWN_id, Z.sub_diag, Z.add_0_r by done. done. }
    assert (HPA : PTE2PA (pte_val (k_mem s3) t' a) = p) by (rewrite Hpa3; by apply mkpte_PTE2PA).
    assert (HfS : frames (k_mem s3) t' base (S k) = frames (k_mem s) t base k ++ [p]).
    { rewrite frames_snoc, Hf. fold a. by rewrite HPA. }
    apply (HK s3 t' l'). split; auto; rewrite ?HfS.
    + apply Hev.
    + intros q Hq%Hl'. by apply (gr_free _ _ _ _ Hg).
    + intros q [->|[?|[?|?]]]%Hacct; auto; right; right; set_solver.
    + intros q Hq. apply elem_of_app in Hq as [?|Hq]; [by apply (gr_from _ _ _ _ Hg)|].
      apply list_elem_of_singleton in Hq as ->.
      apply (gr_free _ _ _ _ Hg). set_solver.
    + intros i Hi. destruct (decide (i = k)) as [->|]; [fold a; by rewrite HPA|].
      rewrite Hj by (unfold a in *; pg_lia). apply (gr_pte _ _ _ _ Hg). lia.
    + apply NoDup_app. split_and!; [apply (gr_nodup _ _ _ _ Hg)| |apply NoDup_singleton].
      intros q Hq ->%list_elem_of_singleton. done.
    + apply Forall_app. split; [done|]. by constructor.
    + apply Forall_app. split; [done|]. constructor; [|done]. intros x Hx.
      rewrite (ev_frame _ _ _ _ _ _ _ _ Hev); [simpl; unfold m2; by rewrite memset_in|].
      eapply data_page_not_in_tables; [apply Hev|done|done].
    + intros va Hva Hn. rewrite Hj by (unfold a in *; pg_lia). apply (gr_old _ _ _ _ Hg); auto. unfold a in *. pg_lia.
  - assert (Hjj : j = 0%nat) by lia. subst j. wp_step. wp_use kfree_vm_wp; [done|apply Hev|done|].
    intros _ s4 (Hok4&Hs4&Hpte4).
    assert (Hpte40 : ∀ va, 0 ≤ va < MAXVA → pte_val (k_mem s4) t' va = pte_val (k_mem s) t va).
    { intros va Hva. rewrite Hpte4, Hpte3 by done. unfold mapped. rewrite decide_False by lia. simpl. by rewrite Hpte2, Hpte1. }
    assert (Hf4 : frames (k_mem s4) t' base k = frames (k_mem s) t base k).
    { apply frames_ext. intros i ?. apply Hpte40. unfold a in *. pg_lia. }
    apply (HE s4 t' [p]). split; auto; rewrite ?Hf4.
    + intros q ->%list_elem_of_singleton. apply (gr_free _ _ _ _ Hg). set_solver.
    + intros q [->|[?|[?|?]]]%Hacct; auto; [left|]; set_solver.
    + apply (gr_from _ _ _ _ Hg).
    + intros i Hi. rewrite Hpte40 by (unfold a in *; pg_lia). by apply (gr_pte _ _ _ _ Hg).
    + apply (gr_nodup _ _ _ _ Hg).
    + rewrite Forall_forall in Hd |- *. intros q Hq. destruct (Hd q Hq) as (?&?&?). split_and!; auto.
      intros ->%list_elem_of_singleton. done.
    + rewrite Forall_forall in Hzr, Hd |- *. intros q Hq x Hx. rewrite Hs4; [by apply (Hzr q Hq)|].
      destruct (Hd q Hq) as ([Hqa _]&_&_). destruct (aligned_disjoint q p Hqa Hpa) as [?|?]; [congruence|lia..].
    + intros va Hva Hn. rewrite Hpte40 by done. by apply (gr_old _ _ _ _ Hg).
    + intros x Hx Hout. rewrite Hs4; auto. apply Hout, (gr_free _ _ _ _ Hg). set_solver.
Qed.

(** The error path of [uvmalloc] undoes the growth. *)
Lemma grown_undo k top s t l :
  grown k s t l → base ≤ top ≤ MAXVA → PGROUNDUP top = base + PGSIZE * k →
  (∀ va, base ≤ va < base + PGSIZE * k → pte_val (k_mem s0) t0 va = 0) →
  wp (uvmdealloc kend pt top base) (λ r s', r = base ∧ ∃ l', grown 0 s' t l') s.
Proof using All.
  intros Hg Hmax Htop Hz. destruct (PGROUNDUP_spec top) as (_&Ht1&Ht2); [lia|]. destruct k as [|k].
  { assert (top = base) as -> by lia. unfold uvmdealloc. zbool. apply wp_ret. split; [done|]. by exists l. }
  wp_use (uvmdealloc_wp t (S k) top base s l); rewrite ?(PGROUNDUP_id base) by (auto; lia); try apply Hg; auto.
  - pg_lia.
  - lia.
  - by eapply grown_leaves.
  - intros r s' (->&Hok'&Hpte'&Hsb). split; [done|]. eexists. split.
    + exact Hok'.
    + apply Hg.
    + intros p. rewrite elem_of_app, elem_of_reverse, elem_of_frames. intros [(i&Hi&->)|?]; [|by apply (gr_free _ _ _ _ Hg)].
      pose proof (gr_data _ _ _ _ Hg) as Hd. rewrite Forall_forall in Hd.
      eapply (gr_from _ _ _ _ Hg). apply elem_of_frames. eauto.
    + intros p [?|[?|?]]%(gr_acct _ _ _ _ Hg); auto; left; apply elem_of_app; [by right|left; by apply elem_of_reverse].
    + by intros p ?%elem_of_nil.
    + intros i Hi. lia.
    + constructor.
    + constructor.
    + constructor.
    + intros va Hva _. rewrite Hpte' by done. unfold cleared. case_decide as Hr; [by rewrite Hz|].
      by apply (gr_old _ _ _ _ Hg).
    + intros x Hx Hout. rewrite Hsb; auto; [by apply (gr_frame _ _ _ _ Hg)|].
      intros p Hp. by apply Hout, (gr_from _ _ _ _ Hg).
Qed.

End grow.

(** [uvmalloc] from page [k] of [n]. *)
Lemma uvmalloc_loop_wp s0 t0 l0 base newsz xperm (n k fuel : nat) s t l :
  let perm := Z.lor (Z.lor PTE_R PTE_U) xperm in
  0 ≤ perm < 1024 → aligned base → 0 ≤ base → newsz ≤ MAXVA →
  base + PGSIZE * n - PGSIZE < newsz ≤ base + PGSIZE * n → base + PGSIZE * n ≤ MAXVA →
  (∀ va, base ≤ va < base + PGSIZE * n → pte_val (k_mem s0) t0 va = 0) →
  (k ≤ n)%nat → (n - k < fuel)%nat → grown s0 t0 l0 base perm k s t l →
  wp (uvmalloc_loop kend pt (base + PGSIZE * k) base newsz xperm fuel) (λ r s', ∃ t' l',
    (r = newsz ∧ grown s0 t0 l0 base perm n s' t' l') ∨ (r = 0 ∧ grown s0 t0 l0 base perm 0 s' t' l')) s.
Proof using kend_pos.
  intros perm Hperm Hbase Hbase0 Hmax Hn Hnmax Hz. assert (HM : MAXVA = 274877906944) by reflexivity.
  assert (HR : has_bits perm PTE_R = true).
  { unfold PTE_R. rewrite has_bits_testbit by lia. unfold perm. by rewrite !Z.lor_spec. }
  revert fuel s t l. remember (n - k)%nat as d eqn:Hd. revert k Hd.
  induction d as [|d IH]; intros k Hd [|fuel] s t l Hk Hf Hg; try lia; cbn [uvmalloc_loop].
  - zbool. apply wp_ret. exists t, l. left. split; [done|]. by replace n with k by lia.
  - assert (k < n)%nat by lia. zbool. destruct l as [|p l].
    + wp_step. eapply wp_intro; [eapply kalloc_empty_wp, Hg|]. simpl. wp_step.
      wp_use (grown_undo s0 t0 l0 base perm Hperm HR Hbase Hbase0 k (base + PGSIZE * k) _ t []);
        [exact Hg|pg_lia|apply PGROUNDUP_id; [pg_lia|by apply aligned_add]|intros; apply Hz; pg_lia|].
      intros _ s' (_&l'&Hg'). apply wp_ret. exists t, l'. by right.
    + eapply (grow_page_wp s0 t0 l0 base perm); eauto; [pg_lia|intros; apply Hz; pg_lia|..].
      * intros s' t' l' Hg'. rewrite wrap_small by pg_lia.
        replace (base + PGSIZE * k + PGSIZE) with (base + PGSIZE * S k) by pg_lia.
        apply (IH (S k) ltac:(lia) fuel s' t' l'); [lia..|done].
      * intros s' t' l' Hg'. wp_step. wp_use (grown_undo s0 t0 l0 base perm Hperm HR Hbase Hbase0 k (base + PGSIZE * k) _ t' l');
          [exact Hg'|pg_lia|apply PGROUNDUP_id; [pg_lia|by apply aligned_add]|intros; apply Hz; pg_lia|].
        intros _ s'' (_&l''&Hg''). apply wp_ret. exists t', l''. by right.
Qed.

Lemma PGROUNDUP_pages a b : 0 ≤ a ≤ b → b ≤ MAXVA →
  PGROUNDUP b = PGROUNDUP a + PGSIZE * Z.to_nat ((PGROUNDUP b - PGROUNDUP a) / PGSIZE).
Proof.
  intros Ha Hb. destruct (PGROUNDUP_spec a) as (Hba&Hb1&Hb2); [lia|].
  destruct (PGROUNDUP_spec b) as (Hna&Hn1&Hn2); [lia|]. apply aligned_inv in Hba, Hna.
  set (x := PGROUNDUP b / PGSIZE) in *. set (y := PGROUNDUP a / PGSIZE) in *. rewrite Hba, Hna.
  replace (PGSIZE * x - PGSIZE * y) with ((x - y) * PGSIZE) by lia. rewrite Z.div_mul by done. pg_lia.
Qed.

Lemma uvmalloc_wp s t l oldsz newsz xperm :
  let base := PGROUNDUP oldsz in
  let n := Z.to_nat ((PGROUNDUP newsz - base) / PGSIZE) in
  let perm := Z.lor (Z.lor PTE_R PTE_U) xperm in
  0 ≤ perm < 1024 → 0 ≤ oldsz ≤ newsz → newsz ≤ MAXVA → vm_ok kend s pt t l →
  (∀ va, base ≤ va < PGROUNDUP newsz → pte_val (k_mem s) t va = 0) →
  wp (uvmalloc kend pt oldsz newsz xperm) (λ r s', ∃ t' l',
    (r = newsz ∧ grown s t l base perm n s' t' l') ∨ (r = 0 ∧ grown s t l base perm 0 s' t' l')) s.
Proof using kend_pos.
  intros base n perm Hperm Hsz Hmax Hok Hz. assert (HM : MAXVA = 274877906944) by reflexivity.
  destruct (PGROUNDUP_spec oldsz) as (Hba&Hb1&Hb2); [lia|]. fold base in Hb1, Hb2, Hba.
  destruct (PGROUNDUP_spec newsz) as (Hna&Hn1&Hn2); [lia|].
  pose proof (PGROUNDUP_max newsz ltac:(lia)) as Hmax'.
  assert (HN : PGROUNDUP newsz = base + PGSIZE * n) by (apply PGROUNDUP_pages; lia).
  rewrite HN in *. unfold uvmalloc. zbool. fold base.
  replace base with (base + PGSIZE * 0%nat) at 1 by lia.
  apply (uvmalloc_loop_wp s t l base newsz xperm n 0 _ s t l); auto; try pg_lia.
  - unfold range_fuel. pose proof (Z.div_le_mono (PGSIZE * (n - 1)) (newsz - base) PGSIZE) as Hd.
    rewrite (Z.mul_comm PGSIZE), Z.div_mul in Hd by done. pg_lia.
  - split; auto; try done; try constructor; try (intros; simpl in *; lia). by intros p ?%elem_of_nil.
Qed.

(* ------------------------------------------------------------------ *)
(** ** What a walk of the table finds *)

(** The entry for [va], read through [walk]: 0 when there is none. *)
Definition lookup_pte (va : Z) : M kstate Z :=
  pte ← walk pt va false;
  if pte =? 0 then mret 0 else load_pte pte.

Lemma lookup_pte_ok s t l va :
  vm_ok kend s pt t l → va < MAXVA → lookup_pte va s = Ok (pte_val (k_mem s) t va) s.
Proof using kend_pos.
  intros Hok Hva. unfold lookup_pte, mbind, M_bind. rewrite (walk_noalloc kend s pt t l va Hok) by done.
  unfold pte_addr. destruct (t !! [PX 2 va; PX 1 va]) as [p|] eqn:Hp.
  - pose proof (pte_ptr_nz _ kend_pos _ _ _ _ _ _ Hok Hp). zbool. unfold load_pte, gets.
    by rewrite (pte_val_Some _ _ _ _ Hp).
  - simpl. unfold pte_val. by rewrite Hp.
Qed.

(** C37: When the range is unmapped, [mappages] returns 0 after mapping the
    pages of [va, va+size) to consecutive frames from [pa] with the given
    permissions, or -1 only when no free page is left; walking the table for
    any other address finds what it found before, and the allocator and the
    table stay well formed. *)
Theorem mappages_translates s t l va size pa perm :
  0 ≤ perm < 1024 → vm_ok kend s pt t l → 0 ≤ va → 0 < size → va + size ≤ MAXVA →
  aligned pa → 0 ≤ pa → pa + PGSIZE * npages va size < 2 ^ 56 →
  (∀ v, PGROUNDDOWN va ≤ v < PGROUNDDOWN va + PGSIZE * npages va size → lookup_pte v s = Ok 0 s) →
  let in_range v := PGROUNDDOWN va ≤ v < PGROUNDDOWN va + PGSIZE * npages va size in
  wp (mappages pt va size pa perm) (λ r s',
    (∃ t' l', vm_ok kend s' pt t' l' ∧ (r = -1 → l' = [])) ∧ (r = 0 ∨ r = -1) ∧
    (∀ v, r = 0 → in_range v → lookup_pte v s' = Ok (mkpte (pa + (PGROUNDDOWN v - PGROUNDDOWN va)) perm) s') ∧
    (∀ v, 0 ≤ v < MAXVA → ¬ in_range v → ∃ e, lookup_pte v s = Ok e s ∧ lookup_pte v s' = Ok e s')) s.
Proof using kend_pos.
  intros Hperm Hok Hva Hsz Hmax Hpa Hpa0 Hpal Hun in_range.
  pose proof (PGROUNDDOWN_le va) as Hd. destruct (npages_pos va size Hsz) as [Hn Hlast].
  pose proof (PGROUNDDOWN_le (va + size - 1)) as Hd'.
  assert (Hr : ∀ v, in_range v → 0 ≤ v < MAXVA).
  { unfold in_range. intros v Hv. pose proof (aligned_inv _ (PGROUNDDOWN_aligned va)). pose proof (aligned_inv _ (PGROUNDDOWN_aligned (va + size - 1))).
    assert (MAXVA = PGSIZE * 67108864) by reflexivity. pg_lia. }
  wp_use (mappages_wp kend kend_pos pt perm s t l va size pa); auto.
  { intros v Hv. specialize (Hun v Hv). rewrite (lookup_pte_ok s t l) in Hun by (auto; apply Hr; done).
    injection Hun as ->. done. }
  intros r s' (t'&l'&j&Hev&_&Hpte&Hres). assert (Hok' := ev_ok _ _ _ _ _ _ _ _ Hev).
  split_and!.
  - exists t', l'. split; [done|]. intros ->. destruct Hres as [[? _]|(_&_&?)]; done.
  - destruct Hres as [[? _]|(?&_)]; auto.
  - intros v -> Hv. rewrite (lookup_pte_ok s' t' l') by (auto; apply Hr; done). rewrite Hpte by auto.
    destruct Hres as [[_ ->]|[? _]]; [|done]. unfold mapped. by rewrite decide_True by (unfold in_range in Hv; lia).
  - intros v Hv Hout. exists (pte_val (k_mem s) t v). rewrite (lookup_pte_ok s t l), (lookup_pte_ok s' t' l') by (auto; lia).
    split; [done|]. rewrite Hpte by done. unfold mapped. rewrite decide_False; [done|].
    unfold in_range in Hout. destruct Hres as [[_ ->]|(_&?&_)]; pg_lia.
Qed.


(** Growing and shrinking back is the identity on the address space: after
    [uvmalloc] and, if it succeeded, [uvmdealloc] to the old size, a walk for
    any address finds what it found before, and every page that was free is
    free again or holds a page table. *)
Theorem uvmalloc_uvmdealloc_roundtrip s t l oldsz newsz xperm :
  let perm := Z.lor (Z.lor PTE_R PTE_U) xperm in
  0 ≤ perm < 1024 → 0 ≤ oldsz ≤ newsz → newsz ≤ MAXVA → aligned oldsz → vm_ok kend s pt t l →
  (∀ va, oldsz ≤ va < PGROUNDUP newsz → lookup_pte va s = Ok 0 s) →
  wp (r ← uvmalloc kend pt oldsz newsz xperm;
      if r =? 0 then mret oldsz else uvmdealloc kend pt newsz oldsz) (λ r s', ∃ t' l',
    r = oldsz ∧ vm_ok kend s' pt t' l' ∧
    (∀ va, 0 ≤ va < MAXVA → ∃ e, lookup_pte va s = Ok e s ∧ lookup_pte va s' = Ok e s') ∧
    ∀ p, p ∈ l → p ∈ l' ∨ ∃ x, t' !! x = Some p) s.
Proof using kend_pos.
  intros perm Hperm Hsz Hmax Hal Hok Hz. pose proof (PGROUNDUP_max newsz ltac:(lia)) as HM.
  assert (HR : has_bits perm PTE_R = true).
  { unfold PTE_R. rewrite has_bits_testbit by lia. unfold perm. by rewrite !Z.lor_spec. }
  pose proof (PGROUNDUP_pages oldsz newsz ltac:(lia) ltac:(lia)) as HN.
  assert (Hbase : PGROUNDUP oldsz = oldsz) by (apply PGROUNDUP_id; [lia|done]).
  assert (Hz' : ∀ va, oldsz ≤ va < PGROUNDUP newsz → pte_val (k_mem s) t va = 0).
  { intros va Hva. specialize (Hz va Hva). rewrite (lookup_pte_ok s t l) in Hz by (auto; lia). by injection Hz. }
  assert (Hend : ∀ s' t' l', grown s t l oldsz perm 0 s' t' l' → ∃ t' l', oldsz = oldsz ∧ vm_ok kend s' pt t' l' ∧
    (∀ va, 0 ≤ va < MAXVA → ∃ e, lookup_pte va s = Ok e s ∧ lookup_pte va s' = Ok e s') ∧
    ∀ p, p ∈ l → p ∈ l' ∨ ∃ x, t' !! x = Some p).
  { intros s' t' l' Hg. pose proof (gr_ok _ _ _ _ _ _ _ _ _ Hg) as Hok'. exists t', l'. split_and!; auto.
    - intros va Hva. exists (pte_val (k_mem s) t va).
      rewrite (lookup_pte_ok s t l), (lookup_pte_ok s' t' l') by (auto; lia). split; [done|].
      f_equal. apply (gr_old _ _ _ _ _ _ _ _ _ Hg); auto. lia.
    - intros p [?|[?|Hp%elem_of_nil]]%(gr_acct _ _ _ _ _ _ _ _ _ Hg); auto. done. }
  wp_step. wp_use (uvmalloc_wp s t l oldsz newsz xperm); rewrite ?Hbase in *; auto.
  fold perm. set (n := Z.to_nat _) in *.
  intros r s' (t'&l'&[[-> Hg]|[-> Hg]]); [|apply wp_ret; eauto].
  destruct (Z.eqb_spec newsz 0) as [->|].
  - apply wp_ret. assert (oldsz = 0) as -> by lia.
    assert (n = 0%nat) as Hn by (unfold n; by vm_compute). rewrite Hn in Hg. eauto.
  - wp_use (grown_undo s t l oldsz perm Hperm HR Hal ltac:(lia) n newsz s' t' l'); auto; [lia| |].
    { intros va Hva. apply Hz'. lia. }
    intros r s'' (->&l''&Hg''). eauto.
Qed.

End uvm.
