(* ===== verification/CopyProps.v ===== *)
(** Copying between kernel and user space: [walkaddr], [copyout] and
    [copyin] of kernel/vm.c implement a write to, and a read from, the
    byte-addressed user memory that the page table describes. *)
From S2P Require Import Prelude Kstring Kalloc Vm VmProps UvmProps.

(** ** The user's view of memory *)

Definition user_pte (v : Z) : bool := has_bits v PTE_V && has_bits v PTE_U.

Definition user_pa (m : mem) (t : tables) (va : Z) : option Z :=
  if decide (0 ≤ va < MAXVA) then
    let v := pte_val m t va in
    if user_pte v then Some (PTE2PA v + va `mod` PGSIZE) else None
  else None.

(** The byte a user program reads at [va], if it may. *)
Definition ubyte (m : mem) (t : tables) (va : Z) : option Z := m <$> user_pa m t va.

Section copy.
Variable kend : Z.
Hypothesis kend_pos : 0 < kend.
Variable pt : Z.

(** User pages are data pages, and no two of them share a frame. *)
Record uspace (m : mem) (t : tables) (l : list Z) : Prop := {
  us_data : ∀ va, 0 ≤ va < MAXVA → user_pte (pte_val m t va) = true →
    data_page kend t l (PTE2PA (pte_val m t va));
  us_inj : ∀ va va', 0 ≤ va < MAXVA → 0 ≤ va' < MAXVA →
    user_pte (pte_val m t va) = true → user_pte (pte_val m t va') = true →
    PTE2PA (pte_val m t va) = PTE2PA (pte_val m t va') → va / PGSIZE = va' / PGSIZE
}.

Lemma user_pa_ext m m' t va : (∀ v, pte_val m' t v = pte_val m t v) → user_pa m' t va = user_pa m t va.
Proof. intros H. unfold user_pa. by rewrite H. Qed.

Lemma uspace_ext m m' t l : (∀ v, pte_val m' t v = pte_val m t v) → uspace m t l → uspace m' t l.
Proof. intros H [Hd Hi]. split; intros *; rewrite !H; auto. Qed.

Lemma pte_val_same_page m t va va' : va / PGSIZE = va' / PGSIZE → pte_val m t va = pte_val m t va'.
Proof.
  intros H. unfold pte_val.
  by rewrite (PX_same_page 2 va va'), (PX_same_page 1 va va'), (PX_same_page 0 va va') by (done || lia).
Qed.

Lemma walkaddr_wp s t l va :
  vm_ok kend s pt t l → 0 ≤ va →
  walkaddr pt va s = Ok (if bool_decide (va < MAXVA) && user_pte (pte_val (k_mem s) t va)
                         then PTE2PA (pte_val (k_mem s) t va) else 0) s.
Proof using kend_pos.
  intros Hok Hva. unfold walkaddr. case_bool_decide; zbool; [|done].
  unfold mbind, M_bind. rewrite (walk_noalloc kend s pt t l va Hok) by done. unfold pte_addr, user_pte.
  destruct (t !! [PX 2 va; PX 1 va]) as [p|] eqn:Hp.
  - pose proof (pte_ptr_nz _ kend_pos _ _ _ _ _ _ Hok Hp). zbool. unfold load_pte.
    unfold gets. rewrite (pte_val_Some _ _ _ _ Hp). by repeat destruct (has_bits _ _).
  - simpl. unfold pte_val. by rewrite Hp.
Qed.

(** ** One page of [copyout] *)

Lemma copyout_page s t l dstva src n :
  vm_ok kend s pt t l → uspace (k_mem s) t l → 0 ≤ dstva < MAXVA →
  user_pte (pte_val (k_mem s) t dstva) = true → 0 ≤ n → dstva `mod` PGSIZE + n ≤ PGSIZE →
  let m' := memmove (k_mem s) (PTE2PA (pte_val (k_mem s) t dstva) + dstva `mod` PGSIZE) src n in
  vm_ok kend (set_mem m' s) pt t l ∧ (∀ v, pte_val m' t v = pte_val (k_mem s) t v) ∧
  (∀ va, ubyte m' t va = if decide (dstva ≤ va < dstva + n) then Some (k_mem s (src + (va - dstva))) else ubyte (k_mem s) t va) ∧
  (∀ x, (∀ va, user_pa (k_mem s) t va ≠ Some x) → m' x = k_mem s x).
Proof using kend_pos.
  intros Hok Hus Hva Hu Hn Hoff. set (p := PTE2PA _). set (m := k_mem s) in *. intros m'.
  pose proof (us_data _ _ _ Hus dstva Hva Hu) as Hd. fold p in Hd.
  pose proof (Z.mod_pos_bound dstva PGSIZE ltac:(done)) as Hmod.
  assert (Hb : bytes_ok m) by apply Hok.
  assert (Hso : same_outside p m m').
  { intros x Hx. unfold m'. rewrite memmove_at by done. rewrite bool_decide_eq_false_2; [done|]. lia. }
  destruct (vm_ok_data kend s pt t l p m' Hok Hd) as [Hok' Hpte]; [by apply memmove_bytes_ok|done|].
  assert (Hin : ∀ va x, user_pa m t va = Some x → p + dstva `mod` PGSIZE ≤ x < p + dstva `mod` PGSIZE + n →
    dstva ≤ va < dstva + n ∧ x = p + dstva `mod` PGSIZE + (va - dstva)).
  { intros va x. unfold user_pa. case_decide as Hv; [|done]. destruct (user_pte (pte_val m t va)) eqn:Hu'; [|done].
    intros [= <-] Hx. pose proof (Z.mod_pos_bound va PGSIZE ltac:(done)).
    destruct (decide (PTE2PA (pte_val m t va) = p)) as [Heq|Hne].
    - pose proof (us_inj _ _ _ Hus va dstva Hv Hva Hu' Hu Heq) as Hq.
      pose proof (Z.div_mod va PGSIZE ltac:(done)). pose proof (Z.div_mod dstva PGSIZE ltac:(done)). rewrite Heq. lia.
    - destruct (us_data _ _ _ Hus va Hv Hu') as ([Ha _]&_&_). destruct Hd as ([Hpa _]&_&_).
      destruct (aligned_disjoint _ _ Ha Hpa Hne); lia. }
  assert (Hto : ∀ va, dstva ≤ va < dstva + n → user_pa m t va = Some (p + dstva `mod` PGSIZE + (va - dstva))).
  { intros va Hv. assert (Hq : va / PGSIZE = dstva / PGSIZE).
    { symmetry. apply (Z.div_unique_pos _ _ _ (dstva `mod` PGSIZE + (va - dstva))); [lia|].
      pose proof (Z.div_mod dstva PGSIZE ltac:(done)). lia. }
    pose proof (Z.div_mod va PGSIZE ltac:(done)) as Hdv. pose proof (Z.div_mod dstva PGSIZE ltac:(done)).
    assert (Hlt : va < MAXVA).
    { pose proof (Z.mod_pos_bound va PGSIZE ltac:(done)). assert (MAXVA = PGSIZE * 67108864) by reflexivity.
      assert (dstva / PGSIZE < 67108864) by (apply Z.div_lt_upper_bound; lia). rewrite Hq in Hdv. pg_lia. }
    unfold user_pa. rewrite decide_True by lia. rewrite (pte_val_same_page _ _ va dstva Hq), Hu. fold p. f_equal. lia. }
  split; [done|]. split; [done|]. split.
  - intros va. unfold ubyte at 1. rewrite (user_pa_ext m) by done. case_decide as Hr.
    + rewrite Hto by done. simpl. unfold m'. rewrite memmove_at by done.
      rewrite bool_decide_eq_true_2 by lia. do 2 f_equal. lia.
    + unfold ubyte. destruct (user_pa m t va) as [x|] eqn:Hx; [|done]. simpl. f_equal.
      unfold m'. rewrite memmove_at by done. rewrite bool_decide_eq_false_2; [done|]. intros Hx'.
      by destruct (Hin _ _ Hx Hx').
  - intros x Hx. unfold m'. rewrite memmove_at by done. case_bool_decide as Hr; [|done].
    destruct (Hx (dstva + (x - (p + dstva `mod` PGSIZE)))). rewrite Hto by lia. f_equal. lia.
Qed.

(** ** The loops *)

(** The part of the user range from [va] that is there: [k] of [len] bytes;
    the call returns 0 exactly when that is all of it. *)
Definition covers (m : mem) (t : tables) (va len k r : Z) : Prop :=
  0 ≤ k ≤ len ∧ (∀ i, 0 ≤ i < k → is_Some (user_pa m t (va + i))) ∧
  (r = 0 ∧ k = len ∨ r = -1 ∧ k < len ∧ user_pa m t (va + k) = None).

Lemma page_left va : 0 ≤ va → PGROUNDDOWN va = PGSIZE * (va / PGSIZE) ∧ va - PGROUNDDOWN va = va `mod` PGSIZE.
Proof. intros. rewrite PGROUNDDOWN_eq. pose proof (Z.div_mod va PGSIZE ltac:(done)). lia. Qed.

(** Every address of the rest of a user page is a user address. *)
Lemma user_pa_page m t va i :
  0 ≤ va < MAXVA → user_pte (pte_val m t va) = true → 0 ≤ i → va `mod` PGSIZE + i < PGSIZE →
  user_pa m t (va + i) = Some (PTE2PA (pte_val m t va) + va `mod` PGSIZE + i).
Proof.
  intros Hva Hu Hi Hoff. pose proof (Z.mod_pos_bound va PGSIZE ltac:(done)).
  pose proof (Z.div_mod va PGSIZE ltac:(done)) as Hd.
  assert (Hq : (va + i) / PGSIZE = va / PGSIZE).
  { symmetry. apply (Z.div_unique_pos _ _ _ (va `mod` PGSIZE + i)); lia. }
  pose proof (Z.div_mod (va + i) PGSIZE ltac:(done)) as Hd'.
  assert (Hlt : va + i < MAXVA).
  { assert (MAXVA = PGSIZE * 67108864) by reflexivity.
    assert (va / PGSIZE < 67108864) by (apply Z.div_lt_upper_bound; lia). pg_lia. }
  unfold user_pa. rewrite decide_True by lia. rewrite (pte_val_same_page _ _ (va + i) va Hq), Hu. f_equal. lia.
Qed.

Lemma user_pa_None m t va :
  0 ≤ va → bool_decide (va < MAXVA) && user_pte (pte_val m t va) = false → user_pa m t va = None.
Proof. intros Hva. unfold user_pa. repeat case_decide; case_bool_decide; simpl; try lia; try done. by intros ->. Qed.

Lemma covers_next m t va len n k r :
  0 ≤ n ≤ len → (∀ i, 0 ≤ i < n → is_Some (user_pa m t (va + i))) →
  covers m t (va + n) (len - n) k r → covers m t va len (n + k) r.
Proof.
  intros Hn Hi (Hk&Hk'&Hr). split; [lia|]. split.
  - intros i Hir. destruct (decide (i < n)); [apply Hi; lia|].
    replace (va + i) with (va + n + (i - n)) by lia. apply Hk'. lia.
  - rewrite Z.add_assoc. destruct Hr as [?|?]; [left|right]; intuition lia.
Qed.

Lemma copyout_loop_wp t l (fuel : nat) : ∀ s dstva src len,
  vm_ok kend s pt t l → uspace (k_mem s) t l → 0 ≤ dstva < 2 ^ 64 → 0 ≤ len →
  (∀ i va, 0 ≤ i < len → user_pa (k_mem s) t va ≠ Some (src + i)) →
  dstva `mod` PGSIZE + len ≤ PGSIZE * (fuel - 1) → (1 ≤ fuel)%nat →
  wp (copyout_loop pt dstva src len fuel) (λ r s', ∃ k, covers (k_mem s) t dstva len k r ∧
    vm_ok kend s' pt t l ∧ (∀ v, pte_val (k_mem s') t v = pte_val (k_mem s) t v) ∧
    (∀ va, ubyte (k_mem s') t va = if decide (dstva ≤ va < dstva + k)
                                   then Some (k_mem s (src + (va - dstva))) else ubyte (k_mem s) t va) ∧
    (∀ x, (∀ va, user_pa (k_mem s) t va ≠ Some x) → k_mem s' x = k_mem s x)) s.
Proof using kend_pos.
  assert (HM : MAXVA = 274877906944) by reflexivity.
  induction fuel as [|fuel IH]; intros s dstva src len Hok Hus Hva Hlen Hsrc Hf1 Hf; [lia|].
  cbn [copyout_loop]. pose proof (Z.mod_pos_bound dstva PGSIZE ltac:(done)) as Hmod.
  pose proof (Z.div_mod dstva PGSIZE ltac:(done)) as Hdm.
  destruct (Z.gtb_spec len 0) as [Hpos|]; last first.
  { apply wp_ret. exists 0. split; [by split_and!; [lia..|intros; lia|left; lia]|]. split_and!; auto. intros va. by rewrite decide_False by lia. }
  destruct (page_left dstva) as [Hpd Hpo]; [lia|].
  assert (0 ≤ dstva / PGSIZE) by (apply Z.div_pos; pg_lia).
  wp_step. unfold wp at 1. rewrite (walkaddr_wp s t l) by (auto; pg_lia).
  rewrite (pte_val_same_page _ _ _ dstva) by (rewrite Hpd, Z.mul_comm, Z.div_mul; done).
  rewrite (bool_decide_ext _ (dstva < MAXVA)) by (rewrite Hpd; assert (MAXVA = PGSIZE * 67108864) by reflexivity; pg_lia).
  destruct (bool_decide _ && _) eqn:Hu; last first.
  { apply wp_ret. exists 0. split.
    - split_and!; [lia..|intros; lia|]. right. split_and!; [done|lia|]. rewrite Z.add_0_r. apply user_pa_None; [lia|done].
    - split_and!; auto. intros va. by rewrite decide_False by lia. }
  apply andb_true_iff in Hu as [Hlt%bool_decide_eq_true Hu].
  destruct (us_data _ _ _ Hus dstva ltac:(lia) Hu) as (Hpok&_&_).
  pose proof (page_ok_nz kend kend_pos _ Hpok). zbool. rewrite Hpo.
  set (n := if _ >? len then len else _). wp_step. apply wp_modify.
  assert (Hn : 0 < n ≤ len ∧ dstva `mod` PGSIZE + n ≤ PGSIZE ∧ (n = len ∨ dstva `mod` PGSIZE + n = PGSIZE)).
  { subst n. destruct (Z.gtb_spec (PGSIZE - dstva `mod` PGSIZE) len); lia. }
  clearbody n. destruct Hn as (Hn&Hn1&Hn2).
  destruct (copyout_page s t l dstva src n) as (Hok1&Hpte1&Hub1&Hfr1); auto; [lia..|].
  set (m1 := memmove _ _ _ _) in *.
  assert (Hi : ∀ i, 0 ≤ i < n → is_Some (user_pa (k_mem s) t (dstva + i))).
  { intros i ?. rewrite user_pa_page by (auto; lia). done. }
  (* the remaining range starts at the next page, or is empty *)
  destruct Hn2 as [->|Hn2].
  - replace (len - len) with 0 by lia. destruct fuel as [|fuel]; [lia|]. cbn [copyout_loop]. simpl (0 >? 0). cbv iota.
    apply wp_ret. exists len. split; [by split_and!; [lia..|apply Hi|left]|]. auto.
  - rewrite Hpd, wrap_small by pg_lia. replace (PGSIZE * (dstva / PGSIZE) + PGSIZE) with (dstva + n) by lia.
    wp_use (IH (set_mem m1 s) (dstva + n) (src + n) (len - n)); auto; try pg_lia.
    { by eapply uspace_ext. }
    { intros i va ?. simpl. rewrite (user_pa_ext (k_mem s)) by done. rewrite <- Z.add_assoc. apply Hsrc. lia. }
    { replace (dstva + n) with ((dstva / PGSIZE + 1) * PGSIZE) by lia. rewrite Z.mod_mul by done. lia. }
    simpl. intros r s' (k&Hc&Hok2&Hpte2&Hub2&Hfr2). exists (n + k).
    assert (Hc' : covers (k_mem s) t (dstva + n) (len - n) k r).
    { unfold covers in *. by setoid_rewrite (user_pa_ext (k_mem s) m1) in Hc. }
    split; [apply covers_next; auto; lia|]. split_and!; auto.
    + intros v. by rewrite Hpte2.
    + intros va. rewrite Hub2, Hub1. destruct Hc as (Hk&_). repeat case_decide; try lia; auto.
      rewrite Hfr1; [do 2 f_equal; lia|]. intros va'. replace (src + n + (va - (dstva + n))) with (src + (va - dstva)) by lia.
      apply Hsrc. lia.
    + intros x Hx. rewrite Hfr2, Hfr1; auto. intros va. by rewrite (user_pa_ext (k_mem s)).
Qed.

(** [x] is kernel memory: not a byte of a table, a free page or a user page. *)
Definition kbyte (m : mem) (t : tables) (l : list Z) (x : Z) : Prop :=
  ¬ in_tables t x ∧ (∀ r, r ∈ l → x < r ∨ r + PGSIZE ≤ x) ∧ ∀ va, user_pa m t va ≠ Some x.

Lemma vm_ok_kbytes s t l m' :
  vm_ok kend s pt t l → bytes_ok m' → (∀ x, kbyte (k_mem s) t l x ∨ m' x = k_mem s x) →
  vm_ok kend (set_mem m' s) pt t l ∧ (∀ v, pte_val m' t v = pte_val (k_mem s) t v) ∧
  ∀ va, ubyte m' t va = ubyte (k_mem s) t va.
Proof using.
  intros Hok Hb Hx. assert (Hin : ∀ x, in_tables t x → m' x = k_mem s x).
  { intros x ?. destruct (Hx x) as [[? _]|]; done. }
  assert (Hpte : ∀ v, pte_val m' t v = pte_val (k_mem s) t v) by (intros; by apply pte_val_ext).
  split; [|split; [done|]].
  - split; [|by eapply pt_rep_ext, Hok|apply Hok]. apply kmem_ok_set_mem; [apply Hok|done|].
    intros r x Hr ?. destruct (Hx x) as [(_&Hf&_)|]; [|done]. destruct (Hf r Hr); lia.
  - intros va. unfold ubyte. rewrite (user_pa_ext (k_mem s)) by done.
    destruct (user_pa (k_mem s) t va) as [x|] eqn:E; [|done]. simpl. destruct (Hx x) as [(_&_&Hu)|]; [by destruct (Hu va)|].
    by f_equal.
Qed.

Lemma copyin_loop_wp t l (fuel : nat) : ∀ s dst srcva len,
  vm_ok kend s pt t l → uspace (k_mem s) t l → 0 ≤ srcva < 2 ^ 64 → 0 ≤ len →
  (∀ i, 0 ≤ i < len → kbyte (k_mem s) t l (dst + i)) →
  srcva `mod` PGSIZE + len ≤ PGSIZE * (fuel - 1) → (1 ≤ fuel)%nat →
  wp (copyin_loop pt dst srcva len fuel) (λ r s', ∃ k, covers (k_mem s) t srcva len k r ∧
    vm_ok kend s' pt t l ∧ (∀ va, ubyte (k_mem s') t va = ubyte (k_mem s) t va) ∧
    (∀ i, 0 ≤ i < k → ubyte (k_mem s) t (srcva + i) = Some (k_mem s' (dst + i))) ∧
    (∀ x, ¬ (dst ≤ x < dst + k) → k_mem s' x = k_mem s x)) s.
Proof using kend_pos.
  assert (HM : MAXVA = 274877906944) by reflexivity.
  induction fuel as [|fuel IH]; intros s dst srcva len Hok Hus Hva Hlen Hdst Hf1 Hf; [lia|].
  cbn [copyin_loop]. pose proof (Z.mod_pos_bound srcva PGSIZE ltac:(done)) as Hmod.
  pose proof (Z.div_mod srcva PGSIZE ltac:(done)) as Hdm.
  destruct (Z.gtb_spec len 0) as [Hpos|]; last first.
  { apply wp_ret. exists 0. split; [by split_and!; [lia..|intros; lia|left; lia]|]. split_and!; auto. intros; lia. }
  destruct (page_left srcva) as [Hpd Hpo]; [lia|].
  assert (0 ≤ srcva / PGSIZE) by (apply Z.div_pos; pg_lia).
  wp_step. unfold wp at 1. rewrite (walkaddr_wp s t l) by (auto; pg_lia).
  rewrite (pte_val_same_page _ _ _ srcva) by (rewrite Hpd, Z.mul_comm, Z.div_mul; done).
  rewrite (bool_decide_ext _ (srcva < MAXVA)) by (rewrite Hpd; assert (MAXVA = PGSIZE * 67108864) by reflexivity; pg_lia).
  destruct (bool_decide _ && _) eqn:Hu; last first.
  { apply wp_ret. exists 0. split.
    - split_and!; [lia..|intros; lia|]. right. split_and!; [done|lia|]. rewrite Z.add_0_r. apply user_pa_None; [lia|done].
    - split_and!; auto. intros; lia. }
  apply andb_true_iff in Hu as [Hlt%bool_decide_eq_true Hu].
  destruct (us_data _ _ _ Hus srcva ltac:(lia) Hu) as (Hpok&_&_).
  pose proof (page_ok_nz kend kend_pos _ Hpok). zbool. rewrite Hpo.
  set (n := if _ >? len then len else _). wp_step. apply wp_modify.
  assert (Hn : 0 < n ≤ len ∧ srcva `mod` PGSIZE + n ≤ PGSIZE ∧ (n = len ∨ srcva `mod` PGSIZE + n = PGSIZE)).
  { subst n. destruct (Z.gtb_spec (PGSIZE - srcva `mod` PGSIZE) len); lia. }
  clearbody n. destruct Hn as (Hn&Hn1&Hn2).
  assert (Hb : bytes_ok (k_mem s)) by apply Hok.
  set (p := PTE2PA _) in *. set (m1 := memmove (k_mem s) dst (p + srcva `mod` PGSIZE) n).
  assert (Hm1 : ∀ x, m1 x = if decide (dst ≤ x < dst + n) then k_mem s (p + srcva `mod` PGSIZE + (x - dst)) else k_mem s x).
  { intros x. unfold m1. rewrite memmove_at by (auto; lia). repeat case_decide; case_bool_decide; auto; lia. }
  destruct (vm_ok_kbytes s t l m1 Hok) as (Hok1&Hpte1&Hub1); [by apply memmove_bytes_ok| |].
  { intros x. rewrite Hm1. case_decide; [left|by right]. replace x with (dst + (x - dst)) by lia. apply Hdst. lia. }
  assert (Hi : ∀ i, 0 ≤ i < n → user_pa (k_mem s) t (srcva + i) = Some (p + srcva `mod` PGSIZE + i)).
  { intros i ?. apply user_pa_page; auto; lia. }
  assert (Hgot : ∀ i, 0 ≤ i < n → ubyte (k_mem s) t (srcva + i) = Some (m1 (dst + i))).
  { intros i ?. unfold ubyte. rewrite Hi, Hm1, decide_True by lia. simpl. do 3 f_equal. lia. }
  assert (Hout : ∀ x, ¬ (dst ≤ x < dst + n) → m1 x = k_mem s x) by (intros; by rewrite Hm1, decide_False).
  destruct Hn2 as [->|Hn2].
  - replace (len - len) with 0 by lia. destruct fuel as [|fuel]; [lia|]. cbn [copyin_loop]. simpl (0 >? 0). cbv iota.
    apply wp_ret. exists len. split; [by split_and!; [lia..|intros; rewrite Hi; eauto|left]|]. auto.
  - rewrite Hpd, wrap_small by pg_lia. replace (PGSIZE * (srcva / PGSIZE) + PGSIZE) with (srcva + n) by lia.
    wp_use (IH (set_mem m1 s) (dst + n) (srcva + n) (len - n)); auto; try pg_lia.
    { by eapply uspace_ext. }
    { intros i ?. unfold kbyte. simpl. setoid_rewrite (user_pa_ext (k_mem s)); [|done]. rewrite <- Z.add_assoc. apply Hdst. lia. }
    { replace (srcva + n) with ((srcva / PGSIZE + 1) * PGSIZE) by lia. rewrite Z.mod_mul by done. lia. }
    simpl. intros r s' (k&Hc&Hok2&Hub2&Hgot2&Hout2). exists (n + k).
    assert (Hc' : covers (k_mem s) t (srcva + n) (len - n) k r).
    { unfold covers in *. by setoid_rewrite (user_pa_ext (k_mem s) m1) in Hc. }
    split; [apply covers_next; auto; [lia|intros; rewrite Hi; eauto]|]. destruct Hc as (Hk&_). split_and!; auto.
    + intros v. by rewrite Hub2.
    + intros i Hir. destruct (decide (i < n)).
      * rewrite Hgot, Hout2 by lia. done.
      * replace (srcva + i) with (srcva + n + (i - n)) by lia. rewrite <- Hub1, Hgot2 by lia. do 2 f_equal. lia.
    + intros x Hx. rewrite Hout2, Hout by lia. done.
Qed.

Lemma copy_fuel_enough va len : 0 ≤ va → 0 ≤ len →
  va `mod` PGSIZE + len ≤ PGSIZE * (copy_fuel len - 1) ∧ (1 ≤ copy_fuel len)%nat.
Proof.
  intros. unfold copy_fuel. pose proof (Z.mod_pos_bound va PGSIZE ltac:(done)).
  pose proof (Z.div_mod len PGSIZE ltac:(done)). pose proof (Z.mod_pos_bound len PGSIZE ltac:(done)).
  assert (0 ≤ len / PGSIZE) by (apply Z.div_pos; pg_lia). pg_lia.
Qed.

(** C36: [copyout] writes user memory and nothing else.  It returns 0 when
    every address of the destination is a mapped user address, and -1
    otherwise, after writing the part before the first address that is not;
    what the user program then reads in that part are the source bytes, every
    other user byte, every translation and all kernel memory are unchanged. *)
Theorem copyout_writes_user s t l dstva src len :
  vm_ok kend s pt t l → uspace (k_mem s) t l → 0 ≤ dstva < 2 ^ 64 → 0 ≤ len →
  (∀ i va, 0 ≤ i < len → user_pa (k_mem s) t va ≠ Some (src + i)) →
  wp (copyout pt dstva src len) (λ r s', ∃ k, covers (k_mem s) t dstva len k r ∧
    vm_ok kend s' pt t l ∧ (∀ va, user_pa (k_mem s') t va = user_pa (k_mem s) t va) ∧
    (∀ va, ubyte (k_mem s') t va = if decide (dstva ≤ va < dstva + k)
                                   then Some (k_mem s (src + (va - dstva))) else ubyte (k_mem s) t va) ∧
    (∀ x, (∀ va, user_pa (k_mem s) t va ≠ Some x) → k_mem s' x = k_mem s x)) s.
Proof using kend_pos.
  intros Hok Hus Hd Hl Hsrc. destruct (copy_fuel_enough dstva len) as [Hf Hf1]; [lia..|].
  unfold copyout. wp_use (copyout_loop_wp t l (copy_fuel len) s dstva src len); auto.
  intros r s' (k&?&?&?&?&?). exists k. split_and!; auto. intros. by apply user_pa_ext.
Qed.

(** [copyin] reads user memory into a kernel buffer.  It returns 0 when
    every address of the source is a mapped user address and -1 otherwise,
    after reading the part before the first address that is not; the buffer
    then holds the user's bytes, and neither user memory nor any other kernel
    byte changes. *)
Theorem copyin_reads_user s t l dst srcva len :
  vm_ok kend s pt t l → uspace (k_mem s) t l → 0 ≤ srcva < 2 ^ 64 → 0 ≤ len →
  (∀ i, 0 ≤ i < len → kbyte (k_mem s) t l (dst + i)) →
  wp (copyin pt dst srcva len) (λ r s', ∃ k, covers (k_mem s) t srcva len k r ∧
    vm_ok kend s' pt t l ∧ (∀ va, ubyte (k_mem s') t va = ubyte (k_mem s) t va) ∧
    (∀ i, 0 ≤ i < k → ubyte (k_mem s) t (srcva + i) = Some (k_mem s' (dst + i))) ∧
    (∀ x, ¬ (dst ≤ x < dst + k) → k_mem s' x = k_mem s x)) s.
Proof using kend_pos.
  intros Hok Hus Hd Hl Hdst. destruct (copy_fuel_enough srcva len) as [Hf Hf1]; [lia..|].
  unfold copyin. by apply copyin_loop_wp.
Qed.

End copy.
