(* ===== verification/VmDemo.v ===== *)
(** A concrete address space on which the theorems of the memory components
    are instantiated: three table pages, one user page at address 0, two free
    pages, and a kernel buffer outside all of them. *)
From S2P Require Import Prelude Kstring Kalloc Vm VmProps UvmProps CopyProps.

Module VmDemo.

Definition kend0 : Z := 4096.
Definition root0 : Z := 4096.
Definition user0 : Z := 16384.
Definition kbuf0 : Z := 40960.

(** Table entries: root → 8192 → 12288 → the user page; the free list is
    20480 → 24576. *)
Definition mem0 : mem :=
  store64 (store64 (store64 (store64 (λ _, 0)
    4096 (mkpte 8192 0)) 8192 (mkpte 12288 0)) 12288 (mkpte 16384 (Z.lor (Z.lor PTE_R PTE_W) PTE_U))) 20480 24576.

Definition state0 : kstate := {| k_mem := mem0; k_free := 20480; k_lock := false |}.
Definition tables0 : tables := {[ [] := 4096; [0] := 8192; [0; 0] := 12288 ]}.
Definition free0 : list Z := [20480; 24576].

Lemma kend0_pos : 0 < kend0.
Proof. done. Qed.

Lemma mem0_load a : a `mod` 8 = 0 → load64 mem0 a =
  if decide (a = 20480) then 24576
  else if decide (a = 12288) then mkpte 16384 (Z.lor (Z.lor PTE_R PTE_W) PTE_U)
  else if decide (a = 8192) then mkpte 12288 0
  else if decide (a = 4096) then mkpte 8192 0 else 0.
Proof.
  intros Ha. unfold mem0. pose proof (Z.div_mod a 8).
  case_decide; [subst; by apply load64_store64|rewrite load64_store64_other by lia].
  case_decide; [subst; by apply load64_store64|rewrite load64_store64_other by lia].
  case_decide; [subst; by apply load64_store64|rewrite load64_store64_other by lia].
  case_decide; [subst; by apply load64_store64|rewrite load64_store64_other by lia]. done.
Qed.

Lemma mem0_bytes : bytes_ok mem0.
Proof. unfold mem0. repeat apply store_le_bytes_ok. intros x. lia. Qed.

Lemma tables0_inv x p : tables0 !! x = Some p → x = [] ∧ p = 4096 ∨ x = [0] ∧ p = 8192 ∨ x = [0; 0] ∧ p = 12288.
Proof.
  unfold tables0. intros [[<- <-]|[_ [[<- <-]|[_ [<- <-]%lookup_singleton_Some]]%lookup_insert_Some]]%lookup_insert_Some; auto.
Qed.

Lemma state0_ok : vm_ok kend0 state0 root0 tables0 free0.
Proof.
  split.
  - split; simpl.
    + apply mem0_bytes.
    + split; [done|]. rewrite !mem0_load by done. done.
    + repeat constructor; done.
    + apply NoDup_cons. split; [set_solver|apply NoDup_singleton].
    + done.
  - split.
    + done.
    + intros x p [[-> ->]|[[-> ->]|[-> ->]]]%tables0_inv; repeat constructor; simpl; lia.
    + intros x y p [[-> ->]|[[-> ->]|[-> ->]]]%tables0_inv [[-> ?]|[[-> ?]|[-> ?]]]%tables0_inv; done.
    + intros x i q [[Hx _]|[[Hx _]|[Hx _]]]%tables0_inv.
      * by destruct x.
      * destruct x as [|? [|]]; naive_solver.
      * destruct x as [|? [|? [|]]]; naive_solver.
    + intros x p i [[-> ->]|[[-> ->]|[-> ->]]]%tables0_inv Hl Hi; simpl in Hl; [| |lia];
        unfold child; simpl k_mem; rewrite mem0_load by (rewrite Z.mul_comm, Z_mod_plus_full; done);
        unfold idx in Hi; destruct (decide (i = 0)) as [->|];
        repeat (case_decide; try lia); try done;
        symmetry; apply not_elem_of_dom_1; unfold tables0; rewrite !dom_insert; simpl; set_solver.
  - intros x p [[-> ->]|[[-> ->]|[-> ->]]]%tables0_inv; (split; [done|]); unfold free0; set_solver.
Qed.

Definition leaf0 : Z := mkpte user0 (Z.lor (Z.lor PTE_R PTE_W) PTE_U).

Lemma pte0 va : 0 ≤ va < MAXVA → pte_val mem0 tables0 va = if decide (va < 4096) then leaf0 else 0.
Proof.
  intros Hva. assert (HM : MAXVA = 274877906944) by reflexivity. unfold pte_val. case_decide as Hlt.
  - assert (Hq : va / PGSIZE = 0 / PGSIZE) by (rewrite !Z.div_small; pg_lia).
    rewrite (PX_same_page 2 va 0), (PX_same_page 1 va 0), (PX_same_page 0 va 0) by (done || lia).
    change (tables0 !! _) with (Some 12288). cbv iota. rewrite mem0_load by done. done.
  - destruct (tables0 !! _) as [p|] eqn:E; [|done].
    apply tables0_inv in E as [[? _]|[[? _]|[[= H2 H1] ->]]]; [done..|].
    pose proof (PX_range 0 va). rewrite mem0_load by (rewrite Z.mul_comm, Z_mod_plus_full; done).
    assert (PX 0 va ≠ 0).
    { intros H0. pose proof (PX_page va Hva). pose proof (Z.div_mod va PGSIZE). pose proof (Z.mod_pos_bound va PGSIZE). pg_lia. }
    repeat case_decide; try lia; done.
Qed.

Lemma uspace0 : uspace kend0 mem0 tables0 free0.
Proof.
  assert (Hu : ∀ va, 0 ≤ va < MAXVA → user_pte (pte_val mem0 tables0 va) = true → 0 ≤ va < 4096 ∧ pte_val mem0 tables0 va = leaf0).
  { intros va Hva. rewrite pte0 by done. case_decide; [by intros; split; [lia|]|done]. }
  split.
  - intros va Hva [_ ->]%Hu; [|done]. split_and!; [done| |].
    + unfold free0. vm_compute PTE2PA. set_solver.
    + intros x. intros [[_ ?]|[[_ ?]|[_ ?]]]%tables0_inv; done.
  - intros va va' Hva Hva' [? _]%Hu [? _]%Hu; auto. intros _. rewrite !Z.div_small; pg_lia.
Qed.

(** The kernel buffer is kernel memory. *)
Lemma kbuf0_kbyte i : 0 ≤ i < 4096 → kbyte mem0 tables0 free0 (kbuf0 + i).
Proof.
  intros Hi. unfold kbuf0. split_and!.
  - intros (y&p&[[_ ->]|[[_ ->]|[_ ->]]]%tables0_inv&?); pg_lia.
  - intros r. unfold free0. rewrite !elem_of_cons, elem_of_nil. intros [->|[->|[]]]; pg_lia.
  - intros va. unfold user_pa. case_decide as Hva; [|done]. rewrite pte0 by done. case_decide; [|done].
    vm_compute user_pte. cbv iota. vm_compute PTE2PA. intros [= E]. pose proof (Z.mod_pos_bound va PGSIZE). pg_lia.
Qed.

Lemma lookup0 va : 4096 ≤ va < MAXVA → lookup_pte root0 va state0 = Ok 0 state0.
Proof.
  intros Hva. rewrite (lookup_pte_ok kend0 kend0_pos root0 state0 tables0 free0 va state0_ok) by lia.
  simpl k_mem. rewrite pte0 by lia. by rewrite decide_False by lia.
Qed.

(** ** The theorems at this address space *)

Lemma mappages_translates_witness :
  let in_range v := PGROUNDDOWN 5000 ≤ v < PGROUNDDOWN 5000 + PGSIZE * npages 5000 4096 in
  wp (mappages root0 5000 4096 user0 PTE_R) (λ r s',
    (∃ t' l', vm_ok kend0 s' root0 t' l' ∧ (r = -1 → l' = [])) ∧ (r = 0 ∨ r = -1) ∧
    (∀ v, r = 0 → in_range v → lookup_pte root0 v s' = Ok (mkpte (user0 + (PGROUNDDOWN v - PGROUNDDOWN 5000)) PTE_R) s') ∧
    (∀ v, 0 ≤ v < MAXVA → ¬ in_range v → ∃ e, lookup_pte root0 v state0 = Ok e state0 ∧ lookup_pte root0 v s' = Ok e s')) state0.
Proof.
  apply (mappages_translates kend0 kend0_pos root0 state0 tables0 free0); try done; [apply state0_ok|].
  intros v Hv. change (PGROUNDDOWN 5000) with 4096 in Hv. change (PGSIZE * _) with 8192 in Hv.
  apply lookup0. change MAXVA with 274877906944. lia.
Defined.


Lemma uvmalloc_uvmdealloc_roundtrip_witness :
  wp (r ← uvmalloc kend0 root0 4096 8192 PTE_W;
      if r =? 0 then mret 4096 else uvmdealloc kend0 root0 8192 4096) (λ r s', ∃ t' l',
    r = 4096 ∧ vm_ok kend0 s' root0 t' l' ∧
    (∀ va, 0 ≤ va < MAXVA → ∃ e, lookup_pte root0 va state0 = Ok e state0 ∧ lookup_pte root0 va s' = Ok e s') ∧
    ∀ p, p ∈ free0 → p ∈ l' ∨ ∃ x, t' !! x = Some p) state0.
Proof.
  apply (uvmalloc_uvmdealloc_roundtrip kend0 kend0_pos root0 state0 tables0 free0); try done; [apply state0_ok|].
  intros v Hv. change (PGROUNDUP 8192) with 8192 in Hv.
  apply lookup0. change MAXVA with 274877906944. lia.
Defined.

(** A copy of 20 bytes that runs off the end of the user page after 16. *)
Lemma copyout_writes_user_witness :
  wp (copyout root0 4080 kbuf0 20) (λ r s', ∃ k, covers mem0 tables0 4080 20 k r ∧
    vm_ok kend0 s' root0 tables0 free0 ∧ (∀ va, user_pa (k_mem s') tables0 va = user_pa mem0 tables0 va) ∧
    (∀ va, ubyte (k_mem s') tables0 va = if decide (4080 ≤ va < 4080 + k)
                                         then Some (mem0 (kbuf0 + (va - 4080))) else ubyte mem0 tables0 va) ∧
    (∀ x, (∀ va, user_pa mem0 tables0 va ≠ Some x) → k_mem s' x = mem0 x)) state0.
Proof.
  apply (copyout_writes_user kend0 kend0_pos root0 state0 tables0 free0); try done; [apply state0_ok|apply uspace0|].
  intros i va Hi. apply (kbuf0_kbyte i). lia.
Defined.

Lemma copyin_reads_user_witness :
  wp (copyin root0 kbuf0 4080 20) (λ r s', ∃ k, covers mem0 tables0 4080 20 k r ∧
    vm_ok kend0 s' root0 tables0 free0 ∧ (∀ va, ubyte (k_mem s') tables0 va = ubyte mem0 tables0 va) ∧
    (∀ i, 0 ≤ i < k → ubyte mem0 tables0 (4080 + i) = Some (k_mem s' (kbuf0 + i))) ∧
    (∀ x, ¬ (kbuf0 ≤ x < kbuf0 + k) → k_mem s' x = mem0 x)) state0.
Proof.
  apply (copyin_reads_user kend0 kend0_pos root0 state0 tables0 free0); try done; [apply state0_ok|apply uspace0|].
  intros i Hi. apply kbuf0_kbyte. lia.
Defined.

End VmDemo.
