(* ===== verification/Spinlock.v ===== *)
(** * kernel/spinlock.c: mutual exclusion spin locks

    The harts share the locks; each has its [struct cpu] and its interrupt
    enable bit.  The operations are split where another hart can observe
    them: the atomic swap, the store of the owner, and the release of the lock
    word.  [step] interleaves the harts at those points. *)
From S2P Require Import Prelude.

Record spinlock := SpinLock {
  lk_locked : Z;          (* lock word *)
  lk_cpu : option Z       (* owner; None is the null pointer *)
}.

Record cpu := Cpu {
  c_noff : Z;             (* depth of push_off nesting *)
  c_intena : bool;        (* were interrupts enabled before push_off? *)
  c_intr : bool           (* sstatus.SIE of the hart *)
}.

Record machine := Machine {
  m_locks : Z → spinlock;
  m_cpus : Z → cpu
}.

Definition upd_lock (l : Z) (f : spinlock → spinlock) : M machine unit :=
  modify (λ m, Machine (<[l := f (m_locks m l)]> (m_locks m)) (m_cpus m)).
Definition upd_cpu (c : Z) (f : cpu → cpu) : M machine unit :=
  modify (λ m, Machine (m_locks m) (<[c := f (m_cpus m c)]> (m_cpus m))).

Definition initlock (l : Z) : M machine unit := upd_lock l (λ _, SpinLock 0 None).

Section hart.
(** The hart that runs the code; [mycpu()] is its [struct cpu]. *)
Variable c : Z.

Definition intr_get : M machine bool := gets (λ m, c_intr (m_cpus m c)).
Definition intr_off : M machine unit := upd_cpu c (λ x, Cpu (c_noff x) (c_intena x) false).
Definition intr_on : M machine unit := upd_cpu c (λ x, Cpu (c_noff x) (c_intena x) true).

Definition push_off : M machine unit :=
  old ← intr_get;
  intr_off ;;
  upd_cpu c (λ x, Cpu (c_noff x) (if c_noff x =? 0 then old else c_intena x) (c_intr x)) ;;
  upd_cpu c (λ x, Cpu (s32 (c_noff x + 1)) (c_intena x) (c_intr x)).

Definition pop_off : M machine unit :=
  i ← intr_get;
  if (i : bool) then panic "pop_off - interruptible"
  else
    n ← gets (λ m, c_noff (m_cpus m c));
    if n <? 1 then panic "pop_off"
    else
      upd_cpu c (λ x, Cpu (c_noff x - 1) (c_intena x) (c_intr x)) ;;
      x ← gets (λ m, m_cpus m c);
      if (c_noff x =? 0) && c_intena x then intr_on else mret tt.

Definition holding (l : Z) : M machine bool :=
  gets (λ m, negb (lk_locked (m_locks m l) =? 0) && bool_decide (lk_cpu (m_locks m l) = Some c)).

(** [acquire], up to the loop. *)
Definition acquire_begin (l : Z) : M machine unit :=
  push_off ;;
  h ← holding l;
  if (h : bool) then panic "acquire" else mret tt.

(** [__sync_lock_test_and_set(&lk->locked, 1)] *)
Definition test_and_set (l : Z) : M machine Z :=
  old ← gets (λ m, lk_locked (m_locks m l));
  upd_lock l (λ x, SpinLock 1 (lk_cpu x)) ;;
  mret old.

Definition acquire_end (l : Z) : M machine unit := upd_lock l (λ x, SpinLock (lk_locked x) (Some c)).

Fixpoint acquire_spin (l : Z) (fuel : nat) : M machine unit :=
  match fuel with
  | O => λ _, NoFuel
  | S fuel => old ← test_and_set l; if negb (old =? 0) then acquire_spin l fuel else mret tt
  end.

(** The whole function, when no other hart interferes. *)
Definition acquire (l : Z) (fuel : nat) : M machine unit :=
  acquire_begin l ;; acquire_spin l fuel ;; acquire_end l.

Definition release_begin (l : Z) : M machine unit :=
  h ← holding l;
  if negb h then panic "release" else upd_lock l (λ x, SpinLock (lk_locked x) None).

(** [__sync_lock_release(&lk->locked)] *)
Definition lock_release (l : Z) : M machine unit := upd_lock l (λ x, SpinLock 0 (lk_cpu x)).

Definition release (l : Z) : M machine unit := release_begin l ;; lock_release l ;; pop_off.

End hart.

(* ------------------------------------------------------------------ *)
(** ** The harts interleaved *)

(** Where a hart is: outside the lock code, or between two of its points. *)
Inductive pc :=
  | Outside
  | Spinning (l : Z)       (* in the loop of acquire(l) *)
  | Won (l : Z)            (* swapped the word, owner not yet stored *)
  | Cleared (l : Z)        (* owner cleared, word not yet released *)
  | Freed (l : Z).         (* word released, pop_off not yet called *)

(** A hart: its position, the locks it has acquired, how many of its own
    [push_off]s are open, and the interrupt state it last chose. *)
Record hart := Hart {
  h_pc : pc;
  h_held : list Z;
  h_push : nat;
  h_intr : bool
}.

(** Open [push_off]s of the hart. *)
Definition depth (x : hart) : Z :=
  length (h_held x) + h_push x + match h_pc x with Outside => 0 | _ => 1 end.

(** The nesting an [int] counter holds; a kernel stack of one page bounds it
    far below. *)
Definition max_depth : Z := 2 ^ 31 - 1.

Definition sys : Type := machine * (Z → hart).

Inductive step : sys → sys → Prop :=
  | s_acquire m m' h c l ls n i :
      h c = Hart Outside ls n i → depth (h c) < max_depth → acquire_begin c l m = Ok tt m' →
      step (m, h) (m', <[c := Hart (Spinning l) ls n i]> h)
  | s_spin m m' h c l ls n i v :
      h c = Hart (Spinning l) ls n i → test_and_set l m = Ok v m' → v ≠ 0 →
      step (m, h) (m', h)
  | s_win m m' h c l ls n i :
      h c = Hart (Spinning l) ls n i → test_and_set l m = Ok 0 m' →
      step (m, h) (m', <[c := Hart (Won l) ls n i]> h)
  | s_own m m' h c l ls n i :
      h c = Hart (Won l) ls n i → acquire_end c l m = Ok tt m' →
      step (m, h) (m', <[c := Hart Outside (l :: ls) n i]> h)
  | s_release m m' h c l ls1 ls2 n i :
      h c = Hart Outside (ls1 ++ l :: ls2) n i → release_begin c l m = Ok tt m' →
      step (m, h) (m', <[c := Hart (Cleared l) (ls1 ++ ls2) n i]> h)
  | s_free m m' h c l ls n i :
      h c = Hart (Cleared l) ls n i → lock_release l m = Ok tt m' →
      step (m, h) (m', <[c := Hart (Freed l) ls n i]> h)
  | s_done m m' h c l ls n i :
      h c = Hart (Freed l) ls n i → pop_off c m = Ok tt m' →
      step (m, h) (m', <[c := Hart Outside ls n i]> h)
  | s_push m m' h c ls n i :
      h c = Hart Outside ls n i → depth (h c) < max_depth → push_off c m = Ok tt m' →
      step (m, h) (m', <[c := Hart Outside ls (S n) i]> h)
  | s_pop m m' h c ls n i :
      h c = Hart Outside ls (S n) i → pop_off c m = Ok tt m' →
      step (m, h) (m', <[c := Hart Outside ls n i]> h)
  | s_on m m' h c i :
      h c = Hart Outside [] 0 i → intr_on c m = Ok tt m' →
      step (m, h) (m', <[c := Hart Outside [] 0 true]> h)
  | s_off m m' h c i :
      h c = Hart Outside [] 0 i → intr_off c m = Ok tt m' →
      step (m, h) (m', <[c := Hart Outside [] 0 false]> h).

Definition init : sys :=
  (Machine (λ _, SpinLock 0 None) (λ _, Cpu 0 false false), λ _, Hart Outside [] 0 false).

(* ------------------------------------------------------------------ *)
(** ** Invariant *)

(** The hart has the lock word of [l]. *)
Definition has (x : hart) (l : Z) : Prop :=
  l ∈ h_held x ∨ h_pc x = Won l ∨ h_pc x = Cleared l.

(** The lock words against the harts' positions. *)
Record locks_ok (lk : Z → spinlock) (h : Z → hart) : Prop := {
  ok_one : ∀ l c c', has (h c) l → has (h c') l → c = c';
  ok_nodup : ∀ c, NoDup (h_held (h c));
  ok_pc : ∀ c l, h_pc (h c) = Won l ∨ h_pc (h c) = Cleared l → l ∉ h_held (h c);
  ok_word : ∀ l, lk_locked (lk l) = 0 ∧ (∀ c, ¬ has (h c) l) ∨ lk_locked (lk l) = 1 ∧ ∃ c, has (h c) l;
  ok_owner : ∀ l c, lk_cpu (lk l) = Some c ↔ l ∈ h_held (h c)
}.

(** The nesting counter and the interrupt bits of one hart. *)
Definition cpu_ok (x : hart) (k : cpu) : Prop :=
  depth x ≤ max_depth ∧ c_noff k = depth x ∧
  if decide (depth x = 0) then c_intr k = h_intr x else c_intr k = false ∧ c_intena k = h_intr x.

Definition sys_ok (st : sys) : Prop :=
  locks_ok (m_locks st.1) st.2 ∧ ∀ c, cpu_ok (st.2 c) (m_cpus st.1 c).

(** ** One hart's nesting *)

(** Only hart [c]'s [struct cpu] changes, to [k]. *)
Definition cpu_to (c : Z) (k : cpu) (m m' : machine) : Prop :=
  m_locks m' = m_locks m ∧ m_cpus m' c = k ∧ ∀ c', c' ≠ c → m_cpus m' c' = m_cpus m c'.

Ltac fn := repeat first [rewrite fn_lookup_insert in * | rewrite fn_lookup_insert_ne in * by congruence].

Lemma push_off_Ok c m m' :
  push_off c m = Ok tt m' →
  let x := m_cpus m c in
  cpu_to c (Cpu (s32 (c_noff x + 1)) (if c_noff x =? 0 then c_intr x else c_intena x) false) m m'.
Proof.
  unfold push_off, mbind, M_bind; simpl. intros [= <-]. split_and!; simpl; fn; auto.
  intros c' ?. fn. done.
Qed.

Lemma pop_off_Ok c m m' :
  pop_off c m = Ok tt m' →
  let x := m_cpus m c in
  c_intr x = false ∧ 1 ≤ c_noff x ∧
  cpu_to c (Cpu (c_noff x - 1) (c_intena x) ((c_noff x - 1 =? 0) && c_intena x)) m m'.
Proof.
  unfold pop_off, mbind, M_bind, gets; simpl. destruct (c_intr (m_cpus m c)) eqn:Hi; [done|].
  destruct (Z.ltb_spec (c_noff (m_cpus m c)) 1); [done|]. simpl. fn. simpl.
  destruct ((c_noff (m_cpus m c) - 1 =? 0) && c_intena (m_cpus m c)) eqn:Hc; unfold intr_on, upd_cpu, modify;
    simpl; intros [= <-]; (split; [done|]); (split; [lia|]); split_and!; simpl; fn; simpl; rewrite ?Hi; auto;
    intros c' ?; fn; done.
Qed.

Lemma depth_nonneg x : 0 ≤ depth x.
Proof. unfold depth. destruct (h_pc x); lia. Qed.

(** [push_off] one level deeper, [pop_off] one level back. *)
Lemma cpu_ok_push x x' k :
  cpu_ok x k → depth x < max_depth → depth x' = depth x + 1 → h_intr x' = h_intr x →
  cpu_ok x' (Cpu (s32 (c_noff k + 1)) (if c_noff k =? 0 then c_intr k else c_intena k) false).
Proof.
  intros (Hd&Hn&Hi) Hlt Hd' Hi'. pose proof (depth_nonneg x). split; [lia|]. simpl.
  rewrite swrap_small by (unfold max_depth in *; lia). split; [lia|]. rewrite decide_False by lia.
  split; [done|]. rewrite Hi', Hn. destruct (decide (depth x = 0)) as [E|E].
  - rewrite E. done.
  - rewrite (proj2 (Z.eqb_neq _ _) E). apply Hi.
Qed.

Lemma cpu_ok_pop x x' k :
  cpu_ok x k → depth x' = depth x - 1 → h_intr x' = h_intr x → c_intr k = false →
  cpu_ok x' (Cpu (c_noff k - 1) (c_intena k) ((c_noff k - 1 =? 0) && c_intena k)).
Proof.
  intros (Hd&Hn&Hi) Hd' Hi' Hk. pose proof (depth_nonneg x'). split; [lia|]. simpl. split; [lia|].
  rewrite decide_False in Hi by lia. destruct Hi as [_ Hi]. rewrite Hi, Hi'. case_decide; zbool; done.
Qed.

Lemma cpus_ok_upd (h : Z → hart) m m' c x k :
  (∀ c, cpu_ok (h c) (m_cpus m c)) → cpu_to c k m m' → cpu_ok x k →
  ∀ c', cpu_ok (<[c := x]> h c') (m_cpus m' c').
Proof.
  intros Hok (_&Hk&Hne) Hx c'. destruct (decide (c' = c)) as [->|]; fn; [by rewrite Hk|]. rewrite Hne by done. apply Hok.
Qed.

(** ** The lock words *)

Lemma has_upd (h : Z → hart) c x c' l : has (<[c := x]> h c') l ↔ (c' = c ∧ has x l) ∨ (c' ≠ c ∧ has (h c') l).
Proof. destruct (decide (c' = c)) as [->|]; fn; naive_solver. Qed.

Definition quiet (x : hart) : Prop := ∀ l, h_pc x ≠ Won l ∧ h_pc x ≠ Cleared l.

Lemma quiet_has x l : quiet x → has x l ↔ l ∈ h_held x.
Proof. intros Hq. unfold has. destruct (Hq l). tauto. Qed.

Lemma spin_held_upd (h : Z → hart) c x c' : h_held (<[c := x]> h c') = if decide (c' = c) then h_held x else h_held (h c').
Proof. case_decide; subst; by fn. Qed.

(** Fields of [locks_ok] after hart [c] moved to [x]; the rest is about [x]. *)
Lemma locks_ok_upd lk lk' (h : Z → hart) c x :
  locks_ok lk h →
  (∀ l, has x l → has (h c) l ∨ lk_locked (lk l) = 0) →
  NoDup (h_held x) →
  (∀ l, h_pc x = Won l ∨ h_pc x = Cleared l → l ∉ h_held x) →
  (∀ l, lk_locked (lk' l) = lk_locked (lk l) ∧ (has x l ↔ has (h c) l) ∨
        lk_locked (lk' l) = 0 ∧ has (h c) l ∧ ¬ has x l ∨ lk_locked (lk' l) = 1 ∧ has x l) →
  (∀ l, lk_cpu (lk' l) = lk_cpu (lk l) ∧ (l ∈ h_held x ↔ l ∈ h_held (h c)) ∨
        lk_cpu (lk' l) = Some c ∧ l ∈ h_held x ∧ (∀ c', l ∉ h_held (h c')) ∨
        lk_cpu (lk' l) = None ∧ l ∉ h_held x ∧ l ∈ h_held (h c)) →
  locks_ok lk' (<[c := x]> h).
Proof.
  intros [H1 H2 H3 H4 H5] Hx Hnd Hpc Hw Ho.
  assert (H1' : ∀ l c', c' ≠ c → has x l → ¬ has (h c') l).
  { intros l c' Hc Hxl Hl. destruct (Hx l Hxl) as [Hh|Hz]; [by destruct Hc; eapply H1|].
    destruct (H4 l) as [[_ Hn]|[? _]]; [by eapply Hn|lia]. }
  split.
  - intros l c1 c2. rewrite !has_upd. intros [[-> ?]|[? ?]] [[-> ?]|[? ?]]; eauto; by edestruct H1'.
  - intros c'. rewrite spin_held_upd. case_decide; auto.
  - intros c' l. destruct (decide (c' = c)) as [->|]; fn; eauto.
  - intros l. destruct (Hw l) as [[-> Hi]|[(->&Hh&Hn)|[-> Hh]]].
    + destruct (H4 l) as [[? Hn]|[? [c' Hc']]]; [left|right]; (split; [done|]).
      * intros c'. rewrite has_upd. naive_solver.
      * exists c'. rewrite has_upd. destruct (decide (c' = c)) as [->|]; naive_solver.
    + left. split; [done|]. intros c'. rewrite has_upd. intros [[-> ?]|[Hc ?]]; [done|]. by destruct Hc; eapply H1.
    + right. split; [done|]. exists c. rewrite has_upd. auto.
  - intros l c'. rewrite spin_held_upd. destruct (Ho l) as [[-> Hi]|[(->&Hin&Hn)|(->&Hn&Hin)]]; case_decide; subst.
    + by rewrite H5, Hi.
    + apply H5.
    + naive_solver.
    + split; [intros [= ->]; done|by intros ?%Hn].
    + done.
    + split; [done|]. intros Hc'. destruct (H1 l c c'); [by left|by left|done].
Qed.

Lemma locks_ok_quiet lk lk' (h : Z → hart) c x :
  (∀ l, lk' l = lk l) → h_held x = h_held (h c) → quiet x → quiet (h c) →
  locks_ok lk h → locks_ok lk' (<[c := x]> h).
Proof.
  intros Hlk Hh Hq Hq' Hok. eapply locks_ok_upd; [exact Hok|..].
  - intros l. rewrite !quiet_has by done. rewrite Hh. auto.
  - rewrite Hh. apply Hok.
  - intros l [?|?]; by destruct (Hq l).
  - intros l. left. rewrite Hlk, !quiet_has by done. by rewrite Hh.
  - intros l. left. rewrite Hlk, Hh. done.
Qed.

Lemma acquire_begin_Ok c l m m' :
  acquire_begin c l m = Ok tt m' ↔
  push_off c m = Ok tt m' ∧ ¬ (lk_locked (m_locks m l) ≠ 0 ∧ lk_cpu (m_locks m l) = Some c).
Proof.
  unfold acquire_begin. rewrite bind_Ok. split.
  - intros ([]&m1&Hp&Hh). rewrite bind_Ok in Hh. destruct Hh as (b&m2&[= <- <-]&Hb).
    destruct (push_off_Ok _ _ _ Hp) as (Hl&_). destruct (_ && _) eqn:E; [done|]. injection Hb as <-. split; [done|].
    rewrite Hl in E. intros [? Hc]. apply andb_false_iff in E as [E|E].
    + by apply negb_false_iff, Z.eqb_eq in E.
    + by apply bool_decide_eq_false in E.
  - intros [Hp Hn]. exists tt, m'. split; [done|]. destruct (push_off_Ok _ _ _ Hp) as (Hl&_).
    unfold mbind, M_bind, holding, gets. rewrite Hl. destruct (_ && _) eqn:E; [|done].
    apply andb_true_iff in E as [?%negb_true_iff%Z.eqb_neq ?%bool_decide_eq_true]. tauto.
Qed.

Lemma release_begin_Ok c l m m' :
  release_begin c l m = Ok tt m' ↔
  (lk_locked (m_locks m l) ≠ 0 ∧ lk_cpu (m_locks m l) = Some c) ∧
  m' = Machine (<[l := SpinLock (lk_locked (m_locks m l)) None]> (m_locks m)) (m_cpus m).
Proof.
  unfold release_begin, mbind, M_bind, holding, gets.
  destruct (Z.eqb_spec (lk_locked (m_locks m l)) 0); simpl; [split; [done|naive_solver]|].
  case_bool_decide; simpl; unfold upd_lock, modify; split; try naive_solver.
Qed.

Ltac upd_fields := intros l'; simpl; match goal with l : Z |- _ => destruct (decide (l' = l)) as [->|] end; fn; simpl.

(** ** Every step keeps the invariant *)

Section lock_steps.
Context (lk : Z → spinlock) (h : Z → hart) (c l : Z) (n : nat) (i : bool) (Hlk : locks_ok lk h).

Lemma locks_ok_spin : lk_locked (lk l) ≠ 0 → locks_ok (<[l := SpinLock 1 (lk_cpu (lk l))]> lk) h.
Proof using Hlk.
  intros Hv. assert (Hsame : ∀ l', (<[l := SpinLock 1 (lk_cpu (lk l))]> lk) l' = lk l').
  { upd_fields; [|done]. destruct (ok_word _ _ Hlk l) as [[? _]|[? _]]; [done|]. destruct (lk l); simpl in *. congruence. }
  destruct Hlk as [H1 H2 H3 H4 H5]. split; auto; intros; by rewrite Hsame.
Qed.

Lemma locks_ok_win ls :
  h c = Hart (Spinning l) ls n i → lk_locked (lk l) = 0 →
  locks_ok (<[l := SpinLock 1 (lk_cpu (lk l))]> lk) (<[c := Hart (Won l) ls n i]> h).
Proof using Hlk.
  intros Hh Hv. destruct (ok_word _ _ Hlk l) as [[_ Hn]|[? _]]; [|lia].
  assert (Hx : ∀ l', has (Hart (Won l) ls n i) l' ↔ has (h c) l' ∨ l' = l).
  { intros l'. rewrite Hh. unfold has; simpl. naive_solver. }
  eapply locks_ok_upd; [exact Hlk|..].
  - intros l'. rewrite Hx. intros [?| ->]; auto.
  - pose proof (ok_nodup _ _ Hlk c) as Hnd. by rewrite Hh in Hnd.
  - intros l' [[= <-]|?]; [|done]. simpl. intros Hin. apply (Hn c). rewrite Hh. by left.
  - upd_fields; [right; right; split; [done|]; apply Hx; auto|left; split; [done|]; rewrite Hx; naive_solver].
  - intros l'. left. rewrite Hh. simpl. split; [|done]. destruct (decide (l' = l)) as [->|]; by fn.
Qed.

Lemma locks_ok_own ls :
  h c = Hart (Won l) ls n i →
  locks_ok (<[l := SpinLock (lk_locked (lk l)) (Some c)]> lk) (<[c := Hart Outside (l :: ls) n i]> h).
Proof using Hlk.
  intros Hh. assert (Hw : has (h c) l) by (rewrite Hh; unfold has; auto).
  pose proof (ok_pc _ _ Hlk c l) as Hpc. rewrite Hh in Hpc. simpl in Hpc.
  assert (Hx : ∀ l', has (Hart Outside (l :: ls) n i) l' ↔ has (h c) l').
  { intros l'. rewrite Hh. unfold has; simpl. rewrite elem_of_cons. naive_solver. }
  eapply locks_ok_upd; [exact Hlk|..].
  - intros l'. rewrite Hx. auto.
  - simpl. apply NoDup_cons_2; [auto|]. pose proof (ok_nodup _ _ Hlk c) as Hnd. by rewrite Hh in Hnd.
  - intros l' [?|?]; done.
  - intros l'. left. rewrite Hx. split; [|done]. destruct (decide (l' = l)) as [->|]; by fn.
  - upd_fields.
    + right; left. split; [done|]. split; [apply elem_of_cons; auto|]. intros c' Hin.
      assert (c' = c) as -> by (eapply (ok_one _ _ Hlk l); [by left|done]). rewrite Hh in Hin. apply Hpc; auto.
    + left. rewrite Hh. simpl. rewrite elem_of_cons. naive_solver.
Qed.

Lemma locks_ok_release ls1 ls2 :
  h c = Hart Outside (ls1 ++ l :: ls2) n i →
  locks_ok (<[l := SpinLock (lk_locked (lk l)) None]> lk) (<[c := Hart (Cleared l) (ls1 ++ ls2) n i]> h).
Proof using Hlk.
  intros Hh. pose proof (ok_nodup _ _ Hlk c) as Hnd. rewrite Hh in Hnd. simpl in Hnd.
  rewrite <- Permutation_middle in Hnd. apply NoDup_cons in Hnd as [Hnl Hnd].
  assert (Hx : ∀ l', has (Hart (Cleared l) (ls1 ++ ls2) n i) l' ↔ has (h c) l').
  { intros l'. rewrite Hh. unfold has; simpl. rewrite !elem_of_app, elem_of_cons. naive_solver. }
  eapply locks_ok_upd; [exact Hlk|..].
  - intros l'. rewrite Hx. auto.
  - done.
  - intros l' [?|[= <-]]; done.
  - intros l'. left. rewrite Hx. split; [|done]. destruct (decide (l' = l)) as [->|]; by fn.
  - upd_fields.
    + right; right. split; [done|]. split; [done|]. rewrite Hh. simpl. set_solver.
    + left. rewrite Hh. simpl. set_solver.
Qed.

Lemma locks_ok_free ls :
  h c = Hart (Cleared l) ls n i →
  locks_ok (<[l := SpinLock 0 (lk_cpu (lk l))]> lk) (<[c := Hart (Freed l) ls n i]> h).
Proof using Hlk.
  intros Hh. pose proof (ok_nodup _ _ Hlk c) as Hnd. rewrite Hh in Hnd. simpl in Hnd.
  pose proof (ok_pc _ _ Hlk c l) as Hpc. rewrite Hh in Hpc. simpl in Hpc.
  assert (Hx : ∀ l', has (Hart (Freed l) ls n i) l' ↔ has (h c) l' ∧ l' ≠ l).
  { intros l'. rewrite Hh. unfold has; simpl. split; [intros [?|[?|?]]; [|done..]|naive_solver].
    split; [auto|]. intros ->. tauto. }
  eapply locks_ok_upd; [exact Hlk|..].
  - intros l'. rewrite Hx. naive_solver.
  - done.
  - intros l' [?|?]; done.
  - upd_fields.
    + right; left. rewrite Hx. split; [done|]. split; [|tauto]. rewrite Hh. unfold has. auto.
    + left. split; [done|]. rewrite Hx. naive_solver.
  - intros l'. left. rewrite Hh. simpl. split; [|done]. destruct (decide (l' = l)) as [->|]; by fn.
Qed.

End lock_steps.

(** A step that leaves hart [c]'s interrupts alone. *)
Lemma cpus_ok_same (h : Z → hart) m c x :
  (∀ c, cpu_ok (h c) (m_cpus m c)) → depth x = depth (h c) → h_intr x = h_intr (h c) →
  ∀ c', cpu_ok (<[c := x]> h c') (m_cpus m c').
Proof.
  intros Hok Hd Hi c'. destruct (decide (c' = c)) as [->|]; fn; [|apply Hok].
  specialize (Hok c). unfold cpu_ok in *. by rewrite Hd, Hi.
Qed.

Lemma step_ok st st' : step st st' → sys_ok st → sys_ok st'.
Proof.
  intros Hst [Hlk Hcpu]. destruct Hst as [m m' h c l ls n i Hh Hd Hrun|m m' h c l ls n i v Hh Hrun Hv|
    m m' h c l ls n i Hh Hrun|m m' h c l ls n i Hh Hrun|m m' h c l ls1 ls2 n i Hh Hrun|m m' h c l ls n i Hh Hrun|
    m m' h c l ls n i Hh Hrun|m m' h c ls n i Hh Hd Hrun|m m' h c ls n i Hh Hrun|m m' h c i Hh Hrun|m m' h c i Hh Hrun];
    simpl in *; pose proof (Hcpu c) as Hc; rewrite Hh in Hc; split; simpl.
  - apply acquire_begin_Ok in Hrun as [Hp%push_off_Ok _]. pose proof Hp as (Hl&_).
    eapply (locks_ok_quiet (m_locks m)); [by rewrite Hl|by rewrite Hh|done|by rewrite Hh|done].
  - apply acquire_begin_Ok in Hrun as [Hp%push_off_Ok _].
    eapply cpus_ok_upd; [done|exact Hp|]. eapply cpu_ok_push; [exact Hc|by rewrite Hh in Hd|unfold depth; simpl; lia|done].
  - injection Hrun as <- <-. by apply locks_ok_spin.
  - injection Hrun as <- <-. done.
  - injection Hrun as Hv <-. by apply locks_ok_win.
  - injection Hrun as Hv <-. apply cpus_ok_same; [done|by rewrite Hh..].
  - injection Hrun as <-. by apply locks_ok_own.
  - injection Hrun as <-. apply cpus_ok_same; [done|rewrite Hh; unfold depth; simpl; lia|by rewrite Hh].
  - apply release_begin_Ok in Hrun as [_ ->]. by eapply locks_ok_release.
  - apply release_begin_Ok in Hrun as [_ ->].
    apply cpus_ok_same; [done|rewrite Hh; unfold depth; simpl; rewrite !length_app; simpl; lia|by rewrite Hh].
  - injection Hrun as <-. by eapply locks_ok_free.
  - injection Hrun as <-. apply cpus_ok_same; [done|by rewrite Hh..].
  - apply pop_off_Ok in Hrun as (_&_&Hl&_).
    eapply (locks_ok_quiet (m_locks m)); [by rewrite Hl|by rewrite Hh|done|by rewrite Hh|done].
  - apply pop_off_Ok in Hrun as (Hi&_&Hp). eapply cpus_ok_upd; [done|exact Hp|].
    eapply cpu_ok_pop; [exact Hc|unfold depth; simpl; lia|done|done].
  - apply push_off_Ok in Hrun as (Hl&_).
    eapply (locks_ok_quiet (m_locks m)); [by rewrite Hl|by rewrite Hh|done|by rewrite Hh|done].
  - apply push_off_Ok in Hrun as Hp.
    eapply cpus_ok_upd; [done|exact Hp|]. eapply cpu_ok_push; [exact Hc|by rewrite Hh in Hd|unfold depth; simpl; lia|done].
  - apply pop_off_Ok in Hrun as (_&_&Hl&_).
    eapply (locks_ok_quiet (m_locks m)); [by rewrite Hl|by rewrite Hh|done|by rewrite Hh|done].
  - apply pop_off_Ok in Hrun as (Hi&_&Hp). eapply cpus_ok_upd; [done|exact Hp|].
    eapply cpu_ok_pop; [exact Hc|unfold depth; simpl; lia|done|done].
  - injection Hrun as <-. eapply (locks_ok_quiet (m_locks m)); [done|by rewrite Hh|done|by rewrite Hh|done].
  - injection Hrun as <-. intros c'. simpl. destruct (decide (c' = c)) as [->|]; fn; [|apply Hcpu]. split; [apply Hc|]. split; [apply Hc|done].
  - injection Hrun as <-. eapply (locks_ok_quiet (m_locks m)); [done|by rewrite Hh|done|by rewrite Hh|done].
  - injection Hrun as <-. intros c'. simpl. destruct (decide (c' = c)) as [->|]; fn; [|apply Hcpu]. split; [apply Hc|]. split; [apply Hc|done].
Qed.

Lemma init_ok : sys_ok init.
Proof.
  split; simpl.
  - assert (Hn : ∀ c l, ¬ has ((λ _ : Z, Hart Outside [] 0 false) c) l).
    { intros c l [Hl|[?|?]]; [by apply elem_of_nil in Hl|done..]. }
    split; simpl.
    + intros l c c' Hl. by apply Hn in Hl.
    + constructor.
    + intros c l [?|?]; done.
    + intros l. left. eauto.
    + intros l c. rewrite elem_of_nil. done.
  - intros c. split; [done|]. by split.
Qed.

Lemma reachable_ok st : rtc step init st → sys_ok st.
Proof.
  intros Hr. pose proof init_ok as Hok. remember init as st0 eqn:E. clear E.
  induction Hr; eauto using step_ok.
Qed.

(** C7: In every interleaving of the harts, at most one hart holds a lock
    (from its [acquire] to its [release]), interrupts are off on a hart that
    holds one, and a hart that has closed all its [acquire]s and [push_off]s
    has the interrupt state it started from. *)
Theorem spinlock_mutual_exclusion m h c c' l :
  rtc step init (m, h) → l ∈ h_held (h c) →
  (l ∈ h_held (h c') → c' = c) ∧ lk_cpu (m_locks m l) = Some c ∧ c_intr (m_cpus m c) = false ∧
  (depth (h c') = 0 → c_intr (m_cpus m c') = h_intr (h c')).
Proof.
  intros Hr Hl. destruct (reachable_ok _ Hr) as [Hlk Hcpu]; simpl in *. split_and!.
  - intros Hl'. eapply (ok_one _ _ Hlk l); by left.
  - by apply (ok_owner _ _ Hlk).
  - destruct (Hcpu c) as (_&_&Hi). rewrite decide_False in Hi; [apply Hi|].
    unfold depth. destruct (h_held (h c)); [by apply elem_of_nil in Hl|simpl]. destruct (h_pc _); lia.
  - intros Hd. destruct (Hcpu c') as (_&_&Hi). by rewrite decide_True in Hi.
Qed.

(** The panics of the lock code report exactly the misuses: [acquire]
    panics when the hart already holds the lock, [release] when it does not;
    the [pop_off] that ends a [release], or that matches a [push_off], never
    panics, and a spinning hart gets the lock as soon as no hart has it. *)
Theorem spinlock_panics_on_misuse m h c l :
  rtc step init (m, h) → depth (h c) < max_depth →
  (h_pc (h c) = Outside → (∃ m', acquire_begin c l m = Ok tt m') ↔ l ∉ h_held (h c)) ∧
  (h_pc (h c) = Outside → (∃ m', release_begin c l m = Ok tt m') ↔ l ∈ h_held (h c)) ∧
  (h_pc (h c) = Freed l ∨ h_push (h c) ≠ O → ∃ m', pop_off c m = Ok tt m') ∧
  ((∃ m', test_and_set l m = Ok 0 m') ↔ ∀ c', ¬ has (h c') l).
Proof.
  intros Hr Hd. destruct (reachable_ok _ Hr) as [Hlk Hcpu]; simpl in *.
  pose proof (ok_word _ _ Hlk l) as Hw. pose proof (ok_owner _ _ Hlk l c) as Ho.
  assert (Hh : l ∈ h_held (h c) → lk_locked (m_locks m l) ≠ 0).
  { intros Hin. destruct Hw as [[_ Hn]|[-> _]]; [|done]. destruct (Hn c). by left. }
  split_and!.
  - intros _. setoid_rewrite acquire_begin_Ok. split.
    + intros (m'&_&Hn) Hin. apply Hn. split; [auto|by apply Ho].
    + intros Hn. eexists. split; [reflexivity|]. rewrite Ho. tauto.
  - intros _. setoid_rewrite release_begin_Ok. split; [intros (m'&[_ ?]&_); by apply Ho|]. intros Hin. eexists. split; [split; [auto|by apply Ho]|reflexivity].
  - intros Hp. destruct (Hcpu c) as (_&Hn&Hi). assert (0 < depth (h c)).
    { unfold depth. destruct Hp as [->|?]; [lia|]. destruct (h_pc (h c)); lia. }
    rewrite decide_False in Hi by lia. destruct Hi as [Hi _].
    unfold pop_off, mbind, M_bind, intr_get, gets. rewrite Hi. rewrite Hn. zbool. simpl. case_match; eauto.
  - unfold test_and_set, mbind, M_bind, gets. simpl. split.
    + intros [m' [= Hz _]]. destruct Hw as [[_ ?]|[? _]]; [done|lia].
    + intros Hn. destruct Hw as [[-> _]|[_ [c' Hc']]]; [eauto|by destruct (Hn c')].
Qed.

(** Hart 0 acquires lock 7. *)
Definition run7 : sys :=
  match acquire 0 7 1 init.1 with
  | Ok _ m => (m, <[0 := Hart Outside [7] 0 false]> (<[0 := Hart (Won 7) [] 0 false]>
                   (<[0 := Hart (Spinning 7) [] 0 false]> init.2)))
  | _ => init
  end.

Lemma run7_reachable : rtc step init (run7.1, run7.2).
Proof.
  eapply rtc_l; [eapply (s_acquire _ _ _ 0 7); [reflexivity|done|reflexivity]|].
  eapply rtc_l; [eapply (s_win _ _ _ 0 7); reflexivity|].
  eapply rtc_l; [eapply (s_own _ _ _ 0 7); reflexivity|]. apply rtc_refl.
Qed.

Lemma spinlock_mutual_exclusion_witness :
  (7 ∈ h_held (run7.2 1) → 1 = 0) ∧ lk_cpu (m_locks run7.1 7) = Some 0 ∧ c_intr (m_cpus run7.1 0) = false ∧
  (depth (run7.2 1) = 0 → c_intr (m_cpus run7.1 1) = h_intr (run7.2 1)).
Proof. apply (spinlock_mutual_exclusion run7.1 run7.2 0 1 7 run7_reachable). apply elem_of_cons. by left. Defined.

Lemma spinlock_panics_on_misuse_witness :
  (h_pc (run7.2 0) = Outside → (∃ m', acquire_begin 0 7 run7.1 = Ok tt m') ↔ 7 ∉ h_held (run7.2 0)) ∧
  (h_pc (run7.2 0) = Outside → (∃ m', release_begin 0 7 run7.1 = Ok tt m') ↔ 7 ∈ h_held (run7.2 0)) ∧
  (h_pc (run7.2 0) = Freed 7 ∨ h_push (run7.2 0) ≠ O → ∃ m', pop_off 0 run7.1 = Ok tt m') ∧
  ((∃ m', test_and_set 7 run7.1 = Ok 0 m') ↔ ∀ c', ¬ has (run7.2 c') 7).
Proof. apply (spinlock_panics_on_misuse run7.1 run7.2 0 7 run7_reachable). done. Defined.
