(* ===== verification/Block.v ===== *)
(** * Disk blocks

    A block is the list of its BSIZE bytes (kernel/fs.h).  The casts of the
    file system code ([(struct dinode * )bp->data + ...]) are little-endian
    loads and stores at byte offsets.  The disk records the writes in the
    order they reach it, so that a crash leaves a prefix of them. *)
From S2P Require Import Prelude.

(** kernel/param.h *)
Definition ROOTDEV : Z := 1.
Definition MAXOPBLOCKS : Z := 10.
Definition LOGSIZE : Z := MAXOPBLOCKS * 3.
Definition NBUF : Z := MAXOPBLOCKS * 3.

(** kernel/fs.h *)
Definition BSIZE : Z := 1024.

Abbreviation block := (list Z).

Definition blk_ok (b : block) : Prop := length b = Z.to_nat BSIZE ∧ Forall (λ x, 0 ≤ x < 256) b.

(** The bytes of a block as memory from address 0. *)
Definition blk_mem (b : block) : mem := λ i, b !!! Z.to_nat i.
Definition mem_blk (m : mem) (n : nat) : block := read_bytes m 0 n.

Definition blk_load (n : nat) (b : block) (off : Z) : Z := load_le (blk_mem b) off n.
Definition blk_store (n : nat) (b : block) (off v : Z) : block := mem_blk (store_le (blk_mem b) off n v) (length b).

(** [memmove] of a range out of, and into, a block's data. *)
Definition blk_read (b : block) (off : Z) (n : nat) : list Z := read_bytes (blk_mem b) off n.
Definition blk_write (b : block) (off : Z) (l : list Z) : block :=
  take (Z.to_nat off) b ++ l ++ drop (Z.to_nat off + length l) b.

Definition zero_block : block := replicate (Z.to_nat BSIZE) 0.

Lemma blk_mem_nth b (i : nat) : blk_mem b i = b !!! i.
Proof. unfold blk_mem. by rewrite Nat2Z.id. Qed.

Lemma blk_mem_blk m n (i : Z) : 0 ≤ i < Z.of_nat n → blk_mem (mem_blk m n) i = m i.
Proof.
  intros Hi. unfold blk_mem, mem_blk. apply list_lookup_total_correct.
  rewrite read_bytes_lookup by lia. do 2 f_equal. lia.
Qed.

Lemma mem_blk_mem b : mem_blk (blk_mem b) (length b) = b.
Proof.
  apply list_eq. intros i. destruct (decide (i < length b)%nat) as [Hi|Hi].
  - unfold mem_blk. rewrite read_bytes_lookup by done. rewrite Z.add_0_l, blk_mem_nth.
    by rewrite list_lookup_lookup_total_lt.
  - rewrite !lookup_ge_None_2; [done|lia|]. unfold mem_blk. rewrite length_read_bytes. lia.
Qed.

Lemma length_blk_store n b off v : length (blk_store n b off v) = length b.
Proof. apply length_read_bytes. Qed.

Lemma blk_mem_store n b off v i :
  0 ≤ i < length b → blk_mem (blk_store n b off v) i = store_le (blk_mem b) off n v i.
Proof. intros. by apply blk_mem_blk. Qed.

Lemma blk_load_store n b off v :
  0 ≤ off → off + Z.of_nat n ≤ Z.of_nat (length b) → blk_load n (blk_store n b off v) off = v `mod` 256 ^ n.
Proof.
  intros. unfold blk_load. rewrite (load_le_ext _ (store_le (blk_mem b) off n v)); [apply load_store_le|].
  intros x ?. apply blk_mem_store. lia.
Qed.

Lemma blk_load_store_other n k b off off' v :
  0 ≤ off' → off' + Z.of_nat k ≤ Z.of_nat (length b) → off' + Z.of_nat k ≤ off ∨ off + Z.of_nat n ≤ off' →
  blk_load k (blk_store n b off v) off' = blk_load k b off'.
Proof.
  intros. unfold blk_load. apply load_le_ext. intros x ?. rewrite blk_mem_store by lia.
  apply store_le_other. lia.
Qed.

Lemma blk_mem_bytes b : Forall (λ x, 0 ≤ x < 256) b → bytes_ok (blk_mem b).
Proof.
  intros Hb x. unfold blk_mem. destruct (decide (Z.to_nat x < length b)%nat) as [Hx|Hx].
  - rewrite Forall_forall in Hb. apply Hb. apply list_elem_of_lookup_total_2. done.
  - rewrite list_lookup_total_alt, lookup_ge_None_2 by lia. done.
Qed.

Lemma read_bytes_ok m a n : bytes_ok m → Forall (λ x, 0 ≤ x < 256) (read_bytes m a n).
Proof. intros Hm. revert a. induction n; intros a; simpl; constructor; [apply Hm|auto]. Qed.

Lemma mem_blk_ok m n : bytes_ok m → Forall (λ x, 0 ≤ x < 256) (mem_blk m n).
Proof. apply read_bytes_ok. Qed.

Lemma blk_store_ok n b off v : blk_ok b → blk_ok (blk_store n b off v).
Proof.
  intros [Hl Hb]. split; [by rewrite length_blk_store|]. apply mem_blk_ok, store_le_bytes_ok. by apply blk_mem_bytes.
Qed.

Lemma blk_load_range n b off : Forall (λ x, 0 ≤ x < 256) b → 0 ≤ blk_load n b off < 256 ^ n.
Proof. intros. apply load_le_range. by apply blk_mem_bytes. Qed.

Lemma zero_block_ok : blk_ok zero_block.
Proof. split; [apply length_replicate|]. apply Forall_replicate. lia. Qed.

Lemma length_blk_read b off n : length (blk_read b off n) = n.
Proof. apply length_read_bytes. Qed.

Lemma length_blk_write b off l :
  0 ≤ off → off + Z.of_nat (length l) ≤ Z.of_nat (length b) → length (blk_write b off l) = length b.
Proof. intros. unfold blk_write. rewrite !length_app, length_take, length_drop. lia. Qed.

Lemma blk_write_lookup b off l (i : nat) :
  0 ≤ off → off + Z.of_nat (length l) ≤ Z.of_nat (length b) → (i < length b)%nat →
  blk_write b off l !! i = if decide (off ≤ Z.of_nat i < off + Z.of_nat (length l)) then l !! (i - Z.to_nat off)%nat else b !! i.
Proof.
  intros Ho Hl Hi. unfold blk_write. case_decide as Hd.
  - rewrite lookup_app_r by (rewrite length_take; lia). rewrite length_take.
    rewrite lookup_app_l by lia. f_equal. lia.
  - destruct (decide (Z.of_nat i < off)).
    + rewrite lookup_app_l by (rewrite length_take; lia). by rewrite lookup_take_lt by lia.
    + rewrite lookup_app_r by (rewrite length_take; lia). rewrite length_take.
      rewrite lookup_app_r by lia. rewrite lookup_drop. f_equal. lia.
Qed.

Lemma blk_mem_write b off l i :
  0 ≤ off → off + Z.of_nat (length l) ≤ Z.of_nat (length b) → 0 ≤ i < Z.of_nat (length b) →
  blk_mem (blk_write b off l) i =
  if decide (off ≤ i < off + Z.of_nat (length l)) then l !!! Z.to_nat (i - off) else blk_mem b i.
Proof.
  intros Ho Hl Hi. unfold blk_mem. rewrite !list_lookup_total_alt, blk_write_lookup by lia.
  destruct (decide (off ≤ i < _)); [rewrite decide_True by lia|by rewrite decide_False by lia].
  do 2 f_equal. lia.
Qed.

(** What was written at a range is read there; other ranges are unchanged. *)
Lemma blk_write_ok b off l :
  blk_ok b → 0 ≤ off → off + Z.of_nat (length l) ≤ BSIZE → Forall (λ x, 0 ≤ x < 256) l → blk_ok (blk_write b off l).
Proof.
  intros [Hl Hb] Ho Hn Hf. split; [rewrite length_blk_write; [done|done|rewrite Hl; lia]|].
  unfold blk_write. rewrite !Forall_app. split_and!; [by apply Forall_take|done|by apply Forall_drop].
Qed.

Lemma blk_read_write b off l :
  0 ≤ off → off + Z.of_nat (length l) ≤ Z.of_nat (length b) → blk_read (blk_write b off l) off (length l) = l.
Proof.
  intros Ho Hl. apply list_eq. intros i. destruct (decide (i < length l)%nat) as [Hi|Hi].
  - unfold blk_read. rewrite read_bytes_lookup by done. rewrite blk_mem_write by lia. rewrite decide_True by lia.
    replace (Z.to_nat _) with i by lia. by rewrite <- list_lookup_lookup_total_lt.
  - rewrite !lookup_ge_None_2; [done|lia|]. rewrite length_blk_read. lia.
Qed.

Lemma blk_read_write_other b off l off' n :
  0 ≤ off → off + Z.of_nat (length l) ≤ Z.of_nat (length b) → 0 ≤ off' → off' + Z.of_nat n ≤ Z.of_nat (length b) →
  off' + Z.of_nat n ≤ off ∨ off + Z.of_nat (length l) ≤ off' →
  blk_read (blk_write b off l) off' n = blk_read b off' n.
Proof.
  intros. apply read_bytes_ext. intros i Hi. rewrite blk_mem_write by lia. by rewrite decide_False by lia.
Qed.

(** ** The disk *)

Record disk := Disk {
  d_blocks : Z → block;             (* what a read returns *)
  d_trace : list (Z * block)        (* the writes so far, oldest first *)
}.

Definition disk_write (d : disk) (n : Z) (b : block) : disk :=
  Disk (<[n := b]> (d_blocks d)) (d_trace d ++ [(n, b)]).

(** The contents after a sequence of writes. *)
Definition apply_writes (ws : list (Z * block)) (d : Z → block) : Z → block :=
  fold_left (λ d w, <[w.1 := w.2]> d) ws d.

Lemma apply_writes_app ws ws' d : apply_writes (ws ++ ws') d = apply_writes ws' (apply_writes ws d).
Proof. apply fold_left_app. Qed.

Lemma apply_writes_ne ws d n : (∀ b, (n, b) ∉ ws) → apply_writes ws d n = d n.
Proof.
  revert d. induction ws as [|[m b] ws IH]; intros d Hn; simpl; [done|]. unfold apply_writes in IH. rewrite IH.
  - apply fn_lookup_insert_ne. intros ->. apply (Hn b). apply elem_of_cons. by left.
  - intros b' ?. apply (Hn b'). apply elem_of_cons. by right.
Qed.
