(* ===== verification/Sleeplock.v ===== *)
(** * kernel/sleeplock.c: locks held across sleeps

    A sleep lock is a field of a buffer or an inode.  [get] and [set] reach it
    in the component's state; [pid] is the running process.  A process that
    finds the lock taken goes to sleep on it, with the inner spin lock
    released. *)
From S2P Require Import Prelude.

Record sleeplock := SL {
  sl_locked : bool;
  sl_lk : bool;        (* the spin lock that protects it *)
  sl_pid : Z           (* process holding it *)
}.

#[global] Instance sleeplock_inhabited : Inhabited sleeplock := populate (SL false false 0).
#[global] Instance sleeplock_eq_dec : EqDecision sleeplock.
Proof. solve_decision. Defined.

(** A field of the state. *)
Class Lens {S A} (get : S → A) (set : A → S → S) : Prop := {
  lens_get_set : ∀ a s, get (set a s) = a;
  lens_set_set : ∀ a a' s, set a (set a' s) = set a s
}.

Section sleeplock.
Context {S : Type} (get : S → sleeplock) (set : sleeplock → S → S) (pid chan : Z).

Definition get_lk (s : S) : bool := sl_lk (get s).
Definition set_lk (b : bool) (s : S) : S := set (SL (sl_locked (get s)) b (sl_pid (get s))) s.

Definition initsleeplock : M S unit := modify (set (SL false false 0)).

Definition acquiresleep : M S unit :=
  acquire get_lk set_lk ;;
  l ← gets (λ s, sl_locked (get s));
  if (l : bool) then release get_lk set_lk ;; sleep_on chan
  else
    modify (λ s, set (SL true (sl_lk (get s)) pid) s) ;;
    release get_lk set_lk.

(** [wakeup] concerns the sleepers only; they retry [acquiresleep]. *)
Definition releasesleep : M S unit :=
  acquire get_lk set_lk ;;
  modify (λ s, set (SL false (sl_lk (get s)) 0) s) ;;
  release get_lk set_lk.

Definition holdingsleep : M S bool :=
  acquire get_lk set_lk ;;
  r ← gets (λ s, sl_locked (get s) && (sl_pid (get s) =? pid));
  release get_lk set_lk ;;
  mret r.

Context `{!Lens get set}.

Ltac lens := repeat progress (unfold get_lk, set_lk; rewrite ?lens_get_set, ?lens_set_set; simpl).

Lemma acquiresleep_free s :
  sl_locked (get s) = false → sl_lk (get s) = false → acquiresleep s = Ok tt (set (SL true false pid) s).
Proof.
  intros Hl Hk. unfold acquiresleep, acquire, release, mbind, M_bind, gets, modify.
  unfold get_lk at 1. rewrite Hk. lens. rewrite Hl. lens. by lens.
Qed.

Lemma acquiresleep_busy s :
  sl_locked (get s) = true → sl_lk (get s) = false →
  acquiresleep s = Sleep chan (set (SL true false (sl_pid (get s))) s).
Proof.
  intros Hl Hk. unfold acquiresleep, acquire, release, mbind, M_bind, gets, modify, sleep_on.
  unfold get_lk at 1. rewrite Hk. lens. rewrite Hl. by lens.
Qed.

Lemma releasesleep_Ok s : sl_lk (get s) = false → releasesleep s = Ok tt (set (SL false false 0) s).
Proof.
  intros Hk. unfold releasesleep, acquire, release, mbind, M_bind, gets, modify.
  unfold get_lk at 1. rewrite Hk. by lens.
Qed.

Lemma holdingsleep_Ok s :
  sl_lk (get s) = false →
  holdingsleep s = Ok (sl_locked (get s) && (sl_pid (get s) =? pid)) (set (SL (sl_locked (get s)) false (sl_pid (get s))) s).
Proof.
  intros Hk. unfold holdingsleep, acquire, release, mbind, M_bind, gets, modify, mret, M_ret.
  unfold get_lk at 1. rewrite Hk. by lens.
Qed.

End sleeplock.
