(* ===== verification/BufCache.v ===== *)
(** * What the buffer cache promises to the log and the file system

    The interface of kernel/bio.c: its operations, an abstract state (what
    each block contains, what the disk holds, how often each block is
    referenced, which handles the running process has), and the law of each
    operation as a change of that abstract state.  The log and the file
    system are proved against this interface; [BioProps] shows that the
    linked list of buffers implements it. *)
From S2P Require Import Prelude Block.

(** ** The abstract cache *)

Record cabs := CAbs {
  a_view : Z → block;               (* contents of each block, cached or not *)
  a_blocks : Z → block;             (* contents of the disk *)
  a_trace : list (Z * block);       (* writes that reached the disk *)
  a_refs : Z → Z;                   (* references to each block's buffer *)
  a_live : Z;                       (* number of blocks with references *)
  a_held : Z → option Z             (* locked handles and their blocks *)
}.

#[global] Instance cabs_equiv : Equiv cabs := λ a a',
  (∀ n, a_view a n = a_view a' n) ∧ (∀ n, a_blocks a n = a_blocks a' n) ∧ a_trace a = a_trace a' ∧
  (∀ n, a_refs a n = a_refs a' n) ∧ a_live a = a_live a' ∧ (∀ h, a_held a h = a_held a' h).

#[global] Instance cabs_equivalence : Equivalence (≡@{cabs}).
Proof.
  unfold equiv, cabs_equiv. split.
  - intros a. split_and!; done.
  - intros a a' (?&?&?&?&?&?). split_and!; auto.
  - intros a a' a'' (H1&H2&H3&H4&H5&H6) (G1&G2&G3&G4&G5&G6). split_and!; intros; congruence.
Qed.

Definition a_read (h n : Z) (a : cabs) : cabs :=
  CAbs (a_view a) (a_blocks a) (a_trace a) (<[n := a_refs a n + 1]> (a_refs a))
       (a_live a + if a_refs a n =? 0 then 1 else 0) (<[h := Some n]> (a_held a)).
Definition a_set (n : Z) (d : block) (a : cabs) : cabs :=
  CAbs (<[n := d]> (a_view a)) (a_blocks a) (a_trace a) (a_refs a) (a_live a) (a_held a).
Definition a_write (n : Z) (a : cabs) : cabs :=
  CAbs (a_view a) (<[n := a_view a n]> (a_blocks a)) (a_trace a ++ [(n, a_view a n)]) (a_refs a) (a_live a) (a_held a).
Definition a_unref (n : Z) (a : cabs) : cabs :=
  CAbs (a_view a) (a_blocks a) (a_trace a) (<[n := a_refs a n - 1]> (a_refs a))
       (a_live a - if a_refs a n =? 1 then 1 else 0) (a_held a).
Definition a_ref (n : Z) (a : cabs) : cabs :=
  CAbs (a_view a) (a_blocks a) (a_trace a) (<[n := a_refs a n + 1]> (a_refs a)) (a_live a) (a_held a).
Definition a_unlock (h : Z) (a : cabs) : cabs :=
  CAbs (a_view a) (a_blocks a) (a_trace a) (a_refs a) (a_live a) (<[h := None]> (a_held a)).

(** ** The interface *)

Class BufCache (S : Type) := {
  bread : Z → Z → M S Z;
  bwrite : Z → M S unit;
  brelse : Z → M S unit;
  bpin : Z → M S unit;
  bunpin : Z → M S unit;
  bdata : Z → S → block;            (* b->data *)
  set_bdata : Z → block → S → S;
  bblockno : Z → S → Z              (* b->blockno *)
}.

(** A block may be read when it has a buffer or one is unused. *)
Definition can_read (n : Z) (a : cabs) : Prop :=
  (∀ h, a_held a h ≠ Some n) ∧ (0 < a_refs a n ∨ a_live a < NBUF) ∧ a_refs a n < 2 ^ 32 - 1.

(** A block may be released when its buffer stays referenced or is clean. *)
Definition can_relse (n : Z) (a : cabs) : Prop := 2 ≤ a_refs a n ∨ a_view a n = a_blocks a n.

Class BufCacheOk (S : Type) `{!BufCache S} := {
  cache_inv : S → Prop;
  abs : S → cabs;
  inv_blk_ok s n : cache_inv s → blk_ok (a_view (abs s) n);
  inv_clean s n : cache_inv s → a_refs (abs s) n = 0 → a_view (abs s) n = a_blocks (abs s) n;
  inv_refs s h n : cache_inv s → a_held (abs s) h = Some n → 1 ≤ a_refs (abs s) n;
  inv_nonneg s n : cache_inv s → 0 ≤ a_refs (abs s) n;
  inv_inj s h h' n : cache_inv s → a_held (abs s) h = Some n → a_held (abs s) h' = Some n → h = h';
  bdata_ok s h n : cache_inv s → a_held (abs s) h = Some n → bdata h s = a_view (abs s) n;
  bblockno_ok s h n : cache_inv s → a_held (abs s) h = Some n → bblockno h s = n;
  set_bdata_ok s h n d : cache_inv s → a_held (abs s) h = Some n → blk_ok d →
    cache_inv (set_bdata h d s) ∧ abs (set_bdata h d s) ≡ a_set n d (abs s);
  bread_ok s n : cache_inv s → can_read n (abs s) →
    wp (bread ROOTDEV n) (λ h s', cache_inv s' ∧ a_held (abs s) h = None ∧ abs s' ≡ a_read h n (abs s)) s;
  bwrite_ok s h n : cache_inv s → a_held (abs s) h = Some n →
    wp (bwrite h) (λ _ s', cache_inv s' ∧ abs s' ≡ a_write n (abs s)) s;
  brelse_ok s h n : cache_inv s → a_held (abs s) h = Some n → can_relse n (abs s) →
    wp (brelse h) (λ _ s', cache_inv s' ∧ abs s' ≡ a_unref n (a_unlock h (abs s))) s;
  bpin_ok s h n : cache_inv s → a_held (abs s) h = Some n → a_refs (abs s) n < 2 ^ 32 - 1 →
    wp (bpin h) (λ _ s', cache_inv s' ∧ abs s' ≡ a_ref n (abs s)) s;
  bunpin_ok s h n : cache_inv s → a_held (abs s) h = Some n → 2 ≤ a_refs (abs s) n →
    wp (bunpin h) (λ _ s', cache_inv s' ∧ abs s' ≡ a_unref n (abs s)) s
}.

(** ** Reasoning modulo [≡] *)

Ltac cabs_unfold := unfold equiv, cabs_equiv, a_read, a_set, a_write, a_unref, a_ref, a_unlock; simpl.

Section proper.
Ltac prove_proper :=
  intros ?? (H1&H2&H3&H4&H5&H6); cabs_unfold; rewrite ?H1, ?H2, ?H3, ?H4, ?H5;
  split_and!; try done; intros ?; unfold insert, fn_insert; case_decide; subst; auto; congruence.

#[global] Instance a_read_proper h n : Proper ((≡) ==> (≡)) (a_read h n).
Proof. prove_proper. Qed.
#[global] Instance a_set_proper n d : Proper ((≡) ==> (≡)) (a_set n d).
Proof. prove_proper. Qed.
#[global] Instance a_write_proper n : Proper ((≡) ==> (≡)) (a_write n).
Proof. prove_proper. Qed.
#[global] Instance a_unref_proper n : Proper ((≡) ==> (≡)) (a_unref n).
Proof. prove_proper. Qed.
#[global] Instance a_ref_proper n : Proper ((≡) ==> (≡)) (a_ref n).
Proof. prove_proper. Qed.
#[global] Instance a_unlock_proper h : Proper ((≡) ==> (≡)) (a_unlock h).
Proof. prove_proper. Qed.
#[global] Instance can_read_proper n : Proper ((≡) ==> iff) (can_read n).
Proof. intros a a' (H1&H2&H3&H4&H5&H6). unfold can_read. setoid_rewrite H6. by rewrite H4, H5. Qed.
#[global] Instance can_relse_proper n : Proper ((≡) ==> iff) (can_relse n).
Proof. intros a a' (H1&H2&H3&H4&H5&H6). unfold can_relse. by rewrite H1, H2, H4. Qed.
#[global] Instance a_view_proper : Proper ((≡) ==> eq ==> eq) a_view.
Proof. intros a a' H n ? <-. apply H. Qed.
#[global] Instance a_blocks_proper : Proper ((≡) ==> eq ==> eq) a_blocks.
Proof. intros a a' H n ? <-. apply H. Qed.
#[global] Instance a_trace_proper : Proper ((≡) ==> eq) a_trace.
Proof. intros a a' H. apply H. Qed.
#[global] Instance a_refs_proper : Proper ((≡) ==> eq ==> eq) a_refs.
Proof. intros a a' H n ? <-. apply H. Qed.
#[global] Instance a_live_proper : Proper ((≡) ==> eq) a_live.
Proof. intros a a' H. apply H. Qed.
#[global] Instance a_held_proper : Proper ((≡) ==> eq ==> eq) a_held.
Proof. intros a a' H n ? <-. apply H. Qed.
End proper.

Ltac fnl := repeat first [rewrite fn_lookup_insert | rewrite fn_lookup_insert_ne by congruence].

(** Equality of two abstract states, field by field. *)
Ltac cabs_eq :=
  unfold equiv, cabs_equiv; split_and!; simpl;
  [ intros ?; fnl; try done | intros ?; fnl; try done | fnl; try done
  | intros ?; fnl; unfold insert, fn_insert; repeat case_decide; subst; try lia
  | fnl; repeat match goal with H : a_refs _ _ = _ |- _ => rewrite H end; simpl; try lia
  | intros ?; unfold insert, fn_insert; repeat case_decide; congruence ].

(** Write-through of a sequence of writes. *)
Definition a_writes (ws : list (Z * block)) (a : cabs) : cabs :=
  CAbs (apply_writes ws (a_view a)) (apply_writes ws (a_blocks a)) (a_trace a ++ ws) (a_refs a) (a_live a) (a_held a).

Lemma apply_writes_ext ws d d' n : (∀ m, d m = d' m) → apply_writes ws d n = apply_writes ws d' n.
Proof.
  revert d d'. induction ws as [|w ws IH]; intros d d' Hd; simpl; [done|]. apply IH.
  intros m. unfold insert, fn_insert. by case_decide.
Qed.

#[global] Instance a_writes_proper ws : Proper ((≡) ==> (≡)) (a_writes ws).
Proof.
  intros a a' (H1&H2&H3&H4&H5&H6). unfold equiv, cabs_equiv; simpl. rewrite H3, H5. split_and!; auto; intros; by apply apply_writes_ext.
Qed.

Lemma a_writes_app ws ws' a : a_writes (ws ++ ws') a ≡ a_writes ws' (a_writes ws a).
Proof. unfold equiv, cabs_equiv, a_writes; simpl. rewrite (assoc_L (++)). split_and!; auto; intros; by rewrite apply_writes_app. Qed.

Lemma a_writes_nil a : a_writes [] a ≡ a.
Proof. unfold equiv, cabs_equiv, a_writes; simpl. rewrite app_nil_r. done. Qed.
