(* ===== verification/Bio.v ===== *)
(** * kernel/bio.c: the buffer cache

    Buffers are numbered [0 .. NBUF-1]; number [NBUF] is [bcache.head], the
    sentinel of the doubly linked list that keeps them in order of use.
    [pid] is the running process ([myproc()->pid]), the owner of the buffer
    locks it takes. *)
From S2P Require Import Prelude Block Sleeplock.

(** kernel/buf.h *)
Record buf := Buf {
  b_valid : bool;
  b_disk : bool;
  b_dev : Z;
  b_blockno : Z;
  b_lock : sleeplock;
  b_refcnt : Z;
  b_prev : Z;
  b_next : Z;
  b_data : block
}.

(** Static storage starts zeroed (with null links). *)
#[global] Instance buf_inhabited : Inhabited buf :=
  populate (Buf false false 0 0 (SL false false 0) 0 (-1) (-1) zero_block).

Definition set_valid v b := Buf v (b_disk b) (b_dev b) (b_blockno b) (b_lock b) (b_refcnt b) (b_prev b) (b_next b) (b_data b).
Definition set_tag d n b := Buf (b_valid b) (b_disk b) d n (b_lock b) (b_refcnt b) (b_prev b) (b_next b) (b_data b).
Definition set_block l b := Buf (b_valid b) (b_disk b) (b_dev b) (b_blockno b) l (b_refcnt b) (b_prev b) (b_next b) (b_data b).
Definition set_refcnt r b := Buf (b_valid b) (b_disk b) (b_dev b) (b_blockno b) (b_lock b) r (b_prev b) (b_next b) (b_data b).
Definition set_prev p b := Buf (b_valid b) (b_disk b) (b_dev b) (b_blockno b) (b_lock b) (b_refcnt b) p (b_next b) (b_data b).
Definition set_next p b := Buf (b_valid b) (b_disk b) (b_dev b) (b_blockno b) (b_lock b) (b_refcnt b) (b_prev b) p (b_data b).
Definition set_data d b := Buf (b_valid b) (b_disk b) (b_dev b) (b_blockno b) (b_lock b) (b_refcnt b) (b_prev b) (b_next b) d.

Record bstate := BState {
  bc_lock : bool;            (* bcache.lock *)
  bc_buf : gmap Z buf;       (* bcache.buf and bcache.head *)
  bc_disk : disk             (* behind virtio_disk_rw *)
}.

Definition HEAD : Z := NBUF.

Definition set_bc_lock (b : bool) (s : bstate) : bstate := BState b (bc_buf s) (bc_disk s).
Definition buf_at (i : Z) (s : bstate) : buf := bc_buf s !!! i.
Definition put_buf (i : Z) (b : buf) (s : bstate) : bstate := BState (bc_lock s) (<[i := b]> (bc_buf s)) (bc_disk s).
Definition put_disk (d : disk) (s : bstate) : bstate := BState (bc_lock s) (bc_buf s) d.

Definition rd {A} (f : buf → A) (i : Z) : M bstate A := gets (λ s, f (buf_at i s)).
Definition upd (i : Z) (f : buf → buf) : M bstate unit := modify (λ s, put_buf i (f (buf_at i s)) s).

Section bio.
Variable pid : Z.

Definition blk_lock (i : Z) (s : bstate) : sleeplock := b_lock (buf_at i s).
Definition put_blk_lock (i : Z) (l : sleeplock) (s : bstate) : bstate := put_buf i (set_block l (buf_at i s)) s.

Definition acquirebuf (i : Z) : M bstate unit := acquiresleep (blk_lock i) (put_blk_lock i) pid i.
Definition releasebuf (i : Z) : M bstate unit := releasesleep (blk_lock i) (put_blk_lock i).
Definition holdingbuf (i : Z) : M bstate bool := holdingsleep (blk_lock i) (put_blk_lock i) pid.

(** [virtio_disk_rw] as its callers see it: the transfer has finished. *)
Definition virtio_disk_rw (b : Z) (write : bool) : M bstate unit :=
  n ← rd b_blockno b;
  if write then
    d ← rd b_data b;
    modify (λ s, put_disk (disk_write (bc_disk s) n d) s)
  else
    d ← gets (λ s, d_blocks (bc_disk s) n);
    upd b (set_data d).

Fixpoint binit_loop (b : Z) (n : nat) : M bstate unit :=
  match n with
  | O => mret tt
  | S n =>
      first ← rd b_next HEAD;
      upd b (set_next first) ;;
      upd b (set_prev HEAD) ;;
      initsleeplock (put_blk_lock b) ;;
      first ← rd b_next HEAD;
      upd first (set_prev b) ;;
      upd HEAD (set_next b) ;;
      binit_loop (b + 1) n
  end.

Definition binit : M bstate unit :=
  modify (set_bc_lock false) ;;
  upd HEAD (set_prev HEAD) ;;
  upd HEAD (set_next HEAD) ;;
  binit_loop 0 (Z.to_nat NBUF).

(** The first loop of [bget]: from [b] towards older buffers, for a cached
    copy. *)
Fixpoint find_cached (dev blockno b : Z) (fuel : nat) : M bstate (option Z) :=
  match fuel with
  | O => λ _, NoFuel
  | S fuel =>
      if b =? HEAD then mret None
      else
        x ← rd id b;
        if (b_dev x =? dev) && (b_blockno x =? blockno) then mret (Some b)
        else find_cached dev blockno (b_next x) fuel
  end.

(** The second loop: from [b] towards newer buffers, for an unused one. *)
Fixpoint find_unused (b : Z) (fuel : nat) : M bstate (option Z) :=
  match fuel with
  | O => λ _, NoFuel
  | S fuel =>
      if b =? HEAD then mret None
      else
        x ← rd id b;
        if b_refcnt x =? 0 then mret (Some b) else find_unused (b_prev x) fuel
  end.

(** Every buffer and the sentinel. *)
Definition list_fuel : nat := Z.to_nat NBUF + 1.

Definition bget (dev blockno : Z) : M bstate Z :=
  acquire bc_lock set_bc_lock ;;
  first ← rd b_next HEAD;
  r ← find_cached dev blockno first list_fuel;
  match r with
  | Some b =>
      upd b (λ x, set_refcnt (u32 (b_refcnt x + 1)) x) ;;
      release bc_lock set_bc_lock ;;
      acquirebuf b ;;
      mret b
  | None =>
      last ← rd b_prev HEAD;
      r ← find_unused last list_fuel;
      match r with
      | Some b =>
          upd b (set_tag dev blockno) ;;
          upd b (set_valid false) ;;
          upd b (set_refcnt 1) ;;
          release bc_lock set_bc_lock ;;
          acquirebuf b ;;
          mret b
      | None => panic "bget: no buffers"
      end
  end.

Definition bread (dev blockno : Z) : M bstate Z :=
  b ← bget dev blockno;
  v ← rd b_valid b;
  (if negb v then virtio_disk_rw b false ;; upd b (set_valid true) else mret tt) ;;
  mret b.

Definition bwrite (b : Z) : M bstate unit :=
  h ← holdingbuf b;
  if negb h then panic "bwrite" else virtio_disk_rw b true.

Definition brelse (b : Z) : M bstate unit :=
  h ← holdingbuf b;
  if negb h then panic "brelse"
  else
    releasebuf b ;;
    acquire bc_lock set_bc_lock ;;
    upd b (λ x, set_refcnt (u32 (b_refcnt x - 1)) x) ;;
    r ← rd b_refcnt b;
    (if r =? 0 then
       (* no one is waiting for it *)
       nx ← rd b_next b; pv ← rd b_prev b; upd nx (set_prev pv) ;;
       pv ← rd b_prev b; nx ← rd b_next b; upd pv (set_next nx) ;;
       first ← rd b_next HEAD; upd b (set_next first) ;;
       upd b (set_prev HEAD) ;;
       first ← rd b_next HEAD; upd first (set_prev b) ;;
       upd HEAD (set_next b)
     else mret tt) ;;
    release bc_lock set_bc_lock.

Definition bpin (b : Z) : M bstate unit :=
  acquire bc_lock set_bc_lock ;;
  upd b (λ x, set_refcnt (u32 (b_refcnt x + 1)) x) ;;
  release bc_lock set_bc_lock.

Definition bunpin (b : Z) : M bstate unit :=
  acquire bc_lock set_bc_lock ;;
  upd b (λ x, set_refcnt (u32 (b_refcnt x - 1)) x) ;;
  release bc_lock set_bc_lock.

End bio.

(** The static state before [binit]. *)
Definition bstate0 (d : disk) : bstate := BState false ∅ d.
