(* ===== verification/BioProps.v ===== *)
(** The buffer cache keeps its promise: the list is a ring of all buffers in
    order of use, a block is cached at most once, and reading, writing and
    recycling buffers never changes what a block contains. *)
From S2P Require Import Prelude Block Sleeplock BufCache Bio.

(* ------------------------------------------------------------------ *)
(** ** Doubly linked segments *)

(** From [x] along [nx] through [l] to [y], and back along [pv]. *)
Fixpoint seg (nx pv : Z → Z) (x : Z) (l : list Z) (y : Z) : Prop :=
  match l with
  | [] => nx x = y ∧ pv y = x
  | a :: l => nx x = a ∧ pv a = x ∧ seg nx pv a l y
  end.

Lemma seg_app nx pv x l1 a l2 y :
  seg nx pv x (l1 ++ a :: l2) y ↔ seg nx pv x l1 a ∧ seg nx pv a l2 y.
Proof. revert x. induction l1 as [|b l1 IH]; intros x; simpl; [tauto|]. rewrite IH. tauto. Qed.

Lemma seg_ext nx pv nx' pv' x l y :
  (∀ i, i = x ∨ i ∈ l → nx' i = nx i) → (∀ i, i ∈ l ∨ i = y → pv' i = pv i) →
  seg nx pv x l y → seg nx' pv' x l y.
Proof.
  revert x. induction l as [|a l IH]; intros x Hn Hp; simpl.
  - intros [Hy Hx]. rewrite Hn, Hp by auto. done.
  - intros (Hy&Hx&Hs). split; [rewrite Hn; auto|]. split; [rewrite Hp; [done|left; apply elem_of_cons; auto]|].
    apply IH; auto; intros i Hi; [apply Hn|apply Hp]; rewrite elem_of_cons; naive_solver.
Qed.

Lemma seg_head nx pv x l y : seg nx pv x l y → nx x = default y (head l).
Proof. destruct l; simpl; tauto. Qed.
Lemma seg_last nx pv x l y : seg nx pv x l y → pv y = default x (last l).
Proof.
  destruct l as [|a l _] using rev_ind; simpl; [tauto|]. rewrite last_snoc. simpl.
  intros Hs%seg_app. simpl in Hs. tauto.
Qed.

(** Redirecting the end of a segment to [n]. *)
Lemma seg_end nx pv nx' pv' x l b n :
  seg nx pv x l b → NoDup (x :: l) →
  (∀ i, i = x ∨ i ∈ l → nx' i = if decide (i = default x (last l)) then n else nx i) →
  (∀ i, i ∈ l → pv' i = pv i) → pv' n = default x (last l) → seg nx' pv' x l n.
Proof.
  destruct l as [|a l _] using rev_ind; intros Hs Hnd Hn Hp Hpn.
  - simpl in *. split; [|done]. rewrite Hn by auto. by rewrite decide_True.
  - rewrite last_snoc in *. simpl in *. apply seg_app in Hs as [Hs _]. apply seg_app. simpl.
    apply NoDup_cons in Hnd as [Hx Hnd]. apply NoDup_app in Hnd as (_&Hd&_).
    rewrite elem_of_app, list_elem_of_singleton in Hx. split_and!; [|rewrite Hn, decide_True|done]; auto.
    + eapply seg_ext; [..|exact Hs].
      * intros i Hi. rewrite Hn by (rewrite elem_of_app; tauto). rewrite decide_False; [done|].
        intros ->. destruct Hi as [->|Hi]; [tauto|]. eapply Hd; [done|]. by apply list_elem_of_singleton.
      * intros i Hi. apply Hp. rewrite elem_of_app, list_elem_of_singleton. tauto.
    + right. rewrite elem_of_app, list_elem_of_singleton. tauto.
Qed.

(** Unlinking [b] and linking it after the sentinel, as pointer updates. *)
Lemma seg_unlink nx pv h l1 b l2 nx' pv' :
  seg nx pv h (l1 ++ b :: l2) h → NoDup (h :: l1 ++ b :: l2) →
  (∀ i, nx' i = if decide (i = pv b) then nx b else nx i) →
  (∀ i, pv' i = if decide (i = nx b) then pv b else pv i) →
  seg nx' pv' h (l1 ++ l2) h.
Proof.
  intros [H1 H2]%seg_app Hnd Hn Hp. pose proof (seg_last _ _ _ _ _ H1) as Hl. pose proof (seg_head _ _ _ _ _ H2) as Hr.
  apply NoDup_cons in Hnd as [Hh Hnd]. apply NoDup_app in Hnd as (Hnd1&Hd&Hnd2). apply NoDup_cons in Hnd2 as [Hb Hnd2].
  rewrite elem_of_app, elem_of_cons in Hh. setoid_rewrite elem_of_cons in Hd.
  assert (Hpb : pv b = h ∨ pv b ∈ l1).
  { rewrite Hl. destruct (last l1) eqn:E; simpl; [right|by left]. by apply last_Some_elem_of. }
  assert (H1' : ∀ n, n = nx b → n ∉ l1 → seg nx' pv' h l1 n).
  { intros n -> Hnl. eapply seg_end; [exact H1|apply NoDup_cons; tauto| | |].
    - intros i _. rewrite Hn, Hl. done.
    - intros i Hi. rewrite Hp. rewrite decide_False; [done|]. by intros ->.
    - rewrite Hp, Hl. by rewrite decide_True. }
  destruct l2 as [|c l2]; simpl in *.
  - rewrite app_nil_r. apply H1'; [done|tauto].
  - destruct H2 as (Hc&Hcb&H2). apply seg_app. split.
    + apply H1'; [done|]. intros Hi. destruct (Hd c Hi). right. by left.
    + apply NoDup_cons in Hnd2 as [Hcl _]. rewrite elem_of_cons in Hh, Hb. eapply seg_ext; [..|exact H2].
      * intros i Hi. rewrite Hn. rewrite decide_False; [done|]. intros ->.
        destruct Hpb as [E|Hpb]; [rewrite E in Hi; tauto|].
        apply (Hd (pv b) Hpb). rewrite elem_of_cons. tauto.
      * intros i Hi. rewrite Hp. rewrite decide_False; [done|]. intros ->. rewrite Hc in Hi. naive_solver.
Qed.

Lemma seg_link nx pv h l b nx' pv' :
  seg nx pv h l h → b ∉ h :: l → NoDup (h :: l) →
  (∀ i, nx' i = if decide (i = h) then b else if decide (i = b) then nx h else nx i) →
  (∀ i, pv' i = if decide (i = nx h) then b else if decide (i = b) then h else pv i) →
  seg nx' pv' h (b :: l) h.
Proof.
  intros Hs Hb Hnd Hn Hp. apply NoDup_cons in Hnd as [Hh Hnd]. apply not_elem_of_cons in Hb as [Hbh Hb].
  pose proof (seg_head _ _ _ _ _ Hs) as Hr. simpl.
  split; [rewrite Hn; by rewrite decide_True|]. split.
  { rewrite Hp. case_decide; [|by rewrite decide_True]. destruct l as [|a l]; simpl in *; subst; [done|].
    destruct Hb. apply elem_of_cons. left. naive_solver. }
  destruct l as [|a l]; simpl in *.
  - split; [rewrite Hn; repeat case_decide; congruence|rewrite Hp; repeat case_decide; congruence].
  - destruct Hs as (Ha&Hah&Hs). split; [rewrite Hn; repeat case_decide; congruence|].
    split; [rewrite Hp; repeat case_decide; congruence|]. eapply seg_ext; [..|exact Hs].
    + intros i Hi. rewrite Hn. rewrite elem_of_cons in Hh, Hb. rewrite !decide_False; [done|naive_solver..].
    + apply NoDup_cons in Hnd as [Hal Hnd]. intros i Hi. rewrite Hp, Ha. rewrite elem_of_cons in Hh, Hb.
      rewrite !decide_False; [done|naive_solver..].
Qed.

(* ------------------------------------------------------------------ *)
(** ** Fields of a state *)

Definition nxt (s : bstate) (i : Z) : Z := b_next (buf_at i s).
Definition prv (s : bstate) (i : Z) : Z := b_prev (buf_at i s).

(** What a buffer holds, apart from its place in the list. *)
Definition core (b : buf) : bool * Z * Z * sleeplock * Z * block :=
  (b_valid b, b_dev b, b_blockno b, b_lock b, b_refcnt b, b_data b).

Lemma buf_at_put i b j s : buf_at j (put_buf i b s) = if decide (j = i) then b else buf_at j s.
Proof.
  unfold buf_at, put_buf; simpl. case_decide; [subst; apply lookup_total_insert_eq|].
  by apply lookup_total_insert_ne.
Qed.
Lemma put_buf_put_buf i b b' s : put_buf i b (put_buf i b' s) = put_buf i b s.
Proof. unfold put_buf; simpl. by rewrite insert_insert_eq. Qed.

Section links.
Context (s : bstate) (j p : Z).
Let s' := put_buf j (set_prev p (buf_at j s)) s.
Let s'' := put_buf j (set_next p (buf_at j s)) s.

Lemma nxt_set_prev i : nxt s' i = nxt s i.
Proof using. unfold nxt, s'. rewrite buf_at_put. case_decide; by subst. Qed.
Lemma prv_set_prev i : prv s' i = if decide (i = j) then p else prv s i.
Proof using. unfold prv, s'. rewrite buf_at_put. case_decide; by subst. Qed.
Lemma core_set_prev i : core (buf_at i s') = core (buf_at i s).
Proof using. unfold s'. rewrite buf_at_put. case_decide; by subst. Qed.
Lemma nxt_set_next i : nxt s'' i = if decide (i = j) then p else nxt s i.
Proof using. unfold nxt, s''. rewrite buf_at_put. case_decide; by subst. Qed.
Lemma prv_set_next i : prv s'' i = prv s i.
Proof using. unfold prv, s''. rewrite buf_at_put. case_decide; by subst. Qed.
Lemma core_set_next i : core (buf_at i s'') = core (buf_at i s).
Proof using. unfold s''. rewrite buf_at_put. case_decide; by subst. Qed.
End links.

#[global] Instance blk_lock_lens i : Lens (blk_lock i) (put_blk_lock i).
Proof.
  split; intros; unfold blk_lock, put_blk_lock; rewrite buf_at_put, decide_True by done; [done|].
  by rewrite put_buf_put_buf.
Qed.

(** ** The searches *)

(** A search returns the first buffer of the list that fits. *)
Lemma find_cached_Ok s dev n x l (fuel : nat) :
  seg (nxt s) (prv s) x l HEAD → HEAD ∉ l → (length l < fuel)%nat →
  find_cached dev n (nxt s x) fuel s =
    Ok (head (filter (λ i, b_dev (buf_at i s) = dev ∧ b_blockno (buf_at i s) = n) l)) s.
Proof.
  revert x fuel. induction l as [|a l IH]; intros x [|fuel] Hs Hh Hf; simpl in *; try lia.
  - destruct Hs as [-> _]. done.
  - destruct Hs as (->&_&Hs). rewrite elem_of_cons in Hh. rewrite (proj2 (Z.eqb_neq a HEAD)) by (intros ->; tauto).
    unfold rd, gets, mbind, M_bind; simpl. rewrite filter_cons.
    destruct (Z.eqb_spec (b_dev (buf_at a s)) dev), (Z.eqb_spec (b_blockno (buf_at a s)) n); simpl;
      (case_decide as Hd; [try (exfalso; tauto)|try (exfalso; tauto)]); [done|..];
      (apply IH; [done|tauto|lia]).
Qed.

Lemma find_unused_Ok s y l (fuel : nat) :
  seg (nxt s) (prv s) HEAD l y → HEAD ∉ l → (length l < fuel)%nat →
  find_unused (prv s y) fuel s = Ok (last (filter (λ i, b_refcnt (buf_at i s) = 0) l)) s.
Proof.
  revert y fuel. induction l as [|a l IH] using rev_ind; intros y [|fuel] Hs Hh Hf; try (rewrite ?length_app in Hf; simpl in Hf; lia).
  - simpl in Hs. destruct Hs as [_ ->]. done.
  - apply seg_app in Hs as [Hs [_ Hpa]]. rewrite Hpa. rewrite elem_of_app, list_elem_of_singleton in Hh.
    simpl. rewrite (proj2 (Z.eqb_neq a HEAD)) by (intros ->; tauto).
    unfold rd, gets, mbind, M_bind; simpl. rewrite filter_app, filter_cons, filter_nil.
    destruct (Z.eqb_spec (b_refcnt (buf_at a s)) 0) as [E|E].
    + rewrite decide_True by done. by rewrite last_snoc.
    + rewrite decide_False by done. rewrite app_nil_r. rewrite length_app in Hf. simpl in Hf. apply IH; [done|tauto|lia].
Qed.

(* ------------------------------------------------------------------ *)
(** ** The abstract cache *)

Definition inb (i : Z) : Prop := 0 ≤ i < NBUF.
Definition bufs : list Z := seqZ 0 NBUF.

(** The buffer that holds block [n]. *)
Definition loc (s : bstate) (n : Z) : option Z :=
  head (filter (λ i, b_dev (buf_at i s) = ROOTDEV ∧ b_blockno (buf_at i s) = n) bufs).
Definition has_blk (s : bstate) (i n : Z) : Prop :=
  inb i ∧ b_dev (buf_at i s) = ROOTDEV ∧ b_blockno (buf_at i s) = n.

Definition bview (s : bstate) (n : Z) : block :=
  match loc s n with Some i => b_data (buf_at i s) | None => d_blocks (bc_disk s) n end.
Definition brefs (s : bstate) (n : Z) : Z :=
  match loc s n with Some i => b_refcnt (buf_at i s) | None => 0 end.
Definition blive (s : bstate) : Z := length (filter (λ i, b_refcnt (buf_at i s) ≠ 0) bufs).
Definition bheld (s : bstate) (h : Z) : option Z :=
  if decide (inb h ∧ sl_locked (b_lock (buf_at h s)) = true) then Some (b_blockno (buf_at h s)) else None.

Definition babs (s : bstate) : cabs :=
  CAbs (bview s) (d_blocks (bc_disk s)) (d_trace (bc_disk s)) (brefs s) (blive s) (bheld s).

#[global] Instance inb_dec i : Decision (inb i).
Proof. unfold inb. apply _. Defined.

Section cache.
Variable pid : Z.

(** A buffer in the list between calls: unused since boot, or holding a block. *)
Record buf_ok (d : disk) (b : buf) : Prop := {
  bo_lk : sl_lk (b_lock b) = false;
  bo_locked : sl_locked (b_lock b) = true → sl_pid (b_lock b) = pid ∧ b_refcnt b ≠ 0;
  bo_ref : 0 ≤ b_refcnt b < 2 ^ 32;
  bo_dev : b_dev b = 0 ∧ b_refcnt b = 0 ∨ b_dev b = ROOTDEV ∧ b_valid b = true;
  bo_data : blk_ok (b_data b);
  bo_clean : b_dev b = ROOTDEV → b_refcnt b = 0 → b_data b = d_blocks d (b_blockno b)
}.

Record binv (s : bstate) (order : list Z) : Prop := {
  bi_ring : seg (nxt s) (prv s) HEAD order HEAD;
  bi_perm : order ≡ₚ bufs;
  bi_lock : bc_lock s = false;
  bi_buf : ∀ i, inb i → buf_ok (bc_disk s) (buf_at i s);
  bi_uniq : ∀ i j n, has_blk s i n → has_blk s j n → i = j;
  bi_disk : ∀ n, blk_ok (d_blocks (bc_disk s) n)
}.

Definition bcache_inv (s : bstate) : Prop := ∃ order, binv s order.

Lemma elem_of_bufs i : i ∈ bufs ↔ inb i.
Proof. unfold bufs, inb. rewrite elem_of_seqZ. lia. Qed.

Lemma loc_Some s order n i : binv s order → loc s n = Some i ↔ has_blk s i n.
Proof.
  intros Hi. unfold loc. split.
  - intros Hh. destruct (filter _ bufs) as [|j l] eqn:E; [done|]. injection Hh as ->.
    assert (Hin : i ∈ i :: l) by (apply elem_of_cons; auto). rewrite <- E, list_elem_of_filter, elem_of_bufs in Hin.
    unfold has_blk. tauto.
  - intros Hb. destruct (filter _ bufs) as [|j l] eqn:E.
    + assert (Hin : i ∈ @nil Z); [|by apply elem_of_nil in Hin]. rewrite <- E, list_elem_of_filter, elem_of_bufs.
      destruct Hb. tauto.
    + simpl. f_equal. eapply (bi_uniq _ _ Hi); [|exact Hb].
      assert (Hin : j ∈ j :: l) by (apply elem_of_cons; auto). rewrite <- E, list_elem_of_filter, elem_of_bufs in Hin.
      unfold has_blk. tauto.
Qed.

Lemma loc_None s n : loc s n = None ↔ ∀ i, ¬ has_blk s i n.
Proof.
  unfold loc, has_blk. destruct (filter _ bufs) as [|j l] eqn:E; simpl; (split; [intros H|]); try done.
  - intros i (Hi&Hd&Hn). assert (Hin : i ∈ @nil Z); [|by apply elem_of_nil in Hin].
    rewrite <- E, list_elem_of_filter, elem_of_bufs. tauto.
  - intros H. destruct (H j). assert (Hin : j ∈ j :: l) by (apply elem_of_cons; auto).
    rewrite <- E, list_elem_of_filter, elem_of_bufs in Hin. tauto.
Qed.

Lemma find_in_order s order n :
  binv s order →
  head (filter (λ i, b_dev (buf_at i s) = ROOTDEV ∧ b_blockno (buf_at i s) = n) order) = loc s n.
Proof.
  intros Hi. assert (Hin : ∀ i, i ∈ filter (λ i, b_dev (buf_at i s) = ROOTDEV ∧ b_blockno (buf_at i s) = n) order ↔ has_blk s i n).
  { intros i. rewrite list_elem_of_filter, (bi_perm _ _ Hi), elem_of_bufs. unfold has_blk. tauto. }
  destruct (filter _ order) as [|j l]; symmetry; simpl.
  - apply loc_None. intros i Hb%Hin. by apply elem_of_nil in Hb.
  - apply (loc_Some _ order); [done|]. apply Hin, elem_of_cons. auto.
Qed.

Lemma order_facts s order : binv s order → NoDup (HEAD :: order) ∧ length order = Z.to_nat NBUF.
Proof.
  intros Hi. pose proof (bi_perm _ _ Hi) as Hp. split; [|by rewrite Hp; unfold bufs; rewrite length_seqZ].
  apply NoDup_cons. split; [rewrite Hp, elem_of_bufs; unfold inb, HEAD; lia|]. rewrite Hp. apply NoDup_seqZ.
Qed.

(** ** Changing one buffer *)

(** Only the buffer [b] changes, apart from links. *)
Definition upd_core (b : Z) (x : buf) (s s' : bstate) : Prop :=
  core (buf_at b s') = core x ∧ ∀ i, inb i → i ≠ b → core (buf_at i s') = core (buf_at i s).

Lemma core_eq b b' : core b = core b' →
  b_valid b = b_valid b' ∧ b_dev b = b_dev b' ∧ b_blockno b = b_blockno b' ∧ b_lock b = b_lock b' ∧
  b_refcnt b = b_refcnt b' ∧ b_data b = b_data b'.
Proof. unfold core. intros E. simplify_eq. by split_and!. Qed.

Section upd.
Context (s s' : bstate) (order : list Z) (b : Z) (x : buf) (Hi : binv s order) (Hb : inb b) (Hu : upd_core b x s s').

Lemma upd_at i : inb i → core (buf_at i s') = core (if decide (i = b) then x else buf_at i s).
Proof using Hu. intros Hin. destruct Hu as [H1 H2]. case_decide; [by subst|by apply H2]. Qed.

(** The update keeps the tag of [b] ... *)
Lemma loc_same n :
  b_dev x = b_dev (buf_at b s) → b_blockno x = b_blockno (buf_at b s) → loc s' n = loc s n.
Proof using Hu.
  intros Hd Hn. unfold loc. f_equal. apply filter_ext_in. intros i Hin%elem_of_bufs.
  destruct (core_eq _ _ (upd_at i Hin)) as (_&->&->&_). case_decide; subst; by rewrite ?Hd, ?Hn.
Qed.

Lemma live_upd :
  blive s' = blive s + (if b_refcnt x =? 0 then 0 else 1) - (if b_refcnt (buf_at b s) =? 0 then 0 else 1).
Proof using Hb Hu.
  pose proof (count_upd (λ i, b_refcnt (buf_at i s) ≠ 0) (λ i, b_refcnt (buf_at i s') ≠ 0) bufs b
    (NoDup_seqZ _ _) (proj2 (elem_of_bufs b) Hb)) as Hc.
  destruct (core_eq _ _ (upd_at b Hb)) as (_&_&_&_&Hr&_). rewrite decide_True in Hr by done.
  cbv beta in Hc. fold (blive s') (blive s) in Hc. rewrite Hr in Hc.
  assert (Hx : ∀ i, i ∈ bufs → i ≠ b → b_refcnt (buf_at i s) ≠ 0 ↔ b_refcnt (buf_at i s') ≠ 0).
  { intros i Hin%elem_of_bufs Hne. destruct (core_eq _ _ (upd_at i Hin)) as (_&_&_&_&->&_). by rewrite decide_False. }
  specialize (Hc Hx). destruct (Z.eqb_spec (b_refcnt x) 0), (Z.eqb_spec (b_refcnt (buf_at b s)) 0);
    repeat case_decide; tauto || lia.
Qed.

Lemma held_upd h : bheld s' h =
  if decide (h = b) then (if sl_locked (b_lock x) then Some (b_blockno x) else None) else bheld s h.
Proof using Hb Hu.
  destruct Hu as [H1 H2]. unfold bheld. destruct (decide (h = b)) as [->|Hne].
  - apply core_eq in H1 as (_&_&->&->&_).
    destruct (sl_locked (b_lock x)); [rewrite decide_True by done|rewrite decide_False by (by intros [])]; done.
  - destruct (decide (inb h)) as [Hh|Hh]; [|by rewrite !decide_False by tauto].
    by destruct (core_eq _ _ (H2 h Hh Hne)) as (_&_&->&->&_).
Qed.

(** Abstract state when the tag is kept. *)
Lemma view_same n :
  b_dev x = b_dev (buf_at b s) → b_blockno x = b_blockno (buf_at b s) → b_dev x = ROOTDEV →
  d_blocks (bc_disk s') n = d_blocks (bc_disk s) n →
  bview s' n = if decide (n = b_blockno x) then b_data x else bview s n.
Proof using Hi Hb Hu.
  intros Hd Hn Hr Hdk. unfold bview. rewrite loc_same by done. case_decide as E.
  - assert (loc s n = Some b) as ->.
    { apply (loc_Some _ order); [done|]. subst. split_and!; congruence. }
    destruct (core_eq _ _ (upd_at b Hb)) as (_&_&_&_&_&->). by rewrite decide_True.
  - destruct (loc s n) as [i|] eqn:El; [|done]. apply (loc_Some _ order) in El as (Hin&_&Hin'); [|done].
    destruct (core_eq _ _ (upd_at i Hin)) as (_&_&_&_&_&->). rewrite decide_False; [done|]. intros ->. congruence.
Qed.

Lemma refs_same n :
  b_dev x = b_dev (buf_at b s) → b_blockno x = b_blockno (buf_at b s) → b_dev x = ROOTDEV →
  brefs s' n = if decide (n = b_blockno x) then b_refcnt x else brefs s n.
Proof using Hi Hb Hu.
  intros Hd Hn Hr. unfold brefs. rewrite loc_same by done. case_decide as E.
  - assert (loc s n = Some b) as ->.
    { apply (loc_Some _ order); [done|]. subst. split_and!; congruence. }
    destruct (core_eq _ _ (upd_at b Hb)) as (_&_&_&_&->&_). by rewrite decide_True.
  - destruct (loc s n) as [i|] eqn:El; [|done]. apply (loc_Some _ order) in El as (Hin&_&Hin'); [|done].
    destruct (core_eq _ _ (upd_at i Hin)) as (_&_&_&_&->&_). rewrite decide_False; [done|]. intros ->. congruence.
Qed.

(** The invariant, when the buffer's new contents are fine. *)
Lemma binv_upd order' :
  seg (nxt s') (prv s') HEAD order' HEAD → order' ≡ₚ order → bc_lock s' = false →
  buf_ok (bc_disk s') x →
  (∀ i, inb i → i ≠ b → buf_ok (bc_disk s') (buf_at i s)) → (∀ n, blk_ok (d_blocks (bc_disk s') n)) →
  (b_dev x = b_dev (buf_at b s) ∧ b_blockno x = b_blockno (buf_at b s) ∨ ∀ i, inb i → i ≠ b → ¬ has_blk s i (b_blockno x)) →
  binv s' order'.
Proof using Hi Hb Hu.
  intros Hring Hp Hlk Hx Hoth Hdk Htag. split; auto.
  - by rewrite Hp, (bi_perm _ _ Hi).
  - intros i Hin. pose proof (upd_at i Hin) as (E1&E2&E3&E4&E5&E6)%core_eq.
    destruct (decide (i = b)) as [->|]; [destruct Hx|destruct (Hoth i Hin ltac:(done))]; split; rewrite ?E1, ?E2, ?E3, ?E4, ?E5, ?E6; auto.
  - assert (Hbl : ∀ i n, has_blk s' i n → i = b ∧ b_dev x = ROOTDEV ∧ b_blockno x = n ∨ i ≠ b ∧ has_blk s i n).
    { intros i n (Hin&Hd&Hn). pose proof (upd_at i Hin) as (_&E2&E3&_)%core_eq. rewrite E2 in Hd. rewrite E3 in Hn.
      destruct (decide (i = b)) as [->|]; [auto|right]. by split. }
    intros i j n [(->&Hd1&Hn1)|[Hne1 H1]]%Hbl [(->&Hd2&Hn2)|[Hne2 H2]]%Hbl; auto; [| |by eapply (bi_uniq _ _ Hi)].
    + destruct Htag as [[Hd Hn]|Ht]; [eapply (bi_uniq _ _ Hi); [|exact H2]; split_and!; congruence|].
      subst n. by destruct (Ht j (proj1 H2) Hne2).
    + destruct Htag as [[Hd Hn]|Ht]; [eapply (bi_uniq _ _ Hi); [exact H1|]; split_and!; congruence|].
      subst n. by destruct (Ht i (proj1 H1) Hne1).
Qed.
End upd.

(** ** [bget] and [bread] *)

Lemma list_fuel_enough s order : binv s order → (length order < list_fuel)%nat ∧ HEAD ∉ order.
Proof.
  intros Hi. destruct (order_facts _ _ Hi) as [[Hn _]%NoDup_cons ->]. unfold list_fuel. split; [lia|done].
Qed.

Definition locked_buf (b : buf) : buf := set_block (SL true false pid) b.

Lemma acquirebuf_Ok b s :
  sl_locked (b_lock (buf_at b s)) = false → sl_lk (b_lock (buf_at b s)) = false →
  acquirebuf pid b s = Ok tt (put_buf b (locked_buf (buf_at b s)) s).
Proof. intros Hl Hk. apply acquiresleep_free; [apply _|exact Hl|exact Hk]. Qed.

Lemma unlock_put i x s : bc_lock s = false → set_bc_lock false (put_buf i x (set_bc_lock true s)) = put_buf i x s.
Proof. by destruct s as [[] ? ?]. Qed.

Lemma bget_cached s order n b :
  binv s order → loc s n = Some b → sl_locked (b_lock (buf_at b s)) = false →
  bget pid ROOTDEV n s = Ok b (put_buf b (locked_buf (set_refcnt (u32 (b_refcnt (buf_at b s) + 1)) (buf_at b s))) s).
Proof.
  intros Hi Hb Hl. destruct (list_fuel_enough _ _ Hi) as [Hf Hh].
  pose proof (proj1 (loc_Some _ _ _ _ Hi) Hb) as (Hin&_).
  unfold bget, acquire, release, mbind, M_bind, gets, modify. rewrite (bi_lock _ _ Hi). unfold rd, gets.
  set (s1 := set_bc_lock true s). change (b_next (buf_at HEAD s1)) with (nxt s1 HEAD).
  rewrite (find_cached_Ok s1 ROOTDEV n HEAD order list_fuel (bi_ring _ _ Hi) Hh Hf).
  change (filter _ order) with (filter (λ i, b_dev (buf_at i s) = ROOTDEV ∧ b_blockno (buf_at i s) = n) order).
  rewrite (find_in_order _ _ _ Hi), Hb. unfold upd, modify. cbv beta iota zeta.
  change (bc_lock (put_buf b _ s1)) with true. cbv iota. unfold s1. rewrite unlock_put by apply Hi.
  change (buf_at b (set_bc_lock true s)) with (buf_at b s).
  rewrite acquirebuf_Ok; rewrite buf_at_put, decide_True by done; [|done|apply (bi_buf _ _ Hi b Hin)].
  cbv beta iota. by rewrite put_buf_put_buf.
Qed.

(** A miss recycles the least recently used buffer that nobody references. *)
Lemma bget_miss s order n :
  binv s order → loc s n = None →
  bget pid ROOTDEV n s =
    match last (filter (λ i, b_refcnt (buf_at i s) = 0) order) with
    | Some b => Ok b (put_buf b (locked_buf (set_refcnt 1 (set_valid false (set_tag ROOTDEV n (buf_at b s))))) s)
    | None => Panic "bget: no buffers"
    end.
Proof.
  intros Hi Hb. destruct (list_fuel_enough _ _ Hi) as [Hf Hh].
  set (v := last (filter _ order)).
  unfold bget, acquire, release, mbind, M_bind, gets, modify. rewrite (bi_lock _ _ Hi). unfold rd, gets.
  set (s1 := set_bc_lock true s). change (b_next (buf_at HEAD s1)) with (nxt s1 HEAD).
  rewrite (find_cached_Ok s1 ROOTDEV n HEAD order list_fuel (bi_ring _ _ Hi) Hh Hf).
  change (filter _ order) with (filter (λ i, b_dev (buf_at i s) = ROOTDEV ∧ b_blockno (buf_at i s) = n) order).
  rewrite (find_in_order _ _ _ Hi), Hb. cbv beta iota zeta. change (b_prev (buf_at HEAD s1)) with (prv s1 HEAD).
  rewrite (find_unused_Ok s1 HEAD order list_fuel (bi_ring _ _ Hi) Hh Hf).
  change (last (filter _ order)) with v. destruct v as [b|] eqn:Eb; [|done].
  pose proof (last_Some_elem_of _ _ Eb) as Hbin. rewrite list_elem_of_filter, (bi_perm _ _ Hi), elem_of_bufs in Hbin.
  destruct Hbin as [Hr Hin].
  unfold upd, modify. cbv beta iota zeta. rewrite !buf_at_put, !decide_True, !put_buf_put_buf by done.
  change (bc_lock (put_buf b _ s1)) with true. cbv iota. unfold s1. rewrite unlock_put by apply Hi.
  change (buf_at b (set_bc_lock true s)) with (buf_at b s). pose proof (bi_buf _ _ Hi b Hin) as Hok.
  rewrite acquirebuf_Ok; rewrite buf_at_put, decide_True by done.
  - cbv beta iota. by rewrite put_buf_put_buf.
  - simpl. destruct (sl_locked (b_lock (buf_at b s))) eqn:El; [|done]. by apply (bo_locked _ _ Hok) in El as [_ ?].
  - apply Hok.
Qed.

Lemma no_unused s order :
  binv s order → last (filter (λ i, b_refcnt (buf_at i s) = 0) order) = None ↔ blive s = NBUF.
Proof.
  intros Hi. rewrite last_None. unfold blive. split.
  - intros Eb. rewrite filter_all; [unfold bufs; by rewrite length_seqZ|].
    intros i Hin E. rewrite <- (bi_perm _ _ Hi) in Hin.
    assert (i ∈ filter (λ i, b_refcnt (buf_at i s) = 0) order) as Hx by (by apply list_elem_of_filter).
    rewrite Eb in Hx. by apply elem_of_nil in Hx.
  - intros E. destruct (filter _ order) as [|i l] eqn:Ei; [done|]. exfalso.
    assert (i ∈ filter (λ i, b_refcnt (buf_at i s) = 0) order) as Hx by (rewrite Ei; left).
    rewrite list_elem_of_filter, (bi_perm _ _ Hi) in Hx. destruct Hx as [Hr Hin].
    match type of E with Z.of_nat (length ?f) = _ => assert (length f < length bufs)%nat as Hlt end.
    { eapply length_filter_lt; [exact Hin|]. intros Hn. by apply Hn. }
    assert (length bufs = 30)%nat as Hb by (unfold bufs; by rewrite length_seqZ). change NBUF with 30 in E. lia.
Qed.

Lemma bget_fresh s order n :
  binv s order → loc s n = None → blive s < NBUF →
  ∃ b, inb b ∧ b_refcnt (buf_at b s) = 0 ∧
    bget pid ROOTDEV n s = Ok b (put_buf b (locked_buf (set_refcnt 1 (set_valid false (set_tag ROOTDEV n (buf_at b s))))) s).
Proof.
  intros Hi Hb Hl. rewrite (bget_miss _ _ _ Hi Hb).
  destruct (last _) as [b|] eqn:Eb; [|apply (no_unused _ _ Hi) in Eb; lia].
  apply last_Some_elem_of in Eb. rewrite list_elem_of_filter, (bi_perm _ _ Hi), elem_of_bufs in Eb.
  exists b. tauto.
Qed.

Lemma upd_core_put b x s : upd_core b x s (put_buf b x s).
Proof. split; [by rewrite buf_at_put, decide_True|]. intros i _ Hne. by rewrite buf_at_put, decide_False. Qed.

(** Rewriting a buffer in place keeps the list. *)
Lemma ring_put b x s order :
  b_next x = nxt s b → b_prev x = prv s b → seg (nxt s) (prv s) HEAD order HEAD →
  seg (nxt (put_buf b x s)) (prv (put_buf b x s)) HEAD order HEAD.
Proof.
  intros Hn Hp. apply seg_ext; intros i _; unfold nxt, prv in *; rewrite buf_at_put; case_decide; by subst.
Qed.

Lemma has_blk_valid s order i n : binv s order → has_blk s i n → b_valid (buf_at i s) = true.
Proof. intros Hi (Hin&Hd&_). destruct (bo_dev _ _ (bi_buf _ _ Hi i Hin)) as [[E _]|[_ ?]]; [|done]. by rewrite Hd in E. Qed.

Lemma bread_cached s order n b :
  binv s order → can_read n (babs s) → loc s n = Some b →
  wp (bread pid ROOTDEV n) (λ h s', bcache_inv s' ∧ a_held (babs s) h = None ∧ babs s' ≡ a_read h n (babs s)) s.
Proof.
  intros Hi (Hnh&_&Hmax) Hb. pose proof (proj1 (loc_Some _ _ _ _ Hi) Hb) as Hbn. pose proof Hbn as (Hin&Hd&Hn).
  pose proof (bi_buf _ _ Hi b Hin) as Hok. assert (Hr : brefs s n = b_refcnt (buf_at b s)) by (unfold brefs; by rewrite Hb).
  simpl in Hmax. rewrite Hr in Hmax. pose proof (bo_ref _ _ Hok).
  assert (Hl : sl_locked (b_lock (buf_at b s)) = false).
  { destruct (sl_locked _) eqn:El; [|done]. specialize (Hnh b). simpl in Hnh. unfold bheld in Hnh.
    rewrite decide_True in Hnh by done. by rewrite Hn in Hnh. }
  unfold bread. wp_step. eapply wp_intro; [by eapply bget_cached|]. rewrite wrap_small by lia.
  set (x := locked_buf _). wp_step. unfold rd. apply wp_gets. rewrite buf_at_put, decide_True by done. simpl.
  rewrite (has_blk_valid _ _ _ _ Hi Hbn). simpl. wp_step. wp_step.
  assert (Hu : upd_core b x s (put_buf b x s)) by apply upd_core_put.
  split; [|split].
  - exists order. eapply binv_upd; [exact Hi|exact Hin|exact Hu|..]; auto.
    + apply ring_put; auto. apply Hi.
    + apply Hi.
    + destruct Hok. split; simpl; [done|split; [done|lia]|lia|right; split; [done|by eapply has_blk_valid]|done|lia].
    + intros i Hii _. apply (bi_buf _ _ Hi i Hii).
    + apply Hi.
  - simpl. unfold bheld. rewrite decide_False; [done|]. rewrite Hl. by intros [].
  - split_and!; simpl.
    + intros m. rewrite (view_same s _ order b x Hi Hin Hu); auto. simpl. rewrite Hn. case_decide as E; [subst|done].
      unfold bview. by rewrite Hb.
    + done.
    + done.
    + intros m. rewrite (refs_same s _ order b x Hi Hin Hu); auto. simpl. rewrite Hn. unfold insert, fn_insert.
      repeat case_decide; subst; try done. by rewrite Hr.
    + rewrite (live_upd s _ b x Hin Hu). simpl. rewrite Hr. rewrite (proj2 (Z.eqb_neq (_ + 1) 0)) by lia. case_match; lia.
    + intros h. rewrite (held_upd s _ b x Hin Hu). simpl. rewrite Hn. unfold insert, fn_insert. repeat case_decide; congruence.
Qed.

(** Recycling the unused buffer [b] for block [n]. *)
Section retag.
Context (s : bstate) (order : list Z) (n b : Z) (x : buf).
Context (Hi : binv s order) (Hin : inb b) (Hr0 : b_refcnt (buf_at b s) = 0) (Hno : loc s n = None).
Context (Hxd : b_dev x = ROOTDEV) (Hxn : b_blockno x = n) (Hxr : b_refcnt x = 1) (Hxv : b_valid x = true).
Context (Hxl : b_lock x = SL true false pid) (Hxda : b_data x = d_blocks (bc_disk s) n).
Context (Hxnx : b_next x = nxt s b) (Hxpv : b_prev x = prv s b).
Let s' := put_buf b x s.

Lemma retag_inv : binv s' order.
Proof using All.
  assert (Hu : upd_core b x s s') by apply upd_core_put.
  eapply binv_upd; [exact Hi|exact Hin|exact Hu|..]; auto.
  - apply ring_put; auto. apply Hi.
  - apply Hi.
  - split; rewrite ?Hxl, ?Hxr, ?Hxd, ?Hxda; simpl; auto; try lia. apply Hi.
  - intros i Hii _. apply (bi_buf _ _ Hi i Hii).
  - apply Hi.
  - right. intros i Hii Hne. rewrite Hxn. by apply loc_None.
Qed.

Lemma retag_loc m : loc s' m = if decide (m = n) then Some b
  else match loc s m with Some i => if decide (i = b) then None else Some i | None => None end.
Proof using All.
  pose proof retag_inv as Hi'. assert (Hbl : ∀ i, has_blk s' i m ↔ (i = b ∧ m = n) ∨ (i ≠ b ∧ has_blk s i m)).
  { intros i. unfold has_blk, s'. rewrite !buf_at_put. case_decide; subst; naive_solver. }
  case_decide as E; [apply (loc_Some _ order); [done|]; apply Hbl; auto|].
  destruct (loc s m) as [i|] eqn:El.
  - pose proof (proj1 (loc_Some _ _ _ _ Hi) El) as Hb. case_decide as Ei.
    + apply loc_None. intros j [[? ?]|[Hne Hj]]%Hbl; [done|]. apply Hne. subst. by eapply (bi_uniq _ _ Hi).
    + apply (loc_Some _ order); [done|]. apply Hbl. auto.
  - apply loc_None. intros j [[? ?]|[Hne Hj]]%Hbl; [done|]. eapply loc_None; [exact El|exact Hj].
Qed.

Lemma retag_abs : babs s' ≡ a_read b n (babs s).
Proof using All.
  assert (Hu : upd_core b x s s') by apply upd_core_put.
  assert (Hold : ∀ m, loc s m = Some b → b_data (buf_at b s) = d_blocks (bc_disk s) m).
  { intros m (_&Hd&Hm)%(loc_Some _ order); [|done]. rewrite (bo_clean _ _ (bi_buf _ _ Hi b Hin)) by done. by rewrite Hm. }
  split_and!; simpl.
  - intros m. unfold bview. rewrite retag_loc. case_decide as E.
    + subst m. rewrite Hno. unfold s'. by rewrite buf_at_put, decide_True.
    + destruct (loc s m) as [i|] eqn:El; [|done]. case_decide as Ei.
      * subst i. by rewrite (Hold m).
      * unfold s'. by rewrite buf_at_put, decide_False.
  - done.
  - done.
  - intros m. unfold brefs. rewrite retag_loc, Hno. unfold insert, fn_insert. repeat case_decide; subst; try done.
    + unfold s'. by rewrite buf_at_put, decide_True.
    + destruct (loc s m) as [i|] eqn:El; [|done]. case_decide as Ei; [by subst|].
      unfold s'. by rewrite buf_at_put, decide_False.
  - rewrite (live_upd s _ b x Hin Hu). rewrite Hxr, Hr0. unfold brefs. rewrite Hno. simpl. lia.
  - intros h. rewrite (held_upd s _ b x Hin Hu). rewrite Hxl, Hxn. simpl. unfold insert, fn_insert. repeat case_decide; congruence.
Qed.
End retag.

Lemma bread_spec s n :
  bcache_inv s → can_read n (babs s) →
  wp (bread pid ROOTDEV n) (λ h s', bcache_inv s' ∧ a_held (babs s) h = None ∧ babs s' ≡ a_read h n (babs s)) s.
Proof.
  intros [order Hi] Hc. destruct (loc s n) as [b|] eqn:Hb; [by eapply bread_cached|].
  pose proof Hc as (_&Hroom&_). simpl in Hroom. unfold brefs in Hroom. rewrite Hb in Hroom.
  destruct (bget_fresh s order n Hi Hb) as (b&Hin&Hr0&Hg); [destruct Hroom; lia|].
  pose proof (bi_buf _ _ Hi b Hin) as Hok.
  unfold bread. wp_step. eapply wp_intro; [exact Hg|]. set (x1 := locked_buf _).
  wp_step. unfold rd. apply wp_gets. rewrite buf_at_put, decide_True by done. simpl.
  wp_step. wp_step. unfold virtio_disk_rw, rd, upd. wp_step. apply wp_gets. wp_step. apply wp_gets. wp_step. wp_step.
  rewrite !buf_at_put, !decide_True, !put_buf_put_buf by done. simpl.
  wp_step. set (x := set_valid true _).
  assert (Hhl : sl_locked (b_lock (buf_at b s)) = false).
  { destruct (sl_locked _) eqn:El; [|done]. by apply (bo_locked _ _ Hok) in El as [_ ?]. }
  split; [exists order; eapply (retag_inv s order n b x); auto|]. split; [|eapply (retag_abs s order n b x); eauto].
  unfold bheld. rewrite decide_False; [done|]. rewrite Hhl. by intros [].
Qed.

(** ** [brelse] *)

(** Moving [b] to the front of the list. *)
Lemma relink_wp s l1 b l2 (Q : unit → bstate → Prop) :
  seg (nxt s) (prv s) HEAD (l1 ++ b :: l2) HEAD → NoDup (HEAD :: l1 ++ b :: l2) →
  (∀ s', seg (nxt s') (prv s') HEAD (b :: l1 ++ l2) HEAD → (∀ i, core (buf_at i s') = core (buf_at i s)) →
         bc_lock s' = bc_lock s → bc_disk s' = bc_disk s → Q tt s') →
  wp (nx ← rd b_next b; pv ← rd b_prev b; upd nx (set_prev pv) ;;
      pv ← rd b_prev b; nx ← rd b_next b; upd pv (set_next nx) ;;
      first ← rd b_next HEAD; upd b (set_next first) ;;
      upd b (set_prev HEAD) ;;
      first ← rd b_next HEAD; upd first (set_prev b) ;;
      upd HEAD (set_next b)) Q s.
Proof.
  intros Hs Hnd HQ. pose proof Hs as [_ H2]%seg_app. pose proof (seg_head _ _ _ _ _ H2) as Hr.
  pose proof Hnd as [Hh Hnd']%NoDup_cons. pose proof Hnd' as (_&Hd&[Hb _]%NoDup_cons)%NoDup_app.
  rewrite elem_of_app, elem_of_cons in Hh.
  assert (Hbn : nxt s b ≠ b).
  { rewrite Hr. destruct l2 as [|c l2]; simpl; [intros E; tauto|]. intros ->. apply Hb, elem_of_cons. auto. }
  unfold rd, upd. do 2 (wp_step; apply wp_gets). wp_step. wp_step.
  set (s1 := put_buf _ _ s). do 2 (wp_step; apply wp_gets). wp_step. wp_step.
  assert (Hn1 : ∀ i, nxt s1 i = nxt s i) by apply nxt_set_prev.
  assert (Hp1 : ∀ i, prv s1 i = if decide (i = nxt s b) then prv s b else prv s i) by apply prv_set_prev.
  assert (Hc1 : ∀ i, core (buf_at i s1) = core (buf_at i s)) by apply core_set_prev.
  change (b_prev (buf_at b s1)) with (prv s1 b). change (b_next (buf_at b s1)) with (nxt s1 b).
  rewrite (Hn1 b), (Hp1 b), decide_False by done. set (s2 := put_buf _ _ s1).
  assert (Hn2 : ∀ i, nxt s2 i = if decide (i = prv s b) then nxt s b else nxt s i).
  { intros i. unfold s2. rewrite nxt_set_next. by rewrite Hn1. }
  assert (Hp2 : ∀ i, prv s2 i = if decide (i = nxt s b) then prv s b else prv s i).
  { intros i. unfold s2. rewrite prv_set_next. apply Hp1. }
  assert (Hc2 : ∀ i, core (buf_at i s2) = core (buf_at i s)).
  { intros i. unfold s2. rewrite core_set_next. apply Hc1. }
  pose proof (seg_unlink _ _ _ _ _ _ _ _ Hs Hnd Hn2 Hp2) as Hs2.
  wp_step. apply wp_gets. wp_step. wp_step. change (b_next (buf_at HEAD s2)) with (nxt s2 HEAD).
  set (s3 := put_buf _ _ s2). wp_step. wp_step. set (s4 := put_buf _ _ s3). wp_step. apply wp_gets. wp_step. wp_step.
  change (b_next (buf_at HEAD s4)) with (nxt s4 HEAD).
  assert (Hn4 : ∀ i, nxt s4 i = if decide (i = b) then nxt s2 HEAD else nxt s2 i).
  { intros i. unfold s4. rewrite nxt_set_prev. apply nxt_set_next. }
  assert (Hp4 : ∀ i, prv s4 i = if decide (i = b) then HEAD else prv s2 i).
  { intros i. unfold s4. rewrite prv_set_prev. case_decide; [done|]. apply prv_set_next. }
  assert (Hc4 : ∀ i, core (buf_at i s4) = core (buf_at i s)).
  { intros i. unfold s4. rewrite core_set_prev. unfold s3. rewrite core_set_next. apply Hc2. }
  rewrite (Hn4 HEAD), decide_False by (intros E; rewrite E in Hh; tauto).
  set (s5 := put_buf _ _ s4). apply wp_modify. set (s6 := put_buf _ _ s5). apply (HQ s6); [|..|done|done].
  - eapply (seg_link (nxt s2) (prv s2)); [exact Hs2| | | |].
    + rewrite elem_of_cons, elem_of_app. intros [E|[Hx|Hx]]; [subst; tauto| |done].
      apply (Hd b Hx). apply elem_of_cons. auto.
    + rewrite <- Permutation_middle in Hnd. apply NoDup_cons in Hnd as [Hh' [_ Hnd2]%NoDup_cons].
      apply NoDup_cons. split; [|done]. intros Hx. apply Hh', elem_of_cons. auto.
    + intros i. unfold s6. rewrite nxt_set_next. case_decide; [done|]. unfold s5. rewrite nxt_set_prev. apply Hn4.
    + intros i. unfold s6. rewrite prv_set_next. unfold s5. rewrite prv_set_prev. case_decide; [done|]. apply Hp4.
  - intros i. unfold s6. rewrite core_set_next. unfold s5. rewrite core_set_prev. apply Hc4.
Qed.

(** The handle's buffer. *)
Lemma held_inv s order h n :
  binv s order → bheld s h = Some n →
  inb h ∧ has_blk s h n ∧ loc s n = Some h ∧ sl_locked (b_lock (buf_at h s)) = true ∧
  sl_pid (b_lock (buf_at h s)) = pid ∧ sl_lk (b_lock (buf_at h s)) = false ∧ 1 ≤ b_refcnt (buf_at h s) < 2 ^ 32 ∧
  b_valid (buf_at h s) = true ∧ brefs s n = b_refcnt (buf_at h s) ∧ bview s n = b_data (buf_at h s).
Proof.
  intros Hi Hh. unfold bheld in Hh. case_decide as Hd; [|done]. destruct Hd as [Hin Hl]. injection Hh as Hn.
  destruct (bi_buf _ _ Hi h Hin) as [Hk Hlk Hr Hdv Hda Hcl]. destruct (Hlk Hl) as [Hp Hr0].
  assert (Hb : has_blk s h n) by (destruct Hdv as [[_ ?]|[? _]]; [lia|by split_and!]).
  assert (Hloc : loc s n = Some h) by (by apply (loc_Some _ order)).
  pose proof (has_blk_valid _ _ _ _ Hi Hb). unfold brefs, bview. rewrite Hloc. split_and!; auto; lia.
Qed.

Lemma holdingbuf_Ok s order h n :
  binv s order → bheld s h = Some n → holdingbuf pid h s = Ok true (put_buf h (buf_at h s) s).
Proof.
  intros Hi Hh. destruct (held_inv _ _ _ _ Hi Hh) as (_&_&_&Hl&Hp&Hk&_).
  unfold holdingbuf. rewrite holdingsleep_Ok; [|apply _|exact Hk]. unfold blk_lock, put_blk_lock. rewrite Hl, Hp, Z.eqb_refl. simpl.
  do 2 f_equal. destruct (buf_at h s) as [? ? ? ? [? ? ?] ? ? ? ?]; simpl in *. by subst.
Qed.

(** Dropping a reference: the abstract state after the buffer [h] lost its
    lock and a reference, and perhaps moved in the list. *)
Lemma unref_spec s order h n s' order' (unlock : bool) :
  binv s order → bheld s h = Some n →
  let lk := if unlock then SL false false 0 else b_lock (buf_at h s) in
  let x := set_refcnt (b_refcnt (buf_at h s) - 1) (set_block lk (buf_at h s)) in
  upd_core h x s s' → seg (nxt s') (prv s') HEAD order' HEAD → order' ≡ₚ order →
  bc_lock s' = false → bc_disk s' = bc_disk s →
  (b_refcnt x ≠ 0 ∨ unlock = true ∧ b_data (buf_at h s) = d_blocks (bc_disk s) n) →
  binv s' order' ∧ babs s' ≡ a_unref n (if unlock then a_unlock h (babs s) else babs s).
Proof.
  intros Hi Hh lk x Hu Hs Hp Hlk Hdk Hcl.
  destruct (held_inv _ _ _ _ Hi Hh) as (Hin&Hb&Hloc&Hl&Hpid&Hk&Hr&Hv&Hrefs&Hview).
  pose proof Hb as (_&Hd&Hn). pose proof (bi_buf _ _ Hi h Hin) as Hok. split.
  - eapply (binv_upd s s' order h x); eauto; rewrite ?Hdk; try apply Hi.
    + destruct Hok. split; simpl; auto.
      * unfold lk. by destruct unlock.
      * unfold lk. destruct unlock; [done|]. intros Hlo. split; [done|]. destruct Hcl as [?|[? _]]; done.
      * lia.
      * intros _ Hr0. rewrite Hn. destruct Hcl as [Hne|[_ ?]]; [by destruct Hne|done].
    + intros i Hii _. apply (bi_buf _ _ Hi i Hii).
  - assert (Hab : ∀ m, bview s' m = bview s m ∧ brefs s' m = (if decide (m = n) then brefs s n - 1 else brefs s m)).
    { intros m. rewrite (view_same s s' order h x Hi Hin Hu), (refs_same s s' order h x Hi Hin Hu) by (done || by rewrite Hdk).
      simpl. rewrite Hn, Hrefs. repeat case_decide; subst; auto. }
    unfold lk in x. destruct unlock; split_and!; simpl; intros; rewrite ?Hdk; auto; try apply Hab;
      try (rewrite (proj2 (Hab _)); unfold insert, fn_insert; repeat case_decide; subst; congruence || done);
      try (rewrite (live_upd s s' h x Hin Hu); simpl; rewrite Hrefs;
           destruct (Z.eqb_spec (b_refcnt (buf_at h s)) 1), (Z.eqb_spec (b_refcnt (buf_at h s)) 0),
             (Z.eqb_spec (b_refcnt (buf_at h s) - 1) 0); lia).
    + rewrite (held_upd s s' h x Hin Hu). unfold insert, fn_insert. simpl. repeat case_decide; congruence.
    + rewrite (held_upd s s' h x Hin Hu). simpl. rewrite Hl, Hn. case_decide; [by subst|done].
Qed.

Lemma brelse_order s order h n :
  binv s order → a_held (babs s) h = Some n → can_relse n (babs s) →
  wp (brelse pid h) (λ _ s', (∃ l1 l2, order = l1 ++ h :: l2 ∧
      binv s' (if brefs s n =? 1 then h :: l1 ++ l2 else order)) ∧
    upd_core h (set_refcnt (b_refcnt (buf_at h s) - 1) (set_block (SL false false 0) (buf_at h s))) s s' ∧
    babs s' ≡ a_unref n (a_unlock h (babs s))) s.
Proof.
  intros Hi Hh Hc. destruct (held_inv _ _ _ _ Hi Hh) as (Hin&Hb&Hloc&Hl&Hp&Hk&Hr&Hv&Hrefs&Hview).
  pose proof Hb as (_&Hd&Hn). pose proof (bi_buf _ _ Hi h Hin) as Hok.
  assert (Hho : h ∈ order) by (rewrite (bi_perm _ _ Hi); by apply elem_of_bufs).
  apply list_elem_of_split in Hho as (l1&l2&Ho).
  unfold brelse. wp_step. eapply wp_intro; [by eapply holdingbuf_Ok|]. simpl.
  wp_step. unfold releasebuf. eapply wp_intro.
  { apply releasesleep_Ok; [apply _|]. unfold blk_lock. rewrite buf_at_put, decide_True by done. exact Hk. }
  unfold put_blk_lock. rewrite buf_at_put, decide_True, put_buf_put_buf by done.
  apply wp_bind, wp_acquire; [apply Hi|]. cbv beta. wp_step. unfold upd at 1. wp_step. wp_step. unfold rd at 1. apply wp_gets.
  set (x := set_refcnt (b_refcnt (buf_at h s) - 1) (set_block (SL false false 0) (buf_at h s))).
  set (s1 := put_buf h x (set_bc_lock true s)).
  match goal with |- context [put_buf h (set_refcnt ?a ?b) ?t] =>
    replace (put_buf h (set_refcnt a b) t) with s1 end; last first.
  { change (set_bc_lock true (put_buf h ?y s)) with (put_buf h y (set_bc_lock true s)).
    rewrite buf_at_put, decide_True, put_buf_put_buf by done. simpl. rewrite wrap_small by lia. done. }
  assert (Hx1 : buf_at h s1 = x) by (unfold s1; by rewrite buf_at_put, decide_True).
  assert (Hu1 : upd_core h x s s1).
  { split; [by rewrite Hx1|]. intros i _ Hne. unfold s1. by rewrite buf_at_put, decide_False. }
  rewrite Hx1. wp_step. simpl (b_refcnt x). destruct (Z.eqb_spec (b_refcnt (buf_at h s) - 1) 0) as [E|E].
  - (* last reference *)
    destruct (order_facts _ _ Hi) as [Hnd _]. rewrite Ho in Hnd. apply (relink_wp s1 l1 h l2); [|done|].
    { rewrite <- Ho. apply (ring_put h x (set_bc_lock true s)); [done..|apply Hi]. }
    intros s2 Hs2 Hc2 Hl2 Hd2. apply wp_release; [by rewrite Hl2|].
    assert (Hu2 : upd_core h x s (set_bc_lock false s2)).
    { destruct Hu1 as [H1 H2]. split; [etrans; [apply Hc2|exact H1]|].
      intros i Hii Hne. etrans; [apply Hc2|by apply H2]. }
    destruct (unref_spec s order h n (set_bc_lock false s2) (h :: l1 ++ l2) true) as [Hi' E']; auto; last first.
    { split; [|by split]. exists l1, l2. split; [done|]. rewrite Hrefs, (proj2 (Z.eqb_eq _ 1)) by lia. exact Hi'. }
    + right. simpl. unfold can_relse in Hc. simpl in Hc. rewrite Hrefs, Hview in Hc. destruct Hc; [lia|done].
    + rewrite Ho. by rewrite <- Permutation_middle.
  - apply wp_ret, wp_release; [done|]. unfold s1. rewrite unlock_put by apply Hi.
    destruct (unref_spec s order h n (put_buf h x s) order true) as [Hi' E'];
      [done|done|apply upd_core_put|apply ring_put; [done..|apply Hi]|done|apply Hi|done|by left|].
    split; [|split; [apply upd_core_put|exact E']]. exists l1, l2. split; [done|]. rewrite Hrefs, (proj2 (Z.eqb_neq _ 1)) by lia. exact Hi'.
Qed.

Lemma brelse_spec s h n :
  bcache_inv s → a_held (babs s) h = Some n → can_relse n (babs s) →
  wp (brelse pid h) (λ _ s', bcache_inv s' ∧ babs s' ≡ a_unref n (a_unlock h (babs s))) s.
Proof.
  intros [order Hi] Hh Hc. wp_use brelse_order; eauto. intros _ s' ((l1&l2&_&Hi')&_&E'). split; [by eexists|done].
Qed.

(** ** The other operations *)

(** Rewriting a held buffer in place, with its tag, lock and links. *)
Lemma in_place s order h n x d :
  binv s order → bheld s h = Some n →
  b_dev x = b_dev (buf_at h s) → b_blockno x = n → b_lock x = b_lock (buf_at h s) → b_valid x = true →
  b_next x = nxt s h → b_prev x = prv s h → 1 ≤ b_refcnt x < 2 ^ 32 → blk_ok (b_data x) →
  (∀ m, m ≠ n → d_blocks d m = d_blocks (bc_disk s) m) → blk_ok (d_blocks d n) →
  let s' := put_disk d (put_buf h x s) in
  bcache_inv s' ∧ (∀ m, bview s' m = if decide (m = n) then b_data x else bview s m) ∧
  (∀ m, brefs s' m = if decide (m = n) then b_refcnt x else brefs s m) ∧ blive s' = blive s ∧
  (∀ h', bheld s' h' = bheld s h').
Proof.
  intros Hi Hh Hxd Hxn Hxl Hxv Hxnx Hxpv Hxr Hxda Hd Hdn s'.
  destruct (held_inv _ _ _ _ Hi Hh) as (Hin&Hb&Hloc&Hl&Hpid&Hk&Hr&Hv&Hrefs&Hview). pose proof Hb as (_&Hdv&Hn).
  assert (Hu : upd_core h x s s').
  { destruct (upd_core_put h x s) as [H1 H2]. split; [exact H1|exact H2]. }
  assert (Hxn' : b_blockno x = b_blockno (buf_at h s)) by congruence.
  assert (Hvd : ∀ m, bview s' m = if decide (m = n) then b_data x else bview s m).
  { intros m. destruct (decide (m = n)) as [->|Hne].
    - unfold bview. rewrite (loc_same s s' h x Hu) by done. rewrite Hloc. unfold s', put_disk.
      change (buf_at h _) with (buf_at h (put_buf h x s)). by rewrite buf_at_put, decide_True.
    - rewrite (view_same s s' order h x Hi Hin Hu m Hxd Hxn' ltac:(congruence) (Hd m Hne)).
      by rewrite decide_False by congruence. }
  split_and!; auto.
  - exists order. eapply (binv_upd s s' order h x); eauto.
    + apply (ring_put h x s); auto. apply Hi.
    + apply Hi.
    + split; rewrite ?Hxl; auto; [intros _; split; [done|lia]|lia|right; split; [congruence|done]|lia].
    + intros i Hii Hne. destruct (bi_buf _ _ Hi i Hii) as [H1 H2 H3 H4 H5 H6]. split; auto.
      intros Hdi Hri. simpl. rewrite Hd; [by apply H6|]. intros E. apply Hne. eapply (bi_uniq _ _ Hi); [|exact Hb].
      by split_and!.
    + intros m. simpl. destruct (decide (m = n)) as [->|]; [done|]. rewrite Hd by done. apply Hi.
  - intros m. rewrite (refs_same s s' order h x Hi Hin Hu m Hxd Hxn' ltac:(congruence)). by rewrite Hxn.
  - rewrite (live_upd s s' h x Hin Hu). rewrite !(proj2 (Z.eqb_neq _ 0)) by lia. lia.
  - intros h'. rewrite (held_upd s s' h x Hin Hu). case_decide; [subst h'|done]. rewrite Hxl, Hl. by rewrite Hh, Hxn.
Qed.

Lemma set_bdata_spec s h n d :
  bcache_inv s → a_held (babs s) h = Some n → blk_ok d →
  let s' := put_buf h (set_data d (buf_at h s)) s in bcache_inv s' ∧ babs s' ≡ a_set n d (babs s).
Proof.
  intros [order Hi] Hh Hd s'. destruct (held_inv _ _ _ _ Hi Hh) as (Hin&(_&Hdv&Hn)&Hloc&Hl&Hpid&Hk&Hr&Hv&Hrefs&Hview).
  destruct (in_place s order h n (set_data d (buf_at h s)) (bc_disk s)) as (H1&H2&H3&H4&H5); auto; [apply Hi|].
  change (put_disk (bc_disk s) (put_buf h (set_data d (buf_at h s)) s)) with s' in *. split; [done|].
  split_and!; simpl; auto.
  - intros m. rewrite H2. unfold insert, fn_insert. simpl. repeat case_decide; congruence.
  - intros m. rewrite H3. case_decide; [subst m; by rewrite Hrefs|done].
Qed.

Lemma bwrite_spec s h n :
  bcache_inv s → a_held (babs s) h = Some n →
  wp (bwrite pid h) (λ _ s', bcache_inv s' ∧ babs s' ≡ a_write n (babs s)) s.
Proof.
  intros [order Hi] Hh. destruct (held_inv _ _ _ _ Hi Hh) as (Hin&(_&Hdv&Hn)&Hloc&Hl&Hpid&Hk&Hr&Hv&Hrefs&Hview).
  pose proof (bo_data _ _ (bi_buf _ _ Hi h Hin)) as Hok.
  unfold bwrite. wp_step. eapply wp_intro; [by eapply holdingbuf_Ok|]. simpl. unfold virtio_disk_rw, rd.
  wp_step. apply wp_gets. wp_step. apply wp_gets. apply wp_modify. rewrite buf_at_put, decide_True, Hn by done. simpl.
  destruct (in_place s order h n (buf_at h s) (disk_write (bc_disk s) n (b_data (buf_at h s)))) as (H1&H2&H3&H4&H5); auto.
  { intros m Hm. simpl. by rewrite fn_lookup_insert_ne. } { simpl. by rewrite fn_lookup_insert. }
  split; [exact H1|]. split_and!; simpl; auto.
  - intros m. rewrite H2. case_decide; [subst m; by rewrite Hview|done].
  - intros m. by rewrite Hview.
  - by rewrite Hview.
  - intros m. rewrite H3. case_decide; [subst m; by rewrite Hrefs|done].
Qed.

Lemma bpin_spec s h n :
  bcache_inv s → a_held (babs s) h = Some n → a_refs (babs s) n < 2 ^ 32 - 1 →
  wp (bpin h) (λ _ s', bcache_inv s' ∧ babs s' ≡ a_ref n (babs s)) s.
Proof.
  intros [order Hi] Hh Hmax. destruct (held_inv _ _ _ _ Hi Hh) as (Hin&(_&Hdv&Hn)&Hloc&Hl&Hpid&Hk&Hr&Hv&Hrefs&Hview).
  simpl in Hmax. rewrite Hrefs in Hmax. pose proof (bo_data _ _ (bi_buf _ _ Hi h Hin)) as Hok.
  unfold bpin. apply wp_bind, wp_acquire; [apply Hi|]. unfold upd. wp_step. apply wp_modify. apply wp_release; [done|].
  change (buf_at h (set_bc_lock true s)) with (buf_at h s). rewrite unlock_put by apply Hi. rewrite wrap_small by lia.
  set (x := set_refcnt _ _).
  destruct (in_place s order h n x (bc_disk s)) as (H1&H2&H3&H4&H5); auto; [simpl; lia|apply Hi|].
  change (put_disk (bc_disk s) (put_buf h x s)) with (put_buf h x s) in *. split; [done|]. split_and!; simpl; auto.
  - intros m. rewrite H2. case_decide; [subst m; by rewrite Hview|done].
  - intros m. rewrite H3. unfold insert, fn_insert. simpl. rewrite Hrefs. repeat case_decide; congruence.
Qed.

Lemma bunpin_spec s h n :
  bcache_inv s → a_held (babs s) h = Some n → 2 ≤ a_refs (babs s) n →
  wp (bunpin h) (λ _ s', bcache_inv s' ∧ babs s' ≡ a_unref n (babs s)) s.
Proof.
  intros [order Hi] Hh Hmin. destruct (held_inv _ _ _ _ Hi Hh) as (Hin&(_&Hdv&Hn)&Hloc&Hl&Hpid&Hk&Hr&Hv&Hrefs&Hview).
  simpl in Hmin. rewrite Hrefs in Hmin.
  unfold bunpin. apply wp_bind, wp_acquire; [apply Hi|]. unfold upd. wp_step. apply wp_modify. apply wp_release; [done|].
  change (buf_at h (set_bc_lock true s)) with (buf_at h s). rewrite unlock_put by apply Hi. rewrite wrap_small by lia.
  destruct (unref_spec s order h n (put_buf h (set_refcnt (b_refcnt (buf_at h s) - 1) (buf_at h s)) s) order false)
    as [Hi' E']; [done|done| |apply ring_put; [done..|apply Hi]|done|apply Hi|done|left; simpl; lia|split; [by exists order|done]].
  destruct (upd_core_put h (set_refcnt (b_refcnt (buf_at h s) - 1) (buf_at h s)) s) as [H1 H2].
  split; [exact H1|exact H2].
Qed.

#[global] Instance Bio_cache : BufCache bstate := {|
  BufCache.bread := bread pid; BufCache.bwrite := bwrite pid; BufCache.brelse := brelse pid;
  BufCache.bpin := bpin; BufCache.bunpin := bunpin;
  bdata h s := b_data (buf_at h s);
  set_bdata h d s := put_buf h (set_data d (buf_at h s)) s;
  bblockno h s := b_blockno (buf_at h s)
|}.

#[global] Program Instance Bio_cache_ok : BufCacheOk bstate := {| cache_inv := bcache_inv; abs := babs |}.
Next Obligation.
  intros s n [order Hi]. simpl. unfold bview. destruct (loc s n) as [i|] eqn:E; [|apply Hi].
  apply (loc_Some _ order) in E as (Hin&_); [|done]. apply (bi_buf _ _ Hi i Hin).
Qed.
Next Obligation.
  intros s n [order Hi]. simpl. unfold brefs, bview. destruct (loc s n) as [i|] eqn:E; [|done]. intros Hr.
  apply (loc_Some _ order) in E as (Hin&Hd&<-); [|done]. by apply (bo_clean _ _ (bi_buf _ _ Hi i Hin)).
Qed.
Next Obligation.
  intros s h n [order Hi] Hh. destruct (held_inv _ _ _ _ Hi Hh) as (_&_&_&_&_&_&Hr&_&Hrefs&_). simpl. lia.
Qed.
Next Obligation.
  intros s n [order Hi]. simpl. unfold brefs. destruct (loc s n) as [i|] eqn:E; [|done].
  apply (loc_Some _ order) in E as (Hin&_); [|done]. apply (bi_buf _ _ Hi i Hin).
Qed.
Next Obligation.
  intros s h h' n [order Hi] Hh Hh'. destruct (held_inv _ _ _ _ Hi Hh) as (_&Hb&_).
  destruct (held_inv _ _ _ _ Hi Hh') as (_&Hb'&_). by eapply (bi_uniq _ _ Hi).
Qed.
Next Obligation.
  intros s h n [order Hi] Hh. destruct (held_inv _ _ _ _ Hi Hh) as (_&_&_&_&_&_&_&_&_&Hv). symmetry. exact Hv.
Qed.
Next Obligation. intros s h n [order Hi] Hh. by destruct (held_inv _ _ _ _ Hi Hh) as (_&(_&_&?)&_). Qed.
Next Obligation. apply set_bdata_spec. Qed.
Next Obligation. apply bread_spec. Qed.
Next Obligation. apply bwrite_spec. Qed.
Next Obligation. apply brelse_spec. Qed.
Next Obligation. apply bpin_spec. Qed.
Next Obligation. apply bunpin_spec. Qed.
End cache.
