(* ===== verification/BioSpec.v ===== *)
(** * The buffer cache: initialisation and the properties of its operations *)
From S2P Require Import Prelude Block Sleeplock BufCache Bio BioProps.

(* ------------------------------------------------------------------ *)
(** ** binit builds the ring *)

(** Linking buffer [b] in front, with its lock initialised. *)
Lemma binit_round s b l (k : M bstate unit) (Q : unit → bstate → Prop) :
  seg (nxt s) (prv s) HEAD l HEAD → NoDup (HEAD :: l) → b ∉ HEAD :: l →
  (∀ s', seg (nxt s') (prv s') HEAD (b :: l) HEAD →
         (∀ i, core (buf_at i s') = core (if decide (i = b) then set_block (SL false false 0) (buf_at b s) else buf_at i s)) →
         bc_lock s' = bc_lock s → bc_disk s' = bc_disk s → wp k Q s') →
  wp (first ← rd b_next HEAD; upd b (set_next first) ;; upd b (set_prev HEAD) ;;
      initsleeplock (put_blk_lock b) ;;
      first ← rd b_next HEAD; upd first (set_prev b) ;; upd HEAD (set_next b) ;; k) Q s.
Proof.
  intros Hs Hnd Hb HQ. unfold rd, upd, initsleeplock.
  wp_step. apply wp_gets. wp_step. wp_step. set (s1 := put_buf _ _ s). wp_step. wp_step. set (s2 := put_buf _ _ s1).
  wp_step. wp_step. set (s3 := put_blk_lock _ _ s2). wp_step. apply wp_gets. wp_step. wp_step.
  assert (Hbh : b ≠ HEAD) by (intros ->; apply Hb, elem_of_cons; auto).
  assert (Hn3 : ∀ i, nxt s3 i = if decide (i = b) then nxt s HEAD else nxt s i).
  { intros i. unfold s3, put_blk_lock, nxt at 1. rewrite buf_at_put. case_decide as E; simpl.
    - unfold s2. change (b_next (buf_at b ?t)) with (nxt t b). rewrite nxt_set_prev. unfold s1.
      rewrite nxt_set_next. by rewrite decide_True.
    - unfold s2. change (b_next (buf_at i ?t)) with (nxt t i). rewrite nxt_set_prev. unfold s1.
      rewrite nxt_set_next. by rewrite decide_False. }
  assert (Hp3 : ∀ i, prv s3 i = if decide (i = b) then HEAD else prv s i).
  { intros i. unfold s3, put_blk_lock, prv at 1. rewrite buf_at_put. case_decide as E; simpl.
    - unfold s2. change (b_prev (buf_at b ?t)) with (prv t b). rewrite prv_set_prev. by rewrite decide_True.
    - unfold s2. change (b_prev (buf_at i ?t)) with (prv t i). rewrite prv_set_prev. rewrite decide_False by done.
      unfold s1. apply prv_set_next. }
  change (b_next (buf_at HEAD s3)) with (nxt s3 HEAD). rewrite (Hn3 HEAD), decide_False by done.
  set (s4 := put_buf _ _ s3). wp_step. apply wp_modify. set (s5 := put_buf _ _ s4). apply (HQ s5); [|..|done|done].
  - eapply (seg_link (nxt s) (prv s)); [exact Hs|done|done| |].
    + intros i. unfold s5. rewrite nxt_set_next. case_decide; [done|]. unfold s4. rewrite nxt_set_prev. apply Hn3.
    + intros i. unfold s5. rewrite prv_set_next. unfold s4. rewrite prv_set_prev. case_decide; [done|]. apply Hp3.
  - intros i. unfold s5. rewrite core_set_next. unfold s4. rewrite core_set_prev. unfold s3, put_blk_lock.
    rewrite buf_at_put. unfold s2, s1. rewrite !buf_at_put. repeat case_decide; congruence || done.
Qed.

(** The buffers linked so far, most recent first. *)
Lemma binit_loop_wp (n : nat) b s l (Q : unit → bstate → Prop) :
  seg (nxt s) (prv s) HEAD l HEAD → l = reverse (seqZ 0 b) → 0 ≤ b → b + n = NBUF →
  (∀ i, inb i → core (buf_at i s) = core inhabitant) → bc_lock s = false →
  (∀ s', seg (nxt s') (prv s') HEAD (reverse bufs) HEAD → (∀ i, inb i → core (buf_at i s') = core inhabitant) →
         bc_lock s' = false → bc_disk s' = bc_disk s → Q tt s') →
  wp (binit_loop b n) Q s.
Proof.
  revert b s l. induction n as [|n IH]; intros b s l Hs Hl Hb0 Hbn Hc Hlk HQ; simpl.
  - apply wp_ret. apply HQ; [|done..]. replace b with NBUF in Hl by lia. by rewrite Hl in Hs.
  - assert (Hmem : ∀ i, i ∈ l ↔ 0 ≤ i < b) by (intros i; rewrite Hl, elem_of_reverse, elem_of_seqZ; lia).
    eapply binit_round; [exact Hs| | |].
    + apply NoDup_cons. split; [rewrite Hmem; unfold HEAD; lia|]. rewrite Hl, reverse_Permutation. apply NoDup_seqZ.
    + rewrite elem_of_cons, Hmem. unfold HEAD. lia.
    + intros s' Hs' Hc' Hl' Hd'. eapply (IH (b + 1)); [exact Hs'| |lia|lia| |congruence|].
      * rewrite Hl, seqZ_app, reverse_app by lia. done.
      * intros i Hi. rewrite Hc'. case_decide; [subst|by apply Hc]. specialize (Hc b Hi).
        apply core_eq in Hc as (H1&H2&H3&_&H5&H6). unfold core. simpl. by rewrite H1, H2, H3, H5, H6.
      * intros s'' H1 H2 H3 H4. apply HQ; [done..|congruence].
Qed.

Section spec.
Context (pid : Z).
Notation binv := (binv pid). Notation bcache_inv := (bcache_inv pid).

Lemma binit_inv (d : disk) :
  (∀ n, blk_ok (d_blocks d n)) →
  wp binit (λ _ s, binv s (reverse bufs) ∧ bc_disk s = d ∧ ∀ i, inb i → core (buf_at i s) = core inhabitant) (bstate0 d).
Proof.
  intros Hd. unfold binit, upd. wp_step. wp_step. wp_step. wp_step. wp_step. wp_step.
  eapply (binit_loop_wp _ _ _ []); [by vm_compute|done|done|done| |done|].
  { intros i Hi. unfold inb in Hi. rewrite !buf_at_put, !decide_False by (unfold HEAD; lia). done. }
  intros s Hs Hc Hlk Hdk. split_and!; [|by rewrite Hdk|done]. split; auto.
  - apply reverse_Permutation.
  - intros i Hi. specialize (Hc i Hi). unfold core in Hc. injection Hc as Hv Hdv Hbn Hl Hr Hda.
    split; rewrite ?Hl, ?Hr, ?Hdv, ?Hda; simpl; try done; try lia; apply zero_block_ok.
  - intros i j n (Hi&Hi1&_). specialize (Hc i Hi). apply core_eq in Hc. rewrite Hi1 in Hc. naive_solver.
  - intros n. rewrite Hdk. apply Hd.
Qed.

(** The abstract cache of a machine that has just booted. *)
Definition fresh (d : disk) : cabs := CAbs (d_blocks d) (d_blocks d) (d_trace d) (λ _, 0) 0 (λ _, None).

Lemma fresh_abs s : (∀ i, inb i → core (buf_at i s) = core inhabitant) → babs s ≡ fresh (bc_disk s).
Proof.
  intros Hc.
  assert (Hloc : ∀ n, loc s n = None).
  { intros n. apply loc_None. intros i (Hi&Hd&_). specialize (Hc i Hi). apply core_eq in Hc. rewrite Hd in Hc. naive_solver. }
  split_and!; simpl; auto.
  - intros n. unfold bview. by rewrite Hloc.
  - intros n. unfold brefs. by rewrite Hloc.
  - unfold blive. match goal with |- context [length ?f] => destruct f as [|i l] eqn:Ef end; [done|exfalso].
    assert (i ∈ i :: l) as Hx by left. rewrite <- Ef in Hx. apply list_elem_of_filter in Hx as [Hr Hi].
    rewrite elem_of_bufs in Hi. specialize (Hc i Hi). apply core_eq in Hc. naive_solver.
  - intros h. unfold bheld. rewrite decide_False; [done|]. intros [Hi Hl]. specialize (Hc h Hi).
    apply core_eq in Hc. destruct Hc as (_&_&_&E&_). by rewrite E in Hl.
Qed.

Lemma binit_spec (d : disk) :
  (∀ n, blk_ok (d_blocks d n)) → wp binit (λ _ s, bcache_inv s ∧ babs s ≡ fresh d) (bstate0 d).
Proof.
  intros Hd. wp_use binit_inv; [done|]. intros _ s (Hi&Hdk&Hc). split; [by eexists|]. rewrite <- Hdk. by apply fresh_abs.
Qed.

Lemma live_le s : blive s ≤ NBUF.
Proof.
  unfold blive. match goal with |- context [length (filter ?P bufs)] => pose proof (length_filter P bufs) as H end.
  unfold bufs at 2 in H. rewrite length_seqZ in H. change NBUF with 30 in *. lia.
Qed.

(* ------------------------------------------------------------------ *)
(** ** Properties *)


(** recycling is least-recently-used.  When the last reference to a buffer
    is released, that buffer becomes the last candidate for reuse: a later
    miss takes the oldest unreferenced buffer of the remaining list, and the
    released one only when there is no other. *)
Theorem bcache_lru s order h n m :
  binv s order → bheld s h = Some n → brefs s n = 1 → bview s n = d_blocks (bc_disk s) n → loc s m = None →
  wp (brelse pid h) (λ _ s', wp (bget pid ROOTDEV m) (λ v _,
    v = default h (last (filter (λ i, i ≠ h ∧ b_refcnt (buf_at i s) = 0) order))) s') s.
Proof.
  intros Hi Hh Hr Hc Hno. destruct (held_inv _ _ _ _ _ Hi Hh) as (Hin&Hb&_&_&_&_&_&_&Hrefs&_).
  wp_use brelse_order; [done|exact Hh|by right|].
  intros _ s' ((l1&l2&Ho&Hi')&Hu&E'). rewrite Hr in Hi'. change (1 =? 1) with true in Hi'. cbv iota in Hi'.
  destruct Hu as [Hu Hu']. apply core_eq in Hu as (_&Hdv&Hbn&_&Hrc&_). simpl in *.
  assert (Hno' : loc s' m = None).
  { apply loc_None. intros i Hi2. apply (proj1 (loc_None s m) Hno i). destruct Hi2 as (Hii&H1&H2).
    destruct (decide (i = h)) as [->|Hne]; [split_and!; congruence|].
    destruct (core_eq _ _ (Hu' i Hii Hne)) as (_&D&B&_). split_and!; congruence. }
  unfold wp. rewrite (bget_miss _ _ _ _ Hi' Hno').
  destruct (order_facts _ _ _ Hi) as [Hnd _]. rewrite Ho in Hnd. apply NoDup_cons in Hnd as [_ Hnd].
  rewrite <- Permutation_middle in Hnd. apply NoDup_cons in Hnd as [Hx _].
  rewrite filter_cons_True by lia.
  assert (E : filter (λ i, i ≠ h ∧ b_refcnt (buf_at i s) = 0) order = filter (λ i, b_refcnt (buf_at i s') = 0) (l1 ++ l2)).
  { rewrite Ho, !filter_app, filter_cons_False by naive_solver. rewrite <- !filter_app. apply filter_ext_in.
    intros i Hil. assert (i ≠ h) by (intros ->; done).
    assert (inb i) as Hii.
    { apply elem_of_bufs. rewrite <- (bi_perm _ _ _ Hi), Ho. rewrite elem_of_app in Hil |- *. rewrite elem_of_cons. tauto. }
    destruct (core_eq _ _ (Hu' i Hii H)) as (_&_&_&_&R&_). rewrite R. tauto. }
  rewrite E. destruct (filter _ (l1 ++ l2)) as [|a l] eqn:Ef; [done|].
  rewrite last_cons_cons. destruct (last (a :: l)) eqn:El; [done|]. by apply last_None in El.
Qed.

(** The calls of the buffer cache that its callers make: each with a handle
    that it may be called with. *)
Inductive breach (d : disk) : bstate → Prop :=
  | breach_init s : binit (bstate0 d) = Ok tt s → breach d s
  | breach_read s n h s' : breach d s → can_read n (babs s) → bread pid ROOTDEV n s = Ok h s' → breach d s'
  | breach_fill s h n x : breach d s → bheld s h = Some n → blk_ok x → breach d (put_buf h (set_data x (buf_at h s)) s)
  | breach_write s h n s' : breach d s → bheld s h = Some n → bwrite pid h s = Ok tt s' → breach d s'
  | breach_relse s h n s' : breach d s → bheld s h = Some n → can_relse n (babs s) → brelse pid h s = Ok tt s' → breach d s'
  | breach_pin s h n s' : breach d s → bheld s h = Some n → brefs s n < 2 ^ 32 - 1 → bpin h s = Ok tt s' → breach d s'
  | breach_unpin s h n s' : breach d s → bheld s h = Some n → 2 ≤ brefs s n → bunpin h s = Ok tt s' → breach d s'.

Lemma breach_inv d s : (∀ n, blk_ok (d_blocks d n)) → breach d s → bcache_inv s.
Proof.
  intros Hd. induction 1 as [s E|s n h s' _ IH Hc E|s h n x _ IH Hh Hx|s h n s' _ IH Hh E|s h n s' _ IH Hh Hc E
    |s h n s' _ IH Hh Hr E|s h n s' _ IH Hh Hr E].
  - eapply (wp_Ok _ _ _ _ _ (binit_spec d Hd) E).
  - apply (wp_Ok _ _ _ _ _ (bread_spec pid s n IH Hc) E).
  - apply (set_bdata_spec pid s h n x IH Hh Hx).
  - apply (wp_Ok _ _ _ _ _ (bwrite_spec pid s h n IH Hh) E).
  - apply (wp_Ok _ _ _ _ _ (brelse_spec pid s h n IH Hh Hc) E).
  - apply (wp_Ok _ _ _ _ _ (bpin_spec pid s h n IH Hh Hr) E).
  - apply (wp_Ok _ _ _ _ _ (bunpin_spec pid s h n IH Hh Hr) E).
Qed.


(** A read-modify-write cycle.  After [bread], a change of the data,
    [bwrite] and [brelse], the disk and the cache hold the new data for that
    block and are unchanged for every other, the write is the only one that
    reached the disk, and no reference or lock is left behind. *)
Theorem bcache_write_through s n x :
  bcache_inv s → can_read n (babs s) → blk_ok x →
  wp (b ← bread pid ROOTDEV n; upd b (set_data x) ;; bwrite pid b ;; brelse pid b) (λ _ s',
    bcache_inv s' ∧
    (∀ m, bview s' m = (if decide (m = n) then x else bview s m) ∧
          d_blocks (bc_disk s') m = (if decide (m = n) then x else d_blocks (bc_disk s) m) ∧ brefs s' m = brefs s m) ∧
    d_trace (bc_disk s') = d_trace (bc_disk s) ++ [(n, x)] ∧ blive s' = blive s ∧ ∀ h, bheld s' h = bheld s h) s.
Proof.
  intros Hi Hc Hx. wp_step. wp_use bread_spec; [done..|]. intros h s1 (Hi1&Hh&E1).
  assert (H1 : bheld s1 h = Some n).
  { change (a_held (babs s1) h = Some n). rewrite E1. simpl. by rewrite fn_lookup_insert. }
  unfold upd. wp_step. wp_step.
  destruct (set_bdata_spec pid s1 h n x Hi1 H1 Hx) as [Hi2 E2]. set (s2 := put_buf _ _ s1) in *.
  assert (H2 : a_held (babs s2) h = Some n) by (rewrite E2; exact H1).
  wp_step. wp_use bwrite_spec; [done|exact H2|]. intros _ s3 [Hi3 E3].
  assert (H3 : a_held (babs s3) h = Some n) by (rewrite E3; exact H2).
  wp_use brelse_spec; [done|exact H3| |].
  { right. rewrite E3. simpl. by rewrite fn_lookup_insert. }
  intros _ s4 [Hi4 E4]. split; [done|].
  assert (E : babs s4 ≡ a_writes [(n, x)] (babs s)).
  { rewrite E4, E3, E2, E1. pose proof (@inv_nonneg _ _ (Bio_cache_ok pid) s n Hi) as H0. simpl in H0.
    unfold equiv, cabs_equiv; split_and!; simpl; unfold insert, fn_insert; intros; repeat case_decide; try done; try lia.
    - subst. lia.
    - destruct (Z.eqb_spec (brefs s n) 0), (Z.eqb_spec (brefs s n + 1) 1); lia.
    - by subst. }
  destruct E as (V&B&T&R&L&H). simpl in *. split_and!; auto. intros m. rewrite V, B, R.
  unfold insert, fn_insert. repeat case_decide; subst; done.
Qed.
End spec.

(* ------------------------------------------------------------------ *)
(** ** Witnesses: a blank disk, just after [binit] *)

Module BioDemo.

Definition disk0 : disk := Disk (λ _, zero_block) [].

Lemma disk0_ok n : blk_ok (d_blocks disk0 n).
Proof. apply zero_block_ok. Qed.

Lemma boot_wp pid {A} (k : M bstate A) (Q : A → bstate → Prop) :
  (∀ s, binit (bstate0 disk0) = Ok tt s → binv pid s (reverse bufs) → babs s ≡ fresh disk0 → wp k Q s) →
  wp (binit ;; k) Q (bstate0 disk0).
Proof.
  intros HQ. apply wp_bind. destruct (wp_inv _ _ _ (binit_inv pid disk0 disk0_ok)) as ([]&s&E&Hi&Hd&Hc).
  eapply wp_intro; [exact E|]. apply HQ; [done..|]. rewrite <- Hd. by apply fresh_abs.
Qed.

Lemma fresh_can_read s n : babs s ≡ fresh disk0 → can_read n (babs s).
Proof. intros ->. split_and!; simpl; [done|right; done|lia]. Qed.



Lemma bcache_write_through_witness :
  wp (binit ;; b ← bread 7 ROOTDEV 5; upd b (set_data (blk_store 4 zero_block 0 42)) ;; bwrite 7 b ;; brelse 7 b)
    (λ _ s', d_blocks (bc_disk s') 5 = blk_store 4 zero_block 0 42) (bstate0 disk0).
Proof.
  apply (boot_wp 7). intros s _ Hi E.
  eapply wp_mono; [apply (bcache_write_through 7 s 5 (blk_store 4 zero_block 0 42)
    (ex_intro _ _ Hi) (fresh_can_read s 5 E)); apply blk_store_ok, zero_block_ok|].
  cbv beta. intros _ s' (_&H&_). by destruct (H 5) as (_&Hd&_).
Defined.

(** Reading a block into a recycled buffer, as an equation. *)
Lemma bread_miss pid s order n b :
  binv pid s order → loc s n = None → last (filter (λ i, b_refcnt (buf_at i s) = 0) order) = Some b →
  bread pid ROOTDEV n s = Ok b (put_buf b (Buf true (b_disk (buf_at b s)) ROOTDEV n (SL true false pid) 1
    (prv s b) (nxt s b) (d_blocks (bc_disk s) n)) s).
Proof.
  intros Hi Hn Hb. unfold bread, mbind, M_bind. rewrite (bget_miss _ _ _ _ Hi Hn), Hb. unfold rd, gets.
  rewrite buf_at_put, decide_True by done. simpl. unfold virtio_disk_rw, mbind, M_bind, rd, gets, upd, modify.
  by rewrite !buf_at_put, !decide_True, !put_buf_put_buf by done.
Qed.

(** The buffer released last is recycled last: buffer 0, the oldest, was read
    and released; the next miss takes buffer 1. *)
Lemma bcache_lru_witness :
  wp (binit ;; b ← bread 7 ROOTDEV 5; brelse 7 b ;; bget 7 ROOTDEV 6) (λ v _, v = 1) (bstate0 disk0).
Proof.
  apply wp_bind. destruct (wp_inv _ _ _ (binit_inv 7 disk0 disk0_ok)) as ([]&s&E&Hi&Hd&Hc). eapply wp_intro; [exact E|].
  assert (Hno : ∀ n, loc s n = None).
  { intros n. apply loc_None. intros i (Hii&Hdv&_). specialize (Hc i Hii). apply core_eq in Hc. rewrite Hdv in Hc. naive_solver. }
  assert (Hr : ∀ i, inb i → b_refcnt (buf_at i s) = 0).
  { intros i Hii. by destruct (core_eq _ _ (Hc i Hii)) as (_&_&_&_&R&_). }
  wp_step. eapply wp_intro.
  { apply (bread_miss 7 s _ 5 0 Hi (Hno 5)). rewrite filter_all; [done|].
    intros i Hin. apply Hr, elem_of_bufs. by rewrite <- (bi_perm _ _ _ Hi). }
  set (x := Buf _ _ _ _ _ _ _ _ _). set (s1 := put_buf 0 x s).
  assert (Hi0 : inb 0) by (split; done). pose proof (Hr 0 Hi0) as Hr0.
  assert (Hi1 : binv 7 s1 (reverse bufs)) by (apply (retag_inv 7 s (reverse bufs) 5 0 x); auto).
  destruct (retag_abs 7 s (reverse bufs) 5 0 x Hi Hi0 (Hr 0 Hi0) (Hno 5)) as (V&_&_&R&_&H);
    [done..|]. fold s1 in V, R, H. simpl in *.
  wp_step. eapply wp_mono; [eapply (bcache_lru 7 s1 _ 0 5 6 Hi1)|].
  - rewrite H. by rewrite fn_lookup_insert.
  - rewrite R. rewrite fn_lookup_insert. unfold brefs. by rewrite Hno.
  - rewrite V. unfold bview. by rewrite Hno.
  - rewrite (retag_loc 7 s (reverse bufs) 5 0 x Hi); auto. rewrite decide_False by done. by rewrite Hno.
  - cbv beta. intros _ s2 H2. eapply wp_mono; [exact H2|]. cbv beta. intros v s3 ->.
    rewrite (filter_ext_in _ (λ i, i ≠ 0)); [done|]. intros i Hin. split; [by intros []|]. intros Hne. split; [done|].
    unfold s1. rewrite buf_at_put, decide_False by done. apply Hr, elem_of_bufs. by rewrite <- (bi_perm _ _ _ Hi).
Defined.
End BioDemo.
