(* ===== verification/Log.v ===== *)
(** * kernel/log.c: the write-ahead log

    The log is written against the buffer cache's interface.  Its state is
    [struct log] and the cache below it; [lh_block] is the array of the
    in-memory header. *)
From S2P Require Import Prelude Block BufCache.

Record lstate (S : Type) := LState {
  lg_lock : bool;
  lg_start : Z;
  lg_size : Z;
  lg_outstanding : Z;
  lg_committing : bool;
  lg_dev : Z;
  lh_n : Z;                  (* log.lh.n *)
  lh_block : gmap Z Z;       (* log.lh.block *)
  lg_cache : S
}.
Arguments LState {S}. Arguments lg_lock {S}. Arguments lg_start {S}. Arguments lg_size {S}.
Arguments lg_outstanding {S}. Arguments lg_committing {S}. Arguments lg_dev {S}.
Arguments lh_n {S}. Arguments lh_block {S}. Arguments lg_cache {S}.

Section log.
Context {S : Type} `{!BufCache S}.
Abbreviation lstate := (lstate S).
Implicit Types s : lstate.

Definition set_lg_lock (b : bool) s : lstate :=
  LState b (lg_start s) (lg_size s) (lg_outstanding s) (lg_committing s) (lg_dev s) (lh_n s) (lh_block s) (lg_cache s).
Definition set_params (start size dev : Z) s : lstate :=
  LState (lg_lock s) start size (lg_outstanding s) (lg_committing s) dev (lh_n s) (lh_block s) (lg_cache s).
Definition set_outstanding (n : Z) s : lstate :=
  LState (lg_lock s) (lg_start s) (lg_size s) n (lg_committing s) (lg_dev s) (lh_n s) (lh_block s) (lg_cache s).
Definition set_committing (b : bool) s : lstate :=
  LState (lg_lock s) (lg_start s) (lg_size s) (lg_outstanding s) b (lg_dev s) (lh_n s) (lh_block s) (lg_cache s).
Definition set_lh_n (n : Z) s : lstate :=
  LState (lg_lock s) (lg_start s) (lg_size s) (lg_outstanding s) (lg_committing s) (lg_dev s) n (lh_block s) (lg_cache s).
Definition set_lh_block (i b : Z) s : lstate :=
  LState (lg_lock s) (lg_start s) (lg_size s) (lg_outstanding s) (lg_committing s) (lg_dev s) (lh_n s) (<[i := b]> (lh_block s)) (lg_cache s).
Definition set_cache (c : S) s : lstate :=
  LState (lg_lock s) (lg_start s) (lg_size s) (lg_outstanding s) (lg_committing s) (lg_dev s) (lh_n s) (lh_block s) c.

(** A call into the buffer cache. *)
Definition cache {A} (m : M S A) : M lstate A := zoom lg_cache set_cache m.
Definition get_data (b : Z) : M lstate block := gets (λ s, bdata b (lg_cache s)).
Definition put_data (b : Z) (d : block) : M lstate unit := modify (λ s, set_cache (set_bdata b d (lg_cache s)) s).

(** The channel [begin_op] sleeps on. *)
Definition LOG_CHAN : Z := -1.

(** ** The header block: [struct logheader] at the start of the data *)

Definition hdr_n (d : block) : Z := s32 (blk_load 4 d 0).
Definition hdr_block (d : block) (i : Z) : Z := s32 (blk_load 4 d (4 + 4 * i)).

Fixpoint read_head_loop (d : block) (i : Z) (k : nat) : M lstate unit :=
  match k with
  | O => mret tt
  | Datatypes.S k => modify (set_lh_block i (hdr_block d i)) ;; read_head_loop d (i + 1) k
  end.

Definition read_head : M lstate unit :=
  dev ← gets lg_dev; start ← gets lg_start;
  buf ← cache (bread dev start);
  d ← get_data buf;
  modify (set_lh_n (hdr_n d)) ;;
  read_head_loop d 0 (Z.to_nat (hdr_n d)) ;;
  cache (brelse buf).

Fixpoint write_head_loop (buf : Z) (i : Z) (k : nat) : M lstate unit :=
  match k with
  | O => mret tt
  | Datatypes.S k =>
      b ← gets (λ s, lh_block s !!! i);
      d ← get_data buf;
      put_data buf (blk_store 4 d (4 + 4 * i) b) ;;
      write_head_loop buf (i + 1) k
  end.

Definition write_head : M lstate unit :=
  dev ← gets lg_dev; start ← gets lg_start;
  buf ← cache (bread dev start);
  n ← gets lh_n;
  d ← get_data buf;
  put_data buf (blk_store 4 d 0 n) ;;
  write_head_loop buf 0 (Z.to_nat n) ;;
  cache (bwrite buf) ;;
  cache (brelse buf).

(** The loops run [k] more times, from [tail]. *)
Fixpoint install_loop (recovering : bool) (tail : Z) (k : nat) : M lstate unit :=
  match k with
  | O => mret tt
  | Datatypes.S k =>
      dev ← gets lg_dev; start ← gets lg_start;
      lbuf ← cache (bread dev (start + tail + 1));
      home ← gets (λ s, lh_block s !!! tail);
      dbuf ← cache (bread dev home);
      d ← get_data lbuf;
      put_data dbuf d ;;
      cache (bwrite dbuf) ;;
      (if negb recovering then cache (bunpin dbuf) else mret tt) ;;
      cache (brelse lbuf) ;;
      cache (brelse dbuf) ;;
      install_loop recovering (tail + 1) k
  end.

Definition install_trans (recovering : bool) : M lstate unit :=
  n ← gets lh_n; install_loop recovering 0 (Z.to_nat n).

Fixpoint write_log_loop (tail : Z) (k : nat) : M lstate unit :=
  match k with
  | O => mret tt
  | Datatypes.S k =>
      dev ← gets lg_dev; start ← gets lg_start;
      to ← cache (bread dev (start + tail + 1));
      home ← gets (λ s, lh_block s !!! tail);
      from ← cache (bread dev home);
      d ← get_data from;
      put_data to d ;;
      cache (bwrite to) ;;
      cache (brelse from) ;;
      cache (brelse to) ;;
      write_log_loop (tail + 1) k
  end.

Definition write_log : M lstate unit :=
  n ← gets lh_n; write_log_loop 0 (Z.to_nat n).

Definition recover_from_log : M lstate unit :=
  read_head ;;
  install_trans true ;;
  modify (set_lh_n 0) ;;
  write_head.

(** [sizeof(struct logheader)] is [4 + 4 * LOGSIZE]. *)
Definition initlog (dev logstart nlog : Z) : M lstate unit :=
  if 4 + 4 * LOGSIZE >=? BSIZE then panic "initlog: too big logheader"
  else
    modify (set_lg_lock false) ;;
    modify (set_params logstart nlog dev) ;;
    recover_from_log.

Definition commit : M lstate unit :=
  n ← gets lh_n;
  if n >? 0 then
    write_log ;;
    write_head ;;
    install_trans false ;;
    modify (set_lh_n 0) ;;
    write_head
  else mret tt.

(** [sleep] gives up the log's lock; the process runs the loop again when it
    wakes up. *)
Definition begin_op : M lstate unit :=
  acquire lg_lock set_lg_lock ;;
  c ← gets lg_committing; n ← gets lh_n; o ← gets lg_outstanding;
  if (c : bool) then release lg_lock set_lg_lock ;; sleep_on LOG_CHAN
  else if n + (o + 1) * MAXOPBLOCKS >? LOGSIZE then release lg_lock set_lg_lock ;; sleep_on LOG_CHAN
  else
    modify (set_outstanding (o + 1)) ;;
    release lg_lock set_lg_lock.

Definition end_op : M lstate unit :=
  acquire lg_lock set_lg_lock ;;
  modify (λ s, set_outstanding (lg_outstanding s - 1) s) ;;
  c ← gets lg_committing;
  if (c : bool) then panic "log.committing"
  else
    o ← gets lg_outstanding;
    (if o =? 0 then modify (set_committing true) else mret tt) ;;
    release lg_lock set_lg_lock ;;
    if o =? 0 then
      commit ;;
      acquire lg_lock set_lg_lock ;;
      modify (set_committing false) ;;
      release lg_lock set_lg_lock
    else mret tt.

(** The index at which the search for [blockno] stops. *)
Fixpoint find_logged (blocks : gmap Z Z) (blockno i : Z) (k : nat) : Z :=
  match k with
  | O => i
  | Datatypes.S k => if blocks !!! i =? blockno then i else find_logged blocks blockno (i + 1) k
  end.

Definition log_write (b : Z) : M lstate unit :=
  acquire lg_lock set_lg_lock ;;
  n ← gets lh_n; size ← gets lg_size; o ← gets lg_outstanding;
  if (n >=? LOGSIZE) || (n >=? size - 1) then panic "too big a transaction"
  else if o <? 1 then panic "log_write outside of trans"
  else
    blockno ← gets (λ s, bblockno b (lg_cache s));
    i ← gets (λ s, find_logged (lh_block s) blockno 0 (Z.to_nat n));
    modify (set_lh_block i blockno) ;;
    (if i =? n then
       cache (bpin b) ;;
       modify (set_lh_n (n + 1))
     else mret tt) ;;
    release lg_lock set_lg_lock.

End log.
