(* ===== verification/LogDisk.v ===== *)
(** The log on disk: what a recovery would install from given disk contents,
    and what the writes of a commit do to that, write by write. *)
From S2P Require Import Prelude Block BufCache Log.

(** The writes that the header at [start] promises, and the contents they
    lead to: the state the file system is in, logically. *)
Definition log_writes (start : Z) (D : Z → block) : list (Z * block) :=
  (λ j, (hdr_block (D start) j, D (start + j + 1))) <$> seqZ 0 (hdr_n (D start)).
Definition logical (start : Z) (D : Z → block) : Z → block := apply_writes (log_writes start D) D.

(** Block [n] is outside the log. *)
Definition home (start size n : Z) : Prop := ¬ (start ≤ n < start + size).

(** The header describes blocks outside the log, each once. *)
Record hdr_valid (start size : Z) (D : Z → block) : Prop := {
  hv_n : 0 ≤ hdr_n (D start) ≤ LOGSIZE;
  hv_size : hdr_n (D start) < size;
  hv_home : ∀ j, 0 ≤ j < hdr_n (D start) → home start size (hdr_block (D start) j);
  hv_nodup : NoDup ((λ j, hdr_block (D start) j) <$> seqZ 0 (hdr_n (D start)))
}.

Lemma apply_writes_keyed (g : Z → block) ws D m :
  (∀ w, w ∈ ws → w.2 = g w.1) → apply_writes ws D m = if decide (m ∈ ws.*1) then g m else D m.
Proof.
  revert D. induction ws as [|[k b] ws IH]; intros D Hg; simpl; [done|].
  unfold apply_writes in IH. rewrite IH by (intros w Hw; apply Hg, elem_of_cons; auto).
  assert (b = g k) as -> by (apply (Hg (k, b)), elem_of_cons; auto).
  unfold insert, fn_insert. repeat case_decide; subst; rewrite ?elem_of_cons in *; naive_solver.
Qed.

Lemma elem_of_fmap_seqZ {A} (f : Z → A) a n x : x ∈ f <$> seqZ a n ↔ ∃ j, a ≤ j < a + n ∧ x = f j.
Proof. rewrite list_elem_of_fmap. setoid_rewrite elem_of_seqZ. naive_solver. Qed.

Section commit_writes.
Context (start size n : Z) (blk : Z → Z) (V D : Z → block) (H H0 : block).
Context (Hn : 0 ≤ n ≤ LOGSIZE) (Hsize : n < size).
Context (Hhome : ∀ j, 0 ≤ j < n → home start size (blk j)) (Hnd : NoDup (blk <$> seqZ 0 n)).
Context (Hclean : hdr_n (D start) = 0) (HH : hdr_n H = n) (HH0 : hdr_n H0 = 0).
Context (HHb : ∀ j, 0 ≤ j < n → hdr_block H j = blk j).
(** The other blocks are on disk already. *)
Context (HV : ∀ m, home start size m → m ∉ blk <$> seqZ 0 n → D m = V m).

Definition log_part : list (Z * block) := (λ j, (start + j + 1, V (blk j))) <$> seqZ 0 n.
Definition home_part : list (Z * block) := (λ j, (blk j, V (blk j))) <$> seqZ 0 n.
(** The writes of [commit], in order. *)
Definition commit_ws : list (Z * block) := log_part ++ [(start, H)] ++ home_part ++ [(start, H0)].

Lemma length_log_part : length log_part = Z.to_nat n.
Proof using. unfold log_part. rewrite length_fmap, length_seqZ. done. Qed.
Lemma length_home_part : length home_part = Z.to_nat n.
Proof using. unfold home_part. rewrite length_fmap, length_seqZ. done. Qed.

Lemma take_log_part D' j m :
  apply_writes (take j log_part) D' m =
  if decide (m ∈ (take j log_part).*1) then V (blk (m - start - 1)) else D' m.
Proof using.
  apply (apply_writes_keyed (λ m, V (blk (m - start - 1)))). intros w Hw.
  apply elem_of_take in Hw as (i&Hi&_). apply list_elem_of_lookup_2, elem_of_fmap_seqZ in Hi as (k&_&->). simpl.
  do 2 f_equal. lia.
Qed.

Lemma take_home_part D' j m :
  apply_writes (take j home_part) D' m = if decide (m ∈ (take j home_part).*1) then V m else D' m.
Proof using.
  apply apply_writes_keyed. intros w Hw.
  apply elem_of_take in Hw as (i&Hi&_). apply list_elem_of_lookup_2, elem_of_fmap_seqZ in Hi as (k&_&->). done.
Qed.

Lemma log_part_keys m j : m ∈ (take j log_part).*1 → start < m ≤ start + n.
Proof using.
  rewrite list_elem_of_fmap. intros (w&->&(i&Hi&_)%elem_of_take).
  apply list_elem_of_lookup_2, elem_of_fmap_seqZ in Hi as (k&?&->). simpl. lia.
Qed.

Lemma home_part_keys m j : m ∈ (take j home_part).*1 → m ∈ blk <$> seqZ 0 n.
Proof using.
  rewrite list_elem_of_fmap. intros (w&->&(i&Hi&_)%elem_of_take).
  apply list_elem_of_lookup_2, elem_of_fmap_seqZ in Hi as (k&?&->). simpl. apply elem_of_fmap_seqZ. eauto.
Qed.

Lemma log_part_nodup : NoDup log_part.*1.
Proof using.
  unfold log_part. rewrite <- list_fmap_compose. apply NoDup_fmap_2_strong; [|apply NoDup_seqZ].
  intros i j _ _ E. simpl in E. lia.
Qed.

Lemma blk_home m : m ∈ blk <$> seqZ 0 n → home start size m.
Proof using Hhome. rewrite elem_of_fmap_seqZ. intros (j&?&->). by apply Hhome. Qed.

(** A header of zero entries: the disk is what it is. *)
Lemma logical_clean D' m : hdr_n (D' start) = 0 → logical start D' m = D' m.
Proof using. intros E. unfold logical, log_writes. rewrite E. done. Qed.

Lemma hdr_valid_clean D' : hdr_n (D' start) = 0 → hdr_valid start size D'.
Proof using Hn Hsize.
  intros E. split; rewrite E; try (change LOGSIZE with 30 in *; lia). simpl. constructor.
Qed.

(** A written header: the logged blocks are the new ones. *)
Lemma logical_committed D' m :
  D' start = H → (∀ j, 0 ≤ j < n → D' (start + j + 1) = V (blk j)) →
  logical start D' m = if decide (m ∈ blk <$> seqZ 0 n) then V m else D' m.
Proof using HH HHb.
  intros E Hl. unfold logical, log_writes. rewrite E, HH, (apply_writes_keyed V).
  - rewrite <- list_fmap_compose. replace ((fst ∘ _) <$> _) with (blk <$> seqZ 0 n); [done|].
    apply list_fmap_ext. intros i j Hj%list_elem_of_lookup_2%elem_of_seqZ. simpl. rewrite HHb by lia. done.
  - intros w (j&?&->)%elem_of_fmap_seqZ. simpl. rewrite Hl, HHb by lia. done.
Qed.

Lemma hdr_valid_committed D' : D' start = H → hdr_valid start size D'.
Proof using Hn Hsize Hhome Hnd HH HHb.
  intros E. split; rewrite ?E, ?HH; auto.
  - intros j ?. rewrite HHb by lia. by apply Hhome.
  - erewrite list_fmap_ext; [exact Hnd|]. intros i j Hj%list_elem_of_lookup_2%elem_of_seqZ. apply HHb. lia.
Qed.

(** After any number of the writes, the logical contents are all old or all
    new; they change at the header write. *)
Lemma commit_ws_prefix (j : nat) :
  let D' := apply_writes (take j commit_ws) D in
  hdr_valid start size D' ∧
  ∀ m, home start size m → logical start D' m = if decide (j ≤ n) then D m else V m.
Proof using All.
  intros D'. destruct (decide (j ≤ n)) as [Hj|Hj].
  { (* in the log part *)
    assert (Et : take j commit_ws = take j log_part).
    { unfold commit_ws. rewrite take_app_le by (rewrite length_log_part; lia). done. }
    unfold D'. clear D'. rewrite Et. set (D' := apply_writes _ D).
    assert (E : D' start = D start).
    { unfold D'. rewrite take_log_part, decide_False; [done|]. intros ?%log_part_keys. lia. }
    split; [apply hdr_valid_clean; congruence|]. intros m Hm. rewrite logical_clean by congruence.
    unfold D'. rewrite take_log_part, decide_False; [done|]. intros ?%log_part_keys. unfold home in Hm. lia. }
  set (D1 := apply_writes log_part D). set (D2 := <[start := H]> D1).
  destruct (j - Z.to_nat n)%nat as [|i] eqn:Ei; [lia|].
  assert (ED : D' = apply_writes (take i (home_part ++ [(start, H0)])) D2).
  { unfold D', commit_ws. rewrite take_app, length_log_part, Ei, take_ge by (rewrite length_log_part; lia).
    by rewrite apply_writes_app. }
  clearbody D'. subst D'.
  assert (HD1 : ∀ k, 0 ≤ k < n → D1 (start + k + 1) = V (blk k)).
  { intros k Hk. unfold D1. rewrite <- (firstn_all log_part). rewrite take_log_part, decide_True.
    - do 2 f_equal. lia.
    - rewrite firstn_all. unfold log_part. rewrite <- list_fmap_compose. apply elem_of_fmap_seqZ. exists k. split; [lia|done]. }
  assert (HD1h : ∀ m, home start size m → D1 m = D m).
  { intros m Hm. unfold D1. rewrite <- (firstn_all log_part). rewrite take_log_part, decide_False; [done|].
    intros ?%log_part_keys. unfold home in Hm. lia. }
  destruct (decide (i ≤ n)) as [Hi|Hi].
  - (* installing *)
    rewrite take_app_le by (rewrite length_home_part; lia). set (D' := apply_writes _ D2).
    assert (Hin : ∀ m, ¬ home start size m → D' m = D2 m).
    { intros m Hm. unfold D'. rewrite take_home_part, decide_False; [done|]. by intros ?%home_part_keys%blk_home. }
    assert (Es : D' start = H).
    { rewrite Hin by (unfold home; lia). apply fn_lookup_insert. }
    split; [by apply hdr_valid_committed|]. intros m Hm. rewrite logical_committed; [|done|].
    + case_decide as Hb; [done|]. unfold D'. rewrite take_home_part, decide_False by (by intros ?%home_part_keys).
      unfold D2. rewrite fn_lookup_insert_ne by (intros <-; unfold home in Hm; lia). rewrite HD1h by done. by apply HV.
    + intros k Hk. rewrite Hin by (unfold home; lia). unfold D2. rewrite fn_lookup_insert_ne by lia. by apply HD1.
  - (* header cleared *)
    rewrite take_ge by (rewrite length_app, length_home_part; simpl; lia). rewrite apply_writes_app.
    set (D' := apply_writes _ (apply_writes _ D2)).
    assert (Es : D' start = H0) by (unfold D'; apply fn_lookup_insert).
    split; [apply hdr_valid_clean; congruence|]. intros m Hm. rewrite logical_clean by congruence.
    unfold D'. simpl. rewrite fn_lookup_insert_ne by (intros <-; unfold home in Hm; lia).
    rewrite <- (firstn_all home_part), take_home_part. case_decide as Hb; [done|].
    unfold D2. rewrite fn_lookup_insert_ne by (intros <-; unfold home in Hm; lia). rewrite HD1h by done. apply HV; [done|].
    intros Hb'. apply Hb. rewrite firstn_all. unfold home_part. by rewrite <- list_fmap_compose.
Qed.

(** After all of them, the disk holds the new contents and an empty log. *)
Lemma commit_ws_start : apply_writes commit_ws D start = H0.
Proof using. unfold commit_ws. rewrite !(assoc_L (++)), apply_writes_app. simpl. by rewrite fn_lookup_insert. Qed.

Lemma commit_ws_done m : home start size m → apply_writes commit_ws D m = V m.
Proof using All.
  intros Hm. destruct (commit_ws_prefix (length commit_ws)) as [_ Hall]. rewrite firstn_all in Hall.
  specialize (Hall m Hm). rewrite logical_clean, decide_False in Hall; [done| |by rewrite commit_ws_start].
  unfold commit_ws. rewrite !length_app, length_log_part, length_home_part. simpl. lia.
Qed.

End commit_writes.

Lemma apply_writes_in ws D k b : NoDup ws.*1 → (k, b) ∈ ws → apply_writes ws D k = b.
Proof.
  revert D. induction ws as [|[k' b'] ws IH]; intros D Hnd Hin; [by apply elem_of_nil in Hin|]. simpl in *.
  apply NoDup_cons in Hnd as [Hk Hnd]. apply elem_of_cons in Hin as [[= -> ->]|Hin]; [|by apply IH].
  change (fold_left _ ws ?d) with (apply_writes ws d). rewrite apply_writes_ne; [apply fn_lookup_insert|].
  intros b Hb. apply Hk. apply list_elem_of_fmap. by exists (k', b).
Qed.

Section recover_writes.
Context (start size : Z) (D : Z → block) (H0 : block).
Context (Hv : hdr_valid start size D) (HH0 : hdr_n H0 = 0).

(** The writes of [recover_from_log], in order. *)
Definition recover_ws : list (Z * block) := log_writes start D ++ [(start, H0)].

Let n := hdr_n (D start).
Let blk := hdr_block (D start).
Let V := logical start D.

Lemma logical_logged j : 0 ≤ j < n → V (blk j) = D (start + j + 1).
Proof using Hv.
  intros Hj. unfold V, logical. apply apply_writes_in.
  - unfold log_writes. rewrite <- list_fmap_compose. apply (hv_nodup _ _ _ Hv).
  - unfold log_writes. apply elem_of_fmap_seqZ. exists j. split; [done|]. done.
Qed.

Lemma logical_unlogged m : m ∉ blk <$> seqZ 0 n → V m = D m.
Proof using.
  intros Hm. unfold V, logical. apply apply_writes_ne. intros b Hb. apply Hm. unfold log_writes in Hb.
  apply elem_of_fmap_seqZ in Hb as (j&?&[= -> _]). apply elem_of_fmap_seqZ. eauto.
Qed.

Lemma log_writes_home : log_writes start D = home_part n blk V.
Proof using Hv.
  unfold log_writes, home_part. apply list_fmap_ext. intros i j Hj%list_elem_of_lookup_2%elem_of_seqZ.
  rewrite logical_logged by (unfold n; lia). done.
Qed.

(** A crash during recovery loses nothing: the logical contents stay. *)
Lemma recover_ws_prefix (j : nat) :
  let D' := apply_writes (take j recover_ws) D in
  hdr_valid start size D' ∧ ∀ m, home start size m → logical start D' m = V m.
Proof using All.
  pose proof (hv_n _ _ _ Hv) as Hn. pose proof (hv_size _ _ _ Hv) as Hsz. pose proof (hv_home _ _ _ Hv) as Hhome.
  fold n in Hn, Hsz, Hhome. fold blk in Hhome.
  intros D'. unfold D', recover_ws. clear D'. rewrite log_writes_home. destruct (decide (j ≤ n)) as [Hj|Hj].
  - rewrite take_app_le by (rewrite length_home_part; lia). set (D' := apply_writes _ D).
    assert (Hin : ∀ m, ¬ home start size m → D' m = D m).
    { intros m Hm. unfold D'. rewrite take_home_part, decide_False; [done|].
      by intros ?%home_part_keys%(blk_home start size n blk Hhome). }
    assert (Es : D' start = D start) by (apply Hin; unfold home; lia). split.
    + apply (hdr_valid_committed start size n blk (D start) Hn Hsz Hhome (hv_nodup _ _ _ Hv)); auto.
    + intros m Hm. rewrite (logical_committed start n blk V (D start)); auto.
      * case_decide as Hb; [done|]. unfold D'. rewrite take_home_part, decide_False by (by intros ?%home_part_keys).
        by rewrite logical_unlogged.
      * intros k Hk. rewrite Hin by (unfold home; lia). by rewrite logical_logged.
  - rewrite take_ge by (rewrite length_app, length_home_part; simpl; lia). rewrite apply_writes_app.
    set (D' := apply_writes _ _). assert (Es : D' start = H0) by (unfold D'; apply fn_lookup_insert).
    split; [apply (hdr_valid_clean start size n Hn Hsz); congruence|].
    intros m Hm. rewrite logical_clean by congruence.
    unfold D'. simpl. rewrite fn_lookup_insert_ne by (intros <-; unfold home in Hm; lia).
    rewrite <- (firstn_all (home_part n blk V)), take_home_part. case_decide as Hb; [done|].
    rewrite logical_unlogged; [done|]. intros Hb'. apply Hb. rewrite firstn_all. unfold home_part.
    by rewrite <- list_fmap_compose.
Qed.

(** ... and at the end they are on disk. *)
Lemma recover_ws_done m :
  home start size m → apply_writes recover_ws D m = V m.
Proof using All.
  intros Hm. destruct (recover_ws_prefix (length recover_ws)) as [_ HL].
  rewrite firstn_all in HL. rewrite <- (HL m Hm), logical_clean; [done|].
  unfold recover_ws. rewrite apply_writes_app. simpl. by rewrite fn_lookup_insert.
Qed.

End recover_writes.
