(* ===== verification/LogProps.v ===== *)
(** The write-ahead log: what its functions write to disk, and that a crash
    at any point of a commit or of a recovery leaves all or nothing of the
    transaction. *)
From S2P Require Import Prelude Block BufCache Log LogDisk.

Section log_wp.
Context {S : Type} `{HB : !BufCache S} `{HBok : !BufCacheOk S}.
Implicit Types s : lstate S.
Implicit Types c : S.

Lemma wp_cache {A} (m : M S A) (Q : A → lstate S → Prop) s :
  wp m (λ a c, Q a (set_cache c s)) (lg_cache s) → wp (cache m) Q s.
Proof. unfold wp, cache, zoom. by destruct (m (lg_cache s)). Qed.

(** Decide a fact about an abstract state that [E] describes. *)
Ltac cab E := rewrite E; simpl; fnl; try done.

(** One round of [write_log]: log block [x] gets the contents of [y]. *)
Lemma write_log_round s x tail (K : M (lstate S) unit) Q :
  let y := lh_block s !!! tail in
  cache_inv (lg_cache s) → (∀ h, a_held (abs (lg_cache s)) h = None) → x ≠ y →
  a_refs (abs (lg_cache s)) x = 0 → a_refs (abs (lg_cache s)) y = 1 → a_live (abs (lg_cache s)) < NBUF →
  (∀ c', cache_inv c' → abs c' ≡ a_writes [(x, a_view (abs (lg_cache s)) y)] (abs (lg_cache s)) →
         wp K Q (set_cache c' s)) →
  wp (to ← cache (bread ROOTDEV x);
      home ← gets (λ s, lh_block s !!! tail);
      from ← cache (bread ROOTDEV home);
      d ← get_data from;
      put_data to d ;;
      cache (bwrite to) ;; cache (brelse from) ;; cache (brelse to) ;; K) Q s.
Proof using HBok.
  intros y Hi Hh Hxy Hx Hy Hl HK. set (c0 := lg_cache s) in *.
  wp_step. apply wp_cache. fold c0. wp_use bread_ok; [done| |].
  { split; [intros h; by rewrite Hh|]. split; [by right|]. rewrite Hx. done. }
  intros to c1 (Hi1&_&E1). wp_step. apply wp_gets. simpl. fold y. wp_step. apply wp_cache. wp_use bread_ok; [done| |].
  { rewrite E1. split; [intros h; simpl; unfold insert, fn_insert; case_decide; rewrite ?Hh; congruence|].
    split; [left|]; simpl; fnl; rewrite Hy; done. }
  intros from c2 (Hi2&Hn2&E2). simpl in *. rewrite E1 in Hn2. simpl in Hn2.
  assert (Hft : from ≠ to) by (intros ->; by rewrite fn_lookup_insert in Hn2).
  rewrite E1 in E2. wp_step. unfold get_data. apply wp_gets. simpl. rewrite (bdata_ok _ _ y) by (done || cab E2).
  rewrite E2. simpl. wp_step. unfold put_data. apply wp_modify. simpl.
  destruct (set_bdata_ok c2 to x (a_view (abs c0) y)) as [Hi3 E3]; [done|cab E2|by apply inv_blk_ok|]. rewrite E2 in E3.
  set (c3 := set_bdata _ _ _) in *.
  wp_step. apply wp_cache. wp_use (bwrite_ok c3 to x); [done|cab E3|]. intros _ c4 [Hi4 E4]. rewrite E3 in E4.
  wp_step. apply wp_cache. wp_use (brelse_ok c4 from y); [done|cab E4| |].
  { rewrite E4. left. simpl. fnl. rewrite Hy. done. }
  intros _ c5 [Hi5 E5]. rewrite E4 in E5.
  wp_step. apply wp_cache. wp_use (brelse_ok c5 to x); [done|cab E5| |].
  { rewrite E5. right. simpl. by fnl. }
  intros _ c6 [Hi6 E6]. rewrite E5 in E6. simpl. apply HK; [done|]. rewrite E6.
  clear - Hh Hxy Hx Hy Hft. cabs_eq.
Qed.

(** One round of [install_trans]: home block [y] gets the contents of log
    block [x]; a commit also drops the pin on [y]. *)
Lemma install_round (recovering : bool) s x tail (K : M (lstate S) unit) Q :
  let y := lh_block s !!! tail in
  let a := abs (lg_cache s) in
  cache_inv (lg_cache s) → (∀ h, a_held a h = None) → x ≠ y →
  a_refs a x = 0 → a_refs a y = (if recovering then 0 else 1) → a_live a + (if recovering then 1 else 0) < NBUF →
  (∀ c', cache_inv c' →
     abs c' ≡ (if recovering then a_writes [(y, a_view a x)] a else a_unref y (a_writes [(y, a_view a x)] a)) →
     wp K Q (set_cache c' s)) →
  wp (lbuf ← cache (bread ROOTDEV x);
      home ← gets (λ s, lh_block s !!! tail);
      dbuf ← cache (bread ROOTDEV home);
      d ← get_data lbuf;
      put_data dbuf d ;;
      cache (bwrite dbuf) ;;
      (if negb recovering then cache (bunpin dbuf) else mret tt) ;;
      cache (brelse lbuf) ;; cache (brelse dbuf) ;; K) Q s.
Proof using HBok.
  intros y a Hi Hh Hxy Hx Hy Hl HK. subst a. set (c0 := lg_cache s) in *.
  wp_step. apply wp_cache. fold c0. wp_use bread_ok; [done| |].
  { split; [intros h; by rewrite Hh|]. split; [right; destruct recovering; lia|]. rewrite Hx. done. }
  intros lb c1 (Hi1&_&E1). wp_step. apply wp_gets. simpl. fold y. wp_step. apply wp_cache. wp_use bread_ok; [done| |].
  { rewrite E1. split; [intros h; simpl; unfold insert, fn_insert; case_decide; rewrite ?Hh; congruence|].
    split; simpl; fnl; rewrite ?Hx, Hy; simpl; destruct recovering; lia. }
  intros db c2 (Hi2&Hn2&E2). simpl in *. rewrite E1 in Hn2. simpl in Hn2.
  assert (Hft : db ≠ lb) by (intros ->; by rewrite fn_lookup_insert in Hn2).
  rewrite E1 in E2. wp_step. unfold get_data. apply wp_gets. simpl. rewrite (bdata_ok _ _ x) by (done || cab E2).
  rewrite E2. simpl. wp_step. unfold put_data. apply wp_modify. simpl.
  destruct (set_bdata_ok c2 db y (a_view (abs c0) x)) as [Hi3 E3]; [done|cab E2|by apply inv_blk_ok|]. rewrite E2 in E3.
  set (c3 := set_bdata _ _ _) in *.
  wp_step. apply wp_cache. wp_use (bwrite_ok c3 db y); [done|cab E3|]. intros _ c4 [Hi4 E4]. rewrite E3 in E4. simpl.
  wp_step. eapply (wp_mono _ (λ _ s', ∃ c5, s' = set_cache c5 s ∧ cache_inv c5 ∧
    abs c5 ≡ (if recovering then abs c4 else a_unref y (abs c4)))).
  { destruct recovering; simpl; [apply wp_ret; eauto|]. apply wp_cache. wp_use (bunpin_ok c4 db y); [done|cab E4| |].
    { rewrite E4. simpl. fnl. rewrite Hy. done. } intros _ c5 [Hi5 E5]. eauto. }
  intros _ s5 (c5&->&Hi5&E5). assert (Hc5 : a_held (abs c5) lb = Some x ∧ a_held (abs c5) db = Some y).
  { destruct recovering; rewrite !E5, ?E4; simpl; by fnl. }
  wp_step. apply wp_cache. wp_use (brelse_ok c5 lb x); [done|tauto| |].
  { right. destruct recovering; rewrite !E5, ?E4; simpl; fnl; by apply inv_clean. }
  intros _ c6 [Hi6 E6]. simpl.
  wp_step. apply wp_cache. wp_use (brelse_ok c6 db y); [done|cab E6; tauto| |].
  { rewrite E6. right. destruct recovering; rewrite !E5, ?E4; simpl; by fnl. }
  intros _ c7 [Hi7 E7]. simpl. apply HK; [done|]. rewrite E7, E6, E5. destruct recovering; rewrite E4.
  - clear - Hh Hxy Hx Hy Hft. cabs_eq.
  - clear - Hh Hxy Hx Hy Hft. cabs_eq.
Qed.

(** ** The loops *)

(** The writes of [write_log] and [install_trans] from [tail], [k] of them,
    when the blocks contain [V] and [blk] is the header's array. *)
Definition log_ws (V : Z → block) (start : Z) (blk : gmap Z Z) (tail : Z) (k : nat) : list (Z * block) :=
  (λ j, (start + j + 1, V (blk !!! j))) <$> seqZ tail k.
Definition home_ws (V : Z → block) (start : Z) (blk : gmap Z Z) (tail : Z) (k : nat) : list (Z * block) :=
  (λ j, (blk !!! j, V (start + j + 1))) <$> seqZ tail k.
Definition homes (blk : gmap Z Z) (tail : Z) (k : nat) : list Z := (λ j, blk !!! j) <$> seqZ tail k.

(** The homes are outside the log blocks. *)
Definition apart (start : Z) (blk : gmap Z Z) (tail : Z) (k : nat) : Prop :=
  ∀ i j, tail ≤ i < tail + k → tail ≤ j < tail + k → start + i + 1 ≠ blk !!! j.

Lemma seqZ_S tail (k : nat) : seqZ tail (Datatypes.S k) = tail :: seqZ (tail + 1) k.
Proof. rewrite seqZ_cons by lia. f_equal. f_equal; lia. Qed.

Lemma log_ws_ext V V' start blk tail (k : nat) :
  (∀ j, tail ≤ j < tail + k → V (blk !!! j) = V' (blk !!! j)) → log_ws V start blk tail k = log_ws V' start blk tail k.
Proof. intros HV. apply list_fmap_ext. intros i j Hj%list_elem_of_lookup_2%elem_of_seqZ. by rewrite HV. Qed.
Lemma home_ws_ext V V' start blk tail (k : nat) :
  (∀ j, tail ≤ j < tail + k → V (start + j + 1) = V' (start + j + 1)) → home_ws V start blk tail k = home_ws V' start blk tail k.
Proof. intros HV. apply list_fmap_ext. intros i j Hj%list_elem_of_lookup_2%elem_of_seqZ. by rewrite HV. Qed.

Lemma write_log_loop_wp (k : nat) tail s :
  let a := abs (lg_cache s) in
  let blk := lh_block s in let start := lg_start s in
  cache_inv (lg_cache s) → lg_dev s = ROOTDEV → (∀ h, a_held a h = None) → a_live a < NBUF →
  apart start blk tail k →
  (∀ j, tail ≤ j < tail + k → a_refs a (start + j + 1) = 0 ∧ a_refs a (blk !!! j) = 1) →
  wp (write_log_loop tail k) (λ _ s', ∃ c', s' = set_cache c' s ∧ cache_inv c' ∧
    abs c' ≡ a_writes (log_ws (a_view a) start blk tail k) a) s.
Proof using HBok.
  revert tail s. induction k as [|k IH]; intros tail s a blk start Hi Hdev Hh Hl Hap Href; cbn [write_log_loop].
  { apply wp_ret. exists (lg_cache s). split; [by destruct s|]. split; [done|]. by rewrite a_writes_nil. }
  wp_step. apply wp_gets. wp_step. apply wp_gets. rewrite Hdev.
  destruct (Href tail) as [Hx Hy]; [lia|].
  apply write_log_round; auto; [apply Hap; lia|]. intros c' Hi' E'.
  wp_use (IH (tail + 1) (set_cache c' s)); simpl; auto.
  - intros h. rewrite E'. apply Hh.
  - rewrite E'. apply Hl.
  - intros i j ??. apply Hap; lia.
  - intros j ?. rewrite !E'. apply Href. lia.
  - intros _ s'' (c''&->&Hi''&E''). exists c''. split; [done|]. split; [done|].
    rewrite (log_ws_ext _ (a_view a)) in E''; [rewrite E'', E'|].
    + fold a start blk. unfold log_ws. rewrite seqZ_S, fmap_cons. symmetry. apply (a_writes_app [_]).
    + intros j ?. rewrite E'. simpl. apply fn_lookup_insert_ne. apply Hap; lia.
Qed.

(** The state after installing the writes [ws] to the pinned blocks [ys]. *)
Definition a_install (ws : list (Z * block)) (ys : list Z) (a : cabs) : cabs :=
  CAbs (apply_writes ws (a_view a)) (apply_writes ws (a_blocks a)) (a_trace a ++ ws)
       (λ n, if decide (n ∈ ys) then 0 else a_refs a n) (a_live a - length ys) (a_held a).

#[local] Instance a_install_proper ws ys : Proper ((≡) ==> (≡)) (a_install ws ys).
Proof.
  intros a a' (H1&H2&H3&H4&H5&H6). unfold equiv, cabs_equiv; simpl. rewrite H3, H5.
  split_and!; auto; intros; [by apply apply_writes_ext..|]. by rewrite H4.
Qed.

Lemma a_install_cons w ws ys a :
  a_refs a w.1 = 1 → a_install ws ys (a_unref w.1 (a_writes [w] a)) ≡ a_install (w :: ws) (w.1 :: ys) a.
Proof.
  intros Hw. unfold equiv, cabs_equiv, a_install; simpl. split_and!; auto.
  - by rewrite <- (assoc_L (++)).
  - intros n. unfold insert, fn_insert. rewrite Hw.
    repeat case_decide; subst; rewrite ?elem_of_cons in *; simplify_eq; naive_solver lia.
  - rewrite Hw. simpl. lia.
Qed.

Lemma a_install_writes w ws a : a_install ws [] (a_writes [w] a) ≡ a_install (w :: ws) [] a.
Proof. unfold equiv, cabs_equiv, a_install; simpl. split_and!; auto. by rewrite <- (assoc_L (++)). Qed.

Lemma install_loop_wp (recovering : bool) (k : nat) tail s :
  let a := abs (lg_cache s) in
  let blk := lh_block s in let start := lg_start s in
  cache_inv (lg_cache s) → lg_dev s = ROOTDEV → (∀ h, a_held a h = None) →
  a_live a + (if recovering then 1 else 0) < NBUF → apart start blk tail k → NoDup (homes blk tail k) →
  (∀ j, tail ≤ j < tail + k → a_refs a (start + j + 1) = 0 ∧ a_refs a (blk !!! j) = if recovering then 0 else 1) →
  wp (install_loop recovering tail k) (λ _ s', ∃ c', s' = set_cache c' s ∧ cache_inv c' ∧
    abs c' ≡ a_install (home_ws (a_view a) start blk tail k) (if recovering then [] else homes blk tail k) a) s.
Proof using HBok.
  revert tail s. induction k as [|k IH]; intros tail s a blk start Hi Hdev Hh Hl Hap Hnd Href; cbn [install_loop].
  { apply wp_ret. exists (lg_cache s). split; [by destruct s|]. split; [done|]. fold a.
    unfold equiv, cabs_equiv, a_install; simpl. rewrite app_nil_r. destruct recovering; split_and!; auto; simpl; lia. }
  wp_step. apply wp_gets. wp_step. apply wp_gets. rewrite Hdev.
  destruct (Href tail) as [Hx Hy]; [lia|]. unfold homes in Hnd. rewrite seqZ_S in Hnd. apply NoDup_cons in Hnd as [Hnin Hnd].
  apply install_round; auto; [apply Hap; lia|]. intros c' Hi' E'. fold a start blk in E'.
  assert (Hne : ∀ j, tail + 1 ≤ j < tail + 1 + k → blk !!! j ≠ blk !!! tail).
  { intros j Hj E. apply Hnin. rewrite <- E. apply list_elem_of_fmap. exists j. split; [done|]. apply elem_of_seqZ. lia. }
  wp_use (IH (tail + 1) (set_cache c' s)); simpl; auto.
  - intros h. rewrite E'. destruct recovering; apply Hh.
  - rewrite E'. destruct recovering; simpl; [apply Hl|]. case_match; lia.
  - intros i j ??. apply Hap; lia.
  - intros j ?. rewrite !E'. destruct (Href j) as [Hxj Hyj]; [lia|].
    destruct recovering; simpl; [done|]. unfold start, blk in *. rewrite !fn_lookup_insert_ne; [done| |].
    + by apply not_eq_sym, Hne.
    + apply not_eq_sym, Hap; lia.
  - intros _ s'' (c''&->&Hi''&E''). exists c''. split; [done|]. split; [done|].
    rewrite (home_ws_ext _ (a_view a)) in E''; [rewrite E'', E'|].
    + unfold home_ws, homes. rewrite seqZ_S, !fmap_cons. fold start blk a.
      destruct recovering; [apply a_install_writes|]. by apply (a_install_cons (_, _)).
    + intros j ?. rewrite E'. destruct recovering; simpl; apply fn_lookup_insert_ne, not_eq_sym, Hap; lia.
Qed.

(** ** The header block *)

Fixpoint hdr_stores (blk : gmap Z Z) (d : block) (i : Z) (k : nat) : block :=
  match k with
  | O => d
  | Datatypes.S k => hdr_stores blk (blk_store 4 d (4 + 4 * i) (blk !!! i)) (i + 1) k
  end.

Definition int_ok (v : Z) : Prop := - 2 ^ 31 ≤ v < 2 ^ 31.

Lemma s32_load_store d off v :
  int_ok v → 0 ≤ off → off + 4 ≤ length d → s32 (blk_load 4 (blk_store 4 d off v) off) = v.
Proof.
  intros Hv Ho Hl. rewrite blk_load_store by lia. change (256 ^ 4%nat) with (2 ^ 32).
  unfold swrap. rewrite Zplus_mod_idemp_l. apply (swrap_small 32); [exact Hv|lia].
Qed.

Lemma hdr_stores_spec blk (k : nat) d i :
  0 ≤ i → 4 + 4 * (i + k) ≤ length d → blk_ok d → (∀ j, i ≤ j < i + k → int_ok (blk !!! j)) →
  let d' := hdr_stores blk d i k in
  blk_ok d' ∧ (∀ j, i ≤ j < i + k → hdr_block d' j = blk !!! j) ∧
  (∀ off, 0 ≤ off → off + 4 ≤ 4 + 4 * i → blk_load 4 d' off = blk_load 4 d off).
Proof.
  revert d i. induction k as [|k IH]; intros d i Hi Hl Hd Hint d'; simpl in d'.
  { split_and!; auto; intros; lia. }
  destruct (IH (blk_store 4 d (4 + 4 * i) (blk !!! i)) (i + 1)) as (H1&H2&H3); auto using blk_store_ok; try lia.
  { rewrite length_blk_store. lia. }
  { intros j ?. apply Hint. lia. }
  fold d' in H1, H2, H3. split_and!; auto.
  - intros j Hj. destruct (decide (j = i)) as [->|]; [|apply H2; lia].
    unfold hdr_block. rewrite H3 by lia. apply s32_load_store; [apply Hint; lia|lia..].
  - intros off ??. rewrite H3 by lia. apply blk_load_store_other; simpl; lia.
Qed.

Lemma write_head_loop_wp (k : nat) buf i s n :
  cache_inv (lg_cache s) → a_held (abs (lg_cache s)) buf = Some n → 0 ≤ i → 4 + 4 * (i + k) ≤ BSIZE →
  wp (write_head_loop buf i k) (λ _ s', ∃ c', s' = set_cache c' s ∧ cache_inv c' ∧
    abs c' ≡ a_set n (hdr_stores (lh_block s) (a_view (abs (lg_cache s)) n) i k) (abs (lg_cache s))) s.
Proof using HBok.
  revert i s. induction k as [|k IH]; intros i s Hi Hh Hi0 Hk; cbn [write_head_loop].
  { apply wp_ret. exists (lg_cache s). split; [by destruct s|]. split; [done|]. simpl.
    unfold equiv, cabs_equiv; simpl. split_and!; auto. intros m. unfold insert, fn_insert. by case_decide; subst. }
  wp_step. apply wp_gets. wp_step. apply wp_gets. wp_step. apply wp_modify.
  rewrite (bdata_ok _ _ n) by done. set (d := blk_store _ _ _ _).
  destruct (set_bdata_ok (lg_cache s) buf n d) as [Hi1 E1]; auto.
  { apply blk_store_ok. by apply inv_blk_ok. }
  wp_use (IH (i + 1) (set_cache (set_bdata buf d (lg_cache s)) s)); simpl; auto; try lia.
  { by rewrite E1. }
  intros _ s' (c'&->&Hi'&E'). exists c'. split; [done|]. split; [done|].
  assert (Hv : a_view (abs (set_bdata buf d (lg_cache s))) n = d) by (rewrite E1; simpl; by fnl).
  rewrite Hv in E'. rewrite E', E1. unfold equiv, cabs_equiv; simpl. split_and!; auto.
  intros m. unfold insert, fn_insert. by case_decide.
Qed.

Lemma write_head_wp s :
  let a := abs (lg_cache s) in
  cache_inv (lg_cache s) → lg_dev s = ROOTDEV → (∀ h, a_held a h = None) →
  a_refs a (lg_start s) = 0 → a_live a < NBUF → 0 ≤ lh_n s ≤ LOGSIZE →
  (∀ j, 0 ≤ j < lh_n s → int_ok (lh_block s !!! j)) →
  wp write_head (λ _ s', ∃ c' H, s' = set_cache c' s ∧ cache_inv c' ∧
    abs c' ≡ a_writes [(lg_start s, H)] a ∧ hdr_n H = lh_n s ∧
    ∀ j, 0 ≤ j < lh_n s → hdr_block H j = lh_block s !!! j) s.
Proof using HBok.
  intros a Hi Hdev Hh Hr Hl Hn Hint. unfold write_head. change LOGSIZE with 30 in Hn. set (st := lg_start s) in *.
  wp_step. apply wp_gets. wp_step. apply wp_gets. rewrite Hdev. fold st.
  wp_step. apply wp_cache. wp_use bread_ok; [done| |].
  { fold a. split; [intros h; by rewrite Hh|]. split; [by right|]. by rewrite Hr. }
  intros buf c1 (Hi1&_&E1). wp_step. apply wp_gets. wp_step. apply wp_gets. wp_step. apply wp_modify. simpl.
  assert (Hb1 : a_held (abs c1) buf = Some st) by (rewrite E1; simpl; by fnl).
  rewrite (bdata_ok _ _ st) by done. set (d1 := blk_store _ _ _ _).
  assert (Hok1 : blk_ok d1) by (apply blk_store_ok; by apply inv_blk_ok).
  destruct (set_bdata_ok c1 buf st d1) as [Hi2 E2]; auto. rewrite E1 in E2. set (c2 := set_bdata buf d1 c1) in *.
  wp_step. wp_use (write_head_loop_wp (Z.to_nat (lh_n s)) buf 0 (set_cache c2 s) st); simpl; auto; try (unfold BSIZE; lia).
  { rewrite E2. simpl. by fnl. }
  intros _ s' (c3&->&Hi3&E3). assert (Hv2 : a_view (abs c2) st = d1) by (rewrite E2; simpl; by fnl).
  rewrite Hv2, E2 in E3. set (H := hdr_stores _ _ _ _) in *.
  assert (Hb3 : a_held (abs c3) buf = Some st) by (rewrite E3; simpl; by fnl).
  wp_step. apply wp_cache. wp_use (bwrite_ok c3 buf st); auto. intros _ c4 [Hi4 E4]. rewrite E3 in E4. simpl.
  apply wp_cache. wp_use (brelse_ok c4 buf st); auto.
  { rewrite E4. simpl. by fnl. } { rewrite E4. right. simpl. by fnl. }
  intros _ c5 [Hi5 E5]. rewrite E4 in E5. exists c5, H. split; [done|]. split; [done|].
  destruct (hdr_stores_spec (lh_block s) (Z.to_nat (lh_n s)) d1 0) as (_&HB1&HB2); auto; try lia.
  { destruct Hok1 as [-> _]. unfold BSIZE. lia. } { intros j ?. apply Hint. lia. }
  fold H in HB1, HB2. split_and!.
  - rewrite E5. fold a. cabs_eq.
    unfold insert, fn_insert. by repeat case_decide.
  - unfold hdr_n. rewrite HB2 by lia. apply s32_load_store; [unfold int_ok; lia|lia|].
    rewrite (proj1 (inv_blk_ok c1 st Hi1)). unfold BSIZE. lia.
  - intros j Hj. apply HB1. lia.
Qed.

Definition put_head (n : Z) (blk : gmap Z Z) (c : S) s : lstate S :=
  LState (lg_lock s) (lg_start s) (lg_size s) (lg_outstanding s) (lg_committing s) (lg_dev s) n blk c.

Lemma read_head_loop_wp d (k : nat) i s :
  0 ≤ i →
  wp (read_head_loop d i k) (λ _ s', ∃ blk, s' = put_head (lh_n s) blk (lg_cache s) s ∧
    (∀ j, i ≤ j < i + k → blk !!! j = hdr_block d j) ∧ ∀ j, j < i → blk !!! j = lh_block s !!! j) s.
Proof using.
  revert i s. induction k as [|k IH]; intros i s Hi; cbn [read_head_loop].
  { apply wp_ret. exists (lh_block s). split; [by destruct s|]. split; [intros; lia|done]. }
  wp_step. apply wp_modify. wp_use IH; [lia|]. intros _ s' (blk&->&H1&H2). exists blk. split; [done|]. simpl in *. split.
  - intros j Hj. destruct (decide (j = i)) as [->|]; [|apply H1; lia]. rewrite H2 by lia. by rewrite lookup_total_insert_eq.
  - intros j Hj. rewrite H2 by lia. by rewrite lookup_total_insert_ne by lia.
Qed.

(** No buffer is locked, and exactly the blocks [L] are pinned. *)
Definition idle (a : cabs) (L : list Z) : Prop :=
  (∀ h, a_held a h = None) ∧ (∀ n, a_refs a n = if decide (n ∈ L) then 1 else 0) ∧ a_live a = length L.

Lemma read_head_wp s :
  let a := abs (lg_cache s) in let d := a_view a (lg_start s) in
  cache_inv (lg_cache s) → lg_dev s = ROOTDEV → idle a [] →
  wp read_head (λ _ s', ∃ blk c', s' = put_head (hdr_n d) blk c' s ∧ cache_inv c' ∧ abs c' ≡ a ∧
    ∀ j, 0 ≤ j < hdr_n d → blk !!! j = hdr_block d j) s.
Proof using HBok.
  intros a d Hi Hdev (Hh&Hr&Hl). assert (Hr0 : ∀ n, a_refs a n = 0) by (intros n; rewrite Hr, decide_False; [done|apply not_elem_of_nil]).
  unfold read_head. wp_step. apply wp_gets. wp_step. apply wp_gets. rewrite Hdev.
  wp_step. apply wp_cache. wp_use bread_ok; [done| |].
  { fold a. split; [intros h; by rewrite Hh|]. split; [right; by rewrite Hl|]. by rewrite Hr0. }
  fold a. intros buf c1 (Hi1&_&E1). wp_step. apply wp_gets. simpl.
  assert (Hb1 : a_held (abs c1) buf = Some (lg_start s)) by (rewrite E1; simpl; by fnl).
  rewrite (bdata_ok _ _ (lg_start s)) by done. replace (a_view (abs c1) (lg_start s)) with d by (by rewrite E1).
  wp_step. apply wp_modify. wp_step. wp_use read_head_loop_wp; [lia|]. intros _ s' (blk&->&H1&_). simpl.
  apply wp_cache. wp_use (brelse_ok c1 buf (lg_start s)); auto.
  { rewrite E1. right. simpl. by apply inv_clean. }
  intros _ c2 [Hi2 E2]. exists blk, c2. split; [done|]. split; [done|]. split.
  - rewrite E2, E1. pose proof (Hr0 (lg_start s)). clear - Hh H. cabs_eq.
  - intros j ?. apply H1. lia.
Qed.

Lemma a_install_nil ws a : a_install ws [] a ≡ a_writes ws a.
Proof using. unfold equiv, cabs_equiv, a_install, a_writes; simpl. split_and!; auto. lia. Qed.

Lemma hdr_block_int d j : int_ok (hdr_block d j).
Proof using.
  unfold hdr_block, int_ok, swrap. change (2 ^ (32 - 1)) with (2 ^ 31). change (2 ^ 32) with (2 * 2 ^ 31).
  set (x := _ `mod` _). assert (0 ≤ x < 2 * 2 ^ 31) by (apply Z.mod_pos_bound; lia). lia.
Qed.

Lemma recover_wp s :
  let a := abs (lg_cache s) in
  cache_inv (lg_cache s) → lg_dev s = ROOTDEV → idle a [] → hdr_valid (lg_start s) (lg_size s) (a_view a) →
  wp recover_from_log (λ _ s', ∃ blk c' H0, s' = put_head 0 blk c' s ∧ cache_inv c' ∧ hdr_n H0 = 0 ∧
    abs c' ≡ a_writes (recover_ws (lg_start s) (a_view a) H0) a) s.
Proof using HBok.
  intros a Hi Hdev Hid Hv. pose proof Hid as (Hh&Hr&Hl). simpl in Hl.
  assert (Hr0 : ∀ n, a_refs a n = 0) by (intros n; rewrite Hr, decide_False; [done|apply not_elem_of_nil]).
  destruct Hv as [Hn Hsz Hho Hnd]. change LOGSIZE with 30 in Hn. set (d := a_view a (lg_start s)) in *.
  unfold recover_from_log. wp_step. wp_use read_head_wp; auto. fold a d.
  intros _ s1 (blk&c1&->&Hi1&E1&Hblk). wp_step. unfold install_trans. wp_step. apply wp_gets. simpl.
  assert (Hhs : homes blk 0 (Z.to_nat (hdr_n d)) = hdr_block d <$> seqZ 0 (hdr_n d)).
  { unfold homes. rewrite Z2Nat.id by lia. apply list_fmap_ext.
    intros i j Hj%list_elem_of_lookup_2%elem_of_seqZ. apply Hblk. lia. }
  wp_use (install_loop_wp true (Z.to_nat (hdr_n d)) 0 (put_head (hdr_n d) blk c1 s)); simpl; auto.
  { intros h. by rewrite E1. } { rewrite E1, Hl. done. }
  { intros i j ??. rewrite Hblk by lia. specialize (Hho j). unfold home in Hho. intros E. apply Hho; lia. }
  { by rewrite Hhs. } { intros j ?. rewrite !E1. auto. }
  intros _ s2 (c2&->&Hi2&E2). rewrite a_install_nil in E2.
  rewrite (home_ws_ext _ (a_view a)), E1 in E2 by (intros; by rewrite E1).
  assert (Hws : home_ws (a_view a) (lg_start s) blk 0 (Z.to_nat (hdr_n d)) = log_writes (lg_start s) (a_view a)).
  { unfold home_ws, log_writes. fold d. rewrite Z2Nat.id by lia. apply list_fmap_ext.
    intros i j Hj%list_elem_of_lookup_2%elem_of_seqZ. rewrite Hblk by lia. done. }
  rewrite Hws in E2. wp_step. apply wp_modify.
  wp_use (write_head_wp (set_lh_n 0 (set_cache c2 (put_head (hdr_n d) blk c1 s)))); simpl; auto.
  { intros h. rewrite E2. simpl. apply Hh. } { rewrite E2. simpl. apply Hr0. } { rewrite E2. simpl. by rewrite Hl. }
  { done. } { intros; lia. }
  intros _ s3 (c3&H0&->&Hi3&E3&HH0&_). exists blk, c3, H0. split_and!; auto.
  rewrite E3, E2. unfold recover_ws. symmetry. apply a_writes_app.
Qed.

(** The state after a commit: everything written, nothing pinned. *)
Definition a_commit (ws : list (Z * block)) (a : cabs) : cabs :=
  CAbs (apply_writes ws (a_view a)) (apply_writes ws (a_blocks a)) (a_trace a ++ ws) (λ _, 0) 0 (a_held a).

Lemma commit_wp s :
  let a := abs (lg_cache s) in let n := lh_n s in let blk := λ j, lh_block s !!! j in
  cache_inv (lg_cache s) → lg_dev s = ROOTDEV → 0 < n < NBUF → idle a (blk <$> seqZ 0 n) → NoDup (blk <$> seqZ 0 n) →
  (∀ i j, 0 ≤ i ≤ n → 0 ≤ j < n → lg_start s + i ≠ blk j) → (∀ j, 0 ≤ j < n → int_ok (blk j)) →
  wp commit (λ _ s', ∃ c' H H0, s' = set_cache c' (set_lh_n 0 s) ∧ cache_inv c' ∧
    hdr_n H = n ∧ (∀ j, 0 ≤ j < n → hdr_block H j = blk j) ∧ hdr_n H0 = 0 ∧
    abs c' ≡ a_commit (commit_ws (lg_start s) n blk (a_view a) H H0) a) s.
Proof using HBok.
  intros a n blk Hi Hdev Hn (Hh&Hr&Hl) Hnd Hap Hint. set (start := lg_start s) in *.
  assert (Hn' : lh_n s = Z.to_nat n) by (unfold n in *; lia).
  assert (Hlog0 : ∀ i, 0 ≤ i ≤ n → a_refs a (start + i) = 0).
  { intros i Hi'. rewrite Hr, decide_False; [done|]. intros (j&?&E)%elem_of_fmap_seqZ. by apply (Hap i j) in E. }
  assert (Hhome1 : ∀ j, 0 ≤ j < n → a_refs a (blk j) = 1).
  { intros j Hj. rewrite Hr, decide_True; [done|]. apply elem_of_fmap_seqZ. eauto. }
  assert (Hl' : a_live a = n) by (rewrite Hl, length_fmap, length_seqZ; lia).
  unfold commit. wp_step. apply wp_gets. fold n. zbool.
  wp_step. unfold write_log. wp_step. apply wp_gets. fold n.
  wp_use (write_log_loop_wp (Z.to_nat n) 0 s); auto; fold a start; try lia.
  { intros i j ??. rewrite <- Z.add_assoc. apply Hap; lia. }
  { intros j ?. split; [rewrite <- Z.add_assoc; apply Hlog0; lia|apply (Hhome1 j); lia]. }
  intros _ s1 (c1&->&Hi1&E1).
  assert (Hlws : log_ws (a_view a) start (lh_block s) 0 (Z.to_nat n) = log_part start n blk (a_view a)).
  { unfold log_ws. by rewrite Z2Nat.id by lia. }
  rewrite Hlws in E1. set (LP := log_part start n blk (a_view a)) in *.
  wp_step. wp_use (write_head_wp (set_cache c1 s)); simpl; auto.
  { intros h. rewrite E1. apply Hh. }
  { rewrite E1. simpl. fold start. rewrite <- (Z.add_0_r start). apply Hlog0. lia. }
  { rewrite E1. simpl. lia. } { fold n. change LOGSIZE with NBUF. lia. }
  fold n start. intros _ s2 (c2&H&->&Hi2&E2&HHn&HHb). rewrite E1 in E2.
  assert (Hv2 : ∀ j, 0 ≤ j < n → a_view (abs c2) (start + j + 1) = a_view a (blk j)).
  { intros j Hj. rewrite E2. simpl. rewrite fn_lookup_insert_ne by lia. fold LP.
    apply apply_writes_in; [apply log_part_nodup|]. apply elem_of_fmap_seqZ. exists j. split; [lia|done]. }
  assert (Hhs : homes (lh_block s) 0 (Z.to_nat n) = blk <$> seqZ 0 n) by (unfold homes; by rewrite Z2Nat.id by lia).
  wp_step. unfold install_trans. wp_step. apply wp_gets. simpl. fold n.
  wp_use (install_loop_wp false (Z.to_nat n) 0 (set_cache c2 (set_cache c1 s))); simpl; auto; fold start.
  { intros h. rewrite E2. apply Hh. } { rewrite E2. simpl. lia. }
  { intros i j ??. rewrite <- Z.add_assoc. apply Hap; lia. } { by rewrite Hhs. }
  { intros j ?. rewrite !E2. split; [rewrite <- Z.add_assoc; apply Hlog0; lia|apply (Hhome1 j); lia]. }
  intros _ s3 (c3&->&Hi3&E3). rewrite Hhs in E3.
  replace (home_ws _ _ _ _ _) with (home_part n blk (a_view a)) in E3; last first.
  { unfold home_ws, home_part. rewrite Z2Nat.id by lia. apply list_fmap_ext.
    intros i j Hj%list_elem_of_lookup_2%elem_of_seqZ. rewrite Hv2 by lia. done. }
  rewrite E2 in E3. assert (Hr3 : ∀ m, a_refs (abs c3) m = 0).
  { intros m. rewrite E3. simpl. case_decide; [done|]. by rewrite Hr, decide_False. }
  assert (Hl3 : a_live (abs c3) = 0) by (rewrite E3; change (a_live a - length (blk <$> seqZ 0 n) = 0); lia).
  wp_step. apply wp_modify. wp_use write_head_wp; simpl; auto.
  { intros h. rewrite E3. apply Hh. } { by rewrite Hl3. } { done. } { intros; lia. }
  intros _ s4 (c4&H0&->&Hi4&E4&HH0&_). exists c4, H, H0. split_and!; auto.
  rewrite E4. pose proof (a_refs_proper _ _ E4) as Hr4. clear Hr4. unfold a_commit, commit_ws.
  split_and!; simpl.
  - intros m. rewrite apply_writes_app. simpl. rewrite apply_writes_app. apply (apply_writes_ext [(start, H0)]). intros m'. rewrite E3. done.
  - intros m. rewrite apply_writes_app. simpl. rewrite apply_writes_app. apply (apply_writes_ext [(start, H0)]). intros m'. rewrite E3. done.
  - rewrite E3. simpl. by rewrite <- !(assoc_L (++)).
  - intros m. apply Hr3.
  - done.
  - intros h. rewrite E3. done.
Qed.

(* ------------------------------------------------------------------ *)
(** ** Transactions *)

(** Within and between file system calls: the blocks [L] of the running
    transaction are recorded in the header; every other block is on disk,
    apart from the blocks [X] that have been changed and not yet passed to
    [log_write]; the log on disk is empty. *)
Record log_ok s (L X : list Z) : Prop := {
  lo_inv : cache_inv (lg_cache s);
  lo_lock : lg_lock s = false;
  lo_dev : lg_dev s = ROOTDEV;
  lo_size : 0 < lg_size s ≤ LOGSIZE;
  lo_n : lh_n s = length L;
  lo_blk : L = (λ j, lh_block s !!! j) <$> seqZ 0 (lh_n s);
  lo_fit : lh_n s < lg_size s;
  lo_nodup : NoDup L;
  lo_home : ∀ n, n ∈ L → home (lg_start s) (lg_size s) n ∧ int_ok n;
  lo_disk : hdr_n (a_blocks (abs (lg_cache s)) (lg_start s)) = 0;
  lo_clean : ∀ n, home (lg_start s) (lg_size s) n → n ∉ L → n ∉ X →
    a_blocks (abs (lg_cache s)) n = a_view (abs (lg_cache s)) n
}.

(** A crash throws the cache away: the machine reboots with the disk [D]. *)
Record rebooted (D : Z → block) s : Prop := {
  rb_inv : cache_inv (lg_cache s);
  rb_idle : idle (abs (lg_cache s)) [];
  rb_disk : ∀ n, a_blocks (abs (lg_cache s)) n = D n
}.

Lemma hdr_valid_ext start size D D' : (∀ n, D n = D' n) → hdr_valid start size D → hdr_valid start size D'.
Proof using. intros E [H1 H2 H3 H4]. rewrite E in *. by split. Qed.

Lemma log_writes_ext start D D' : (∀ n, D n = D' n) → log_writes start D = log_writes start D'.
Proof using. intros E. unfold log_writes. rewrite E. apply list_fmap_ext. intros. by rewrite E. Qed.

Lemma logical_ext start D D' m : (∀ n, D n = D' n) → logical start D m = logical start D' m.
Proof using. intros E. unfold logical. rewrite (log_writes_ext start D D' E). by apply apply_writes_ext. Qed.

Lemma initlog_wp D s start size :
  rebooted D s → 0 < size ≤ LOGSIZE → hdr_valid start size D →
  wp (initlog ROOTDEV start size) (λ _ s', ∃ H0,
    log_ok s' [] [] ∧ idle (abs (lg_cache s')) [] ∧ lg_start s' = start ∧ lg_size s' = size ∧ lg_outstanding s' = lg_outstanding s ∧
    lg_committing s' = lg_committing s ∧
    hdr_n H0 = 0 ∧ a_trace (abs (lg_cache s')) = a_trace (abs (lg_cache s)) ++ recover_ws start D H0 ∧
    ∀ n, a_blocks (abs (lg_cache s')) n = apply_writes (recover_ws start D H0) D n) s.
Proof using HBok.
  intros [Hi Hid HD] Hsz Hv. unfold initlog. change (4 + 4 * LOGSIZE >=? BSIZE) with false. cbv iota.
  wp_step. apply wp_modify. wp_step. apply wp_modify.
  assert (Hvb : ∀ n, a_view (abs (lg_cache s)) n = D n).
  { intros n. rewrite <- HD. apply inv_clean; [done|]. destruct Hid as (_&Hr&_). rewrite Hr, decide_False; [done|apply not_elem_of_nil]. }
  wp_use recover_wp; simpl; auto.
  { eapply hdr_valid_ext; [|exact Hv]. auto. }
  simpl. intros _ s' (blk&c'&H0&->&Hi'&HH0&E). exists H0. simpl.
  assert (Hws : recover_ws start (a_view (abs (lg_cache s))) H0 = recover_ws start D H0).
  { unfold recover_ws. by rewrite (log_writes_ext _ _ D). }
  rewrite Hws in E. assert (Hb : ∀ n, a_blocks (abs c') n = apply_writes (recover_ws start D H0) D n).
  { intros n. rewrite E. simpl. by apply apply_writes_ext. }
  split_and!; auto.
  - split; simpl; auto; try done.
    + lia.
    + constructor.
    + intros n ?%elem_of_nil. done.
    + rewrite Hb. unfold recover_ws. rewrite apply_writes_app. simpl. by rewrite fn_lookup_insert.
    + intros n _ _ _. rewrite !E. simpl. apply apply_writes_ext. intros m. by rewrite HD, Hvb.
  - destruct Hid as (H1&H2&H3). split_and!; intros; rewrite E; simpl; auto.
  - rewrite E. done.
Qed.

Lemma log_ok_commit s L :
  log_ok s L [] → idle (abs (lg_cache s)) L → L ≠ [] →
  let start := lg_start s in let D := a_blocks (abs (lg_cache s)) in let V := a_view (abs (lg_cache s)) in
  wp commit (λ _ s', ∃ ws, log_ok s' [] [] ∧ idle (abs (lg_cache s')) [] ∧
    lg_start s' = start ∧ lg_size s' = lg_size s ∧ lg_outstanding s' = lg_outstanding s ∧ lg_committing s' = lg_committing s ∧
    a_trace (abs (lg_cache s')) = a_trace (abs (lg_cache s)) ++ ws ∧
    (∀ n, a_blocks (abs (lg_cache s')) n = apply_writes ws D n) ∧
    (∀ n, home start (lg_size s) n → a_view (abs (lg_cache s')) n = V n) ∧
    ∀ j : nat, let D' := apply_writes (take j ws) D in hdr_valid start (lg_size s) D' ∧
      ∀ n, home start (lg_size s) n → logical start D' n = if decide (j ≤ length L) then D n else V n) s.
Proof using HBok.
  intros [Hi Hlk Hdev Hsz Hn Hblk Hfit Hnd Hhm Hdk Hcl] Hid Hne start D V.
  assert (Hpos : 0 < lh_n s) by (destruct L; [done|simpl in Hn; lia]).
  set (blk := λ j, lh_block s !!! j) in *.
  assert (Hbh : ∀ j, 0 ≤ j < lh_n s → home start (lg_size s) (blk j) ∧ int_ok (blk j)).
  { intros j Hj. apply Hhm. rewrite Hblk. apply elem_of_fmap_seqZ. eauto. }
  change LOGSIZE with 30 in Hsz. wp_use commit_wp; auto.
  { change NBUF with 30. lia. } { fold blk. by rewrite <- Hblk. } { fold blk. by rewrite <- Hblk. }
  { intros i j Hi' Hj E. destruct (Hbh j Hj) as [Hh' _]. apply Hh'. unfold start, blk. rewrite <- E. lia. }
  { intros j Hj. by apply Hbh. }
  fold blk start V. intros _ s' (c'&H&H0&->&Hi'&HHn&HHb&HH0&E). set (ws := commit_ws _ _ _ _ _ _) in *.
  assert (Hcl' : ∀ m, home start (lg_size s) m → m ∉ blk <$> seqZ 0 (lh_n s) → D m = V m).
  { intros m Hm Hm'. rewrite <- Hblk in Hm'. apply Hcl; auto. apply not_elem_of_nil. }
  assert (Hnd' : NoDup (blk <$> seqZ 0 (lh_n s))) by (by rewrite <- Hblk).
  assert (Hln : 0 ≤ lh_n s ≤ LOGSIZE) by (change LOGSIZE with 30; lia).
  assert (Hhm' : ∀ j, 0 ≤ j < lh_n s → home start (lg_size s) (blk j)) by (intros; by apply Hbh).
  assert (HDV : ∀ n, home start (lg_size s) n → apply_writes ws D n = V n).
  { intros n Hh'. by apply (commit_ws_done start (lg_size s)). }
  assert (HVV : ∀ n, home start (lg_size s) n → apply_writes ws V n = V n).
  { intros n Hh'. assert (HV0 : V start = D start).
    { apply inv_clean; [done|]. destruct Hid as (_&Hr&_). rewrite Hr, decide_False; [done|]. intros Hin.
      destruct (Hhm _ Hin) as [Hh0 _]. apply Hh0. fold start. lia. }
    apply (commit_ws_done start (lg_size s)); auto. by rewrite HV0. }
  exists ws. split_and!; auto; simpl.
  - split; simpl; auto; try done.
    + lia.
    + constructor.
    + intros n ?%elem_of_nil. done.
    + rewrite E. simpl. fold D start. unfold ws. by rewrite commit_ws_start.
    + intros n Hh' _ _. rewrite !E. simpl. fold D V. by rewrite HDV, HVV.
  - destruct Hid as (H1&H2&H3). split_and!; intros; rewrite E; simpl; auto.
  - rewrite E. done.
  - intros n. rewrite E. done.
  - intros n Hh'. rewrite E. simpl. by apply HVV.
  - intros j. rewrite <- Hn. by apply commit_ws_prefix.
Qed.

(** C1: A transaction is atomic across crashes.  [end_op] of the last
    outstanding operation writes every logged block home and empties the log.
    If the machine stops after any number of the disk writes it makes and
    reboots with a fresh cache, [initlog] returns, and the file system then
    holds either exactly the contents before the transaction (when the crash
    is not after the header write, the one that follows the log blocks) or
    exactly the contents after it. *)
Theorem log_commit_crash_atomic s L :
  log_ok s L [] → idle (abs (lg_cache s)) L → lg_outstanding s = 1 → lg_committing s = false →
  let start := lg_start s in let size := lg_size s in
  let D := a_blocks (abs (lg_cache s)) in let V := a_view (abs (lg_cache s)) in
  wp end_op (λ _ s', log_ok s' [] [] ∧ lg_outstanding s' = 0 ∧ lg_committing s' = false ∧
    (∀ n, home start size n → a_view (abs (lg_cache s')) n = V n ∧ a_blocks (abs (lg_cache s')) n = V n) ∧
    ∃ ws, a_trace (abs (lg_cache s')) = a_trace (abs (lg_cache s)) ++ ws ∧
    ∀ (j : nat) sr, rebooted (apply_writes (take j ws) D) sr →
      wp (initlog ROOTDEV start size) (λ _ sr',
        ∀ n, home start size n → a_blocks (abs (lg_cache sr')) n = if decide (j ≤ length L) then D n else V n) sr) s.
Proof using HBok.
  intros Hok Hid Ho Hcm start size D V.
  assert (Hrec : ∀ (j : nat) sr D', rebooted D' sr → hdr_valid start size D' →
    (∀ n, home start size n → logical start D' n = if decide (j ≤ length L) then D n else V n) →
    wp (initlog ROOTDEV start size) (λ _ sr',
      ∀ n, home start size n → a_blocks (abs (lg_cache sr')) n = if decide (j ≤ length L) then D n else V n) sr).
  { intros j sr D' Hrb Hv Hl. wp_use (initlog_wp D'); auto; [apply Hok|].
    intros _ sr' (H0&_&_&_&_&_&_&HH0&_&Hb) n Hn. rewrite Hb, (recover_ws_done start size) by done. by apply Hl. }
  unfold end_op. apply wp_bind, wp_acquire; [apply Hok|]. wp_step. apply wp_modify. wp_step. apply wp_gets. simpl.
  rewrite Hcm, Ho. wp_step. apply wp_gets. simpl. wp_step. apply wp_modify. simpl. wp_step. wp_step.
  set (s1 := set_lg_lock false _). assert (Hok1 : log_ok s1 L []) by (destruct Hok; by split).
  wp_step. destruct (decide (L = [])) as [->|Hne].
  - pose proof (lo_n _ _ _ Hok1) as Hn0. unfold commit. wp_step. apply wp_gets. rewrite Hn0. change (length [] >? 0) with false. cbv iota.
    wp_step. apply wp_bind, wp_acquire; [done|]. wp_step. wp_step. wp_step.
    assert (HDV : ∀ n, home start size n → D n = V n).
    { intros n Hn. apply (lo_clean _ _ _ Hok); auto; apply not_elem_of_nil. }
    split; [by destruct Hok; split|]. split; [done|]. split; [done|]. split.
    { intros n Hn. split; [done|]. by apply HDV. }
    exists []. split; [by rewrite app_nil_r|]. intros j sr. rewrite take_nil. intros Hrb. eapply Hrec; [exact Hrb| |].
    + apply (hdr_valid_clean _ _ 0); [done|apply (lo_size _ _ _ Hok)|apply Hok].
    + intros n Hn. rewrite logical_clean by apply Hok. simpl. case_decide; [done|]. by apply HDV.
  - wp_use (log_ok_commit s1 L); auto.
    intros _ s' (ws&Hok'&_&Hst&Hsz&Ho'&_&Htr&Hbl&Hvw&Hpre). apply wp_bind, wp_acquire; [apply Hok'|]. wp_step. wp_step. wp_step.
    split; [by destruct Hok'; split|]. split; [done|]. split; [done|]. split.
    + intros n Hn. split; [by apply Hvw|]. simpl. rewrite (lo_clean _ _ _ Hok'); [by apply Hvw| |apply not_elem_of_nil..].
      by rewrite Hst, Hsz.
    + exists ws. split; [done|]. intros j sr Hrb. destruct (Hpre j) as [Hv Hl]. by eapply Hrec.
Qed.

(** C2: Recovery installs the committed transaction and loses nothing when it
    is itself interrupted.  On any disk with a well-formed log header,
    [initlog] returns with every block holding the contents the log promises
    and the log empty; after any number of its writes, the header is still
    well formed and the promised contents are the same, so that a recovery
    started then ends in the same state. *)
Theorem recovery_idempotent D s start size :
  rebooted D s → 0 < size ≤ LOGSIZE → hdr_valid start size D →
  wp (initlog ROOTDEV start size) (λ _ s', log_ok s' [] [] ∧
    (∀ n, home start size n → a_blocks (abs (lg_cache s')) n = logical start D n) ∧
    ∃ ws, a_trace (abs (lg_cache s')) = a_trace (abs (lg_cache s)) ++ ws ∧
    ∀ j : nat, let D' := apply_writes (take j ws) D in
      hdr_valid start size D' ∧ ∀ n, home start size n → logical start D' n = logical start D n) s.
Proof using HBok.
  intros Hrb Hsz Hv. wp_use (initlog_wp D); auto. intros _ s' (H0&Hok&_&_&_&_&_&HH0&Htr&Hbl). split; [done|]. split.
  - intros n Hn. rewrite Hbl. by apply (recover_ws_done start size).
  - exists (recover_ws start D H0). split; [done|]. intros j. by apply recover_ws_prefix.
Qed.

Lemma find_logged_spec (blk : gmap Z Z) b i (k : nat) :
  let r := find_logged blk b i k in
  i ≤ r ≤ i + k ∧ (∀ j, i ≤ j < r → blk !!! j ≠ b) ∧ (r < i + k → blk !!! r = b).
Proof using.
  revert i. induction k as [|k IH]; intros i; simpl; [split_and!; intros; lia|].
  destruct (Z.eqb_spec (blk !!! i) b) as [E|E]; [split_and!; intros; try lia; done|].
  destruct (IH (i + 1)) as (H1&H2&H3). split_and!; [lia..| |intros; apply H3; lia].
  intros j Hj. destruct (decide (j = i)) as [->|]; [done|]. apply H2. lia.
Qed.

Lemma log_ok_absorb s L X n : log_ok s L X → n ∈ L → log_ok s L (filter (λ m, m ≠ n) X).
Proof using.
  intros [] Hn. split; auto. intros m Hm HmL HmX. apply lo_clean0; auto. intros Hin. apply HmX.
  apply list_elem_of_filter. split; [|done]. by intros ->.
Qed.

(** [log_write] of a locked buffer, in a log with room for one more block. *)
Lemma log_write_wp s L X b n :
  log_ok s L X → a_held (abs (lg_cache s)) b = Some n → a_refs (abs (lg_cache s)) n < 2 ^ 32 - 1 →
  home (lg_start s) (lg_size s) n → int_ok n → 1 ≤ lg_outstanding s → lh_n s < lg_size s - 1 →
  wp (log_write b) (λ _ s',
     log_ok s' (if decide (n ∈ L) then L else L ++ [n]) (filter (λ m, m ≠ n) X) ∧
     lg_start s' = lg_start s ∧ lg_size s' = lg_size s ∧ lg_outstanding s' = lg_outstanding s ∧
     lg_committing s' = lg_committing s ∧
     abs (lg_cache s') ≡ (if decide (n ∈ L) then abs (lg_cache s) else a_ref n (abs (lg_cache s)))) s.
Proof using HBok.
  intros Hok Hb Hr Hh Hint Ho Hfit. pose proof (lo_n _ _ _ Hok) as Hn. pose proof (lo_size _ _ _ Hok) as Hsz.
  unfold log_write.
  apply wp_bind, wp_acquire; [apply Hok|]. do 3 (wp_step; apply wp_gets). simpl.
  rewrite (geb_false (lh_n s) LOGSIZE), (geb_false (lh_n s) (lg_size s - 1)) by lia. simpl. zbool.
  wp_step. apply wp_gets. simpl. rewrite (bblockno_ok _ _ n) by (auto; apply Hok). wp_step. apply wp_gets. simpl.
  destruct (find_logged_spec (lh_block s) n 0 (Z.to_nat (lh_n s))) as (H1&H2&H3).
  set (i := find_logged _ _ _ _) in *. wp_step. apply wp_modify.
  assert (HL : ∀ j, 0 ≤ j < lh_n s → L !! Z.to_nat j = Some (lh_block s !!! j)).
  { intros j Hj. rewrite (lo_blk _ _ _ Hok), list_lookup_fmap, lookup_seqZ_lt by lia. simpl. do 2 f_equal. lia. }
  destruct (Z.eqb_spec i (lh_n s)) as [Ei|Ei].
  - assert (Hnin : n ∉ L).
    { rewrite (lo_blk _ _ _ Hok), elem_of_fmap_seqZ. intros (j&Hj&E). by apply (H2 j); [lia|]. }
    rewrite !decide_False by done. wp_step. wp_step. apply wp_cache. wp_use (bpin_ok (lg_cache s) b n); auto; [apply Hok|].
    intros _ c' [Hi' E']. wp_step. wp_step. simpl. split; [|auto].
    destruct Hok. split; simpl; auto; try (rewrite ?E'; simpl; auto; fail).
    + rewrite length_app. simpl. lia.
    + rewrite seqZ_app by lia. rewrite fmap_app. f_equal.
      * rewrite lo_blk0 at 1. apply list_fmap_ext. intros ? j Hj%list_elem_of_lookup_2%elem_of_seqZ.
        rewrite lookup_total_insert_ne by lia. done.
      * simpl. rewrite Z.add_0_l, Ei, lookup_total_insert_eq. done.
    + lia.
    + apply NoDup_app. split_and!; auto; [|apply NoDup_singleton]. intros x Hx ->%list_elem_of_singleton. done.
    + intros m Hm. apply elem_of_app in Hm as [Hm| ->%list_elem_of_singleton]; auto.
    + intros m Hm HmL HmX. rewrite !E'. simpl. apply lo_clean0; auto; [set_solver|]. intros Hin. apply HmX.
      apply list_elem_of_filter. split; [|done]. intros ->. set_solver.
  - assert (Hin : n ∈ L).
    { rewrite (lo_blk _ _ _ Hok). apply elem_of_fmap_seqZ. exists i. split; [lia|]. symmetry. apply H3. lia. }
    rewrite !decide_True by done. wp_step. wp_step. wp_step. split; [|auto].
    assert (Hok' : log_ok s L (filter (λ m, m ≠ n) X)) by (by apply log_ok_absorb).
    destruct Hok'. split; simpl; auto. rewrite lo_blk0 at 1. apply list_fmap_ext.
    intros ? j Hj%list_elem_of_lookup_2%elem_of_seqZ. destruct (decide (j = i)) as [->|].
    + rewrite lookup_total_insert_eq. apply H3. lia.
    + by rewrite lookup_total_insert_ne.
Qed.

(** [log_write] of a locked buffer records its block in the transaction
    exactly once (absorbing repeated writes), pins the buffer when it is new,
    and leaves the contents alone; when the log has no room for another block
    it panics, whether or not the block is new. *)
Theorem log_write_records s L X b n :
  log_ok s L X → a_held (abs (lg_cache s)) b = Some n → a_refs (abs (lg_cache s)) n < 2 ^ 32 - 1 →
  home (lg_start s) (lg_size s) n → int_ok n → 1 ≤ lg_outstanding s →
  (lh_n s < lg_size s - 1 →
   wp (log_write b) (λ _ s',
     log_ok s' (if decide (n ∈ L) then L else L ++ [n]) (filter (λ m, m ≠ n) X) ∧
     lg_start s' = lg_start s ∧ lg_size s' = lg_size s ∧ lg_outstanding s' = lg_outstanding s ∧
     lg_committing s' = lg_committing s ∧
     abs (lg_cache s') ≡ (if decide (n ∈ L) then abs (lg_cache s) else a_ref n (abs (lg_cache s)))) s) ∧
  (lg_size s - 1 ≤ lh_n s → log_write b s = Panic "too big a transaction").
Proof using HBok.
  intros Hok Hb Hr Hh Hint Ho. split; intros Hfit; [by apply log_write_wp|].
  unfold log_write, acquire, mbind, M_bind, gets, modify. rewrite (lo_lock _ _ _ Hok). simpl.
  rewrite (geb_true (lh_n s) (lg_size s - 1)) by lia. by rewrite orb_true_r.
Qed.

(** [begin_op] admits an operation exactly when no commit is running and
    the log has MAXOPBLOCKS blocks reserved for it and for every operation in
    progress; otherwise the process goes to sleep on the log and nothing has
    changed. *)
Theorem begin_op_admits s :
  lg_lock s = false →
  begin_op s =
    if negb (lg_committing s) && (lh_n s + (lg_outstanding s + 1) * MAXOPBLOCKS <=? LOGSIZE)
    then Ok tt (set_outstanding (lg_outstanding s + 1) s) else Sleep LOG_CHAN s.
Proof using.
  destruct s as [lk st sz o cm dv n blk c]; simpl. intros ->. unfold begin_op, acquire, release, mbind, M_bind, gets, modify, sleep_on. simpl.
  destruct cm; simpl; [done|]. rewrite Z.gtb_ltb, Z.leb_antisym. by destruct (_ <? _).
Qed.

(** C39: [begin_op] reserves space for LOGSIZE blocks in total, one more than
    the log can hold: an operation that was admitted and that writes no more
    than its MAXOPBLOCKS blocks makes [log_write] panic when the transaction
    already holds [LOGSIZE - 1] blocks, in a log of the size mkfs gives it. *)
Theorem log_reservation_overcommits s b :
  lg_lock s = false → lg_size s = LOGSIZE → lg_outstanding s = 2 → lh_n s = 0 → lg_committing s = false →
  (∃ s', begin_op s = Ok tt s' ∧ lg_outstanding s' * MAXOPBLOCKS = LOGSIZE) ∧
  ∀ s', lg_lock s' = false → lg_size s' = LOGSIZE → lg_outstanding s' = 3 → lh_n s' = 3 * MAXOPBLOCKS - 1 →
    log_write b s' = Panic "too big a transaction".
Proof using.
  intros Hl Hs Ho Hn Hc. split.
  - eexists. unfold begin_op, acquire, release, mbind, M_bind, gets, modify. simpl. rewrite Hl. simpl. rewrite Hc, Hn, Ho. simpl.
    split; [reflexivity|done].
  - intros s' Hl' Hs' Ho' Hn'. unfold log_write, acquire, mbind, M_bind, gets, modify. rewrite Hl'. simpl.
    by rewrite Hs', Hn'.
Qed.
End log_wp.
