(* ===== verification/Txn.v ===== *)
(** * A file system operation between begin_op and end_op

    What the callers of the log rely on while a transaction is open: the
    blocks logged so far ([L]), the blocks whose buffers are held ([H]), and
    those among them that were changed but not passed to [log_write] yet
    ([X]).  Each law says how one call changes the contents that the file
    system sees; no call writes to the disk. *)
From S2P Require Import Prelude Block BufCache Log LogDisk LogProps.

Section txn.
Context {S : Type} `{HB : !BufCache S} `{HBok : !BufCacheOk S}.
Implicit Types s : lstate S.

(** The contents of the file system's blocks, and the block behind a handle. *)
Definition tview s : Z → block := a_view (abs (lg_cache s)).
Definition thandle s (h : Z) : option Z := a_held (abs (lg_cache s)) h.

Definition blocks_of (L H : list Z) : gset Z := list_to_set (L ++ H).

Record tx_ok s (L X H : list Z) : Prop := {
  tx_log : log_ok s L X;
  tx_refs : ∀ n, a_refs (abs (lg_cache s)) n = (if decide (n ∈ L) then 1 else 0) + (if decide (n ∈ H) then 1 else 0);
  tx_held : ∀ h n, thandle s h = Some n → n ∈ H;
  tx_live : a_live (abs (lg_cache s)) = size (blocks_of L H);
  tx_sub : ∀ n, n ∈ X → n ∈ H;
  tx_open : 1 ≤ lg_outstanding s
}.

(** The log's own fields and the disk stay as they are. *)
Record tx_same s s' : Prop := {
  ts_start : lg_start s' = lg_start s;
  ts_size : lg_size s' = lg_size s;
  ts_out : lg_outstanding s' = lg_outstanding s;
  ts_com : lg_committing s' = lg_committing s;
  ts_blocks : ∀ n, a_blocks (abs (lg_cache s')) n = a_blocks (abs (lg_cache s)) n;
  ts_trace : a_trace (abs (lg_cache s')) = a_trace (abs (lg_cache s))
}.

#[global] Instance tx_same_preorder : PreOrder tx_same.
Proof.
  split; [by split|]. intros s1 s2 s3 [] []. split; congruence || (intros; etrans; eauto).
Qed.

(** Replacing the cache by one with the same disk keeps the log's invariant. *)
Lemma log_ok_cache s L X X' c' :
  log_ok s L X → cache_inv c' → (∀ n, a_blocks (abs c') n = a_blocks (abs (lg_cache s)) n) →
  (∀ n, n ∉ X' → n ∉ X ∧ a_view (abs c') n = a_view (abs (lg_cache s)) n) → log_ok (set_cache c' s) L X'.
Proof.
  intros [] Hi Hb Hv. split; simpl; auto.
  - by rewrite Hb.
  - intros n Hn HL HX. destruct (Hv n HX) as [HX' ->]. rewrite Hb. auto.
Qed.

Lemma size_le L H : (size (blocks_of L H) ≤ length L + length H)%nat.
Proof.
  unfold blocks_of. rewrite <- length_app. induction (L ++ H) as [|a l IH]; [by rewrite list_to_set_nil, size_empty|].
  rewrite list_to_set_cons.
  pose proof (size_union_alt {[a]} (list_to_set l : gset Z)) as E. rewrite E, size_singleton.
  pose proof (subseteq_size (list_to_set l ∖ {[a]} : gset Z) (list_to_set l)) as Hs. apply le_n_S. etrans; [apply Hs; set_solver|done].
Qed.

Lemma tx_bread s L X H n :
  tx_ok s L X H → n ∉ H → length L + length H < NBUF →
  wp (cache (bread ROOTDEV n)) (λ h s', tx_ok s' L X (n :: H) ∧ tx_same s s' ∧
    thandle s' h = Some n ∧ (∀ m, tview s' m = tview s m) ∧
    ∀ h' m, thandle s h' = Some m → h' ≠ h ∧ thandle s' h' = Some m) s.
Proof.
  intros Hok Hn Hroom. pose proof Hok as [Hlog Hrefs Hheld Hlive Hsub Hopen].
  pose proof (size_le L H) as Hsz. apply wp_cache. wp_use bread_ok; [apply Hlog| |].
  { split_and!; [intros h E; by apply Hn, (Hheld h)|right; lia|]. rewrite Hrefs. repeat case_decide; lia. }
  intros h c' (Hi&Hh&E). unfold thandle, tview. simpl. split_and!.
  - split; unfold thandle; simpl; auto.
    + eapply log_ok_cache; eauto; intros m; rewrite E; done.
    + intros m. rewrite E. simpl. destruct (decide (m = n)) as [->|Hne]; fnl; rewrite Hrefs.
      * rewrite (decide_False (P := n ∈ H)), (decide_True (P := n ∈ n :: H)) by (done || left). lia.
      * f_equal. apply decide_ext. rewrite elem_of_cons. tauto.
    + intros h' m. rewrite E. simpl. unfold insert, fn_insert. case_decide; [intros [= ->]; left|]. intros Hm. right. eauto.
    + rewrite E. simpl. rewrite Hlive, Hrefs, (decide_False (P := n ∈ H)) by done. unfold blocks_of.
      case_decide as HL; simpl.
      * rewrite Z.add_0_r. do 2 f_equal. set_solver.
      * replace (list_to_set (L ++ n :: H) : gset Z) with ({[n]} ∪ list_to_set (L ++ H) : gset Z) by set_solver.
        rewrite size_union, size_singleton by set_solver. lia.
    + intros m Hm. right. auto.
  - split; simpl; intros; rewrite ?E; done.
  - rewrite E. simpl. by fnl.
  - intros m. by rewrite E.
  - intros h' m Hm. assert (h' ≠ h) as Hne by (intros ->; congruence). split; [done|]. rewrite E. simpl. by fnl.
Qed.

Lemma tx_set s L X H h n d :
  tx_ok s L X H → thandle s h = Some n → blk_ok d →
  wp (put_data h d) (λ _ s', tx_ok s' L (n :: X) H ∧ tx_same s s' ∧
    (∀ m, tview s' m = if decide (m = n) then d else tview s m) ∧ ∀ h', thandle s' h' = thandle s h') s.
Proof.
  intros Hok Hh Hd. pose proof Hok as [Hlog Hrefs Hheld Hlive Hsub Hopen]. unfold put_data. apply wp_modify.
  destruct (set_bdata_ok (lg_cache s) h n d) as [Hi E]; [apply Hlog|done..|]. set (c' := set_bdata _ _ _) in *.
  unfold thandle, tview. simpl. split_and!.
  - split; unfold thandle; simpl; auto.
    + eapply log_ok_cache; eauto; intros m; rewrite E; [done|]. rewrite not_elem_of_cons. intros [Hm HX].
      simpl. by fnl.
    + intros m. rewrite E. apply Hrefs.
    + intros h' m. rewrite E. apply Hheld.
    + rewrite E. apply Hlive.
    + intros m [->|Hm]%elem_of_cons; eauto.
  - split; simpl; intros; rewrite ?E; done.
  - intros m. rewrite E. simpl. unfold insert, fn_insert. repeat case_decide; congruence.
  - intros h'. by rewrite E.
Qed.

Lemma tx_log_write s L X H h n :
  tx_ok s L X H → thandle s h = Some n → home (lg_start s) (lg_size s) n → int_ok n → lh_n s < lg_size s - 1 →
  wp (log_write h) (λ _ s', tx_ok s' (if decide (n ∈ L) then L else L ++ [n]) (filter (λ m, m ≠ n) X) H ∧ tx_same s s' ∧
    (∀ m, tview s' m = tview s m) ∧ ∀ h', thandle s' h' = thandle s h') s.
Proof.
  intros Hok Hh Hhome Hint Hfit. pose proof Hok as [Hlog Hrefs Hheld Hlive Hsub Hopen]. pose proof (Hheld _ _ Hh) as HnH.
  wp_use log_write_wp; eauto.
  { rewrite Hrefs. repeat case_decide; lia. }
  intros _ s' (Hlog'&E1&E2&E3&E4&E). unfold thandle, tview. split_and!.
  - split; unfold thandle; auto.
    + intros m. rewrite E. case_decide as HL; simpl; [apply Hrefs|]. destruct (decide (m = n)) as [->|Hne]; fnl; rewrite Hrefs.
      * rewrite (decide_False (P := n ∈ L)), (decide_True (P := n ∈ L ++ [n])) by (set_solver). lia.
      * f_equal. apply decide_ext. rewrite elem_of_app, list_elem_of_singleton. tauto.
    + intros h' m. rewrite E. case_decide; apply Hheld.
    + rewrite E. case_decide; [apply Hlive|]. simpl. rewrite Hlive. do 2 f_equal. unfold blocks_of. set_solver.
    + intros m [_ Hm]%list_elem_of_filter. auto.
    + lia.
  - split; auto; intros; rewrite E; by case_decide.
  - intros m. rewrite E. by case_decide.
  - intros m. rewrite E. by case_decide.
Qed.

Lemma tx_brelse s L X H h n :
  tx_ok s L X H → thandle s h = Some n → n ∉ X → home (lg_start s) (lg_size s) n →
  wp (cache (brelse h)) (λ _ s', tx_ok s' L X (filter (λ m, m ≠ n) H) ∧ tx_same s s' ∧
    (∀ m, tview s' m = tview s m) ∧ ∀ h' m, thandle s h' = Some m → m ≠ n → thandle s' h' = Some m) s.
Proof.
  intros Hok Hh HX Hhome. pose proof Hok as [Hlog Hrefs Hheld Hlive Hsub Hopen]. pose proof (Hheld _ _ Hh) as HnH.
  apply wp_cache. wp_use brelse_ok; [apply Hlog|exact Hh| |].
  { unfold can_relse. rewrite Hrefs, (decide_True (P := n ∈ H)) by done. case_decide as HL; [left; lia|right].
    symmetry. by apply (lo_clean _ _ _ Hlog). }
  intros _ c' [Hi E]. unfold thandle, tview. simpl. split_and!.
  - split; unfold thandle; simpl; auto.
    + eapply log_ok_cache; eauto; intros m; rewrite E; done.
    + intros m. rewrite E. simpl. destruct (decide (m = n)) as [->|Hne]; fnl; rewrite Hrefs.
      * rewrite (decide_True (P := n ∈ H)), (decide_False (P := n ∈ filter _ H)); [lia| |done].
        rewrite list_elem_of_filter. tauto.
      * f_equal. apply decide_ext. rewrite list_elem_of_filter. tauto.
    + intros h' m. rewrite E. simpl. unfold insert, fn_insert. case_decide as Eh; [done|]. intros Hm.
      apply list_elem_of_filter. split; [|by eapply Hheld]. intros ->. apply Eh. eapply (inv_inj (lg_cache s)); eauto. apply Hlog.
    + rewrite E. simpl. rewrite Hlive, Hrefs, (decide_True (P := n ∈ H)) by done. unfold blocks_of.
      case_decide as HL; simpl.
      * rewrite Z.sub_0_r. do 2 f_equal. apply set_eq. intros m. rewrite !elem_of_list_to_set, !elem_of_app, list_elem_of_filter.
        destruct (decide (m = n)); naive_solver.
      * replace (list_to_set (L ++ H) : gset Z) with ({[n]} ∪ list_to_set (L ++ filter (λ m, m ≠ n) H) : gset Z).
        { rewrite size_union, size_singleton; [lia|]. intros m. rewrite elem_of_singleton, elem_of_list_to_set, elem_of_app, list_elem_of_filter.
          intros ->. naive_solver. }
        apply set_eq. intros m. rewrite elem_of_union, elem_of_singleton, !elem_of_list_to_set, !elem_of_app, list_elem_of_filter.
        destruct (decide (m = n)); naive_solver.
    + intros m Hm. apply list_elem_of_filter. split; [by intros ->|auto].
  - split; simpl; intros; rewrite ?E; done.
  - intros m. by rewrite E.
  - intros h' m Hm Hne. rewrite E. simpl. rewrite fn_lookup_insert_ne; [done|]. intros ->. unfold thandle in Hh. congruence.
Qed.

Lemma tx_data s L X H h n : tx_ok s L X H → thandle s h = Some n → bdata h (lg_cache s) = tview s n.
Proof. intros [Hlog _ _ _ _ _] Hh. apply bdata_ok; [apply Hlog|done]. Qed.

Lemma tx_blk_ok s L X H n : tx_ok s L X H → blk_ok (tview s n).
Proof. intros [Hlog _ _ _ _ _]. apply inv_blk_ok, Hlog. Qed.

(** A transaction with no buffer held, and the state between operations. *)
Lemma idle_tx s L : log_ok s L [] → idle (abs (lg_cache s)) L → 1 ≤ lg_outstanding s → tx_ok s L [] [].
Proof.
  intros Hlog (H1&H2&H3) Ho. split; auto.
  - intros n. rewrite H2. by rewrite (decide_False (P := n ∈ [])), Z.add_0_r by apply not_elem_of_nil.
  - intros h n. unfold thandle. by rewrite H1.
  - rewrite H3. unfold blocks_of. rewrite app_nil_r, size_list_to_set; [done|apply Hlog].
Qed.

Lemma tx_idle s L : tx_ok s L [] [] → idle (abs (lg_cache s)) L.
Proof.
  intros [Hlog H2 H1 H3 _ _]. split_and!.
  - intros h. destruct (a_held _ h) as [n|] eqn:E; [|done]. by apply H1, elem_of_nil in E.
  - intros n. rewrite H2. by rewrite (decide_False (P := n ∈ [])), Z.add_0_r by apply not_elem_of_nil.
  - rewrite H3. unfold blocks_of. rewrite app_nil_r, size_list_to_set; [done|apply Hlog].
Qed.

Lemma begin_op_wp s L :
  log_ok s L [] → idle (abs (lg_cache s)) L → lg_committing s = false → 0 ≤ lg_outstanding s →
  length L + (lg_outstanding s + 1) * MAXOPBLOCKS ≤ LOGSIZE →
  wp begin_op (λ _ s', tx_ok s' L [] [] ∧ lg_start s' = lg_start s ∧ lg_size s' = lg_size s ∧
    lg_outstanding s' = lg_outstanding s + 1 ∧ lg_committing s' = false ∧ lg_cache s' = lg_cache s) s.
Proof.
  intros Hlog Hid Hc Ho Hfit. unfold begin_op. apply wp_bind, wp_acquire; [apply Hlog|]. cbv beta.
  do 3 (wp_step; apply wp_gets). simpl. rewrite Hc, (lo_n _ _ _ Hlog).
  zbool. wp_step. wp_step. wp_step. simpl.
  split_and!; try done. apply idle_tx; simpl; [|done|lia]. destruct Hlog. by split.
Qed.
End txn.
