(* ===== verification/LogDemo.v ===== *)
(** * The log on a concrete disk

    The disk of the examples has its log at block 2, in 30 blocks; a
    committed transaction with one block, number 40, waits in the log. *)
From S2P Require Import Prelude Block Bio BioProps BioSpec BufCache Log LogDisk LogProps Txn.

Module LogDemo.

#[local] Instance cache7 : BufCache bstate := Bio_cache 7.
#[local] Instance cache7_ok : BufCacheOk bstate := Bio_cache_ok 7.

Definition data0 : block := blk_store 4 zero_block 0 42.
Definition header0 : block := blk_store 4 (blk_store 4 zero_block 0 1) 4 40.
Definition disk1 : disk :=
  Disk (λ n, if n =? 2 then header0 else if n =? 3 then data0 else zero_block) [].

Lemma disk1_ok n : blk_ok (d_blocks disk1 n).
Proof.
  simpl. destruct (n =? 2); [by apply blk_store_ok, blk_store_ok, zero_block_ok|].
  destruct (n =? 3); [by apply blk_store_ok, zero_block_ok|apply zero_block_ok].
Qed.

(** The log and the cache of a machine that has just booted. *)
Definition log0 (c : bstate) : lstate bstate := LState false 0 0 0 false 0 0 ∅ c.

Lemma boot (d : disk) : (∀ n, blk_ok (d_blocks d n)) → ∃ c, rebooted (d_blocks d) (log0 c).
Proof.
  intros Hd. destruct (wp_inv _ _ _ (binit_spec 7 d Hd)) as (_&c&_&Hi&E). exists c.
  split; [done| |intros n; simpl; change (d_blocks (bc_disk c) n) with (a_blocks (babs c) n); by rewrite E].
  destruct E as (_&_&_&R&L&H). split_and!; [done| |done].
  intros n. rewrite decide_False by apply not_elem_of_nil. apply R.
Qed.

Lemma header1_valid : hdr_valid 2 30 (d_blocks disk1).
Proof.
  assert (E : hdr_n (d_blocks disk1 2) = 1) by (vm_compute; reflexivity).
  assert (E0 : hdr_block (d_blocks disk1 2) 0 = 40) by (vm_compute; reflexivity).
  split; rewrite E; try done.
  - intros j Hj. replace j with 0 by lia. rewrite E0. unfold home. lia.
  - change (seqZ 0 1) with [0]. apply NoDup_singleton.
Qed.

Lemma header0_valid : hdr_valid 2 30 (d_blocks BioDemo.disk0).
Proof.
  assert (E : hdr_n (d_blocks BioDemo.disk0 2) = 0) by (vm_compute; reflexivity).
  split; rewrite E; try done; [intros; lia|constructor].
Qed.

(** Recovery installs block 40. *)
Lemma recovery_idempotent_witness :
  ∃ c, wp (initlog ROOTDEV 2 30) (λ _ s', log_ok s' [] [] ∧ d_blocks (bc_disk (lg_cache s')) 40 = data0) (log0 c).
Proof.
  destruct (boot disk1 disk1_ok) as [c Hc]. exists c.
  eapply wp_mono; [apply (recovery_idempotent (d_blocks disk1) (log0 c) 2 30 Hc); [done|apply header1_valid]|].
  cbv beta. intros _ s' (Hok&Hb&_). split; [done|].
  change (a_blocks (abs (lg_cache s')) 40 = data0). rewrite Hb by (unfold home; lia).
  unfold logical, log_writes.
  replace (hdr_n (d_blocks disk1 2)) with 1 by (vm_compute; reflexivity). change (seqZ 0 1) with [0]. simpl.
  replace (hdr_block header0 0) with 40 by (vm_compute; reflexivity). apply fn_lookup_insert.
Defined.

(** On a blank disk, a transaction that writes [data0] to block 40, one call
    after the other. *)

(** Blank, with the log initialised and the operation begun. *)
Lemma begun : ∃ s, tx_ok s [] [] [] ∧ lg_start s = 2 ∧ lg_size s = 30 ∧ lg_outstanding s = 1 ∧ lg_committing s = false.
Proof.
  destruct (boot _ BioDemo.disk0_ok) as [c Hc].
  assert (H : wp (initlog ROOTDEV 2 30 ;; begin_op) (λ _ s, tx_ok s [] [] [] ∧ lg_start s = 2 ∧ lg_size s = 30 ∧
    lg_outstanding s = 1 ∧ lg_committing s = false) (log0 c)).
  { wp_step. wp_use (initlog_wp _ _ _ _ Hc); [done|apply header0_valid|].
    intros _ s (H0&Hok&Hid&E1&E2&E3&E4&_). simpl in E3, E4.
    wp_use (begin_op_wp s []); auto; rewrite ?E3; [done..|].
    intros _ s' (Hok'&F1&F2&F3&F4&_). rewrite F1, F2, F3, E1, E2. auto. }
  destruct (wp_inv _ _ _ H) as (_&s&_&Hs). by exists s.
Qed.

(** The buffer of block 40 is held and filled. *)
Lemma filled : ∃ s b, tx_ok s [] [40] [40] ∧ thandle s b = Some 40 ∧ tview s 40 = data0 ∧
  lg_start s = 2 ∧ lg_size s = 30 ∧ lg_outstanding s = 1 ∧ lg_committing s = false.
Proof.
  destruct begun as (s0&Hok&E1&E2&E3&E4).
  assert (H : wp (b ← cache (bread ROOTDEV 40); put_data b data0 ;; mret b) (λ b s,
    tx_ok s [] [40] [40] ∧ thandle s b = Some 40 ∧ tview s 40 = data0 ∧
    lg_start s = 2 ∧ lg_size s = 30 ∧ lg_outstanding s = 1 ∧ lg_committing s = false) s0).
  { wp_step. wp_use tx_bread; [done|apply not_elem_of_nil|done|]. intros b s1 (Hok1&[]&Hh&_).
    wp_step. wp_use tx_set; [done..|by apply blk_store_ok, zero_block_ok|]. intros _ s2 (Hok2&[]&Hv&Hh2).
    apply wp_ret. rewrite Hh2, Hv. split_and!; congruence || done. }
  destruct (wp_inv _ _ _ H) as (b&s&_&Hs). by exists s, b.
Qed.

Lemma log_write_records_witness :
  ∃ s b, wp (log_write b) (λ _ s', log_ok s' [40] [] ∧ lg_start s' = 2) s.
Proof.
  destruct filled as (s&b&Hok&Hh&Hv&E1&E2&E3&E4). exists s, b.
  pose proof (lo_n _ _ _ (tx_log _ _ _ _ Hok)) as Hn. simpl in Hn.
  eapply wp_mono; [apply (log_write_records s [] [40] b 40 (tx_log _ _ _ _ Hok) Hh)|].
  - rewrite (tx_refs _ _ _ _ Hok). done.
  - rewrite E1, E2. unfold home. lia.
  - done.
  - lia.
  - lia.
  - cbv beta. intros _ s' (H1&H2&_). split; [exact H1|congruence].
Defined.

Lemma written : ∃ s, tx_ok s [40] [] [] ∧ tview s 40 = data0 ∧
  lg_start s = 2 ∧ lg_size s = 30 ∧ lg_outstanding s = 1 ∧ lg_committing s = false.
Proof.
  destruct filled as (s&b&Hok&Hh&Hv&E1&E2&E3&E4). pose proof (lo_n _ _ _ (tx_log _ _ _ _ Hok)) as Hn. simpl in Hn.
  assert (H : wp (log_write b ;; cache (brelse b)) (λ _ s, tx_ok s [40] [] [] ∧ tview s 40 = data0 ∧
    lg_start s = 2 ∧ lg_size s = 30 ∧ lg_outstanding s = 1 ∧ lg_committing s = false) s).
  { wp_step. wp_use tx_log_write; [done..|rewrite E1, E2; unfold home; lia|done|lia|].
    intros _ s1 (Hok1&T1&Hv1&Hh1). rewrite <- Hh1 in Hh.
    wp_use tx_brelse; [done|done|apply not_elem_of_nil|rewrite (ts_start _ _ T1), (ts_size _ _ T1), E1, E2; unfold home; lia|].
    intros _ s2 (Hok2&[]&Hv2&_). destruct T1. rewrite Hv2, Hv1. split_and!; congruence || done. }
  destruct (wp_inv _ _ _ H) as (_&s'&_&Hs). by exists s'.
Qed.

Lemma log_commit_crash_atomic_witness :
  ∃ s, wp end_op (λ _ s', log_ok s' [] [] ∧ d_blocks (bc_disk (lg_cache s')) 40 = data0) s.
Proof.
  destruct written as (s&Hok&Hv&E1&E2&E3&E4). exists s.
  eapply wp_mono; [apply (log_commit_crash_atomic s [40] (tx_log _ _ _ _ Hok) (tx_idle _ _ Hok) E3 E4)|].
  cbv beta. intros _ s' (H1&_&_&H2&_). split; [done|].
  destruct (H2 40) as [_ H3]; [rewrite E1, E2; unfold home; lia|].
  change (a_blocks (abs (lg_cache s')) 40 = data0). by rewrite H3.
Defined.

Lemma begin_op_admits_witness :
  ∃ s : lstate bstate, begin_op s = Ok tt (set_outstanding 1 s).
Proof.
  exists (log0 (bstate0 BioDemo.disk0)). rewrite (begin_op_admits (log0 (bstate0 BioDemo.disk0))) by reflexivity. reflexivity.
Defined.

Lemma log_reservation_overcommits_witness :
  ∃ s' : lstate bstate, log_write 0 s' = Panic "too big a transaction".
Proof.
  pose (c := bstate0 BioDemo.disk0).
  destruct (log_reservation_overcommits (LState false 2 30 2 false 1 0 ∅ c) 0) as [_ H]; [reflexivity..|].
  exists (LState false 2 30 3 false 1 29 ∅ c). by apply H.
Defined.
End LogDemo.
