(* ===== verification/Fs.v ===== *)
(** * kernel/fs.c: block allocation, inodes, directories and paths

    The state is the inode table, the superblock, the log (with the buffer
    cache below it) and the memory of the running process, reached through
    [UserCopy].  Inodes are numbered by their slot in [itable.inode]; a null
    [struct inode *] is [None].  Names and paths are lists of bytes: a path
    without its terminator, a name as the DIRSIZ bytes of its buffer.
    [printf] has no effect on this state. *)
From S2P Require Import Prelude Kstring Block Sleeplock BufCache Log.

(** ** Constants and layout (fs.h, param.h, stat.h) *)
Definition ROOTINO : Z := 1.
Definition FSMAGIC : Z := 0x10203040.
Definition NDIRECT : Z := 12.
Definition NINDIRECT : Z := BSIZE / 4.
Definition MAXFILE : Z := NDIRECT + NINDIRECT.
Definition NINODE : Z := 50.
Definition DIRSIZ : Z := 14.
Definition T_DIR : Z := 1.
Definition T_FILE : Z := 2.
Definition T_DEVICE : Z := 3.
Definition sizeof_dinode : Z := 64.
Definition sizeof_dirent : Z := 16.
Definition IPB : Z := BSIZE / sizeof_dinode.
Definition BPB : Z := BSIZE * 8.

Record superblock := Superblock {
  sb_magic : Z; sb_size : Z; sb_nblocks : Z; sb_ninodes : Z;
  sb_nlog : Z; sb_logstart : Z; sb_inodestart : Z; sb_bmapstart : Z
}.

Definition IBLOCK (i : Z) (sb : superblock) : Z := i / IPB + sb_inodestart sb.
Definition BBLOCK (b : Z) (sb : superblock) : Z := b / BPB + sb_bmapstart sb.

(** [struct inode] (file.h). *)
Record inode := Inode {
  i_dev : Z; i_inum : Z; i_ref : Z; i_lock : sleeplock; i_valid : bool;
  i_type : Z; i_major : Z; i_minor : Z; i_nlink : Z; i_size : Z;
  i_addrs : list Z
}.

#[global] Instance inode_inhabited : Inhabited inode :=
  populate (Inode 0 0 0 (SL false false 0) false 0 0 0 0 0 (replicate (Z.to_nat NDIRECT + 1) 0)).

Definition set_iref r i := Inode (i_dev i) (i_inum i) r (i_lock i) (i_valid i) (i_type i) (i_major i) (i_minor i) (i_nlink i) (i_size i) (i_addrs i).
Definition set_ilock l i := Inode (i_dev i) (i_inum i) (i_ref i) l (i_valid i) (i_type i) (i_major i) (i_minor i) (i_nlink i) (i_size i) (i_addrs i).
Definition set_ivalid v i := Inode (i_dev i) (i_inum i) (i_ref i) (i_lock i) v (i_type i) (i_major i) (i_minor i) (i_nlink i) (i_size i) (i_addrs i).
Definition set_itype t i := Inode (i_dev i) (i_inum i) (i_ref i) (i_lock i) (i_valid i) t (i_major i) (i_minor i) (i_nlink i) (i_size i) (i_addrs i).
Definition set_inlink n i := Inode (i_dev i) (i_inum i) (i_ref i) (i_lock i) (i_valid i) (i_type i) (i_major i) (i_minor i) n (i_size i) (i_addrs i).
Definition set_idevno ma mi i := Inode (i_dev i) (i_inum i) (i_ref i) (i_lock i) (i_valid i) (i_type i) ma mi (i_nlink i) (i_size i) (i_addrs i).
Definition set_isize n i := Inode (i_dev i) (i_inum i) (i_ref i) (i_lock i) (i_valid i) (i_type i) (i_major i) (i_minor i) (i_nlink i) n (i_addrs i).
Definition set_iaddr (k a : Z) i := Inode (i_dev i) (i_inum i) (i_ref i) (i_lock i) (i_valid i) (i_type i) (i_major i) (i_minor i) (i_nlink i) (i_size i) (<[Z.to_nat k := a]> (i_addrs i)).
Definition iaddr (k : Z) (i : inode) : Z := i_addrs i !!! Z.to_nat k.

(** ** On-disk inodes ([struct dinode]) inside a block *)

Definition dinode_off (inum : Z) : Z := (inum `mod` IPB) * sizeof_dinode.
Definition di_type (d : block) (o : Z) : Z := s16 (blk_load 2 d o).
Definition di_major (d : block) (o : Z) : Z := s16 (blk_load 2 d (o + 2)).
Definition di_minor (d : block) (o : Z) : Z := s16 (blk_load 2 d (o + 4)).
Definition di_nlink (d : block) (o : Z) : Z := s16 (blk_load 2 d (o + 6)).
Definition di_size (d : block) (o : Z) : Z := blk_load 4 d (o + 8).
Definition di_addrs (d : block) (o : Z) : list Z :=
  (λ k, blk_load 4 d (o + 12 + 4 * k)) <$> seqZ 0 (NDIRECT + 1).

Fixpoint put_addrs (d : block) (o : Z) (l : list Z) : block :=
  match l with [] => d | a :: l => put_addrs (blk_store 4 d o a) (o + 4) l end.

(** The assignments of [iupdate]. *)
Definition put_dinode (d : block) (o : Z) (i : inode) : block :=
  let d := blk_store 2 d o (i_type i) in
  let d := blk_store 2 d (o + 2) (i_major i) in
  let d := blk_store 2 d (o + 4) (i_minor i) in
  let d := blk_store 2 d (o + 6) (i_nlink i) in
  let d := blk_store 4 d (o + 8) (i_size i) in
  put_addrs d (o + 12) (i_addrs i).

(** ** The state *)

Record fstate (S U : Type) := FState {
  it_lock : bool;                 (* itable.lock *)
  it_inode : gmap Z inode;        (* itable.inode *)
  fs_sb : superblock;
  fs_log : lstate S;
  fs_user : U                     (* memory of the running process *)
}.
Arguments FState {S U}. Arguments it_lock {S U}. Arguments it_inode {S U}.
Arguments fs_sb {S U}. Arguments fs_log {S U}. Arguments fs_user {S U}.

(** Copies between the kernel and the running process (vm.c): [copyout]
    answers 0 or -1; [copyin] is given the bytes that the kernel buffer holds
    and also answers what it holds afterwards, since a copy that fails has
    already written the bytes before the fault. *)
Class UserCopy (U : Type) := {
  copyout : Z → list Z → M U Z;
  copyin : Z → list Z → M U (list Z * Z)
}.

(** The source or destination of a transfer: a user address, or a kernel
    buffer given by its bytes. *)
Inductive ubuf :=
  | UserBuf (va : Z)
  | KernBuf (bytes : list Z).

Section fs.
Context {S U : Type} `{!BufCache S} `{!UserCopy U}.
Variable pid : Z.
Abbreviation fstate := (fstate S U).
Implicit Types s : fstate.

Definition set_it_lock (b : bool) s : fstate := FState b (it_inode s) (fs_sb s) (fs_log s) (fs_user s).
Definition inode_at (i : Z) s : inode := it_inode s !!! i.
Definition put_inode (i : Z) (x : inode) s : fstate := FState (it_lock s) (<[i := x]> (it_inode s)) (fs_sb s) (fs_log s) (fs_user s).
Definition set_sb (sb : superblock) s : fstate := FState (it_lock s) (it_inode s) sb (fs_log s) (fs_user s).
Definition set_log (l : lstate S) s : fstate := FState (it_lock s) (it_inode s) (fs_sb s) l (fs_user s).
Definition set_user (u : U) s : fstate := FState (it_lock s) (it_inode s) (fs_sb s) (fs_log s) u.

Definition log {A} (m : M (lstate S) A) : M fstate A := zoom fs_log set_log m.
Definition user {A} (m : M U A) : M fstate A := zoom fs_user set_user m.
Definition bread (dev n : Z) : M fstate Z := log (cache (BufCache.bread dev n)).
Definition brelse (b : Z) : M fstate unit := log (cache (BufCache.brelse b)).
Definition log_write (b : Z) : M fstate unit := log (Log.log_write b).
Definition data (b : Z) : M fstate block := log (get_data b).
Definition set_data (b : Z) (d : block) : M fstate unit := log (put_data b d).
Definition ird {A} (f : inode → A) (i : Z) : M fstate A := gets (λ s, f (inode_at i s)).
Definition iupd (i : Z) (f : inode → inode) : M fstate unit := modify (λ s, put_inode i (f (inode_at i s)) s).

(** ** Blocks *)

Definition readsb (dev : Z) : M fstate superblock :=
  bp ← bread dev 1;
  d ← data bp;
  let w k := blk_load 4 d (4 * k) in
  brelse bp ;;
  mret (Superblock (w 0) (w 1) (w 2) (w 3) (w 4) (w 5) (w 6) (w 7)).

Definition fsinit (dev : Z) : M fstate unit :=
  sb ← readsb dev;
  modify (set_sb sb) ;;
  if negb (sb_magic sb =? FSMAGIC) then panic "invalid file system"
  else log (initlog dev (sb_logstart sb) (sb_nlog sb)).

Definition bzero (dev bno : Z) : M fstate unit :=
  bp ← bread dev bno;
  d ← data bp;
  set_data bp (mem_blk (memset (blk_mem d) 0 0 BSIZE) (length d)) ;;
  log_write bp ;;
  brelse bp.

(** The mask and the test of bit [bi] of a bitmap block. *)
Definition bit_mask (bi : Z) : Z := Z.shiftl 1 (bi `mod` 8).
Definition bit_clear (d : block) (bi : Z) : bool := Z.land (blk_load 1 d (bi / 8)) (bit_mask bi) =? 0.

(** The inner loop of [balloc], [k] more rounds. *)
Fixpoint find_clear (size b : Z) (d : block) (bi : Z) (k : nat) : option Z :=
  match k with
  | O => None
  | Datatypes.S k =>
      if negb (b + bi <? size) then None
      else if bit_clear d bi then Some bi
      else find_clear size b d (bi + 1) k
  end.

Fixpoint balloc_loop (dev b : Z) (fuel : nat) : M fstate Z :=
  match fuel with
  | O => λ _, NoFuel
  | Datatypes.S fuel =>
      sb ← gets fs_sb;
      if b <? sb_size sb then
        bp ← bread dev (BBLOCK b sb);
        d ← data bp;
        match find_clear (sb_size sb) b d 0 (Z.to_nat BPB) with
        | Some bi =>
            set_data bp (blk_store 1 d (bi / 8) (Z.lor (blk_load 1 d (bi / 8)) (bit_mask bi))) ;;
            log_write bp ;;
            brelse bp ;;
            bzero dev (b + bi) ;;
            mret (b + bi)
        | None => brelse bp ;; balloc_loop dev (b + BPB) fuel
        end
      else mret 0
  end.

(** One round per bitmap block, and the last test. *)
Definition balloc (dev : Z) : M fstate Z :=
  sb ← gets fs_sb; balloc_loop dev 0 (Z.to_nat (sb_size sb / BPB) + 2).

Definition bfree (dev b : Z) : M fstate unit :=
  sb ← gets fs_sb;
  bp ← bread dev (BBLOCK b sb);
  let bi := b `mod` BPB in
  d ← data bp;
  if bit_clear d bi then panic "freeing free block"
  else
    set_data bp (blk_store 1 d (bi / 8) (Z.land (blk_load 1 d (bi / 8)) (Z.lnot (bit_mask bi)))) ;;
    log_write bp ;;
    brelse bp.

(** ** Inodes *)

Definition inode_lock (i : Z) s : sleeplock := i_lock (inode_at i s).
Definition put_inode_lock (i : Z) (l : sleeplock) s : fstate := put_inode i (set_ilock l (inode_at i s)) s.
Definition acquirei (i : Z) : M fstate unit := acquiresleep (inode_lock i) (put_inode_lock i) pid i.
Definition releasei (i : Z) : M fstate unit := releasesleep (inode_lock i) (put_inode_lock i).
Definition holdingi (i : Z) : M fstate bool := holdingsleep (inode_lock i) (put_inode_lock i) pid.

Fixpoint iinit_loop (i : Z) (k : nat) : M fstate unit :=
  match k with
  | O => mret tt
  | Datatypes.S k => initsleeplock (put_inode_lock i) ;; iinit_loop (i + 1) k
  end.

Definition iinit : M fstate unit :=
  modify (set_it_lock false) ;;
  iinit_loop 0 (Z.to_nat NINODE).

(** The search of [iget]: the entry of the inode, or else the first free
    entry. *)
Fixpoint iget_find (t : gmap Z inode) (dev inum : Z) (i : Z) (empty : option Z) (k : nat) : Z + option Z :=
  match k with
  | O => inr empty
  | Datatypes.S k =>
      let ip := t !!! i in
      if (i_ref ip >? 0) && (i_dev ip =? dev) && (i_inum ip =? inum) then inl i
      else iget_find t dev inum (i + 1)
             (match empty with None => if i_ref ip =? 0 then Some i else None | Some e => Some e end) k
  end.

Definition iget (dev inum : Z) : M fstate Z :=
  acquire it_lock set_it_lock ;;
  t ← gets it_inode;
  match iget_find t dev inum 0 None (Z.to_nat NINODE) with
  | inl i =>
      iupd i (λ x, set_iref (i_ref x + 1) x) ;;
      release it_lock set_it_lock ;;
      mret i
  | inr None => panic "iget: no inodes"
  | inr (Some i) =>
      iupd i (λ x, Inode dev inum 1 (i_lock x) false (i_type x) (i_major x) (i_minor x) (i_nlink x) (i_size x) (i_addrs x)) ;;
      release it_lock set_it_lock ;;
      mret i
  end.

Fixpoint ialloc_loop (dev type inum : Z) (k : nat) : M fstate (option Z) :=
  match k with
  | O => mret None
  | Datatypes.S k =>
      sb ← gets fs_sb;
      bp ← bread dev (IBLOCK inum sb);
      d ← data bp;
      let o := dinode_off inum in
      if di_type d o =? 0 then
        set_data bp (blk_store 2 (mem_blk (memset (blk_mem d) o 0 sizeof_dinode) (length d)) o type) ;;
        log_write bp ;;
        brelse bp ;;
        ip ← iget dev inum;
        mret (Some ip)
      else brelse bp ;; ialloc_loop dev type (inum + 1) k
  end.

(** Inode numbers [1 .. sb.ninodes - 1]. *)
Definition ialloc (dev type : Z) : M fstate (option Z) :=
  sb ← gets fs_sb; ialloc_loop dev type 1 (Z.to_nat (sb_ninodes sb - 1)).

Definition iupdate (ip : Z) : M fstate unit :=
  x ← ird id ip; sb ← gets fs_sb;
  bp ← bread (i_dev x) (IBLOCK (i_inum x) sb);
  d ← data bp;
  set_data bp (put_dinode d (dinode_off (i_inum x)) x) ;;
  log_write bp ;;
  brelse bp.

Definition idup (ip : Z) : M fstate Z :=
  acquire it_lock set_it_lock ;;
  iupd ip (λ x, set_iref (i_ref x + 1) x) ;;
  release it_lock set_it_lock ;;
  mret ip.

Definition load_inode (d : block) (o : Z) (x : inode) : inode :=
  Inode (i_dev x) (i_inum x) (i_ref x) (i_lock x) (i_valid x)
    (di_type d o) (di_major d o) (di_minor d o) (di_nlink d o) (di_size d o) (di_addrs d o).

Definition ilock (ip : Z) : M fstate unit :=
  r ← ird i_ref ip;
  if r <? 1 then panic "ilock"
  else
    acquirei ip ;;
    v ← ird i_valid ip;
    if (v : bool) then mret tt
    else
      x ← ird id ip; sb ← gets fs_sb;
      bp ← bread (i_dev x) (IBLOCK (i_inum x) sb);
      d ← data bp;
      iupd ip (load_inode d (dinode_off (i_inum x))) ;;
      brelse bp ;;
      iupd ip (set_ivalid true) ;;
      t ← ird i_type ip;
      if t =? 0 then panic "ilock: no type" else mret tt.

Definition iunlock (ip : Z) : M fstate unit :=
  h ← holdingi ip; r ← ird i_ref ip;
  if negb h || (r <? 1) then panic "iunlock" else releasei ip.

(** ** Inode content *)

Definition bmap (ip bn : Z) : M fstate Z :=
  dev ← ird i_dev ip;
  if bn <? NDIRECT then
    addr ← ird (iaddr bn) ip;
    if addr =? 0 then
      addr ← balloc dev;
      if addr =? 0 then mret 0 else iupd ip (set_iaddr bn addr) ;; mret addr
    else mret addr
  else
    let bn := bn - NDIRECT in
    if bn <? NINDIRECT then
      addr ← ird (iaddr NDIRECT) ip;
      addr ← (if addr =? 0 then
                addr ← balloc dev;
                if addr =? 0 then mret 0 else iupd ip (set_iaddr NDIRECT addr) ;; mret addr
              else mret addr);
      if addr =? 0 then mret 0
      else
        bp ← bread dev addr;
        d ← data bp;
        let addr := blk_load 4 d (4 * bn) in
        addr ← (if addr =? 0 then
                  addr ← balloc dev;
                  (if negb (addr =? 0) then
                     d ← data bp;
                     set_data bp (blk_store 4 d (4 * bn) addr) ;; log_write bp
                   else mret tt) ;;
                  mret addr
                else mret addr);
        brelse bp ;;
        mret addr
    else panic "bmap: out of range".

Fixpoint itrunc_direct (ip i : Z) (k : nat) : M fstate unit :=
  match k with
  | O => mret tt
  | Datatypes.S k =>
      dev ← ird i_dev ip; a ← ird (iaddr i) ip;
      (if negb (a =? 0) then bfree dev a ;; iupd ip (set_iaddr i 0) else mret tt) ;;
      itrunc_direct ip (i + 1) k
  end.

Fixpoint itrunc_indirect (dev bp j : Z) (k : nat) : M fstate unit :=
  match k with
  | O => mret tt
  | Datatypes.S k =>
      d ← data bp;
      let a := blk_load 4 d (4 * j) in
      (if negb (a =? 0) then bfree dev a else mret tt) ;;
      itrunc_indirect dev bp (j + 1) k
  end.

Definition itrunc (ip : Z) : M fstate unit :=
  itrunc_direct ip 0 (Z.to_nat NDIRECT) ;;
  dev ← ird i_dev ip; a ← ird (iaddr NDIRECT) ip;
  (if negb (a =? 0) then
     bp ← bread dev a;
     itrunc_indirect dev bp 0 (Z.to_nat NINDIRECT) ;;
     brelse bp ;;
     bfree dev a ;;
     iupd ip (set_iaddr NDIRECT 0)
   else mret tt) ;;
  iupd ip (set_isize 0) ;;
  iupdate ip.

Definition iput (ip : Z) : M fstate unit :=
  acquire it_lock set_it_lock ;;
  x ← ird id ip;
  (if (i_ref x =? 1) && i_valid x && (i_nlink x =? 0) then
     acquirei ip ;;
     release it_lock set_it_lock ;;
     itrunc ip ;;
     iupd ip (set_itype 0) ;;
     iupdate ip ;;
     iupd ip (set_ivalid false) ;;
     releasei ip ;;
     acquire it_lock set_it_lock
   else mret tt) ;;
  iupd ip (λ x, set_iref (i_ref x - 1) x) ;;
  release it_lock set_it_lock.

Definition iunlockput (ip : Z) : M fstate unit := iunlock ip ;; iput ip.

Record stat := Stat { st_dev : Z; st_ino : Z; st_type : Z; st_nlink : Z; st_size : Z }.

Definition stati (ip : Z) : M fstate stat :=
  x ← ird id ip; mret (Stat (i_dev x) (i_inum x) (i_type x) (i_nlink x) (i_size x)).

(** [either_copyout] and [either_copyin] (proc.c), with the buffer that
    remains for the next round ([dst += m], [src += m]). *)
Definition either_copyout (dst : ubuf) (src : list Z) : M fstate (Z * ubuf) :=
  match dst with
  | UserBuf va => r ← user (copyout va src); mret (r, UserBuf (u64 (va + length src)))
  | KernBuf l => mret (0, KernBuf (l ++ src))
  end.

Definition either_copyin (dst : list Z) (src : ubuf) : M fstate (list Z * Z * ubuf) :=
  match src with
  | UserBuf va => '(l, r) ← user (copyin va dst); mret (l, r, UserBuf (u64 (va + length dst)))
  | KernBuf l => mret (take (length dst) l, 0, KernBuf (drop (length dst) l))
  end.

Fixpoint readi_loop (ip : Z) (dst : ubuf) (off n tot : Z) (fuel : nat) : M fstate (Z * ubuf) :=
  match fuel with
  | O => λ _, NoFuel
  | Datatypes.S fuel =>
      if tot <? n then
        addr ← bmap ip (off / BSIZE);
        if addr =? 0 then mret (tot, dst)
        else
          dev ← ird i_dev ip;
          bp ← bread dev addr;
          let m := Z.min (n - tot) (BSIZE - off `mod` BSIZE) in
          d ← data bp;
          '(r, dst) ← either_copyout dst (blk_read d (off `mod` BSIZE) (Z.to_nat m));
          if r =? -1 then brelse bp ;; mret (-1, dst)
          else brelse bp ;; readi_loop ip dst (off + m) n (tot + m) fuel
      else mret (tot, dst)
  end.

(** The bytes that cross a block boundary need one more round. *)
Definition io_fuel (n : Z) : nat := Z.to_nat (n / BSIZE) + 3.

(** Answers the count and the destination as filled so far. *)
Definition readi (ip : Z) (dst : ubuf) (off n : Z) : M fstate (Z * ubuf) :=
  size ← ird i_size ip;
  if (off >? size) || (u32 (off + n) <? off) then mret (0, dst)
  else
    let n := if u32 (off + n) >? size then size - off else n in
    readi_loop ip dst off n 0 (io_fuel n).

Fixpoint writei_loop (ip : Z) (src : ubuf) (off n tot : Z) (fuel : nat) : M fstate (Z * Z) :=
  match fuel with
  | O => λ _, NoFuel
  | Datatypes.S fuel =>
      if tot <? n then
        addr ← bmap ip (off / BSIZE);
        if addr =? 0 then mret (tot, off)
        else
          dev ← ird i_dev ip;
          bp ← bread dev addr;
          let m := Z.min (n - tot) (BSIZE - off `mod` BSIZE) in
          d ← data bp;
          '(l, r, src) ← either_copyin (blk_read d (off `mod` BSIZE) (Z.to_nat m)) src;
          set_data bp (blk_write d (off `mod` BSIZE) l) ;;
          if r =? -1 then brelse bp ;; mret (tot, off)
          else
            log_write bp ;;
            brelse bp ;;
            writei_loop ip src (off + m) n (tot + m) fuel
      else mret (tot, off)
  end.

Definition writei (ip : Z) (src : ubuf) (off n : Z) : M fstate Z :=
  size ← ird i_size ip;
  if (off >? size) || (u32 (off + n) <? off) then mret (-1)
  else if u32 (off + n) >? MAXFILE * BSIZE then mret (-1)
  else
    '(tot, off) ← writei_loop ip src off n 0 (io_fuel n);
    size ← ird i_size ip;
    (if off >? size then iupd ip (set_isize off) else mret tt) ;;
    iupdate ip ;;
    mret tot.

(** ** Directories *)

(** A name is the DIRSIZ bytes of its buffer; the two buffers of a call are
    put side by side in memory. *)
Definition names_mem (a b : list Z) : mem := blk_mem (a ++ b).
Definition namecmp (a b : list Z) : Z := strncmp (names_mem a b) 0 DIRSIZ (Z.to_nat DIRSIZ).

(** [struct dirent]: the inode number, then the name. *)
Definition de_inum (de : list Z) : Z := load_le (blk_mem de) 0 2.
Definition de_name (de : list Z) : list Z := take (Z.to_nat DIRSIZ) (drop 2 de).

(** [readi] of a directory entry into the local variable [de]; [None] when
    the count is short. *)
Definition read_dirent (dp off : Z) : M fstate (option (list Z)) :=
  '(r, dst) ← readi dp (KernBuf []) off sizeof_dirent;
  match dst with
  | KernBuf de => mret (if r =? sizeof_dirent then Some de else None)
  | UserBuf _ => mret None
  end.

Fixpoint dirlookup_loop (dp : Z) (name : list Z) (off : Z) (fuel : nat) : M fstate (option (Z * Z)) :=
  match fuel with
  | O => λ _, NoFuel
  | Datatypes.S fuel =>
      size ← ird i_size dp;
      if off <? size then
        r ← read_dirent dp off;
        match r with
        | None => panic "dirlookup read"
        | Some de =>
            if de_inum de =? 0 then dirlookup_loop dp name (off + sizeof_dirent) fuel
            else if namecmp name (de_name de) =? 0 then
              dev ← ird i_dev dp;
              ip ← iget dev (de_inum de);
              mret (Some (ip, off))
            else dirlookup_loop dp name (off + sizeof_dirent) fuel
        end
      else mret None
  end.

Definition dir_fuel (size : Z) : nat := Z.to_nat (size / sizeof_dirent) + 2.

(** The inode and the offset of the entry ([*poff]). *)
Definition dirlookup (dp : Z) (name : list Z) : M fstate (option (Z * Z)) :=
  t ← ird i_type dp;
  if negb (t =? T_DIR) then panic "dirlookup not DIR"
  else size ← ird i_size dp; dirlookup_loop dp name 0 (dir_fuel size).

(** The offset of the first free entry, or the end of the directory, with
    the bytes that [de] holds then. *)
Fixpoint dirlink_loop (dp : Z) (de : list Z) (off : Z) (fuel : nat) : M fstate (list Z * Z) :=
  match fuel with
  | O => λ _, NoFuel
  | Datatypes.S fuel =>
      size ← ird i_size dp;
      if off <? size then
        r ← read_dirent dp off;
        match r with
        | None => panic "dirlink read"
        | Some de =>
            if de_inum de =? 0 then mret (de, off)
            else dirlink_loop dp de (off + sizeof_dirent) fuel
        end
      else mret (de, off)
  end.

Definition put_dirent (name : list Z) (inum : Z) (de : list Z) : list Z :=
  let nm := read_bytes (strncpy (names_mem (de_name de) name) 0 DIRSIZ DIRSIZ) 0 (Z.to_nat DIRSIZ) in
  read_bytes (store_le (blk_mem (take 2 de)) 0 2 inum) 0 2 ++ nm.

Definition dirlink (dp : Z) (name : list Z) (inum : Z) : M fstate Z :=
  r ← dirlookup dp name;
  match r with
  | Some (ip, _) => iput ip ;; mret (-1)
  | None =>
      size ← ird i_size dp;
      '(de, off) ← dirlink_loop dp (replicate (Z.to_nat sizeof_dirent) 0) 0 (dir_fuel size);
      r ← writei dp (KernBuf (put_dirent name inum de)) off sizeof_dirent;
      mret (if negb (r =? sizeof_dirent) then -1 else 0)
  end.

(** ** Paths *)

Definition SLASH : Z := 47.

Fixpoint skip_slashes (path : list Z) : list Z :=
  match path with
  | c :: p => if c =? SLASH then skip_slashes p else path
  | [] => []
  end.

(** The element at the front, and what follows it. *)
Fixpoint take_elem (path : list Z) : list Z * list Z :=
  match path with
  | c :: p => if c =? SLASH then ([], path) else let '(e, r) := take_elem p in (c :: e, r)
  | [] => ([], [])
  end.

Definition skipelem (path name : list Z) : option (list Z * list Z) :=
  match skip_slashes path with
  | [] => None
  | path =>
      let '(e, path) := take_elem path in
      let len := Z.of_nat (length e) in
      let name :=
        if len >=? DIRSIZ then take (Z.to_nat DIRSIZ) e
        else <[length e := 0]> (e ++ drop (length e) name) in
      Some (skip_slashes path, name)
  end.

Fixpoint namex_loop (ip : Z) (path : list Z) (nameiparent : bool) (name : list Z) (fuel : nat) : M fstate (option Z * list Z) :=
  match fuel with
  | O => λ _, NoFuel
  | Datatypes.S fuel =>
      match skipelem path name with
      | None => if nameiparent then iput ip ;; mret (None, name) else mret (Some ip, name)
      | Some (path, name) =>
          ilock ip ;;
          t ← ird i_type ip;
          if negb (t =? T_DIR) then iunlockput ip ;; mret (None, name)
          else if nameiparent && bool_decide (path = []) then iunlock ip ;; mret (Some ip, name)
          else
            next ← dirlookup ip name;
            match next with
            | None => iunlockput ip ;; mret (None, name)
            | Some (next, _) => iunlockput ip ;; namex_loop next path nameiparent name fuel
            end
      end
  end.

(** [cwd] is the current directory of the running process. *)
Definition namex (cwd : Z) (path : list Z) (nameiparent : bool) (name : list Z) : M fstate (option Z * list Z) :=
  ip ← (if bool_decide (head path = Some SLASH) then iget ROOTDEV ROOTINO else idup cwd);
  namex_loop ip path nameiparent name (length path + 1).

Definition namei (cwd : Z) (path : list Z) : M fstate (option Z) :=
  '(ip, _) ← namex cwd path false (replicate (Z.to_nat DIRSIZ) 0); mret ip.

Definition nameiparent (cwd : Z) (path name : list Z) : M fstate (option Z * list Z) := namex cwd path true name.
End fs.

(** ** Path names: [skipelem] splits a path into its elements *)

(** The elements of a path: the maximal runs of characters other than '/'.
    [cur] collects the element being read, last character first. *)
Fixpoint elems_from (cur : list Z) (path : list Z) : list (list Z) :=
  match path with
  | [] => if decide (cur = []) then [] else [reverse cur]
  | c :: p =>
      if c =? SLASH then (if decide (cur = []) then [] else [reverse cur]) ++ elems_from [] p
      else elems_from (c :: cur) p
  end.
Definition path_elems (path : list Z) : list (list Z) := elems_from [] path.

(** The C string that a DIRSIZ-byte buffer holds: up to its terminator, or
    all of it. *)
Fixpoint name_str (b : list Z) : list Z :=
  match b with [] => [] | c :: b => if c =? 0 then [] else c :: name_str b end.

(** A path without its terminator. *)
Definition path_ok (path : list Z) : Prop := Forall (λ c, 0 < c < 256) path.

(** The names that a walk along the path passes to [dirlookup]: [skipelem]
    until it answers null. *)
Fixpoint walk_names (path name : list Z) (fuel : nat) : option (list (list Z)) :=
  match fuel with
  | O => None
  | S fuel =>
      match skipelem path name with
      | None => Some []
      | Some (path, name) => cons (name_str name) <$> walk_names path name fuel
      end
  end.

Lemma skip_slashes_spec path :
  path_elems (skip_slashes path) = path_elems path ∧ (length (skip_slashes path) ≤ length path)%nat ∧
  head (skip_slashes path) ≠ Some SLASH ∧ (path_ok path → path_ok (skip_slashes path)).
Proof.
  induction path as [|c p (IH&Hl&Hh&Ho)]; [done|]. simpl. unfold path_elems in *. simpl.
  destruct (Z.eqb_spec c SLASH) as [->|Hc].
  - split_and!; [done|lia|done|]. intros [_ Hp]%Forall_cons. auto.
  - split_and!; [|done|by intros [=]|done]. simpl. by rewrite (proj2 (Z.eqb_neq _ _) Hc).
Qed.

Lemma elems_from_app cur e p :
  Forall (λ c, c ≠ SLASH) e → elems_from cur (e ++ p) = elems_from (reverse e ++ cur) p.
Proof.
  revert cur. induction e as [|c e IH]; intros cur He; [done|]. apply Forall_cons in He as [Hc He]. simpl.
  rewrite (proj2 (Z.eqb_neq _ _) Hc), IH by done. by rewrite reverse_cons, <- app_assoc.
Qed.

Lemma take_elem_spec path :
  let '(e, r) := take_elem path in path = e ++ r ∧ Forall (λ c, c ≠ SLASH) e ∧ (r = [] ∨ head r = Some SLASH).
Proof.
  induction path as [|c p IH]; simpl; [by auto|]. destruct (Z.eqb_spec c SLASH) as [->|Hc]; [by auto|].
  destruct (take_elem p) as [e r]. destruct IH as (->&He&Hr). split_and!; [done| |done]. by constructor.
Qed.

Lemma name_str_app e b : Forall (λ c, 0 < c < 256) e → name_str (e ++ b) = e ++ name_str b.
Proof.
  induction 1 as [|c e Hc He IH]; [done|]. simpl. rewrite (proj2 (Z.eqb_neq c 0)) by lia. by rewrite IH.
Qed.

(** One call of [skipelem]. *)
Lemma skipelem_spec path name :
  path_ok path → length name = Z.to_nat DIRSIZ →
  match skipelem path name with
  | None => path_elems path = []
  | Some (path', name') => ∃ e, path_elems path = e :: path_elems path' ∧ name_str name' = take (Z.to_nat DIRSIZ) e ∧
      length name' = Z.to_nat DIRSIZ ∧ path_ok path' ∧ (length path' < length path)%nat ∧ head path' ≠ Some SLASH
  end.
Proof.
  intros Hp Hn. unfold skipelem. destruct (skip_slashes_spec path) as (E&Hl&Hh&Ho). specialize (Ho Hp).
  destruct (skip_slashes path) as [|c p] eqn:Es; [by rewrite <- E|]. simpl in Hh.
  pose proof (take_elem_spec (c :: p)) as Ht. simpl in Ht |- *. rewrite (proj2 (Z.eqb_neq c SLASH)) in * by (by intros ->).
  destruct (take_elem p) as [e r]. destruct Ht as (Hcp&He&Hr). injection Hcp as ->.
  change (c :: e ++ r) with ((c :: e) ++ r) in *. apply Forall_app in Ho as [Hoe Hor].
  destruct (skip_slashes_spec r) as (Er&Hlr&Hhr&Hor'). exists (c :: e). rewrite Er, <- E.
  set (el := c :: e) in *. change (c :: e) with el. assert (Hel : el ≠ []) by done. clearbody el. clear E Es Hh.
  rewrite length_app in Hl. split_and!; [| | |auto| |done].
  - unfold path_elems. rewrite elems_from_app, app_nil_r by done. destruct Hr as [->|Hr]; simpl.
    + rewrite decide_False, reverse_involutive by (intros Hx; apply (f_equal reverse) in Hx; by rewrite reverse_involutive in Hx). done.
    + destruct r as [|c' r]; [done|]. injection Hr as ->. simpl.
      rewrite decide_False, reverse_involutive by (intros Hx; apply (f_equal reverse) in Hx; by rewrite reverse_involutive in Hx). done.
  - rewrite Z.geb_leb. destruct (Z.leb_spec DIRSIZ (length el)) as [Hge|Hlt].
    + rewrite <- (app_nil_r (take _ _)), name_str_app by (by apply Forall_take). done.
    + change (Z.of_nat (length el) < 14) in Hlt. change (Z.to_nat DIRSIZ) with 14%nat in *.
      destruct (drop (length el) name) as [|x t] eqn:Ed.
      { apply (f_equal length) in Ed. rewrite length_drop in Ed. simpl in Ed. lia. }
      rewrite insert_app_r_alt, Nat.sub_diag by lia. simpl. rewrite name_str_app by done. simpl.
      rewrite app_nil_r, take_ge by lia. done.
  - rewrite Z.geb_leb. destruct (Z.leb_spec DIRSIZ (length el)) as [Hge|Hlt].
    + rewrite length_take. change DIRSIZ with 14 in *. lia.
    + rewrite length_insert, length_app, length_drop. change DIRSIZ with 14 in *. lia.
  - assert (0 < length el)%nat by (destruct el; [done|simpl; lia]). lia.
Qed.

(** following [skipelem] along any path visits exactly the elements of
    the path, from left to right, each cut to DIRSIZ characters, whatever
    slashes the path has and whatever the name buffer held before; as many
    calls as the path has characters (plus the one that answers null) are
    enough. *)
Theorem skipelem_elements path name :
  path_ok path → length name = Z.to_nat DIRSIZ →
  walk_names path name (length path + 1) = Some (take (Z.to_nat DIRSIZ) <$> path_elems path).
Proof.
  remember (length path) as n eqn:En. assert (Hn : (length path < n + 1)%nat) by lia. clear En.
  revert n path name Hn. intros n. generalize (n + 1)%nat. clear n. intros n. induction n as [|n IH]; intros path name Hlen Hp Hnm; [lia|].
  simpl. pose proof (skipelem_spec path name Hp Hnm) as Hs.
  destruct (skipelem path name) as [[path' name']|]; [|by rewrite Hs].
  destruct Hs as (e&->&Hn'&Hl'&Hp'&Hlt&_). rewrite IH by (done || lia). simpl. by rewrite Hn'.
Qed.

Lemma skipelem_elements_witness :
  walk_names [47; 47; 97; 47; 98; 99; 47] (replicate 14 0) 8 = Some [[97]; [98; 99]].
Proof.
  change 8%nat with (length [47; 47; 97; 47; 98; 99; 47] + 1)%nat.
  rewrite skipelem_elements; [reflexivity| |reflexivity]. repeat constructor; lia.
Defined.
