(* ===== verification/FsBase.v ===== *)
(** * File system code inside a transaction

    The laws of [Txn] lifted to the state of fs.c.  [ftx s L X H V] says that
    a transaction is open in which the blocks [L] are logged, the buffers [H]
    (handle and block) are held, [X] of them changed and not logged yet, and
    that the file system's blocks read as [V]. *)
From S2P Require Import Prelude Block Sleeplock BufCache Log LogDisk LogProps Txn Fs.

(** The layout that mkfs writes: log, inodes, bitmap, data. *)
Definition datastart (sb : superblock) : Z := sb_bmapstart sb + sb_size sb / BPB + 1.
Record sb_ok (sb : superblock) : Prop := {
  so_log : 2 ≤ sb_logstart sb ∧ 0 < sb_nlog sb ∧ sb_logstart sb + sb_nlog sb ≤ sb_inodestart sb;
  so_inodes : 1 ≤ sb_ninodes sb ∧ IBLOCK (sb_ninodes sb - 1) sb < sb_bmapstart sb;
  so_data : datastart sb ≤ sb_size sb;
  so_size : 0 ≤ sb_size sb < 2 ^ 31
}.

(** Block [n] is not a log block. *)
Definition outside (sb : superblock) (n : Z) : Prop := ¬ (sb_logstart sb ≤ n < sb_logstart sb + sb_nlog sb) ∧ int_ok n.

Definition logged (L : list Z) (n : Z) : list Z := if decide (n ∈ L) then L else L ++ [n].

Lemma length_logged L n : (length L ≤ length (logged L n) ≤ length L + 1)%nat.
Proof. unfold logged. case_decide; [lia|]. rewrite length_app. simpl. lia. Qed.

Section base.
Context {S U : Type} `{HB : !BufCache S} `{HBok : !BufCacheOk S} `{HU : !UserCopy U}.
Implicit Types s : fstate S U.
Implicit Types H : list (Z * Z).

Record ftx s (L X : list Z) H (V : Z → block) : Prop := {
  f_tx : tx_ok (fs_log s) L X H.*2;
  f_h : ∀ h n, (h, n) ∈ H → thandle (fs_log s) h = Some n;
  f_nodup : NoDup H.*2;
  f_view : ∀ n, tview (fs_log s) n = V n;
  f_sb : sb_ok (fs_sb s);
  f_start : lg_start (fs_log s) = sb_logstart (fs_sb s);
  f_size : lg_size (fs_log s) = sb_nlog (fs_sb s)
}.

(** Everything but the log's contents is as before. *)
Record fsame s s' : Prop := {
  fe_lock : it_lock s' = it_lock s;
  fe_inode : it_inode s' = it_inode s;
  fe_sb : fs_sb s' = fs_sb s;
  fe_user : fs_user s' = fs_user s;
  fe_log : tx_same (fs_log s) (fs_log s')
}.

#[global] Instance fsame_preorder : PreOrder fsame.
Proof.
  split; [by split|]. intros s1 s2 s3 [] []. split; [congruence..|]. by etrans.
Qed.

Lemma wp_log {A} (m : M (lstate S) A) (Q : A → fstate S U → Prop) s :
  wp m (λ a l, Q a (set_log l s)) (fs_log s) → wp (log m) Q s.
Proof. unfold wp, log, zoom. by destruct (m (fs_log s)). Qed.

Lemma ftx_V s L X H V V' : ftx s L X H V → (∀ n, V n = V' n) → ftx s L X H V'.
Proof. intros [] E. split; auto. intros n. by rewrite <- E. Qed.

(** The state after an operation on the log. *)
Lemma ftx_log s L' X' H' V' l' :
  sb_ok (fs_sb s) → lg_start (fs_log s) = sb_logstart (fs_sb s) → lg_size (fs_log s) = sb_nlog (fs_sb s) →
  tx_ok l' L' X' H'.*2 → tx_same (fs_log s) l' → (∀ h n, (h, n) ∈ H' → thandle l' h = Some n) → NoDup H'.*2 →
  (∀ n, tview l' n = V' n) → ftx (set_log l' s) L' X' H' V' ∧ fsame s (set_log l' s).
Proof. intros ??? Ht Hs Hh Hn Hv. split; split; simpl; auto; rewrite ?(ts_start _ _ Hs), ?(ts_size _ _ Hs); done. Qed.

Lemma fs_bread s L X H V n (Q : Z → fstate S U → Prop) :
  ftx s L X H V → n ∉ H.*2 → length L + length H < NBUF →
  (∀ h s', ftx s' L X ((h, n) :: H) V → fsame s s' → Q h s') → wp (bread ROOTDEV n) Q s.
Proof.
  intros [] Hn Hr HQ. unfold bread. apply wp_log. wp_use tx_bread; eauto; [by rewrite length_fmap|].
  intros h l' (Ht&Hs&Hh&Hv&Hk).
  destruct (ftx_log s L X ((h, n) :: H) V l') as [F E]; auto.
  - intros h' m [[= -> ->]|Hin]%elem_of_cons; [done|]. by apply Hk, f_h0.
  - by constructor.
  - intros m. by rewrite Hv.
Qed.

Lemma fs_data s L X H V h n (Q : block → fstate S U → Prop) :
  ftx s L X H V → (h, n) ∈ H → Q (V n) s → wp (data h) Q s.
Proof.
  intros [] Hin HQ. unfold data, get_data. apply wp_log, wp_gets. cbv beta. rewrite (tx_data _ _ _ _ _ _ f_tx0 (f_h0 _ _ Hin)).
  rewrite f_view0. destruct s. done.
Qed.

Lemma fs_set s L X H V h n d (Q : unit → fstate S U → Prop) :
  ftx s L X H V → (h, n) ∈ H → blk_ok d →
  (∀ s', ftx s' L (n :: X) H (<[n := d]> V) → fsame s s' → Q tt s') → wp (set_data h d) Q s.
Proof.
  intros [] Hin Hd HQ. unfold set_data. apply wp_log. wp_use tx_set; eauto. intros [] l' (Ht&Hs&Hv&Hh).
  destruct (ftx_log s L (n :: X) H (<[n := d]> V) l') as [F E]; auto.
  - intros h' m Hm. rewrite Hh. by apply f_h0.
  - intros m. rewrite Hv. unfold insert, fn_insert. repeat case_decide; congruence.
Qed.

Lemma fs_log_write s L X H V h n (Q : unit → fstate S U → Prop) :
  ftx s L X H V → (h, n) ∈ H → outside (fs_sb s) n → length L < sb_nlog (fs_sb s) - 1 →
  (∀ s', ftx s' (logged L n) (filter (λ m, m ≠ n) X) H V → fsame s s' → Q tt s') → wp (log_write h) Q s.
Proof.
  intros [] Hin [Ho Hi] Hr HQ. unfold log_write. apply wp_log.
  wp_use tx_log_write; [done|by apply f_h0| |done| |].
  { unfold home. rewrite f_start0, f_size0. done. }
  { rewrite (lo_n _ _ _ (tx_log _ _ _ _ f_tx0)), f_size0. done. }
  intros [] l' (Ht&Hs&Hv&Hh). destruct (ftx_log s (logged L n) (filter (λ m, m ≠ n) X) H V l') as [F E]; auto.
  - intros h' m Hm. rewrite Hh. by apply f_h0.
  - intros m. by rewrite Hv.
Qed.

Lemma fs_brelse s L X H V h n (Q : unit → fstate S U → Prop) :
  ftx s L X ((h, n) :: H) V → n ∉ X → outside (fs_sb s) n →
  (∀ s', ftx s' L X H V → fsame s s' → Q tt s') → wp (brelse h) Q s.
Proof.
  intros [] HX [Ho _] HQ. unfold brelse. apply wp_log. rewrite fmap_cons in f_tx0, f_nodup0. cbn [snd] in f_tx0, f_nodup0.
  apply NoDup_cons in f_nodup0 as [Hn Hnd].
  wp_use tx_brelse; [done|apply f_h0; left|done| |].
  { unfold home. rewrite f_start0, f_size0. done. }
  intros [] l' (Ht&Hs&Hv&Hk).
  assert (EH : filter (λ m, m ≠ n) (n :: H.*2) = H.*2).
  { rewrite filter_cons_False by auto. apply filter_all. intros m Hm ->. done. }
  rewrite EH in Ht. destruct (ftx_log s L X H V l') as [F E]; auto.
  - intros h' m Hin. apply Hk; [apply f_h0; by right|]. intros ->. apply Hn, list_elem_of_fmap. by exists (h', n).
  - intros m. by rewrite Hv.
Qed.

Lemma ftx_blk_ok s L X H V n : ftx s L X H V → blk_ok (V n).
Proof. intros []. rewrite <- f_view0. by eapply tx_blk_ok. Qed.
End base.
