(* ===== verification/FsBlock.v ===== *)
(** * The free block bitmap: [balloc] and [bfree] *)
From S2P Require Import Prelude Kstring Block Sleeplock BufCache Log LogDisk LogProps Txn Fs FsBase.

(* ------------------------------------------------------------------ *)
(** ** Bits of a bitmap block *)

Definition bit (d : block) (bi : Z) : bool := Z.testbit (blk_load 1 d (bi / 8)) (bi `mod` 8).
Definition set_bit (d : block) (bi : Z) : block := blk_store 1 d (bi / 8) (Z.lor (blk_load 1 d (bi / 8)) (bit_mask bi)).
Definition clr_bit (d : block) (bi : Z) : block :=
  blk_store 1 d (bi / 8) (Z.land (blk_load 1 d (bi / 8)) (Z.lnot (bit_mask bi))).

Lemma bit_mask_testbit bi k : 0 ≤ k → Z.testbit (bit_mask bi) k = bool_decide (k = bi `mod` 8).
Proof.
  intros Hk. unfold bit_mask. assert (0 ≤ bi `mod` 8) by (apply Z.mod_pos_bound; lia).
  rewrite Z.shiftl_1_l, Z.pow2_bits_eqb by done. case_bool_decide; [subst; apply Z.eqb_refl|]. apply Z.eqb_neq. lia.
Qed.

Lemma bit_clear_spec d bi : bit_clear d bi = negb (bit d bi).
Proof.
  unfold bit_clear, bit. assert (Hm : 0 ≤ bi `mod` 8) by (apply Z.mod_pos_bound; lia).
  set (x := blk_load 1 d (bi / 8)). destruct (Z.testbit x (bi `mod` 8)) eqn:E; simpl.
  - apply Z.eqb_neq. intros H0. apply (f_equal (λ z, Z.testbit z (bi `mod` 8))) in H0.
    rewrite Z.land_spec, bit_mask_testbit, bool_decide_eq_true_2, E, Z.bits_0 in H0 by done. done.
  - apply Z.eqb_eq, Z.bits_inj'. intros k Hk. rewrite Z.land_spec, bit_mask_testbit, Z.bits_0 by done.
    case_bool_decide; [subst; by rewrite E|apply andb_false_r].
Qed.

(** A byte of the bitmap, written back with some bits changed. *)
Lemma byte_update d bi v bj :
  blk_ok d → 0 ≤ bi < BPB → 0 ≤ bj < BPB →
  bit (blk_store 1 d (bi / 8) v) bj = if decide (bi / 8 = bj / 8) then Z.testbit v (bj `mod` 8) else bit d bj.
Proof.
  intros [Hl _] Hi Hj. unfold bit. change BPB with 8192 in *. change (Z.to_nat BSIZE) with 1024%nat in Hl.
  assert (0 ≤ bi / 8 < 1024) by (split; [apply Z.div_pos; lia|apply Z.div_lt_upper_bound; lia]).
  assert (0 ≤ bj / 8 < 1024) by (split; [apply Z.div_pos; lia|apply Z.div_lt_upper_bound; lia]).
  case_decide as E.
  - rewrite <- E, blk_load_store by lia. change (256 ^ Z.of_nat 1) with (2 ^ 8).
    apply Z.mod_pow2_bits_low. pose proof (Z.mod_pos_bound bj 8). lia.
  - rewrite blk_load_store_other by lia. done.
Qed.

Lemma bit_same_byte bi bj : bi / 8 = bj / 8 → bi `mod` 8 = bj `mod` 8 → bi = bj.
Proof. intros E1 E2. rewrite (Z.div_mod bi 8), (Z.div_mod bj 8) by lia. lia. Qed.

Lemma bit_set d bi bj : blk_ok d → 0 ≤ bi < BPB → 0 ≤ bj < BPB →
  bit (set_bit d bi) bj = if decide (bj = bi) then true else bit d bj.
Proof.
  intros Hd Hi Hj. unfold set_bit. rewrite byte_update by done.
  assert (0 ≤ bj `mod` 8) by (apply Z.mod_pos_bound; lia).
  case_decide as E; [|rewrite decide_False by (by intros ->); done].
  rewrite Z.lor_spec, bit_mask_testbit, E by done. case_decide as E2.
  - subst. rewrite bool_decide_eq_true_2 by done. apply orb_true_r.
  - rewrite bool_decide_eq_false_2 by (intros E3; apply E2; symmetry; by apply bit_same_byte). apply orb_false_r.
Qed.

Lemma bit_clr d bi bj : blk_ok d → 0 ≤ bi < BPB → 0 ≤ bj < BPB →
  bit (clr_bit d bi) bj = if decide (bj = bi) then false else bit d bj.
Proof.
  intros Hd Hi Hj. unfold clr_bit. rewrite byte_update by done.
  assert (0 ≤ bj `mod` 8) by (apply Z.mod_pos_bound; lia).
  case_decide as E; [|rewrite decide_False by (by intros ->); done].
  rewrite Z.land_spec, Z.lnot_spec, bit_mask_testbit, E by done. case_decide as E2.
  - subst. rewrite bool_decide_eq_true_2 by done. apply andb_false_r.
  - rewrite bool_decide_eq_false_2 by (intros E3; apply E2; symmetry; by apply bit_same_byte). apply andb_true_r.
Qed.

Lemma find_clear_spec size b d bi (k : nat) :
  match find_clear size b d bi k with
  | Some r => bi ≤ r < bi + k ∧ b + r < size ∧ bit d r = false
  | None => ∀ j, bi ≤ j < bi + k → b + j < size → bit d j = true
  end.
Proof.
  revert bi. induction k as [|k IH]; intros bi; simpl; [intros; lia|].
  destruct (Z.ltb_spec (b + bi) size) as [Hs|Hs]; simpl; [|intros; lia].
  rewrite bit_clear_spec. destruct (bit d bi) eqn:Eb; simpl; [|split_and!; done || lia].
  specialize (IH (bi + 1)). destruct (find_clear _ _ _ (bi + 1) k) as [r|].
  - destruct IH as (?&?&?). split_and!; done || lia.
  - intros j Hj Hjs. destruct (decide (j = bi)) as [->|]; [done|]. apply IH; lia.
Qed.

(* ------------------------------------------------------------------ *)
(** ** The bitmap of the file system *)

(** Block [b] is marked in use. *)
Definition used (V : Z → block) (sb : superblock) (b : Z) : bool := bit (V (BBLOCK b sb)) (b `mod` BPB).

(** The blocks before the data are in use. *)
Definition meta_used (V : Z → block) (sb : superblock) : Prop := ∀ b, 0 ≤ b < datastart sb → used V sb b = true.

Lemma BBLOCK_range sb b : sb_ok sb → 0 ≤ b < sb_size sb → sb_bmapstart sb ≤ BBLOCK b sb < datastart sb.
Proof.
  intros _ Hb. unfold BBLOCK, datastart. assert (0 ≤ b / BPB) by (apply Z.div_pos; [lia|done]).
  assert (b / BPB ≤ sb_size sb / BPB) by (apply Z.div_le_mono; [done|lia]). lia.
Qed.

Lemma BBLOCK_same sb b b' : BBLOCK b sb = BBLOCK b' sb → b `mod` BPB = b' `mod` BPB → b = b'.
Proof.
  unfold BBLOCK. intros E1 E2. assert (b / BPB = b' / BPB) as E by lia.
  rewrite (Z.div_mod b BPB), (Z.div_mod b' BPB), E, E2 by done. done.
Qed.

Lemma mod_BPB b : 0 ≤ b `mod` BPB < BPB.
Proof. by apply Z.mod_pos_bound. Qed.

Lemma used_ext V V' sb b : V (BBLOCK b sb) = V' (BBLOCK b sb) → used V sb b = used V' sb b.
Proof. unfold used. by intros ->. Qed.

Lemma used_set V sb b b' :
  blk_ok (V (BBLOCK b sb)) →
  used (<[BBLOCK b sb := set_bit (V (BBLOCK b sb)) (b `mod` BPB)]> V) sb b' = if decide (b' = b) then true else used V sb b'.
Proof.
  intros Hd. unfold used. destruct (decide (BBLOCK b' sb = BBLOCK b sb)) as [E|E].
  - rewrite E, fn_lookup_insert, bit_set by auto using mod_BPB. repeat case_decide; try done; [|by subst].
    exfalso. by eauto using BBLOCK_same.
  - rewrite fn_lookup_insert_ne, decide_False by (done || by intros ->). done.
Qed.

Lemma used_clr V sb b b' :
  blk_ok (V (BBLOCK b sb)) →
  used (<[BBLOCK b sb := clr_bit (V (BBLOCK b sb)) (b `mod` BPB)]> V) sb b' = if decide (b' = b) then false else used V sb b'.
Proof.
  intros Hd. unfold used. destruct (decide (BBLOCK b' sb = BBLOCK b sb)) as [E|E].
  - rewrite E, fn_lookup_insert, bit_clr by auto using mod_BPB. repeat case_decide; try done; [|by subst].
    exfalso. by eauto using BBLOCK_same.
  - rewrite fn_lookup_insert_ne, decide_False by (done || by intros ->). done.
Qed.

Lemma sb_order sb : sb_ok sb → sb_inodestart sb < sb_bmapstart sb ∧ sb_bmapstart sb < datastart sb.
Proof.
  intros [[] [] ? ?]. unfold IBLOCK in *. assert (0 ≤ (sb_ninodes sb - 1) / IPB) by (apply Z.div_pos; [lia|done]).
  assert (0 ≤ sb_size sb / BPB); [|unfold datastart; lia].
  apply Z.div_pos; [lia|done].
Qed.

Lemma outside_ge sb n : sb_ok sb → sb_inodestart sb ≤ n < sb_size sb → outside sb n.
Proof. intros [[] [] ? ?] Hn. unfold outside, int_ok. lia. Qed.

(** What an operation that may log [k] more blocks, with [j] more buffers
    held, needs of the log and of the cache. *)
Definition room (sb : superblock) (L : list Z) (H : list (Z * Z)) (k j : Z) : Prop :=
  length L + k ≤ sb_nlog sb - 1 ∧ length L + k + length H + j ≤ NBUF.

Section alloc.
Context {S U : Type} `{HB : !BufCache S} `{HBok : !BufCacheOk S} `{HU : !UserCopy U}.
Implicit Types s : fstate S U.
Implicit Types H : list (Z * Z).

Lemma memset_zero d : blk_ok d → mem_blk (memset (blk_mem d) 0 0 BSIZE) (length d) = zero_block.
Proof.
  intros [Hl _]. apply list_eq. intros i. unfold zero_block. change (Z.to_nat BSIZE) with 1024%nat in *.
  destruct (decide (i < 1024)%nat) as [Hi|Hi].
  - unfold mem_blk. rewrite read_bytes_lookup by lia. rewrite memset_in by (change BSIZE with 1024; lia).
    by rewrite lookup_replicate_2 by lia.
  - rewrite !lookup_ge_None_2; [done|rewrite length_replicate; lia|]. unfold mem_blk. rewrite length_read_bytes. lia.
Qed.

(** Changing a block: the common shape of the file system's updates. *)
Lemma fs_modify s L H V h n d (Q : unit → fstate S U → Prop) :
  ftx s L [] ((h, n) :: H) V → outside (fs_sb s) n → blk_ok d → length L < sb_nlog (fs_sb s) - 1 →
  (∀ s', ftx s' (logged L n) [] H (<[n := d]> V) → fsame s s' → Q tt s') →
  wp (set_data h d ;; log_write h ;; brelse h) Q s.
Proof.
  intros F Ho Hd Hr HQ. wp_step. eapply fs_set; [done|by left|done|]. intros s1 F1 S1.
  wp_step. eapply fs_log_write; [done|by left|by rewrite (fe_sb _ _ S1)|by rewrite (fe_sb _ _ S1)|]. intros s2 F2 S2.
  rewrite filter_cons_False, filter_nil in F2 by auto.
  eapply fs_brelse; [done|apply not_elem_of_nil|by rewrite (fe_sb _ _ S2), (fe_sb _ _ S1)|].
  intros s3 F3 S3. apply HQ; [done|]. by do 2 (etrans; [done|]).
Qed.

Lemma fs_modify_k {A} s L H V h n d (K : M (fstate S U) A) Q :
  ftx s L [] ((h, n) :: H) V → outside (fs_sb s) n → blk_ok d → length L < sb_nlog (fs_sb s) - 1 →
  (∀ s', ftx s' (logged L n) [] H (<[n := d]> V) → fsame s s' → wp K Q s') →
  wp (set_data h d ;; log_write h ;; brelse h ;; K) Q s.
Proof.
  intros F Ho Hd Hr HQ.
  enough (wp (set_data h d ;; log_write h ;; brelse h) (λ _, wp K Q) s) as Hw.
  { apply wp_bind. eapply wp_mono; [exact (wp_bind_inv _ _ _ _ Hw)|]. intros [] s1 H1. apply wp_bind.
    eapply wp_mono; [exact (wp_bind_inv _ _ _ _ H1)|]. intros [] s2 H2. by apply wp_bind. }
  by eapply fs_modify.
Qed.

Lemma bzero_wp s L H V n (Q : unit → fstate S U → Prop) :
  ftx s L [] H V → n ∉ H.*2 → outside (fs_sb s) n → room (fs_sb s) L H 1 0 →
  (∀ s', ftx s' (logged L n) [] H (<[n := zero_block]> V) → fsame s s' → Q tt s') → wp (bzero ROOTDEV n) Q s.
Proof.
  intros F Hn Ho [Hr1 Hr2] HQ. unfold bzero. wp_step. eapply fs_bread; [done..|lia|]. intros h s1 F1 S1.
  wp_step. eapply fs_data; [done|by left|]. rewrite memset_zero by (by eapply ftx_blk_ok).
  eapply fs_modify; [done|by rewrite (fe_sb _ _ S1)|apply zero_block_ok|rewrite (fe_sb _ _ S1); lia|].
  intros s2 F2 S2. apply HQ; [done|]. by etrans.
Qed.

(** The blocks behind the held buffers are data in use. *)
Definition held_used (V : Z → block) (sb : superblock) H : Prop :=
  ∀ n, n ∈ H.*2 → datastart sb ≤ n < sb_size sb ∧ used V sb n = true.

(** The contents after block [r] was allocated. *)
Definition alloc_view (sb : superblock) (r : Z) (V : Z → block) : Z → block :=
  <[r := zero_block]> (<[BBLOCK r sb := set_bit (V (BBLOCK r sb)) (r `mod` BPB)]> V).

Lemma BBLOCK_step sb b bi : b `mod` BPB = 0 → 0 ≤ bi < BPB → BBLOCK (b + bi) sb = BBLOCK b sb ∧ (b + bi) `mod` BPB = bi.
Proof.
  intros Hb Hbi. rewrite (Z.div_mod b BPB), Hb, Z.add_0_r by done. unfold BBLOCK. split.
  - rewrite (Z.mul_comm BPB), Z.div_add_l, Z.div_mul, (Z.div_small bi) by done. lia.
  - rewrite (Z.mul_comm BPB), Z.add_comm, Z.mod_add by done. by apply Z.mod_small.
Qed.

Lemma balloc_loop_wp (fuel : nat) s L H V b (Q : Z → fstate S U → Prop) :
  ftx s L [] H V → meta_used V (fs_sb s) → held_used V (fs_sb s) H → room (fs_sb s) L H 2 0 →
  0 ≤ b → b `mod` BPB = 0 → (0 < fuel)%nat → sb_size (fs_sb s) ≤ b + (fuel - 1) * BPB →
  (∀ n, 0 ≤ n < b → n < sb_size (fs_sb s) → used V (fs_sb s) n = true) →
  (∀ s', ftx s' L [] H V → fsame s s' → (∀ n, 0 ≤ n < sb_size (fs_sb s) → used V (fs_sb s) n = true) → Q 0 s') →
  (∀ r s' L', datastart (fs_sb s) ≤ r < sb_size (fs_sb s) → used V (fs_sb s) r = false →
    ftx s' L' [] H (alloc_view (fs_sb s) r V) → (length L ≤ length L' ≤ length L + 2)%nat → fsame s s' → Q r s') →
  wp (balloc_loop ROOTDEV b fuel) Q s.
Proof.
  revert s b. induction fuel as [|fuel IH]; intros s b F Hm Hh Hr Hb Hmod Hf0 Hf Hold Q0 QS; [lia|]. cbn [balloc_loop].
  pose proof (f_sb _ _ _ _ _ F) as Hsb. pose proof (sb_order _ Hsb) as Hord.
  wp_step. apply wp_gets. destruct (Z.ltb_spec b (sb_size (fs_sb s))) as [Hlt|Hge]; last first.
  { apply wp_ret. apply Q0; [done|done|]. intros n Hn. apply Hold; lia. }
  destruct (BBLOCK_range _ b Hsb) as [HB1 HB2]; [lia|]. pose proof (so_data _ Hsb) as Hdat.
  assert (Hout : outside (fs_sb s) (BBLOCK b (fs_sb s))) by (apply outside_ge; [done|lia]).
  destruct Hr as [Hr1 Hr2]. wp_step. eapply fs_bread; [done| |lia|].
  { intros Hin. apply Hh in Hin as [? _]. lia. }
  intros h s1 F1 S1. wp_step. eapply fs_data; [done|by left|].
  assert (Hblk : blk_ok (V (BBLOCK b (fs_sb s)))) by (by eapply ftx_blk_ok).
  pose proof (find_clear_spec (sb_size (fs_sb s)) b (V (BBLOCK b (fs_sb s))) 0 (Z.to_nat BPB)) as Hfc.
  rewrite Z2Nat.id, Z.add_0_l in Hfc by done. destruct (find_clear _ _ _ _ _) as [bi|].
  - destruct Hfc as (Hbi&Hsz&Hbit). destruct (BBLOCK_step (fs_sb s) b bi Hmod Hbi) as [E1 E2].
    assert (Hu : used V (fs_sb s) (b + bi) = false) by (unfold used; by rewrite E1, E2).
    assert (Hge : datastart (fs_sb s) ≤ b + bi).
    { destruct (decide (datastart (fs_sb s) ≤ b + bi)); [done|]. rewrite Hm in Hu by lia. done. }
    eapply fs_modify_k; [done|by rewrite (fe_sb _ _ S1)|by apply blk_store_ok|rewrite (fe_sb _ _ S1); lia|].
    intros s2 F2 S2. assert (S02 : fsame s s2) by (by etrans). pose proof (fe_sb _ _ S02) as Esb.
    pose proof (length_logged L (BBLOCK b (fs_sb s))) as HL. wp_step. eapply bzero_wp; [done| | | |].
    { intros Hin. apply Hh in Hin as [_ ?]. congruence. }
    { rewrite Esb. apply outside_ge; [done|lia]. }
    { rewrite Esb. split; lia. }
    intros s3 F3 S3. apply wp_ret.
    pose proof (length_logged (logged L (BBLOCK b (fs_sb s))) (b + bi)) as HL'.
    eapply (QS _ _ (logged (logged L (BBLOCK b (fs_sb s))) (b + bi))); [lia|done| |split; lia|by etrans].
    unfold alloc_view. rewrite E1, E2. exact F3.
  - wp_step. eapply fs_brelse; [done|apply not_elem_of_nil|by rewrite (fe_sb _ _ S1)|]. intros s2 F2 S2.
    assert (S02 : fsame s s2) by (by etrans). pose proof (fe_sb _ _ S02) as Esb.
    apply IH; rewrite ?Esb; [done|done|done|by split| | | | | | |].
    + change BPB with 8192. lia.
    + by rewrite Z.add_mod, Hmod by done.
    + change BPB with 8192 in Hf. lia.
    + change BPB with 8192 in *. lia.
    + intros n Hn Hns. destruct (decide (n < b)); [apply Hold; lia|].
      destruct (BBLOCK_step (fs_sb s) b (n - b) Hmod) as [E1 E2]; [lia|].
      replace (b + (n - b)) with n in * by lia. unfold used. rewrite E1, E2. apply Hfc; lia.
    + intros s' F' S' Hall. apply Q0; [done|by etrans|done].
    + intros r s' L' Hr0 Hu F' HL S'. eapply QS; eauto. by etrans.
Qed.

Lemma balloc_wp s L H V (Q : Z → fstate S U → Prop) :
  ftx s L [] H V → meta_used V (fs_sb s) → held_used V (fs_sb s) H → room (fs_sb s) L H 2 0 →
  (∀ s', ftx s' L [] H V → fsame s s' → (∀ n, 0 ≤ n < sb_size (fs_sb s) → used V (fs_sb s) n = true) → Q 0 s') →
  (∀ r s' L', datastart (fs_sb s) ≤ r < sb_size (fs_sb s) → used V (fs_sb s) r = false →
    ftx s' L' [] H (alloc_view (fs_sb s) r V) → (length L ≤ length L' ≤ length L + 2)%nat → fsame s s' → Q r s') →
  wp (balloc ROOTDEV) Q s.
Proof.
  intros F Hm Hh Hr Q0 QS. unfold balloc. wp_step. apply wp_gets. pose proof (so_size _ (f_sb _ _ _ _ _ F)) as Hsz.
  eapply balloc_loop_wp; eauto; [done|lia| |intros; lia].
  assert (0 ≤ sb_size (fs_sb s) / BPB) by (apply Z.div_pos; [lia|done]).
  pose proof (Z.mul_succ_div_gt (sb_size (fs_sb s)) BPB ltac:(done)). change BPB with 8192 in *. lia.
Qed.

(** The contents after block [b] was freed. *)
Definition free_view (sb : superblock) (b : Z) (V : Z → block) : Z → block :=
  <[BBLOCK b sb := clr_bit (V (BBLOCK b sb)) (b `mod` BPB)]> V.

Lemma bfree_wp s L H V b (Q : unit → fstate S U → Prop) :
  ftx s L [] H V → held_used V (fs_sb s) H → room (fs_sb s) L H 1 0 → 0 ≤ b < sb_size (fs_sb s) → used V (fs_sb s) b = true →
  (∀ s' L', ftx s' L' [] H (free_view (fs_sb s) b V) → L' = logged L (BBLOCK b (fs_sb s)) → fsame s s' → Q tt s') →
  wp (bfree ROOTDEV b) Q s.
Proof.
  intros F Hh [Hr1 Hr2] Hb Hu HQ. pose proof (f_sb _ _ _ _ _ F) as Hsb. pose proof (sb_order _ Hsb) as Hord.
  destruct (BBLOCK_range _ b Hsb Hb) as [HB1 HB2]. pose proof (so_data _ Hsb) as Hdat.
  unfold bfree. wp_step. apply wp_gets. wp_step. eapply fs_bread; [done| |lia|].
  { intros Hin. apply Hh in Hin as [? _]. lia. }
  intros h s1 F1 S1. wp_step. eapply fs_data; [done|by left|]. rewrite bit_clear_spec.
  change (bit (V (BBLOCK b (fs_sb s))) (b `mod` BPB)) with (used V (fs_sb s) b). rewrite Hu. cbn [negb].
  eapply fs_modify; [done|rewrite (fe_sb _ _ S1); apply outside_ge; [done|lia]|apply blk_store_ok; by eapply ftx_blk_ok
    |rewrite (fe_sb _ _ S1); lia|].
  intros s2 F2 S2. eapply HQ; [exact F2|done|by etrans].
Qed.

Lemma alloc_used sb r V n : sb_ok sb → (∀ m, blk_ok (V m)) → datastart sb ≤ r → 0 ≤ n < sb_size sb →
  used (alloc_view sb r V) sb n = if decide (n = r) then true else used V sb n.
Proof.
  intros Hsb Hok Hr Hn. destruct (BBLOCK_range sb n Hsb Hn). unfold alloc_view.
  rewrite <- used_set by auto. apply used_ext. rewrite fn_lookup_insert_ne by lia. done.
Qed.

(** C6: [balloc] never hands out a block that is in use.  It answers 0, with
    nothing changed, exactly when every block is in use; otherwise it answers
    a block of the data area that was free, which is now zeroed and in use,
    and changes no other block of the disk (but for that one bit of the
    bitmap) and the state of no other block. *)
Theorem balloc_correct s L H V :
  ftx s L [] H V → meta_used V (fs_sb s) → held_used V (fs_sb s) H → room (fs_sb s) L H 2 0 →
  let sb := fs_sb s in
  wp (balloc ROOTDEV) (λ r s', ∃ L' V', ftx s' L' [] H V' ∧ fsame s s' ∧
    if decide (r = 0) then (∀ n, V' n = V n) ∧ ∀ n, 0 ≤ n < sb_size sb → used V sb n = true
    else datastart sb ≤ r < sb_size sb ∧ used V sb r = false ∧ V' r = zero_block ∧
      (∀ n, n ≠ r → n ≠ BBLOCK r sb → V' n = V n) ∧
      (∀ n, 0 ≤ n < sb_size sb → used V' sb n = if decide (n = r) then true else used V sb n)) s.
Proof.
  intros F Hm Hh Hr sb. pose proof (f_sb _ _ _ _ _ F) as Hsb. pose proof (sb_order _ Hsb) as [? ?].
  destruct (so_log _ Hsb) as (?&?&?). assert (Hpos : 0 < datastart sb) by (unfold sb; lia).
  eapply balloc_wp; eauto.
  - intros s' F' S' Hall. exists L, V. rewrite decide_True by done. auto.
  - intros r s' L' Hrr Hu F' HL S'. exists L', (alloc_view sb r V). fold sb in Hrr. rewrite decide_False by lia.
    split_and!; auto; try apply Hrr.
    + apply fn_lookup_insert.
    + intros n Hn1 Hn2. unfold alloc_view. rewrite !fn_lookup_insert_ne by done. done.
    + intros n Hn. apply alloc_used; auto; [|lia]. intros m. by eapply (ftx_blk_ok s).
Qed.

(** [bfree] of a block that is not in use panics; of one in use, it marks
    that block free and changes nothing else, so that a block can be freed
    once only. *)
Theorem bfree_correct s L H V b :
  ftx s L [] H V → held_used V (fs_sb s) H → room (fs_sb s) L H 1 0 → 0 ≤ b < sb_size (fs_sb s) →
  let sb := fs_sb s in
  if used V sb b then
    wp (bfree ROOTDEV b) (λ _ s', ∃ L' V', ftx s' L' [] H V' ∧ fsame s s' ∧
      (∀ n, n ≠ BBLOCK b sb → V' n = V n) ∧
      (∀ n, 0 ≤ n < sb_size sb → used V' sb n = if decide (n = b) then false else used V sb n)) s
  else bfree ROOTDEV b s = Panic "freeing free block".
Proof.
  intros F Hh Hr Hb sb. destruct (used V sb b) eqn:Hu.
  - eapply bfree_wp; eauto. intros s' L' F' _ S'. exists L', (free_view sb b V). split_and!; auto.
    + intros n Hn. by apply fn_lookup_insert_ne.
    + intros n Hn. apply used_clr. by eapply (ftx_blk_ok s).
  - assert (Hw : wp (bread ROOTDEV (BBLOCK b sb)) (λ h s1, wp (data h) (λ d _, d = V (BBLOCK b sb)) s1) s).
    { pose proof (f_sb _ _ _ _ _ F) as Hsb. destruct (BBLOCK_range _ b Hsb Hb) as [HB1 HB2]. destruct Hr as [Hr1 Hr2].
      eapply fs_bread; [done| |lia|]; [intros Hin; apply Hh in Hin as [? _]; unfold sb in *; lia|].
      intros h s1 F1 S1. eapply fs_data; [done|by left|done]. }
    unfold bfree. apply wp_inv in Hw as (h&s1&E1&(d&s2&E2&->)%wp_inv).
    unfold mbind, M_bind, gets. fold sb. rewrite E1, E2, bit_clear_spec. unfold used in Hu. by rewrite Hu.
Qed.
End alloc.
