(* ===== verification/FsFile.v ===== *)
(** * The contents of a file: inode addresses, holes and bytes

    A file's blocks are named by its slots: the NDIRECT direct addresses, the
    address of the indirect block, and the entries of that block. *)
From S2P Require Import Prelude Kstring Block Sleeplock BufCache Log LogDisk LogProps Txn Fs FsBase FsBlock.

Definition NSLOT : Z := NDIRECT + 1 + NINDIRECT.

Definition slot (V : Z → block) (x : inode) (k : Z) : Z :=
  if k <=? NDIRECT then iaddr k x
  else if iaddr NDIRECT x =? 0 then 0
  else blk_load 4 (V (iaddr NDIRECT x)) (4 * (k - NDIRECT - 1)).

(** The slot of file block [bn], and its address, 0 for a hole. *)
Definition slot_of (bn : Z) : Z := if bn <? NDIRECT then bn else bn + 1.
Definition baddr (V : Z → block) (x : inode) (bn : Z) : Z := slot V x (slot_of bn).

(** The byte at offset [o]; holes read as zeros. *)
Definition fbyte (V : Z → block) (x : inode) (o : Z) : Z :=
  if baddr V x (o / BSIZE) =? 0 then 0 else blk_mem (V (baddr V x (o / BSIZE))) (o `mod` BSIZE).
Definition fbytes (V : Z → block) (x : inode) (off n : Z) : list Z := fbyte V x <$> seqZ off n.

(** The addresses are distinct data blocks in use. *)
Record file_ok (V : Z → block) (sb : superblock) (x : inode) : Prop := {
  fo_len : length (i_addrs x) = Z.to_nat (NDIRECT + 1);
  fo_data : ∀ k, 0 ≤ k < NSLOT → slot V x k ≠ 0 → datastart sb ≤ slot V x k < sb_size sb ∧ used V sb (slot V x k) = true;
  fo_uniq : ∀ j k, 0 ≤ j < NSLOT → 0 ≤ k < NSLOT → slot V x j = slot V x k → slot V x j ≠ 0 → j = k
}.

(** No hole below the size. *)
Definition file_full (V : Z → block) (x : inode) : Prop :=
  0 ≤ i_size x ≤ MAXFILE * BSIZE ∧ ∀ bn, 0 ≤ bn → bn * BSIZE < i_size x → baddr V x bn ≠ 0.

Lemma slot_of_range bn : 0 ≤ bn < MAXFILE → 0 ≤ slot_of bn < NSLOT ∧ slot_of bn ≠ NDIRECT.
Proof. unfold slot_of. change MAXFILE with 268. change NSLOT with 269. change NDIRECT with 12. destruct (Z.ltb_spec bn 12); lia. Qed.

Lemma slot_of_inj b b' : slot_of b = slot_of b' → 0 ≤ b → 0 ≤ b' → b = b'.
Proof. unfold slot_of. change NDIRECT with 12. destruct (Z.ltb_spec b 12), (Z.ltb_spec b' 12); lia. Qed.

(** The slots do not depend on the data blocks. *)
Lemma slot_ext V V' x k : (iaddr NDIRECT x ≠ 0 → V (iaddr NDIRECT x) = V' (iaddr NDIRECT x)) → slot V x k = slot V' x k.
Proof.
  intros E. unfold slot. destruct (k <=? NDIRECT); [done|]. destruct (Z.eqb_spec (iaddr NDIRECT x) 0); [done|]. by rewrite E.
Qed.

Lemma slot_indirect V x : slot V x NDIRECT = iaddr NDIRECT x.
Proof. done. Qed.

(** ** Growing a file *)

(** [x'] in [V'] has the blocks of [x] in [V], and possibly more, which are
    zeroed; whatever else was in use is untouched. *)
Record grown (sb : superblock) (V : Z → block) (x : inode) (V' : Z → block) (x' : inode) : Prop := {
  gr_inode : ∃ a, x' = Inode (i_dev x) (i_inum x) (i_ref x) (i_lock x) (i_valid x) (i_type x) (i_major x) (i_minor x)
                    (i_nlink x) (i_size x) a;
  gr_ok : file_ok V' sb x';
  gr_meta : meta_used V' sb;
  gr_addr : ∀ k, 0 ≤ k < NSLOT → slot V x k ≠ 0 → slot V' x' k = slot V x k;
  gr_new : ∀ bn, 0 ≤ bn < MAXFILE → baddr V x bn = 0 → baddr V' x' bn ≠ 0 → V' (baddr V' x' bn) = zero_block;
  gr_used : ∀ n, 0 ≤ n < sb_size sb → used V sb n = true → used V' sb n = true;
  gr_fresh : ∀ k, 0 ≤ k < NSLOT → slot V x k = 0 → slot V' x' k ≠ 0 → used V sb (slot V' x' k) = false;
  gr_frame : ∀ n, 0 ≤ n < sb_size sb → used V sb n = true → ¬ (sb_bmapstart sb ≤ n < datastart sb) → n ≠ iaddr NDIRECT x → V' n = V n
}.

Lemma grown_refl sb V x : file_ok V sb x → meta_used V sb → grown sb V x V x.
Proof. intros Ho Hm. split; auto; try done. exists (i_addrs x). by destruct x. Qed.

Lemma meta_bitmap V sb b : sb_ok sb → meta_used V sb → used V sb b = false → 0 ≤ b → datastart sb ≤ b.
Proof. intros Hsb Hm Hu Hb. destruct (decide (datastart sb ≤ b)); [done|]. rewrite Hm in Hu by lia. done. Qed.

Lemma grown_data sb V x V' x' bn :
  sb_ok sb → file_ok V sb x → grown sb V x V' x' → 0 ≤ bn < MAXFILE → baddr V x bn ≠ 0 → V' (baddr V x bn) = V (baddr V x bn).
Proof.
  intros Hsb Hok Hg Hbn Hz. destruct (slot_of_range bn Hbn) as [Hk Hne]. destruct (fo_data _ _ _ Hok _ Hk Hz) as [Hr Hu].
  pose proof (sb_order _ Hsb). destruct (so_log _ Hsb) as (?&?&?). unfold baddr. apply (gr_frame _ _ _ _ _ Hg); [lia|done|lia|].
  rewrite <- (slot_indirect V). intros E. by apply (fo_uniq _ _ _ Hok) in E; [..|done].
Qed.

Lemma grown_trans sb V x V' x' V'' x'' :
  sb_ok sb → file_ok V sb x → grown sb V x V' x' → grown sb V' x' V'' x'' → grown sb V x V'' x''.
Proof.
  intros Hsb Hok [I1 O1 M1 A1 N1 U1 R1 F1] G2. pose proof G2 as [I2 O2 M2 A2 N2 U2 R2 F2].
  split; auto.
  - destruct I1 as [a1 ->], I2 as [a2 ->]. by exists a2.
  - intros k Hk Hz. rewrite <- (A1 k Hk Hz). apply A2; [done|]. by rewrite A1.
  - intros bn Hbn Hz Hnz. destruct (decide (baddr V' x' bn = 0)) as [E|E]; [by apply N2|].
    assert (E2 : baddr V'' x'' bn = baddr V' x' bn) by (apply A2; [by apply slot_of_range|done]).
    rewrite E2, (grown_data sb V' x' V'' x'') by done. by apply N1.
  - intros k Hk Hz Hnz. destruct (decide (slot V' x' k = 0)) as [E|E].
    + destruct (used V sb (slot V'' x'' k)) eqn:Eu; [|done]. destruct (fo_data _ _ _ O2 k Hk Hnz) as [Hr _].
      pose proof (sb_order _ Hsb). destruct (so_log _ Hsb) as (?&?&?). apply U1 in Eu; [|lia]. by rewrite R2 in Eu.
    + rewrite (A2 k Hk E). by apply R1.
  - intros n Hn Hu Hb Hi. rewrite F2, F1; auto. destruct (decide (iaddr NDIRECT x = 0)) as [E|E].
    + destruct (decide (iaddr NDIRECT x' = 0)) as [E'|E']; [|intros ->; rewrite <- slot_indirect with (V := V') in Hu, E'; rewrite R1 in Hu; done].
      rewrite E'. intros ->. pose proof (sb_order _ Hsb). destruct (so_log _ Hsb) as (?&?&?). lia.
    + rewrite <- (slot_indirect V') in *. rewrite A1; [by rewrite slot_indirect|done|by rewrite slot_indirect].
Qed.

Lemma iaddr_set x k a j : length (i_addrs x) = Z.to_nat (NDIRECT + 1) → 0 ≤ k ≤ NDIRECT → 0 ≤ j ≤ NDIRECT →
  iaddr j (set_iaddr k a x) = if decide (j = k) then a else iaddr j x.
Proof.
  intros Hl Hk Hj. unfold iaddr, set_iaddr. simpl. change NDIRECT with 12 in *. case_decide as E.
  - subst. rewrite list_lookup_total_insert_eq by lia. done.
  - rewrite list_lookup_total_insert_ne by lia. done.
Qed.

Lemma load_zero (n : nat) o : 0 ≤ o → o + n ≤ BSIZE → blk_load n zero_block o = 0.
Proof.
  unfold blk_load. revert o. induction n as [|n IH]; intros o Ho Hn; [done|]. simpl load_le. rewrite IH by lia.
  assert (blk_mem zero_block o = 0) as ->; [|lia]. unfold blk_mem, zero_block. by rewrite lookup_total_replicate_2 by lia.
Qed.

Section alloc_slot.
Context (sb : superblock) (V : Z → block) (x : inode) (r : Z).
Context (Hsb : sb_ok sb) (Hblk : ∀ n, blk_ok (V n)) (Hok : file_ok V sb x) (Hm : meta_used V sb).
Context (Hr : datastart sb ≤ r < sb_size sb) (Hfree : used V sb r = false).

Lemma data_nonzero : 0 < datastart sb.
Proof using Hsb. pose proof (sb_order _ Hsb). destruct (so_log _ Hsb) as (?&?&?). lia. Qed.

Lemma slot_not_r k : 0 ≤ k < NSLOT → slot V x k ≠ r.
Proof using Hsb Hok Hr Hfree.
  intros Hk E. pose proof data_nonzero. destruct (fo_data _ _ _ Hok k Hk) as [_ Hu]; [lia|]. congruence.
Qed.

Lemma alloc_view_other n : n ≠ r → ¬ (sb_bmapstart sb ≤ n < datastart sb) → alloc_view sb r V n = V n.
Proof using Hsb Hr.
  intros Hn Hb. unfold alloc_view. pose proof data_nonzero. destruct (BBLOCK_range sb r Hsb) as [? ?]; [lia|].
  rewrite !fn_lookup_insert_ne by lia. done.
Qed.

Lemma alloc_view_indirect : iaddr NDIRECT x ≠ 0 → alloc_view sb r V (iaddr NDIRECT x) = V (iaddr NDIRECT x).
Proof using Hsb Hok Hr Hfree.
  intros Hz. rewrite <- (slot_indirect V) in *. destruct (fo_data _ _ _ Hok NDIRECT) as [? _]; [done..|].
  apply alloc_view_other; [|lia]. by apply slot_not_r.
Qed.

Lemma alloc_used_mono n : 0 ≤ n < sb_size sb → used V sb n = true → used (alloc_view sb r V) sb n = true.
Proof using Hsb Hblk Hr. intros Hn Hu. rewrite alloc_used by (done || lia). by case_decide. Qed.

(** A new block for slot [k], in the inode itself. *)
Lemma grown_direct k :
  0 ≤ k ≤ NDIRECT → iaddr k x = 0 → grown sb V x (alloc_view sb r V) (set_iaddr k r x).
Proof using All.
  intros Hk Hz. pose proof data_nonzero as Hpos. set (V' := alloc_view sb r V). set (x' := set_iaddr k r x).
  assert (Hlen : length (i_addrs x') = Z.to_nat (NDIRECT + 1)) by (unfold x', set_iaddr; simpl; rewrite length_insert; apply Hok).
  assert (HN : NDIRECT < NSLOT) by done.
  assert (Hslot : ∀ j, 0 ≤ j < NSLOT → slot V' x' j = if decide (j = k) then r else slot V x j).
  { intros j Hj. unfold slot. destruct (Z.leb_spec j NDIRECT) as [Hle|Hgt].
    - unfold x'. rewrite iaddr_set by (apply Hok || lia). done.
    - rewrite decide_False by lia. unfold x'. rewrite iaddr_set by (apply Hok || lia). case_decide as E.
      + rewrite E, Hz. simpl. destruct (Z.eqb_spec r 0); [done|]. unfold V', alloc_view. rewrite fn_lookup_insert.
        apply load_zero; change NSLOT with 269 in Hj; change NDIRECT with 12 in *; change BSIZE with 1024; lia.
      + destruct (Z.eqb_spec (iaddr NDIRECT x) 0); [done|]. unfold V'. by rewrite alloc_view_indirect. }
  assert (Hkz : slot V x k = 0) by (unfold slot; by rewrite (proj2 (Z.leb_le k NDIRECT)) by lia).
  split.
  - by exists (i_addrs x').
  - split; [done|..].
    + intros j Hj. rewrite Hslot by done. case_decide; intros Hnz.
      * split; [done|]. unfold V'. rewrite alloc_used by (done || lia). by rewrite decide_True.
      * destruct (fo_data _ _ _ Hok j Hj Hnz). split; [done|]. apply alloc_used_mono; [lia|done].
    + intros i j Hi Hj. rewrite !Hslot by done. repeat case_decide; subst; try done; intros E Hnz.
      * symmetry in E. by apply slot_not_r in E.
      * by apply slot_not_r in E.
      * by apply (fo_uniq _ _ _ Hok).
  - intros n Hn. apply alloc_used_mono; [pose proof (so_data _ Hsb); lia|]. by apply Hm.
  - intros j Hj Hnz. rewrite Hslot by done. rewrite decide_False; [done|]. by intros ->.
  - intros bn Hbn. unfold baddr. destruct (slot_of_range bn Hbn) as [Hj _]. rewrite Hslot by done. case_decide; [|done].
    intros _ _. apply fn_lookup_insert.
  - intros n. apply alloc_used_mono.
  - intros j Hj Hjz. rewrite Hslot by done. by case_decide.
  - intros n Hn Hu Hb _. apply alloc_view_other; [|done]. congruence.
Qed.

(** A new block for an entry of the indirect block. *)
Definition entry_view (j : Z) : Z → block :=
  <[iaddr NDIRECT x := blk_store 4 (V (iaddr NDIRECT x)) (4 * j) r]> (alloc_view sb r V).

Lemma entry_slots j i :
  iaddr NDIRECT x ≠ 0 → 0 ≤ j < NINDIRECT → 0 ≤ i < NSLOT →
  slot (entry_view j) x i = if decide (i = j + NDIRECT + 1) then r else slot V x i.
Proof using Hsb Hblk Hr.
  intros Hib Hj Hi. change NINDIRECT with 256 in *. pose proof data_nonzero as Hpos.
  destruct (Hblk (iaddr NDIRECT x)) as [Hlen _]. change (Z.to_nat BSIZE) with 1024%nat in Hlen.
  unfold slot. change NSLOT with 269 in *. change NDIRECT with 12 in *. destruct (Z.leb_spec i 12) as [Hle|Hgt].
  - rewrite decide_False by lia. done.
  - rewrite (proj2 (Z.eqb_neq _ 0)) by done. unfold entry_view. change NDIRECT with 12. rewrite fn_lookup_insert.
    case_decide as E.
    + replace (i - 12 - 1) with j by lia. rewrite blk_load_store by lia. pose proof (so_size _ Hsb).
      apply Z.mod_small. change (256 ^ Z.of_nat 4) with (2 ^ 32). lia.
    + rewrite blk_load_store_other by lia. done.
Qed.

Lemma grown_entry j :
  iaddr NDIRECT x ≠ 0 → 0 ≤ j < NINDIRECT → blk_load 4 (V (iaddr NDIRECT x)) (4 * j) = 0 →
  grown sb V x (entry_view j) x.
Proof using All.
  intros Hib Hj Hz. pose proof data_nonzero as Hpos. set (V' := entry_view j). set (k := j + NDIRECT + 1).
  change NINDIRECT with 256 in *. pose proof (fo_data _ _ _ Hok NDIRECT ltac:(done)) as Hibd. rewrite slot_indirect in Hibd.
  destruct (Hibd Hib) as [Hibr Hibu].
  assert (Hused : ∀ n, 0 ≤ n < sb_size sb → used V' sb n = used (alloc_view sb r V) sb n).
  { intros n Hn. apply used_ext. destruct (BBLOCK_range sb n Hsb Hn). unfold V', entry_view. apply fn_lookup_insert_ne. lia. }
  assert (Hslot : ∀ i, 0 ≤ i < NSLOT → slot V' x i = if decide (i = k) then r else slot V x i).
  { intros i Hi. by apply entry_slots. }
  assert (Hkz : slot V x k = 0).
  { unfold slot, k. change NDIRECT with 12 in *. rewrite (proj2 (Z.leb_gt _ _)) by lia. rewrite (proj2 (Z.eqb_neq _ 0)) by done.
    by replace (j + 12 + 1 - 12 - 1) with j by lia. }
  split.
  - exists (i_addrs x). by destruct x.
  - split; [apply Hok|..].
    + intros i Hi. rewrite Hslot by done. case_decide; intros Hnz.
      * split; [done|]. rewrite Hused, alloc_used by (done || lia). by rewrite decide_True.
      * destruct (fo_data _ _ _ Hok i Hi Hnz). split; [done|]. rewrite Hused by lia. apply alloc_used_mono; [lia|done].
    + intros i i' Hi Hi'. rewrite !Hslot by done. repeat case_decide; subst; try done; intros E Hnz.
      * symmetry in E. by apply slot_not_r in E.
      * by apply slot_not_r in E.
      * by apply (fo_uniq _ _ _ Hok).
  - intros n Hn. pose proof (so_data _ Hsb). rewrite Hused by lia. apply alloc_used_mono; [lia|]. by apply Hm.
  - intros i Hi Hnz. rewrite Hslot by done. rewrite decide_False; [done|]. by intros ->.
  - intros bn Hbn. unfold baddr. destruct (slot_of_range bn Hbn) as [Hi _]. rewrite Hslot by done. case_decide; [|done].
    intros _ _. unfold V', entry_view. rewrite fn_lookup_insert_ne; [apply fn_lookup_insert|].
    rewrite <- (slot_indirect V). by apply slot_not_r.
  - intros n Hn Hu. rewrite Hused by done. by apply alloc_used_mono.
  - intros i Hi Hiz. rewrite Hslot by done. by case_decide.
  - intros n Hn Hu Hb Hni. unfold V', entry_view. rewrite fn_lookup_insert_ne by done. apply alloc_view_other; [|done]. congruence.
Qed.
End alloc_slot.

(** The bytes of a file do not change when it grows. *)
Lemma grown_fbyte sb V x V' x' o :
  sb_ok sb → file_ok V sb x → grown sb V x V' x' → 0 ≤ o < MAXFILE * BSIZE → fbyte V' x' o = fbyte V x o.
Proof.
  intros Hsb Hok Hg Ho. unfold fbyte. set (bn := o / BSIZE).
  assert (Hbn : 0 ≤ bn < MAXFILE) by (split; [apply Z.div_pos; [lia|done]|apply Z.div_lt_upper_bound; [done|lia]]).
  pose proof (Z.mod_pos_bound o BSIZE ltac:(done)) as Hmod.
  destruct (Z.eqb_spec (baddr V x bn) 0) as [E|E].
  - destruct (Z.eqb_spec (baddr V' x' bn) 0) as [E'|E']; [done|]. rewrite (gr_new _ _ _ _ _ Hg) by done.
    unfold blk_mem, zero_block. by rewrite lookup_total_replicate_2 by lia.
  - assert (E' : baddr V' x' bn = baddr V x bn) by (apply (gr_addr _ _ _ _ _ Hg); [by apply slot_of_range|done]).
    rewrite E', (proj2 (Z.eqb_neq _ 0)) by done. by rewrite (grown_data sb V x V' x').
Qed.
