(* ===== verification/FsBmap.v ===== *)
(** * [bmap]: finding, and allocating, the blocks of a file *)
From S2P Require Import Prelude Kstring Block Sleeplock BufCache Log LogDisk LogProps Txn Fs FsBase FsBlock FsFile.

Section bmap.
Context {S U : Type} `{HB : !BufCache S} `{HBok : !BufCacheOk S} `{HU : !UserCopy U}.
Implicit Types s : fstate S U.
Implicit Types H : list (Z * Z).

(** Only inode [ip], the blocks and the process memory may have changed. *)
Record fkeep (ip : Z) s s' : Prop := {
  fk_lock : it_lock s' = it_lock s;
  fk_inode : ∀ j, j ≠ ip → inode_at j s' = inode_at j s;
  fk_sb : fs_sb s' = fs_sb s;
  fk_log : tx_same (fs_log s) (fs_log s')
}.

#[global] Instance fkeep_preorder ip : PreOrder (fkeep ip).
Proof.
  split; [by split|]. intros s1 s2 s3 [A1 A2 A3 A4] [B1 B2 B3 B4]. split; [congruence| |congruence|by etrans].
  intros j Hj. by rewrite B2, A2.
Qed.

Lemma fsame_keep ip s s' : fsame s s' → fkeep ip s s'.
Proof. intros [E1 E2 E3 E4 E5]. split; auto. intros j _. unfold inode_at. by rewrite E2. Qed.

Lemma inode_at_put i x s j : inode_at j (put_inode i x s) = if decide (j = i) then x else inode_at j s.
Proof.
  unfold inode_at, put_inode. simpl. case_decide; [subst; apply lookup_total_insert_eq|by apply lookup_total_insert_ne].
Qed.

Lemma fkeep_put ip x s : fkeep ip s (put_inode ip x s).
Proof. split; try done. intros j Hj. by rewrite inode_at_put, decide_False. Qed.

Lemma ftx_put s L X H V ip x : ftx s L X H V → ftx (put_inode ip x s) L X H V.
Proof. intros []. by split. Qed.

Lemma fsame_at s s' i : fsame s s' → inode_at i s' = inode_at i s.
Proof. intros E. unfold inode_at. by rewrite (fe_inode _ _ E). Qed.

(** What [bmap], [readi] and [writei] need of a locked inode. *)
Record iready s L H V (ip : Z) (x : inode) : Prop := {
  ir_tx : ftx s L [] H V;
  ir_at : inode_at ip s = x;
  ir_dev : i_dev x = ROOTDEV;
  ir_ok : file_ok V (fs_sb s) x;
  ir_meta : meta_used V (fs_sb s);
  ir_held : held_used V (fs_sb s) H;
  ir_free : ∀ k, 0 ≤ k < NSLOT → slot V x k ∉ H.*2
}.

Lemma iready_sb s L H V ip x : iready s L H V ip x → sb_ok (fs_sb s).
Proof. intros Hi. apply (ir_tx _ _ _ _ _ _ Hi). Qed.

Lemma iready_step s s' L L' H V V' ip x x' :
  iready s L H V ip x → ftx s' L' [] H V' → fkeep ip s s' → inode_at ip s' = x' → i_dev x' = i_dev x →
  file_ok V' (fs_sb s) x' → meta_used V' (fs_sb s) →
  (∀ n, 0 ≤ n < sb_size (fs_sb s) → used V (fs_sb s) n = true → used V' (fs_sb s) n = true) →
  (∀ k, 0 ≤ k < NSLOT → slot V x k ≠ 0 → slot V' x' k = slot V x k) →
  (∀ k, 0 ≤ k < NSLOT → slot V x k = 0 → slot V' x' k ≠ 0 → used V (fs_sb s) (slot V' x' k) = false) →
  iready s' L' H V' ip x'.
Proof.
  intros Hi F K Hx Hd Hok Hm Hu Ha Hfr. pose proof (data_nonzero _ (iready_sb _ _ _ _ _ _ Hi)) as Hpos.
  destruct Hi as [_ _ Hdev _ _ Hheld Hfree]. rewrite <- (fk_sb _ _ _ K) in *.
  split; [done|done|congruence|done|done| |].
  - intros n Hn. destruct (Hheld n Hn) as [Hr Hn1]. split; [done|]. apply Hu; [lia|done].
  - intros k Hk Hin. destruct (Hheld _ Hin) as [Hr Hn1]. destruct (decide (slot V x k = 0)) as [E|E].
    + rewrite Hfr in Hn1 by (done || lia). done.
    + rewrite Ha in Hin by done. by eapply Hfree.
Qed.

(** Growing the file keeps the inode ready. *)
Lemma iready_grown s s' L L' H V V' ip x x' :
  iready s L H V ip x → ftx s' L' [] H V' → fkeep ip s s' → inode_at ip s' = x' → grown (fs_sb s) V x V' x' →
  iready s' L' H V' ip x'.
Proof.
  intros Hi F K Hx G. destruct (gr_inode _ _ _ _ _ G) as [a Hx'].
  eapply iready_step; [done..| |apply G|apply G|apply G|apply G|apply G]. by rewrite Hx'.
Qed.

(** Every block is in use. *)
Definition disk_full (V : Z → block) (sb : superblock) : Prop := ∀ n, 0 ≤ n < sb_size sb → used V sb n = true.

(** A new block for a slot of the inode. *)
Lemma slot_alloc_wp s L H V ip x k (Q : Z → fstate S U → Prop) :
  iready s L H V ip x → 0 ≤ k ≤ NDIRECT → iaddr k x = 0 → room (fs_sb s) L H 2 0 →
  (∀ s', ftx s' L [] H V → fsame s s' → disk_full V (fs_sb s) → Q 0 s') →
  (∀ r s' L' V' x', ftx s' L' [] H V' → inode_at ip s' = x' → fkeep ip s s' → fs_user s' = fs_user s →
    grown (fs_sb s) V x V' x' → (length L' ≤ length L + 2)%nat → r ≠ 0 → slot V' x' k = r → Q r s') →
  wp (addr ← balloc ROOTDEV; if addr =? 0 then mret 0 else iupd ip (set_iaddr k addr) ;; mret addr) Q s.
Proof.
  intros Hi Hk Hz Hr Q0 QS. pose proof (iready_sb _ _ _ _ _ _ Hi) as Hsb. destruct Hi as [F Hat Hdev Hok Hm Hh Hfr].
  wp_step. eapply balloc_wp; [done..|by intros s' F' S' Hf; apply Q0|].
  intros r s' L' Hrr Hu F' HL S'. pose proof (data_nonzero _ Hsb). rewrite (proj2 (Z.eqb_neq r 0)) by lia.
  unfold iupd. wp_step. wp_step. apply wp_ret. rewrite (fsame_at _ _ _ S'), Hat.
  eapply (QS r _ L' (alloc_view (fs_sb s) r V) (set_iaddr k r x)); [by apply ftx_put| | |apply S'| |lia|lia|].
  - by rewrite inode_at_put, decide_True.
  - etrans; [by apply fsame_keep|apply fkeep_put].
  - apply grown_direct; auto. intros n. by eapply (ftx_blk_ok s).
  - unfold slot. rewrite (proj2 (Z.leb_le k NDIRECT)) by lia. rewrite iaddr_set by (apply Hok || lia). by rewrite decide_True.
Qed.

(** The entry of the indirect block for file block [bn], read or allocated. *)
Lemma entry_wp s L H V ip x bn (Q : Z → fstate S U → Prop) :
  iready s L H V ip x → iaddr NDIRECT x ≠ 0 → 0 ≤ bn < NINDIRECT → room (fs_sb s) L H 3 1 →
  (∀ r s' L' V', ftx s' L' [] H V' → inode_at ip s' = x → fsame s s' → grown (fs_sb s) V x V' x →
    (length L' ≤ length L + 3)%nat → r = slot V' x (bn + NDIRECT + 1) →
    (r = 0 → disk_full V' (fs_sb s)) → Q r s') →
  wp (bp ← bread ROOTDEV (iaddr NDIRECT x);
      d ← data bp;
      let addr := blk_load 4 d (4 * bn) in
      addr ← (if addr =? 0 then
                addr ← balloc ROOTDEV;
                (if negb (addr =? 0) then
                   d ← data bp; set_data bp (blk_store 4 d (4 * bn) addr) ;; log_write bp
                 else mret tt) ;;
                mret addr
              else mret addr);
      brelse bp ;;
      mret addr) Q s.
Proof.
  intros Hi Hib Hbn [Hr1 Hr2] HQ. pose proof (iready_sb _ _ _ _ _ _ Hi) as Hsb. destruct Hi as [F Hat Hdev Hok Hm Hh Hfr].
  pose proof (data_nonzero _ Hsb) as Hpos. pose proof (sb_order _ Hsb) as Hord.
  set (ib := iaddr NDIRECT x) in *. destruct (fo_data _ _ _ Hok NDIRECT ltac:(done) Hib) as [Hibr Hibu].
  rewrite slot_indirect in Hibr, Hibu. fold ib in Hibr, Hibu.
  assert (Hout : outside (fs_sb s) ib) by (apply outside_ge; [done|lia]).
  assert (Hslot : slot V x (bn + NDIRECT + 1) = blk_load 4 (V ib) (4 * bn)).
  { unfold slot. fold ib. change NDIRECT with 12. rewrite (proj2 (Z.leb_gt _ _)) by lia.
    rewrite (proj2 (Z.eqb_neq _ 0)) by done. by replace (bn + 12 + 1 - 12 - 1) with bn by lia. }
  wp_step. eapply fs_bread; [done|by apply (Hfr NDIRECT)|lia|]. intros bp s1 F1 S1. wp_step. eapply fs_data; [done|by left|].
  cbv zeta. wp_step. destruct (Z.eqb_spec (blk_load 4 (V ib) (4 * bn)) 0) as [Ez|Ez]; last first.
  { wp_step. wp_step. eapply fs_brelse; [done|apply not_elem_of_nil|by rewrite (fe_sb _ _ S1)|]. intros s2 F2 S2. apply wp_ret.
    assert (S02 : fsame s s2) by (by etrans).
    eapply (HQ _ s2 L V); auto; [by rewrite (fsame_at _ _ _ S02)|by apply grown_refl|lia|done]. }
  assert (Hh1 : held_used V (fs_sb s1) ((bp, ib) :: H)).
  { rewrite (fe_sb _ _ S1). intros n. rewrite fmap_cons, elem_of_cons. intros [->|Hn]; [|by apply Hh]. done. }
  wp_step. eapply balloc_wp; [exact F1|by rewrite (fe_sb _ _ S1)|done|rewrite (fe_sb _ _ S1); split; simpl; lia|..].
  - intros s2 F2 S2 Hfull. rewrite (fe_sb _ _ S1) in Hfull. change (negb (0 =? 0)) with false. cbv iota. wp_step. wp_step. wp_step. wp_step.
    eapply fs_brelse; [done|apply not_elem_of_nil|by rewrite (fe_sb _ _ S2), (fe_sb _ _ S1)|]. intros s3 F3 S3. apply wp_ret.
    assert (S03 : fsame s s3) by (by do 2 (etrans; [done|])).
    eapply (HQ _ s3 L V); auto; [by rewrite (fsame_at _ _ _ S03)|by apply grown_refl|lia|congruence].
  - intros r s2 L' Hrr Hu F2 HL S2. rewrite (fe_sb _ _ S1) in *. rewrite (proj2 (Z.eqb_neq r 0)) by lia. cbn [negb].
    wp_step. wp_step. eapply fs_data; [done|by left|].
    assert (Hblk : ∀ n, blk_ok (V n)) by (intros n; by eapply (ftx_blk_ok s)).
    assert (Ealloc : alloc_view (fs_sb s) r V ib = V ib) by (by apply alloc_view_indirect). rewrite Ealloc.
    assert (S02 : fsame s s2) by (by etrans). pose proof (fe_sb _ _ S02) as Esb.
    wp_step. eapply fs_set; [done|by left|by apply blk_store_ok|]. intros s3 F3 S3.
    assert (S03 : fsame s s3) by (by etrans). eapply fs_log_write; [done|by left|by rewrite (fe_sb _ _ S03)|rewrite (fe_sb _ _ S03); lia|].
    intros s4 F4 S4. rewrite filter_cons_False, filter_nil in F4 by auto. assert (S04 : fsame s s4) by (by etrans).
    wp_step. wp_step. eapply fs_brelse; [done|apply not_elem_of_nil|by rewrite (fe_sb _ _ S04)|]. intros s5 F5 S5. apply wp_ret.
    assert (S05 : fsame s s5) by (by etrans). pose proof (length_logged L' ib) as HL5.
    assert (G : grown (fs_sb s) V x (entry_view (fs_sb s) V x r bn) x) by (by apply grown_entry).
    eapply (HQ _ s5 (logged L' ib) _ F5); [by rewrite (fsame_at _ _ _ S05)|done|done|lia| |lia].
    change (r = slot (entry_view (fs_sb s) V x r bn) x (bn + NDIRECT + 1)).
    rewrite entry_slots, decide_True; [done..|]. change NDIRECT with 12. change NSLOT with 269. change NINDIRECT with 256 in Hbn. lia.
Qed.

(** [bmap] on any block of the file. *)
Lemma bmap_wp s L H V ip x bn (Q : Z → fstate S U → Prop) :
  iready s L H V ip x → 0 ≤ bn < MAXFILE → room (fs_sb s) L H 5 1 →
  (∀ r s' L' V' x', iready s' L' H V' ip x' → fkeep ip s s' → fs_user s' = fs_user s → grown (fs_sb s) V x V' x' →
    (length L' ≤ length L + 5)%nat → (if decide (r = 0) then disk_full V' (fs_sb s) else r = baddr V' x' bn) → Q r s') →
  wp (bmap ip bn) Q s.
Proof.
  intros Hi Hbn [Hr1 Hr2] HQ. pose proof (iready_sb _ _ _ _ _ _ Hi) as Hsb. pose proof Hi as [F Hat Hdev Hok Hm Hh Hfr].
  assert (Gr : grown (fs_sb s) V x V x) by (by apply grown_refl).
  assert (Hb : baddr V x bn = slot V x (slot_of bn)) by done.
  unfold bmap, ird. wp_step. apply wp_gets. rewrite Hat, Hdev. unfold slot_of in Hb.
  destruct (Z.ltb_spec bn NDIRECT) as [Hd|Hd].
  - wp_step. apply wp_gets. rewrite Hat. destruct (Z.eqb_spec (iaddr bn x) 0) as [Ez|Ez].
    + eapply slot_alloc_wp; [done|lia|done|split; lia|..].
      * intros s' F' S' Hf. eapply (HQ 0 s' L V x); auto; [|by apply fsame_keep|apply S'|lia].
        eapply iready_grown; eauto; [by apply fsame_keep|by rewrite (fsame_at _ _ _ S')].
      * intros r s' L' V' x' F' Hx' K' E' G' HL Hr Hs. eapply (HQ r s' L' V' x'); auto; [by eapply iready_grown|lia|].
        rewrite decide_False by done. unfold baddr, slot_of. by rewrite (proj2 (Z.ltb_lt bn NDIRECT) Hd).
    + apply wp_ret. eapply (HQ _ s L V x); auto; [done|lia|]. rewrite decide_False by done. rewrite Hb. unfold slot.
      by rewrite (proj2 (Z.leb_le bn NDIRECT)) by lia.
  - change MAXFILE with 268 in Hbn. change NDIRECT with 12 in *. change NINDIRECT with 256 in *.
    rewrite (proj2 (Z.ltb_lt (bn - 12) 256)) by lia.
    (* what remains once the indirect block is there *)
    assert (Hent : ∀ s1 L1 V1 x1 a, iready s1 L1 H V1 ip x1 → fkeep ip s s1 → fs_user s1 = fs_user s →
      grown (fs_sb s) V x V1 x1 → (length L1 ≤ length L + 2)%nat → a ≠ 0 → iaddr 12 x1 = a → wp (
        bp ← bread ROOTDEV a; d ← data bp;
        let addr := blk_load 4 d (4 * (bn - 12)) in
        addr ← (if addr =? 0 then
                  addr ← balloc ROOTDEV;
                  (if negb (addr =? 0) then
                     d ← data bp; set_data bp (blk_store 4 d (4 * (bn - 12)) addr) ;; log_write bp
                   else mret tt) ;;
                  mret addr
                else mret addr);
        brelse bp ;; mret addr) Q s1).
    { intros s1 L1 V1 x1 a Hi1 K1 U1 G1 HL1 Ha <-. pose proof (fk_sb _ _ _ K1) as Esb. eapply entry_wp; [done|done|change NINDIRECT with 256; lia|rewrite Esb; split; lia|].
      intros r s2 L2 V2 F2 Hx2 S2 G2 HL2 Hr2' Hf2. rewrite Esb in G2, Hf2. eapply (HQ r s2 L2 V2 x1); [|etrans; [done|by apply fsame_keep]| | |lia|].
      - eapply iready_grown; [exact Hi1|done|by apply fsame_keep|done|by rewrite Esb].
      - by rewrite (fe_user _ _ S2).
      - by eapply grown_trans.
      - case_decide; [auto|]. rewrite Hr2'. unfold baddr, slot_of. change NDIRECT with 12. rewrite (proj2 (Z.ltb_ge bn 12)) by lia. f_equal. lia. }
    wp_step. apply wp_gets. rewrite Hat. wp_step. destruct (Z.eqb_spec (iaddr 12 x) 0) as [Ez|Ez].
    + eapply slot_alloc_wp; [done|done|done|split; lia|..].
      * intros s' F' S' Hf. apply wp_ret. eapply (HQ 0 s' L V x); auto; [|by apply fsame_keep|apply S'|lia].
        eapply iready_grown; eauto; [by apply fsame_keep|by rewrite (fsame_at _ _ _ S')].
      * intros r s' L' V' x' F' Hx' K' E' G' HL Hr Hs. rewrite (proj2 (Z.eqb_neq r 0)) by done.
        eapply Hent; eauto. by eapply iready_grown.
    + apply wp_ret. rewrite (proj2 (Z.eqb_neq _ 0)) by done. eapply (Hent s L V x); auto; [done|lia].
Qed.

(** [bmap] of a block that is there changes nothing. *)
Lemma bmap_present s L H V ip x bn (Q : Z → fstate S U → Prop) :
  iready s L H V ip x → 0 ≤ bn < MAXFILE → length L + length H < NBUF → baddr V x bn ≠ 0 →
  (∀ s', ftx s' L [] H V → fsame s s' → Q (baddr V x bn) s') → wp (bmap ip bn) Q s.
Proof.
  intros Hi Hbn Hr Hnz HQ. pose proof (iready_sb _ _ _ _ _ _ Hi) as Hsb. pose proof (sb_order _ Hsb) as Hord.
  pose proof Hi as [F Hat Hdev Hok Hm Hh Hfr].
  unfold bmap, ird. wp_step. apply wp_gets. rewrite Hat, Hdev. unfold baddr, slot_of in *.
  destruct (Z.ltb_spec bn NDIRECT) as [Hd|Hd].
  - wp_step. apply wp_gets. rewrite Hat. unfold slot in *. rewrite (proj2 (Z.leb_le bn NDIRECT)) in * by lia.
    rewrite (proj2 (Z.eqb_neq _ 0)) by done. apply wp_ret. by apply HQ.
  - assert (Hib : iaddr NDIRECT x ≠ 0).
    { intros E. unfold slot in Hnz. rewrite (proj2 (Z.leb_gt (bn + 1) NDIRECT)), E in Hnz by lia. done. }
    assert (Hs : slot V x (bn + 1) = blk_load 4 (V (iaddr NDIRECT x)) (4 * (bn - NDIRECT))).
    { unfold slot. rewrite (proj2 (Z.leb_gt (bn + 1) NDIRECT)), (proj2 (Z.eqb_neq _ 0)) by (done || lia). do 2 f_equal. lia. }
    destruct (fo_data _ _ _ Hok NDIRECT ltac:(done) Hib) as [Hibr Hibu]. rewrite slot_indirect in Hibr.
    assert (Hout : outside (fs_sb s) (iaddr NDIRECT x)) by (apply outside_ge; [done|lia]).
    change MAXFILE with 268 in Hbn. change NDIRECT with 12 in *. change NINDIRECT with 256 in *.
    rewrite (proj2 (Z.ltb_lt (bn - 12) 256)) by lia. wp_step. apply wp_gets. rewrite Hat, (proj2 (Z.eqb_neq (iaddr 12 x) 0)) by done.
    wp_step. apply wp_ret. rewrite (proj2 (Z.eqb_neq (iaddr 12 x) 0)) by done.
    wp_step. eapply fs_bread; [done|by apply (Hfr 12)|done|]. intros bp s1 F1 S1. wp_step. eapply fs_data; [done|by left|]. cbv zeta.
    rewrite <- Hs, (proj2 (Z.eqb_neq _ 0)) by done. wp_step. apply wp_ret.
    wp_step. eapply fs_brelse; [done|apply not_elem_of_nil|by rewrite (fe_sb _ _ S1)|]. intros s2 F2 S2. apply wp_ret.
    apply HQ; [done|by etrans].
Qed.
End bmap.
