(* ===== verification/FsIO.v ===== *)
(** * Reading and writing files: [readi] and [writei] *)
From S2P Require Import Prelude Kstring Block Sleeplock BufCache Log LogDisk LogProps Txn Fs FsBase FsBlock FsFile FsBmap.

(** What the copies to and from the process promise to the file system:
    [u_byte] is what the process reads at an address, [u_can] where it may
    write. *)
Class UserCopyOk (U : Type) `{!UserCopy U} := {
  u_inv : U → Prop;
  u_byte : U → Z → option Z;
  u_can : U → Z → Prop;
  copyout_ok u va l : u_inv u → length l ≤ BSIZE → 0 ≤ va → va + length l < 2 ^ 64 → (∀ a, va ≤ a < va + length l → u_can u a) →
    Forall (λ c, 0 ≤ c < 256) l →
    wp (copyout va l) (λ r u', r = 0 ∧ u_inv u' ∧ (∀ a, u_can u' a ↔ u_can u a) ∧
      ∀ a, u_byte u' a = if decide (va ≤ a < va + length l) then l !! Z.to_nat (a - va) else u_byte u a) u;
  copyin_ok u va l0 : u_inv u → length l0 ≤ BSIZE → 0 ≤ va → va + length l0 < 2 ^ 64 → (∀ a, va ≤ a < va + length l0 → is_Some (u_byte u a)) →
    Forall (λ c, 0 ≤ c < 256) l0 →
    wp (copyin va l0) (λ lr u', lr.2 = 0 ∧ u_inv u' ∧ (∀ a, u_can u' a ↔ u_can u a) ∧ (∀ a, u_byte u' a = u_byte u a) ∧
      length lr.1 = length l0 ∧ ∀ i : nat, (i < length l0)%nat → lr.1 !! i = u_byte u (va + i)) u
}.

Section io.
Context {S U : Type} `{HB : !BufCache S} `{HBok : !BufCacheOk S} `{HU : !UserCopy U} `{HUok : !UserCopyOk U}.
Implicit Types s : fstate S U.
Implicit Types H : list (Z * Z).

(** Destination [dst] can take [n] more bytes; [dst'] is [dst] after it got
    the bytes [l]. *)
Definition dst_ok (u : U) (dst : ubuf) (n : Z) : Prop :=
  match dst with
  | KernBuf _ => True
  | UserBuf va => u_inv u ∧ 0 ≤ va ∧ va + n < 2 ^ 64 ∧ ∀ a, va ≤ a < va + n → u_can u a
  end.
Definition dst_put (u : U) (dst : ubuf) (l : list Z) (u' : U) (dst' : ubuf) : Prop :=
  match dst with
  | KernBuf b => dst' = KernBuf (b ++ l) ∧ u' = u
  | UserBuf va => dst' = UserBuf (va + length l) ∧ (u_inv u → u_inv u') ∧ (∀ a, u_can u' a ↔ u_can u a) ∧
      ∀ a, u_byte u' a = if decide (va ≤ a < va + length l) then l !! Z.to_nat (a - va) else u_byte u a
  end.

Lemma dst_put_nil u dst : dst_put u dst [] u dst.
Proof.
  destruct dst as [va|b]; simpl; [|by rewrite app_nil_r]. split; [by rewrite Z.add_0_r|]. split; [done|]. split; [done|].
  intros a. by rewrite decide_False by lia.
Qed.

Lemma dst_put_app u dst l u1 dst1 l' u2 dst2 :
  dst_put u dst l u1 dst1 → dst_put u1 dst1 l' u2 dst2 → dst_put u dst (l ++ l') u2 dst2.
Proof.
  destruct dst as [va|b]; simpl.
  - intros (->&Hi&Hc&Hb) (->&Hi'&Hc'&Hb'). rewrite length_app, Nat2Z.inj_add, Z.add_assoc. split; [done|]. split; [auto|]. split.
    { intros a. by rewrite Hc'. }
    intros a. rewrite Hb', Hb. repeat case_decide; try lia; try done.
    + rewrite lookup_app_r by lia. f_equal. lia.
    + rewrite lookup_app_l by lia. done.
  - intros [-> ->] [-> ->]. by rewrite app_assoc.
Qed.

Lemma dst_ok_next u dst l u' dst' n : dst_ok u dst (length l + n) → 0 ≤ n → dst_put u dst l u' dst' → dst_ok u' dst' n.
Proof.
  destruct dst as [va|b]; simpl; [|by intros _ _ [-> _]]. intros (Hi&H0&H1&H2) Hn (->&Hi'&Hc&_).
  split; [auto|]. split; [lia|]. split; [lia|].
  intros a Ha. apply Hc, H2. lia.
Qed.

Lemma either_copyout_wp s dst l (Q : Z * ubuf → fstate S U → Prop) :
  dst_ok (fs_user s) dst (length l) → Forall (λ c, 0 ≤ c < 256) l → length l ≤ BSIZE →
  (∀ u' dst', dst_put (fs_user s) dst l u' dst' → Q (0, dst') (set_user u' s)) → wp (either_copyout dst l) Q s.
Proof.
  destruct dst as [va|b]; simpl.
  - intros (Hi&H0&H1&H2) Hb Hlen HQ. wp_step. unfold user, zoom, wp.
    destruct (wp_inv _ _ _ (copyout_ok (fs_user s) va l Hi Hlen H0 H1 H2 Hb)) as (r&u'&E&->&Hi'&Hc&Hv).
    rewrite E. simpl. rewrite wrap_small by lia. by apply HQ.
  - intros _ _ _ HQ. apply wp_ret. specialize (HQ (fs_user s) (KernBuf (b ++ l))). destruct s. by apply HQ.
Qed.

(** ** Bytes of a file *)

Lemma fbytes_app V x off m n : 0 ≤ m → 0 ≤ n → fbytes V x off (m + n) = fbytes V x off m ++ fbytes V x (off + m) n.
Proof. intros. unfold fbytes. by rewrite seqZ_app, fmap_app. Qed.

Lemma length_fbytes V x off n : length (fbytes V x off n) = Z.to_nat n.
Proof. unfold fbytes. by rewrite length_fmap, length_seqZ. Qed.

(** A range inside one block of the file. *)
Lemma block_offset off m i : 0 ≤ off → off `mod` BSIZE + m ≤ BSIZE → 0 ≤ i < m →
  (off + i) / BSIZE = off / BSIZE ∧ (off + i) `mod` BSIZE = off `mod` BSIZE + i.
Proof.
  intros Ho Hm Hi. pose proof (Z.mod_pos_bound off BSIZE ltac:(done)). pose proof (Z.div_mod off BSIZE ltac:(done)) as E.
  assert (Hq : off + i = BSIZE * (off / BSIZE) + (off `mod` BSIZE + i)) by lia.
  split; [symmetry; eapply Z.div_unique_pos|symmetry; eapply Z.mod_unique_pos]; [|exact Hq| |exact Hq]; lia.
Qed.

Lemma fbytes_block V x off m :
  0 ≤ off → 0 ≤ m → off `mod` BSIZE + m ≤ BSIZE → baddr V x (off / BSIZE) ≠ 0 →
  blk_read (V (baddr V x (off / BSIZE))) (off `mod` BSIZE) (Z.to_nat m) = fbytes V x off m.
Proof.
  intros Ho Hm0 Hm Hb. apply list_eq. intros i. unfold blk_read, fbytes. destruct (decide (i < Z.to_nat m)%nat) as [Hi|Hi].
  - rewrite read_bytes_lookup by done. rewrite list_lookup_fmap, lookup_seqZ_lt by lia. simpl. f_equal.
    destruct (block_offset off m i) as [E1 E2]; [lia..|]. unfold fbyte. rewrite E1, E2. by rewrite (proj2 (Z.eqb_neq _ 0)).
  - rewrite !lookup_ge_None_2; [done|rewrite length_fmap, length_seqZ; lia|rewrite length_read_bytes; lia].
Qed.

(** The rounds of a transfer of [n] bytes at [off]. *)
Definition rounds_ok (off n : Z) (fuel : nat) : Prop :=
  (1 ≤ fuel)%nat ∧ (0 < n → off `mod` BSIZE + n ≤ (fuel - 1) * BSIZE).

Lemma rounds_init off n : 0 ≤ n → rounds_ok off n (io_fuel n).
Proof.
  intros Hn. unfold rounds_ok, io_fuel. split; [lia|]. intros _. pose proof (Z.mod_pos_bound off BSIZE ltac:(done)).
  pose proof (Z.mul_succ_div_gt n BSIZE ltac:(done)). assert (0 ≤ n / BSIZE) by (apply Z.div_pos; [lia|done]).
  change BSIZE with 1024 in *. lia.
Qed.

Definition round_size (off n : Z) : Z := Z.min n (BSIZE - off `mod` BSIZE).

Lemma round_next off n (fuel : nat) : 0 ≤ off → 0 < n → rounds_ok off n (Datatypes.S fuel) →
  let m := round_size off n in
  0 < m ≤ n ∧ off `mod` BSIZE + m ≤ BSIZE ∧ rounds_ok (off + m) (n - m) fuel.
Proof.
  intros Ho Hn [_ Hf] m. specialize (Hf Hn). pose proof (Z.mod_pos_bound off BSIZE ltac:(done)) as Hm.
  assert (Hm1 : 0 < m ≤ n) by (unfold m, round_size; lia). split; [done|].
  assert (Hm2 : off `mod` BSIZE + m ≤ BSIZE) by (unfold m, round_size; lia). split; [done|].
  change BSIZE with 1024 in *. split; [lia|]. intros Hr.
  assert (E : m = 1024 - off `mod` 1024) by (unfold m, round_size in *; change BSIZE with 1024 in *; lia).
  assert (E2 : (off + m) `mod` 1024 = 0).
  { rewrite E. pose proof (Z.div_mod off 1024 ltac:(done)). symmetry. eapply (Z.mod_unique_pos _ _ (off / 1024 + 1)); lia. }
  change BSIZE with 1024. rewrite E2. lia.
Qed.

(** ** readi *)

Lemma ftx_user s L X H V u : ftx s L X H V → ftx (set_user u s) L X H V.
Proof. intros []. by split. Qed.

Lemma iready_same s s' L H V ip x : iready s L H V ip x → ftx s' L [] H V → fsame s s' → iready s' L H V ip x.
Proof.
  intros [F Hat Hdev Hok Hm Hh Hfr] F' S'. split; rewrite ?(fe_sb _ _ S'); auto. by rewrite (fsame_at _ _ _ S').
Qed.

Lemma file_block_outside s L H V ip x bn :
  iready s L H V ip x → 0 ≤ bn < MAXFILE → baddr V x bn ≠ 0 → outside (fs_sb s) (baddr V x bn) ∧ baddr V x bn ∉ H.*2.
Proof.
  intros Hi Hbn Hz. pose proof (iready_sb _ _ _ _ _ _ Hi) as Hsb. pose proof (sb_order _ Hsb).
  destruct (slot_of_range bn Hbn) as [Hk _]. destruct (fo_data _ _ _ (ir_ok _ _ _ _ _ _ Hi) _ Hk Hz) as [Hr _].
  split; [|by apply (ir_free _ _ _ _ _ _ Hi)]. apply outside_ge; [done|]. unfold baddr. lia.
Qed.

Lemma readi_loop_wp (fuel : nat) s L H V ip x dst off n tot (Q : Z * ubuf → fstate S U → Prop) :
  iready s L H V ip x → file_full V x → length L + length H < NBUF →
  0 ≤ off → tot ≤ n → off + (n - tot) ≤ i_size x → rounds_ok off (n - tot) fuel → dst_ok (fs_user s) dst (n - tot) →
  (∀ s' dst', iready s' L H V ip x → fkeep ip s s' →
    dst_put (fs_user s) dst (fbytes V x off (n - tot)) (fs_user s') dst' → Q (n, dst') s') →
  wp (readi_loop ip dst off n tot fuel) Q s.
Proof.
  revert s dst off tot. induction fuel as [|fuel IH]; intros s dst off tot Hi Hfull Hroom Ho Ht Hsz Hf Hd HQ;
    [destruct Hf as [? _]; lia|]. cbn [readi_loop].
  destruct (Z.ltb_spec tot n) as [Hlt|Hge]; last first.
  { apply wp_ret. replace n with tot in * by lia. apply HQ; [done|done|].
    replace (tot - tot) with 0 by lia. apply dst_put_nil. }
  destruct (round_next off (n - tot) fuel) as (Hm1&Hm2&Hf'); [done|lia|done|]. fold (round_size off (n - tot)) in *.
  set (m := round_size off (n - tot)) in *. cbv zeta in Hm1, Hm2, Hf'.
  destruct Hfull as [Hsize Hfull]. assert (Hbn : 0 ≤ off / BSIZE < MAXFILE).
  { split; [apply Z.div_pos; [lia|done]|apply Z.div_lt_upper_bound; [done|lia]]. }
  assert (Hb : baddr V x (off / BSIZE) ≠ 0).
  { apply Hfull; [lia|]. pose proof (Z.mul_div_le off BSIZE ltac:(done)). lia. }
  wp_step. eapply bmap_present; [done..|]. intros s1 F1 S1. rewrite (proj2 (Z.eqb_neq _ 0)) by done.
  assert (Hi1 : iready s1 L H V ip x) by (by eapply iready_same).
  destruct (file_block_outside _ _ _ _ _ _ _ Hi1 Hbn Hb) as [Hout Hfree].
  unfold ird. wp_step. apply wp_gets. rewrite (ir_at _ _ _ _ _ _ Hi1), (ir_dev _ _ _ _ _ _ Hi1).
  wp_step. eapply fs_bread; [done|done|done|]. intros bp s2 F2 S2. wp_step. eapply fs_data; [done|by left|].
  change (Z.min (n - tot) (BSIZE - off `mod` BSIZE)) with m. rewrite fbytes_block by (done || lia).
  assert (Hlen : length (fbytes V x off m) = Z.to_nat m) by apply length_fbytes.
  assert (Eu : fs_user s2 = fs_user s) by (by rewrite (fe_user _ _ S2), (fe_user _ _ S1)).
  assert (Hd2 : dst_ok (fs_user s) dst (length (fbytes V x off m) + (n - tot - m))).
  { rewrite Hlen. by replace (Z.of_nat (Z.to_nat m) + (n - tot - m)) with (n - tot) by lia. }
  wp_step. eapply either_copyout_wp.
  { rewrite Eu. destruct dst; [|done]. destruct Hd2 as (?&?&?&Hc). split; [done|]. split; [done|]. split; [lia|]. intros a Ha. apply Hc. lia. }
  { rewrite <- fbytes_block by (done || lia). apply read_bytes_ok, blk_mem_bytes. eapply (ftx_blk_ok s), Hi. }
  { pose proof (Z.mod_pos_bound off BSIZE ltac:(done)). lia. }
  rewrite Eu. intros u' dst' Hput. change (0 =? -1) with false. cbv iota. wp_step.
  eapply fs_brelse; [by apply ftx_user|apply not_elem_of_nil|simpl; by rewrite (fe_sb _ _ S2)|]. intros s3 F3 S3.
  assert (K3 : fkeep ip s s3).
  { etrans; [apply fsame_keep, S1|]. etrans; [apply fsame_keep, S2|]. etrans; [|apply fsame_keep, S3]. by split. }
  assert (Hi3 : iready s3 L H V ip x).
  { eapply (iready_grown s); [done|done|done| |apply grown_refl; apply Hi].
    rewrite (fsame_at _ _ _ S3). change (inode_at ip s2 = x). rewrite (fsame_at _ _ _ S2). apply Hi1. }
  apply IH; auto; try lia.
  - by split.
  - by replace (n - (tot + m)) with (n - tot - m) by lia.
  - rewrite (fe_user _ _ S3). simpl. replace (n - (tot + m)) with (n - tot - m) by lia. eapply dst_ok_next; eauto; lia.
  - intros s' dst'' Hi' K' Hput'. apply HQ; [done|by etrans|]. rewrite (fe_user _ _ S3) in Hput'. simpl in Hput'.
    replace (n - tot) with (m + (n - (tot + m))) by lia. rewrite fbytes_app by lia. by eapply dst_put_app.
Qed.

(** C4: [readi] returns the contents of the file.  For an offset inside the
    file it transfers exactly the bytes from there up to the requested count
    or the end of the file, for any alignment with the blocks, to the kernel
    buffer or to the memory of the process, and changes no block and no inode;
    past the end, and when the range overflows, it transfers nothing. *)
Theorem readi_reads_file s L H V ip x dst off n :
  iready s L H V ip x → file_full V x → length L + length H < NBUF → 0 ≤ off < 2 ^ 32 → 0 ≤ n < 2 ^ 32 →
  let k := if (off >? i_size x) || (off + n >=? 2 ^ 32) then 0 else Z.min n (i_size x - off) in
  dst_ok (fs_user s) dst k →
  wp (readi ip dst off n) (λ r s', r.1 = k ∧ dst_put (fs_user s) dst (fbytes V x off k) (fs_user s') r.2 ∧
    ftx s' L [] H V ∧ fkeep ip s s' ∧ inode_at ip s' = x) s.
Proof.
  intros Hi Hfull Hroom Ho Hn k Hd. unfold readi, ird. wp_step. apply wp_gets. rewrite (ir_at _ _ _ _ _ _ Hi).
  assert (Hov : (u32 (off + n) <? off) = (off + n >=? 2 ^ 32)).
  { destruct (Z.leb_spec (2 ^ 32) (off + n)) as [Hge|Hlt].
    - rewrite (geb_true (off + n) (2 ^ 32)) by done. unfold wrap. rewrite <- (Z.mod_unique_pos (off + n) (2 ^ 32) 1 (off + n - 2 ^ 32)) by lia.
      apply Z.ltb_lt. lia.
    - rewrite (geb_false (off + n) (2 ^ 32)), wrap_small by lia. apply Z.ltb_ge. lia. }
  rewrite Hov. destruct (_ || _) eqn:E.
  { apply wp_ret. simpl. unfold k. replace (fbytes V x off 0) with (@nil Z) by done.
    split; [done|]. split; [apply dst_put_nil|]. split; [apply Hi|]. split; [done|apply Hi]. }
  apply orb_false_iff in E as [E1 E2]. rewrite Z.gtb_ltb, Z.ltb_ge in E1. rewrite Z.geb_leb, Z.leb_gt in E2.
  rewrite wrap_small by lia. cbv zeta.
  assert (Ek : (if off + n >? i_size x then i_size x - off else n) = k).
  { unfold k. destruct (Z.gtb_spec (off + n) (i_size x)); lia. }
  rewrite Ek. assert (0 ≤ k) by (unfold k; lia).
  eapply (readi_loop_wp _ s L H V ip x); rewrite ?Z.sub_0_r; auto; [lia|unfold k; lia|by apply rounds_init|].
  intros s' dst' Hi' K' Hp. simpl. split_and!; auto; apply Hi'.
Qed.
End io.
