(* ===== verification/FsWrite.v ===== *)
(** * Writing files: [writei] and [iupdate] *)
From S2P Require Import Prelude Kstring Block Sleeplock BufCache Log LogDisk LogProps Txn Fs FsBase FsBlock FsFile FsBmap FsIO.

(** ** Changing the bytes of a file *)

(** The file [x'] in [V'] is the file [x] in [V] with the bytes [l] at [off];
    its size is not part of this. *)
Record wrote (sb : superblock) (V : Z → block) (x : inode) (off : Z) (l : list Z) (V' : Z → block) (x' : inode) : Prop := {
  wr_inode : ∃ a, x' = Inode (i_dev x) (i_inum x) (i_ref x) (i_lock x) (i_valid x) (i_type x) (i_major x) (i_minor x)
                    (i_nlink x) (i_size x) a;
  wr_ok : file_ok V' sb x';
  wr_meta : meta_used V' sb;
  wr_addr : ∀ k, 0 ≤ k < NSLOT → slot V x k ≠ 0 → slot V' x' k = slot V x k;
  wr_byte : ∀ o, 0 ≤ o < MAXFILE * BSIZE →
    fbyte V' x' o = if decide (off ≤ o < off + length l) then l !!! Z.to_nat (o - off) else fbyte V x o;
  wr_here : ∀ o, off ≤ o < off + length l → baddr V' x' (o / BSIZE) ≠ 0;
  wr_used : ∀ n, 0 ≤ n < sb_size sb → used V sb n = true → used V' sb n = true;
  wr_fresh : ∀ k, 0 ≤ k < NSLOT → slot V x k = 0 → slot V' x' k ≠ 0 → used V sb (slot V' x' k) = false;
  wr_frame : ∀ n, 0 ≤ n < sb_size sb → used V sb n = true → ¬ (sb_bmapstart sb ≤ n < datastart sb) →
    (∀ k, 0 ≤ k < NSLOT → slot V x k ≠ n) → V' n = V n
}.

Lemma grown_wrote sb V x V' x' off :
  sb_ok sb → file_ok V sb x → grown sb V x V' x' → wrote sb V x off [] V' x'.
Proof.
  intros Hsb Hok G. pose proof G as [I O M A N U R F]. split; auto.
  - intros o Ho. rewrite decide_False by (simpl; lia). by eapply grown_fbyte.
  - intros o Ho. simpl in Ho. lia.
  - intros n Hn Hu Hb Hk. apply F; auto. intros ->. by apply (Hk NDIRECT).
Qed.

Lemma wrote_trans sb V x V1 x1 V2 x2 off l l' :
  sb_ok sb → file_ok V sb x → 0 ≤ off → off + length l + length l' ≤ MAXFILE * BSIZE →
  wrote sb V x off l V1 x1 → wrote sb V1 x1 (off + length l) l' V2 x2 → wrote sb V x off (l ++ l') V2 x2.
Proof.
  intros Hsb Hok Ho Hmax [I1 O1 M1 A1 B1 H1 U1 R1 F1] [I2 O2 M2 A2 B2 H2 U2 R2 F2].
  pose proof (data_nonzero _ Hsb) as Hpos. split; auto.
  - destruct I1 as [a1 ->], I2 as [a2 ->]. by exists a2.
  - intros k Hk Hz. rewrite <- (A1 k Hk Hz). apply A2; [done|]. by rewrite A1.
  - intros o Hr. rewrite B2, B1 by done. rewrite length_app. repeat case_decide; try lia; try done.
    + rewrite lookup_total_app_r by lia. f_equal. lia.
    + rewrite lookup_total_app_l by lia. done.
  - intros o Hr. rewrite length_app in Hr. destruct (decide (o < off + length l)) as [Hl|Hl]; [|apply H2; lia].
    assert (Hbn : 0 ≤ o / BSIZE < MAXFILE) by (split; [apply Z.div_pos; [lia|done]|apply Z.div_lt_upper_bound; [done|lia]]).
    destruct (slot_of_range _ Hbn) as [Hk _]. unfold baddr. rewrite A2 by (done || apply H1; lia). apply H1. lia.
  - intros k Hk Hz Hnz. destruct (decide (slot V1 x1 k = 0)) as [E|E].
    + destruct (used V sb (slot V2 x2 k)) eqn:Eu; [|done]. destruct (fo_data _ _ _ O2 k Hk Hnz) as [Hr _].
      apply U1 in Eu; [|lia]. by rewrite R2 in Eu.
    + rewrite (A2 k Hk E). by apply R1.
  - intros n Hn Hu Hb Hk. rewrite F2, F1; auto. intros k Hk1 E. destruct (decide (slot V x k = 0)) as [Ez|Ez].
    + destruct (decide (slot V1 x1 k = 0)) as [Ez1|Ez1]; [|rewrite <- E in Hu; by rewrite R1 in Hu].
      apply (Hk k Hk1). congruence.
    + rewrite A1 in E by done. by apply (Hk k).
Qed.

(** Writing into one block of the file. *)
Section write_block.
Context (sb : superblock) (V : Z → block) (x : inode) (off : Z) (l : list Z).
Context (Hsb : sb_ok sb) (Hblk : ∀ n, blk_ok (V n)) (Hok : file_ok V sb x) (Hm : meta_used V sb).
Context (Ho : 0 ≤ off) (Hl : off `mod` BSIZE + length l ≤ BSIZE) (Hbn : 0 ≤ off / BSIZE < MAXFILE).
Context (Hb : baddr V x (off / BSIZE) ≠ 0) (Hbytes : Forall (λ c, 0 ≤ c < 256) l).
Let a := baddr V x (off / BSIZE).
Let V' := <[a := blk_write (V a) (off `mod` BSIZE) l]> V.

Lemma wb_range : datastart sb ≤ a < sb_size sb ∧ used V sb a = true ∧ a ≠ iaddr NDIRECT x.
Proof using Hok Hb Hbn.
  destruct (slot_of_range _ Hbn) as [Hk Hne]. destruct (fo_data _ _ _ Hok _ Hk Hb) as [Hr Hu]. split; [done|]. split; [done|].
  intros E. apply Hne. apply (fo_uniq _ _ _ Hok); auto. done.
Qed.

Lemma wb_slot k : slot V' x k = slot V x k.
Proof using Hok Hb Hbn.
  apply slot_ext. intros _. unfold V'. destruct wb_range as (_&_&Hne). by rewrite fn_lookup_insert_ne.
Qed.

Lemma wb_used n : 0 ≤ n < sb_size sb → used V' sb n = used V sb n.
Proof using Hsb Hok Hb Hbn.
  intros Hn. apply used_ext. destruct (BBLOCK_range sb n Hsb Hn), wb_range as (?&_). unfold V'. apply fn_lookup_insert_ne. lia.
Qed.

Lemma wb_byte o : 0 ≤ o < MAXFILE * BSIZE →
  fbyte V' x o = if decide (off ≤ o < off + length l) then l !!! Z.to_nat (o - off) else fbyte V x o.
Proof using All.
  intros Hr. pose proof (Z.mod_pos_bound off BSIZE ltac:(done)) as Hmod. destruct (Hblk a) as [Hlen _].
  change (Z.to_nat BSIZE) with 1024%nat in Hlen.
  assert (Hobn : 0 ≤ o / BSIZE < MAXFILE) by (split; [apply Z.div_pos; [lia|done]|apply Z.div_lt_upper_bound; [done|lia]]).
  unfold fbyte, baddr. rewrite wb_slot. fold (baddr V x (o / BSIZE)). pose proof (Z.mod_pos_bound o BSIZE ltac:(done)) as Homod.
  change BSIZE with 1024 in *.
  case_decide as Hin.
  - destruct (block_offset off (length l) (o - off)) as [E1 E2]; [lia|change BSIZE with 1024; lia|lia|].
    change BSIZE with 1024 in E1, E2. replace (off + (o - off)) with o in * by lia. rewrite E1, E2.
    rewrite (proj2 (Z.eqb_neq _ 0)) by done. fold a. unfold V'. rewrite fn_lookup_insert.
    rewrite blk_mem_write by lia. rewrite decide_True by lia. f_equal. lia.
  - destruct (Z.eqb_spec (baddr V x (o / 1024)) 0) as [Ez|Ez]; [done|].
    destruct (decide (baddr V x (o / 1024) = a)) as [E|E]; [|unfold V'; by rewrite fn_lookup_insert_ne].
    assert (Eo : o / 1024 = off / 1024).
    { apply slot_of_inj; [|lia..]. apply (fo_uniq _ _ _ Hok); [by apply slot_of_range..|exact E|exact Ez]. }
    rewrite E. unfold V'. rewrite fn_lookup_insert. rewrite blk_mem_write by lia. rewrite decide_False; [done|].
    intros Hx. apply Hin. pose proof (Z.div_mod o 1024 ltac:(done)). pose proof (Z.div_mod off 1024 ltac:(done)). lia.
Qed.

Lemma write_block : wrote sb V x off l V' x.
Proof using All.
  split.
  - exists (i_addrs x). by destruct x.
  - split; [apply Hok|..].
    + intros k Hk. rewrite wb_slot. intros Hz. destruct (fo_data _ _ _ Hok k Hk Hz). split; [done|].
      rewrite wb_used; [done|]. pose proof (data_nonzero _ Hsb). lia.
    + intros j k Hj Hk. rewrite !wb_slot. by apply (fo_uniq _ _ _ Hok).
  - intros n Hn. pose proof (so_data _ Hsb). rewrite wb_used by lia. by apply Hm.
  - intros k _ _. apply wb_slot.
  - apply wb_byte.
  - intros o Hr. destruct (block_offset off (length l) (o - off)) as [E1 _]; [lia..|]. replace (off + (o - off)) with o in E1 by lia.
    unfold baddr. by rewrite E1, wb_slot.
  - intros n Hn. by rewrite wb_used.
  - intros k Hk Hz. by rewrite wb_slot.
  - intros n _ _ _ Hk. unfold V'. apply fn_lookup_insert_ne. apply not_eq_sym. destruct (slot_of_range _ Hbn) as [Hk' _].
    intros E. by apply (Hk _ Hk').
Qed.
End write_block.

Lemma wrote_inode_irrel sb V x off V' x' : wrote sb V x off [] V' x' → i_dev x' = i_dev x ∧ i_size x' = i_size x ∧ i_inum x' = i_inum x.
Proof. intros W. by destruct (wr_inode _ _ _ _ _ _ _ W) as [a ->]. Qed.

Section write.
Context {S U : Type} `{HB : !BufCache S} `{HBok : !BufCacheOk S} `{HU : !UserCopy U} `{HUok : !UserCopyOk U}.
Implicit Types s : fstate S U.
Implicit Types H : list (Z * Z).

(** Source [src] holds the bytes [l]. *)
Definition src_ok (u : U) (src : ubuf) (l : list Z) : Prop :=
  Forall (λ c, 0 ≤ c < 256) l ∧
  match src with
  | KernBuf b => take (length l) b = l
  | UserBuf va => u_inv u ∧ 0 ≤ va ∧ va + length l < 2 ^ 64 ∧ ∀ i : nat, (i < length l)%nat → u_byte u (va + i) = l !! i
  end.

(** The process sees the same memory. *)
Definition usame (u u' : U) : Prop :=
  (u_inv u → u_inv u') ∧ (∀ a, u_can u' a ↔ u_can u a) ∧ ∀ a, u_byte u' a = u_byte u a.
#[global] Instance usame_preorder : PreOrder usame.
Proof.
  unfold usame. split; [intros u; by split_and!|]. intros u1 u2 u3 (A1&A2&A3) (B1&B2&B3). split_and!; [auto|intros a; by rewrite B2|intros a; by rewrite B3].
Qed.

Lemma src_ok_user u u' src l : usame u u' → src_ok u src l → src_ok u' src l.
Proof.
  intros (Hi&_&Hb) [Hf Hs]. split; [done|]. destruct src; [|done]. destruct Hs as (H0&H1&H2&H3). split_and!; auto.
  intros i Hlt. by rewrite Hb, H3.
Qed.

Lemma either_copyin_wp s src l0 l1 l2 (Q : list Z * Z * ubuf → fstate S U → Prop) :
  src_ok (fs_user s) src (l1 ++ l2) → length l0 = length l1 → length l0 ≤ BSIZE → Forall (λ c, 0 ≤ c < 256) l0 →
  (∀ u' src', usame (fs_user s) u' → src_ok u' src' l2 → Q (l1, 0, src') (set_user u' s)) → wp (either_copyin l0 src) Q s.
Proof.
  intros [[Hb1 Hb2]%Forall_app Hs] Hl0 Hlen Hf0 HQ. rewrite length_app in Hs. destruct src as [va|b]; simpl.
  - destruct Hs as (Hinv&H0&H1&H2).
    destruct (wp_inv _ _ _ (copyin_ok (fs_user s) va l0 Hinv Hlen H0 ltac:(lia)
      ltac:(intros a Ha; replace a with (va + Z.of_nat (Z.to_nat (a - va))) by lia; rewrite H2 by lia;
            apply lookup_lt_is_Some; rewrite length_app; lia) Hf0))
      as ([l r]&u'&E&Hr&Hi'&Hc&Hb&Hl&Hv). simpl in *. subst r.
    wp_step. unfold user, zoom, wp. rewrite E. simpl. rewrite wrap_small by lia.
    assert (l = l1) as ->.
    { apply list_eq. intros i. destruct (decide (i < length l1)%nat) as [Hi|Hi].
      - rewrite Hv, H2 by lia. by rewrite lookup_app_l.
      - rewrite !lookup_ge_None_2 by lia. done. }
    apply HQ; [unfold usame; by split_and!|]. split; [done|]. split; [done|]. split; [lia|]. split; [lia|].
    intros i Hi. rewrite Hb. replace (va + length l0 + i) with (va + (length l1 + i)%nat) by lia.
    rewrite H2 by lia. rewrite lookup_app_r by lia. f_equal. lia.
  - rewrite Hl0. assert (Eb : b = l1 ++ drop (length l1) b).
    { rewrite <- (take_drop (length l1) b) at 1. f_equal.
      apply (f_equal (take (length l1))) in Hs. rewrite take_take, take_app_length, Nat.min_l in Hs by lia. done. }
    assert (E : take (length l1) b = l1) by (rewrite Eb, take_app_length; done). rewrite E.
    apply wp_ret. replace s with (set_user (fs_user s) s) by (by destruct s). apply HQ; [done|]. split; [done|].
    rewrite Eb in Hs. rewrite take_app_add' in Hs by done. by apply app_inv_head in Hs.
Qed.

Lemma iready_wrote s s' L L' H V V' ip x x' off l :
  iready s L H V ip x → ftx s' L' [] H V' → fkeep ip s s' → inode_at ip s' = x' → wrote (fs_sb s) V x off l V' x' →
  iready s' L' H V' ip x'.
Proof.
  intros Hi F K Hx W. destruct (wr_inode _ _ _ _ _ _ _ W) as [a Hx'].
  eapply iready_step; [done..| |apply W|apply W|apply W|apply W|apply W]. by rewrite Hx'.
Qed.

Lemma writei_loop_wp (fuel k : nat) s L H V ip x src off n tot l (Q : Z * Z → fstate S U → Prop) :
  iready s L H V ip x → room (fs_sb s) L H (6 * k) 1 → n - tot = length l →
  0 ≤ off → off + length l ≤ MAXFILE * BSIZE → rounds_ok off (n - tot) fuel → rounds_ok off (n - tot) (Datatypes.S k) →
  src_ok (fs_user s) src l →
  (∀ s' L' V' x' l1 l2, iready s' L' H V' ip x' → fkeep ip s s' → usame (fs_user s) (fs_user s') → (length L' ≤ length L + 6 * k)%nat →
    l = l1 ++ l2 → wrote (fs_sb s) V x off l1 V' x' → (l2 ≠ [] → disk_full V' (fs_sb s)) →
    Q (tot + length l1, off + length l1) s') →
  wp (writei_loop ip src off n tot fuel) Q s.
Proof.
  revert k s L V x src off tot l. induction fuel as [|fuel IH]; intros k s L V x src off tot l Hi Hroom Hn Ho Hmax Hf Hk Hs HQ;
    [destruct Hf as [? _]; lia|]. cbn [writei_loop].
  pose proof (iready_sb _ _ _ _ _ _ Hi) as Hsb.
  destruct (Z.ltb_spec tot n) as [Hlt|Hge]; last first.
  { apply wp_ret. assert (l = []) as -> by (destruct l; [done|simpl in Hn; lia]).
    specialize (HQ s L V x [] []). simpl in HQ. rewrite !Z.add_0_r in HQ. apply HQ; auto; [done|done|lia| |done].
    apply grown_wrote; [done|apply Hi|]. apply grown_refl; apply Hi. }
  destruct (round_next off (n - tot) fuel) as (Hm1&Hm2&Hf'); [done|lia|done|].
  destruct k as [|k]; [destruct Hk as [_ Hk]; pose proof (Z.mod_pos_bound off BSIZE ltac:(done)); lia|].
  destruct (round_next off (n - tot) (Datatypes.S k)) as (_&_&Hk'); [done|lia|done|].
  set (m := round_size off (n - tot)) in *. cbv zeta in Hm1, Hm2, Hf', Hk'.
  assert (Hbn : 0 ≤ off / BSIZE < MAXFILE).
  { split; [apply Z.div_pos; [lia|done]|apply Z.div_lt_upper_bound; [done|lia]]. }
  destruct Hroom as [Hr1 Hr2].
  wp_step. eapply bmap_wp; [done|done|split; lia|]. intros r s1 L1 V1 x1 Hi1 K1 U1 G1 HL1 Hr. pose proof (fk_sb _ _ _ K1) as Esb1.
  case_decide as Er.
  { subst r. change (0 =? 0) with true. cbv iota. apply wp_ret. specialize (HQ s1 L1 V1 x1 [] l). simpl in HQ. rewrite !Z.add_0_r in HQ.
    apply HQ; auto; [by rewrite U1|lia|]. apply grown_wrote; [done|apply Hi|done]. }
  rewrite (proj2 (Z.eqb_neq r 0)) by done. subst r. set (a := baddr V1 x1 (off / BSIZE)) in *.
  destruct (file_block_outside _ _ _ _ _ _ _ Hi1 Hbn Er) as [Hout Hfree].
  unfold ird. wp_step. apply wp_gets. rewrite (ir_at _ _ _ _ _ _ Hi1), (ir_dev _ _ _ _ _ _ Hi1).
  wp_step. eapply fs_bread; [apply Hi1|done|lia|]. intros bp s2 F2 S2.
  change (Z.min (n - tot) (BSIZE - off `mod` BSIZE)) with m. cbv zeta.
  set (l1 := take (Z.to_nat m) l). set (l2 := drop (Z.to_nat m) l).
  assert (El : l = l1 ++ l2) by (symmetry; apply take_drop).
  assert (Hl1 : Z.of_nat (length l1) = m) by (unfold l1; rewrite length_take; lia).
  assert (Hl2 : n - (tot + m) = length l2) by (unfold l2; rewrite length_drop; lia).
  assert (Hblk1 : ∀ b, blk_ok (V1 b)) by (intros b; eapply (ftx_blk_ok s1); apply Hi1).
  wp_step. eapply fs_data; [done|by left|]. wp_step. eapply (either_copyin_wp _ _ _ l1 l2).
  { rewrite (fe_user _ _ S2), U1. by rewrite <- El. }
  { rewrite length_blk_read. lia. }
  { rewrite length_blk_read. pose proof (Z.mod_pos_bound off BSIZE ltac:(done)). lia. }
  { apply read_bytes_ok, blk_mem_bytes, Hblk1. }
  intros u' src' Hu' Hs'. apply (ftx_user _ _ _ _ _ u') in F2.
  assert (Hb1 : Forall (λ c, 0 ≤ c < 256) l1) by (unfold l1; apply Forall_take, Hs).
  assert (Hwb : wrote (fs_sb s) V1 x1 off l1 (<[a := blk_write (V1 a) (off `mod` BSIZE) l1]> V1) x1).
  { rewrite <- Esb1. apply write_block; auto; try apply Hi1; first [by eapply iready_sb|lia]. }
  assert (Hwb' : blk_ok (blk_write (V1 a) (off `mod` BSIZE) l1)).
  { apply blk_write_ok; [done|apply Z.mod_pos_bound; done|lia|done]. }
  set (s2' := set_user u' s2) in *. assert (Esb2 : fs_sb s2' = fs_sb s1) by apply (fe_sb _ _ S2).
  wp_step. eapply fs_set; [done|by left|done|]. intros s3 F3 S3.
  change (0 =? -1) with false. cbv iota.
  wp_step. eapply fs_log_write; [done|by left|by rewrite (fe_sb _ _ S3), Esb2|rewrite (fe_sb _ _ S3), Esb2, Esb1; lia|]. intros s4 F4 S4.
  rewrite filter_cons_False, filter_nil in F4 by auto.
  wp_step. eapply fs_brelse; [done|apply not_elem_of_nil|by rewrite (fe_sb _ _ S4), (fe_sb _ _ S3), Esb2|]. intros s5 F5 S5.
  assert (S15 : fsame s2' s5) by (do 2 (etrans; [done|]); done). pose proof (length_logged L1 a) as HL5.
  set (V5 := <[a := _]> V1) in *.
  assert (W5 : wrote (fs_sb s) V x off l1 V5 x1).
  { change l1 with ([] ++ l1). eapply wrote_trans; [done|apply Hi|lia|simpl; lia|apply grown_wrote; [done|apply Hi|done]|].
    simpl. by rewrite Z.add_0_r. }
  assert (K15 : fkeep ip s1 s5).
  { etrans; [apply fsame_keep, S2|]. etrans; [|apply fsame_keep, S15]. by split. }
  assert (Hi5 : iready s5 (logged L1 a) H V5 ip x1).
  { eapply (iready_wrote s1); [done|done|done| |by rewrite Esb1].
    rewrite (fsame_at _ _ _ S15). change (inode_at ip s2 = x1). rewrite (fsame_at _ _ _ S2). apply Hi1. }
  assert (K5 : fkeep ip s s5) by (by etrans).
  assert (U5 : usame (fs_user s) (fs_user s5)).
  { rewrite (fe_user _ _ S15). simpl. by rewrite (fe_user _ _ S2), U1 in Hu'. }
  eapply (IH k); [exact Hi5| |exact Hl2|lia|lia| | | |].
  - rewrite (fk_sb _ _ _ K5). split; lia.
  - by replace (n - (tot + m)) with (n - tot - m) by lia.
  - by replace (n - (tot + m)) with (n - tot - m) by lia.
  - by rewrite (fe_user _ _ S15).
  - intros s' L' V' x' l3 l4 Hi' K' U' HL' E34 W' Hfull. rewrite (fk_sb _ _ _ K5) in W', Hfull.
    specialize (HQ s' L' V' x' (l1 ++ l3) l4). rewrite length_app, Nat2Z.inj_add, Hl1, !Z.add_assoc in HQ.
    apply HQ; auto; [by etrans|by etrans|lia|by rewrite <- app_assoc, <- E34|].
    assert (length l3 ≤ length l2)%nat by (rewrite E34, length_app; lia).
    eapply wrote_trans; [done|apply Hi|lia|lia|exact W5|]. by rewrite Hl1.
Qed.
End write.
