(* ===== verification/FsInode.v ===== *)
(** * Inodes on disk: [iupdate] writes what [ilock] reads back; [writei] *)
From S2P Require Import Prelude Kstring Block Sleeplock BufCache Log LogDisk LogProps Txn Fs FsBase FsBlock FsFile FsBmap FsIO FsWrite.

(** ** The fields of a dinode *)

Definition short_ok (v : Z) : Prop := - 2 ^ 15 ≤ v < 2 ^ 15.
Record inode_fits (x : inode) : Prop := {
  nf_type : short_ok (i_type x);
  nf_major : short_ok (i_major x);
  nf_minor : short_ok (i_minor x);
  nf_nlink : short_ok (i_nlink x);
  nf_size : 0 ≤ i_size x < 2 ^ 32;
  nf_len : length (i_addrs x) = Z.to_nat (NDIRECT + 1);
  nf_addrs : Forall (λ a, 0 ≤ a < 2 ^ 32) (i_addrs x)
}.

Lemma s16_load_store d o v : short_ok v → 0 ≤ o → o + 2 ≤ length d → s16 (blk_load 2 (blk_store 2 d o v) o) = v.
Proof.
  intros Hv Ho Hl. rewrite blk_load_store by lia. change (256 ^ Z.of_nat 2) with (2 ^ 16). unfold swrap, short_ok in *.
  change (2 ^ (16 - 1)) with (2 ^ 15). rewrite Zplus_mod_idemp_l. rewrite Z.mod_small by lia. lia.
Qed.

Lemma put_addrs_length d o l : length (put_addrs d o l) = length d.
Proof. revert d o. induction l as [|a l IH]; intros d o; simpl; [done|]. by rewrite IH, length_blk_store. Qed.

Lemma put_addrs_other k d o l off :
  0 ≤ off → off + Z.of_nat k ≤ length d → off + Z.of_nat k ≤ o ∨ o + 4 * length l ≤ off →
  blk_load k (put_addrs d o l) off = blk_load k d off.
Proof.
  revert d o. induction l as [|a l IH]; intros d o H0 H1 H2; simpl; [done|]. simpl in H2.
  rewrite IH by (rewrite ?length_blk_store; lia). apply blk_load_store_other; lia.
Qed.

Lemma put_addrs_at d o l (i : nat) a :
  Forall (λ a, 0 ≤ a < 2 ^ 32) l → 0 ≤ o → o + 4 * length l ≤ length d → l !! i = Some a →
  blk_load 4 (put_addrs d o l) (o + 4 * i) = a.
Proof.
  revert d o i. induction l as [|b l IH]; intros d o i Hf Ho Hl Hi; [done|]. apply Forall_cons in Hf as [Hb Hf]. simpl in *.
  destruct i as [|i]; simpl in Hi.
  - injection Hi as ->. rewrite put_addrs_other by (rewrite ?length_blk_store; lia). rewrite Z.add_0_r.
    rewrite blk_load_store by lia. apply Z.mod_small. change (256 ^ Z.of_nat 4) with (2 ^ 32). lia.
  - replace (o + 4 * Z.of_nat (S i)) with (o + 4 + 4 * i) by lia. apply IH; [done|lia|rewrite length_blk_store; lia|done].
Qed.

Lemma put_dinode_ok d o x : blk_ok d → blk_ok (put_dinode d o x).
Proof.
  intros Hd. unfold put_dinode. cbv zeta. assert (H : ∀ l d o, blk_ok d → blk_ok (put_addrs d o l)).
  { induction l as [|a l IH]; intros d' o' Hd'; simpl; [done|]. apply IH. by apply blk_store_ok. }
  apply H. by do 5 apply blk_store_ok.
Qed.

Lemma put_dinode_other k d o x off :
  length (i_addrs x) = Z.to_nat (NDIRECT + 1) → 0 ≤ off → off + Z.of_nat k ≤ length d →
  off + Z.of_nat k ≤ o ∨ o + sizeof_dinode ≤ off → blk_load k (put_dinode d o x) off = blk_load k d off.
Proof.
  intros Hn H0 H1 H2. change (Z.to_nat (NDIRECT + 1)) with 13%nat in Hn. change sizeof_dinode with 64 in *. unfold put_dinode. cbv zeta.
  rewrite put_addrs_other by (rewrite ?length_blk_store; lia).
  by rewrite !blk_load_store_other by (rewrite ?length_blk_store; lia).
Qed.

(** What [ilock] reads after [iupdate]: the fields of [x]. *)
Lemma load_put_dinode d o x y :
  blk_ok d → inode_fits x → 0 ≤ o → o + sizeof_dinode ≤ BSIZE →
  load_inode (put_dinode d o x) o y =
    Inode (i_dev y) (i_inum y) (i_ref y) (i_lock y) (i_valid y) (i_type x) (i_major x) (i_minor x) (i_nlink x) (i_size x) (i_addrs x).
Proof.
  intros [Hl _] [] Ho Hs. change (Z.to_nat (NDIRECT + 1)) with 13%nat in *. change sizeof_dinode with 64 in *. change BSIZE with 1024 in *.
  change (Z.to_nat 1024) with 1024%nat in Hl. unfold load_inode. f_equal.
  1-5: unfold di_type, di_major, di_minor, di_nlink, di_size, put_dinode; cbv zeta;
    rewrite put_addrs_other by (rewrite ?length_blk_store; lia);
    rewrite ?(blk_load_store_other 4 2) by (rewrite ?length_blk_store; lia);
    repeat first [rewrite s16_load_store by (done || (rewrite ?length_blk_store; lia)); reflexivity
                 | rewrite blk_load_store_other by (rewrite ?length_blk_store; lia)].
  - rewrite blk_load_store by (rewrite ?length_blk_store; lia). apply Z.mod_small. change (256 ^ Z.of_nat 4) with (2 ^ 32). lia.
  - unfold di_addrs. change (NDIRECT + 1) with 13. apply list_eq. intros i. destruct (decide (i < 13)%nat) as [Hi|Hi].
    + rewrite list_lookup_fmap, lookup_seqZ_lt by lia. simpl.
      destruct (lookup_lt_is_Some_2 (i_addrs x) i) as [a Ha]; [lia|]. rewrite Ha. f_equal. unfold put_dinode. cbv zeta.
      apply put_addrs_at; [done|lia|rewrite !length_blk_store; lia|done].
    + rewrite !lookup_ge_None_2; [done|lia|]. rewrite length_fmap, length_seqZ. lia.
Qed.

Lemma dinode_off_range inum : 0 ≤ dinode_off inum ∧ dinode_off inum + sizeof_dinode ≤ BSIZE.
Proof.
  unfold dinode_off. pose proof (Z.mod_pos_bound inum IPB ltac:(done)) as Hm. change IPB with 16 in *. change sizeof_dinode with 64.
  change BSIZE with 1024. lia.
Qed.

Lemma IBLOCK_range sb inum : sb_ok sb → 0 ≤ inum < sb_ninodes sb → sb_inodestart sb ≤ IBLOCK inum sb < sb_bmapstart sb.
Proof.
  intros Hsb Hi. destruct (so_inodes _ Hsb) as [_ Hb]. unfold IBLOCK in *.
  assert (0 ≤ inum / IPB) by (apply Z.div_pos; [lia|done]).
  assert (inum / IPB ≤ (sb_ninodes sb - 1) / IPB) by (apply Z.div_le_mono; [done|lia]). lia.
Qed.

(** ** Changing an inode block leaves the files' contents alone *)
Section inode_block.
Context (sb : superblock) (V : Z → block) (x : inode) (n : Z) (d : block).
Context (Hsb : sb_ok sb) (Hok : file_ok V sb x) (Hn : sb_inodestart sb ≤ n < sb_bmapstart sb).
Let V' := <[n := d]> V.

Lemma ib_used b : 0 ≤ b < sb_size sb → used V' sb b = used V sb b.
Proof using Hsb Hn.
  intros Hb. apply used_ext. destruct (BBLOCK_range sb b Hsb Hb). apply fn_lookup_insert_ne. lia.
Qed.

Lemma ib_data k : 0 ≤ k < NSLOT → slot V x k ≠ 0 → slot V x k ≠ n.
Proof using Hsb Hok Hn. intros Hk Hz. destruct (fo_data _ _ _ Hok k Hk Hz) as [? _]. pose proof (sb_order _ Hsb). lia. Qed.

Lemma ib_slot k : slot V' x k = slot V x k.
Proof using Hsb Hok Hn.
  apply slot_ext. intros Hz. apply fn_lookup_insert_ne. apply not_eq_sym. rewrite <- (slot_indirect V). by apply ib_data.
Qed.

Lemma ib_file : file_ok V' sb x.
Proof using Hsb Hok Hn.
  split; [apply Hok|..].
  - intros k Hk. rewrite ib_slot. intros Hz. destruct (fo_data _ _ _ Hok k Hk Hz). split; [done|].
    pose proof (data_nonzero _ Hsb). rewrite ib_used by lia. done.
  - intros j k Hj Hk. rewrite !ib_slot. by apply (fo_uniq _ _ _ Hok).
Qed.

Lemma ib_byte o : 0 ≤ o < MAXFILE * BSIZE → fbyte V' x o = fbyte V x o.
Proof using Hsb Hok Hn.
  intros Ho. assert (Hbn : 0 ≤ o / BSIZE < MAXFILE) by (split; [apply Z.div_pos; [lia|done]|apply Z.div_lt_upper_bound; [done|lia]]).
  unfold fbyte, baddr. rewrite ib_slot. destruct (Z.eqb_spec (slot V x (slot_of (o / BSIZE))) 0) as [E|E]; [done|].
  unfold V'. rewrite fn_lookup_insert_ne; [done|]. apply not_eq_sym, ib_data; [by apply slot_of_range|done].
Qed.
End inode_block.

Section inode.
Context {S U : Type} `{HB : !BufCache S} `{HBok : !BufCacheOk S} `{HU : !UserCopy U} `{HUok : !UserCopyOk U}.
Implicit Types s : fstate S U.
Implicit Types H : list (Z * Z).

Definition dinode_view (sb : superblock) (x : inode) (V : Z → block) : Z → block :=
  <[IBLOCK (i_inum x) sb := put_dinode (V (IBLOCK (i_inum x) sb)) (dinode_off (i_inum x)) x]> V.

Lemma iupdate_wp s L H V ip x (Q : unit → fstate S U → Prop) :
  iready s L H V ip x → 0 ≤ i_inum x < sb_ninodes (fs_sb s) → room (fs_sb s) L H 1 0 →
  (∀ s', iready s' (logged L (IBLOCK (i_inum x) (fs_sb s))) H (dinode_view (fs_sb s) x V) ip x → fsame s s' → Q tt s') →
  wp (iupdate ip) Q s.
Proof.
  intros Hi Hnum [Hr1 Hr2] HQ. pose proof (iready_sb _ _ _ _ _ _ Hi) as Hsb. pose proof Hi as [F Hat Hdev Hok Hm Hh Hfr].
  destruct (IBLOCK_range _ _ Hsb Hnum) as [HI1 HI2]. pose proof (sb_order _ Hsb). pose proof (so_data _ Hsb).
  unfold iupdate, ird. wp_step. apply wp_gets. rewrite Hat. unfold id. wp_step. apply wp_gets. rewrite Hdev.
  set (n := IBLOCK (i_inum x) (fs_sb s)) in *. wp_step. eapply fs_bread; [done| |lia|].
  { intros Hin. apply Hh in Hin as [? _]. lia. }
  intros bp s1 F1 S1. wp_step. eapply fs_data; [done|by left|].
  eapply fs_modify; [done|rewrite (fe_sb _ _ S1); apply outside_ge; [done|lia]|apply put_dinode_ok; by eapply ftx_blk_ok
    |rewrite (fe_sb _ _ S1); lia|].
  intros s2 F2 S2. assert (S02 : fsame s s2) by (by etrans). apply HQ; [|done].
  unfold dinode_view. fold n. eapply iready_step; [done|exact F2|by apply fsame_keep|by rewrite (fsame_at _ _ _ S02)|done| | | | |].
  - by apply ib_file.
  - intros b Hb. rewrite ib_used by (done || lia). by apply Hm.
  - intros b Hb. by rewrite ib_used.
  - intros k _ _. by apply (ib_slot (fs_sb s)).
  - intros k _ Hz Hnz. by rewrite (ib_slot (fs_sb s)) in Hnz.
Qed.

(** The inode on disk agrees with [x]. *)
Definition on_disk (V : Z → block) (sb : superblock) (x : inode) : Prop :=
  load_inode (V (IBLOCK (i_inum x) sb)) (dinode_off (i_inum x)) x = x.

Lemma dinode_view_on_disk sb x V : inode_fits x → blk_ok (V (IBLOCK (i_inum x) sb)) → on_disk (dinode_view sb x V) sb x.
Proof.
  intros Hx Hd. unfold on_disk, dinode_view. rewrite fn_lookup_insert. destruct (dinode_off_range (i_inum x)).
  rewrite load_put_dinode by done. by destruct x.
Qed.

Lemma file_fits V sb x : sb_ok sb → file_ok V sb x → 0 ≤ i_size x ≤ MAXFILE * BSIZE →
  short_ok (i_type x) → short_ok (i_major x) → short_ok (i_minor x) → short_ok (i_nlink x) → inode_fits x.
Proof.
  intros Hsb Hok Hs. split; auto; [change (MAXFILE * BSIZE) with 274432 in Hs; lia|apply Hok|].
  apply Forall_lookup. intros i a Hi. pose proof (lookup_lt_Some _ _ _ Hi) as Hlt. rewrite (fo_len _ _ _ Hok) in Hlt.
  change (Z.to_nat (NDIRECT + 1)) with 13%nat in Hlt.
  assert (Ha : slot V x i = a).
  { unfold slot. change NDIRECT with 12. rewrite (proj2 (Z.leb_le i 12)) by lia. unfold iaddr. rewrite Nat2Z.id.
    by apply list_lookup_total_correct. }
  destruct (decide (a = 0)); [lia|]. destruct (fo_data _ _ _ Hok i) as [Hr _]; [change NSLOT with 269; lia|congruence|].
  rewrite Ha in Hr. pose proof (data_nonzero _ Hsb). pose proof (so_size _ Hsb). lia.
Qed.

Lemma slot_size V x z k : slot V (set_isize z x) k = slot V x k.
Proof. done. Qed.

Lemma iready_size s L H V ip x z : iready s L H V ip x → iready (put_inode ip (set_isize z x) s) L H V ip (set_isize z x).
Proof.
  intros Hi. eapply iready_step; [done|apply ftx_put, Hi|apply fkeep_put|by rewrite inode_at_put, decide_True|done| |apply Hi|done|done|].
  - destruct (ir_ok _ _ _ _ _ _ Hi). by split.
  - intros k _ E. by rewrite slot_size, E.
Qed.

(** The end of [writei]: the new size, and the inode on disk. *)
Lemma writei_end s L H V ip x off tot (Q : Z → fstate S U → Prop) :
  iready s L H V ip x → 0 ≤ i_inum x < sb_ninodes (fs_sb s) → room (fs_sb s) L H 1 0 →
  let x' := set_isize (Z.max (i_size x) off) x in
  (∀ s' L', iready s' L' H (dinode_view (fs_sb s) x' V) ip x' → fkeep ip s s' → fs_user s' = fs_user s → Q tot s') →
  wp (size ← ird i_size ip; (if off >? size then iupd ip (set_isize off) else mret tt) ;; iupdate ip ;; mret tot) Q s.
Proof.
  intros Hi Hn Hr x' HQ. unfold ird. wp_step. apply wp_gets. rewrite (ir_at _ _ _ _ _ _ Hi). wp_step.
  destruct (Z.gtb_spec off (i_size x)) as [Hg|Hg].
  - unfold iupd. apply wp_modify. rewrite (ir_at _ _ _ _ _ _ Hi).
    assert (x' = set_isize off x) as E by (unfold x'; by rewrite Z.max_r by lia).
    wp_step. eapply iupdate_wp; [by apply iready_size|done|done|]. rewrite <- E. intros s' Hi' S'. apply wp_ret.
    eapply HQ; [exact Hi'|etrans; [apply fkeep_put|by apply fsame_keep]|by rewrite (fe_user _ _ S')].
  - apply wp_ret. assert (x' = x) as E by (unfold x'; rewrite Z.max_l by lia; by destruct x).
    wp_step. eapply iupdate_wp; [done..|]. intros s' Hi' S'. apply wp_ret. rewrite <- E in Hi'. eapply HQ; [exact Hi'|by apply fsame_keep|by rewrite (fe_user _ _ S')].
Qed.

Lemma wrote_full sb V x off l V' x' :
  file_full V x → wrote sb V x off l V' x' → 0 ≤ off ≤ i_size x → off + length l ≤ MAXFILE * BSIZE →
  file_full V' (set_isize (Z.max (i_size x) (off + length l)) x').
Proof.
  intros [Hs Hf] W Ho Hmax. split; [simpl; lia|]. intros bn Hbn. simpl. intros Hlt.
  change (baddr V' x' bn ≠ 0). change BSIZE with 1024 in *. destruct (decide (bn * 1024 < i_size x)) as [Hin|Hout].
  - specialize (Hf bn Hbn Hin). unfold baddr. rewrite (wr_addr _ _ _ _ _ _ _ W); [done| |done].
    apply slot_of_range. change MAXFILE with 268 in *. lia.
  - pose proof (wr_here _ _ _ _ _ _ _ W (bn * 1024) ltac:(lia)) as Hh. change BSIZE with 1024 in Hh. by rewrite Z.div_mul in Hh.
Qed.

(** C3: [writei] writes the file.  Given a source that holds the bytes [l], it
    puts a prefix of them at [off], all of them unless the disk is full, and
    returns how many; it keeps every other byte of the file, extends the size
    to cover what it wrote, leaves no hole below the size, writes the changed
    inode to its disk block, and touches no block in use by anything but this
    file, the bitmap and the inode's block.  ([k] bounds the blocks that the
    range touches, and with that what the transaction must have room for.) *)
Theorem writei_writes_file s L H V ip x src off l (k : nat) :
  let sb := fs_sb s in
  iready s L H V ip x → file_full V x → inode_fits x → 0 ≤ i_inum x < sb_ninodes sb → src_ok (fs_user s) src l →
  0 ≤ off ≤ i_size x → off + length l ≤ MAXFILE * BSIZE → rounds_ok off (length l) (Datatypes.S k) → room sb L H (6 * k + 1) 1 →
  wp (writei ip src off (length l)) (λ r s', ∃ L' V' x' l1 l2, l = l1 ++ l2 ∧ r = length l1 ∧ (l2 ≠ [] → disk_full V' sb) ∧
    iready s' L' H V' ip x' ∧ fkeep ip s s' ∧ usame (fs_user s) (fs_user s') ∧
    file_full V' x' ∧ i_size x' = Z.max (i_size x) (off + length l1) ∧ on_disk V' sb x' ∧
    (∀ o, 0 ≤ o < MAXFILE * BSIZE →
      fbyte V' x' o = if decide (off ≤ o < off + length l1) then l1 !!! Z.to_nat (o - off) else fbyte V x o) ∧
    (∀ n, 0 ≤ n < sb_size sb → used V sb n = true → ¬ (sb_bmapstart sb ≤ n < datastart sb) → n ≠ IBLOCK (i_inum x) sb →
      (∀ k, 0 ≤ k < NSLOT → slot V x k ≠ n) → V' n = V n)) s.
Proof.
  intros sb Hi Hfull Hfit Hnum Hsrc Ho Hmax Hk [Hr1 Hr2]. pose proof (iready_sb _ _ _ _ _ _ Hi) as Hsb.
  unfold writei, ird. wp_step. apply wp_gets. rewrite (ir_at _ _ _ _ _ _ Hi). change (MAXFILE * BSIZE) with 274432 in *.
  rewrite wrap_small by lia. rewrite (gtb_false off (i_size x)), (proj2 (Z.ltb_ge (off + length l) off)), (gtb_false (off + length l) 274432) by lia.
  simpl orb. cbv iota. wp_step. eapply (writei_loop_wp _ k s L H V ip x src off (length l) 0 l); rewrite ?Z.sub_0_r; auto; [fold sb; split; lia|lia|apply rounds_init; lia|].
  intros s1 L1 V1 x1 l1 l2 Hi1 K1 U1 HL1 El W1 Hf1. rewrite Z.add_0_l. fold sb in W1, Hf1. pose proof (fk_sb _ _ _ K1) as Esb1. fold sb in Esb1.
  destruct (wr_inode _ _ _ _ _ _ _ W1) as [adr Hx1].
  assert (Hlen : length l1 + length l2 = Z.of_nat (length l)) by (rewrite El, length_app; lia).
  assert (Hsz1 : i_size x1 = i_size x) by (by rewrite Hx1). assert (Hnum1 : i_inum x1 = i_inum x) by (by rewrite Hx1).
  set (x2 := set_isize (Z.max (i_size x1) (off + length l1)) x1).
  eapply writei_end; [done|rewrite Esb1, Hnum1; done|rewrite Esb1; split; lia|]. cbv zeta. fold x2. intros s2 L2 Hi2 K2 U2.
  rewrite Esb1 in Hi2. assert (Hok1 : file_ok V1 sb x2) by (destruct (wr_ok _ _ _ _ _ _ _ W1); by split).
  pose proof (IBLOCK_range sb (i_inum x) Hsb Hnum) as HI.
  assert (Hfull2 : file_full V1 x2) by (unfold x2; rewrite Hsz1; eapply wrote_full; eauto; change (MAXFILE * BSIZE) with 274432; lia).
  exists L2, (dinode_view sb x2 V1), x2, l1, l2. unfold dinode_view at 1 3 5 6. change (i_inum x2) with (i_inum x1). rewrite Hnum1.
  split_and!; auto.
  - intros Hne n Hn. rewrite ib_used by done. by apply Hf1.
  - by etrans.
  - by rewrite U2.
  - split; [apply Hfull2|]. intros bn Hb1 Hb2. unfold baddr. rewrite (ib_slot sb) by done. by apply Hfull2.
  - unfold x2. simpl. by rewrite Hsz1.
  - apply dinode_view_on_disk; [|eapply (ftx_blk_ok s1), Hi1]. destruct Hfit. eapply (file_fits V1 sb); auto; [apply Hfull2|..]; unfold x2; by rewrite Hx1.
  - intros o Hro. rewrite (ib_byte sb) by done. change (fbyte V1 x2 o) with (fbyte V1 x1 o). by apply (wr_byte _ _ _ _ _ _ _ W1).
  - intros n Hn Hu Hb Hni Hk'. rewrite fn_lookup_insert_ne by done. by apply (wr_frame _ _ _ _ _ _ _ W1).
Qed.
End inode.
