(* ===== verification/UserVm.v ===== *)
(** * The process memory behind the file system's copies

    [copyout] and [copyin] of vm.c, with the kernel object that they copy from
    or to placed at a kernel address [obj], as an implementation of the
    interface [UserCopy] that the file system uses. *)
From S2P Require Import Prelude Kstring Kalloc Vm VmProps UvmProps CopyProps Block BufCache Log Fs FsIO.

(** Bytes [l] stored at [a]. *)
Definition put_list (m : mem) (a : Z) (l : list Z) : mem :=
  λ x, if decide (a ≤ x < a + length l) then l !!! Z.to_nat (x - a) else m x.

Section user_vm.
Variables (kend pt obj : Z).

#[global] Instance Vm_copy : UserCopy kstate := {|
  Fs.copyout va l := upd_mem (λ m, put_list m obj l) ;; Vm.copyout pt va obj (length l);
  Fs.copyin va l0 :=
    upd_mem (λ m, put_list m obj l0) ;;
    r ← Vm.copyin pt obj va (length l0);
    l ← gets (λ s, read_bytes (k_mem s) obj (length l0));
    mret (l, r)
|}.

Context (kend_pos : 0 < kend) (Hobj : 0 ≤ obj ∧ obj + BSIZE ≤ kend).
(** The page table's pages and the free pages. *)
Variables (t : tables) (fl : list Z).

Definition uvm_inv (u : kstate) : Prop := vm_ok kend u pt t fl ∧ uspace kend (k_mem u) t fl.

Lemma put_list_bytes m a l : bytes_ok m → Forall (λ c, 0 ≤ c < 256) l → bytes_ok (put_list m a l).
Proof.
  intros Hm Hl x. unfold put_list. case_decide; [|apply Hm]. rewrite Forall_lookup in Hl.
  destruct (lookup_lt_is_Some_2 l (Z.to_nat (x - a))) as [c Hc]; [lia|]. rewrite (list_lookup_total_correct _ _ _ Hc). by eapply Hl.
Qed.

(** The kernel's own memory is nobody's page. *)
Lemma obj_kbyte u x : uvm_inv u → 0 ≤ x < kend → kbyte (k_mem u) t fl x.
Proof using kend_pos.
  intros [Hok Hus] Hx. split_and!.
  - intros (y&p&Hy&Hp). destruct (vm_pages _ _ _ _ _ Hok _ _ Hy) as [[_ ?] _]. lia.
  - intros r Hr. pose proof (ok_pages _ _ _ (vm_kmem _ _ _ _ _ Hok)) as Hf. rewrite Forall_forall in Hf. destruct (Hf r Hr) as [_ ?]. lia.
  - intros va Hva. unfold user_pa in Hva. case_decide; [|done]. destruct (user_pte _) eqn:E; [|done]. injection Hva as Hva.
    destruct (us_data _ _ _ _ Hus va) as ([_ Hp]&_); auto. pose proof (Z.mod_pos_bound va PGSIZE ltac:(done)). lia.
Qed.

Lemma put_obj u l :
  uvm_inv u → Forall (λ c, 0 ≤ c < 256) l → length l ≤ BSIZE →
  let u' := set_mem (put_list (k_mem u) obj l) u in
  uvm_inv u' ∧ (∀ va, user_pa (k_mem u') t va = user_pa (k_mem u) t va) ∧ (∀ va, ubyte (k_mem u') t va = ubyte (k_mem u) t va).
Proof using kend_pos Hobj.
  intros Hi Hl Hlen. pose proof Hi as [Hok Hus].
  destruct (vm_ok_kbytes kend pt u t fl (put_list (k_mem u) obj l) Hok) as (Hok'&Hpte&Hub).
  - apply put_list_bytes; [apply Hok|done].
  - intros x. unfold put_list. case_decide; [left|by right]. apply obj_kbyte; [done|lia].
  - split; [split; [done|by eapply uspace_ext]|]. split; [|done]. intros va. simpl. by apply user_pa_ext.
Qed.

Lemma put_list_at m a l i : 0 ≤ i < length l → put_list m a l (a + i) = l !!! Z.to_nat i.
Proof. intros Hi. unfold put_list. rewrite decide_True by lia. do 2 f_equal. lia. Qed.

#[global] Program Instance Vm_copy_ok : UserCopyOk kstate := {|
  u_inv := uvm_inv;
  u_byte u a := ubyte (k_mem u) t a;
  u_can u a := is_Some (user_pa (k_mem u) t a)
|}.
Next Obligation.
  intros u va l Hi Hlen Hva Hmax Hcan Hl. simpl in *. unfold Fs.copyout, Vm_copy. wp_step. apply wp_modify.
  destruct (put_obj u l Hi Hl Hlen) as ([Hok1 Hus1]&Hpa1&Hub1). set (u1 := set_mem _ u) in *.
  destruct (copy_fuel_enough va (length l)) as [Hf Hf1]; [lia..|].
  wp_use (copyout_loop_wp kend kend_pos pt t fl (copy_fuel (length l)) u1 va obj (length l)); auto; [lia|lia| |].
  { intros i va' Hir Hx. destruct (obj_kbyte u1 (obj + i)) as (_&_&Hk); [by split|lia|]. by apply (Hk va'). }
  intros r u' (k&(Hk&_&Hr)&Hok'&Hpte'&Hub'&_).
  assert (Hpa' : ∀ a, user_pa (k_mem u') t a = user_pa (k_mem u) t a).
  { intros a. rewrite <- Hpa1. by apply user_pa_ext. }
  assert (r = 0 ∧ k = length l) as [-> ->].
  { destruct Hr as [?|(_&Hlt&Hn)]; [done|]. exfalso. rewrite Hpa1 in Hn. destruct (Hcan (va + k)) as [x Hx]; [lia|]. congruence. }
  split; [done|]. split; [split; [done|by eapply uspace_ext]|]. split; [intros a; by rewrite Hpa'|].
  intros a. rewrite Hub', Hub1. case_decide as Ha; [|done].
  unfold u1. simpl. rewrite put_list_at by lia. symmetry. apply list_lookup_lookup_total_lt. lia.
Qed.
Next Obligation.
  intros u va l0 Hi Hlen Hva Hmax Hcan Hl. simpl in *. unfold Fs.copyin, Vm_copy. wp_step. apply wp_modify.
  destruct (put_obj u l0 Hi Hl Hlen) as ([Hok1 Hus1]&Hpa1&Hub1). set (u1 := set_mem _ u) in *.
  destruct (copy_fuel_enough va (length l0)) as [Hf Hf1]; [lia..|].
  wp_step. wp_use (copyin_loop_wp kend kend_pos pt t fl (copy_fuel (length l0)) u1 obj va (length l0)); auto; [lia|lia| |].
  { intros i Hir. apply obj_kbyte; [by split|lia]. }
  intros r u' (k&(Hk&_&Hr)&Hok'&Hub'&Hby&Hout). wp_step. apply wp_gets. apply wp_ret. simpl.
  assert (r = 0 ∧ k = length l0) as [-> ->].
  { destruct Hr as [?|(_&Hlt&Hn)]; [done|]. exfalso. rewrite Hpa1 in Hn. destruct (Hcan (va + k)) as [x Hx]; [lia|].
    unfold ubyte in Hx. by rewrite Hn in Hx. }
  destruct (vm_ok_kbytes kend pt u1 t fl (k_mem u') Hok1) as (_&Hpte&_); [apply Hok'| |].
  { intros x. destruct (decide (obj ≤ x < obj + length l0)); [left; apply obj_kbyte; [by split|lia]|right; by apply Hout]. }
  assert (Hpa' : ∀ a, user_pa (k_mem u') t a = user_pa (k_mem u) t a).
  { intros a. rewrite <- Hpa1. by apply user_pa_ext. }
  split; [done|]. split; [split; [done|by eapply uspace_ext]|]. split; [intros a; by rewrite Hpa'|].
  split; [intros a; by rewrite Hub', Hub1|]. split; [apply length_read_bytes|].
  intros i Hlt. rewrite read_bytes_lookup by done. rewrite <- Hub1. symmetry. apply Hby. lia.
Qed.
End user_vm.
