(* ===== verification/FsDemo.v ===== *)
(** * A small file system on a concrete disk

    The layout is the one mkfs computes for FSSIZE blocks; file number 1 is
    the five bytes of block 46. *)
From S2P Require Import Prelude Kstring Kalloc Vm VmProps UvmProps CopyProps VmDemo.
From S2P Require Import Block Sleeplock Bio BioProps BioSpec BufCache Log LogDisk LogProps Txn LogDemo.
From S2P Require Import Fs FsBase FsBlock FsFile FsBmap FsIO FsWrite FsInode UserVm.

Module FsDemo.

#[local] Instance cache7 : BufCache bstate := Bio_cache 7.
#[local] Instance cache7_ok : BufCacheOk bstate := Bio_cache_ok 7.

(** The process of the examples has the address space of [VmDemo]: one page
    at address 0. *)
#[local] Instance ucopy : UserCopy kstate := Vm_copy VmDemo.root0 0.

Lemma obj_low : 0 ≤ 0 ∧ 0 + BSIZE ≤ VmDemo.kend0.
Proof. done. Qed.

#[local] Instance ucopy_ok : UserCopyOk kstate :=
  Vm_copy_ok VmDemo.kend0 VmDemo.root0 0 VmDemo.kend0_pos obj_low VmDemo.tables0 VmDemo.free0.

(** ** The disk *)

Definition sb0 : superblock := Superblock FSMAGIC 2000 1954 200 30 2 32 45.
Definition bitmap0 : block := blk_write zero_block 0 [255; 255; 255; 255; 255; 127].
Definition hello : list Z := [104; 101; 108; 108; 111].
Definition disk2 : disk :=
  Disk (λ n, if n =? 45 then bitmap0 else if n =? 46 then blk_write zero_block 0 hello else zero_block) [].
Definition inode1 : inode :=
  Inode ROOTDEV 1 1 (SL true false 7) true T_FILE 0 0 1 5 (46 :: replicate 12 0).

Lemma disk2_ok n : blk_ok (d_blocks disk2 n).
Proof.
  simpl. destruct (n =? 45); [|destruct (n =? 46)]; [| |apply zero_block_ok];
    apply blk_write_ok; try apply zero_block_ok; try done; repeat constructor; lia.
Qed.

Lemma sb0_ok : sb_ok sb0.
Proof. split; vm_compute; repeat split; congruence. Qed.

Lemma header2_valid : hdr_valid 2 30 (d_blocks disk2).
Proof.
  assert (E : hdr_n (d_blocks disk2 2) = 0) by (vm_compute; reflexivity).
  split; rewrite E; try done; [intros; lia|constructor].
Qed.

(** An operation has begun on it. *)
Lemma begun2 : ∃ l, tx_ok l [] [] [] ∧ lg_start l = 2 ∧ lg_size l = 30 ∧ ∀ n, home 2 30 n → tview l n = d_blocks disk2 n.
Proof.
  destruct (LogDemo.boot _ disk2_ok) as [c Hc].
  assert (Hw : wp (initlog ROOTDEV 2 30 ;; begin_op) (λ _ l, tx_ok l [] [] [] ∧ lg_start l = 2 ∧ lg_size l = 30 ∧
    ∀ n, home 2 30 n → tview l n = d_blocks disk2 n) (LogDemo.log0 c)).
  { wp_step. wp_use (initlog_wp _ _ _ _ Hc); [done|apply header2_valid|].
    intros _ s (H0&Hok&Hid&E1&E2&E3&E4&HH0&_&Hb). simpl in E3, E4.
    wp_use (begin_op_wp s []); auto; rewrite ?E3; [done..|].
    intros _ s' (Hok'&F1&F2&F3&F4&F5). rewrite F1, F2, E1, E2. split_and!; auto.
    intros n Hn. unfold tview. rewrite F5, <- (lo_clean _ _ _ Hok); [|by rewrite E1, E2|apply not_elem_of_nil..].
    rewrite Hb, (recover_ws_done 2 30) by (done || apply header2_valid). done. }
  destruct (wp_inv _ _ _ Hw) as (_&l&_&Hl). by exists l.
Qed.

(** The bitmap marks the blocks before 47. *)
Lemma used0 V b : (∀ n, home 2 30 n → V n = d_blocks disk2 n) → 0 ≤ b < 2000 → used V sb0 b = (b <? 47).
Proof.
  intros HV Hb. unfold used. assert (E : BBLOCK b sb0 = 45).
  { unfold BBLOCK. change BPB with 8192. rewrite Z.div_small by lia. done. }
  rewrite E, HV by (unfold home; lia). change BPB with 8192. rewrite Z.mod_small by lia. change (d_blocks disk2 45) with bitmap0.
  unfold bit, blk_load. simpl load_le. rewrite Z.add_0_r.
  assert (0 ≤ b / 8 < 250) by (split; [apply Z.div_pos; lia|apply Z.div_lt_upper_bound; lia]).
  pose proof (Z.mod_pos_bound b 8 ltac:(lia)). pose proof (Z.div_mod b 8 ltac:(lia)).
  unfold bitmap0. rewrite blk_mem_write by (done || (change (length zero_block) with 1024%nat; lia)). simpl length. case_decide as Hd.
  - rewrite Z.sub_0_r. assert (b / 8 = 0 ∨ b / 8 = 1 ∨ b / 8 = 2 ∨ b / 8 = 3 ∨ b / 8 = 4 ∨ b / 8 = 5) as Hq by lia.
    assert (b `mod` 8 = 0 ∨ b `mod` 8 = 1 ∨ b `mod` 8 = 2 ∨ b `mod` 8 = 3 ∨ b `mod` 8 = 4 ∨ b `mod` 8 = 5 ∨ b `mod` 8 = 6 ∨ b `mod` 8 = 7) as Hr by lia.
    destruct Hq as [Eq|[Eq|[Eq|[Eq|[Eq|Eq]]]]], Hr as [Er|[Er|[Er|[Er|[Er|[Er|[Er|Er]]]]]]];
      rewrite Eq, Er; symmetry; first [apply Z.ltb_lt; lia | apply Z.ltb_ge; lia].
  - unfold blk_mem, zero_block. rewrite lookup_total_replicate_2 by (change (Z.to_nat BSIZE) with 1024%nat; lia).
    rewrite Z.bits_0. symmetry. apply Z.ltb_ge. lia.
Qed.

(** Inode 1, locked, in slot 0 of the table. *)
Definition start2 (l : lstate bstate) : fstate bstate kstate := FState false (<[0 := inode1]> ∅) sb0 l VmDemo.state0.

Lemma slot1 V k : slot V inode1 k = if decide (k ≤ 0) then 46 else 0.
Proof.
  unfold slot, iaddr. change NDIRECT with 12. destruct (Z.leb_spec k 12) as [Hk|Hk]; [|by rewrite decide_False by lia].
  case_decide as H0; [by replace (Z.to_nat k) with 0%nat by lia|].
  replace (Z.to_nat k) with (S (Z.to_nat (k - 1))) by lia. simpl. apply (lookup_total_replicate_2 12). lia.
Qed.

Lemma ready2 : ∃ s, iready (S := bstate) (U := kstate) s [] [] (tview (fs_log s)) 0 inode1 ∧ fs_sb s = sb0 ∧
  fs_user s = VmDemo.state0 ∧ ∀ n, home 2 30 n → tview (fs_log s) n = d_blocks disk2 n.
Proof.
  destruct begun2 as (l&Hok&E1&E2&HV). exists (start2 l). split; [|done]. split; simpl.
  - split; simpl; auto; [intros h n ?%elem_of_nil; done|apply NoDup_nil_2|apply sb0_ok].
  - apply lookup_total_insert_eq.
  - done.
  - split; [done|..].
    + intros k Hk. rewrite slot1. case_decide; [|done]. intros _. rewrite (used0 _ 46 HV) by lia. done.
    + intros j k Hj Hk. rewrite !slot1. repeat case_decide; try done. lia.
  - intros b Hb. change (datastart sb0) with 46 in Hb. rewrite (used0 _ b HV) by lia. apply Z.ltb_lt. lia.
  - intros n Hn. by apply elem_of_nil in Hn.
  - intros k _ Hn. by apply elem_of_nil in Hn.
Qed.

Lemma full2 V : file_full V inode1.
Proof.
  split; [done|]. intros bn Hbn Hlt. simpl in Hlt. change BSIZE with 1024 in Hlt. assert (bn = 0) as -> by lia.
  unfold baddr. by rewrite slot1.
Qed.

Lemma balloc_correct_witness : ∃ s : fstate bstate kstate, wp (balloc ROOTDEV) (λ r _, 46 ≤ r < 2000) s.
Proof.
  destruct ready2 as (s&Hi&Esb&_&HV). exists s.
  eapply wp_mono; [apply (balloc_correct s [] [] _ (ir_tx _ _ _ _ _ _ Hi) (ir_meta _ _ _ _ _ _ Hi) (ir_held _ _ _ _ _ _ Hi))|].
  - rewrite Esb. done.
  - cbv beta. intros r s' (L'&V'&_&_&Hr). rewrite Esb in Hr. case_decide; [|apply Hr].
    destruct Hr as [_ Hr]. specialize (Hr 47 ltac:(done)). by rewrite (used0 _ 47 HV) in Hr by lia.
Defined.

Lemma bfree_correct_witness : ∃ s : fstate bstate kstate, wp (bfree ROOTDEV 46) (λ _ s', ∃ V', ∀ n, n ≠ 45 → V' n = tview (fs_log s) n) s.
Proof.
  destruct ready2 as (s&Hi&Esb&_&HV). exists s.
  pose proof (bfree_correct s [] [] _ 46 (ir_tx _ _ _ _ _ _ Hi) (ir_held _ _ _ _ _ _ Hi)) as Hw. rewrite Esb in Hw.
  specialize (Hw ltac:(done) ltac:(done)). cbv zeta in Hw. rewrite (used0 _ 46 HV) in Hw by lia.
  eapply wp_mono; [exact Hw|]. cbv beta. intros _ s' (L'&V'&_&_&Hr&_). exists V'. intros n Hn. by apply Hr.
Defined.

Lemma user_page a : 0 ≤ a < 4096 → is_Some (user_pa VmDemo.mem0 VmDemo.tables0 a).
Proof.
  intros Ha. unfold user_pa. assert (0 ≤ a < MAXVA) by (change MAXVA with 274877906944; lia).
  rewrite decide_True by done. rewrite VmDemo.pte0 by done. rewrite decide_True by lia. by vm_compute user_pte.
Qed.

(** The process reads four bytes of the file to its address 100. *)
Lemma readi_reads_file_witness : ∃ s : fstate bstate kstate,
  wp (readi 0 (UserBuf 100) 1 10) (λ r s', r = (4, UserBuf 104) ∧ ubyte (k_mem (fs_user s')) VmDemo.tables0 100 = Some 101) s.
Proof.
  destruct ready2 as (s&Hi&Esb&Eu&HV). exists s.
  eapply wp_mono; [apply (readi_reads_file s [] [] _ 0 inode1 (UserBuf 100) 1 10 Hi (full2 _)); try done|].
  - rewrite Eu. split; [split; [apply VmDemo.state0_ok|apply VmDemo.uspace0]|]. split; [done|]. split; [done|].
    intros a Ha. apply user_page. change (100 ≤ a < 104) in Ha. lia.
  - cbv beta. intros [r dst] s' (Hr&(Hd&_&_&Hb)&_). simpl in Hr. split; [cbn [snd] in Hd; by rewrite Hr, Hd|].
    assert (HV46 : tview (fs_log s) 46 = blk_write zero_block 0 hello) by (rewrite HV; [done|unfold home; lia]).
    specialize (Hb 100). change (ubyte (k_mem (fs_user s')) VmDemo.tables0 100 = Some 101).
    rewrite decide_True in Hb by (rewrite length_fbytes; split; [lia|done]). refine (eq_trans Hb _).
    unfold fbytes. change (Z.to_nat (100 - 100)) with 0%nat. change (seqZ 1 (Z.min 10 (5 - 1))) with [1; 2; 3; 4]. simpl.
    unfold fbyte. change (1 / BSIZE) with 0. unfold baddr. rewrite slot1. simpl. rewrite HV46. reflexivity.
Defined.

Lemma writei_writes_file_witness : ∃ s : fstate bstate kstate,
  wp (writei 0 (KernBuf [33]) 5 1) (λ r s', i_size (inode_at 0 s') = Z.max 5 (5 + r)) s.
Proof.
  destruct ready2 as (s&Hi&Esb&_&HV). exists s.
  eapply wp_mono; [apply (writei_writes_file s [] [] _ 0 inode1 (KernBuf [33]) 5 [33] 1 Hi (full2 _)); rewrite ?Esb; try done|].
  - split; try done. by repeat constructor.
  - split; [by repeat constructor|done].
  - split; [lia|done].
  - cbv beta. intros r s' (L'&V'&x'&l1&l2&_&->&_&Hi'&_&_&_&Hsz&_). rewrite (ir_at _ _ _ _ _ _ Hi'). exact Hsz.
Defined.
End FsDemo.
