(* ===== verification/Proc.v ===== *)
(** * kernel/proc.c: processes and scheduling

    The process table, the locks of proc.c, the hart that runs the code and
    the memory below it.  A [struct proc *] is the index in [proc[]], null is
    [None].  The kernel hands out pointers to [p->name] and [p->xstate], so these
    two live in kernel memory at their offsets in [struct proc]; the other
    fields are a record.

    A function that calls [sched] ends in the outcome [Sleep]: the state is
    the one the scheduler finds after [swtch].  What the process does when the
    scheduler switches back is the function's [_resume] part.  The local
    [intena] of [sched], which waits on the process's kernel stack, is the
    field [p_intena]. *)
From S2P Require Import Prelude Kstring Kalloc Vm.

Definition NPROC : Z := 64.
Definition NOFILE : Z := 16.
Definition KSTACK (p : Z) : Z := TRAMPOLINE - (p + 1) * 2 * PGSIZE.

(** ** kernel/proc.h *)
Inductive procstate := UNUSED | USED | SLEEPING | RUNNABLE | RUNNING | ZOMBIE.
#[global] Instance procstate_eq_dec : EqDecision procstate.
Proof. solve_decision. Defined.

Record context := Context { ctx_ra : Z; ctx_sp : Z; ctx_s : list Z (* s0..s11 *) }.

Record proc := Proc {
  p_state : procstate; p_chan : Z; p_killed : Z; p_pid : Z;
  p_parent : option Z;
  p_kstack : Z; p_sz : Z; p_pagetable : Z; p_trapframe : Z;
  p_context : context; p_intena : bool;
  p_ofile : list Z;        (* 0 is the null pointer *)
  p_cwd : option Z
}.

Definition set_state x p := Proc x (p_chan p) (p_killed p) (p_pid p) (p_parent p) (p_kstack p) (p_sz p) (p_pagetable p) (p_trapframe p) (p_context p) (p_intena p) (p_ofile p) (p_cwd p).
Definition set_chan x p := Proc (p_state p) x (p_killed p) (p_pid p) (p_parent p) (p_kstack p) (p_sz p) (p_pagetable p) (p_trapframe p) (p_context p) (p_intena p) (p_ofile p) (p_cwd p).
Definition set_killed x p := Proc (p_state p) (p_chan p) x (p_pid p) (p_parent p) (p_kstack p) (p_sz p) (p_pagetable p) (p_trapframe p) (p_context p) (p_intena p) (p_ofile p) (p_cwd p).
Definition set_pid x p := Proc (p_state p) (p_chan p) (p_killed p) x (p_parent p) (p_kstack p) (p_sz p) (p_pagetable p) (p_trapframe p) (p_context p) (p_intena p) (p_ofile p) (p_cwd p).
Definition set_parent x p := Proc (p_state p) (p_chan p) (p_killed p) (p_pid p) x (p_kstack p) (p_sz p) (p_pagetable p) (p_trapframe p) (p_context p) (p_intena p) (p_ofile p) (p_cwd p).
Definition set_kstack x p := Proc (p_state p) (p_chan p) (p_killed p) (p_pid p) (p_parent p) x (p_sz p) (p_pagetable p) (p_trapframe p) (p_context p) (p_intena p) (p_ofile p) (p_cwd p).
Definition set_sz x p := Proc (p_state p) (p_chan p) (p_killed p) (p_pid p) (p_parent p) (p_kstack p) x (p_pagetable p) (p_trapframe p) (p_context p) (p_intena p) (p_ofile p) (p_cwd p).
Definition set_pagetable x p := Proc (p_state p) (p_chan p) (p_killed p) (p_pid p) (p_parent p) (p_kstack p) (p_sz p) x (p_trapframe p) (p_context p) (p_intena p) (p_ofile p) (p_cwd p).
Definition set_trapframe x p := Proc (p_state p) (p_chan p) (p_killed p) (p_pid p) (p_parent p) (p_kstack p) (p_sz p) (p_pagetable p) x (p_context p) (p_intena p) (p_ofile p) (p_cwd p).
Definition set_context x p := Proc (p_state p) (p_chan p) (p_killed p) (p_pid p) (p_parent p) (p_kstack p) (p_sz p) (p_pagetable p) (p_trapframe p) x (p_intena p) (p_ofile p) (p_cwd p).
Definition set_intena x p := Proc (p_state p) (p_chan p) (p_killed p) (p_pid p) (p_parent p) (p_kstack p) (p_sz p) (p_pagetable p) (p_trapframe p) (p_context p) x (p_ofile p) (p_cwd p).
Definition set_ofile (fd f : Z) p := Proc (p_state p) (p_chan p) (p_killed p) (p_pid p) (p_parent p) (p_kstack p) (p_sz p) (p_pagetable p) (p_trapframe p) (p_context p) (p_intena p) (<[Z.to_nat fd := f]> (p_ofile p)) (p_cwd p).
Definition set_cwd x p := Proc (p_state p) (p_chan p) (p_killed p) (p_pid p) (p_parent p) (p_kstack p) (p_sz p) (p_pagetable p) (p_trapframe p) (p_context p) (p_intena p) (p_ofile p) x.
Definition ofile (fd : Z) (p : proc) : Z := p_ofile p !!! Z.to_nat fd.

(** The [struct cpu] of the hart, with its interrupt enable bit. *)
Record cpu := Cpu { c_proc : option Z; c_noff : Z; c_intena : bool; c_intr : bool }.

(** The locks this code takes: those of proc.c, and the ones callers pass to
    [sleep], by address. *)
Inductive lockid := PID_LOCK | WAIT_LOCK | PROC_LOCK (p : Z) | OTHER_LOCK (a : Z).
#[global] Instance lockid_eq_dec : EqDecision lockid.
Proof. solve_decision. Defined.

Record pstate := PState {
  ps_proc : Z → proc;
  ps_nextpid : Z;
  ps_held : list lockid;       (* the locks this hart holds *)
  ps_initproc : option Z;
  ps_cpu : cpu;
  ps_k : kstate;               (* memory and the page allocator *)
  ps_first : bool              (* the static [first] of forkret *)
}.

Definition put_procs f s := PState f (ps_nextpid s) (ps_held s) (ps_initproc s) (ps_cpu s) (ps_k s) (ps_first s).
Definition set_nextpid n s := PState (ps_proc s) n (ps_held s) (ps_initproc s) (ps_cpu s) (ps_k s) (ps_first s).
Definition set_held l s := PState (ps_proc s) (ps_nextpid s) l (ps_initproc s) (ps_cpu s) (ps_k s) (ps_first s).
Definition set_initproc i s := PState (ps_proc s) (ps_nextpid s) (ps_held s) i (ps_cpu s) (ps_k s) (ps_first s).
Definition set_cpu c s := PState (ps_proc s) (ps_nextpid s) (ps_held s) (ps_initproc s) c (ps_k s) (ps_first s).
Definition set_k k s := PState (ps_proc s) (ps_nextpid s) (ps_held s) (ps_initproc s) (ps_cpu s) k (ps_first s).

Definition set_first b s := PState (ps_proc s) (ps_nextpid s) (ps_held s) (ps_initproc s) (ps_cpu s) (ps_k s) b.

Definition upd_proc (p : Z) (f : proc → proc) : M pstate unit :=
  modify (λ s, put_procs (<[p := f (ps_proc s p)]> (ps_proc s)) s).
Definition field {A} (f : proc → A) (p : Z) : M pstate A := gets (λ s, f (ps_proc s p)).
Definition upd_cpu (f : cpu → cpu) : M pstate unit := modify (λ s, set_cpu (f (ps_cpu s)) s).
(** A function of kalloc.c, vm.c or string.c. *)
Definition kern {A} (m : M kstate A) : M pstate A := zoom ps_k set_k m.

Definition put_noff n c := Cpu (c_proc c) n (c_intena c) (c_intr c).
Definition put_intena b c := Cpu (c_proc c) (c_noff c) b (c_intr c).
Definition put_intr b c := Cpu (c_proc c) (c_noff c) (c_intena c) b.
Definition put_cproc p c := Cpu p (c_noff c) (c_intena c) (c_intr c).

(** ** Locks, on this hart (spinlock.c) *)
Definition intr_off : M pstate unit := upd_cpu (put_intr false).
Definition intr_on : M pstate unit := upd_cpu (put_intr true).
Definition intr_get : M pstate bool := gets (λ s, c_intr (ps_cpu s)).

Definition push_off : M pstate unit :=
  old ← intr_get;
  intr_off ;;
  upd_cpu (λ c, if c_noff c =? 0 then put_intena old c else c) ;;
  upd_cpu (λ c, put_noff (c_noff c + 1) c).

Definition pop_off : M pstate unit :=
  i ← intr_get;
  if (i : bool) then panic "pop_off - interruptible"
  else
    c ← gets ps_cpu;
    if c_noff c <? 1 then panic "pop_off"
    else
      upd_cpu (λ c, put_noff (c_noff c - 1) c) ;;
      c ← gets ps_cpu;
      if (c_noff c =? 0) && c_intena c then intr_on else mret tt.

Definition holding (l : lockid) : M pstate bool := gets (λ s, bool_decide (l ∈ ps_held s)).

Definition acquire (l : lockid) : M pstate unit :=
  push_off ;;
  h ← holding l;
  if (h : bool) then panic "acquire" else modify (λ s, set_held (l :: ps_held s) s).

Definition release (l : lockid) : M pstate unit :=
  h ← holding l;
  if negb h then panic "release"
  else modify (λ s, set_held (list_difference (ps_held s) [l]) s) ;; pop_off.

(** ** proc.c *)
Section proc.
(** Link-time addresses: the end of the kernel, the trampoline page, [proc[]],
    [forkret], the array [initcode] and the string of the same name. *)
Variables (kend trampoline proc_base forkret_addr initcode initcode_name : Z).

Definition sizeof_proc : Z := 360.
Definition proc_addr (p : Z) : Z := proc_base + p * sizeof_proc.
Definition xstate_addr (p : Z) : Z := proc_addr p + 44.
Definition name_addr (p : Z) : Z := proc_addr p + 344.
Definition procs : list Z := seqZ 0 NPROC.

(** Offsets in [struct trapframe], and its size. *)
Definition TF_epc : Z := 24.
Definition TF_sp : Z := 48.
Definition TF_a0 : Z := 112.
Definition TF_a1 : Z := 120.
Definition TF_a7 : Z := 168.
Definition sizeof_trapframe : Z := 288.

Fixpoint mapstacks_loop (kpgtbl : Z) (l : list Z) : M kstate unit :=
  match l with
  | [] => mret tt
  | p :: l =>
      pa ← kalloc;
      if pa =? 0 then panic "kalloc"
      else kvmmap kpgtbl (KSTACK p) pa PGSIZE (Z.lor PTE_R PTE_W) ;; mapstacks_loop kpgtbl l
  end.
Definition proc_mapstacks (kpgtbl : Z) : M kstate unit := mapstacks_loop kpgtbl procs.

Fixpoint procinit_loop (l : list Z) : M pstate unit :=
  match l with
  | [] => mret tt
  | p :: l => upd_proc p (λ x, set_kstack (KSTACK p) (set_state UNUSED x)) ;; procinit_loop l
  end.
(** [initlock] leaves every lock free. *)
Definition procinit : M pstate unit := modify (set_held []) ;; procinit_loop procs.

Definition myproc : M pstate (option Z) :=
  push_off ;; p ← gets (λ s, c_proc (ps_cpu s)); pop_off ;; mret p.

(** [myproc()] where the code uses the process at once; a null pointer faults
    in the kernel. *)
Definition curproc : M pstate Z :=
  p ← myproc; match p with Some p => mret p | None => panic "kerneltrap" end.

Definition allocpid : M pstate Z :=
  acquire PID_LOCK ;;
  pid ← gets ps_nextpid;
  modify (λ s, set_nextpid (s32 (ps_nextpid s + 1)) s) ;;
  release PID_LOCK ;;
  mret pid.

Definition proc_pagetable (p : Z) : M pstate Z :=
  pagetable ← kern uvmcreate;
  if pagetable =? 0 then mret 0
  else
    r ← kern (mappages pagetable TRAMPOLINE PGSIZE trampoline (Z.lor PTE_R PTE_X));
    if r <? 0 then kern (uvmfree kend pagetable 0) ;; mret 0
    else
      tf ← field p_trapframe p;
      r ← kern (mappages pagetable TRAPFRAME PGSIZE tf (Z.lor PTE_R PTE_W));
      if r <? 0 then
        kern (uvmunmap kend pagetable TRAMPOLINE 1 false) ;;
        kern (uvmfree kend pagetable 0) ;; mret 0
      else mret pagetable.

Definition proc_freepagetable (pagetable sz : Z) : M pstate unit :=
  kern (uvmunmap kend pagetable TRAMPOLINE 1 false) ;;
  kern (uvmunmap kend pagetable TRAPFRAME 1 false) ;;
  kern (uvmfree kend pagetable sz).

Definition freeproc (p : Z) : M pstate unit :=
  tf ← field p_trapframe p;
  (if tf =? 0 then mret tt else kern (kfree kend tf)) ;;
  upd_proc p (set_trapframe 0) ;;
  pt ← field p_pagetable p;
  sz ← field p_sz p;
  (if pt =? 0 then mret tt else proc_freepagetable pt sz) ;;
  upd_proc p (set_pagetable 0) ;;
  upd_proc p (set_sz 0) ;;
  upd_proc p (set_pid 0) ;;
  upd_proc p (set_parent None) ;;
  kern (upd_mem (λ m, store8 m (name_addr p) 0)) ;;
  upd_proc p (set_chan 0) ;;
  upd_proc p (set_killed 0) ;;
  kern (upd_mem (λ m, store32 m (xstate_addr p) 0)) ;;
  upd_proc p (set_state UNUSED).

(** The search of [allocproc]: the first unused slot, with its lock held. *)
Fixpoint find_unused (l : list Z) : M pstate (option Z) :=
  match l with
  | [] => mret None
  | p :: l =>
      acquire (PROC_LOCK p) ;;
      st ← field p_state p;
      if bool_decide (st = UNUSED) then mret (Some p)
      else release (PROC_LOCK p) ;; find_unused l
  end.

Definition allocproc : M pstate (option Z) :=
  f ← find_unused procs;
  match f with
  | None => mret None
  | Some p =>
      pid ← allocpid;
      upd_proc p (set_pid pid) ;;
      upd_proc p (set_state USED) ;;
      tf ← kern kalloc;
      upd_proc p (set_trapframe tf) ;;
      if tf =? 0 then freeproc p ;; release (PROC_LOCK p) ;; mret None
      else
        pt ← proc_pagetable p;
        upd_proc p (set_pagetable pt) ;;
        if pt =? 0 then freeproc p ;; release (PROC_LOCK p) ;; mret None
        else
          ks ← field p_kstack p;
          upd_proc p (set_context (Context forkret_addr (u64 (ks + PGSIZE)) (replicate 12 0))) ;;
          mret (Some p)
  end.

Definition growproc (n : Z) : M pstate Z :=
  p ← curproc;
  sz ← field p_sz p;
  pt ← field p_pagetable p;
  if n >? 0 then
    sz ← kern (uvmalloc kend pt sz (u64 (sz + n)) PTE_W);
    if sz =? 0 then mret (-1) else upd_proc p (set_sz sz) ;; mret 0
  else if n <? 0 then
    sz ← kern (uvmdealloc kend pt sz (u64 (sz + n)));
    upd_proc p (set_sz sz) ;; mret 0
  else upd_proc p (set_sz sz) ;; mret 0.

(** ** Sleeping and waking *)

Definition sched {A} : M pstate A :=
  p ← curproc;
  h ← holding (PROC_LOCK p);
  if negb h then panic "sched p->lock"
  else
    n ← gets (λ s, c_noff (ps_cpu s));
    if negb (n =? 1) then panic "sched locks"
    else
      st ← field p_state p;
      if bool_decide (st = RUNNING) then panic "sched running"
      else
        i ← intr_get;
        if (i : bool) then panic "sched interruptible"
        else
          intena ← gets (λ s, c_intena (ps_cpu s));
          upd_proc p (set_intena intena) ;;
          chan ← field p_chan p;
          sleep_on chan.

(** After [swtch] returned in process [p]. *)
Definition sched_resume (p : Z) : M pstate unit :=
  intena ← field p_intena p; upd_cpu (put_intena intena).

Definition yield {A} : M pstate A :=
  p ← curproc;
  acquire (PROC_LOCK p) ;;
  upd_proc p (set_state RUNNABLE) ;;
  sched.
Definition yield_resume (p : Z) : M pstate unit := sched_resume p ;; release (PROC_LOCK p).

Definition sleep {A} (chan : Z) (lk : lockid) : M pstate A :=
  p ← curproc;
  acquire (PROC_LOCK p) ;;
  release lk ;;
  upd_proc p (set_chan chan) ;;
  upd_proc p (set_state SLEEPING) ;;
  sched.
Definition sleep_resume (p : Z) (lk : lockid) : M pstate unit :=
  sched_resume p ;;
  upd_proc p (set_chan 0) ;;
  release (PROC_LOCK p) ;;
  acquire lk.

Fixpoint wakeup_loop (chan : Z) (l : list Z) : M pstate unit :=
  match l with
  | [] => mret tt
  | p :: l =>
      me ← myproc;
      (if bool_decide (Some p = me) then mret tt
       else
         acquire (PROC_LOCK p) ;;
         x ← gets (λ s, ps_proc s p);
         (if bool_decide (p_state x = SLEEPING) && (p_chan x =? chan)
          then upd_proc p (set_state RUNNABLE) else mret tt) ;;
         release (PROC_LOCK p)) ;;
      wakeup_loop chan l
  end.
Definition wakeup (chan : Z) : M pstate unit := wakeup_loop chan procs.

Fixpoint kill_loop (pid : Z) (l : list Z) : M pstate Z :=
  match l with
  | [] => mret (-1)
  | p :: l =>
      acquire (PROC_LOCK p) ;;
      x ← gets (λ s, ps_proc s p);
      if p_pid x =? pid then
        upd_proc p (set_killed 1) ;;
        (if bool_decide (p_state x = SLEEPING) then upd_proc p (set_state RUNNABLE) else mret tt) ;;
        release (PROC_LOCK p) ;;
        mret 0
      else release (PROC_LOCK p) ;; kill_loop pid l
  end.
Definition kill (pid : Z) : M pstate Z := kill_loop pid procs.

Definition setkilled (p : Z) : M pstate unit :=
  acquire (PROC_LOCK p) ;; upd_proc p (set_killed 1) ;; release (PROC_LOCK p).

Definition killed (p : Z) : M pstate Z :=
  acquire (PROC_LOCK p) ;; k ← field p_killed p; release (PROC_LOCK p) ;; mret k.

(** [pp->parent == p] *)
Definition is_child (p : Z) (x : proc) : bool := bool_decide (p_parent x = Some p).

Fixpoint reparent_loop (p : Z) (l : list Z) : M pstate unit :=
  match l with
  | [] => mret tt
  | pp :: l =>
      x ← gets (λ s, ps_proc s pp);
      (if is_child p x then
         init ← gets ps_initproc;
         upd_proc pp (set_parent init) ;;
         wakeup (match init with Some i => proc_addr i | None => 0 end)
       else mret tt) ;;
      reparent_loop p l
  end.
Definition reparent (p : Z) : M pstate unit := reparent_loop p procs.

(** The scan of [wait]: the value it returns with, or else whether there are
    children. *)
Fixpoint wait_scan (p addr : Z) (l : list Z) (havekids : bool) : M pstate (Z + bool) :=
  match l with
  | [] => mret (inr havekids)
  | pp :: l =>
      x ← gets (λ s, ps_proc s pp);
      if is_child p x then
        acquire (PROC_LOCK pp) ;;
        x ← gets (λ s, ps_proc s pp);
        if bool_decide (p_state x = ZOMBIE) then
          let pid := p_pid x in
          pt ← field p_pagetable p;
          r ← (if addr =? 0 then mret 0 else kern (copyout pt addr (xstate_addr pp) 4));
          if negb (addr =? 0) && (r <? 0) then
            release (PROC_LOCK pp) ;; release WAIT_LOCK ;; mret (inl (-1))
          else
            freeproc pp ;; release (PROC_LOCK pp) ;; release WAIT_LOCK ;; mret (inl pid)
        else release (PROC_LOCK pp) ;; wait_scan p addr l true
      else wait_scan p addr l havekids
  end.

(** One turn of the loop of [wait], with [wait_lock] held. *)
Definition wait_turn (p addr : Z) : M pstate Z :=
  r ← wait_scan p addr procs false;
  match r with
  | inl v => mret v
  | inr havekids =>
      k ← (if havekids then killed p else mret 1);
      if negb havekids || negb (k =? 0) then release WAIT_LOCK ;; mret (-1)
      else sleep (proc_addr p) WAIT_LOCK
  end.
Definition wait (addr : Z) : M pstate Z :=
  p ← curproc; acquire WAIT_LOCK ;; wait_turn p addr.
(** The loop goes round when [sleep] returns. *)
Definition wait_resume (p addr : Z) : M pstate Z := sleep_resume p WAIT_LOCK ;; wait_turn p addr.

(** ** The scheduler

    [turn p] is what process [p] does from the moment the scheduler switches
    to it until its next [sched]. *)
Section scheduler.
Variable turn : Z → M pstate Empty_set.

(** [swtch(&c->context, &p->context)]: control comes back when the process
    calls [sched]. *)
Definition swtch_to (p : Z) : M pstate unit := λ s,
  match turn p s with
  | Ok a _ => match a with end
  | Sleep _ s' => Ok tt s'
  | Panic e => Panic e
  | NoFuel => NoFuel
  end.

(** The body of the loop up to [swtch], which it reaches when the process is
    runnable, and after it. *)
Definition sched_enter (p : Z) : M pstate bool :=
  acquire (PROC_LOCK p) ;;
  st ← field p_state p;
  if bool_decide (st = RUNNABLE) then
    upd_proc p (set_state RUNNING) ;;
    upd_cpu (put_cproc (Some p)) ;;
    mret true
  else mret false.
Definition sched_leave (p : Z) : M pstate unit :=
  upd_cpu (put_cproc None) ;;
  release (PROC_LOCK p).

Definition scheduler_visit (p : Z) : M pstate unit :=
  b ← sched_enter p;
  if (b : bool) then swtch_to p ;; sched_leave p else release (PROC_LOCK p).

Fixpoint scheduler_pass (l : list Z) : M pstate unit :=
  match l with
  | [] => mret tt
  | p :: l => scheduler_visit p ;; scheduler_pass l
  end.

(** [rounds] turns of the endless loop. *)
Fixpoint scheduler_loop (rounds : nat) : M pstate unit :=
  match rounds with
  | O => mret tt
  | S n => intr_on ;; scheduler_pass procs ;; scheduler_loop n
  end.
Definition scheduler (rounds : nat) : M pstate unit :=
  upd_cpu (put_cproc None) ;; scheduler_loop rounds.
End scheduler.

(** ** Creation and exit, over the file layer *)

(** What proc.c calls of file.c, fs.c and log.c, on a state that contains the
    process table. *)
Class FileOps (T : Type) := {
  t_procs : T → pstate;
  t_set_procs : pstate → T → T;
  filedup : Z → M T Z;
  fileclose : Z → M T unit;
  idup : Z → M T Z;
  iput : Z → M T unit;
  begin_op : M T unit;
  end_op : M T unit;
  namei : list Z → M T (option Z)
}.

Section files.
Context {T : Type} `{!FileOps T}.

Definition prc {A} (m : M pstate A) : M T A := zoom t_procs t_set_procs m.

(** The loop of [fork] over the descriptors. *)
Fixpoint dup_files (p np fd : Z) (k : nat) : M T unit :=
  match k with
  | O => mret tt
  | S k =>
      f ← prc (field (ofile fd) p);
      (if f =? 0 then mret tt else f' ← filedup f; prc (upd_proc np (set_ofile fd f'))) ;;
      dup_files p np (fd + 1) k
  end.

Definition fork : M T Z :=
  p ← prc curproc;
  n ← prc allocproc;
  match n with
  | None => mret (-1)
  | Some np =>
      x ← prc (gets (λ s, ps_proc s p));
      npt ← prc (field p_pagetable np);
      r ← prc (kern (uvmcopy kend (p_pagetable x) npt (p_sz x)));
      if r <? 0 then prc (freeproc np) ;; prc (release (PROC_LOCK np)) ;; mret (-1)
      else
        prc (upd_proc np (set_sz (p_sz x))) ;;
        ntf ← prc (field p_trapframe np);
        prc (kern (upd_mem (λ m, memmove m ntf (p_trapframe x) sizeof_trapframe))) ;;
        prc (kern (upd_mem (λ m, store64 m (ntf + TF_a0) 0))) ;;
        dup_files p np 0 (Z.to_nat NOFILE) ;;
        cwd ← prc (field p_cwd p);
        cwd ← (match cwd with Some c => c' ← idup c; mret (Some c') | None => panic "kerneltrap" end);
        prc (upd_proc np (set_cwd cwd)) ;;
        prc (kern (upd_mem (λ m, safestrcpy m (name_addr np) (name_addr p) 16))) ;;
        pid ← prc (field p_pid np);
        prc (release (PROC_LOCK np)) ;;
        prc (acquire WAIT_LOCK) ;;
        prc (upd_proc np (set_parent (Some p))) ;;
        prc (release WAIT_LOCK) ;;
        prc (acquire (PROC_LOCK np)) ;;
        prc (upd_proc np (set_state RUNNABLE)) ;;
        prc (release (PROC_LOCK np)) ;;
        mret pid
  end.

(** The loop of [exit] over the descriptors. *)
Fixpoint close_files (p fd : Z) (k : nat) : M T unit :=
  match k with
  | O => mret tt
  | S k =>
      f ← prc (field (ofile fd) p);
      (if f =? 0 then mret tt else fileclose f ;; prc (upd_proc p (set_ofile fd 0))) ;;
      close_files p (fd + 1) k
  end.

Definition exit {A} (status : Z) : M T A :=
  p ← prc curproc;
  init ← prc (gets ps_initproc);
  if bool_decide (Some p = init) then panic "init exiting"
  else
    close_files p 0 (Z.to_nat NOFILE) ;;
    begin_op ;;
    cwd ← prc (field p_cwd p);
    (match cwd with Some c => iput c | None => panic "kerneltrap" end) ;;
    end_op ;;
    prc (upd_proc p (set_cwd None)) ;;
    prc (acquire WAIT_LOCK) ;;
    prc (reparent p) ;;
    parent ← prc (field p_parent p);
    prc (wakeup (match parent with Some q => proc_addr q | None => 0 end)) ;;
    prc (acquire (PROC_LOCK p)) ;;
    prc (kern (upd_mem (λ m, store32 m (xstate_addr p) status))) ;;
    prc (upd_proc p (set_state ZOMBIE)) ;;
    prc (release WAIT_LOCK) ;;
    prc sched.

(** The bytes of [initcode[]]. *)
Definition initcode_bytes : list Z := [
  0x17; 0x05; 0x00; 0x00; 0x13; 0x05; 0x45; 0x02;
  0x97; 0x05; 0x00; 0x00; 0x93; 0x85; 0x35; 0x02;
  0x93; 0x08; 0x70; 0x00; 0x73; 0x00; 0x00; 0x00;
  0x93; 0x08; 0x20; 0x00; 0x73; 0x00; 0x00; 0x00;
  0xef; 0xf0; 0x9f; 0xff; 0x2f; 0x69; 0x6e; 0x69;
  0x74; 0x00; 0x00; 0x24; 0x00; 0x00; 0x00; 0x00;
  0x00; 0x00; 0x00; 0x00].

Definition userinit : M T unit :=
  n ← prc allocproc;
  prc (modify (set_initproc n)) ;;
  match n with
  | None => panic "kerneltrap"
  | Some p =>
      pt ← prc (field p_pagetable p);
      prc (kern (uvmfirst pt initcode (length initcode_bytes))) ;;
      prc (upd_proc p (set_sz PGSIZE)) ;;
      tf ← prc (field p_trapframe p);
      prc (kern (upd_mem (λ m, store64 m (tf + TF_epc) 0))) ;;
      prc (kern (upd_mem (λ m, store64 m (tf + TF_sp) PGSIZE))) ;;
      prc (kern (upd_mem (λ m, safestrcpy m (name_addr p) initcode_name 16))) ;;
      cwd ← namei [47];
      prc (upd_proc p (set_cwd cwd)) ;;
      prc (upd_proc p (set_state RUNNABLE)) ;;
      prc (release (PROC_LOCK p))
  end.
End files.
End proc.
