(* ===== verification/ProcProps.v ===== *)
(** * Locks, sleeping and waking in the process table

    Specifications of the functions of proc.c.  [frame] says what the lock
    operations leave alone; each function's lemma says what it does to the
    table. *)
From S2P Require Import Prelude Kstring Kalloc Vm Proc.

Create HintDb proc.

(** [wp_step] and [wlp_step], through the accessors of the table. *)
Ltac p_step := unfold upd_proc, field, upd_cpu, holding, intr_get; first [wp_step | wlp_step].

(** The nesting counter counts the locks the hart holds, with interrupts off. *)
Definition cpu_ok (s : pstate) : Prop :=
  c_noff (ps_cpu s) = length (ps_held s) ∧ (ps_held s ≠ [] → c_intr (ps_cpu s) = false) ∧ NoDup (ps_held s).

Record frame (s : pstate) (L : list lockid) (s' : pstate) : Prop := {
  fr_init : ps_initproc s' = ps_initproc s;
  fr_first : ps_first s' = ps_first s;
  fr_cur : c_proc (ps_cpu s') = c_proc (ps_cpu s);
  fr_held : ps_held s' = L;
  fr_cpu : cpu_ok s'
}.
(** Only the hart's lock bookkeeping differs. *)
Record locks (s : pstate) (L : list lockid) (s' : pstate) : Prop := {
  lo_frame : frame s L s';
  lo_proc : ps_proc s' = ps_proc s;
  lo_next : ps_nextpid s' = ps_nextpid s;
  lo_k : ps_k s' = ps_k s
}.

Lemma frame_trans s1 L1 s2 L2 s3 : frame s1 L1 s2 → frame s2 L2 s3 → frame s1 L2 s3.
Proof. intros [] []. split; congruence || done. Qed.
Lemma frame_refl s : cpu_ok s → frame s (ps_held s) s.
Proof. by split. Qed.
Lemma locks_trans s1 L1 s2 L2 s3 : locks s1 L1 s2 → locks s2 L2 s3 → locks s1 L2 s3.
Proof. intros [F1 ? ? ?] [F2 ? ? ?]. split; [by eapply frame_trans|congruence..]. Qed.

Ltac frame_solve := split; simpl; repeat (destruct_and? || done || congruence).

Lemma upd_proc_frame s p f : cpu_ok s → frame s (ps_held s) (put_procs (<[p := f (ps_proc s p)]> (ps_proc s)) s).
Proof. intros Hc. by split. Qed.
Lemma frame_put s L s' g : frame s L s' → frame s L (put_procs g s').
Proof. intros [? ? ? ? ?]. by split. Qed.
Lemma frame_k s L s' k : frame s L s' → frame s L (set_k k s').
Proof. intros [? ? ? ? ?]. by split. Qed.
Lemma frame_next s L s' n : frame s L s' → frame s L (set_nextpid n s').
Proof. intros [? ? ? ? ?]. by split. Qed.

(** ** Locks *)

Lemma acquire_spec l (Q : unit → pstate → Prop) s :
  cpu_ok s → l ∉ ps_held s → (∀ s', locks s (l :: ps_held s) s' → Q tt s') → wp (acquire l) Q s.
Proof.
  intros (Hn&Hi&Hd) Hl HQ. unfold acquire, push_off, intr_get, intr_off, upd_cpu, holding. wp_steps.
  rewrite bool_decide_eq_false_2 by done. wp_steps. apply HQ.
  split; try done. split; try done; simpl.
  - by destruct (c_noff _ =? 0).
  - split_and!; simpl; [destruct (c_noff _ =? 0); simpl; lia| |by constructor]. intros _. by destruct (c_noff _ =? 0).
Qed.

Lemma pop_off_spec (Q : unit → pstate → Prop) s L n :
  c_intr (ps_cpu s) = false → c_noff (ps_cpu s) = n + 1 → 0 ≤ n → ps_held s = L → (n = length L) → NoDup L →
  (∀ s', locks s L s' → Q tt s') → wp pop_off Q s.
Proof.
  intros Hi Hn H0 Hl HL Hd HQ. unfold pop_off, intr_get, upd_cpu. wp_step. apply wp_gets. rewrite Hi. wp_steps. zbool. wp_steps. simpl.
  destruct (_ && _) eqn:E.
  - unfold intr_on, upd_cpu. wp_steps. apply HQ. apply andb_true_iff in E as [E%Z.eqb_eq _].
    assert (L = []) as -> by (destruct L; [done|simpl in *; lia]). split; try done. split; try done. split_and!; simpl; rewrite ?Hl; done || (simpl; lia).
  - wp_steps. apply HQ. split; try done. split; try done. split_and!; simpl; rewrite ?Hl; done || lia.
Qed.

Lemma release_spec l L1 L2 (Q : unit → pstate → Prop) s :
  cpu_ok s → ps_held s = L1 ++ l :: L2 → (∀ s', locks s (L1 ++ L2) s' → Q tt s') → wp (release l) Q s.
Proof.
  intros (Hn&Hi&Hd) Hl HQ. unfold release, holding. wp_steps. rewrite bool_decide_eq_true_2 by (rewrite Hl; set_solver).
  simpl. wp_steps. rewrite Hl in Hd. pose proof Hd as (_&Hd1&Hd2%NoDup_cons)%NoDup_app.
  assert (E : list_difference (ps_held s) [l] = L1 ++ L2).
  { rewrite Hl. clear -Hd1 Hd2. induction L1 as [|a L1 IH]; simpl.
    - case_decide; [|set_solver]. destruct Hd2 as [Hd2 _]. induction L2 as [|b L2 IH]; [done|]. simpl.
      case_decide; [set_solver|]. f_equal. apply IH; set_solver.
    - case_decide; [set_solver|]. f_equal. apply IH. set_solver. }
  apply (pop_off_spec _ _ (L1 ++ L2) (length (L1 ++ L2))); simpl; try done.
  - apply Hi. rewrite Hl. by destruct L1.
  - rewrite Hn, Hl, !length_app. simpl. lia.
  - lia.
  - clear -Hd. rewrite <- Permutation_middle in Hd. by apply NoDup_cons in Hd as [_ Hd].
  - intros s' [[? ? ? ? ?] ? ? ?]. apply HQ. by split.
Qed.

Lemma release_head l L (Q : unit → pstate → Prop) s :
  cpu_ok s → ps_held s = l :: L → (∀ s', locks s L s' → Q tt s') → wp (release l) Q s.
Proof. apply (release_spec l []). Qed.

Lemma myproc_spec (Q : option Z → pstate → Prop) s :
  cpu_ok s → (∀ s', locks s (ps_held s) s' → Q (c_proc (ps_cpu s)) s') → wp myproc Q s.
Proof.
  intros (Hn&Hi&Hd) HQ. unfold myproc, push_off, intr_get, intr_off, upd_cpu. wp_steps. simpl.
  eapply (pop_off_spec _ _ (ps_held s) (length (ps_held s))); simpl; try done; try lia.
  - by destruct (c_noff _ =? 0).
  - destruct (c_noff _ =? 0); simpl; lia.
  - intros s' [[Hi' Hf' Hc' Hh' Hk'] ? ? ?]. wp_steps. simpl in *. destruct (c_noff _ =? 0); simpl in *; apply HQ; by split.
Qed.

Lemma curproc_spec p (Q : Z → pstate → Prop) s :
  cpu_ok s → c_proc (ps_cpu s) = Some p → (∀ s', locks s (ps_held s) s' → Q p s') → wp curproc Q s.
Proof. intros Hc Hp HQ. unfold curproc. wp_step. apply myproc_spec; [done|]. intros s' Hs. rewrite Hp. wp_steps. auto. Qed.

(** ** Switching to the scheduler *)

(** Only slot [p] of the table changes, to [x]. *)
Definition slot_upd (p : Z) (x : proc) (s s' : pstate) : Prop :=
  ps_proc s' p = x ∧ ∀ q, q ≠ p → ps_proc s' q = ps_proc s q.

Lemma slot_upd_put p x s s' : ps_proc s' = ps_proc s → slot_upd p x s (put_procs (<[p := x]> (ps_proc s')) s').
Proof. intros E. split; simpl; [apply fn_lookup_insert|]. intros q Hq. by rewrite fn_lookup_insert_ne, E. Qed.
Lemma slot_upd_fn p f s s' :
  ps_proc s' = ps_proc s → slot_upd p (f (ps_proc s p)) s (put_procs (<[p := f (ps_proc s' p)]> (ps_proc s')) s').
Proof. intros E. rewrite <- E. apply slot_upd_put. by rewrite E. Qed.
Lemma slot_upd_trans p x y s s' s'' : slot_upd p x s s' → slot_upd p y s' s'' → slot_upd p y s s''.
Proof. intros [_ H1] [? H2]. split; [done|]. intros q Hq. by rewrite H2, H1. Qed.

(** A process that gives up the CPU with its slot changed by [f]: it holds its
    own lock only, and keeps the [intena] it has to restore. *)
Definition gave_up (p : Z) (f : proc → proc) (s s' : pstate) : Prop :=
  frame s [PROC_LOCK p] s' ∧ ps_nextpid s' = ps_nextpid s ∧ ps_k s' = ps_k s ∧
  c_intr (ps_cpu s') = false ∧ ∃ b, slot_upd p (set_intena b (f (ps_proc s p))) s s'.

Lemma sched_spec {A} p (Q : A → pstate → Prop) (R : pstate → Prop) s :
  cpu_ok s → c_proc (ps_cpu s) = Some p → ps_held s = [PROC_LOCK p] → p_state (ps_proc s p) ≠ RUNNING →
  (∀ s', gave_up p id s s' → R s') → wps sched Q R s.
Proof.
  intros Hc Hp Hh Hst HR. unfold sched. apply wps_bind_wp, (curproc_spec p); [done..|]. intros s1 [[? ? Hc1 Hh1 Hk1] Hpr1 Hn1 Hkk1].
  unfold holding, field, intr_get. apply wps_bind_wp, wp_gets. rewrite bool_decide_eq_true_2 by (rewrite Hh1, Hh; set_solver). simpl.
  apply wps_bind_wp, wp_gets. pose proof Hk1 as (Hno&Hin&_). rewrite Hno, Hh1, Hh. simpl.
  apply wps_bind_wp, wp_gets. rewrite Hpr1, bool_decide_eq_false_2 by done.
  apply wps_bind_wp, wp_gets. rewrite Hin by (by rewrite Hh1, Hh).
  apply wps_bind_wp, wp_gets. apply wps_bind_wp, wp_modify. apply wps_bind_wp, wp_gets. apply HR. split_and!; simpl; try done.
  - split; try done; simpl. by rewrite Hh1.
  - apply Hin. by rewrite Hh1, Hh.
  - exists (c_intena (ps_cpu s1)). rewrite <- Hpr1. by apply slot_upd_put.
Qed.

Lemma sched_resume_spec p (Q : unit → pstate → Prop) s :
  cpu_ok s → (∀ s', locks s (ps_held s) s' → Q tt s') → wp (sched_resume p) Q s.
Proof. intros Hc HQ. unfold sched_resume, field, upd_cpu. wp_steps. apply HQ. split; try done. Qed.

(** The common end of [yield], [sleep] and [exit]: the process's slot has been
    changed under its lock. *)
Lemma sched_after {A} p f (Q : A → pstate → Prop) (R : pstate → Prop) s s1 :
  frame s [PROC_LOCK p] s1 → ps_nextpid s1 = ps_nextpid s → ps_k s1 = ps_k s →
  c_proc (ps_cpu s) = Some p → slot_upd p (f (ps_proc s p)) s s1 → p_state (f (ps_proc s p)) ≠ RUNNING →
  (∀ s', gave_up p f s s' → R s') → wps sched Q R s1.
Proof.
  intros F1 Hn1 Hk1 Hp Hu Hst HR. apply (sched_spec p).
  - apply F1.
  - by rewrite (fr_cur _ _ _ F1).
  - apply F1.
  - by rewrite (proj1 Hu).
  - intros s' (F2&Hn2&Hk2&Hi2&b&Hu2). apply HR. split_and!; [by eapply frame_trans|congruence..|done|].
    exists b. rewrite <- (proj1 Hu). by eapply slot_upd_trans.
Qed.

Lemma yield_spec {A} p (Q : A → pstate → Prop) (R : pstate → Prop) s :
  cpu_ok s → c_proc (ps_cpu s) = Some p → ps_held s = [] →
  (∀ s', gave_up p (set_state RUNNABLE) s s' → R s') → wps yield Q R s.
Proof.
  intros Hc Hp Hh HR. unfold yield, upd_proc. apply wps_bind_wp, (curproc_spec p); [done..|]. intros s1 L1.
  apply wps_bind_wp, acquire_spec; [apply L1|rewrite (fr_held _ _ _ (lo_frame _ _ _ L1)), Hh; set_solver|]. intros s2 L2.
  pose proof (locks_trans _ _ _ _ _ L1 L2) as [F2 Hpr2 Hn2 Hk2]. rewrite (fr_held _ _ _ (lo_frame _ _ _ L1)), Hh in F2.
  apply wps_bind_wp, wp_modify. apply (sched_after p (set_state RUNNABLE) _ _ s); try done.
  - by apply frame_put.
  - by apply slot_upd_fn.
Qed.

Lemma sleep_spec {A} p chan lk (Q : A → pstate → Prop) (R : pstate → Prop) s :
  cpu_ok s → c_proc (ps_cpu s) = Some p → ps_held s = [lk] → lk ≠ PROC_LOCK p →
  (∀ s', gave_up p (set_state SLEEPING ∘ set_chan chan) s s' → R s') → wps (sleep chan lk) Q R s.
Proof.
  intros Hc Hp Hh Hlk HR. unfold sleep, upd_proc. apply wps_bind_wp, (curproc_spec p); [done..|]. intros s1 L1.
  apply wps_bind_wp, acquire_spec; [apply L1|rewrite (fr_held _ _ _ (lo_frame _ _ _ L1)), Hh; set_solver|]. intros s2 L2.
  pose proof (locks_trans _ _ _ _ _ L1 L2) as L12. rewrite (fr_held _ _ _ (lo_frame _ _ _ L1)), Hh in L12.
  apply wps_bind_wp, (release_spec lk [PROC_LOCK p] []); [apply L12..|]. intros s3 L3.
  destruct (locks_trans _ _ _ _ _ L12 L3) as [F3 Hpr3 Hn3 Hk3].
  apply wps_bind_wp, wp_modify. apply wps_bind_wp, wp_modify.
  apply (sched_after p (set_state SLEEPING ∘ set_chan chan) _ _ s); try done.
  - by apply frame_put, frame_put.
  - split; simpl; [by rewrite !fn_lookup_insert, Hpr3|]. intros q Hq. by rewrite !fn_lookup_insert_ne, Hpr3.
Qed.

(** ** Functions that visit the table *)

(** The table becomes [f]; locks and memory are as before. *)
Record mapped (s : pstate) (f : Z → proc) (s' : pstate) : Prop := {
  mp_frame : frame s (ps_held s) s';
  mp_next : ps_nextpid s' = ps_nextpid s;
  mp_k : ps_k s' = ps_k s;
  mp_proc : ∀ q, ps_proc s' q = f q
}.
Definition no_proc_lock (s : pstate) : Prop := ∀ p, PROC_LOCK p ∉ ps_held s.

Lemma mapped_locks s s' : locks s (ps_held s) s' → mapped s (ps_proc s) s'.
Proof. intros [F Hp Hn Hk]. split; try done. by rewrite Hp. Qed.
Lemma mapped_trans s f s1 g s2 : mapped s f s1 → mapped s1 g s2 → mapped s g s2.
Proof.
  intros [F1 H1 K1 P1] [F2 H2 K2 P2]. split; [|congruence..|done].
  rewrite (fr_held _ _ _ F1) in F2. by eapply frame_trans.
Qed.
Lemma mapped_cpu s f s' : mapped s f s' → cpu_ok s'.
Proof. intros [F _ _ _]. apply F. Qed.
Lemma mapped_held s f s' : mapped s f s' → ps_held s' = ps_held s.
Proof. intros [F _ _ _]. apply F. Qed.
Lemma mapped_cur s f s' : mapped s f s' → c_proc (ps_cpu s') = c_proc (ps_cpu s).
Proof. intros [F _ _ _]. apply F. Qed.
Lemma mapped_ext s f g s' : mapped s f s' → (∀ q, f q = g q) → mapped s g s'.
Proof. intros [? ? ? Hp] E. split; try done. intros q. by rewrite Hp. Qed.
Lemma no_proc_lock_mapped s f s' : mapped s f s' → no_proc_lock s → no_proc_lock s'.
Proof. intros Hm Hn p. rewrite (mapped_held _ _ _ Hm). apply Hn. Qed.
#[global] Hint Resolve mapped_cpu no_proc_lock_mapped : proc.

Definition woken (chan : Z) (cur : option Z) (q : Z) (x : proc) : proc :=
  if decide (Some q ≠ cur ∧ p_state x = SLEEPING ∧ p_chan x = chan) then set_state RUNNABLE x else x.

Lemma wakeup_loop_spec chan l (Q : unit → pstate → Prop) s :
  NoDup l → cpu_ok s → no_proc_lock s →
  (∀ s', mapped s (λ q, if decide (q ∈ l) then woken chan (c_proc (ps_cpu s)) q (ps_proc s q) else ps_proc s q) s' → Q tt s') →
  wp (wakeup_loop chan l) Q s.
Proof.
  revert s Q. induction l as [|p l IH]; intros s Q Hnd Hc Hn HQ; simpl.
  - apply HQ. by split.
  - apply NoDup_cons in Hnd as [Hpl Hnd]. wp_step. apply myproc_spec; [done|]. intros s1 L1%mapped_locks.
    set (cur := c_proc (ps_cpu s)) in *.
    assert (Hrest : ∀ s2, mapped s (λ q, if decide (q = p) then woken chan cur p (ps_proc s p) else ps_proc s q) s2 →
      wp (wakeup_loop chan l) Q s2).
    { intros s2 M2. apply IH; eauto with proc. intros s' M'. apply HQ. rewrite (mapped_cur _ _ _ M2) in M'.
      eapply mapped_ext; [by eapply mapped_trans|]. intros q. simpl. rewrite (mp_proc _ _ _ M2).
      destruct (decide (q = p)) as [->|Hqp].
      - rewrite decide_False by done. by rewrite decide_True by set_solver.
      - apply decide_ext. set_solver. }
    wp_step. case_bool_decide as Hme.
    { wp_step. apply Hrest. eapply mapped_ext; [done|]. intros q. simpl. case_decide; [subst q|done].
      unfold woken. rewrite decide_False; [done|]. by intros [? _]. }
    wp_step. apply acquire_spec; [eauto with proc|rewrite (mapped_held _ _ _ L1); apply Hn|]. intros s2 [F2 Hp2 Hn2 Hk2].
    rewrite (mapped_held _ _ _ L1) in F2.
    assert (F12 : frame s (PROC_LOCK p :: ps_held s) s2) by (eapply frame_trans; [apply L1|done]).
    assert (Hrel : ∀ s3, frame s (PROC_LOCK p :: ps_held s) s3 → ps_nextpid s3 = ps_nextpid s → ps_k s3 = ps_k s →
      (∀ q, ps_proc s3 q = if decide (q = p) then woken chan cur p (ps_proc s p) else ps_proc s q) →
      wp (release (PROC_LOCK p)) (λ _ s', wp (wakeup_loop chan l) Q s') s3).
    { intros s3 F3 Hn3 Hk3 Hp3. apply (release_head _ (ps_held s)); [apply F3..|]. intros s4 [F4 Hp4 Hn4 Hk4]. apply Hrest.
      split; [by eapply frame_trans|congruence..|]. intros q. by rewrite Hp4. }
    assert (Hpp : ∀ q, ps_proc s2 q = ps_proc s q) by (intros q; rewrite Hp2; apply (mp_proc _ _ _ L1)).
    pose proof (mp_next _ _ _ L1). pose proof (mp_k _ _ _ L1).
    wp_step. apply wp_gets. wp_step. rewrite Hpp. destruct (_ && _) eqn:E.
    + apply andb_true_iff in E as [Es%bool_decide_eq_true Ec%Z.eqb_eq]. p_step. apply Hrel; [by apply frame_put|simpl; congruence..|].
      intros q. cbn [ps_proc put_procs]. destruct (decide (q = p)) as [->|Hq]; [rewrite fn_lookup_insert|by rewrite fn_lookup_insert_ne].
      unfold woken. by rewrite Hpp, decide_True.
    + wp_step. apply Hrel; [done|congruence..|]. intros q. rewrite Hpp. destruct (decide (q = p)) as [->|Hq]; [|done]. unfold woken.
      rewrite decide_False; [done|]. intros (_&Es&Ec). rewrite bool_decide_eq_true_2, Ec, Z.eqb_refl in E by done. done.
Qed.

Lemma elem_of_procs q : q ∈ procs ↔ 0 ≤ q < NPROC.
Proof. apply elem_of_seqZ. Qed.
Lemma NoDup_procs : NoDup procs.
Proof. apply NoDup_seqZ. Qed.

(** [wakeup] makes runnable exactly the processes that sleep on the channel,
    but never the caller. *)
Lemma wakeup_spec chan (Q : unit → pstate → Prop) s :
  cpu_ok s → no_proc_lock s →
  (∀ s', mapped s (λ q, if decide (0 ≤ q < NPROC) then woken chan (c_proc (ps_cpu s)) q (ps_proc s q) else ps_proc s q) s' → Q tt s') →
  wp (wakeup chan) Q s.
Proof.
  intros Hc Hn HQ. apply wakeup_loop_spec; [apply NoDup_procs|done..|]. intros s' M. apply HQ. eapply mapped_ext; [done|].
  intros q. apply decide_ext, elem_of_procs.
Qed.

(** The lock of a slot around an update of the slot. *)
Lemma locked_upd p f (Q : unit → pstate → Prop) s :
  cpu_ok s → no_proc_lock s →
  (∀ s', mapped s (λ q, if decide (q = p) then f (ps_proc s p) else ps_proc s q) s' → Q tt s') →
  wp (acquire (PROC_LOCK p) ;; upd_proc p f ;; release (PROC_LOCK p)) Q s.
Proof.
  intros Hc Hn HQ. wp_step. apply acquire_spec; [done|apply Hn|]. intros s1 [F1 Hp1 Hn1 Hk1]. do 2 p_step.
  apply (release_head _ (ps_held s)); [apply (frame_put _ _ _ _ F1)..|]. intros s2 [F2 Hp2 Hn2 Hk2]. apply HQ.
  split; [eapply frame_trans; [|exact F2]; by apply frame_put|simpl in *; congruence..|].
  intros q. rewrite Hp2. cbn [ps_proc put_procs]. destruct (decide (q = p)) as [->|Hq]; [by rewrite fn_lookup_insert, Hp1|by rewrite fn_lookup_insert_ne, Hp1].
Qed.

(** ... and around a read of it. *)
Lemma locked_read {A} p (g : proc → A) (Q : A → pstate → Prop) s :
  cpu_ok s → no_proc_lock s → (∀ s', locks s (ps_held s) s' → Q (g (ps_proc s p)) s') →
  wp (acquire (PROC_LOCK p) ;; k ← field g p; release (PROC_LOCK p) ;; mret k) Q s.
Proof.
  intros Hc Hn HQ. wp_step. apply acquire_spec; [done|apply Hn|]. intros s1 L1. do 3 p_step. rewrite (lo_proc _ _ _ L1).
  apply (release_head _ (ps_held s)); [apply L1..|]. intros s2 L2. wp_step. apply HQ. by eapply locks_trans.
Qed.

Lemma setkilled_spec p (Q : unit → pstate → Prop) s :
  cpu_ok s → no_proc_lock s →
  (∀ s', mapped s (λ q, if decide (q = p) then set_killed 1 (ps_proc s p) else ps_proc s q) s' → Q tt s') →
  wp (setkilled p) Q s.
Proof. apply locked_upd. Qed.
Lemma killed_spec p (Q : Z → pstate → Prop) s :
  cpu_ok s → no_proc_lock s → (∀ s', locks s (ps_held s) s' → Q (p_killed (ps_proc s p)) s') → wp (killed p) Q s.
Proof. apply locked_read. Qed.

(** [kill] marks the first process with the pid, and wakes it. *)
Definition kill_upd (x : proc) : proc :=
  if decide (p_state x = SLEEPING) then set_state RUNNABLE (set_killed 1 x) else set_killed 1 x.
Definition kill_table (s : pstate) (victim : option Z) (q : Z) : proc :=
  if decide (Some q = victim) then kill_upd (ps_proc s q) else ps_proc s q.

Lemma kill_loop_spec pid l (Q : Z → pstate → Prop) s :
  cpu_ok s → no_proc_lock s →
  (∀ s', let v := list_find (λ q, p_pid (ps_proc s q) = pid) l in
    mapped s (kill_table s (snd <$> v)) s' → Q (if v then 0 else -1) s') →
  wp (kill_loop pid l) Q s.
Proof.
  revert s Q. induction l as [|p l IH]; intros s Q Hc Hn HQ; simpl.
  - apply HQ. by split.
  - wp_step. apply acquire_spec; [done|apply Hn|]. intros s1 L1. pose proof L1 as [F1 Hp1 Hn1 Hk1]. do 2 p_step. rewrite Hp1. simpl in HQ.
    case_decide as Hpid.
    + rewrite Hpid, Z.eqb_refl. clear IH. do 2 p_step.
      assert (Hend : ∀ s2, frame s (PROC_LOCK p :: ps_held s) s2 → ps_nextpid s2 = ps_nextpid s → ps_k s2 = ps_k s →
        slot_upd p (kill_upd (ps_proc s p)) s s2 → wp (release (PROC_LOCK p)) (λ _, wp (mret 0) Q) s2).
      { intros s2 F2 Hn2 Hk2 [Hu Ho]. apply (release_head _ (ps_held s)); [apply F2..|]. intros s3 [F3 Hp3 Hn3 Hk3]. wp_step.
        apply HQ. split; [by eapply frame_trans|congruence..|]. intros q. unfold kill_table. rewrite Hp3. simpl.
        destruct (decide (Some q = Some p)) as [[= ->]|Hq]; [done|]. apply Ho. congruence. }
      unfold kill_upd in Hend. wp_step. case_bool_decide as Est.
      * p_step. wp_step. apply Hend; [by do 2 apply frame_put|done..|]. rewrite decide_True by done.
        split; cbn [ps_proc put_procs]; [by rewrite !fn_lookup_insert, Hp1|]. intros q Hq. by rewrite !fn_lookup_insert_ne, Hp1.
      * do 2 wp_step. apply Hend; [by apply frame_put|done..|]. rewrite decide_False by done. by apply slot_upd_fn.
    + rewrite (proj2 (Z.eqb_neq _ _)) by done. wp_step. apply (release_head _ (ps_held s)); [apply F1..|]. intros s2 L2.
      pose proof (mapped_locks _ _ (locks_trans _ _ _ _ _ L1 L2)) as M2. apply IH; eauto with proc. intros s' v M'.
      assert (Hv : v = list_find (λ q, p_pid (ps_proc s q) = pid) l).
      { unfold v. apply list_find_ext. intros q. by rewrite (mp_proc _ _ _ M2). }
      destruct (list_find (λ q, p_pid (ps_proc s q) = pid) l) as [[i w]|] eqn:E; rewrite Hv in *; simpl in *;
        (apply HQ; eapply mapped_ext; [by eapply mapped_trans|]; intros q; unfold kill_table; simpl; by rewrite (mp_proc _ _ _ M2)).
Qed.

Lemma kill_spec pid (Q : Z → pstate → Prop) s :
  cpu_ok s → no_proc_lock s →
  (∀ s', let v := list_find (λ q, p_pid (ps_proc s q) = pid) procs in
    mapped s (kill_table s (snd <$> v)) s' → Q (if v then 0 else -1) s') →
  wp (kill pid) Q s.
Proof. apply kill_loop_spec. Qed.

(** ** Resuming *)

Lemma yield_resume_spec p (Q : unit → pstate → Prop) s :
  cpu_ok s → ps_held s = [PROC_LOCK p] → (∀ s', locks s [] s' → Q tt s') → wp (yield_resume p) Q s.
Proof.
  intros Hc Hh HQ. unfold yield_resume. wp_step. apply sched_resume_spec; [done|]. intros s1 L1.
  apply (release_head _ []); [apply L1|by rewrite (fr_held _ _ _ (lo_frame _ _ _ L1))|]. intros s2 L2. apply HQ. by eapply locks_trans.
Qed.

Lemma sleep_resume_spec p lk (Q : unit → pstate → Prop) s :
  cpu_ok s → ps_held s = [PROC_LOCK p] →
  (∀ s', frame s [lk] s' → ps_nextpid s' = ps_nextpid s → ps_k s' = ps_k s →
    slot_upd p (set_chan 0 (ps_proc s p)) s s' → Q tt s') →
  wp (sleep_resume p lk) Q s.
Proof.
  intros Hc Hh HQ. unfold sleep_resume. wp_step. apply sched_resume_spec; [done|]. intros s1 [F1 Hp1 Hn1 Hk1]. rewrite Hh in F1.
  do 2 p_step. wp_step. apply (release_head _ []); [apply (frame_put _ _ _ _ F1)..|]. intros s2 [F2 Hp2 Hn2 Hk2].
  apply acquire_spec; [apply F2|rewrite (fr_held _ _ _ F2); set_solver|]. intros s3 [F3 Hp3 Hn3 Hk3]. rewrite (fr_held _ _ _ F2) in F3.
  apply HQ.
  - eapply frame_trans; [|exact F3]. eapply frame_trans; [|exact F2]. by apply frame_put.
  - rewrite Hn3, Hn2. done.
  - rewrite Hk3, Hk2. done.
  - destruct (slot_upd_fn p (set_chan 0) s s1 Hp1) as [Hu Ho]. split; [by rewrite Hp3, Hp2|]. intros q Hq. rewrite Hp3, Hp2. by apply Ho.
Qed.

Lemma sched_enter_spec p (Q : bool → pstate → Prop) s :
  cpu_ok s → ps_held s = [] →
  (∀ s' : pstate, p_state (ps_proc s p) = RUNNABLE → cpu_ok s' → ps_held s' = [PROC_LOCK p] → c_proc (ps_cpu s') = Some p →
    ps_initproc s' = ps_initproc s → ps_nextpid s' = ps_nextpid s → ps_k s' = ps_k s →
    slot_upd p (set_state RUNNING (ps_proc s p)) s s' → Q true s') →
  (∀ s', p_state (ps_proc s p) ≠ RUNNABLE → locks s [PROC_LOCK p] s' → Q false s') →
  wp (sched_enter p) Q s.
Proof.
  intros Hc Hh Ht Hf. unfold sched_enter. wp_step. apply acquire_spec; [done|rewrite Hh; set_solver|]. rewrite Hh. intros s1 L1.
  pose proof L1 as [F1 Hp1 Hn1 Hk1]. do 2 p_step. rewrite Hp1. case_bool_decide as Est.
  - do 4 p_step. destruct (slot_upd_fn p (set_state RUNNING) s s1 Hp1) as [Hu Ho]. pose proof F1 as [Fi Ff Fc Fh Fk].
    apply Ht; try done.
  - wp_step. by apply Hf.
Qed.

Lemma sched_leave_spec p (Q : unit → pstate → Prop) s :
  cpu_ok s → ps_held s = [PROC_LOCK p] →
  (∀ s', cpu_ok s' → ps_held s' = [] → c_proc (ps_cpu s') = None → ps_initproc s' = ps_initproc s →
    ps_nextpid s' = ps_nextpid s → ps_k s' = ps_k s → ps_proc s' = ps_proc s → Q tt s') →
  wp (sched_leave p) Q s.
Proof.
  intros Hc Hh HQ. unfold sched_leave. do 2 p_step. apply (release_head _ []); [exact Hc|done|]. intros s1 [[Fi Ff Fc Fh Fk] Hp Hn Hk].
  by apply HQ.
Qed.

(** ** Functions that never sleep

    The allocator and the page-table code run under spin locks at most, so
    they either return or panic. *)

Definition awake {S A} (m : M S A) : Prop := ∀ s c s', m s ≠ Sleep c s'.

Create HintDb awake.

Section rules.
Context {S : Type}.
Lemma awake_ret {A} (a : A) : awake (mret (M := M S) a).
Proof. done. Qed.
Lemma awake_gets {A} (f : S → A) : awake (gets f).
Proof. done. Qed.
Lemma awake_modify (f : S → S) : awake (modify f).
Proof. done. Qed.
Lemma awake_panic {A} e : awake (S := S) (panic (A := A) e).
Proof. done. Qed.
Lemma awake_nofuel {A} : awake (S := S) (A := A) (λ _, NoFuel).
Proof. done. Qed.
Lemma awake_bind {A B} (m : M S A) (k : A → M S B) : awake m → (∀ a, awake (k a)) → awake (m ≫= k).
Proof. intros Hm Hk s c s'. unfold mbind, M_bind. destruct (m s) eqn:E; try done; [apply Hk|]. intros _. by apply (Hm s chan s0). Qed.
Lemma awake_acquire (g : S → bool) st : awake (Prelude.acquire g st).
Proof. intros s c s'. unfold Prelude.acquire, mbind, M_bind, gets. by destruct (g s). Qed.
Lemma awake_release (g : S → bool) st : awake (Prelude.release g st).
Proof. intros s c s'. unfold Prelude.release, mbind, M_bind, gets. by destruct (g s). Qed.
Lemma awake_wlp {A} (m : M S A) (Q : A → S → Prop) (R : S → Prop) s : awake m → (∀ a s', Q a s') → wlp m Q R s.
Proof. intros Hm HQ. unfold wlp. destruct (m s) eqn:E; auto. by apply Hm in E. Qed.
End rules.

#[export] Hint Resolve awake_ret awake_gets awake_modify awake_panic awake_nofuel awake_acquire awake_release : awake.

(** Goes through the binds and conditionals of a function's body. *)
Ltac awake_go :=
  repeat first
    [ solve [auto with awake]
    | match goal with
      | |- awake (mbind _ _) => apply awake_bind; [|intros ?]
      | |- awake (if ?b then _ else _) => destruct b
      | |- awake (match ?x with (_, _) => _ end) => destruct x
      | |- awake (let _ := _ in _) => cbv zeta
      end ].

Section vm.
Variable kend : Z.

Lemma awake_upd_mem f : awake (upd_mem f).
Proof. done. Qed.
Hint Resolve awake_upd_mem : awake.
Lemma awake_kalloc : awake kalloc.
Proof. unfold kalloc. awake_go. Qed.
Lemma awake_kfree pa : awake (kfree kend pa).
Proof. unfold kfree. awake_go. Qed.
Hint Resolve awake_kalloc awake_kfree : awake.
Lemma awake_walk_levels pt va alloc lv : awake (walk_levels pt va alloc lv).
Proof. revert pt. induction lv as [|lv IH]; intros pt; cbn [walk_levels]; unfold load_pte, store_pte; awake_go. Qed.
Lemma awake_walk pt va alloc : awake (walk pt va alloc).
Proof. pose proof awake_walk_levels. unfold walk. awake_go. Qed.
Hint Resolve awake_walk : awake.
Lemma awake_walkaddr pt va : awake (walkaddr pt va).
Proof. unfold walkaddr, load_pte. awake_go. Qed.
Hint Resolve awake_walkaddr : awake.
Lemma awake_mappages pt va size pa perm : awake (mappages pt va size pa perm).
Proof.
  assert (∀ fuel a last pa, awake (mappages_loop pt a last pa perm fuel)).
  { induction fuel; intros; cbn [mappages_loop]; unfold load_pte, store_pte; awake_go. }
  unfold mappages. awake_go.
Qed.
Hint Resolve awake_mappages : awake.
Lemma awake_uvmunmap pt va n b : awake (uvmunmap kend pt va n b).
Proof.
  assert (∀ fuel a aend, awake (uvmunmap_loop kend pt a aend b fuel)).
  { induction fuel; intros; cbn [uvmunmap_loop]; unfold load_pte, store_pte, when; awake_go. }
  unfold uvmunmap. awake_go.
Qed.
Hint Resolve awake_uvmunmap : awake.
Lemma awake_uvmcreate : awake uvmcreate.
Proof. unfold uvmcreate. awake_go. Qed.
Lemma awake_uvmfirst pt src sz : awake (uvmfirst pt src sz).
Proof. unfold uvmfirst. awake_go. Qed.
Lemma awake_uvmdealloc pt o n : awake (uvmdealloc kend pt o n).
Proof. unfold uvmdealloc. awake_go. Qed.
Hint Resolve awake_uvmdealloc : awake.
Lemma awake_uvmalloc pt o n x : awake (uvmalloc kend pt o n x).
Proof.
  assert (∀ fuel a o, awake (uvmalloc_loop kend pt a o n x fuel)) by (induction fuel; intros; cbn [uvmalloc_loop]; awake_go).
  unfold uvmalloc. awake_go.
Qed.
Lemma awake_freewalk d pt : awake (freewalk kend d pt).
Proof.
  assert (He : ∀ (sub : Z → M kstate unit), (∀ a, awake (sub a)) → ∀ n pt i, awake (freewalk_entries sub pt i n)).
  { intros sub Hs. induction n; intros; cbn [freewalk_entries]; unfold load_pte, store_pte; awake_go. }
  revert pt. induction d; intros; cbn [freewalk]; awake_go.
Qed.
Hint Resolve awake_freewalk : awake.
Lemma awake_uvmfree pt sz : awake (uvmfree kend pt sz).
Proof. unfold uvmfree. awake_go. Qed.
Lemma awake_uvmcopy o n sz : awake (uvmcopy kend o n sz).
Proof.
  assert (∀ fuel i, awake (uvmcopy_loop kend o n i sz fuel)) by (induction fuel; intros; cbn [uvmcopy_loop]; unfold load_pte; awake_go).
  unfold uvmcopy. auto.
Qed.
Lemma awake_uvmclear pt va : awake (uvmclear pt va).
Proof using. unfold uvmclear, load_pte, store_pte. awake_go. Qed.
Lemma awake_copyout pt va src len : awake (copyout pt va src len).
Proof.
  assert (∀ fuel va src len, awake (copyout_loop pt va src len fuel)) by (induction fuel; intros; cbn [copyout_loop]; awake_go).
  unfold copyout. auto.
Qed.
Lemma awake_copyin pt dst va len : awake (copyin pt dst va len).
Proof.
  assert (∀ fuel dst va len, awake (copyin_loop pt dst va len fuel)) by (induction fuel; intros; cbn [copyin_loop]; awake_go).
  unfold copyin. auto.
Qed.
Lemma awake_copyinstr pt dst va max : awake (copyinstr pt dst va max).
Proof.
  assert (Hp : ∀ n p dst max, awake (copyinstr_page p dst max n)) by (induction n; intros; cbn [copyinstr_page]; awake_go).
  assert (∀ fuel dst va max b, awake (copyinstr_loop pt dst va max b fuel)) by (induction fuel; intros; cbn [copyinstr_loop]; awake_go).
  unfold copyinstr. auto.
Qed.
End vm.
#[export] Hint Resolve awake_uvmclear awake_upd_mem awake_kalloc awake_kfree awake_walk awake_walkaddr awake_mappages awake_uvmunmap
  awake_uvmcreate awake_uvmfirst awake_uvmdealloc awake_uvmalloc awake_uvmfree awake_uvmcopy awake_copyout awake_copyin
  awake_copyinstr : awake.
