(* ===== verification/ProcTable.v ===== *)
(** * Allocation, reaping and the process tree

    Partial specifications of the functions of proc.c that allocate: what they
    do to the table, whatever the allocator and the page tables answer. *)
From S2P Require Import Prelude Kstring Kalloc Vm Proc ProcProps.

Lemma kern_wlp {A} (m : M kstate A) (Q : A → pstate → Prop) R s :
  awake m → (∀ a k, Q a (set_k k s)) → wlp (kern m) Q R s.
Proof. intros Hm HQ. unfold wlp, kern, zoom. destruct (m (ps_k s)) eqn:E; auto. by apply Hm in E. Qed.

Ltac kern_step := apply kern_wlp; [by auto with awake|intros ? ?].
Ltac w_step :=
  lazymatch goal with
  | |- wlp (kern _) _ _ _ => kern_step
  | |- wlp (mbind _ _) _ _ _ => apply wlp_bind
  | |- wlp (if ?b then _ else _) _ _ _ => let E := fresh "E" in destruct b eqn:E
  | _ => p_step
  end; cbv beta.

(** The slot changes to [x]; locks, pids and the rest stay. *)
Record slot_to (p : Z) (x : proc) (s s' : pstate) : Prop := {
  sl_frame : frame s (ps_held s) s';
  sl_next : ps_nextpid s' = ps_nextpid s;
  sl_slot : slot_upd p x s s'
}.

Lemma slot_to_refl p s : cpu_ok s → slot_to p (ps_proc s p) s s.
Proof. intros. split; [by apply frame_refl|done|done]. Qed.
Lemma slot_to_k p x s s' k : slot_to p x s s' → slot_to p x s (set_k k s').
Proof. intros [F Hn [Hu Ho]]. split; [by apply frame_k|done|done]. Qed.
Lemma slot_to_upd p x f s s' :
  slot_to p x s s' → slot_to p (f x) s (put_procs (<[p := f (ps_proc s' p)]> (ps_proc s')) s').
Proof.
  intros [F Hn [Hu Ho]]. split; [by apply frame_put|done|]. split; cbn [ps_proc put_procs].
  - by rewrite fn_lookup_insert, Hu.
  - intros q Hq. by rewrite fn_lookup_insert_ne, Ho.
Qed.
Lemma slot_to_trans p x y s s' s'' : slot_to p x s s' → slot_to p y s' s'' → slot_to p y s s''.
Proof.
  intros [F Hn Hu] [F' Hn' Hu']. split; [|congruence|by eapply slot_upd_trans].
  rewrite (fr_held _ _ _ F) in F'. by eapply frame_trans.
Qed.
Create HintDb slot.
#[export] Hint Resolve slot_to_refl slot_to_k slot_to_upd : slot.

(** A slot after [freeproc]. *)
Definition freed (x : proc) : proc :=
  Proc UNUSED 0 0 0 None (p_kstack x) 0 0 0 (p_context x) (p_intena x) (p_ofile x) (p_cwd x).

Section table.
Variables (kend trampoline proc_base forkret_addr : Z).

Lemma upd_to {A} p x f (k : unit → M pstate A) (Q : A → pstate → Prop) R s s1 :
  slot_to p x s s1 → (∀ s2, slot_to p (f x) s s2 → wlp (k tt) Q R s2) → wlp (upd_proc p f ≫= k) Q R s1.
Proof. intros S1 Hk. apply wlp_bind, wlp_modify, Hk. by apply slot_to_upd. Qed.
Lemma kern_to {A B} p x (m : M kstate B) (k : B → M pstate A) (Q : A → pstate → Prop) R s s1 :
  slot_to p x s s1 → awake m → (∀ b s2, slot_to p x s s2 → wlp (k b) Q R s2) → wlp (kern m ≫= k) Q R s1.
Proof. intros S1 Hm Hk. apply wlp_bind, kern_wlp; [done|]. intros b k'. apply Hk. by apply slot_to_k. Qed.
Lemma field_to {A B} p x (g : proc → B) (k : B → M pstate A) (Q : A → pstate → Prop) R s s1 :
  slot_to p x s s1 → wlp (k (g x)) Q R s1 → wlp (field g p ≫= k) Q R s1.
Proof. intros [_ _ [<- _]] Hk. by apply wlp_bind, wlp_gets. Qed.

(** Follows the updates of one slot along a function's body. *)
Ltac slot_step :=
  lazymatch goal with
  | H : slot_to ?p _ ?s ?s1 |- wlp (upd_proc ?p _ ≫= _) _ _ ?s1 => eapply (upd_to p _ _ _ _ _ _ _ H); clear H; intros ? ?
  | H : slot_to ?p _ ?s ?s1 |- wlp (kern _ ≫= _) _ _ ?s1 =>
      eapply (kern_to p _ _ _ _ _ _ _ H); [by auto with awake|clear H; intros ? ? ?]
  | H : slot_to ?p _ ?s ?s1 |- wlp (field _ ?p ≫= _) _ _ ?s1 => eapply (field_to p _ _ _ _ _ _ _ H)
  end; cbv beta.

Lemma proc_freepagetable_wlp p x pt sz R s s1 :
  slot_to p x s s1 → wlp (proc_freepagetable kend pt sz) (λ _, slot_to p x s) R s1.
Proof. intros S1. unfold proc_freepagetable. do 2 slot_step. kern_step. by apply slot_to_k. Qed.

Lemma freeproc_wlp p (Q : unit → pstate → Prop) R s s1 x :
  slot_to p x s s1 → (∀ s', slot_to p (freed x) s s' → Q tt s') → wlp (freeproc kend proc_base p) Q R s1.
Proof.
  intros S1 HQ. unfold freeproc. slot_step. apply (wlp_cut (slot_to p x s)).
  { destruct (_ =? 0); [by wlp_step|]. kern_step. by apply slot_to_k. }
  intros _ s2 S2. clear S1. do 3 slot_step. eapply (wlp_cut (slot_to p (set_trapframe 0 x) s)).
  { destruct (_ =? 0); [by wlp_step|]. by apply proc_freepagetable_wlp. }
  clear dependent s2. intros _ s2 S2. do 8 slot_step. apply wlp_modify. apply HQ.
  match goal with H : slot_to _ _ _ _ |- _ => exact (slot_to_upd _ _ (set_state UNUSED) _ _ H) end.
Qed.

Lemma proc_pagetable_wlp p x R s s1 :
  slot_to p x s s1 → wlp (proc_pagetable kend trampoline p) (λ _, slot_to p x s) R s1.
Proof.
  intros S1. unfold proc_pagetable. slot_step. destruct (_ =? 0); [by wlp_step|]. slot_step. destruct (_ <? 0).
  - slot_step. by wlp_step.
  - slot_step. slot_step. destruct (_ <? 0); [do 2 slot_step; by wlp_step|by wlp_step].
Qed.

(** The slot that [allocproc] takes. *)
Definition first_unused (l : list Z) (s : pstate) (p : Z) : Prop := ∃ i, list_find (λ q, p_state (ps_proc s q) = UNUSED) l = Some (i, p).

Lemma find_unused_spec l (Q : option Z → pstate → Prop) s :
  cpu_ok s → no_proc_lock s →
  (∀ s', locks s (ps_held s) s' → (∀ q, q ∈ l → p_state (ps_proc s q) ≠ UNUSED) → Q None s') →
  (∀ p s', first_unused l s p → locks s (PROC_LOCK p :: ps_held s) s' → Q (Some p) s') →
  wp (find_unused l) Q s.
Proof.
  revert s. induction l as [|p l IH]; intros s Hc Hn H0 H1; simpl.
  - apply H0; [|set_solver]. by split.
  - wp_step. apply acquire_spec; [done|apply Hn|]. intros s1 L1. do 2 p_step. rewrite (lo_proc _ _ _ L1). case_bool_decide as Est.
    + wp_step. apply H1; [|done]. exists 0%nat. simpl. by rewrite decide_True.
    + wp_step. apply (release_head _ (ps_held s)); [apply L1..|]. intros s2 L2.
      pose proof (locks_trans _ _ _ _ _ L1 L2) as L12. apply IH; rewrite ?(lo_proc _ _ _ L12), ?(fr_held _ _ _ (lo_frame _ _ _ L12)).
      * apply L12.
      * intros q. rewrite (fr_held _ _ _ (lo_frame _ _ _ L12)). apply Hn.
      * intros s' L' Hl. apply H0; [by eapply locks_trans|]. intros q [->|?]%elem_of_cons; auto.
      * intros q s' [i Hi] L'. apply H1; [|by eapply locks_trans]. exists (S i). simpl. rewrite decide_False by done.
        rewrite (lo_proc _ _ _ L12) in Hi. by rewrite Hi.
Qed.

Lemma allocpid_spec (Q : Z → pstate → Prop) s :
  cpu_ok s → PID_LOCK ∉ ps_held s →
  (∀ s', frame s (ps_held s) s' → ps_proc s' = ps_proc s → ps_nextpid s' = s32 (ps_nextpid s + 1) → ps_k s' = ps_k s → Q (ps_nextpid s) s') →
  wp allocpid Q s.
Proof.
  intros Hc Hl HQ. unfold allocpid. wp_step. apply acquire_spec; [done..|]. intros s1 [F1 Hp1 Hn1 Hk1]. do 4 p_step. wp_step.
  apply (release_head _ (ps_held s)); [apply (frame_next _ _ _ _ F1)..|]. intros s2 [F2 Hp2 Hn2 Hk2]. wp_step. rewrite Hn1. apply HQ.
  - eapply frame_trans; [|exact F2]. by apply frame_next.
  - rewrite Hp2. done.
  - rewrite Hn2. simpl. by rewrite Hn1.
  - by rewrite Hk2.
Qed.

(** The table after [allocproc] failed: perhaps a pid is used up, and an unused
    slot was cleared again. *)
Definition alloc_failed (s s' : pstate) : Prop :=
  frame s (ps_held s) s' ∧ (ps_nextpid s' = ps_nextpid s ∨ ps_nextpid s' = s32 (ps_nextpid s + 1)) ∧
  ∀ q, ps_proc s' q = ps_proc s q ∨ (p_state (ps_proc s q) = UNUSED ∧ ∃ x, ps_proc s' q = freed x).

(** ... and after it allocated slot [p], whose lock it keeps. *)
Record allocated (p : Z) (x : proc) (s s' : pstate) : Prop := {
  al_range : 0 ≤ p < NPROC;
  al_free : p_state (ps_proc s p) = UNUSED;
  al_first : first_unused procs s p;
  al_frame : frame s (PROC_LOCK p :: ps_held s) s';
  al_next : ps_nextpid s' = s32 (ps_nextpid s + 1);
  al_slot : slot_upd p x s s';
  al_state : p_state x = USED;
  al_pid : p_pid x = ps_nextpid s;
  al_parent : p_parent x = p_parent (ps_proc s p);
  al_killed : p_killed x = p_killed (ps_proc s p)
}.

Lemma allocproc_wlp (Q : option Z → pstate → Prop) R s :
  cpu_ok s → no_proc_lock s → PID_LOCK ∉ ps_held s →
  (∀ s', alloc_failed s s' → Q None s') →
  (∀ p x s', allocated p x s s' → Q (Some p) s') →
  wlp (allocproc kend trampoline proc_base forkret_addr) Q R s.
Proof.
  intros Hc Hn Hpl H0 H1. unfold allocproc. apply wlp_bind_wp, find_unused_spec; [done..| |].
  { intros s1 [F1 Hp1 Hn1 Hk1] _. wlp_step. apply H0. split_and!; [done|by left|]. intros q. rewrite Hp1. by left. }
  intros p s1 Hfst [F1 Hp1 Hn1 Hk1]. assert (0 ≤ p < NPROC ∧ p_state (ps_proc s p) = UNUSED) as [Hp Hun].
  { destruct Hfst as [i (Hi&Hu&_)%list_find_Some]. split; [|done]. by apply elem_of_procs, (list_elem_of_lookup_2 _ i). }
  apply wlp_bind_wp, allocpid_spec; [apply F1|rewrite (fr_held _ _ _ F1); set_solver|].
  intros s2 F2 Hp2 Hn2 _. rewrite (fr_held _ _ _ F1), Hn1 in *. pose proof (frame_trans _ _ _ _ _ F1 F2) as F12.
  assert (S2 : slot_to p (ps_proc s p) s2 s2).
  { replace (ps_proc s p) with (ps_proc s2 p) by congruence. apply slot_to_refl, F2. }
  assert (Hfail : ∀ s3 x, slot_to p x s2 s3 → wlp (freeproc kend proc_base p ;; release (PROC_LOCK p) ;; mret None) Q R s3).
  { intros s3 x S3. apply wlp_bind. eapply freeproc_wlp; [exact S3|]. intros s4 [F4 Hn4 [Hu4 Ho4]]. rewrite (fr_held _ _ _ F2) in F4.
    apply wlp_bind_wp. apply (release_head _ (ps_held s)); [apply F4..|]. intros s5 [F5 Hp5 Hn5 Hk5]. wlp_step. apply H0. split_and!.
    - eapply frame_trans; [exact F12|]. by eapply frame_trans.
    - right. congruence.
    - intros q. rewrite Hp5. destruct (decide (q = p)) as [->|Hq]; [right; eauto|left]. rewrite Ho4 by done. congruence. }
  do 3 slot_step. slot_step. destruct (_ =? 0); [by eapply Hfail|].
  match goal with H : slot_to _ ?x _ _ |- _ => apply (wlp_cut (slot_to p x s2)); [by apply proc_pagetable_wlp|]; clear H end.
  intros pt s9 S9. slot_step. destruct (_ =? 0); [by eapply Hfail|]. do 2 slot_step. wlp_step.
  match goal with H : slot_to _ ?x _ _ |- _ => destruct H as [F4 Hn4 [Hu4 Ho4]]; apply (H1 p x) end. split; try done.
  - rewrite (fr_held _ _ _ F2) in F4. by eapply frame_trans.
  - congruence.
  - split; [done|]. intros q Hq. rewrite Ho4 by done. congruence.
Qed.

(** ** wait *)

(** [wait] returned with the table unchanged but for memory, or reaped [c]. *)
Definition wait_failed (s s' : pstate) : Prop := frame s [] s' ∧ ps_nextpid s' = ps_nextpid s ∧ ∀ q, ps_proc s' q = ps_proc s q.
Definition reaped (p c : Z) (s s' : pstate) : Prop :=
  0 ≤ c < NPROC ∧ p_parent (ps_proc s c) = Some p ∧ p_state (ps_proc s c) = ZOMBIE ∧
  frame s [] s' ∧ ps_nextpid s' = ps_nextpid s ∧ slot_upd c (freed (ps_proc s c)) s s'.
Definition no_zombie_child (p : Z) (l : list Z) (s : pstate) : Prop :=
  ∀ c, c ∈ l → p_parent (ps_proc s c) = Some p → p_state (ps_proc s c) ≠ ZOMBIE.
Definition has_child (p : Z) (l : list Z) (s : pstate) : bool := existsb (λ c, is_child p (ps_proc s c)) l.

Lemma release2_wlp {A} c (v : A) (Q : A → pstate → Prop) R s :
  cpu_ok s → ps_held s = [PROC_LOCK c; WAIT_LOCK] → (∀ s', locks s [] s' → Q v s') →
  wlp (release (PROC_LOCK c) ;; release WAIT_LOCK ;; mret v) Q R s.
Proof.
  intros Hc Hh HQ. apply wlp_bind_wp, (release_head _ [WAIT_LOCK]); [done..|]. intros s1 L1.
  apply wlp_bind_wp, (release_head _ []); [apply L1..|]. intros s2 L2. wlp_step. apply HQ. by eapply locks_trans.
Qed.

Lemma wait_scan_wlp p addr l hk (Q : Z + bool → pstate → Prop) R s :
  cpu_ok s → ps_held s = [WAIT_LOCK] → (∀ c, c ∈ l → 0 ≤ c < NPROC) →
  (∀ s', wait_failed s s' → Q (inl (-1)) s') →
  (∀ c s', reaped p c s s' → Q (inl (p_pid (ps_proc s c))) s') →
  (∀ s', locks s [WAIT_LOCK] s' → no_zombie_child p l s → Q (inr (hk || has_child p l s)) s') →
  wlp (wait_scan kend proc_base p addr l hk) Q R s.
Proof.
  revert s hk. induction l as [|c l IH]; intros s hk Hc Hh Hr Hf Hre Hno; simpl.
  { wlp_step. rewrite <- (orb_false_r hk). apply Hno; [|intros c Hc'; set_solver]. by split. }
  assert (Hlc : ∀ c', c' ∈ l → 0 ≤ c' < NPROC) by (intros; apply Hr; set_solver).
  do 2 p_step. destruct (is_child p (ps_proc s c)) eqn:Ech.
  - apply bool_decide_eq_true in Ech as Hpar. apply wlp_bind_wp, acquire_spec; [done|rewrite Hh; set_solver|]. rewrite Hh. intros s1 L1.
    pose proof L1 as [F1 Hp1 Hn1 Hk1]. do 2 p_step. rewrite Hp1. case_bool_decide as Ez.
    + do 2 p_step. apply (wlp_cut (λ s', slot_to c (ps_proc s c) s1 s')).
      { assert (slot_to c (ps_proc s c) s1 s1) by (rewrite <- Hp1; apply slot_to_refl, F1).
        destruct (_ =? 0); [by wlp_step|]. kern_step. by apply slot_to_k. }
      intros r s2 S2. destruct (_ && _).
      * destruct S2 as [F2 Hn2 [Hu2 Ho2]]. rewrite (fr_held _ _ _ F1) in F2. apply release2_wlp; [apply F2..|]. intros s3 [F3 Hp3 Hn3 Hk3].
        apply Hf. split_and!; [by eapply frame_trans; [|exact F3]; eapply frame_trans|congruence|]. intros q. rewrite Hp3.
        destruct (decide (q = c)) as [->|Hq]; [done|]. rewrite Ho2 by done. by rewrite Hp1.
      * apply wlp_bind. eapply freeproc_wlp; [exact S2|]. intros s3 [F3 Hn3 [Hu3 Ho3]]. rewrite (fr_held _ _ _ F1) in F3.
        apply release2_wlp; [apply F3..|]. intros s4 [F4 Hp4 Hn4 Hk4]. apply Hre.
        refine (conj (Hr c _) (conj Hpar (conj Ez (conj _ (conj _ _))))); [set_solver|by eapply frame_trans; [|exact F4]; eapply frame_trans|congruence|]. split; [by rewrite Hp4|]. intros q Hq. rewrite Hp4, Ho3 by done. by rewrite Hp1.
    + apply wlp_bind_wp, (release_head _ [WAIT_LOCK]); [apply F1..|]. intros s2 L2.
      pose proof (locks_trans _ _ _ _ _ L1 L2) as [F12 Hp12 Hn12 Hk12]. apply IH; [apply F12..|done| | |].
      * intros s' (F'&Hn'&Hp'). apply Hf. split_and!; [by eapply frame_trans|congruence|]. intros q. by rewrite Hp', Hp12.
      * intros c' s' (Hr'&Hpa&Hz&F'&Hn'&[Hu' Ho']). rewrite Hp12 in *. apply Hre.
        refine (conj Hr' (conj Hpa (conj Hz (conj _ (conj _ _))))); [by eapply frame_trans|congruence|]. split; [done|]. intros q Hq. rewrite Ho' by done. done.
      * intros s' L' Hz. unfold has_child in *. rewrite Hp12 in *. simpl in Hno. rewrite Ech in Hno. simpl in *. rewrite orb_true_r in Hno.
        apply Hno; [by eapply locks_trans; [eapply locks_trans|]|]. unfold no_zombie_child in *. rewrite Hp12 in Hz. intros c' [->|?]%elem_of_cons; auto.
  - apply IH; try done. intros s' L' Hz. unfold has_child in *. simpl in Hno. rewrite Ech in Hno. simpl in Hno. apply Hno; [done|].
    intros c' [->|Hc']%elem_of_cons; [|auto]. intros Hpa. apply bool_decide_eq_false in Ech. done.
Qed.

(** A parent with children none of which has exited goes to sleep on its own
    slot; a process without children, or one that was killed, gets -1. *)
Lemma wait_turn_wlp p addr (Q : Z → pstate → Prop) (R : pstate → Prop) s :
  cpu_ok s → ps_held s = [WAIT_LOCK] → c_proc (ps_cpu s) = Some p →
  (∀ s', wait_failed s s' → Q (-1) s') →
  (∀ c s', reaped p c s s' → Q (p_pid (ps_proc s c)) s') →
  (∀ s', no_zombie_child p procs s → has_child p procs s = true →
    gave_up p (set_state SLEEPING ∘ set_chan (proc_addr proc_base p)) s s' → R s') →
  wlp (wait_turn kend proc_base p addr) Q R s.
Proof.
  intros Hc Hh Hp Hf Hre Hsl. unfold wait_turn. apply wlp_bind, wait_scan_wlp; try done.
  - intros c. apply elem_of_procs.
  - intros s1 L1 Hz. pose proof L1 as [F1 Hp1 Hn1 Hk1]. cbv beta iota. rewrite orb_false_l.
    assert (Hret : ∀ s2, locks s [WAIT_LOCK] s2 → wlp (release WAIT_LOCK ;; mret (-1)) Q R s2).
    { intros s2 L2. apply wlp_bind_wp, (release_head _ []); [apply L2..|]. intros s3 L3. wlp_step. apply Hf.
      destruct (locks_trans _ _ _ _ _ L2 L3) as [F3 Hp3 Hn3 Hk3]. split_and!; [done|done|]. intros q. by rewrite Hp3. }
    destruct (has_child p procs s) eqn:Ech.
    + apply wlp_bind_wp, killed_spec; [apply F1|intros q; rewrite (fr_held _ _ _ F1); set_solver|]. intros s2 L2.
      rewrite (fr_held _ _ _ F1) in L2. pose proof (locks_trans _ _ _ _ _ L1 L2) as L12. simpl. destruct (negb _); [by apply Hret|].
      apply wps_wlp, (sleep_spec p); [apply L12|by rewrite (fr_cur _ _ _ (lo_frame _ _ _ L12))|apply L12|done|].
      intros s' (F'&Hn'&Hk'&Hi'&b&Hu'). destruct L12 as [F12 Hp12 Hn12 Hk12]. rewrite Hp12 in Hu'. apply Hsl; try done.
      split_and!; [by eapply frame_trans|congruence|congruence|done|]. exists b. destruct Hu' as [Hu' Ho']. rewrite Hp12 in Ho'. by split.
    + do 2 wlp_step. simpl. by apply Hret.
Qed.

(** ** reparent *)

(** [x'] is [x], or a sleeper other than the running process, woken. *)
Definition nudged (cur : option Z) (q : Z) (x x' : proc) : Prop :=
  x' = x ∨ (Some q ≠ cur ∧ p_state x = SLEEPING ∧ x' = set_state RUNNABLE x).

Lemma woken_nudged chan cur q x : nudged cur q x (woken chan cur q x).
Proof. unfold woken, nudged. case_decide; naive_solver. Qed.
Lemma nudged_trans cur q x y z : nudged cur q x y → nudged cur q y z → nudged cur q x z.
Proof. unfold nudged. intros [->|(?&?&->)] [->|(?&?&->)]; naive_solver. Qed.
Lemma nudged_parent cur q x y i : nudged cur q x y → nudged cur q (set_parent i x) (set_parent i y).
Proof. unfold nudged. intros [->|(?&?&->)]; [by left|by right]. Qed.
Lemma nudged_is_child p cur q x y : nudged cur q x y → is_child p y = is_child p x.
Proof. intros [->|(?&?&->)]; done. Qed.

(** The table [f], with some sleepers woken. *)
Record evolved (s : pstate) (f : Z → proc) (s' : pstate) : Prop := {
  ev_frame : frame s (ps_held s) s';
  ev_next : ps_nextpid s' = ps_nextpid s;
  ev_proc : ∀ q, nudged (c_proc (ps_cpu s)) q (f q) (ps_proc s' q)
}.

Definition reparented (p : Z) (init : option Z) (x : proc) : proc := if is_child p x then set_parent init x else x.

Lemma reparent_loop_spec p l (Q : unit → pstate → Prop) s :
  NoDup l → cpu_ok s → no_proc_lock s →
  (∀ s', evolved s (λ q, if decide (q ∈ l) then reparented p (ps_initproc s) (ps_proc s q) else ps_proc s q) s' → Q tt s') →
  wp (reparent_loop proc_base p l) Q s.
Proof.
  revert s Q. induction l as [|c l IH]; intros s Q Hnd Hc Hn HQ; simpl.
  { apply HQ. split; [by apply frame_refl|done|]. intros q. by left. }
  apply NoDup_cons in Hnd as [Hcl Hnd]. wp_steps.
  assert (Hrest : ∀ s1, evolved s (λ q, if decide (q = c) then reparented p (ps_initproc s) (ps_proc s c) else ps_proc s q) s1 →
    wp (reparent_loop proc_base p l) Q s1).
  { intros s1 [F1 Hn1 Hp1]. apply IH; [done|apply F1|intros q; rewrite (fr_held _ _ _ F1); apply Hn|].
    intros s' [F' Hn' Hp']. apply HQ. rewrite (fr_held _ _ _ F1) in F'. split; [by eapply frame_trans|congruence|]. intros q.
    specialize (Hp1 q). specialize (Hp' q). rewrite (fr_cur _ _ _ F1), (fr_init _ _ _ F1) in Hp'.
    destruct (decide (q = c)) as [->|Hqc].
    - rewrite decide_False in Hp' by done. rewrite decide_True by set_solver. by eapply nudged_trans.
    - destruct (decide (q ∈ l)) as [Hq|Hq].
      + rewrite decide_True by set_solver. unfold reparented in *. rewrite (nudged_is_child p _ _ _ _ Hp1) in Hp'.
        destruct (is_child p (ps_proc s q)); (eapply nudged_trans; [|exact Hp']); [by apply nudged_parent|done].
      + rewrite decide_False by set_solver. by eapply nudged_trans. }
  unfold reparented in Hrest. destruct (is_child p (ps_proc s c)) eqn:Ech.
  - do 4 p_step. apply wakeup_spec; [exact Hc|exact Hn|]. intros s1 M1. apply Hrest. destruct M1 as [F1 Hn1 Hk1 Hp1].
    split; [eapply frame_trans; [|exact F1]; by apply frame_put, frame_refl|done|]. intros q. rewrite Hp1. cbn [ps_proc put_procs ps_cpu].
    assert (E : <[c:=set_parent (ps_initproc s) (ps_proc s c)]> (ps_proc s) q = if decide (q = c) then set_parent (ps_initproc s) (ps_proc s c) else ps_proc s q).
    { destruct (decide (q = c)) as [->|?]; [apply fn_lookup_insert|by apply fn_lookup_insert_ne]. }
    rewrite E. destruct (decide (0 ≤ q < NPROC)); [apply woken_nudged|by left].
  - wp_step. apply Hrest. split; [by apply frame_refl|done|]. intros q. destruct (decide (q = c)) as [->|?]; by left.
Qed.

Lemma reparent_spec p (Q : unit → pstate → Prop) s :
  cpu_ok s → no_proc_lock s →
  (∀ s', evolved s (λ q, if decide (0 ≤ q < NPROC) then reparented p (ps_initproc s) (ps_proc s q) else ps_proc s q) s' → Q tt s') →
  wp (reparent proc_base p) Q s.
Proof.
  intros Hc Hn HQ. apply reparent_loop_spec; [apply NoDup_procs|done..|]. intros s' [F Hx Hp]. apply HQ. split; [done..|].
  intros q. specialize (Hp q). rewrite (decide_ext _ (0 ≤ q < NPROC)) in Hp by apply elem_of_procs. done.
Qed.
End table.
