(* ===== verification/ProcFork.v ===== *)
(** * fork and exit over the file layer

    [FileOpsOk] is what proc.c relies on from file.c, fs.c and log.c: they
    leave the process table alone, except that they may wake sleepers, or put
    the running process to sleep. *)
From S2P Require Import Prelude Kstring Kalloc Vm Proc ProcProps ProcTable.

(** The running process [p] went to sleep inside the file system. *)
Definition slept (p : Z) (s s' : pstate) : Prop :=
  frame s [PROC_LOCK p] s' ∧ ps_nextpid s' = ps_nextpid s ∧
  (∃ c b, ps_proc s' p = set_intena b (set_state SLEEPING (set_chan c (ps_proc s p)))) ∧
  ∀ q, q ≠ p → nudged (Some p) q (ps_proc s q) (ps_proc s' q).

Definition untouched (s s' : pstate) : Prop :=
  frame s (ps_held s) s' ∧ ps_nextpid s' = ps_nextpid s ∧ ∀ q, ps_proc s' q = ps_proc s q.

(** A call that needs no sleep, under any locks ... *)
Definition quiet_op {T A} `{!FileOps T} (m : M T A) : Prop :=
  ∀ t, cpu_ok (t_procs t) → wlp m (λ _ t', untouched (t_procs t) (t_procs t')) (λ _, False) t.
(** ... and one that the running process makes without holding a spin lock. *)
Definition sleepy_op {T A} `{!FileOps T} (m : M T A) : Prop :=
  ∀ t p, cpu_ok (t_procs t) → ps_held (t_procs t) = [] → c_proc (ps_cpu (t_procs t)) = Some p →
    wlp m (λ _ t', evolved (t_procs t) (ps_proc (t_procs t)) (t_procs t')) (λ t', slept p (t_procs t) (t_procs t')) t.

Class FileOpsOk (T : Type) `{!FileOps T} : Prop := {
  t_procs_set : ∀ s t, t_procs (t_set_procs s t) = s;
  filedup_quiet : ∀ f, quiet_op (filedup f);
  idup_quiet : ∀ i, quiet_op (idup i);
  fileclose_sleepy : ∀ f, sleepy_op (fileclose f);
  iput_sleepy : ∀ i, sleepy_op (iput i);
  begin_op_sleepy : sleepy_op begin_op;
  end_op_sleepy : sleepy_op end_op;
  namei_quiet : ∀ path t, cpu_ok (t_procs t) → wlp (namei path) (λ _ t', untouched (t_procs t) (t_procs t')) (λ _, True) t
}.

Section rules.
Context {T : Type} `{!FileOps T} `{!FileOpsOk T}.

Lemma prc_wlp {A} (m : M pstate A) (Q : A → T → Prop) (R : T → Prop) t :
  wlp m (λ a s', ∀ t', t_procs t' = s' → Q a t') (λ s', ∀ t', t_procs t' = s' → R t') (t_procs t) → wlp (prc m) Q R t.
Proof.
  unfold wlp, prc, zoom. destruct (m (t_procs t)); try done; intros H; apply H; apply t_procs_set.
Qed.
Lemma prc_wp {A} (m : M pstate A) (Q : A → T → Prop) (R : T → Prop) t :
  wp m (λ a s', ∀ t', t_procs t' = s' → Q a t') (t_procs t) → wlp (prc m) Q R t.
Proof. intros H. apply prc_wlp, wlp_wp, H. Qed.
Lemma prc_bind {A B} (m : M pstate A) (k : A → M T B) (Q : B → T → Prop) (R : T → Prop) t :
  wp m (λ a s', ∀ t', t_procs t' = s' → wlp (k a) Q R t') (t_procs t) → wlp (prc m ≫= k) Q R t.
Proof. intros H. by apply wlp_bind, prc_wp. Qed.

Lemma tupd_to {A} p x f (k : unit → M T A) (Q : A → T → Prop) R s t :
  slot_to p x s (t_procs t) → (∀ t2, slot_to p (f x) s (t_procs t2) → wlp (k tt) Q R t2) → wlp (prc (upd_proc p f) ≫= k) Q R t.
Proof. intros S1 Hk. apply prc_bind, wp_modify. intros t' Ht. apply Hk. rewrite Ht. by apply slot_to_upd. Qed.
Lemma tkern_to {A B} p x (m : M kstate B) (k : B → M T A) (Q : A → T → Prop) R s t :
  slot_to p x s (t_procs t) → awake m → (∀ b t2, slot_to p x s (t_procs t2) → wlp (k b) Q R t2) → wlp (prc (kern m) ≫= k) Q R t.
Proof.
  intros S1 Hm Hk. apply wlp_bind, prc_wlp, kern_wlp; [done|]. intros b k' t' Ht. apply Hk. rewrite Ht. by apply slot_to_k.
Qed.
Lemma tfield_to {A B} p x (g : proc → B) (k : B → M T A) (Q : A → T → Prop) R s t :
  slot_to p x s (t_procs t) → (∀ t2, slot_to p x s (t_procs t2) → wlp (k (g x)) Q R t2) → wlp (prc (field g p) ≫= k) Q R t.
Proof. intros S1 Hk. pose proof S1 as [_ _ [E _]]. apply prc_bind, wp_gets. rewrite E. intros t' Ht. apply Hk. by rewrite Ht. Qed.
Lemma tread_to {A B} p x (g : pstate → B) (k : B → M T A) (Q : A → T → Prop) R s t :
  slot_to p x s (t_procs t) → (∀ b t2, slot_to p x s (t_procs t2) → wlp (k b) Q R t2) → wlp (prc (gets g) ≫= k) Q R t.
Proof. intros S1 Hk. apply prc_bind, wp_gets. intros t' Ht. apply Hk. by rewrite Ht. Qed.
Lemma quiet_to {A B} p x (m : M T B) (k : B → M T A) (Q : A → T → Prop) R s t :
  quiet_op m → slot_to p x s (t_procs t) → (∀ b t2, slot_to p x s (t_procs t2) → wlp (k b) Q R t2) → wlp (m ≫= k) Q R t.
Proof.
  intros Hm S1 Hk. pose proof S1 as [F Hn [Hu Ho]]. apply wlp_bind. eapply wlp_mono; [apply Hm, F| |done]. cbv beta.
  intros b t2 (F2&Hn2&Hp2). apply Hk. rewrite (fr_held _ _ _ F) in F2. split; [by eapply frame_trans|congruence|].
  split; [by rewrite Hp2|]. intros q Hq. by rewrite Hp2, Ho.
Qed.

End rules.

Ltac t_step :=
  lazymatch goal with
  | H : slot_to ?p _ ?s (t_procs ?t) |- wlp (prc (upd_proc ?p _) ≫= _) _ _ ?t => eapply (tupd_to p _ _ _ _ _ _ _ H); clear H; intros ? ?
  | H : slot_to ?p _ ?s (t_procs ?t) |- wlp (prc (kern _) ≫= _) _ _ ?t =>
      eapply (tkern_to p _ _ _ _ _ _ _ H); [by auto with awake|clear H; intros ? ? ?]
  | H : slot_to ?p _ ?s (t_procs ?t) |- wlp (prc (field _ ?p) ≫= _) _ _ ?t => eapply (tfield_to p _ _ _ _ _ _ _ H); clear H; intros ? ?
  | H : slot_to ?p _ ?s (t_procs ?t) |- wlp (prc (field _ _) ≫= _) _ _ ?t => eapply (tread_to p _ _ _ _ _ _ _ H); clear H; intros ? ? ?
  | H : slot_to ?p _ ?s (t_procs ?t) |- wlp (prc (gets _) ≫= _) _ _ ?t => eapply (tread_to p _ _ _ _ _ _ _ H); clear H; intros ? ? ?
  end; cbv beta.

Section fork.
Context {T : Type} `{!FileOps T} `{!FileOpsOk T}.
Variables (kend trampoline proc_base forkret_addr : Z).

(** What identifies a process and its place in the tree. *)
Definition same_id (x x' : proc) : Prop := p_state x' = p_state x ∧ p_pid x' = p_pid x ∧ p_parent x' = p_parent x.

Lemma dup_files_wlp p np x fd k R s t :
  slot_to np x s (t_procs t) →
  wlp (dup_files p np fd k) (λ _ t', ∃ x', slot_to np x' s (t_procs t') ∧ same_id x x' ∧ p_killed x' = p_killed x) R t.
Proof.
  revert fd x t. induction k as [|k IH]; intros fd x t S1; cbn [dup_files].
  { wlp_step. by exists x. }
  t_step. apply (wlp_cut (λ t', ∃ x', slot_to np x' s (t_procs t') ∧ same_id x x' ∧ p_killed x' = p_killed x)).
  - destruct (_ =? 0); [wlp_step; by exists x|]. eapply quiet_to; [apply filedup_quiet|done|]. intros f t3 S3.
    apply prc_wp, wp_modify. intros t' Ht. exists (set_ofile fd f x). rewrite Ht. split; [by apply slot_to_upd|done].
  - intros _ t3 (x'&S3&(E1&E2&E3)&Ek). eapply wlp_mono; [by eapply IH| |done]. cbv beta.
    intros _ t4 (x''&S4&(E4&E5&E6)&Ek'). exists x''. split; [done|]. split; [split_and!; congruence|by rewrite Ek'].
Qed.

(** [fork] added slot [np], a child of [p]. *)
Definition forked (p np : Z) (s s' : pstate) : Prop :=
  0 ≤ np < NPROC ∧ p_state (ps_proc s np) = UNUSED ∧ frame s [] s' ∧ ps_nextpid s' = s32 (ps_nextpid s + 1) ∧
  ∃ x, slot_upd np x s s' ∧ p_state x = RUNNABLE ∧ p_pid x = ps_nextpid s ∧ p_parent x = Some p ∧
    first_unused procs s np ∧ p_killed x = p_killed (ps_proc s np).

(** The end of [fork]: the child enters the tree and becomes runnable. *)
Lemma fork_end p np x pid (Q : Z → T → Prop) R s t :
  ps_held s = [PROC_LOCK np] → slot_to np x s (t_procs t) →
  (∀ t', frame s [] (t_procs t') → ps_nextpid (t_procs t') = ps_nextpid s →
    slot_upd np (set_state RUNNABLE (set_parent (Some p) x)) s (t_procs t') → Q pid t') →
  wlp (prc (release (PROC_LOCK np)) ;; prc (acquire WAIT_LOCK) ;; prc (upd_proc np (set_parent (Some p))) ;;
       prc (release WAIT_LOCK) ;; prc (acquire (PROC_LOCK np)) ;; prc (upd_proc np (set_state RUNNABLE)) ;;
       prc (release (PROC_LOCK np)) ;; mret pid) Q R t.
Proof.
  intros Hh [F0 Hn0 [Hu0 Ho0]] HQ. rewrite Hh in F0.
  apply prc_bind, (release_head _ []); [apply F0..|]. intros s1 [F1 Hp1 Hn1 _] t1 <-.
  apply prc_bind, acquire_spec; [apply F1|rewrite (fr_held _ _ _ F1); set_solver|]. rewrite (fr_held _ _ _ F1). intros s2 [F2 Hp2 Hn2 _] t2 <-.
  apply prc_bind, wp_modify. intros t3 Ht3.
  apply prc_bind. rewrite Ht3. apply (release_head _ []); [apply (frame_put _ _ _ _ F2)..|]. intros s4 [F4 Hp4 Hn4 _] t4 <-.
  apply prc_bind, acquire_spec; [apply F4|rewrite (fr_held _ _ _ F4); set_solver|]. rewrite (fr_held _ _ _ F4). intros s5 [F5 Hp5 Hn5 _] t5 <-.
  apply prc_bind, wp_modify. intros t6 Ht6.
  apply prc_bind. rewrite Ht6. apply (release_head _ []); [apply (frame_put _ _ _ _ F5)..|]. intros s7 [F7 Hp7 Hn7 _] t7 <-.
  wlp_step. cbn [ps_proc put_procs ps_nextpid] in *. apply HQ.
  - eapply frame_trans; [|exact F7]. apply frame_put. eapply frame_trans; [|exact F5]. eapply frame_trans; [|exact F4]. apply frame_put.
    eapply frame_trans; [|exact F2]. by eapply frame_trans.
  - congruence.
  - split.
    + rewrite Hp7, fn_lookup_insert, Hp5, Hp4, fn_lookup_insert, Hp2, Hp1, Hu0. done.
    + intros q Hq. rewrite Hp7, fn_lookup_insert_ne, Hp5, Hp4, fn_lookup_insert_ne, Hp2, Hp1, Ho0 by done. done.
Qed.

Lemma fork_wlp p (Q : Z → T → Prop) R t s :
  t_procs t = s → cpu_ok s → ps_held s = [] → c_proc (ps_cpu s) = Some p →
  (∀ t', alloc_failed s (t_procs t') → Q (-1) t') →
  (∀ np t', forked p np s (t_procs t') → Q (ps_nextpid s) t') →
  wlp (fork kend trampoline proc_base forkret_addr) Q R t.
Proof.
  intros Ht Hc Hh Hp H0 H1. unfold fork. apply prc_bind. rewrite Ht. apply (curproc_spec p); [done..|]. intros s1 [F1 Hp1 Hn1 _] t1 <-. rewrite Hh in F1.
  pose proof (fr_held _ _ _ F1) as Hh1.
  apply wlp_bind, prc_wlp, allocproc_wlp; [apply F1|intros q; rewrite Hh1; set_solver|rewrite Hh1; set_solver| |].
  { intros s2 (F2&Hn2&Hp2) t2 Ht2. wlp_step. apply H0. rewrite Ht2. rewrite Hh1 in F2. rewrite Hp1, Hn1 in *.
    split_and!; [rewrite Hh; by eapply frame_trans|done|]. done. }
  intros np x s2 [Hr Hun Hfst F2 Hn2 Hu2 Hst Hpid Hpar Hkl] t2 Ht2. rewrite Hh1 in F2. unfold first_unused in Hfst. rewrite Hp1 in Hun, Hfst, Hkl. rewrite Hn1 in *.
  destruct Hu2 as [Hu2 Ho2]. assert (S2 : slot_to np x s2 (t_procs t2)) by (rewrite Ht2, <- Hu2; apply slot_to_refl, F2).
  pose proof (frame_trans _ _ _ _ _ F1 F2) as F12. cbv beta iota. rewrite Hp1 in Ho2. do 3 t_step. destruct (_ <? 0).
  - apply wlp_bind, prc_wlp. eapply freeproc_wlp; [done|]. intros s3 [F3 Hn3 [Hu3 Ho3]] u3 <-. rewrite (fr_held _ _ _ F2) in F3.
    apply prc_bind, (release_head _ []); [apply F3..|]. intros s4 [F4 Hp4 Hn4 _] u4 <-. wlp_step. apply H0. split_and!.
    + rewrite Hh. eapply frame_trans; [exact F12|]. by eapply frame_trans.
    + right. congruence.
    + intros q. rewrite Hp4. destruct (decide (q = np)) as [->|Hq]; [right; eauto|left]. rewrite Ho3, Ho2 by done. done.
  - do 4 t_step. eapply wlp_bind, wlp_mono; [by eapply dup_files_wlp| |done]. cbv beta. intros _ u3 (x3&S3&(E1&E2&E3)&Ek).
    t_step. apply (wlp_cut (λ t', slot_to np x3 s2 (t_procs t'))).
    { match goal with |- wlp (match ?o with _ => _ end) _ _ _ => destruct o; [|apply wlp_panic] end. eapply quiet_to; [apply idup_quiet|done|]. intros i u5 S5. by wlp_step. }
    intros cwd u5 S5. do 3 t_step. simpl p_pid. rewrite E2. simpl p_pid. rewrite Hpid. eapply fork_end; [apply F2|done|].
    intros t' F' Hn' [Hu' Ho']. apply (H1 np). unfold forked. split; [done|]. split; [done|]. split; [by eapply frame_trans|].
    split; [congruence|]. eexists. split; [split; [exact Hu'|]|].
    { intros q Hq. rewrite Ho' by done. by rewrite Ho2. }
    split_and!; [done| |done|done|]; simpl in *; congruence.
Qed.

(** ** exit *)

(** While [p] closes its files: its identity stays, others may be woken. *)
Definition exiting (p : Z) (s s' : pstate) : Prop :=
  frame s [] s' ∧ ps_nextpid s' = ps_nextpid s ∧ same_id (ps_proc s p) (ps_proc s' p) ∧
  ∀ q, q ≠ p → nudged (Some p) q (ps_proc s q) (ps_proc s' q).
(** It went to sleep there. *)
Definition exit_slept (p : Z) (s s' : pstate) : Prop :=
  frame s [PROC_LOCK p] s' ∧ ps_nextpid s' = ps_nextpid s ∧
  p_state (ps_proc s' p) = SLEEPING ∧ p_pid (ps_proc s' p) = p_pid (ps_proc s p) ∧ p_parent (ps_proc s' p) = p_parent (ps_proc s p) ∧
  ∀ q, q ≠ p → nudged (Some p) q (ps_proc s q) (ps_proc s' q).
(** It is a zombie, and its children belong to init. *)
Definition exited (p : Z) (s s' : pstate) : Prop :=
  frame s [PROC_LOCK p] s' ∧ ps_nextpid s' = ps_nextpid s ∧
  p_state (ps_proc s' p) = ZOMBIE ∧ p_pid (ps_proc s' p) = p_pid (ps_proc s p) ∧
  (p_parent (ps_proc s p) ≠ Some p → p_parent (ps_proc s' p) = p_parent (ps_proc s p)) ∧
  ∀ q, q ≠ p → nudged (Some p) q
    (if decide (0 ≤ q < NPROC) then reparented p (ps_initproc s) (ps_proc s q) else ps_proc s q) (ps_proc s' q).

Lemma exiting_upd p f s s' :
  exiting p s s' → (∀ x, same_id x (f x)) → exiting p s (put_procs (<[p := f (ps_proc s' p)]> (ps_proc s')) s').
Proof.
  intros (F&Hn&(E1&E2&E3)&Ho) Hf. split_and!; [by apply frame_put|done| |].
  - cbn [ps_proc put_procs]. rewrite fn_lookup_insert. destruct (Hf (ps_proc s' p)) as (?&?&?). split_and!; congruence.
  - intros q Hq. cbn [ps_proc put_procs]. rewrite fn_lookup_insert_ne by done. auto.
Qed.

Lemma sleepy_exiting {B} p (m : M T B) (R : T → Prop) s t :
  sleepy_op m → c_proc (ps_cpu s) = Some p → exiting p s (t_procs t) →
  (∀ t', exit_slept p s (t_procs t') → R t') → wlp m (λ _ t', exiting p s (t_procs t')) R t.
Proof.
  intros Hm Hp (F&Hn&(E1&E2&E3)&Ho) HR. pose proof (fr_cur _ _ _ F) as Hcur. rewrite Hp in Hcur.
  eapply wlp_mono; [apply (Hm t p); [apply F..|done]| |]; cbv beta.
  - intros b t' [F' Hn' Hp']. rewrite (fr_held _ _ _ F), Hcur in *. split_and!; [by eapply frame_trans|congruence| |].
    + destruct (Hp' p) as [->|(?&_)]; done.
    + intros q Hq. eapply nudged_trans; [by apply Ho|apply Hp'].
  - intros t' (F'&Hn'&(c&b&Hpp)&Ho'). apply HR. unfold exit_slept. rewrite Hpp. split_and!; try done; [by eapply frame_trans|congruence|].
    intros q Hq. eapply nudged_trans; [by apply Ho|by apply Ho'].
Qed.

Lemma close_files_wlp p fd k (R : T → Prop) s t :
  c_proc (ps_cpu s) = Some p → exiting p s (t_procs t) → (∀ t', exit_slept p s (t_procs t') → R t') →
  wlp (close_files p fd k) (λ _ t', exiting p s (t_procs t')) R t.
Proof.
  intros Hp. revert fd t. induction k as [|k IH]; intros fd t He HR; cbn [close_files]; [by wlp_step|].
  apply prc_bind, wp_gets. intros t1 Ht1. rewrite <- Ht1 in He. apply (wlp_cut (λ t', exiting p s (t_procs t'))).
  - destruct (_ =? 0); [by wlp_step|]. eapply wlp_cut; [apply (sleepy_exiting p); [apply fileclose_sleepy|done..]|]. cbv beta. intros _ t2 He2.
    apply prc_wp, wp_modify. intros t3 Ht3. rewrite Ht3. by apply exiting_upd.
  - intros _ t2 He2. by apply IH.
Qed.

(** The end of [exit]: the children go to init, and the process switches away
    as a zombie. *)
Lemma exit_end {A} p status (Q : A → T → Prop) (R : T → Prop) s t :
  c_proc (ps_cpu s) = Some p → 0 ≤ p < NPROC → exiting p s (t_procs t) → (∀ t', exited p s (t_procs t') → R t') →
  wlp (prc (acquire WAIT_LOCK) ;; prc (reparent proc_base p) ;; parent ← prc (field p_parent p);
    prc (wakeup (match parent with Some q => proc_addr proc_base q | None => 0 end)) ;;
    prc (acquire (PROC_LOCK p)) ;; prc (kern (upd_mem (λ m, store32 m (xstate_addr proc_base p) status))) ;;
    prc (upd_proc p (set_state ZOMBIE)) ;; prc (release WAIT_LOCK) ;; prc sched) Q R t.
Proof.
  intros Hp Hrp (F0&Hn0&(E1&E2&E3)&Ho0) HR. pose proof (fr_held _ _ _ F0) as Hh0.
  apply prc_bind, acquire_spec; [apply F0|rewrite Hh0; set_solver|]. rewrite Hh0. intros s1 [F1 Hp1 Hn1 _] t1 <-.
  apply prc_bind, reparent_spec; [apply F1|intros q; rewrite (fr_held _ _ _ F1); set_solver|]. intros s2 [F2 Hn2 Hp2] t2 <-.
  rewrite (fr_held _ _ _ F1) in F2. rewrite (fr_cur _ _ _ F1), (fr_cur _ _ _ F0), Hp, (fr_init _ _ _ F1), (fr_init _ _ _ F0), Hp1 in Hp2.
  apply prc_bind, wp_gets. intros t3 Ht3. rewrite <- Ht3 in *.
  apply prc_bind, wakeup_spec; [apply F2|intros q; rewrite (fr_held _ _ _ F2); set_solver|]. intros s4 [F4 Hn4 Hk4 Hp4] t4 <-.
  rewrite (fr_held _ _ _ F2) in F4. rewrite (fr_cur _ _ _ F2), (fr_cur _ _ _ F1), (fr_cur _ _ _ F0), Hp in Hp4.
  apply prc_bind, acquire_spec; [apply F4|rewrite (fr_held _ _ _ F4); set_solver|]. rewrite (fr_held _ _ _ F4). intros s5 [F5 Hp5 Hn5 _] t5 <-.
  apply wlp_bind, prc_wlp, kern_wlp; [by auto with awake|]. intros _ k5 t6 Ht6.
  apply prc_bind, wp_modify. intros t7 Ht7.
  assert (F7 : frame s [PROC_LOCK p; WAIT_LOCK] (t_procs t7)).
  { rewrite Ht7, Ht6. apply frame_put, frame_k. eapply frame_trans; [exact F0|]. eapply frame_trans; [exact F1|]. eapply frame_trans; [exact F2|].
    by eapply frame_trans. }
  assert (Hp7 : ∀ q, ps_proc (t_procs t7) q = if decide (q = p) then set_state ZOMBIE (ps_proc (t_procs t4) p) else ps_proc (t_procs t4) q).
  { intros q. rewrite Ht7, Ht6. cbn [ps_proc put_procs set_k]. rewrite Hp5.
    destruct (decide (q = p)) as [->|?]; [apply fn_lookup_insert|by apply fn_lookup_insert_ne]. }
  assert (Hn7 : ps_nextpid (t_procs t7) = ps_nextpid s) by (rewrite Ht7, Ht6; simpl; congruence).
  clear Ht7 Ht6 t6 k5 F5 Hp5 Hn5 t5.
  assert (Ep : ps_proc (t_procs t4) p = reparented p (ps_initproc s) (ps_proc (t_procs t) p)).
  { rewrite Hp4, decide_True by done. destruct (Hp2 p) as [->|(?&_)]; [|done]. rewrite decide_True by done. unfold woken.
    rewrite decide_False; [done|]. by intros [? _]. }
  assert (Eo : ∀ q, q ≠ p → nudged (Some p) q
    (if decide (0 ≤ q < NPROC) then reparented p (ps_initproc s) (ps_proc s q) else ps_proc s q) (ps_proc (t_procs t4) q)).
  { intros q Hq. rewrite Hp4. specialize (Hp2 q). specialize (Ho0 q Hq). destruct (decide (0 ≤ q < NPROC)) as [Hr|Hr].
    - eapply nudged_trans; [|apply woken_nudged]. eapply nudged_trans; [|exact Hp2]. unfold reparented.
      rewrite (nudged_is_child p _ _ _ _ Ho0). destruct (is_child p _); [by apply nudged_parent|done].
    - by eapply nudged_trans. }
  apply prc_bind. apply (release_spec WAIT_LOCK [PROC_LOCK p] []); [apply F7..|]. intros s8 [F8 Hp8 Hn8 _] t8 <-.
  apply prc_wlp, wps_wlp, (sched_spec p); [apply F8|by rewrite (fr_cur _ _ _ F8), (fr_cur _ _ _ F7)|apply F8| |].
  { rewrite Hp8, Hp7, decide_True by done. done. }
  intros s9 (F9&Hn9&_&_&b&[Hu9 Ho9]) t9 <-. apply HR. unfold exited. rewrite Hp8, Hp7, decide_True, Ep in Hu9 by done. rewrite Hu9.
  split_and!; [by eapply frame_trans; [exact F7|eapply frame_trans]|congruence|done|..].
  - unfold reparented. destruct (is_child _ _); simpl; congruence.
  - intros Hpp. unfold reparented, is_child. rewrite bool_decide_eq_false_2; simpl; congruence.
  - intros q Hq. rewrite Ho9, Hp8, Hp7 by done. rewrite (decide_False (P := q = p)) by done. auto.
Qed.

Lemma exit_wlp {A} p status (Q : A → T → Prop) (R : T → Prop) t s :
  t_procs t = s → cpu_ok s → ps_held s = [] → c_proc (ps_cpu s) = Some p → 0 ≤ p < NPROC →
  (∀ t', exit_slept p s (t_procs t') → R t') →
  (∀ t', ps_initproc s ≠ Some p → exited p s (t_procs t') → R t') →
  wlp (exit proc_base status) Q R t.
Proof.
  intros Ht Hc Hh Hp Hrp Hsl HR. unfold exit. apply prc_bind. rewrite Ht. apply (curproc_spec p); [done..|]. intros s1 [F1 Hp1 Hn1 _] t1 <-.
  rewrite Hh in F1. apply prc_bind, wp_gets. intros t2 Ht2. rewrite (fr_init _ _ _ F1).
  assert (He : exiting p s (t_procs t2)).
  { rewrite Ht2. split_and!; [done|done|by rewrite Hp1|]. intros q _. left. by rewrite Hp1. }
  case_bool_decide as Hi; [apply wlp_panic|]. clear dependent t1.
  eapply wlp_cut; [by apply (close_files_wlp p)|]. cbv beta. intros _ t3 He3.
  eapply wlp_cut; [apply (sleepy_exiting p); [apply begin_op_sleepy|done..]|]. cbv beta. intros _ t4 He4.
  apply prc_bind, wp_gets. intros t5 Ht5. rewrite <- Ht5 in *.
  eapply wlp_cut; [destruct (p_cwd _); [|apply wlp_panic]; apply (sleepy_exiting p); [apply iput_sleepy|done..]|]. cbv beta. intros _ t6 He6.
  eapply wlp_cut; [apply (sleepy_exiting p); [apply end_op_sleepy|done..]|]. cbv beta. intros _ t7 He7.
  apply prc_bind, wp_modify. intros t8 Ht8. apply (exit_end p status _ _ s); [done..| |auto].
  rewrite Ht8. by apply exiting_upd.
Qed.
End fork.
