(* ===== verification/ProcInv.v ===== *)
(** * The process table's invariant

    [pstep] lets the scheduler and the running process take turns: the
    scheduler enters and leaves processes, a process resumes where it switched
    out, and makes any of the calls of proc.c or of the file layer.  The
    invariant: pids are unique, the process tree is rooted in init and every
    parent is alive, unused slots are clear but for a stray [killed], and the only running process is the
    hart's. *)
From S2P Require Import Prelude Kstring Kalloc Vm Proc ProcProps ProcTable ProcFork.

Definition alive (st : procstate) : bool :=
  match st with SLEEPING | RUNNABLE | RUNNING => true | _ => false end.

(** A slot nobody uses; [kill(0)] may have marked it. *)
Definition vacant (x : proc) : Prop := x = set_killed (p_killed x) (freed x).

Record ptable_ok (s : pstate) : Prop := {
  pt_unused : ∀ q, 0 ≤ q < NPROC → p_state (ps_proc s q) = UNUSED → vacant (ps_proc s q);
  pt_used : ∀ q, 0 ≤ q < NPROC → p_state (ps_proc s q) ≠ USED;
  pt_pid : ∀ q, 0 ≤ q < NPROC → p_state (ps_proc s q) ≠ UNUSED → 0 < p_pid (ps_proc s q) < ps_nextpid s;
  pt_unique : ∀ q r, 0 ≤ q < NPROC → 0 ≤ r < NPROC → p_state (ps_proc s q) ≠ UNUSED → p_state (ps_proc s r) ≠ UNUSED →
    p_pid (ps_proc s q) = p_pid (ps_proc s r) → q = r;
  pt_parent : ∀ q r, 0 ≤ q < NPROC → p_parent (ps_proc s q) = Some r →
    0 ≤ r < NPROC ∧ alive (p_state (ps_proc s r)) = true ∧ p_pid (ps_proc s r) < p_pid (ps_proc s q);
  pt_child : ∀ q, 0 ≤ q < NPROC → p_state (ps_proc s q) ≠ UNUSED → ps_initproc s ≠ Some q → p_parent (ps_proc s q) ≠ None;
  pt_init : ∃ i, ps_initproc s = Some i ∧ 0 ≤ i < NPROC ∧ alive (p_state (ps_proc s i)) = true ∧
    ∀ q, 0 ≤ q < NPROC → p_state (ps_proc s q) ≠ UNUSED → q ≠ i → p_pid (ps_proc s i) < p_pid (ps_proc s q)
}.

(** Who holds the CPU: the scheduler, a process that runs (perhaps not yet
    past the scheduler's lock), or one that has just switched out. *)
Record sched_ok (s : pstate) : Prop := {
  so_cpu : cpu_ok s;
  so_running : ∀ q, 0 ≤ q < NPROC → p_state (ps_proc s q) = RUNNING → c_proc (ps_cpu s) = Some q;
  so_idle : c_proc (ps_cpu s) = None → ps_held s = [];
  so_cur : ∀ p, c_proc (ps_cpu s) = Some p → 0 ≤ p < NPROC ∧ p_state (ps_proc s p) ≠ UNUSED ∧
    (ps_held s = [PROC_LOCK p] ∨ ps_held s = [] ∧ p_state (ps_proc s p) = RUNNING)
}.
Definition pinv (s : pstate) : Prop := ptable_ok s ∧ sched_ok s.

(** A change of a slot that moves nobody in the tree. *)
Definition soft (x x' : proc) : Prop :=
  p_pid x' = p_pid x ∧ p_parent x' = p_parent x ∧ (p_state x' = p_state x ∨ alive (p_state x) = true ∧ alive (p_state x') = true) ∧
  (p_state x = UNUSED → vacant x').

Lemma alive_not st : alive st = true → st ≠ UNUSED ∧ st ≠ USED ∧ st ≠ ZOMBIE.
Proof. by destruct st. Qed.

Lemma soft_unused x x' : soft x x' → p_state x' = UNUSED ↔ p_state x = UNUSED.
Proof. intros (_&_&[->|[H1 H2]]&_); [done|]. apply alive_not in H1, H2. naive_solver. Qed.
Lemma soft_alive x x' : soft x x' → alive (p_state x') = alive (p_state x).
Proof. intros (_&_&[->|[H1 H2]]&_); [done|congruence]. Qed.

Lemma ptable_soft s s' :
  ptable_ok s → (∀ q, 0 ≤ q < NPROC → soft (ps_proc s q) (ps_proc s' q)) → ps_initproc s' = ps_initproc s →
  ps_nextpid s ≤ ps_nextpid s' → ptable_ok s'.
Proof.
  intros Hok Hs Hi Hn. assert (Hu : ∀ q, 0 ≤ q < NPROC → p_state (ps_proc s' q) = UNUSED ↔ p_state (ps_proc s q) = UNUSED).
  { intros q Hq. apply soft_unused, Hs, Hq. }
  split.
  - intros q Hq E. apply (Hs q Hq). by apply Hu.
  - intros q Hq E. pose proof (pt_used s Hok q Hq). destruct (Hs q Hq) as (_&_&[E'|[E1 E2]]&_); [congruence|].
    apply alive_not in E2. naive_solver.
  - intros q Hq E. destruct (Hs q Hq) as (-> & _). pose proof (pt_pid s Hok q Hq). rewrite Hu in E by done. specialize (H E). lia.
  - intros q r Hq Hr E1 E2. destruct (Hs q Hq) as (-> & _). destruct (Hs r Hr) as (-> & _). rewrite Hu in E1, E2 by done.
    by apply (pt_unique s Hok).
  - intros q r Hq. destruct (Hs q Hq) as (->&->&_). intros E. destruct (pt_parent s Hok q r Hq E) as (Hr&Ha&Hlt).
    destruct (Hs r Hr) as (->&_). split; [done|]. by rewrite (soft_alive _ _ (Hs r Hr)).
  - intros q Hq E. destruct (Hs q Hq) as (_&->&_). rewrite Hi. rewrite Hu in E by done. by apply (pt_child s Hok).
  - destruct (pt_init s Hok) as (i&Ei&Hr&Ha&Hmin). exists i. rewrite Hi, (soft_alive _ _ (Hs i Hr)). split; [done|]. split; [done|].
    split; [done|]. intros q Hq E Hqi. destruct (Hs q Hq) as (->&_). destruct (Hs i Hr) as (->&_). rewrite Hu in E by done. auto.
Qed.

Definition clear_if_unused (x : proc) : Prop := p_state x = UNUSED → vacant x.
Lemma soft_refl x : clear_if_unused x → soft x x.
Proof. intros Hx. split_and!; auto. Qed.
Lemma nudged_soft cur q x x' : clear_if_unused x → nudged cur q x x' → soft x x'.
Proof.
  intros Hx [->|(_&E&->)]; [by apply soft_refl|]. split_and!; simpl; try done; [|congruence]. right. by rewrite E.
Qed.
Lemma nudged_running cur q x x' : nudged cur q x x' → p_state x' = RUNNING → p_state x = RUNNING.
Proof. by intros [->|(_&_&->)]. Qed.

(** The running process acts: it stays or leaves, and the other slots change
    softly without starting to run. *)
Lemma pinv_move s s' p L :
  pinv s → c_proc (ps_cpu s) = Some p → frame s L s' → ps_nextpid s ≤ ps_nextpid s' →
  soft (ps_proc s p) (ps_proc s' p) → (L = [PROC_LOCK p] ∨ L = [] ∧ p_state (ps_proc s' p) = RUNNING) →
  (∀ q, q ≠ p → 0 ≤ q < NPROC → soft (ps_proc s q) (ps_proc s' q) ∧ (p_state (ps_proc s' q) = RUNNING → p_state (ps_proc s q) = RUNNING)) →
  pinv s'.
Proof.
  intros [Hok Hso] Hp F Hn Hsp HL Ho. destruct (so_cur s Hso p Hp) as (Hr&Hu&_). split.
  - apply (ptable_soft s); [done| |apply F|done]. intros q Hq. destruct (decide (q = p)) as [->|Hqp]; [done|by apply Ho].
  - split; rewrite ?(fr_cur _ _ _ F), ?(fr_held _ _ _ F), ?Hp.
    + apply F.
    + intros q Hq E. destruct (decide (q = p)) as [->|Hqp]; [done|]. destruct (Ho q Hqp Hq) as [_ Hrun].
      apply (so_running s Hso) in Hrun; [|done..]. congruence.
    + done.
    + intros p' [= <-]. split; [done|]. split; [|done]. by rewrite (soft_unused _ _ Hsp).
Qed.

Lemma ok_clear s q : ptable_ok s → 0 ≤ q < NPROC → clear_if_unused (ps_proc s q).
Proof. intros Hok Hq. intros E. by apply (pt_unused s Hok). Qed.

Lemma evolved_pinv s s' p :
  pinv s → c_proc (ps_cpu s) = Some p → ps_held s = [] → evolved s (ps_proc s) s' → pinv s'.
Proof.
  intros Hi Hp Hh [F Hn Ho]. pose proof Hi as [Hok Hso]. destruct (so_cur s Hso p Hp) as (Hr&Hu&Hrun). rewrite Hp in Ho.
  assert (Hpp : ps_proc s' p = ps_proc s p) by (destruct (Ho p) as [->|(?&_)]; done).
  eapply (pinv_move s s' p); try done; [lia|..].
  - rewrite Hpp. apply soft_refl. by apply (ok_clear s).
  - rewrite Hh, Hpp. right. destruct Hrun as [E|[_ E]]; [by rewrite Hh in E|done].
  - intros q Hq Hqr. split; [eapply nudged_soft; [|apply Ho]; by apply (ok_clear s)|]. by eapply nudged_running.
Qed.

Lemma out_pinv s s' p x :
  pinv s → c_proc (ps_cpu s) = Some p → frame s [PROC_LOCK p] s' → ps_nextpid s' = ps_nextpid s →
  ps_proc s' p = x → soft (ps_proc s p) x →
  (∀ q, q ≠ p → nudged (Some p) q (ps_proc s q) (ps_proc s' q)) → pinv s'.
Proof.
  intros Hi Hp F Hn Hpp Hs Ho. pose proof Hi as [Hok Hso]. eapply (pinv_move s s' p); try done; [lia|by rewrite Hpp|by left|].
  intros q Hq Hqr. split; [eapply nudged_soft; [|by apply Ho]; by apply (ok_clear s)|]. by eapply nudged_running, Ho.
Qed.

Lemma gave_up_pinv s s' p f :
  pinv s → c_proc (ps_cpu s) = Some p → alive (p_state (ps_proc s p)) = true →
  (∀ x, p_pid (f x) = p_pid x ∧ p_parent (f x) = p_parent x ∧ alive (p_state (f x)) = true) → gave_up p f s s' → pinv s'.
Proof.
  intros Hi Hp Ha Hf (F&Hn&_&_&b&[Hu Ho]). destruct (Hf (ps_proc s p)) as (?&?&?). eapply out_pinv; try done.
  - split_and!; simpl; try done; [by right|]. intros E. by rewrite E in Ha.
  - intros q Hq. left. auto.
Qed.

(** Fields of the slot [q] other than state, pid and parent may change. *)
Lemma slot_soft_pinv s s' p q x :
  pinv s → c_proc (ps_cpu s) = Some p → ps_held s = [] → frame s [] s' → ps_nextpid s' = ps_nextpid s →
  (0 ≤ q < NPROC → soft (ps_proc s q) x ∧ p_state x = p_state (ps_proc s q) ∨
    soft (ps_proc s q) x ∧ q ≠ p ∧ p_state x ≠ RUNNING) → slot_upd q x s s' → pinv s'.
Proof.
  intros Hi Hp Hh F Hn Hx [Hu Ho]. pose proof Hi as [Hok Hso]. destruct (so_cur s Hso p Hp) as (Hr&Hun&Hrun).
  assert (Hrun' : p_state (ps_proc s p) = RUNNING) by (destruct Hrun as [E|[_ E]]; [by rewrite Hh in E|done]).
  assert (Hself : ∀ r, 0 ≤ r < NPROC → soft (ps_proc s r) (ps_proc s r)) by (intros r Hr'; apply soft_refl; by apply (ok_clear s)).
  eapply (pinv_move s s' p []); try done; [lia|..].
  - destruct (decide (p = q)) as [->|Hpq]; [rewrite Hu; destruct (Hx Hr) as [[? _]|[? _]]; done|rewrite Ho by done; auto].
  - right. split; [done|]. destruct (decide (p = q)) as [->|Hpq]; [|by rewrite Ho]. rewrite Hu.
    destruct (Hx Hr) as [[_ E]|(_&?&_)]; [congruence|done].
  - intros r Hrp Hrr. destruct (decide (r = q)) as [->|Hrq]; [|rewrite Ho by done; auto]. rewrite Hu.
    destruct (Hx Hrr) as [[? ->]|(?&_&?)]; done.
Qed.

(** ** The calls that change the tree *)

Section tree.
Context (s s' : pstate) (p : Z) (Hi : pinv s) (Hp : c_proc (ps_cpu s) = Some p) (Hh : ps_held s = []).

Lemma cur_running : 0 ≤ p < NPROC ∧ p_state (ps_proc s p) = RUNNING.
Proof using Hi Hp Hh. destruct Hi as [_ Hso]. destruct (so_cur s Hso p Hp) as (Hr&_&[E|[_ E]]); [by rewrite Hh in E|done]. Qed.

Lemma alloc_failed_pinv : ps_nextpid s + 1 < 2 ^ 31 → alloc_failed s s' → pinv s'.
Proof using Hi Hp Hh.
  intros Hb (F&Hn&Ho). destruct cur_running as [Hr Hrun]. pose proof Hi as [Hok Hso].
  assert (Hpos : 0 < ps_nextpid s).
  { destruct (pt_init s Hok) as (i&_&Hir&Ha&_). apply alive_not in Ha as (Hu&_). pose proof (pt_pid s Hok i Hir Hu). lia. }
  assert (ps_nextpid s ≤ ps_nextpid s') by (destruct Hn as [-> | ->]; [lia|rewrite swrap_small; lia]).
  assert (Hsoft : ∀ q, 0 ≤ q < NPROC → soft (ps_proc s q) (ps_proc s' q) ∧ p_state (ps_proc s' q) = p_state (ps_proc s q)).
  { intros q Hq. destruct (Ho q) as [-> | [Hu (x&->)]]; [split; [by apply soft_refl, ok_clear|done]|].
    pose proof (pt_unused s Hok q Hq Hu) as E. unfold vacant in E. rewrite E. split; [split_and!; simpl; auto; done|done]. }
  rewrite Hh in F. eapply (pinv_move s s' p []); try done.
  - by apply Hsoft.
  - right. split; [done|]. by rewrite (proj2 (Hsoft p Hr)).
  - intros q _ Hq. destruct (Hsoft q Hq) as [? ->]. done.
Qed.

Lemma forked_pinv np : ps_nextpid s + 1 < 2 ^ 31 → forked p np s s' → pinv s'.
Proof using Hi Hp Hh.
  intros Hb (Hrn&Hun&F&Hn&x&[Hu Ho]&Est&Epid&Epar&_). destruct cur_running as [Hr Hrun]. pose proof Hi as [Hok Hso].
  assert (Hpos : 0 < ps_nextpid s).
  { destruct (pt_init s Hok) as (i&_&Hir&Ha&_). apply alive_not in Ha as (Hu'&_). pose proof (pt_pid s Hok i Hir Hu'). lia. }
  rewrite swrap_small in Hn by lia. assert (Hnp : p ≠ np) by congruence.
  assert (Hpid : ∀ q, 0 ≤ q < NPROC → p_state (ps_proc s q) ≠ UNUSED → p_pid (ps_proc s q) ≠ ps_nextpid s).
  { intros q Hq E. pose proof (pt_pid s Hok q Hq E). lia. }
  split; [split|split]; rewrite ?(fr_init _ _ _ F), ?(fr_cur _ _ _ F), ?(fr_held _ _ _ F), ?Hn.
  - intros q Hq. destruct (decide (q = np)) as [->|Hqn]; [rewrite Hu; congruence|rewrite Ho by done; by apply (pt_unused s Hok)].
  - intros q Hq. destruct (decide (q = np)) as [->|Hqn]; [rewrite Hu; congruence|rewrite Ho by done; by apply (pt_used s Hok)].
  - intros q Hq. destruct (decide (q = np)) as [->|Hqn]; [rewrite Hu; intros _; lia|rewrite Ho by done; intros E].
    pose proof (pt_pid s Hok q Hq E). lia.
  - intros q r Hq Hqr. destruct (decide (q = np)) as [->|Hqn], (decide (r = np)) as [->|Hrn']; try done; rewrite ?Hu; rewrite ?Ho by done.
    + intros _ E1 E2. destruct (Hpid r Hqr E1). congruence.
    + intros E1 _ E2. destruct (Hpid q Hq E1). congruence.
    + by apply (pt_unique s Hok).
  - intros q r Hq E. assert (Hr' : 0 ≤ r < NPROC ∧ alive (p_state (ps_proc s r)) = true ∧ p_pid (ps_proc s r) < p_pid (ps_proc s' q)).
    { destruct (decide (q = np)) as [->|Hqn]; [|rewrite Ho in E |- * by done; by apply (pt_parent s Hok q)].
      rewrite Hu, Epar in E. injection E as <-. rewrite Hrun, Hu, Epid. split; [done|]. split; [done|]. apply (pt_pid s Hok); congruence. }
    rewrite (Ho r); [done|]. intros ->. destruct Hr' as (_&Ha&_). by rewrite Hun in Ha.
  - intros q Hq. destruct (decide (q = np)) as [->|Hqn]; [by rewrite Hu, Epar|rewrite Ho by done; by apply (pt_child s Hok)].
  - destruct (pt_init s Hok) as (i&Ei&Hir&Ha&Hmin). exists i. assert (i ≠ np) by (intros ->; by rewrite Hun in Ha). rewrite (Ho i) by done.
    split; [done|]. split; [done|]. split; [done|]. intros q Hq. destruct (decide (q = np)) as [->|Hqn]; [|rewrite Ho by done; auto].
    intros _ _. rewrite Hu, Epid. apply (pt_pid s Hok); [done|]. by apply alive_not in Ha as [? _].
  - apply F.
  - intros q Hq. destruct (decide (q = np)) as [->|Hqn]; [rewrite Hu; congruence|rewrite Ho by done; by apply (so_running s Hso)].
  - done.
  - intros q. rewrite Hp. intros [= <-]. split; [done|]. rewrite Ho by done. split; [congruence|by right].
Qed.

Lemma reaped_pinv c : reaped p c s s' → pinv s'.
Proof using Hi Hp Hh.
  intros (Hrc&Epar&Ez&F&Hn&[Hu Ho]). destruct cur_running as [Hr Hrun]. pose proof Hi as [Hok Hso]. assert (Hpc : p ≠ c) by congruence.
  assert (Hnc : ∀ q r, 0 ≤ q < NPROC → p_parent (ps_proc s q) = Some r → r ≠ c).
  { intros q r Hq E ->. destruct (pt_parent s Hok q c Hq E) as (_&Ha&_). by rewrite Ez in Ha. }
  split; [split|split]; rewrite ?(fr_init _ _ _ F), ?(fr_cur _ _ _ F), ?(fr_held _ _ _ F), ?Hn.
  - intros q Hq. destruct (decide (q = c)) as [->|Hqn]; [by rewrite Hu|rewrite Ho by done; by apply (pt_unused s Hok)].
  - intros q Hq. destruct (decide (q = c)) as [->|Hqn]; [by rewrite Hu|rewrite Ho by done; by apply (pt_used s Hok)].
  - intros q Hq. destruct (decide (q = c)) as [->|Hqn]; [by rewrite Hu|rewrite Ho by done; by apply (pt_pid s Hok)].
  - intros q r Hq Hqr. destruct (decide (q = c)) as [->|Hqn]; [by rewrite Hu|]. destruct (decide (r = c)) as [->|Hrc']; [by rewrite Hu|].
    rewrite !Ho by done. by apply (pt_unique s Hok).
  - intros q r Hq. destruct (decide (q = c)) as [->|Hqn]; [by rewrite Hu|]. rewrite Ho by done. intros E.
    rewrite Ho by (by eapply Hnc). by apply (pt_parent s Hok q).
  - intros q Hq. destruct (decide (q = c)) as [->|Hqn]; [by rewrite Hu|]. rewrite Ho by done. by apply (pt_child s Hok).
  - destruct (pt_init s Hok) as (i&Ei&Hir&Ha&Hmin). exists i. rewrite (Ho i) by (intros ->; by rewrite Ez in Ha). split; [done|]. split; [done|].
    split; [done|]. intros q Hq. destruct (decide (q = c)) as [->|Hqn]; [by rewrite Hu|rewrite Ho by done; auto].
  - apply F.
  - intros q Hq. destruct (decide (q = c)) as [->|Hqn]; [by rewrite Hu|rewrite Ho by done; by apply (so_running s Hso)].
  - done.
  - intros q. rewrite Hp. intros [= <-]. split; [done|]. rewrite Ho by done. split; [congruence|by right].
Qed.

(** What [exit] did to the slots, without the details of who woke. *)
Lemma exited_facts i :
  ps_initproc s = Some i → i ≠ p → exited p s s' →
  (∀ q, 0 ≤ q < NPROC → clear_if_unused (ps_proc s' q) ∧ (p_state (ps_proc s' q) = UNUSED ↔ p_state (ps_proc s q) = UNUSED) ∧
     p_state (ps_proc s' q) ≠ USED ∧ p_pid (ps_proc s' q) = p_pid (ps_proc s q) ∧
     (q ≠ p → alive (p_state (ps_proc s' q)) = alive (p_state (ps_proc s q)) ∧ (p_state (ps_proc s' q) = RUNNING → p_state (ps_proc s q) = RUNNING)) ∧
     (p_parent (ps_proc s' q) = p_parent (ps_proc s q) ∧ p_parent (ps_proc s q) ≠ Some p ∨
      q ≠ p ∧ p_parent (ps_proc s' q) = Some i ∧ p_parent (ps_proc s q) = Some p)).
Proof using Hi Hp Hh.
  intros Ei Hip (F&Hn&Ez&Epid&Epar&Ho). destruct cur_running as [Hr Hrun]. pose proof Hi as [Hok Hso].
  assert (Hnp : p_parent (ps_proc s p) ≠ Some p).
  { intros E. destruct (pt_parent s Hok p p Hr E) as (_&_&?). lia. }
  intros q Hqr. destruct (decide (q = p)) as [->|Hqp].
  { unfold clear_if_unused. rewrite Ez, Hrun, Epar by done. split_and!; try done. by left. }
  specialize (Ho q Hqp). rewrite decide_True in Ho by done. set (x := reparented p (ps_initproc s) (ps_proc s q)) in *.
  assert (Hx : p_state x = p_state (ps_proc s q) ∧ p_pid x = p_pid (ps_proc s q)) by (unfold x, reparented; by destruct (is_child _ _)).
  destruct Hx as [Hx1 Hx2].
  assert (Hcl : clear_if_unused x).
  { intros E. rewrite Hx1 in E. assert (E2 := pt_unused s Hok q Hqr E). unfold x, reparented.
    destruct (is_child p (ps_proc s q)) eqn:Ec; [|done]. apply bool_decide_eq_true in Ec. by rewrite E2 in Ec. }
  assert (Hs : soft x (ps_proc s' q)) by (by eapply nudged_soft). split_and!.
  - intros E. apply Hs. by apply (soft_unused _ _ Hs).
  - rewrite (soft_unused _ _ Hs). by rewrite Hx1.
  - pose proof (pt_used s Hok q Hqr). intros E. destruct Hs as (_&_&[E'|[_ E']]&_); [congruence|by rewrite E in E'].
  - destruct Hs as (->&_). done.
  - intros _. rewrite (soft_alive _ _ Hs), Hx1. split; [done|]. intros E. rewrite <- Hx1. by eapply nudged_running.
  - destruct Hs as (_&->&_). unfold x, reparented. destruct (is_child p (ps_proc s q)) eqn:Ec.
    + apply bool_decide_eq_true in Ec. by right.
    + apply bool_decide_eq_false in Ec. by left.
Qed.

Lemma exited_pinv : ps_initproc s ≠ Some p → exited p s s' → pinv s'.
Proof using Hi Hp Hh.
  intros Hni He. destruct cur_running as [Hr Hrun]. pose proof Hi as [Hok Hso].
  destruct (pt_init s Hok) as (i&Ei&Hir&Ha&Hmin). assert (Hip : i ≠ p) by congruence.
  pose proof (exited_facts i Ei Hip He) as Hx. destruct He as (F&Hn&Ez&_).
  assert (Hpid : ∀ q, 0 ≤ q < NPROC → p_pid (ps_proc s' q) = p_pid (ps_proc s q)) by (intros q Hq; apply (Hx q Hq)).
  assert (Hun : ∀ q, 0 ≤ q < NPROC → p_state (ps_proc s' q) = UNUSED ↔ p_state (ps_proc s q) = UNUSED) by (intros q Hq; apply (Hx q Hq)).
  assert (Hal : ∀ q, 0 ≤ q < NPROC → q ≠ p → alive (p_state (ps_proc s' q)) = alive (p_state (ps_proc s q))) by (intros q Hq Hqp; by apply (Hx q Hq)).
  split; [split|split]; rewrite ?(fr_init _ _ _ F), ?(fr_cur _ _ _ F), ?(fr_held _ _ _ F), ?Hn.
  - intros q Hq. apply (Hx q Hq).
  - intros q Hq. apply (Hx q Hq).
  - intros q Hq E. rewrite Hpid by done. apply (pt_pid s Hok); [done|]. by rewrite <- Hun.
  - intros q r Hq Hrr E1 E2. rewrite !Hpid by done. rewrite Hun in E1, E2 by done. by apply (pt_unique s Hok).
  - intros q r Hq E. rewrite (Hpid q) by done. destruct (Hx q Hq) as (_&_&_&_&_&[[E' Hnp]|(Hqp&E'&Ec)]); rewrite E' in E.
    + destruct (pt_parent s Hok q r Hq E) as (Hrr&Hra&Hlt). assert (r ≠ p) by congruence. rewrite Hpid, Hal by done. done.
    + injection E as <-. rewrite Hpid, Hal by done. split; [done|]. split; [done|]. destruct (pt_parent s Hok q p Hq Ec) as (_&_&Hlt).
      assert (p_pid (ps_proc s i) < p_pid (ps_proc s p)) by (apply Hmin; congruence). lia.
  - intros q Hq E Hqi. destruct (Hx q Hq) as (_&_&_&_&_&[[-> _]|(_&->&_)]); [|done]. apply (pt_child s Hok); [done| |done]. by rewrite <- Hun.
  - exists i. rewrite Hal, Hpid by done. split; [done|]. split; [done|]. split; [done|]. intros q Hq E Hqi. rewrite Hpid by done.
    apply Hmin; [done| |done]. by rewrite <- Hun.
  - apply F.
  - intros q Hq E. destruct (decide (q = p)) as [->|Hqp]; [congruence|]. apply (so_running s Hso); [done|]. by apply (Hx q Hq).
  - by rewrite Hp.
  - intros q. rewrite Hp. intros [= <-]. split; [done|]. split; [congruence|by left].
Qed.
End tree.
