(* ===== verification/Crit.v ===== *)
(** * The invariant while a process runs in the kernel

    [crit p L]: process [p] runs, holding the spin locks [L] (none of them a
    process's lock), and the table's invariant holds but for those locks.  The
    functions of proc.c take [crit] to [crit], or leave the invariant to the
    scheduler. *)
From S2P Require Import Prelude Kstring Kalloc Vm Proc ProcProps ProcTable ProcFork ProcInv.

(** The same table, seen without the spin locks the running process holds. *)
Definition unlocked (s : pstate) : pstate := set_held [] (set_cpu (put_noff 0 (ps_cpu s)) s).

Record crit (p : Z) (L : list lockid) (s : pstate) : Prop := {
  cr_inv : pinv (unlocked s);
  cr_cpu : cpu_ok s;
  cr_cur : c_proc (ps_cpu s) = Some p;
  cr_held : ps_held s = L;
  cr_locks : no_proc_lock s
}.

Lemma frame_unlocked s L s' : frame s L s' → frame (unlocked s) L s'.
Proof. intros [? ? ? ? ?]. by split. Qed.
Lemma unlocked_cpu s : cpu_ok (unlocked s).
Proof. split; [done|]. split; [done|apply NoDup_nil_2]. Qed.
Lemma unlocked_frame s L s' : frame s L s' → frame (unlocked s) [] (unlocked s').
Proof. intros [? ? ? ? ?]. split; [done..|apply unlocked_cpu]. Qed.

Section crit.
Context (p : Z).

Lemma crit_running L s : crit p L s → 0 ≤ p < NPROC ∧ p_state (ps_proc s p) = RUNNING.
Proof. intros Hc. apply (cur_running (unlocked s) p); [apply Hc|apply (cr_cur _ _ _ Hc)|done]. Qed.
Lemma crit_ok L s : crit p L s → ptable_ok s.
Proof. intros Hc. destruct (cr_inv _ _ _ Hc) as [Hok _]. apply (ptable_soft (unlocked s)); try done. intros q Hq. by apply soft_refl, (ok_clear (unlocked s)). Qed.

(** The other slots change softly, and [p] keeps running. *)
Lemma crit_move L L' s s' :
  crit p L s → frame s L' s' → (∀ q, PROC_LOCK q ∉ L') → ps_nextpid s ≤ ps_nextpid s' →
  (∀ q, 0 ≤ q < NPROC → soft (ps_proc s q) (ps_proc s' q) ∧ (p_state (ps_proc s' q) = RUNNING ↔ p_state (ps_proc s q) = RUNNING)) →
  crit p L' s'.
Proof.
  intros Hc F HL Hn Ho. destruct (crit_running _ _ Hc) as [Hr Hrun]. split.
  - apply (pinv_move (unlocked s) (unlocked s') p []); [apply Hc|apply (cr_cur _ _ _ Hc)|by eapply unlocked_frame|done|by apply Ho|..].
    + right. split; [done|]. simpl. by apply (proj2 (Ho p Hr)).
    + intros q _ Hq. destruct (Ho q Hq) as [? ?]. simpl. tauto.
  - apply F.
  - rewrite (fr_cur _ _ _ F). apply (cr_cur _ _ _ Hc).
  - apply F.
  - intros q. rewrite (fr_held _ _ _ F). apply HL.
Qed.

Lemma crit_same L L' s s' :
  crit p L s → frame s L' s' → (∀ q, PROC_LOCK q ∉ L') → ps_nextpid s' = ps_nextpid s → (∀ q, ps_proc s' q = ps_proc s q) → crit p L' s'.
Proof.
  intros Hc F HL Hn Hp. eapply crit_move; try done; [lia|]. intros q Hq. rewrite Hp. split; [|done]. apply soft_refl, ok_clear; [by eapply crit_ok|done].
Qed.
Lemma crit_locks_of L s q : crit p L s → PROC_LOCK q ∉ L.
Proof. intros Hc. rewrite <- (cr_held _ _ _ Hc). apply Hc. Qed.

Lemma crit_evolved L s s' : crit p L s → evolved s (ps_proc s) s' → crit p L s'.
Proof.
  intros Hc [F Hn Ho]. rewrite (cr_held _ _ _ Hc) in F. eapply crit_move; try done; [intros q; by eapply crit_locks_of|lia|].
  intros q Hq. specialize (Ho q). rewrite (cr_cur _ _ _ Hc) in Ho. split; [eapply nudged_soft; [|exact Ho]; apply ok_clear; [by eapply crit_ok|done]|].
  destruct Ho as [->|(_&E&->)]; [done|]. simpl. rewrite E. done.
Qed.

Lemma crit_pinv s : crit p [] s → pinv s.
Proof.
  intros Hc. destruct (crit_running _ _ Hc) as [Hr Hrun]. pose proof (cr_inv _ _ _ Hc) as [Hok Hso]. split; [by eapply crit_ok|].
  split; [apply Hc| | |].
  - intros q Hq E. by apply (so_running _ Hso).
  - rewrite (cr_cur _ _ _ Hc). done.
  - intros q Hq. destruct (so_cur _ Hso q Hq) as (?&?&[?|[_ ?]]); [done|]. split; [done|]. split; [done|]. right. split; [apply Hc|done].
Qed.
Lemma pinv_crit s : pinv s → c_proc (ps_cpu s) = Some p → ps_held s = [] → crit p [] s.
Proof.
  intros Hi Hp Hh. destruct (cur_running s p Hi Hp Hh) as [Hr Hrun]. pose proof Hi as [Hok Hso].
  split; [|apply Hso|done|done|intros q; rewrite Hh; apply not_elem_of_nil].
  apply (pinv_move s (unlocked s) p []); try done.
  - split; [done..|apply unlocked_cpu].
  - by apply soft_refl, (ok_clear s).
  - by right.
  - intros q _ Hq. split; [by apply soft_refl, (ok_clear s)|done].
Qed.
(** What is true after a call that ran without locks. *)
Lemma frame_crit s s' : pinv s' → c_proc (ps_cpu s) = Some p → frame s [] s' → crit p [] s'.
Proof. intros Hi Hp F. apply pinv_crit; [done|by rewrite (fr_cur _ _ _ F)|apply F]. Qed.
End crit.

(** ** Families of assertions

    What the kernel's code leaves alone while a process runs: assertions on the
    table, by the locks held, that survive locks, memory and wakeups; [R] holds
    once the process has gone to sleep.  [o] is the process, or [None] in the
    scheduler. *)
Record stable (o : option Z) (P : list lockid → pstate → Prop) (R : pstate → Prop) : Prop := {
  st_cpu : ∀ L s, P L s → cpu_ok s ∧ c_proc (ps_cpu s) = o ∧ ps_held s = L;
  st_no_lock : ∀ L s, P L s → no_proc_lock s;
  st_locks : ∀ L s L' s', P L s → locks s L' s' → (∀ q, PROC_LOCK q ∉ L') → P L' s';
  st_k : ∀ L s k, P L s → P L (set_k k s);
  st_nudge : ∀ L s s', P L s → evolved s (ps_proc s) s' → P L s';
  st_sleep : ∀ p lk c s s', o = Some p → P [lk] s → gave_up p (set_state SLEEPING ∘ set_chan c) s s' → R s'
}.

Section stable.
Context (o : option Z) (P : list lockid → pstate → Prop) (R : pstate → Prop) (Hst : stable o P R).
Context (L : list lockid) (s : pstate) (HP : P L s).

Lemma st_held : ps_held s = L.
Proof using Hst HP. by apply (st_cpu _ _ _ Hst) in HP as (_&_&?). Qed.
Lemma st_cpu_ok : cpu_ok s.
Proof using Hst HP. by apply (st_cpu _ _ _ Hst) in HP as (?&_). Qed.
Lemma st_cur : c_proc (ps_cpu s) = o.
Proof using Hst HP. by apply (st_cpu _ _ _ Hst) in HP as (_&?&_). Qed.
Lemma st_free : no_proc_lock s.
Proof using Hst HP. by eapply st_no_lock. Qed.
Lemma st_lo s' : locks s (ps_held s) s' → P L s'.
Proof using Hst HP. rewrite st_held. intros H. apply (st_locks _ _ _ Hst L s); try done. intros q. rewrite <- st_held. apply st_free. Qed.
Hint Resolve st_cpu_ok st_cur st_free st_lo : core.

Lemma acquire_st l R' : (∀ q, l ≠ PROC_LOCK q) → wlp (acquire l) (λ _, P (l :: L)) R' s.
Proof using Hst HP.
  intros Hl. destruct (decide (l ∈ ps_held s)) as [Hin|Hin].
  - unfold acquire, push_off, intr_get, intr_off, upd_cpu, holding. wlp_steps. rewrite bool_decide_eq_true_2 by done. apply wlp_panic.
  - apply wlp_wp, acquire_spec; [done..|]. rewrite st_held. intros s' H. apply (st_locks _ _ _ Hst _ _ _ _ HP H).
    intros q [E|E]%elem_of_cons; [by destruct (Hl q)|]. rewrite <- st_held in E. by apply st_free in E.
Qed.
Lemma release_st l L1 R' : L = l :: L1 → wlp (release l) (λ _, P L1) R' s.
Proof using Hst HP.
  intros E. apply wlp_wp, (release_head _ L1); [done|by rewrite st_held|]. intros s' H. apply (st_locks _ _ _ Hst _ _ _ _ HP H).
  intros q Hq. apply (st_free q). rewrite st_held, E. by right.
Qed.
Lemma curproc_st p R' : o = Some p → wlp curproc (λ r s', r = p ∧ P L s') R' s.
Proof using Hst HP. intros Ho. apply wlp_wp, (curproc_spec p); auto. by rewrite st_cur. Qed.
Lemma myproc_st R' : wlp myproc (λ r s', r = o ∧ P L s') R' s.
Proof using Hst HP. apply wlp_wp, myproc_spec; [done|]. rewrite st_cur. auto. Qed.
Lemma kern_st {A} (m : M kstate A) R' : awake m → wlp (kern m) (λ _, P L) R' s.
Proof using Hst HP. intros Hm. apply kern_wlp; [done|]. intros a k. by eapply st_k. Qed.
Lemma wakeup_st chan R' : wlp (wakeup chan) (λ _, P L) R' s.
Proof using Hst HP.
  apply wlp_wp, wakeup_spec; [done..|]. intros s' [F Hn Hk Hpr]. apply (st_nudge _ _ _ Hst L s); [done|]. split; [done..|].
  intros q. rewrite Hpr. destruct (decide (0 ≤ q < NPROC)); [apply woken_nudged|by left].
Qed.
Lemma killed_st q R' : wlp (killed q) (λ _, P L) R' s.
Proof using Hst HP. apply wlp_wp, killed_spec; auto. Qed.
Lemma sleep_st {A} p chan lk (Q : A → pstate → Prop) : o = Some p → L = [lk] → wlp (sleep chan lk) Q R s.
Proof using Hst HP.
  intros Ho E. apply wps_wlp, (sleep_spec p); [done|by rewrite st_cur|by rewrite st_held, E|intros ->; apply (st_free p); rewrite st_held, E; by left|].
  intros s' G. eapply (st_sleep _ _ _ Hst p lk); [done|by rewrite <- E|done].
Qed.
End stable.

(** ** The functions of proc.c *)

Section ops.
Context (p : Z) (L : list lockid) (s : pstate) (Hc : crit p L s).

Lemma crit_lo L' s' : locks s L' s' → (∀ q, PROC_LOCK q ∉ L') → crit p L' s'.
Proof using Hc. intros [F Hp Hn _] HL. eapply crit_same; try done. by rewrite Hp. Qed.
Lemma crit_locks s' : locks s (ps_held s) s' → crit p L s'.
Proof using Hc. rewrite (cr_held _ _ _ Hc). intros H. apply (crit_lo _ _ H). intros q. by eapply crit_locks_of. Qed.
Lemma crit_k k : crit p L (set_k k s).
Proof using Hc.
  eapply crit_same; [done|apply frame_k| |done..]; [rewrite <- (cr_held _ _ _ Hc); apply frame_refl, Hc|intros q; by eapply crit_locks_of].
Qed.
(** A slot changes without moving in the tree. *)
Lemma crit_slot q x s' :
  frame s (ps_held s) s' → ps_nextpid s' = ps_nextpid s → ps_proc s' q = x → (∀ r, r ≠ q → ps_proc s' r = ps_proc s r) →
  (0 ≤ q < NPROC → soft (ps_proc s q) x ∧ (p_state x = RUNNING ↔ p_state (ps_proc s q) = RUNNING)) → crit p L s'.
Proof using Hc.
  rewrite (cr_held _ _ _ Hc). intros F Hn Hx Ho Hs. eapply crit_move; try done; [intros r; by eapply crit_locks_of|lia|].
  intros r Hr. destruct (decide (r = q)) as [->|Hrq]; [rewrite Hx; auto|]. rewrite Ho by done. split; [|done].
  apply soft_refl, ok_clear; [by eapply crit_ok|done].
Qed.
Lemma crit_upd f : (∀ x, same_id x (f x)) → crit p L (put_procs (<[p := f (ps_proc s p)]> (ps_proc s)) s).
Proof using Hc.
  intros Hf. destruct (crit_running _ _ _ Hc) as [Hr Hrun]. destruct (Hf (ps_proc s p)) as (E1&E2&E3).
  eapply crit_slot; [apply upd_proc_frame, Hc|done|apply fn_lookup_insert|intros r Hr'; by apply fn_lookup_insert_ne|].
  intros _. rewrite E1. split; [|done]. split_and!; [done|done|by left|congruence].
Qed.
Lemma crit_mapped s' : mapped s (ps_proc s) s' → crit p L s'.
Proof using Hc.
  intros [F Hn _ Hp]. rewrite (cr_held _ _ _ Hc) in F. eapply crit_same; try done. intros q. by eapply crit_locks_of.
Qed.

Lemma setkilled_crit R : wlp (setkilled p) (λ _, crit p L) R s.
Proof using Hc.
  destruct (crit_running _ _ _ Hc) as [Hr Hrun]. apply wlp_wp, setkilled_spec; [apply Hc|apply Hc|]. intros s' [F Hn Hk Hpr].
  eapply (crit_slot p); [done..|intros r Hr'; rewrite Hpr; by rewrite decide_False|].
  intros _. rewrite Hpr, decide_True by done. simpl. split; [|done]. split_and!; [done|done|by left|congruence].
Qed.
Lemma kill_crit pid R : wlp (kill pid) (λ _, crit p L) R s.
Proof using Hc.
  pose proof (crit_ok _ _ _ Hc) as Hok. destruct (crit_running _ _ _ Hc) as [Hr Hrun].
  apply wlp_wp, kill_spec; [apply Hc|apply Hc|]. intros s' v M. destruct v as [[i w]|]; simpl in M; [|by apply crit_mapped].
  destruct M as [F Hn Hk Hpr]. apply (crit_slot w (kill_upd (ps_proc s w))); try done.
  - rewrite Hpr. unfold kill_table. by rewrite decide_True.
  - intros r Hr'. rewrite Hpr. unfold kill_table. rewrite decide_False by congruence. done.
  - intros Hw. unfold kill_upd. destruct (decide _) as [E|E]; simpl.
    + rewrite E. split; [|done]. unfold soft; simpl; rewrite E; naive_solver.
    + split; [|done]. unfold soft; split_and!; [done|done|by left|]. intros E'.
      pose proof (pt_unused s Hok w Hw E') as Ev. unfold vacant in *. by rewrite Ev.
Qed.
End ops.

Lemma crit_stable p : stable (Some p) (crit p) pinv.
Proof.
  split.
  - intros L s Hc. split; [apply Hc|]. split; [apply (cr_cur _ _ _ Hc)|apply Hc].
  - intros L s Hc. apply Hc.
  - intros L s L' s' Hc Hl Hn. by eapply crit_lo.
  - intros L s k Hc. by apply crit_k.
  - intros L s s'. apply crit_evolved.
  - intros ? lk c s s' [= <-] Hc (F&Hn&Hk&Hin&b&Hu). destruct (crit_running _ _ _ Hc) as [Hr Hrun].
    apply (gave_up_pinv (unlocked s) s' p (set_state SLEEPING ∘ set_chan c)); [apply Hc|apply (cr_cur _ _ _ Hc)|simpl; by rewrite Hrun|done|].
    split_and!; try done; [by apply frame_unlocked|]. by exists b.
Qed.

(** In the scheduler, no process runs. *)
Record idle (L : list lockid) (s : pstate) : Prop := {
  id_inv : pinv (unlocked s);
  id_cpu : cpu_ok s;
  id_cur : c_proc (ps_cpu s) = None;
  id_held : ps_held s = L;
  id_locks : no_proc_lock s
}.
Lemma idle_ok L s : idle L s → ptable_ok s.
Proof.
  intros Hc. destruct (id_inv _ _ Hc) as [Hok _]. apply (ptable_soft (unlocked s)); try done. intros q Hq. by apply soft_refl, (ok_clear (unlocked s)).
Qed.
Lemma idle_move L L' s s' :
  idle L s → frame s L' s' → (∀ q, PROC_LOCK q ∉ L') → ps_nextpid s ≤ ps_nextpid s' →
  (∀ q, nudged None q (ps_proc s q) (ps_proc s' q)) → idle L' s'.
Proof.
  intros Hc F HL Hn Ho. pose proof (id_inv _ _ Hc) as [Hok Hso]. pose proof (id_cur _ _ Hc) as Hcur.
  assert (Hcur' : c_proc (ps_cpu s') = None) by (by rewrite (fr_cur _ _ _ F)).
  assert (Hs : ∀ q, 0 ≤ q < NPROC → soft (ps_proc s q) (ps_proc s' q)).
  { intros q Hq. eapply nudged_soft; [|apply Ho]. apply ok_clear; [by eapply idle_ok|done]. }
  split; [|apply F|done|apply F|intros q; by rewrite (fr_held _ _ _ F)].
  split; [apply (ptable_soft (unlocked s)); try done; apply F|split]; simpl; try done; [apply unlocked_cpu| |].
  - intros q Hq E. apply (nudged_running _ _ _ _ (Ho q)) in E. apply (so_running _ Hso q Hq) in E. simpl in E. congruence.
  - intros q. by rewrite Hcur'.
Qed.
Lemma idle_stable R : stable None idle R.
Proof.
  split.
  - intros L s Hc. split; [apply Hc|]. split; [apply (id_cur _ _ Hc)|apply (id_held _ _ Hc)].
  - intros L s Hc. apply (id_locks _ _ Hc).
  - intros L s L' s' Hc [F Hp Hn _] HL. eapply idle_move; try done; [lia|]. rewrite Hp. intros q. by left.
  - intros L s k Hc. eapply (idle_move L); [done|apply frame_k; rewrite <- (id_held _ _ Hc); apply frame_refl, Hc| |done|intros q; by left].
    intros q. rewrite <- (id_held _ _ Hc). apply (id_locks _ _ Hc).
  - intros L s s' Hc [F Hn Ho]. rewrite (id_cur _ _ Hc) in Ho. rewrite (id_held _ _ Hc) in F. eapply idle_move; try done; [|lia].
    intros q. rewrite <- (id_held _ _ Hc). apply (id_locks _ _ Hc).
  - done.
Qed.
Lemma idle_pinv s : idle [] s → pinv s.
Proof.
  intros Hc. destruct (id_inv _ _ Hc) as [Hok Hso]. split; [by eapply idle_ok|]. split; [apply Hc|apply Hso|intros _; apply Hc|].
  rewrite (id_cur _ _ Hc). done.
Qed.
Lemma pinv_idle s : pinv s → c_proc (ps_cpu s) = None → idle [] s.
Proof.
  intros [Hok Hso] Hp. pose proof (so_idle s Hso Hp) as Hh. split; [|apply Hso|done|done|intros q; rewrite Hh; apply not_elem_of_nil].
  split; [apply (ptable_soft s); try done; intros q Hq; by apply soft_refl, (ok_clear s)|].
  split; [apply unlocked_cpu|apply Hso|done|simpl; rewrite Hp; done].
Qed.
Lemma idle_intr s b : idle [] s → idle [] (set_cpu (put_intr b (ps_cpu s)) s).
Proof.
  intros Hc. destruct (id_cpu _ _ Hc) as (Hn&_&Hnd). pose proof (id_held _ _ Hc) as Hh.
  assert (F : frame s [] (set_cpu (put_intr b (ps_cpu s)) s)) by (by split).
  eapply (idle_move []); try done; [|intros q; by left]. intros q. apply not_elem_of_nil.
Qed.

(** The table as the file layer leaves it, seen from where the call began. *)
Definition grown (p : Z) (s0 : pstate) (L : list lockid) (s : pstate) : Prop :=
  frame s0 L s ∧ ps_nextpid s = ps_nextpid s0 ∧ (∀ q, nudged (Some p) q (ps_proc s0 q) (ps_proc s q)) ∧
  c_proc (ps_cpu s0) = Some p ∧ no_proc_lock s.

Lemma grown_stable p s0 : stable (Some p) (grown p s0) (slept p s0).
Proof.
  split.
  - intros L s (F&_&_&Hp&_). split; [apply F|]. split; [by rewrite (fr_cur _ _ _ F)|apply F].
  - intros L s G. apply G.
  - intros L s L' s' (F&Hn&Ho&Hp&Hl) [F' Hp' Hn' _] HL. split_and!; try done; [by eapply frame_trans|congruence|by rewrite Hp'|].
    intros q. by rewrite (fr_held _ _ _ F').
  - intros L s k (F&Hn&Ho&Hp&Hl). split_and!; try done. by apply frame_k.
  - intros L s s' (F&Hn&Ho&Hp&Hl) [F' Hn' Ho']. rewrite (fr_held _ _ _ F) in F'. split_and!; try done; [by eapply frame_trans|congruence| |].
    + intros q. specialize (Ho q). specialize (Ho' q). rewrite (fr_cur _ _ _ F), Hp in Ho'. by eapply nudged_trans.
    + intros q. rewrite (fr_held _ _ _ F'), <- (fr_held _ _ _ F). apply Hl.
  - intros ? lk c s s' [= <-] (F&Hn&Ho&Hp&Hl) (F'&Hn'&_&_&b&[Hu Ho']). split_and!; [by eapply frame_trans|congruence| |].
    + exists c, b. rewrite Hu. simpl. destruct (Ho p) as [->|(?&_)]; done.
    + intros q Hq. rewrite Ho' by done. apply Ho.
Qed.

(** ** Calls without locks, and what follows [sched] *)

Section calls.
Variables (kend proc_base p : Z).

Lemma wait_turn_crit addr s : crit p [WAIT_LOCK] s → wlp (wait_turn kend proc_base p addr) (λ _, crit p []) pinv s.
Proof.
  intros Hc. pose proof (cr_inv _ _ _ Hc) as Hi. pose proof (cr_cur _ _ _ Hc) as Hp. destruct (crit_running _ _ _ Hc) as [Hr Hrun].
  apply wait_turn_wlp; [apply Hc|apply (cr_held _ _ _ Hc)|done| | |].
  - intros s' (F&Hn&Ho). eapply crit_same; try done. intros q. apply not_elem_of_nil.
  - intros c s' (?&?&?&F&Hn&Hu). apply (frame_crit p s); [|done..]. apply (reaped_pinv (unlocked s) s' p Hi Hp eq_refl c).
    refine (conj H (conj H0 (conj H1 (conj (frame_unlocked _ _ _ F) (conj Hn Hu))))).
  - intros s' _ _ G. by eapply (st_sleep _ _ _ (crit_stable p)).
Qed.
Lemma wait_crit addr s : crit p [] s → wlp (wait kend proc_base addr) (λ _, crit p []) pinv s.
Proof.
  intros Hc. unfold wait. eapply wlp_bind, wlp_mono; [by apply (curproc_st _ _ _ (crit_stable p) [])| |done]. intros ? s1 [-> H1].
  eapply wlp_bind, wlp_mono; [by apply (acquire_st _ _ _ (crit_stable p) [])| |done]. intros ? s2 H2. by apply wait_turn_crit.
Qed.
Lemma yield_crit {A} (Q : A → pstate → Prop) s : crit p [] s → wlp yield Q pinv s.
Proof.
  intros Hc. destruct (crit_running _ _ _ Hc) as [Hr Hrun].
  apply wps_wlp, (yield_spec p); [apply Hc|apply (cr_cur _ _ _ Hc)|apply Hc|]. intros s' Hg.
  apply (gave_up_pinv s s' p (set_state RUNNABLE)); [by eapply crit_pinv|apply (cr_cur _ _ _ Hc)|by rewrite Hrun|done..].
Qed.
Lemma growproc_crit n s : crit p [] s → wlp (growproc kend n) (λ _, crit p []) pinv s.
Proof.
  intros Hc. unfold growproc. eapply wlp_bind, wlp_mono; [by apply (curproc_st _ _ _ (crit_stable p) [])| |done]. intros ? s1 [-> H1].
  do 4 p_step.
  assert (Hend : ∀ z s, crit p [] s → wlp (upd_proc p (set_sz z) ;; mret 0) (λ _, crit p []) pinv s).
  { intros z s2 H2. do 3 p_step. by apply crit_upd. }
  destruct (n >? 0); [|destruct (n <? 0)]; [..|by apply Hend];
    (eapply wlp_bind, wlp_mono; [apply (kern_st _ _ _ (crit_stable p) [] s1 H1); by auto with awake| |done]; intros z s2 H2; cbv beta).
  - destruct (_ =? 0); [by wlp_step|by apply Hend].
  - by apply Hend.
Qed.

(** Resuming, still under the lock the scheduler took. *)
Section entered.
Context (s : pstate) (Hi : pinv s) (Hp : c_proc (ps_cpu s) = Some p).
Context (Hh : ps_held s = [PROC_LOCK p]) (Hrun : p_state (ps_proc s p) = RUNNING).

Lemma entered_crit L s1 :
  (∀ q, PROC_LOCK q ∉ L) → frame s L s1 → ps_nextpid s1 = ps_nextpid s →
  (ps_proc s1 p = ps_proc s p ∨ ps_proc s1 p = set_chan 0 (ps_proc s p)) → (∀ q, q ≠ p → ps_proc s1 q = ps_proc s q) → crit p L s1.
Proof using Hi Hp Hrun.
  intros HL F Hn Hu Ho. pose proof Hi as [Hok Hso]. destruct (so_cur s Hso p Hp) as (Hr&_).
  assert (E : same_id (ps_proc s p) (ps_proc s1 p)) by (destruct Hu as [-> | ->]; done). destruct E as (E1&E2&E3).
  split; [|apply F|by rewrite (fr_cur _ _ _ F)|apply F|intros q; by rewrite (fr_held _ _ _ F)].
  apply (pinv_move s _ p []); try done.
  - split; [apply F..|done|apply unlocked_cpu].
  - simpl. lia.
  - unfold soft. simpl. rewrite E1, E2, E3. split_and!; [done|done|by left|congruence].
  - right. simpl. split; [done|congruence].
  - intros q Hq Hqr. simpl. rewrite Ho by done. split; [by apply soft_refl, (ok_clear s)|done].
Qed.
Lemma forkret_crit R : wlp (release (PROC_LOCK p)) (λ _, crit p []) R s.
Proof using Hi Hp Hh Hrun.
  apply wlp_wp, (release_head _ []); [apply Hi|done|]. intros s' [F Hpr Hn _]. eapply entered_crit; rewrite ?Hpr; try done; [set_solver|by left].
Qed.
Lemma yield_resume_crit R : wlp (yield_resume p) (λ _, crit p []) R s.
Proof using Hi Hp Hh Hrun.
  apply wlp_wp, yield_resume_spec; [apply Hi|done|]. intros s' [F Hpr Hn _]. eapply entered_crit; rewrite ?Hpr; try done; [set_solver|by left].
Qed.
(** The process is back from [sleep], with the lock it had released. *)
Lemma sleep_resume_crit lk R : (∀ q, lk ≠ PROC_LOCK q) → wlp (sleep_resume p lk) (λ _, crit p [lk]) R s.
Proof using Hi Hp Hh Hrun.
  intros Hl. apply wlp_wp, sleep_resume_spec; [apply Hi|done|]. intros s1 F1 Hn1 _ [Hu Ho].
  eapply entered_crit; try done; [|by right]. intros q Hq%list_elem_of_singleton. by destruct (Hl q).
Qed.
Lemma wait_resume_crit addr : wlp (wait_resume kend proc_base p addr) (λ _, crit p []) pinv s.
Proof using Hi Hp Hh Hrun.
  unfold wait_resume. eapply wlp_bind, wlp_mono; [by apply (sleep_resume_crit WAIT_LOCK)| |done]. intros ? s1. apply wait_turn_crit.
Qed.
End entered.
End calls.
