(* ===== verification/ProcSteps.v ===== *)
(** * The kernel's processes, step by step *)
From S2P Require Import Prelude Kstring Kalloc Vm Proc ProcProps ProcTable ProcFork ProcInv Crit.

(** A visit of the scheduler's loop, up to [swtch] or to the next slot. *)
Definition visit (p : Z) : M pstate unit :=
  b ← sched_enter p; if (b : bool) then mret tt else release (PROC_LOCK p).

Lemma entered_pinv s p s1 :
  pinv s → c_proc (ps_cpu s) = None → 0 ≤ p < NPROC → p_state (ps_proc s p) = RUNNABLE → cpu_ok s1 → ps_held s1 = [PROC_LOCK p] →
  c_proc (ps_cpu s1) = Some p → ps_initproc s1 = ps_initproc s → ps_nextpid s1 = ps_nextpid s →
  slot_upd p (set_state RUNNING (ps_proc s p)) s s1 → pinv s1.
Proof.
  intros [Hok Hso] Hp Hr Est Hc1 Hh1 Hcur Hi1 Hn1 [Hu Ho].
  assert (Hx : soft (ps_proc s p) (ps_proc s1 p)).
  { rewrite Hu. split_and!; simpl; try done; [right|]; rewrite Est; done. }
  split; [apply (ptable_soft s); try done; [|lia]|split; rewrite ?Hcur, ?Hh1; try done].
  - intros q Hq. destruct (decide (q = p)) as [->|Hqp]; [done|]. rewrite Ho by done. by apply soft_refl, ok_clear.
  - intros q Hq E. destruct (decide (q = p)) as [->|Hqp]; [done|]. rewrite Ho in E by done. apply (so_running s Hso) in E; [|done]. congruence.
  - intros q [= <-]. rewrite Hu. split; [done|]. split; [done|by left].
Qed.

(** Locks alone, in the scheduler. *)
Lemma idle_locks_pinv s s1 : pinv s → c_proc (ps_cpu s) = None → locks s [] s1 → pinv s1.
Proof.
  intros [Hok Hso] Hp [F Hpr Hn _].
  split; [apply (ptable_soft s); [done| |apply F|lia]|split; rewrite ?(fr_cur _ _ _ F), ?(fr_held _ _ _ F), ?Hpr, ?Hp; try done].
  - intros q Hq. rewrite Hpr. by apply soft_refl, ok_clear.
  - apply F.
  - intros q Hq E. rewrite <- Hp. by apply (so_running s Hso).
Qed.

Lemma visit_pinv s p : pinv s → c_proc (ps_cpu s) = None → 0 ≤ p < NPROC → wp (visit p) (λ _, pinv) s.
Proof.
  intros Hi Hp Hr. pose proof Hi as [_ Hso]. pose proof (so_idle s Hso Hp) as Hh. unfold visit. wp_step.
  apply sched_enter_spec; [apply Hso|done|..].
  - intros s1 Est Hc1 Hh1 Hcur Hi1 Hn1 _ Hu. wp_step. by eapply entered_pinv.
  - intros s1 Est L1. apply (release_head _ []); [apply L1..|]. intros s2 L2. eapply idle_locks_pinv; [done..|]. by eapply locks_trans.
Qed.

Lemma left_pinv s p s1 :
  pinv s → c_proc (ps_cpu s) = Some p → p_state (ps_proc s p) ≠ RUNNING → cpu_ok s1 → ps_held s1 = [] → c_proc (ps_cpu s1) = None →
  ps_initproc s1 = ps_initproc s → ps_nextpid s1 = ps_nextpid s → ps_proc s1 = ps_proc s → pinv s1.
Proof.
  intros [Hok Hso] Hp Hst Hc1 Hh1 Hcur Hi1 Hn1 Hpr.
  split; [apply (ptable_soft s); [done| |done|lia]|split; rewrite ?Hcur, ?Hh1, ?Hpr; try done].
  - intros q Hq. rewrite Hpr. by apply soft_refl, ok_clear.
  - intros q Hq E. assert (c_proc (ps_cpu s) = Some q) by (by apply (so_running s Hso)). congruence.
Qed.

Lemma leave_pinv s p : pinv s → c_proc (ps_cpu s) = Some p → ps_held s = [PROC_LOCK p] → p_state (ps_proc s p) ≠ RUNNING →
  wp (sched_leave p) (λ _, pinv) s.
Proof.
  intros Hi Hp Hh Hst. pose proof Hi as [_ Hso]. apply sched_leave_spec; [apply Hso|done|]. intros. by eapply left_pinv.
Qed.

Section steps.
Context {T : Type} `{!FileOps T}.
Variables (kend trampoline proc_base forkret_addr initcode initcode_name : Z).

(** [m] ran from [t] to its end, or to the [sched] inside it. *)
Definition ran {A} (m : M T A) (t t' : T) : Prop := (∃ a, m t = Ok a t') ∨ (∃ c, m t = Sleep c t').

Definition in_scheduler (t : T) : Prop := c_proc (ps_cpu (t_procs t)) = None.
Definition in_process (p : Z) (t : T) : Prop :=
  c_proc (ps_cpu (t_procs t)) = Some p ∧ ps_held (t_procs t) = [].
(** The scheduler has just switched to [p], which still runs under its lock. *)
Definition entered (p : Z) (t : T) : Prop :=
  c_proc (ps_cpu (t_procs t)) = Some p ∧ ps_held (t_procs t) = [PROC_LOCK p] ∧ p_state (ps_proc (t_procs t) p) = RUNNING.
(** [p] called [sched]. *)
Definition switched_off (p : Z) (t : T) : Prop :=
  c_proc (ps_cpu (t_procs t)) = Some p ∧ ps_held (t_procs t) = [PROC_LOCK p] ∧ p_state (ps_proc (t_procs t) p) ≠ RUNNING.

Inductive pstep (t : T) : T → Prop :=
  | step_visit p t' : in_scheduler t → 0 ≤ p < NPROC → ran (prc (visit p)) t t' → pstep t t'
  | step_leave p t' : switched_off p t → ran (prc (sched_leave p)) t t' → pstep t t'
  | step_forkret p t' : entered p t → ran (prc (release (PROC_LOCK p))) t t' → pstep t t'
  | step_yielded p t' : entered p t → ran (prc (yield_resume p)) t t' → pstep t t'
  | step_woken p lk t' : entered p t → (∀ q, lk ≠ PROC_LOCK q) → ran (prc (sleep_resume p lk ;; release lk)) t t' → pstep t t'
  | step_wait_on p addr t' : entered p t → ran (prc (wait_resume kend proc_base p addr)) t t' → pstep t t'
  | step_fork p t' : in_process p t → ps_nextpid (t_procs t) + 1 < 2 ^ 31 →
      ran (fork kend trampoline proc_base forkret_addr) t t' → pstep t t'
  | step_exit p status t' : in_process p t → ran (exit (A := unit) proc_base status) t t' → pstep t t'
  | step_wait p addr t' : in_process p t → ran (prc (wait kend proc_base addr)) t t' → pstep t t'
  | step_kill p pid t' : in_process p t → ran (prc (kill pid)) t t' → pstep t t'
  | step_setkilled p t' : in_process p t → ran (prc (setkilled p)) t t' → pstep t t'
  | step_wakeup p chan t' : in_process p t → ran (prc (wakeup chan)) t t' → pstep t t'
  | step_yield p t' : in_process p t → ran (prc (yield (A := unit))) t t' → pstep t t'
  | step_sleep p chan a t' : in_process p t → ran (prc (acquire (OTHER_LOCK a) ;; sleep (A := unit) chan (OTHER_LOCK a))) t t' → pstep t t'
  | step_grow p n t' : in_process p t → ran (prc (growproc kend n)) t t' → pstep t t'
  | step_files p A (m : M T A) t' : in_process p t → sleepy_op m → ran m t t' → pstep t t'.

(** The table before [procinit]: the zeroed memory of the kernel's data. *)
Definition blank : proc := Proc UNUSED 0 0 0 None 0 0 0 0 (Context 0 0 (replicate 12 0)) false (replicate 16 0) None.
Definition at_boot (t : T) : Prop :=
  let s := t_procs t in
  (∀ q, ps_proc s q = blank) ∧ ps_nextpid s = 1 ∧ ps_held s = [] ∧ c_proc (ps_cpu s) = None ∧ c_noff (ps_cpu s) = 0.

Definition boot : M T unit :=
  prc procinit ;; userinit kend trampoline proc_base forkret_addr initcode initcode_name.

Inductive preach (t0 : T) : T → Prop :=
  | preach_boot t : at_boot t0 → boot t0 = Ok tt t → preach t0 t
  | preach_step t t' : preach t0 t → pstep t t' → preach t0 t'.

Context `{!FileOpsOk T}.

Lemma ran_wlp {A} (m : M T A) (P : T → Prop) t t' : wlp m (λ _, P) P t → ran m t t' → P t'.
Proof. unfold wlp. intros H [[a E]|[c E]]; by rewrite E in H. Qed.
Lemma ran_prc {A} (m : M pstate A) (P : pstate → Prop) t t' : wlp m (λ _, P) P (t_procs t) → ran (prc m) t t' → P (t_procs t').
Proof using FileOpsOk0.
  intros Hw. apply (ran_wlp _ (λ t', P (t_procs t'))). apply prc_wlp. eapply wlp_mono; [exact Hw|..]; by intros; subst.
Qed.


Lemma fork_crit p (R : T → Prop) t :
  crit p [] (t_procs t) → ps_nextpid (t_procs t) + 1 < 2 ^ 31 →
  wlp (fork kend trampoline proc_base forkret_addr) (λ _ t', crit p [] (t_procs t')) R t.
Proof using FileOpsOk0.
  intros Hc Hb. pose proof (crit_pinv _ _ Hc) as Hi. pose proof (cr_cur _ _ _ Hc) as Hp. pose proof (cr_held _ _ _ Hc) as Hh. apply (fork_wlp _ _ _ _ p _ _ t (t_procs t)); try done; [apply Hi|..].
  - intros t1 Hf. apply (frame_crit p (t_procs t)); [by apply (alloc_failed_pinv (t_procs t) _ p)|done|rewrite <- Hh; apply Hf].
  - intros np t1 Hf. apply (frame_crit p (t_procs t)); [by apply (forked_pinv (t_procs t) _ p Hi Hp Hh np)|done|apply Hf].
Qed.
Lemma exit_crit {A} p status (Q : A → T → Prop) t :
  crit p [] (t_procs t) → wlp (exit proc_base status) Q (λ t', pinv (t_procs t')) t.
Proof using FileOpsOk0.
  intros Hc. pose proof (crit_pinv _ _ Hc) as Hi. pose proof (cr_cur _ _ _ Hc) as Hp. pose proof (cr_held _ _ _ Hc) as Hh. destruct (cur_running _ p Hi Hp Hh) as [Hr Hrun]. apply (exit_wlp _ p status _ _ t (t_procs t)); try done; [apply Hi|..].
  - intros t1 (F&Hn&Est&Epid&Epar&Ho). eapply (out_pinv (t_procs t) _ p); try done. unfold soft. rewrite Epid, Epar, Est, Hrun.
    split_and!; [done|done|by right|done].
  - intros t1 Hni He. by apply (exited_pinv (t_procs t) _ p).
Qed.
Lemma sleepy_pinv {A} (m : M T A) p t :
  pinv (t_procs t) → in_process p t → sleepy_op m → wlp m (λ _ t', pinv (t_procs t')) (λ t', pinv (t_procs t')) t.
Proof.
  intros Hi [Hp Hh] Hop. destruct (cur_running _ p Hi Hp Hh) as [Hr Hrun]. eapply wlp_mono; [apply (Hop t p); try done; apply Hi|..]; cbv beta.
  - intros _ t1 He. by eapply evolved_pinv.
  - intros t1 (F&Hn&(c&b&Hpp)&Ho). eapply (out_pinv (t_procs t) _ p); try done. unfold soft. simpl. rewrite Hrun.
    split_and!; [done|done|by right|done].
Qed.

(** The running process's calls. *)
Lemma ran_call {A} (m : M pstate A) p t t' :
  pinv (t_procs t) → in_process p t → (crit p [] (t_procs t) → wlp m (λ _, crit p []) pinv (t_procs t)) → ran (prc m) t t' → pinv (t_procs t').
Proof using FileOpsOk0.
  intros Hi [Hp Hh] Hm. apply ran_prc. eapply wlp_mono; [by apply Hm, pinv_crit| |done]. intros ? s'. apply crit_pinv.
Qed.
Lemma ran_resume {A} (m : M pstate A) p t t' :
  wlp m (λ _, crit p []) pinv (t_procs t) → ran (prc m) t t' → pinv (t_procs t').
Proof using FileOpsOk0. intros Hm. apply ran_prc. eapply wlp_mono; [exact Hm| |done]. intros ? s'. apply crit_pinv. Qed.

Lemma pstep_pinv t t' : pinv (t_procs t) → pstep t t' → pinv (t_procs t').
Proof using FileOpsOk0.
  intros Hi Hs. pose proof crit_stable as Hst.
  destruct Hs as [p t' Hp Hr Hm|p t' (Hp&Hh&Hs) Hm|p t' (Hp&Hh&Hs) Hm|p t' (Hp&Hh&Hs) Hm|p lk t' (Hp&Hh&Hs) Hl Hm|p addr t' (Hp&Hh&Hs) Hm
    |p t' Hp Hb Hm|p status t' Hp Hm|p addr t' Hp Hm|p pid t' Hp Hm|p t' Hp Hm|p chan t' Hp Hm|p t' Hp Hm|p chan a t' Hp Hm|p n t' Hp Hm|p A m t' Hp Hop Hm].
  - eapply ran_prc; [|exact Hm]. by apply wlp_wp, visit_pinv.
  - eapply ran_prc; [|exact Hm]. by apply wlp_wp, leave_pinv.
  - eapply ran_resume; [|exact Hm]. by apply forkret_crit.
  - eapply ran_resume; [|exact Hm]. by apply yield_resume_crit.
  - eapply ran_resume; [|exact Hm]. eapply wlp_bind, wlp_mono; [by apply sleep_resume_crit| |done]. intros ? s1 H1.
    by apply (release_st _ _ _ (Hst p) [lk]).
  - eapply ran_resume; [|exact Hm]. by apply wait_resume_crit.
  - eapply (ran_wlp _ (λ t', pinv (t_procs t'))); [|exact Hm]. destruct Hp as [Hp Hh]. eapply wlp_mono; [apply (fork_crit p (λ t', pinv (t_procs t'))); [by apply pinv_crit|done]| |done].
    intros ? t1. apply crit_pinv.
  - eapply (ran_wlp _ (λ t', pinv (t_procs t'))); [|exact Hm]. destruct Hp as [Hp Hh]. by apply (exit_crit p), pinv_crit.
  - eapply ran_call; [done..| |exact Hm]. apply wait_crit.
  - eapply ran_call; [done..| |exact Hm]. intros Hc. by apply kill_crit.
  - eapply ran_call; [done..| |exact Hm]. intros Hc. by apply setkilled_crit.
  - eapply ran_call; [done..| |exact Hm]. intros Hc. by apply (wakeup_st _ _ _ (Hst p) []).
  - eapply ran_call; [done..| |exact Hm]. apply yield_crit.
  - eapply ran_call; [done..| |exact Hm]. intros Hc. eapply wlp_bind, wlp_mono; [by apply (acquire_st _ _ _ (Hst p) [])| |done].
    intros ? s1 H1. by apply (sleep_st _ _ _ (Hst p) [OTHER_LOCK a] _ H1 p).
  - eapply ran_call; [done..| |exact Hm]. apply growproc_crit.
  - eapply (ran_wlp _ (λ t', pinv (t_procs t'))); [|exact Hm]. by eapply sleepy_pinv.
Qed.

(** ** Boot *)

Lemma procinit_loop_spec l (Q : unit → pstate → Prop) s :
  (∀ s', ps_nextpid s' = ps_nextpid s → ps_held s' = ps_held s → ps_cpu s' = ps_cpu s →
    (∀ q, ps_proc s' q = ps_proc s q ∨ ps_proc s' q = set_kstack (KSTACK q) (set_state UNUSED (ps_proc s q))) → Q tt s') →
  wp (procinit_loop l) Q s.
Proof.
  revert s Q. induction l as [|p l IH]; intros s Q HQ; cbn [procinit_loop].
  - wp_step. apply HQ; auto.
  - do 2 p_step. apply IH. intros s' Hn Hh Hc Hp. apply HQ; try done. intros q. destruct (Hp q) as [-> | ->]; cbn [ps_proc put_procs].
    + destruct (decide (q = p)) as [->|Hq]; [rewrite fn_lookup_insert; by right|rewrite fn_lookup_insert_ne by done; by left].
    + destruct (decide (q = p)) as [->|Hq]; [rewrite fn_lookup_insert|rewrite fn_lookup_insert_ne by done]; by right.
Qed.

(** The table when init is the only process. *)
Lemma only_pinv s p x :
  cpu_ok s → ps_held s = [] → (c_proc (ps_cpu s) = None ∧ p_state x = RUNNABLE ∨ c_proc (ps_cpu s) = Some p ∧ p_state x = RUNNING) →
  ps_nextpid s = 2 → ps_initproc s = Some p → 0 ≤ p < NPROC →
  ps_proc s p = x → p_pid x = 1 → p_parent x = None →
  (∀ q, q ≠ p → p_state (ps_proc s q) = UNUSED ∧ vacant (ps_proc s q)) → pinv s.
Proof.
  intros Hc Hh Hcur Hn Hinit Hr Hx Epid Epar Ho.
  assert (Hal : alive (p_state x) = true) by (destruct Hcur as [[_ ->]|[_ ->]]; done).
  assert (Hu : ∀ q, p_state (ps_proc s q) ≠ UNUSED → q = p).
  { intros q E. destruct (decide (q = p)) as [|Hq]; [done|]. by destruct (Ho q Hq). }
  destruct (alive_not _ Hal) as (Hx1&Hx2&_).
  split; [split|split]; rewrite ?Hh, ?Hn; try done.
  - intros q _ E. destruct (decide (q = p)) as [->|Hq]; [congruence|by apply Ho].
  - intros q _ E. destruct (decide (q = p)) as [->|Hq]; [congruence|destruct (Ho q Hq); congruence].
  - intros q _ ->%Hu. rewrite Hx. lia.
  - intros q r _ _ ->%Hu ->%Hu. done.
  - intros q r _ E. destruct (decide (q = p)) as [->|Hq]; [congruence|]. destruct (Ho q Hq) as [_ Hv]. rewrite Hv in E. done.
  - intros q _ ->%Hu. congruence.
  - exists p. split; [done|]. split; [done|]. rewrite Hx. split; [done|]. intros q _ ?%Hu. done.
  - intros q _ E. destruct (decide (q = p)) as [->|Hq]; [|destruct (Ho q Hq); congruence]. destruct Hcur as [[_ ?]|[? _]]; [congruence|done].
  - intros q Hq. destruct Hcur as [[? _]|[Hc' Hrun]]; [congruence|]. assert (q = p) as -> by congruence. rewrite Hx. split; [done|]. split; [done|]. by right.
Qed.

Lemma boot_pinv t t' : at_boot t → boot t = Ok tt t' → pinv (t_procs t').
Proof using FileOpsOk0.
  intros (Hb&Hn&Hh&Hcur&Hno). intros E. revert E. apply (wlp_Ok _ (λ _ t', pinv (t_procs t')) (λ _, True)). unfold boot.
  apply prc_bind. unfold procinit. p_step. apply wp_modify, procinit_loop_spec. intros s1 Hn1 Hh1 Hc1 Hp1 t1 Ht1. subst s1.
  simpl in *. rewrite Hn in Hn1.
  assert (Hv1 : ∀ q, p_state (ps_proc (t_procs t1) q) = UNUSED ∧ vacant (ps_proc (t_procs t1) q) ∧ p_parent (ps_proc (t_procs t1) q) = None).
  { intros q. destruct (Hp1 q) as [-> | ->]; by rewrite Hb. }
  assert (Hcpu1 : cpu_ok (t_procs t1)).
  { unfold cpu_ok. rewrite Hc1, Hh1. split; [done|]. split; [done|apply NoDup_nil_2]. }
  unfold userinit. apply wlp_bind, prc_wlp, allocproc_wlp; [done|intros q; rewrite Hh1; set_solver|rewrite Hh1; set_solver|..].
  { intros s2 _ t2 _. apply prc_bind, wp_modify. intros t3 _. apply wlp_panic. }
  intros p x s2 [Hr Hun _ F2 Hn2 [Hu2 Ho2] Hst Hpid Hpar _] t2 Ht2. rewrite Hh1 in F2. apply prc_bind, wp_modify. intros t3 Ht3. cbv beta iota.
  set (s3 := set_initproc (Some p) (t_procs t2)) in *.
  assert (S3 : slot_to p x s3 (t_procs t3)).
  { rewrite Ht3. assert (x = ps_proc s3 p) as -> by (unfold s3; simpl; congruence). apply slot_to_refl. unfold s3. rewrite Ht2. apply F2. }
  assert (H3 : ps_held s3 = [PROC_LOCK p] ∧ c_proc (ps_cpu s3) = None ∧ ps_nextpid s3 = 2 ∧ ps_initproc s3 = Some p ∧
    ∀ q, q ≠ p → ps_proc s3 q = ps_proc (t_procs t1) q).
  { unfold s3. simpl. rewrite Ht2. split; [apply F2|]. split; [rewrite (fr_cur _ _ _ F2); congruence|]. rewrite Hn2, Hn1. done. }
  clear Ht3 F2. clearbody s3. destruct H3 as (Hh3&Hcur3&Hn3&Hi3&Ho3). do 7 t_step.
  eapply wlp_bind, wlp_mono; [apply namei_quiet; match goal with H : slot_to _ _ _ (t_procs ?t) |- cpu_ok (t_procs ?t) => apply H end| |done].
  cbv beta. intros cwd u9 (F9&Hn9&Hp9).
  match goal with H : slot_to _ ?x' _ (t_procs ?t8) |- _ => assert (S9 : slot_to p x' s3 (t_procs u9)) end.
  { match goal with H : slot_to _ _ _ (t_procs ?t8) |- _ => destruct H as [F8 Hn8 [Hu8 Ho8]] end.
    rewrite (fr_held _ _ _ F8) in F9. split; [by eapply frame_trans|congruence|]. split; [by rewrite Hp9|].
    intros q Hq. by rewrite Hp9, Ho8. }
  do 2 t_step. match goal with H : slot_to _ _ _ (t_procs ?t8) |- wlp _ _ _ ?t8 => destruct H as [F10 Hn10 [Hu10 Ho10]] end.
  rewrite Hh3 in F10. apply prc_wp, (release_head _ []); [apply F10..|]. intros s11 [F11 Hp11 Hn11 _] u11 <-.
  rewrite <- Hp11 in Hu10. eapply (only_pinv _ p); [apply F11|apply F11| | | |done|exact Hu10|simpl; congruence|simpl; rewrite Hpar; apply Hv1|].
  - left. split; [|done]. rewrite (fr_cur _ _ _ F11), (fr_cur _ _ _ F10). done.
  - congruence.
  - rewrite (fr_init _ _ _ F11), (fr_init _ _ _ F10). done.
  - intros q Hq. rewrite Hp11, Ho10, Ho3 by done. destruct (Hv1 q) as (?&?&?). done.
Qed.

Lemma preach_pinv t0 t : preach t0 t → pinv (t_procs t).
Proof using FileOpsOk0. induction 1; [by eapply boot_pinv|by eapply pstep_pinv]. Qed.
End steps.

(** ** The scheduler gives every runnable process its turn

    One pass of the scheduler's loop over the table, when the processes keep
    their side of the contract: a turn starts where the scheduler switched to
    the process, ends in [sched], and makes no runnable process unrunnable. *)

Section fair.
Variable turn : Z → M pstate Empty_set.
(** What a process leaves in memory when it has had a turn. *)
Variable had_turn : Z → kstate → Prop.

Definition runnable (q : Z) (s : pstate) : Prop := p_state (ps_proc s q) = RUNNABLE.
Definition may_run (p : Z) (s : pstate) : Prop :=
  pinv s ∧ c_proc (ps_cpu s) = Some p ∧ ps_held s = [PROC_LOCK p] ∧ p_state (ps_proc s p) = RUNNING.

Definition turn_ok : Prop := ∀ p s, may_run p s →
  wps (turn p) (λ _ _, False)
    (λ s', pinv s' ∧ c_proc (ps_cpu s') = Some p ∧ ps_held s' = [PROC_LOCK p] ∧ p_state (ps_proc s' p) ≠ RUNNING ∧
       had_turn p (ps_k s') ∧ (∀ q, had_turn q (ps_k s) → had_turn q (ps_k s')) ∧ ∀ q, q ≠ p → runnable q s → runnable q s') s.

Context (Hturn : turn_ok).

(** The scheduler is between two visits. *)
Definition between (s : pstate) : Prop := pinv s ∧ c_proc (ps_cpu s) = None.

Lemma visit_runs p s :
  between s → 0 ≤ p < NPROC →
  wp (scheduler_visit turn p) (λ _ s', between s' ∧ (runnable p s → had_turn p (ps_k s')) ∧
    (∀ q, had_turn q (ps_k s) → had_turn q (ps_k s')) ∧ ∀ q, q ≠ p → runnable q s → runnable q s') s.
Proof using Hturn.
  intros [Hi Hp] Hr. pose proof Hi as [_ Hso]. pose proof (so_idle s Hso Hp) as Hh. unfold scheduler_visit. wp_step.
  apply sched_enter_spec; [apply Hso|done|..].
  - intros s1 Est Hc1 Hh1 Hcur Hi1 Hn1 Hk1 Hu. pose proof Hu as [Hup Huo].
    assert (Hm : may_run p s1) by (split_and!; try done; [by eapply entered_pinv|by rewrite Hup]).
    pose proof (Hturn p s1 Hm) as Ht. unfold wps in Ht. wp_step. unfold wp at 1, swtch_to. destruct (turn p s1) as [[]|?|c s2|]; try done.
    destruct Ht as (Hi2&Hcur2&Hh2&Hst2&Hdone&Hkeep&Hrun). pose proof Hi2 as [_ Hso2].
    apply sched_leave_spec; [apply Hso2|done|]. intros s3 Hc3 Hh3 Hcur3 Hi3 Hn3 Hk3 Hpr3. unfold runnable in *. rewrite Hk3, Hpr3. split_and!.
    + split; [by eapply left_pinv|done].
    + done.
    + intros q Hq. apply Hkeep. by rewrite Hk1.
    + intros q Hq E. apply Hrun; [done|]. by rewrite Huo.
  - intros s1 Est L1. apply (release_head _ []); [apply L1..|]. intros s2 L2. pose proof (locks_trans _ _ _ _ _ L1 L2) as L12.
    pose proof L12 as [F Hpr Hn Hk]. unfold runnable. rewrite Hk, Hpr. split_and!; try done.
    split; [by eapply idle_locks_pinv|]. by rewrite (fr_cur _ _ _ F).
Qed.

Lemma pass_runs l s :
  NoDup l → (∀ q, q ∈ l → 0 ≤ q < NPROC) → between s →
  wp (scheduler_pass turn l) (λ _ s', between s' ∧ (∀ q, q ∈ l → runnable q s → had_turn q (ps_k s')) ∧
    ∀ q, had_turn q (ps_k s) → had_turn q (ps_k s')) s.
Proof using Hturn.
  revert s. induction l as [|p l IH]; intros s Hnd Hl Hi; cbn [scheduler_pass].
  { wp_step. split_and!; [apply Hi..| |done]. intros q ?%elem_of_nil. done. }
  apply NoDup_cons in Hnd as [Hpl Hnd]. wp_step. eapply wp_mono; [apply visit_runs; [done|apply Hl; set_solver]|]. cbv beta.
  intros _ s1 (Hi1&Hp1&Hk1&Hr1). eapply wp_mono; [apply IH; [done| |done]; set_solver|]. cbv beta.
  intros _ s2 (Hi2&Hl2&Hk2). split; [done|]. split; [|auto]. intros q [->|Hq]%elem_of_cons E; [auto|].
  apply Hl2; [done|]. apply Hr1; [|done]. set_solver.
Qed.
End fair.

(** C9: In one pass of the scheduler's loop over the process table, every
    process that is runnable at the start gets its turn, the pass comes to its
    end without a panic, and the table's invariant holds again. *)
Theorem scheduler_runs_every_runnable turn had_turn s :
  turn_ok turn had_turn → pinv s → c_proc (ps_cpu s) = None →
  wp (scheduler_pass turn procs) (λ _ s', pinv s' ∧ c_proc (ps_cpu s') = None ∧
    ∀ q, 0 ≤ q < NPROC → p_state (ps_proc s q) = RUNNABLE → had_turn q (ps_k s')) s.
Proof.
  intros Ht Hi Hp. eapply wp_mono; [apply (pass_runs turn had_turn Ht procs s NoDup_procs); [intros q; apply elem_of_procs|by split]|].
  cbv beta. intros _ s' ([Hi' Hp']&Hr&_). split_and!; [done..|]. intros q Hq. by apply Hr, elem_of_procs.
Qed.

(** ** An example *)
Module SchedDemo.

(** A process that comes back from [yield], leaves its mark, and yields again. *)
Definition mark (p : Z) : M pstate Empty_set :=
  yield_resume p ;; kern (upd_mem (λ m, store8 m p 1)) ;; yield.
Definition marked (q : Z) (k : kstate) : Prop := k_mem k q = 1.

Lemma mark_ok : turn_ok mark marked.
Proof.
  intros p s (Hi&Hp&Hh&Hrun). pose proof Hi as [_ Hso]. unfold mark.
  apply wps_bind_wp, yield_resume_spec; [apply Hso|done|]. intros s1 L1. pose proof L1 as [F1 Hpr1 Hn1 Hk1].
  assert (Hc1 : crit p [] s1).
  { eapply (entered_crit p s); rewrite ?Hpr1; try done; [set_solver|by left]. }
  set (s2 := set_k (KState (store8 (k_mem (ps_k s1)) p 1) (k_free (ps_k s1)) (k_lock (ps_k s1))) s1).
  assert (Hc2 : crit p [] s2) by (by apply crit_k).
  apply wps_bind_wp, (wp_intro _ _ _ tt s2); [reflexivity|].
  apply (yield_spec p); [apply Hc2|apply (cr_cur _ _ _ Hc2)|apply Hc2|]. intros s3 G. pose proof G as (F&Hn&Hk&_&b&[Hu Ho]).
  assert (Hi3 : pinv s3).
  { destruct (crit_running _ _ _ Hc2). apply (gave_up_pinv s2 s3 p (set_state RUNNABLE)); [by eapply crit_pinv|apply (cr_cur _ _ _ Hc2)|by rewrite H0|done..]. }
  split; [done|]. split; [rewrite (fr_cur _ _ _ F); apply (cr_cur _ _ _ Hc2)|]. split; [apply F|]. split; [by rewrite Hu|].
  unfold marked, runnable. rewrite Hk. simpl. rewrite Hk1. unfold store8. split_and!.
  - by rewrite Z.eqb_refl.
  - intros q Hq. by destruct (q =? p).
  - intros q Hq E. rewrite Ho by done. simpl. by rewrite Hpr1.
Qed.

(** The table with only the first process, which is runnable. *)
Definition init1 : proc := set_state RUNNABLE (set_pid 1 blank).
Definition table1 : pstate :=
  PState (<[0 := init1]> (λ _, blank)) 2 [] (Some 0) (Cpu None 0 false true) (KState (λ _, 0) 0 false) false.
Lemma table1_pinv : pinv table1.
Proof.
  apply (only_pinv table1 0 init1); try done.
  - split; [done|]. split; [done|apply NoDup_nil_2].
  - by left.
  - intros q Hq. simpl. rewrite fn_lookup_insert_ne by done. done.
Qed.

Lemma scheduler_runs_every_runnable_witness :
  wp (scheduler_pass mark procs) (λ _ s', k_mem (ps_k s') 0 = 1) table1.
Proof.
  eapply wp_mono; [apply (scheduler_runs_every_runnable mark marked table1 mark_ok table1_pinv eq_refl)|].
  cbv beta. intros _ s' (_&_&H). apply (H 0); [split; [done|reflexivity]|reflexivity].
Defined.
End SchedDemo.
