(* ===== verification/SleepWakeup.v ===== *)
(** * sleep and wakeup on several harts

    [sleep] and [wakeup] of proc.c, cut at every lock operation and every
    store, and interleaved: any number of processes wait for a condition that a
    lock [lk] protects, make it true and wake the waiters, or are killed.  The
    condition is tested under [lk]; whoever makes it true calls
    [wakeup(chan)] before it releases [lk]. *)
From S2P Require Import Prelude Kstring Kalloc Vm Proc.

(** Where a process is. *)
Inductive point :=
  | Outside
  | Locked                (* holds lk *)
  | Sleeping0             (* in sleep(), still with lk, before acquire(&p->lock) *)
  | Sleeping1             (* holds both *)
  | Sleeping2             (* released lk *)
  | Sleeping3             (* p->chan = chan *)
  | Sleeping4             (* p->state = SLEEPING; in sched() *)
  | Away                  (* the scheduler released p->lock *)
  | Back                  (* the scheduler took p->lock and switched to p *)
  | Relocking             (* p->chan = 0, p->lock released, before acquire(lk) *)
  | WakingAt (q : Z)      (* in wakeup(), with lk, before the visit of slot q *)
  | WakingIn (q : Z).     (* holds the lock of slot q *)

Record world := World {
  w_cond : bool;
  w_lk : option Z;              (* who holds lk *)
  w_plock : Z → option Z;       (* who holds p->lock; the process, while the scheduler does for it *)
  w_proc : Z → proc;
  w_at : Z → point
}.

Section steps.
Variable chan : Z.

Definition go (p : Z) (x : point) (w : world) : world :=
  World (w_cond w) (w_lk w) (w_plock w) (w_proc w) (<[p := x]> (w_at w)).
Definition put_cond (b : bool) (w : world) : world := World b (w_lk w) (w_plock w) (w_proc w) (w_at w).
Definition put_lk (o : option Z) (w : world) : world := World (w_cond w) o (w_plock w) (w_proc w) (w_at w).
Definition put_plock (q : Z) (o : option Z) (w : world) : world := World (w_cond w) (w_lk w) (<[q := o]> (w_plock w)) (w_proc w) (w_at w).
Definition put_proc (q : Z) (f : proc → proc) (w : world) : world :=
  World (w_cond w) (w_lk w) (w_plock w) (<[q := f (w_proc w q)]> (w_proc w)) (w_at w).

(** The test of [wakeup]. *)
Definition wake (x : proc) : proc :=
  if bool_decide (p_state x = SLEEPING) && (p_chan x =? chan) then set_state RUNNABLE x else x.

Inductive wstep (w : world) : world → Prop :=
  (* the critical section *)
  | w_lock p : 0 ≤ p < NPROC → w_at w p = Outside → w_lk w = None → wstep w (go p Locked (put_lk (Some p) w))
  | w_unlock p : w_at w p = Locked → wstep w (go p Outside (put_lk None w))
  | w_consume p : w_at w p = Locked → wstep w (put_cond false w)
  | w_signal p : w_at w p = Locked → wstep w (go p (WakingAt 0) (put_cond true w))
  (* sleep(chan, lk) *)
  | w_sleep p : w_at w p = Locked → w_cond w = false → wstep w (go p Sleeping0 w)
  | w_sleep0 p : w_at w p = Sleeping0 → w_plock w p = None → wstep w (go p Sleeping1 (put_plock p (Some p) w))
  | w_sleep1 p : w_at w p = Sleeping1 → wstep w (go p Sleeping2 (put_lk None w))
  | w_sleep2 p : w_at w p = Sleeping2 → wstep w (go p Sleeping3 (put_proc p (set_chan chan) w))
  | w_sleep3 p : w_at w p = Sleeping3 → wstep w (go p Sleeping4 (put_proc p (set_state SLEEPING) w))
  | w_sched p : w_at w p = Sleeping4 → wstep w (go p Away (put_plock p None w))
  | w_dispatch p : w_at w p = Away → w_plock w p = None → p_state (w_proc w p) = RUNNABLE →
      wstep w (go p Back (put_proc p (set_state RUNNING) (put_plock p (Some p) w)))
  | w_tidy p : w_at w p = Back → wstep w (go p Relocking (put_plock p None (put_proc p (set_chan 0) w)))
  | w_relock p : w_at w p = Relocking → w_lk w = None → wstep w (go p Locked (put_lk (Some p) w))
  (* wakeup(chan) *)
  | w_visit p q : w_at w p = WakingAt q → q < NPROC → q ≠ p → w_plock w q = None →
      wstep w (go p (WakingIn q) (put_plock q (Some p) w))
  | w_self p : w_at w p = WakingAt p → p < NPROC → wstep w (go p (WakingAt (p + 1)) w)
  | w_wake p q : w_at w p = WakingIn q → wstep w (go p (WakingAt (q + 1)) (put_plock q None (put_proc q wake w)))
  | w_wakened p : w_at w p = WakingAt NPROC → wstep w (go p Locked w)
  (* kill() by somebody else *)
  | w_kill q : w_plock w q = None → w_at w q = Away → p_state (w_proc w q) = SLEEPING →
      wstep w (put_proc q (set_state RUNNABLE) w).

Inductive wreach : world → Prop :=
  | wreach_init b f : (∀ q, p_state (f q) = RUNNING) → wreach (World b None (λ _, None) f (λ _, Outside))
  | wreach_step w w' : wreach w → wstep w w' → wreach w'.

(** ** The invariant *)

Definition has_lk (x : point) : bool :=
  match x with Locked | Sleeping0 | Sleeping1 | WakingAt _ | WakingIn _ => true | _ => false end.
Definition has_own (x : point) : bool :=
  match x with Sleeping1 | Sleeping2 | Sleeping3 | Sleeping4 | Back => true | _ => false end.
(** Past the test of the condition, and not yet woken. *)
Definition waiting (x : point) (st : procstate) : bool :=
  match x with
  | Sleeping2 | Sleeping3 | Sleeping4 => true
  | Away => bool_decide (st = SLEEPING)
  | _ => false
  end.
(** A waker that has still to visit slot [q]. *)
Definition before (q : Z) (x : point) : Prop :=
  match x with WakingAt r | WakingIn r => r ≤ q | _ => False end.

Record winv (w : world) : Prop := {
  wi_lk : ∀ p, w_lk w = Some p ↔ has_lk (w_at w p) = true;
  wi_own : ∀ p, has_own (w_at w p) = true → w_plock w p = Some p;
  wi_plock : ∀ p q, w_plock w q = Some p → p = q ∧ has_own (w_at w p) = true ∨ p ≠ q ∧ w_at w p = WakingIn q;
  wi_in : ∀ p q, w_at w p = WakingIn q → w_plock w q = Some p ∧ p ≠ q;
  wi_range : ∀ p, w_at w p ≠ Outside → 0 ≤ p < NPROC;
  wi_tested : ∀ p, w_at w p = Sleeping0 ∨ w_at w p = Sleeping1 → w_cond w = false;
  wi_state : ∀ p, p_state (w_proc w p) =
    match w_at w p with Sleeping4 => SLEEPING | Away => p_state (w_proc w p) | _ => RUNNING end;
  wi_away : ∀ p, w_at w p = Away → p_state (w_proc w p) = SLEEPING ∨ p_state (w_proc w p) = RUNNABLE;
  wi_chan : ∀ p, match w_at w p with Sleeping3 | Sleeping4 | Away | Back => p_chan (w_proc w p) = chan | _ => True end;
  wi_waker : ∀ q, waiting (w_at w q) (p_state (w_proc w q)) = true → w_cond w = true → ∃ p, before q (w_at w p)
}.

Lemma world_upd_at {A} (f : Z → A) (p : Z) x q : <[p := x]> f q = if decide (q = p) then x else f q.
Proof. destruct (decide (q = p)) as [->|?]; [apply fn_lookup_insert|by apply fn_lookup_insert_ne]. Qed.

Ltac w_cbn := unfold go, put_cond, put_lk, put_plock, put_proc in *; cbn [w_cond w_lk w_plock w_proc w_at] in *.
Ltac w_case := w_cbn; rewrite ?world_upd_at in *; repeat match goal with
  | |- context [decide (?a = ?b)] => destruct (decide (a = b)); subst
  | H : context [decide (?a = ?b)] |- _ => destruct (decide (a = b)); subst
  end.

(** Only one process has [lk]. *)
Lemma lk_unique w p q : winv w → has_lk (w_at w p) = true → has_lk (w_at w q) = true → p = q.
Proof. intros Hw ?%(wi_lk w Hw) ?%(wi_lk w Hw). congruence. Qed.

Lemma wi_lk_step w w' : winv w → wstep w w' → ∀ p, w_lk w' = Some p ↔ has_lk (w_at w' p) = true.
Proof.
  intros Hw Hs. pose proof (wi_lk w Hw) as Hlk.
  destruct Hs; intros x; (assert (Hx := Hlk x)); try (assert (Hp := Hlk p)); w_case; rewrite ?H, ?H0, ?H1 in *; cbn in *; try tauto;
    try (naive_solver congruence).
Qed.

Ltac w_done := cbn in *; try done; try congruence; try (intuition congruence).

Lemma wi_own_step w w' : winv w → wstep w w' → ∀ p, has_own (w_at w' p) = true → w_plock w' p = Some p.
Proof.
  intros Hw Hs. pose proof (wi_own w Hw) as Ho. pose proof (wi_in w Hw) as Hin.
  destruct Hs; intros x; (assert (Hx := Ho x)); try (assert (Hp := Ho p)); try (assert (Hq := Ho q)); try (assert (Hi := Hin p q)); clear Ho Hin;
    w_case; rewrite ?H, ?H0, ?H1, ?H2 in *; w_done.
Qed.

Lemma wi_in_step w w' : winv w → wstep w w' → ∀ p q, w_at w' p = WakingIn q → w_plock w' q = Some p ∧ p ≠ q.
Proof.
  intros Hw Hs. pose proof (wi_own w Hw) as Ho. pose proof (wi_in w Hw) as Hin.
  destruct Hs; intros x y; (assert (Hx := Hin x y)); try (assert (Hp := Ho p)); try (assert (Hq := Ho q)); try (assert (Hi := Hin p q)); clear Ho Hin;
    w_case; rewrite ?H, ?H0, ?H1, ?H2 in *; w_done.
Qed.

Lemma wi_plock_step w w' :
  winv w → wstep w w' → ∀ p q, w_plock w' q = Some p → p = q ∧ has_own (w_at w' p) = true ∨ p ≠ q ∧ w_at w' p = WakingIn q.
Proof.
  intros Hw Hs. pose proof (wi_own w Hw) as Ho. pose proof (wi_in w Hw) as Hin. pose proof (wi_plock w Hw) as Hpl.
  destruct Hs; intros x y; (assert (Hx := Hpl x y)); try (assert (Hp := Ho p)); try (assert (Hq := Ho q)); try (assert (Hi := Hin p q)); clear Ho Hin Hpl;
    w_case; rewrite ?H, ?H0, ?H1, ?H2 in *; w_done.
Qed.

Lemma wi_range_step w w' : winv w → wstep w w' → ∀ p, w_at w' p ≠ Outside → 0 ≤ p < NPROC.
Proof.
  intros Hw Hs. pose proof (wi_range w Hw) as Hr.
  destruct Hs; intros x; (assert (Hx := Hr x)); try (assert (Hp := Hr p)); clear Hr; w_case; rewrite ?H, ?H0, ?H1, ?H2 in *; w_done.
Qed.

Lemma wi_tested_step w w' : winv w → wstep w w' → ∀ p, w_at w' p = Sleeping0 ∨ w_at w' p = Sleeping1 → w_cond w' = false.
Proof.
  intros Hw Hs x Hx. destruct (w_cond w') eqn:Ec; [exfalso|done]. pose proof (wi_tested w Hw) as Ht. pose proof (lk_unique w) as Hl.
  destruct Hs; (assert (Hx' := Ht x)); try (assert (Hp := Ht p)); try (assert (Hu := Hl p x Hw)); clear Ht Hl;
    w_case; rewrite ?H, ?H0, ?H1, ?H2 in *; destruct Hx as [Hx|Hx]; rewrite ?Hx in *; w_done.
Qed.

Lemma wi_state_step w w' : winv w → wstep w w' → ∀ p, p_state (w_proc w' p) =
    match w_at w' p with Sleeping4 => SLEEPING | Away => p_state (w_proc w' p) | _ => RUNNING end.
Proof.
  intros Hw Hs. pose proof (wi_state w Hw) as Hst. pose proof (wi_in w Hw) as Hin. pose proof (wi_own w Hw) as Ho.
  destruct Hs; intros x; (assert (Hx := Hst x)); try (assert (Hp := Hst p)); try (assert (Hi := Hin p q)); try (assert (Hq := Ho q)); clear Hst Hin Ho;
    w_case; rewrite ?H, ?H0, ?H1, ?H2 in *; cbn in *; try done.
  - naive_solver.
  - (* the visit of a slot changes sleepers only *)
    unfold wake. destruct (w_at w q); cbn in *; try done; try by rewrite Hx. naive_solver.
Qed.

Lemma wi_away_step w w' : winv w → wstep w w' → ∀ p, w_at w' p = Away → p_state (w_proc w' p) = SLEEPING ∨ p_state (w_proc w' p) = RUNNABLE.
Proof.
  intros Hw Hs. pose proof (wi_away w Hw) as Ha. pose proof (wi_state w Hw) as Hst.
  destruct Hs; intros x; (assert (Hx := Ha x)); try (assert (Hp := Hst p)); clear Ha Hst; w_case; rewrite ?H, ?H0, ?H1, ?H2 in *; w_done.
  intros E. destruct (Hx E) as [E'|E']; unfold wake; rewrite E'; cbn; [destruct (_ =? _); cbn|]; auto.
Qed.

Lemma wi_chan_step w w' :
  winv w → wstep w w' → ∀ p, match w_at w' p with Sleeping3 | Sleeping4 | Away | Back => p_chan (w_proc w' p) = chan | _ => True end.
Proof.
  intros Hw Hs. pose proof (wi_chan w Hw) as Hc.
  destruct Hs; intros x; (assert (Hx := Hc x)); try (assert (Hp := Hc p)); clear Hc; w_case; rewrite ?H, ?H0, ?H1, ?H2 in *; w_done.
  unfold wake. by destruct (_ && _).
Qed.

Lemma wi_waker_step w w' : winv w → wstep w w' →
  ∀ q, waiting (w_at w' q) (p_state (w_proc w' q)) = true → w_cond w' = true → ∃ p, before q (w_at w' p).
Proof.
  intros Hw Hs x. pose proof (wi_waker w Hw x) as Hx. pose proof (wi_range w Hw x) as Hr.
  (* a waker that has not moved, or not past the slot, is still before it *)
  assert (Hkeep : ∀ p y, (before x (w_at w p) → before x y) → waiting (w_at w x) (p_state (w_proc w x)) = true → w_cond w = true →
    ∃ p0, before x (<[p := y]> (w_at w) p0)).
  { intros p y Hb H1 H2. destruct (Hx H1 H2) as [p0 Hp0]. exists p0. rewrite world_upd_at. destruct (decide (p0 = p)) as [->|]; auto. }
  assert (Hwr : waiting (w_at w x) (p_state (w_proc w x)) = true → 0 ≤ x < NPROC).
  { intros Hwt. apply Hr. intros E. by rewrite E in Hwt. }
  destruct Hs as [p ? E|p E|p E|p E|p E E0|p E E0|p E|p E|p E|p E|p E E0 E1|p E|p E|p q E|p E|p q E|p E|q E E0 E1]; w_cbn; rewrite ?(world_upd_at (w_at w) p x), ?world_upd_at;
    try (destruct (decide (x = p)) as [->|Hxp]; cbn [waiting]; try done; intros Hwt Hcd; apply Hkeep; rewrite ?E in *; by auto).
  - (* signal *) destruct (decide (x = p)) as [->|Hxp]; cbn [waiting]; [done|]. intros Hwt _. exists p. rewrite world_upd_at, decide_True by done. by apply Hwr.
  - (* release of lk in sleep *) destruct (decide (x = p)) as [->|Hxp]; cbn [waiting].
    + intros _ Hcd. rewrite (wi_tested w Hw p) in Hcd by auto. done.
    + intros Hwt Hcd. apply Hkeep; [by rewrite E|done..].
  - (* the waker's own slot *) destruct (decide (x = p)) as [->|Hxp]; cbn [waiting]; [done|]. intros Hwt Hcd. apply Hkeep; [|done..].
    rewrite E. simpl. lia.
  - (* a visit *) destruct (wi_in w Hw p q E) as [Hlk Hpq]. destruct (decide (x = p)) as [->|Hxp]; cbn [waiting]; [done|].
    destruct (decide (x = q)) as [->|Hxq].
    + intros Hwt Hcd. exfalso. pose proof (wi_own w Hw q) as Ho. pose proof (wi_away w Hw q) as Ha. pose proof (wi_chan w Hw q) as Hch.
      destruct (w_at w q) eqn:Eq; cbn in *; try done; try (rewrite Ho in Hlk by done; congruence).
      unfold wake in Hwt. rewrite Hch, Z.eqb_refl, andb_true_r in Hwt.
      apply bool_decide_eq_true in Hwt. case_bool_decide; done.
    + intros Hwt Hcd. apply Hkeep; [|done..]. rewrite E. simpl. lia.
  - (* the end of the scan *) destruct (decide (x = p)) as [->|Hxp]; cbn [waiting]; [done|]. intros Hwt Hcd. apply Hkeep; [|done..].
    rewrite E. simpl. specialize (Hwr Hwt). lia.
  - (* kill *) destruct (decide (x = q)) as [->|Hxq]; [by rewrite E0|done].
Qed.

Lemma winv_step w w' : winv w → wstep w w' → winv w'.
Proof.
  intros Hw Hs. split;
    [by eapply wi_lk_step|by eapply wi_own_step|by eapply wi_plock_step|by eapply wi_in_step|by eapply wi_range_step|by eapply wi_tested_step
    |by eapply wi_state_step|by eapply wi_away_step|by eapply wi_chan_step|by eapply wi_waker_step].
Qed.

Lemma wreach_winv w : wreach w → winv w.
Proof. induction 1 as [b f Hf|w w' _ IH Hs]; [|by eapply winv_step]. split; cbn; naive_solver. Qed.
End steps.

(** C8: No wakeup is lost: whatever the interleaving of the harts, when the
    condition holds, every process that is asleep on the channel is still to be
    visited by a process that is inside [wakeup]; so when the lock is free,
    nobody sleeps on a condition that holds. *)
Theorem no_lost_wakeup chan w q :
  wreach chan w → w_cond w = true → w_at w q = Away → p_state (w_proc w q) = SLEEPING →
  (∃ p, before q (w_at w p)) ∧ w_lk w ≠ None.
Proof.
  intros Hw%wreach_winv Hc Ha Hs. destruct (wi_waker chan w Hw q) as [p Hb]; [rewrite Ha; cbn; by rewrite Hs|done|].
  split; [by exists p|]. rewrite (proj2 (wi_lk chan w Hw p)); [done|]. by destruct (w_at w p).
Qed.

(** Process 1 is asleep, and process 0 has just made the condition true. *)
Lemma no_lost_wakeup_witness : ∃ w, w_at w 1 = Away ∧ p_state (w_proc w 1) = SLEEPING ∧ (∃ p, before 1 (w_at w p)) ∧ w_lk w ≠ None.
Proof.
  pose (x0 := Proc RUNNING 0 0 1 None 0 0 0 0 (Context 0 0 []) false [] None).
  assert (Hr := wreach_init 7 false (λ _, x0) (λ _, eq_refl)).
  unshelve epose proof (wreach_step 7 _ _ Hr (w_lock 7 _ 1 _ _ _)) as H1; [done..|].
  unshelve epose proof (wreach_step 7 _ _ H1 (w_sleep 7 _ 1 _ _)) as H2; [done..|].
  unshelve epose proof (wreach_step 7 _ _ H2 (w_sleep0 7 _ 1 _ _)) as H3; [done..|].
  unshelve epose proof (wreach_step 7 _ _ H3 (w_sleep1 7 _ 1 _)) as H4; [done..|].
  unshelve epose proof (wreach_step 7 _ _ H4 (w_sleep2 7 _ 1 _)) as H5; [done..|].
  unshelve epose proof (wreach_step 7 _ _ H5 (w_sleep3 7 _ 1 _)) as H6; [done..|].
  unshelve epose proof (wreach_step 7 _ _ H6 (w_sched 7 _ 1 _)) as H7; [done..|].
  unshelve epose proof (wreach_step 7 _ _ H7 (w_lock 7 _ 0 _ _ _)) as H8; [done..|].
  unshelve epose proof (wreach_step 7 _ _ H8 (w_signal 7 _ 0 _)) as H9; [done..|].
  eexists. split; [|split]; [..|apply (no_lost_wakeup 7 _ 1 H9)]; reflexivity.
Defined.
