(* ===== verification/FsKeeps.v ===== *)
(** * What the file system leaves alone

    fs.c and log.c reach the running process only through [copyout] and
    [copyin]: an assertion on the process's side of the kernel that survives
    those copies survives every function of fs.c. *)
From S2P Require Import Prelude Kstring Block Sleeplock BufCache Log Fs ProcProps.

Create HintDb keeps.

Section keeps.
Context {S U : Type} `{!BufCache S} `{!UserCopy U} (P : U → Prop).
Abbreviation fstate := (fstate S U).

Definition keeps {A} (m : M fstate A) : Prop :=
  ∀ s, P (fs_user s) → wlp m (λ _ s', P (fs_user s')) (λ s', P (fs_user s')) s.

Lemma keeps_ret {A} (a : A) : keeps (mret a).
Proof. intros s H. exact H. Qed.
Lemma keeps_gets {A} (f : fstate → A) : keeps (gets f).
Proof. intros s H. exact H. Qed.
Lemma keeps_modify (f : fstate → fstate) : (∀ s, fs_user (f s) = fs_user s) → keeps (modify f).
Proof. intros Hf s H. unfold wlp, modify. by rewrite Hf. Qed.
Lemma keeps_panic {A} e : keeps (panic (A := A) e).
Proof. done. Qed.
Lemma keeps_nofuel {A} : keeps (A := A) (λ _, NoFuel).
Proof. done. Qed.
Lemma keeps_sleep {A} c : keeps (sleep_on (A := A) c).
Proof. intros s H. exact H. Qed.
Lemma keeps_bind {A B} (m : M fstate A) (k : A → M fstate B) : keeps m → (∀ a, keeps (k a)) → keeps (m ≫= k).
Proof. intros Hm Hk s H. eapply wlp_bind, wlp_mono; [by apply Hm| |done]. cbv beta. intros a s'. apply Hk. Qed.
Lemma keeps_log {A} (m : M (lstate S) A) : keeps (log m).
Proof. intros s H. unfold wlp, log, zoom. by destruct (m (fs_log s)). Qed.
Lemma keeps_iupd i f : keeps (iupd i f).
Proof. by apply keeps_modify. Qed.
Lemma keeps_ird {A} (f : inode → A) i : keeps (ird f i).
Proof. apply keeps_gets. Qed.
Lemma keeps_acquire get set : (∀ b s, fs_user (set b s) = fs_user s) → keeps (acquire get set).
Proof. intros Hs s H. unfold wlp, acquire, mbind, M_bind, gets. destruct (get s); [done|]. simpl. by rewrite Hs. Qed.
Lemma keeps_release get set : (∀ b s, fs_user (set b s) = fs_user s) → keeps (release get set).
Proof. intros Hs s H. unfold wlp, release, mbind, M_bind, gets. destruct (get s); [|done]. simpl. by rewrite Hs. Qed.
Lemma keeps_it_acquire : keeps (acquire it_lock set_it_lock).
Proof. by apply keeps_acquire. Qed.
Lemma keeps_it_release : keeps (release it_lock set_it_lock).
Proof. by apply keeps_release. Qed.
Lemma keeps_user {A} (m : M U A) :
  (∀ u, P u → wlp m (λ _, P) (λ _, False) u) → keeps (user m).
Proof. intros Hm s H. specialize (Hm _ H). revert Hm. unfold wlp, user, zoom. by destruct (m (fs_user s)). Qed.
End keeps.

#[export] Hint Resolve keeps_ret keeps_gets keeps_panic keeps_nofuel keeps_sleep keeps_log keeps_iupd keeps_ird
  keeps_it_acquire keeps_it_release : keeps.
#[export] Hint Extern 1 (keeps _ (bread _ _)) => apply keeps_log : keeps.
#[export] Hint Extern 1 (keeps _ (brelse _)) => apply keeps_log : keeps.
#[export] Hint Extern 1 (keeps _ (data _)) => apply keeps_log : keeps.
#[export] Hint Extern 1 (keeps _ (set_data _ _)) => apply keeps_log : keeps.
#[export] Hint Extern 1 (keeps _ (log_write _)) => apply keeps_log : keeps.
#[export] Hint Extern 1 (keeps _ (modify _)) => (by apply keeps_modify) : keeps.

Ltac keeps_go :=
  repeat first
    [ solve [auto with keeps]
    | lazymatch goal with
      | |- keeps _ (mbind _ (either_copyout _ _)) => fail
      | |- keeps _ (mbind _ (either_copyin _ _)) => fail
      | |- keeps _ (mbind _ _) => apply keeps_bind; [|intros ?]
      | |- keeps _ (if ?b then _ else _) => destruct b
      | |- keeps _ (match ?x with _ => _ end) => destruct x
      | |- keeps _ (let _ := _ in _) => cbv zeta
      end ].

Section fs.
Context {S U : Type} `{!BufCache S} `{!UserCopy U} (P : U → Prop) (pid : Z).
Abbreviation keeps := (keeps (S := S) P).

Lemma keeps_acquirei i : keeps (acquirei pid i).
Proof. unfold acquirei, acquiresleep. keeps_go. all: by first [apply keeps_acquire|apply keeps_release]. Qed.
Lemma keeps_releasei i : keeps (releasei i).
Proof. unfold releasei, releasesleep. keeps_go. all: by first [apply keeps_acquire|apply keeps_release]. Qed.
Lemma keeps_holdingi i : keeps (holdingi pid i).
Proof. unfold holdingi, holdingsleep. keeps_go. all: by first [apply keeps_acquire|apply keeps_release]. Qed.
Hint Resolve keeps_acquirei keeps_releasei keeps_holdingi : keeps.

Lemma keeps_fsinit dev : keeps (fsinit dev).
Proof. unfold fsinit, readsb. keeps_go. Qed.
Lemma keeps_bzero dev b : keeps (bzero dev b).
Proof. unfold bzero. keeps_go. Qed.
Hint Resolve keeps_bzero : keeps.
Lemma keeps_balloc_loop dev b k : keeps (balloc_loop dev b k).
Proof. revert b. induction k as [|k IH]; intros b; cbn [balloc_loop]; keeps_go. Qed.
Hint Resolve keeps_balloc_loop : keeps.
Lemma keeps_balloc dev : keeps (balloc dev).
Proof. unfold balloc. keeps_go. Qed.
Lemma keeps_bfree dev b : keeps (bfree dev b).
Proof. unfold bfree. keeps_go. Qed.
Hint Resolve keeps_balloc keeps_bfree : keeps.
Lemma keeps_iget dev i : keeps (iget dev i).
Proof. unfold iget. keeps_go. Qed.
Hint Resolve keeps_iget : keeps.
Lemma keeps_ialloc_loop dev ty i k : keeps (ialloc_loop dev ty i k).
Proof. revert i. induction k as [|k IH]; intros i; cbn [ialloc_loop]; keeps_go. Qed.
Hint Resolve keeps_ialloc_loop : keeps.
Lemma keeps_ialloc dev ty : keeps (ialloc dev ty).
Proof. unfold ialloc. keeps_go. Qed.
Lemma keeps_iupdate i : keeps (iupdate i).
Proof. unfold iupdate. keeps_go. Qed.
Lemma keeps_idup i : keeps (idup i).
Proof. unfold idup. keeps_go. Qed.
Lemma keeps_ilock i : keeps (ilock pid i).
Proof. unfold ilock. keeps_go. Qed.
Lemma keeps_iunlock i : keeps (iunlock pid i).
Proof. unfold iunlock. keeps_go. Qed.
Lemma keeps_bmap i bn : keeps (bmap i bn).
Proof. unfold bmap. keeps_go. Qed.
Hint Resolve keeps_ialloc keeps_iupdate keeps_idup keeps_ilock keeps_iunlock keeps_bmap : keeps.
Lemma keeps_itrunc_direct i j k : keeps (itrunc_direct i j k).
Proof. revert j. induction k as [|k IH]; intros j; cbn [itrunc_direct]; keeps_go. Qed.
Lemma keeps_itrunc_indirect dev b j k : keeps (itrunc_indirect dev b j k).
Proof. revert j. induction k as [|k IH]; intros j; cbn [itrunc_indirect]; keeps_go. Qed.
Hint Resolve keeps_itrunc_direct keeps_itrunc_indirect : keeps.
Lemma keeps_itrunc i : keeps (itrunc i).
Proof. unfold itrunc. keeps_go. Qed.
Hint Resolve keeps_itrunc : keeps.
Lemma keeps_iput i : keeps (iput pid i).
Proof. unfold iput. keeps_go. Qed.
Hint Resolve keeps_iput : keeps.
Lemma keeps_iunlockput i : keeps (iunlockput pid i).
Proof. unfold iunlockput. keeps_go. Qed.
Lemma keeps_stati i : keeps (stati i).
Proof. unfold stati. keeps_go. Qed.
Hint Resolve keeps_iunlockput keeps_stati : keeps.

(** The transfers: a kernel buffer needs no copy. *)
Definition copies_keep : Prop :=
  (∀ va l u, P u → wlp (copyout va l) (λ _, P) (λ _, False) u) ∧ (∀ va l u, P u → wlp (copyin va l) (λ _, P) (λ _, False) u).
Definition buf_ok (b : ubuf) : Prop := match b with UserBuf _ => copies_keep | KernBuf _ => True end.

Lemma either_copyout_keeps {B} dst l (k : Z * ubuf → M (fstate S U) B) :
  buf_ok dst → (∀ r dst', buf_ok dst' → keeps (k (r, dst'))) → keeps (either_copyout dst l ≫= k).
Proof.
  intros Hb Hk s Hs. unfold either_copyout. destruct dst as [va|bs].
  - apply wlp_bind. eapply wlp_bind, wlp_mono; [apply (keeps_user P); [|exact Hs]; apply Hb| |done]. cbv beta. intros r s' H'.
    wlp_step. by apply Hk.
  - apply wlp_bind. wlp_step. by apply Hk.
Qed.
Lemma either_copyin_keeps {B} src l (k : list Z * Z * ubuf → M (fstate S U) B) :
  buf_ok src → (∀ l r src', buf_ok src' → keeps (k (l, r, src'))) → keeps (either_copyin l src ≫= k).
Proof.
  intros Hb Hk s Hs. unfold either_copyin. destruct src as [va|bs].
  - apply wlp_bind. eapply wlp_bind, wlp_mono; [apply (keeps_user P); [|exact Hs]; apply Hb| |done]. cbv beta. intros [l' r] s' H'.
    wlp_step. by apply Hk.
  - apply wlp_bind. wlp_step. by apply Hk.
Qed.

Lemma keeps_readi_loop i dst off n tot k : buf_ok dst → keeps (readi_loop i dst off n tot k).
Proof.
  revert dst off tot. induction k as [|k IH]; intros dst off tot Hb; cbn [readi_loop]; keeps_go.
  apply either_copyout_keeps; [done|]. intros r dst' Hb'. keeps_go.
Qed.
Lemma keeps_readi i dst off n : buf_ok dst → keeps (readi i dst off n).
Proof. intros Hb. pose proof keeps_readi_loop. unfold readi. keeps_go. Qed.
Lemma keeps_writei_loop i src off n tot k : buf_ok src → keeps (writei_loop i src off n tot k).
Proof.
  revert src off tot. induction k as [|k IH]; intros src off tot Hb; cbn [writei_loop]; keeps_go.
  apply either_copyin_keeps; [done|]. intros l r src' Hb'. keeps_go.
Qed.
Lemma keeps_writei i src off n : buf_ok src → keeps (writei i src off n).
Proof. intros Hb. pose proof keeps_writei_loop. unfold writei. keeps_go. Qed.
Lemma buf_ok_kern l : buf_ok (KernBuf l).
Proof. done. Qed.
Hint Resolve keeps_readi keeps_writei buf_ok_kern : keeps.

Lemma keeps_read_dirent i off : keeps (read_dirent i off).
Proof. unfold read_dirent. keeps_go. Qed.
Hint Resolve keeps_read_dirent : keeps.
Lemma keeps_dirlookup_loop i nm off k : keeps (dirlookup_loop i nm off k).
Proof. revert off. induction k as [|k IH]; intros off; cbn [dirlookup_loop]; keeps_go. Qed.
Hint Resolve keeps_dirlookup_loop : keeps.
Lemma keeps_dirlookup i nm : keeps (dirlookup i nm).
Proof. unfold dirlookup. keeps_go. Qed.
Lemma keeps_dirlink_loop i de off k : keeps (dirlink_loop i de off k).
Proof. revert de off. induction k as [|k IH]; intros de off; cbn [dirlink_loop]; keeps_go. Qed.
Hint Resolve keeps_dirlookup keeps_dirlink_loop : keeps.
Lemma keeps_dirlink i nm n : keeps (dirlink pid i nm n).
Proof. unfold dirlink. keeps_go. Qed.
Lemma keeps_namex_loop i path par nm k : keeps (namex_loop pid i path par nm k).
Proof. revert i path nm. induction k as [|k IH]; intros i path nm; cbn [namex_loop]; keeps_go. Qed.
Hint Resolve keeps_dirlink keeps_namex_loop : keeps.
Lemma keeps_namex cwd path par nm : keeps (namex pid cwd path par nm).
Proof. unfold namex. keeps_go. Qed.
Hint Resolve keeps_namex : keeps.
Lemma keeps_namei cwd path : keeps (namei pid cwd path).
Proof. unfold namei. keeps_go. Qed.
Lemma keeps_nameiparent cwd path nm : keeps (nameiparent pid cwd path nm).
Proof. unfold nameiparent. keeps_go. Qed.
End fs.

#[export] Hint Resolve keeps_fsinit keeps_ialloc keeps_iget keeps_iupdate keeps_idup keeps_ilock keeps_iunlock keeps_itrunc keeps_iput keeps_iunlockput keeps_stati
  keeps_readi keeps_writei buf_ok_kern keeps_read_dirent keeps_dirlookup keeps_dirlink keeps_namei keeps_nameiparent : keeps.
