(* ===== verification/File.v ===== *)
(** * kernel/file.c and kernel/pipe.c: open files and pipes

    The state of the kernel above the file system: the file table, the pipes
    (by the address of their page) and the file system, whose user memory is
    the process table with the memory of the running process.  A
    [struct file *] is the number of its slot plus one; 0 is the null pointer.
    The locks [ftable.lock] and [pi->lock] are locks of the hart ([Proc]).

    [pipewrite] and [piperead] can sleep in their loops: the outcome is
    [Sleep], and the [_resume] functions continue after [sleep] returned, with
    the local variables that waited on the kernel stack as arguments. *)
From S2P Require Import Prelude Kstring Kalloc Vm Block BufCache Log Fs UserVm Proc.

(** ** Constants and data (param.h, file.h, stat.h, pipe.c) *)
Definition NFILE : Z := 100.
Definition NDEV : Z := 10.
Definition PIPESIZE : Z := 512.

Inductive ftype := FD_NONE | FD_PIPE | FD_INODE | FD_DEVICE.
#[global] Instance ftype_eq_dec : EqDecision ftype.
Proof. solve_decision. Defined.

Record file := File {
  f_type : ftype; f_ref : Z; f_readable : bool; f_writable : bool;
  f_pipe : Z; f_ip : Z; f_off : Z; f_major : Z
}.
Record pipe := Pipe {
  pi_data : list Z; pi_nread : Z; pi_nwrite : Z; pi_readopen : bool; pi_writeopen : bool
}.

Definition set_fref n f := File (f_type f) n (f_readable f) (f_writable f) (f_pipe f) (f_ip f) (f_off f) (f_major f).
Definition set_ftype t f := File t (f_ref f) (f_readable f) (f_writable f) (f_pipe f) (f_ip f) (f_off f) (f_major f).
Definition set_fmode r w f := File (f_type f) (f_ref f) r w (f_pipe f) (f_ip f) (f_off f) (f_major f).
Definition set_fpipe p f := File (f_type f) (f_ref f) (f_readable f) (f_writable f) p (f_ip f) (f_off f) (f_major f).
Definition set_fip i f := File (f_type f) (f_ref f) (f_readable f) (f_writable f) (f_pipe f) i (f_off f) (f_major f).
Definition set_foff o f := File (f_type f) (f_ref f) (f_readable f) (f_writable f) (f_pipe f) (f_ip f) o (f_major f).
Definition set_fmajor m f := File (f_type f) (f_ref f) (f_readable f) (f_writable f) (f_pipe f) (f_ip f) (f_off f) m.

Definition set_pread n p := Pipe (pi_data p) n (pi_nwrite p) (pi_readopen p) (pi_writeopen p).
Definition set_readopen b p := Pipe (pi_data p) (pi_nread p) (pi_nwrite p) b (pi_writeopen p).
Definition set_writeopen b p := Pipe (pi_data p) (pi_nread p) (pi_nwrite p) (pi_readopen p) b.
(** [pi->data[pi->nwrite++ % PIPESIZE] = ch] *)
Definition pipe_put ch p :=
  Pipe (<[Z.to_nat (pi_nwrite p `mod` PIPESIZE) := ch]> (pi_data p)) (pi_nread p) (u32 (pi_nwrite p + 1)) (pi_readopen p) (pi_writeopen p).
Definition pipe_get p : Z := pi_data p !!! Z.to_nat (pi_nread p `mod` PIPESIZE).

Record sys (S : Type) := Sys {
  sy_file : Z → file;              (* ftable.file *)
  sy_pipe : Z → pipe;              (* the pipe in the page at an address *)
  sy_fs : fstate S pstate;
  sy_ticks : Z                     (* ticks (trap.c) *)
}.
Arguments Sys {S}. Arguments sy_file {S}. Arguments sy_pipe {S}. Arguments sy_fs {S}. Arguments sy_ticks {S}.

(** The memory of the running process; [obj] is the address of the kernel
    object that is copied. *)
Definition Proc_copy (obj : Z) : UserCopy pstate := {|
  Fs.copyout va l := p ← curproc; pt ← field p_pagetable p; kern (@Fs.copyout _ (Vm_copy pt obj) va l);
  Fs.copyin va l := p ← curproc; pt ← field p_pagetable p; kern (@Fs.copyin _ (Vm_copy pt obj) va l)
|}.

Section file.
Context {S : Type} `{!BufCache S}.
(** Link-time addresses; the padding bytes of a [struct stat] on the stack; and
    the device switch: the [read] and [write] of [devsw[major]] (user address and
    count), where they are set. *)
Variables (kend obj ftable_lock : Z) (stat_pad : list Z).
Variables (devsw_read devsw_write : Z → option (Z → Z → M (sys S) Z)).
#[local] Instance copy : UserCopy pstate := Proc_copy obj.
Abbreviation sys := (sys S).
Implicit Types s : sys.

Definition put_file (f : Z) (x : file) s : sys := Sys (<[f := x]> (sy_file s)) (sy_pipe s) (sy_fs s) (sy_ticks s).
Definition put_pipe (pi : Z) (x : pipe) s : sys := Sys (sy_file s) (<[pi := x]> (sy_pipe s)) (sy_fs s) (sy_ticks s).
Definition put_fs (x : fstate S pstate) s : sys := Sys (sy_file s) (sy_pipe s) x (sy_ticks s).
Definition put_ticks (n : Z) s : sys := Sys (sy_file s) (sy_pipe s) (sy_fs s) n.
Definition upd_file (f : Z) (g : file → file) : M sys unit := modify (λ s, put_file f (g (sy_file s f)) s).
Definition upd_pipe (pi : Z) (g : pipe → pipe) : M sys unit := modify (λ s, put_pipe pi (g (sy_pipe s pi)) s).
Definition ffield {A} (g : file → A) (f : Z) : M sys A := gets (λ s, g (sy_file s f)).
Definition pfield {A} (g : pipe → A) (pi : Z) : M sys A := gets (λ s, g (sy_pipe s pi)).

Definition sys_procs s : pstate := fs_user (sy_fs s).
Definition set_sys_procs (p : pstate) s : sys := put_fs (set_user p (sy_fs s)) s.
(** Calls of proc.c, and of fs.c and log.c, whose [sleep] is that of proc.c. *)
Definition pr {A} (m : M pstate A) : M sys A := zoom sys_procs set_sys_procs m.
Definition fs {A} (m : M (fstate S pstate) A) : M sys A := λ s,
  match zoom sy_fs put_fs m s with
  | Sleep c s' => (pr (Proc.acquire (OTHER_LOCK c)) ;; pr (sleep c (OTHER_LOCK c))) s'
  | o => o
  end.
Definition mypid : M sys Z := p ← pr curproc; pr (field p_pid p).
Definition mycwd : M sys Z :=
  p ← pr curproc; c ← pr (field p_cwd p); match c with Some c => mret c | None => panic "kerneltrap" end.
Definition ucopyout (va : Z) (l : list Z) : M sys Z := pr (Fs.copyout va l).
Definition ucopyin (va : Z) (l : list Z) : M sys (list Z * Z) := pr (Fs.copyin va l).
(** [namei]; a path from the root needs no current directory. *)
Definition sys_namei (path : list Z) : M sys (option Z) :=
  p ← pr myproc;
  pid ← (match p with Some p => pr (field p_pid p) | None => mret 0 end);
  cwd ← (if bool_decide (head path = Some SLASH) then mret 0 else mycwd);
  fs (Fs.namei pid cwd path).
(** The [wakeup] calls of [end_op] and [releasesleep] are made here: the log
    and the inodes are what a sleeping process of the file system waits for. *)
Definition begin_op : M sys unit := fs (Fs.log Log.begin_op).
Definition end_op : M sys unit := fs (Fs.log Log.end_op) ;; pr (wakeup LOG_CHAN).
Definition iput (ip : Z) : M sys unit := pid ← mypid; fs (Fs.iput pid ip).
Definition ilock (ip : Z) : M sys unit := pid ← mypid; fs (Fs.ilock pid ip).
Definition iunlock (ip : Z) : M sys unit := pid ← mypid; fs (Fs.iunlock pid ip) ;; pr (wakeup ip).
Definition iunlockput (ip : Z) : M sys unit := iunlock ip ;; iput ip.
Definition idup (ip : Z) : M sys Z := fs (Fs.idup ip).

(** ** The file table *)

(** [initlock] leaves the lock free. *)
Definition fileinit : M sys unit :=
  pr (modify (λ ps, set_held (list_difference (ps_held ps) [OTHER_LOCK ftable_lock]) ps)).

Fixpoint filealloc_loop (f : Z) (k : nat) : M sys Z :=
  match k with
  | O => pr (release (OTHER_LOCK ftable_lock)) ;; mret 0
  | Datatypes.S k =>
      ref ← ffield f_ref f;
      if ref =? 0 then upd_file f (set_fref 1) ;; pr (release (OTHER_LOCK ftable_lock)) ;; mret f
      else filealloc_loop (f + 1) k
  end.
Definition filealloc : M sys Z := pr (acquire (OTHER_LOCK ftable_lock)) ;; filealloc_loop 1 (Z.to_nat NFILE).

Definition filedup (f : Z) : M sys Z :=
  pr (acquire (OTHER_LOCK ftable_lock)) ;;
  ref ← ffield f_ref f;
  if ref <? 1 then panic "filedup"
  else
    upd_file f (set_fref (s32 (ref + 1))) ;;
    pr (release (OTHER_LOCK ftable_lock)) ;;
    mret f.

(** ** Pipes *)

Definition nread_chan (pi : Z) : Z := pi + 536.
Definition nwrite_chan (pi : Z) : Z := pi + 540.

Definition pipeclose (pi : Z) (writable : bool) : M sys unit :=
  pr (acquire (OTHER_LOCK pi)) ;;
  (if writable then upd_pipe pi (set_writeopen false) ;; pr (wakeup (nread_chan pi))
   else upd_pipe pi (set_readopen false) ;; pr (wakeup (nwrite_chan pi))) ;;
  x ← pfield id pi;
  if negb (pi_readopen x) && negb (pi_writeopen x) then
    pr (release (OTHER_LOCK pi)) ;; pr (kern (kfree kend pi))
  else pr (release (OTHER_LOCK pi)).

(** The loop of [pipewrite] from [i]: [inl] a return inside it, [inr] the
    count at its end. *)
Fixpoint pipewrite_loop (p pi addr n i : Z) (fuel : nat) : M sys (Z + Z) :=
  match fuel with
  | O => λ _, NoFuel
  | Datatypes.S fuel =>
      if i <? n then
        x ← pfield id pi;
        k ← (if negb (pi_readopen x) then mret 1 else pr (killed p));
        if negb (pi_readopen x) || negb (k =? 0) then
          pr (release (OTHER_LOCK pi)) ;; mret (inl (-1))
        else if pi_nwrite x =? u32 (pi_nread x + PIPESIZE) then
          pr (wakeup (nread_chan pi)) ;;
          pr (sleep (nwrite_chan pi) (OTHER_LOCK pi))
        else
          '(l, r) ← ucopyin (u64 (addr + i)) [0];
          if r =? -1 then mret (inr i)
          else
            upd_pipe pi (pipe_put (l !!! 0%nat)) ;;
            pipewrite_loop p pi addr n (i + 1) fuel
      else mret (inr i)
  end.
(** Every round that does not sleep moves [i]. *)
Definition pipewrite_from (p pi addr n i : Z) : M sys Z :=
  r ← pipewrite_loop p pi addr n i (Z.to_nat (n - i) + 1);
  match r with
  | inl v => mret v
  | inr i => pr (wakeup (nread_chan pi)) ;; pr (release (OTHER_LOCK pi)) ;; mret i
  end.
Definition pipewrite (pi addr n : Z) : M sys Z :=
  p ← pr curproc; pr (acquire (OTHER_LOCK pi)) ;; pipewrite_from p pi addr n 0.
Definition pipewrite_resume (p pi addr n i : Z) : M sys Z :=
  pr (sleep_resume p (OTHER_LOCK pi)) ;; pipewrite_from p pi addr n i.

Fixpoint piperead_loop (pi addr n i : Z) (k : nat) : M sys Z :=
  match k with
  | O => mret i
  | Datatypes.S k =>
      x ← pfield id pi;
      if pi_nread x =? pi_nwrite x then mret i
      else
        let ch := pipe_get x in
        upd_pipe pi (set_pread (u32 (pi_nread x + 1))) ;;
        r ← ucopyout (u64 (addr + i)) [ch];
        if r =? -1 then mret i
        else piperead_loop pi addr n (i + 1) k
  end.
(** From the test of the first loop on. *)
Definition piperead_turn (p pi addr n : Z) : M sys Z :=
  x ← pfield id pi;
  if (pi_nread x =? pi_nwrite x) && pi_writeopen x then
    k ← pr (killed p);
    if negb (k =? 0) then pr (release (OTHER_LOCK pi)) ;; mret (-1)
    else pr (sleep (nread_chan pi) (OTHER_LOCK pi))
  else
    i ← piperead_loop pi addr n 0 (Z.to_nat n);
    pr (wakeup (nwrite_chan pi)) ;;
    pr (release (OTHER_LOCK pi)) ;;
    mret i.
Definition piperead (pi addr n : Z) : M sys Z :=
  p ← pr curproc; pr (acquire (OTHER_LOCK pi)) ;; piperead_turn p pi addr n.
Definition piperead_resume (p pi addr n : Z) : M sys Z :=
  pr (sleep_resume p (OTHER_LOCK pi)) ;; piperead_turn p pi addr n.

(** ** file.c *)

Definition fileclose (f : Z) : M sys unit :=
  pr (acquire (OTHER_LOCK ftable_lock)) ;;
  ff ← ffield id f;
  if f_ref ff <? 1 then panic "fileclose"
  else
    upd_file f (set_fref (f_ref ff - 1)) ;;
    if f_ref ff - 1 >? 0 then pr (release (OTHER_LOCK ftable_lock))
    else
      upd_file f (set_fref 0) ;;
      upd_file f (set_ftype FD_NONE) ;;
      pr (release (OTHER_LOCK ftable_lock)) ;;
      match f_type ff with
      | FD_PIPE => pipeclose (f_pipe ff) (f_writable ff)
      | FD_INODE | FD_DEVICE => begin_op ;; iput (f_ip ff) ;; end_op
      | FD_NONE => mret tt
      end.

(** [struct stat] as bytes. *)
Definition le_bytes (n : nat) (v : Z) : list Z := read_bytes (store_le (λ _, 0) 0 n v) 0 n.
Definition stat_bytes (st : stat) : list Z :=
  le_bytes 4 (st_dev st) ++ le_bytes 4 (st_ino st) ++ le_bytes 2 (st_type st) ++ le_bytes 2 (st_nlink st) ++
  stat_pad ++ le_bytes 8 (st_size st).

Definition filestat (f addr : Z) : M sys Z :=
  x ← ffield id f;
  match f_type x with
  | FD_INODE | FD_DEVICE =>
      ilock (f_ip x) ;;
      st ← fs (stati (f_ip x));
      iunlock (f_ip x) ;;
      r ← ucopyout addr (stat_bytes st);
      if r <? 0 then mret (-1) else mret 0
  | _ => mret (-1)
  end.

Definition fileread (f addr n : Z) : M sys Z :=
  x ← ffield id f;
  if negb (f_readable x) then mret (-1)
  else
    match f_type x with
    | FD_PIPE => piperead (f_pipe x) addr n
    | FD_DEVICE =>
        if (f_major x <? 0) || (f_major x >=? NDEV) then mret (-1)
        else match devsw_read (f_major x) with Some read => read addr n | None => mret (-1) end
    | FD_INODE =>
        ilock (f_ip x) ;;
        off ← ffield f_off f;
        '(r, _) ← fs (Fs.readi (f_ip x) (UserBuf addr) off (u32 n));
        (if r >? 0 then upd_file f (λ y, set_foff (u32 (f_off y + r)) y) else mret tt) ;;
        iunlock (f_ip x) ;;
        mret r
    | FD_NONE => panic "fileread"
    end.

(** [max] of [filewrite]: what one transaction can hold. *)
Definition write_max : Z := ((MAXOPBLOCKS - 1 - 1 - 2) / 2) * BSIZE.

Fixpoint filewrite_loop (f ip addr n i : Z) (fuel : nat) : M sys Z :=
  match fuel with
  | O => λ _, NoFuel
  | Datatypes.S fuel =>
      if i <? n then
        let n1 := if n - i >? write_max then write_max else n - i in
        begin_op ;;
        ilock ip ;;
        off ← ffield f_off f;
        r ← fs (Fs.writei ip (UserBuf (u64 (addr + i))) off n1);
        (if r >? 0 then upd_file f (λ y, set_foff (u32 (f_off y + r)) y) else mret tt) ;;
        iunlock ip ;;
        end_op ;;
        if negb (r =? n1) then mret i
        else filewrite_loop f ip addr n (i + r) fuel
      else mret i
  end.

Definition filewrite (f addr n : Z) : M sys Z :=
  x ← ffield id f;
  if negb (f_writable x) then mret (-1)
  else
    match f_type x with
    | FD_PIPE => pipewrite (f_pipe x) addr n
    | FD_DEVICE =>
        if (f_major x <? 0) || (f_major x >=? NDEV) then mret (-1)
        else match devsw_write (f_major x) with Some write => write addr n | None => mret (-1) end
    | FD_INODE =>
        i ← filewrite_loop f (f_ip x) addr n 0 (Z.to_nat (n / write_max) + 2);
        mret (if i =? n then n else -1)
    | FD_NONE => panic "filewrite"
    end.

Definition close_if (f : Z) : M sys unit := if f =? 0 then mret tt else fileclose f.

(** The two files, and 0 or -1; [data] is what the new page holds. *)
Definition pipealloc : M sys (Z * Z * Z) :=
  f0 ← filealloc;
  f1 ← (if f0 =? 0 then mret 0 else filealloc);
  if (f0 =? 0) || (f1 =? 0) then close_if f0 ;; close_if f1 ;; mret (f0, f1, -1)
  else
    pi ← pr (kern kalloc);
    if pi =? 0 then close_if f0 ;; close_if f1 ;; mret (f0, f1, -1)
    else
      m ← pr (gets (λ ps, k_mem (ps_k ps)));
      modify (put_pipe pi (Pipe (read_bytes m (pi + 24) (Z.to_nat PIPESIZE)) 0 0 true true)) ;;
      upd_file f0 (set_ftype FD_PIPE) ;;
      upd_file f0 (set_fmode true false) ;;
      upd_file f0 (set_fpipe pi) ;;
      upd_file f1 (set_ftype FD_PIPE) ;;
      upd_file f1 (set_fmode false true) ;;
      upd_file f1 (set_fpipe pi) ;;
      mret (f0, f1, 0).

(** What proc.c uses of this layer. *)
Definition sys_files : FileOps sys := {|
  t_procs := sys_procs;
  t_set_procs := set_sys_procs;
  Proc.filedup := filedup;
  Proc.fileclose := fileclose;
  Proc.idup := idup;
  Proc.iput := iput;
  Proc.begin_op := begin_op;
  Proc.end_op := end_op;
  Proc.namei := sys_namei
|}.
End file.
