(* ===== verification/PipeProps.v ===== *)
(** * Pipes are bounded queues

    The abstract state of a pipe is the queue of the bytes written and not yet
    read.  The counters [nread] and [nwrite] run modulo 2^32 over a ring of
    PIPESIZE bytes; PIPESIZE divides 2^32, so the ring position survives the
    wrap-around of a counter. *)
From S2P Require Import Prelude Kstring Kalloc Vm VmProps UvmProps CopyProps Block BufCache Log Fs FsIO UserVm Proc ProcProps File.

(** ** The ring *)

Record pipe_ok (x : pipe) : Prop := {
  pk_len : length (pi_data x) = 512%nat;
  pk_bytes : Forall (λ c, 0 ≤ c < 256) (pi_data x);
  pk_nread : 0 ≤ pi_nread x < 2 ^ 32;
  pk_nwrite : 0 ≤ pi_nwrite x < 2 ^ 32;
  pk_fits : u32 (pi_nwrite x - pi_nread x) ≤ PIPESIZE
}.

(** How many bytes are in the pipe, and which. *)
Definition pipe_count (x : pipe) : Z := u32 (pi_nwrite x - pi_nread x).
Definition ring_at (x : pipe) (k : Z) : Z := pi_data x !!! Z.to_nat ((pi_nread x + k) `mod` PIPESIZE).
Definition queue (x : pipe) : list Z := ring_at x <$> seqZ 0 (pipe_count x).

Lemma u32_mod z : u32 z `mod` PIPESIZE = z `mod` PIPESIZE.
Proof.
  unfold wrap. change PIPESIZE with 512. change (2 ^ 32) with 4294967296.
  rewrite (Z.mod_eq z 4294967296) by lia. replace (z - 4294967296 * (z / 4294967296)) with (z + (- 8388608 * (z / 4294967296)) * 512) by lia.
  apply Z.mod_add. lia.
Qed.
Lemma u32_add_sub z k : 0 ≤ u32 z + k < 2 ^ 32 → u32 (z + k) = u32 z + k.
Proof.
  unfold wrap. intros Hk. change (2 ^ 32) with 4294967296 in *. rewrite <- Z.add_mod_idemp_l by lia. by apply Z.mod_small.
Qed.
Lemma pipe_count_nonneg x : 0 ≤ pipe_count x.
Proof. apply u32_range. Qed.
Lemma length_queue x : Z.of_nat (length (queue x)) = pipe_count x.
Proof. unfold queue. rewrite length_fmap, length_seqZ. pose proof (pipe_count_nonneg x). lia. Qed.

Lemma queue_lookup x (i : nat) : Z.of_nat i < pipe_count x → queue x !! i = Some (ring_at x i).
Proof.
  intros Hi. unfold queue. rewrite list_lookup_fmap. assert (seqZ 0 (pipe_count x) !! i = Some (0 + Z.of_nat i)) as -> by (apply lookup_seqZ; lia). done.
Qed.

Lemma pipe_empty x : pipe_ok x → (pi_nread x =? pi_nwrite x) = bool_decide (queue x = []).
Proof.
  intros Hx. pose proof (pk_nread x Hx) as Hr. pose proof (pk_nwrite x Hx) as Hw. pose proof (length_queue x) as Hl.
  destruct (Z.eqb_spec (pi_nread x) (pi_nwrite x)) as [E|E].
  - rewrite bool_decide_eq_true_2; [done|]. unfold queue, pipe_count. rewrite E, Z.sub_diag. done.
  - rewrite bool_decide_eq_false_2; [done|]. intros Hq. rewrite Hq in Hl. unfold pipe_count, wrap in Hl. simpl in Hl.
    symmetry in Hl. apply Z.mod_divide in Hl; [|done]. destruct Hl as [c Hc]. change (2 ^ 32) with 4294967296 in *. lia.
Qed.
Lemma pipe_full x : pipe_ok x → (pi_nwrite x =? u32 (pi_nread x + PIPESIZE)) = (pipe_count x =? PIPESIZE).
Proof.
  intros Hx. pose proof (pk_nread x Hx) as Hr. pose proof (pk_nwrite x Hx) as Hw. pose proof (pk_fits x Hx) as Hf. unfold pipe_count, wrap in *.
  change PIPESIZE with 512 in *. change (2 ^ 32) with 4294967296 in *. apply eq_true_iff_eq. rewrite !Z.eqb_eq. split; intros E.
  - rewrite E, Zminus_mod_idemp_l. replace (pi_nread x + 512 - pi_nread x) with 512 by lia. done.
  - rewrite <- E, Zplus_mod_idemp_r. replace (pi_nread x + (pi_nwrite x - pi_nread x)) with (pi_nwrite x) by lia. by rewrite Z.mod_small.
Qed.

(** [pi->data[pi->nwrite++ % PIPESIZE] = ch] appends. *)
Lemma pipe_put_ok ch x : pipe_ok x → 0 ≤ ch < 256 → pipe_count x < PIPESIZE →
  pipe_ok (pipe_put ch x) ∧ queue (pipe_put ch x) = queue x ++ [ch].
Proof.
  intros Hx Hch Hn. pose proof (pk_nread x Hx) as Hr. pose proof (pk_nwrite x Hx) as Hw. pose proof (pipe_count_nonneg x) as H0.
  assert (Hc : pipe_count (pipe_put ch x) = pipe_count x + 1).
  { unfold pipe_count in *. simpl. change PIPESIZE with 512 in Hn. unfold wrap at 2. rewrite <- u32_add_sub by (change (2^32) with 4294967296; lia).
    unfold wrap. rewrite Zminus_mod_idemp_l. f_equal. lia. }
  assert (Hpos : (pi_nwrite x `mod` PIPESIZE) = (pi_nread x + pipe_count x) `mod` PIPESIZE).
  { unfold pipe_count. rewrite <- (Z.add_mod_idemp_r _ (u32 _)) by done. rewrite u32_mod, Z.add_mod_idemp_r by done. f_equal. lia. }
  pose proof (Z.mod_pos_bound (pi_nwrite x) PIPESIZE ltac:(done)) as Hb. split; [split|].
  - simpl. rewrite length_insert. apply Hx.
  - simpl. apply Forall_insert; [apply Hx|done].
  - done.
  - simpl. apply u32_range.
  - change (pipe_count (pipe_put ch x) ≤ PIPESIZE). lia.
  - unfold queue. rewrite Hc, seqZ_app, fmap_app by lia. f_equal.
    + apply list_fmap_ext. intros i k Hk. apply lookup_seqZ in Hk as [-> Hi]. unfold ring_at. simpl. rewrite list_lookup_total_insert_ne; [done|].
      change PIPESIZE with 512 in *. pose proof (Z.mod_pos_bound (pi_nread x + (0 + i)) 512 ltac:(lia)). intros E.
      assert (E' : pi_nwrite x `mod` 512 = (pi_nread x + (0 + i)) `mod` 512) by lia. rewrite Hpos in E'.
      assert ((pipe_count x - i) `mod` 512 = 0) as Hd.
      { replace (pipe_count x - i) with ((pi_nread x + pipe_count x) - (pi_nread x + (0 + i))) by lia. rewrite Zminus_mod, E', Z.sub_diag. done. }
      rewrite Z.mod_small in Hd; lia.
    + change (seqZ (0 + pipe_count x) 1) with [pipe_count x]. cbn [fmap list_fmap]. f_equal. unfold ring_at. cbn [pi_data pi_nread pipe_put].
      rewrite <- Hpos. rewrite list_lookup_total_insert_eq; [done|]. rewrite (pk_len x Hx). change PIPESIZE with 512 in *. lia.
Qed.

(** [ch = pi->data[pi->nread++ % PIPESIZE]] takes from the front. *)
Lemma pipe_get_ok x c q : pipe_ok x → queue x = c :: q →
  pipe_get x = c ∧ pipe_ok (set_pread (u32 (pi_nread x + 1)) x) ∧ queue (set_pread (u32 (pi_nread x + 1)) x) = q.
Proof.
  intros Hx Hq. pose proof (pk_nread x Hx) as Hr. pose proof (pk_nwrite x Hx) as Hw. pose proof (length_queue x) as Hl. rewrite Hq in Hl. simpl in Hl.
  pose proof (pk_fits x Hx) as Hf. fold (pipe_count x) in Hf. set (x' := set_pread _ _).
  assert (Hc : pipe_count x' = pipe_count x - 1).
  { unfold pipe_count in *. simpl. change PIPESIZE with 512 in Hf. pose proof (u32_range (pi_nwrite x - pi_nread x)).
    unfold Z.sub at 2. rewrite <- (u32_add_sub _ (-1)) by (change (2^32) with 4294967296; lia). unfold wrap. rewrite Zminus_mod_idemp_r. f_equal. lia. }
  assert (Hl' : Z.of_nat (length (queue x')) = length q) by (rewrite length_queue, Hc; lia).
  assert (H0 : queue x !! 0%nat = Some c) by (by rewrite Hq). rewrite queue_lookup in H0 by lia. injection H0 as <-. split_and!.
  - unfold pipe_get, ring_at. do 2 f_equal. by rewrite Z.add_0_r.
  - split; [apply Hx|apply Hx|apply u32_range|done|]. change (pipe_count x' ≤ PIPESIZE). lia.
  - apply list_eq_same_length with (length q); [done|lia|]. intros i a b Hi Ha Hb.
    rewrite queue_lookup in Ha by lia. assert (Hb' : queue x !! S i = Some b) by (by rewrite Hq). rewrite queue_lookup in Hb' by lia.
    injection Ha as <-. injection Hb' as <-. unfold ring_at. simpl. do 2 f_equal.
    rewrite <- Z.add_mod_idemp_l, u32_mod, Z.add_mod_idemp_l by done. f_equal. lia.
Qed.

Lemma pipe_get_byte x : pipe_ok x → 0 ≤ pipe_get x < 256.
Proof.
  intros Hx. pose proof (pk_bytes x Hx) as Hf. rewrite Forall_lookup in Hf. apply (Hf (Z.to_nat (pi_nread x `mod` PIPESIZE))).
  apply list_lookup_lookup_total_lt. rewrite (pk_len x Hx). pose proof (Z.mod_pos_bound (pi_nread x) PIPESIZE ltac:(done)).
  change PIPESIZE with 512 in *. lia.
Qed.

(** ** The memory of the process that uses the pipe *)

Section mem.
Variables (kend obj pt : Z) (tb : tables) (fl : list Z) (p : Z).
Context (kend_pos : 0 < kend) (Hobj : 0 ≤ obj ∧ obj + BSIZE ≤ kend).
#[local] Instance vcopy : UserCopy kstate := Vm_copy pt obj.
#[local] Instance pcopy : UserCopy pstate := Proc_copy obj.

(** The process runs with page table [pt], whose pages are [tb]. *)
Record pmem (s : pstate) : Prop := {
  pm_cpu : cpu_ok s;
  pm_cur : c_proc (ps_cpu s) = Some p;
  pm_pt : p_pagetable (ps_proc s p) = pt;
  pm_vm : uvm_inv kend pt tb fl (ps_k s)
}.
Definition pbyte (s : pstate) (a : Z) : option Z := ubyte (k_mem (ps_k s)) tb a.
Definition pcan (s : pstate) (a : Z) : Prop := is_Some (user_pa (k_mem (ps_k s)) tb a).

Lemma pbyte_range s a b : pmem s → pbyte s a = Some b → 0 ≤ b < 256.
Proof using.
  intros Hm. unfold pbyte, ubyte. destruct (user_pa _ _ _) as [pa|]; [|done]. intros [= <-].
  destruct (pm_vm s Hm) as [Hok _]. apply (ok_bytes _ _ _ (vm_kmem _ _ _ _ _ Hok)).
Qed.

(** Everything but the process's memory stays. *)
Record copied (s s' : pstate) : Prop := {
  cp_frame : frame s (ps_held s) s';
  cp_proc : ps_proc s' = ps_proc s;
  cp_next : ps_nextpid s' = ps_nextpid s;
  cp_mem : pmem s';
  cp_can : ∀ a, pcan s' a ↔ pcan s a
}.

Lemma kern_wp {A} (m : M kstate A) (Q : A → pstate → Prop) s : wp m (λ a k, Q a (set_k k s)) (ps_k s) → wp (kern m) Q s.
Proof using. unfold wp, kern, zoom. by destruct (m (ps_k s)). Qed.
Lemma copied_k s s1 k : pmem s → locks s (ps_held s) s1 → uvm_inv kend pt tb fl k →
  (∀ a, is_Some (user_pa (k_mem k) tb a) ↔ pcan s a) → copied s (set_k k s1).
Proof using.
  intros Hm [F Hp Hn _] Hk Hc. split; try done; [by apply frame_k|]. split; try done.
  - apply F.
  - simpl. rewrite (fr_cur _ _ _ F). apply Hm.
  - simpl. rewrite Hp. apply Hm.
Qed.

Lemma pcopyin_spec va l0 (Q : list Z * Z → pstate → Prop) s :
  pmem s → length l0 ≤ BSIZE → 0 ≤ va → va + length l0 < 2 ^ 64 → Forall (λ c, 0 ≤ c < 256) l0 →
  (∀ a, va ≤ a < va + length l0 → is_Some (pbyte s a)) →
  (∀ l s', copied s s' → (∀ a, pbyte s' a = pbyte s a) → length l = length l0 →
    (∀ i : nat, (i < length l0)%nat → l !! i = pbyte s (va + i)) → Q (l, 0) s') →
  wp (Fs.copyin va l0) Q s.
Proof using kend_pos Hobj.
  intros Hm Hlen Hva Hmax Hl Hs HQ. simpl. wp_step. apply (curproc_spec p); [apply Hm..|]. intros s1 L1. pose proof L1 as [F1 Hp1 Hn1 Hk1].
  unfold field. wp_step. wp_step. rewrite Hp1, (pm_pt s Hm). apply kern_wp. rewrite Hk1.
  pose proof (copyin_ok (UserCopyOk := Vm_copy_ok kend pt obj kend_pos Hobj tb fl) (ps_k s) va l0 (pm_vm s Hm) Hlen Hva Hmax Hs Hl) as Hw.
  eapply wp_mono; [exact Hw|]. cbv beta. intros [l r] k' (Hr&Hi&Hc&Hb&Hln&Hll). simpl in Hr. subst r. apply HQ; [by eapply copied_k|done..].
Qed.

Lemma pcopyout_spec va l (Q : Z → pstate → Prop) s :
  pmem s → length l ≤ BSIZE → 0 ≤ va → va + length l < 2 ^ 64 → Forall (λ c, 0 ≤ c < 256) l →
  (∀ a, va ≤ a < va + length l → pcan s a) →
  (∀ s', copied s s' → (∀ a, pbyte s' a = if decide (va ≤ a < va + length l) then l !! Z.to_nat (a - va) else pbyte s a) → Q 0 s') →
  wp (Fs.copyout va l) Q s.
Proof using kend_pos Hobj.
  intros Hm Hlen Hva Hmax Hl Hs HQ. simpl. wp_step. apply (curproc_spec p); [apply Hm..|]. intros s1 L1. pose proof L1 as [F1 Hp1 Hn1 Hk1].
  unfold field. wp_step. wp_step. rewrite Hp1, (pm_pt s Hm). apply kern_wp. rewrite Hk1.
  pose proof (copyout_ok (UserCopyOk := Vm_copy_ok kend pt obj kend_pos Hobj tb fl) (ps_k s) va l (pm_vm s Hm) Hlen Hva Hmax Hs Hl) as Hw.
  eapply wp_mono; [exact Hw|]. cbv beta. intros r k' (Hr&Hi&Hc&Hb). subst r. apply HQ; [by eapply copied_k|done..].
Qed.
End mem.

(** ** pipewrite and piperead *)

Section pipe.
Context {S : Type} `{!BufCache S}.
Variables (kend obj pt : Z) (tb : tables) (fl : list Z) (p pi : Z).
Abbreviation sys := (sys S).
Abbreviation pmem := (pmem kend pt tb fl p).
Abbreviation copied := (copied kend pt tb fl p).
Implicit Types t : sys.

Lemma pr_wp {A} (m : M pstate A) (Q : A → sys → Prop) t :
  wp m (λ a s', Q a (set_sys_procs s' t)) (sys_procs t) → wp (pr m) Q t.
Proof using. unfold wp, pr, zoom. by destruct (m (sys_procs t)). Qed.
Lemma pr_wps {A} (m : M pstate A) (Q : A → sys → Prop) R t :
  wps m (λ a s', Q a (set_sys_procs s' t)) (λ s', R (set_sys_procs s' t)) (sys_procs t) → wps (pr m) Q R t.
Proof using. unfold wps, pr, zoom. by destruct (m (sys_procs t)). Qed.

(** The process holds the pipe's lock. *)
Record at_pipe (t : sys) : Prop := {
  ap_mem : pmem (sys_procs t);
  ap_held : ps_held (sys_procs t) = [OTHER_LOCK pi];
  ap_killed : p_killed (ps_proc (sys_procs t) p) = 0;
  ap_pipe : pipe_ok (sy_pipe t pi)
}.
Definition q_of (t : sys) : list Z := queue (sy_pipe t pi).
Definition byte_at (t : sys) (a : Z) : option Z := pbyte tb (sys_procs t) a.
Definition can_at (t : sys) (a : Z) : Prop := pcan tb (sys_procs t) a.
(** The [n] bytes at [a] of the process's memory. *)
Definition from_user (t : sys) (a n : Z) : list Z := (λ k, default 0 (byte_at t (a + k))) <$> seqZ 0 n.

Lemma at_pipe_free t : at_pipe t → no_proc_lock (sys_procs t).
Proof using. intros H q. rewrite (ap_held t H). by intros ?%list_elem_of_singleton. Qed.
(** Locks, wakeups and copies keep the process at the pipe. *)
Lemma at_pipe_same t s' :
  at_pipe t → frame (sys_procs t) [OTHER_LOCK pi] s' → ps_proc s' p = ps_proc (sys_procs t) p → ps_k s' = ps_k (sys_procs t) → at_pipe (set_sys_procs s' t).
Proof using.
  intros [[] Hh Hk Hx] F Hp Hkk. split; try done.
  - split; cbn; [apply F|by rewrite (fr_cur _ _ _ F)|by rewrite Hp|by rewrite Hkk].
  - apply F.
  - cbn. by rewrite Hp.
Qed.
Lemma at_pipe_copied t s' : at_pipe t → copied (sys_procs t) s' → at_pipe (set_sys_procs s' t).
Proof using.
  intros [Hm Hh Hk Hx] [F Hp _ Hm' _]. split; try done; [cbn; rewrite <- Hh; apply F|cbn; by rewrite Hp].
Qed.
Lemma from_user_snoc t a j : 0 ≤ j → from_user t a (j + 1) = from_user t a j ++ [default 0 (byte_at t (a + j))].
Proof using. intros Hj. unfold from_user. rewrite seqZ_app, fmap_app by lia. done. Qed.
Lemma from_user_ext t t' a n : (∀ b, byte_at t' b = byte_at t b) → from_user t' a n = from_user t a n.
Proof using. intros E. unfold from_user. apply list_fmap_ext. intros i k _. by rewrite E. Qed.
Lemma from_user_cons t a n : 0 < n → from_user t a n = default 0 (byte_at t a) :: from_user t (a + 1) (n - 1).
Proof using.
  intros Hn. unfold from_user. rewrite seqZ_cons by done. cbn [fmap list_fmap]. rewrite Z.add_0_r. f_equal.
  rewrite <- (fmap_add_seqZ 1 0), <- list_fmap_compose. replace (Z.pred n) with (n - 1) by lia.
  apply list_fmap_ext. intros i k _. simpl. do 2 f_equal. lia.
Qed.

Definition asleep_on (c : Z) (t : sys) : Prop :=
  let x := ps_proc (sys_procs t) p in p_state x = SLEEPING ∧ p_chan x = c ∧ ps_held (sys_procs t) = [PROC_LOCK p].

(** [wakeup], [killed] and [sleep] at the pipe. *)
Lemma wakeup_at c (Q : unit → sys → Prop) t :
  at_pipe t → (∀ t', at_pipe t' → sy_pipe t' = sy_pipe t → ps_k (sys_procs t') = ps_k (sys_procs t) → Q tt t') → wp (pr (wakeup c)) Q t.
Proof using.
  intros Ht HQ. pose proof (ap_mem t Ht) as Hm. apply pr_wp, wakeup_spec; [apply Hm|by apply at_pipe_free|]. intros s' [F Hn Hk Hp].
  rewrite (ap_held t Ht) in F. apply HQ; [apply at_pipe_same; try done|done|done].
  rewrite Hp. case_decide; [|done]. unfold woken. rewrite decide_False; [done|]. rewrite (pm_cur _ _ _ _ _ _ Hm). naive_solver.
Qed.
Lemma killed_at (Q : Z → sys → Prop) t :
  at_pipe t → (∀ t', at_pipe t' → sy_pipe t' = sy_pipe t → ps_k (sys_procs t') = ps_k (sys_procs t) → Q 0 t') → wp (pr (killed p)) Q t.
Proof using.
  intros Ht HQ. pose proof (ap_mem t Ht) as Hm. apply pr_wp, killed_spec; [apply Hm|by apply at_pipe_free|]. intros s' [F Hp Hn Hk].
  rewrite (ap_killed t Ht). rewrite (ap_held t Ht) in F. apply HQ; [apply at_pipe_same; try done; by rewrite Hp|done|done].
Qed.
Lemma sleep_at {A} c (Q : A → sys → Prop) (R : sys → Prop) t :
  at_pipe t → (∀ t', asleep_on c t' → sy_pipe t' = sy_pipe t → ps_k (sys_procs t') = ps_k (sys_procs t) → R t') → wps (pr (sleep c (OTHER_LOCK pi))) Q R t.
Proof using.
  intros Ht HR. pose proof (ap_mem t Ht) as Hm. apply pr_wps, (sleep_spec p); [apply Hm|apply Hm|apply (ap_held t Ht)|done|].
  intros s' (F&Hn&Hk&_&b&[Hu _]). apply HR; [|done|done]. split; [cbn; by rewrite Hu|]. split; [cbn; by rewrite Hu|]. cbn. apply F.
Qed.
Lemma release_at (Q : unit → sys → Prop) t :
  at_pipe t → (∀ t', pmem (sys_procs t') → ps_held (sys_procs t') = [] → sy_pipe t' = sy_pipe t → ps_k (sys_procs t') = ps_k (sys_procs t) → Q tt t') →
  wp (pr (release (OTHER_LOCK pi))) Q t.
Proof using.
  intros Ht HQ. pose proof (ap_mem t Ht) as Hm. apply pr_wp, (release_head _ []); [apply Hm|apply (ap_held t Ht)|]. intros s' [F Hp Hn Hk].
  apply HQ; [|apply F|done|done]. split; cbn; [apply F|rewrite (fr_cur _ _ _ F); apply Hm|rewrite Hp; apply Hm|rewrite Hk; apply Hm].
Qed.
Lemma byte_at_k t t' : ps_k (sys_procs t') = ps_k (sys_procs t) → ∀ a, byte_at t' a = byte_at t a.
Proof using. intros E a. unfold byte_at, pbyte. by rewrite E. Qed.

(** The pipe got the bytes [i .. j) of the buffer at [addr]. *)
Definition sent (addr i j : Z) (t t' : sys) : Prop :=
  q_of t' = q_of t ++ from_user t (addr + i) (j - i) ∧ ∀ a, byte_at t' a = byte_at t a.
Lemma sent_nil addr i t t' : sy_pipe t' = sy_pipe t → ps_k (sys_procs t') = ps_k (sys_procs t) → sent addr i i t t'.
Proof using. intros E1 E2. split; [|by apply byte_at_k]. unfold q_of. by rewrite E1, Z.sub_diag, app_nil_r. Qed.
Lemma sent_trans addr i j k t t' t'' : i ≤ j ≤ k → sent addr i j t t' → sent addr j k t' t'' → sent addr i k t t''.
Proof using.
  intros Hij [Hq Hb] [Hq' Hb']. split; [|intros a; by rewrite Hb', Hb]. rewrite Hq', Hq, <- app_assoc. f_equal.
  rewrite (from_user_ext t t') by done. unfold from_user. replace (k - i) with ((j - i) + (k - j)) by lia. rewrite seqZ_app, fmap_app by lia. f_equal.
  replace (0 + (j - i)) with (j - i + 0) by lia. rewrite <- (fmap_add_seqZ (j - i) 0), <- list_fmap_compose. apply list_fmap_ext. intros n x _. simpl. do 2 f_equal. lia.
Qed.

Context (kend_pos : 0 < kend) (Hobj : 0 ≤ obj ∧ obj + BSIZE ≤ kend).

Lemma pipewrite_loop_spec addr n k i t :
  at_pipe t → pi_readopen (sy_pipe t pi) = true → 0 ≤ addr → addr + n < 2 ^ 64 → 0 ≤ i ≤ n → n - i < Z.of_nat k →
  (∀ a, addr ≤ a < addr + n → is_Some (byte_at t a)) →
  wps (pipewrite_loop obj p pi addr n i k)
    (λ r t', r = inr n ∧ at_pipe t' ∧ sent addr i n t t')
    (λ t', ∃ j, i ≤ j < n ∧ sent addr i j t t' ∧ Z.of_nat (length (q_of t')) = PIPESIZE ∧ asleep_on (nwrite_chan pi) t') t.
Proof using kend_pos Hobj.
  revert i t. induction k as [|k IH]; intros i t Ht Ho Ha Hmax Hi Hk Hb; [lia|]. cbn [pipewrite_loop].
  destruct (Z.ltb_spec i n) as [Hin|Hin]; [|assert (i = n) as -> by lia; split_and!; [done..|by apply sent_nil]].
  unfold pfield. apply wps_bind_wp, wp_gets. change (id (sy_pipe t pi)) with (sy_pipe t pi). rewrite Ho. cbn [negb orb]. apply wps_bind_wp, killed_at; [done|].
  intros t1 Ht1 Ep1 Ek1. change (negb (0 =? 0)) with false. cbn [negb orb]. rewrite <- Ep1. rewrite pipe_full by apply Ht1.
  assert (S1 : sent addr i i t t1) by (by apply sent_nil). destruct (Z.eqb_spec (pipe_count (sy_pipe t1 pi)) PIPESIZE) as [Hf|Hf].
  - apply wps_bind_wp, wakeup_at; [done|]. intros t2 Ht2 Ep2 Ek2. apply sleep_at; [done|]. intros t3 As Ep3 Ek3. exists i. split; [lia|].
    split; [apply sent_nil; congruence|]. split; [|done]. unfold q_of. rewrite length_queue. congruence.
  - destruct (Hb (addr + i)) as [c Hc]; [lia|]. assert (Hc1 : byte_at t1 (addr + i) = Some c) by (by rewrite (proj2 S1)).
    assert (Hcr : 0 ≤ c < 256) by (eapply pbyte_range; [apply Ht1|exact Hc1]).
    apply wps_bind_wp. unfold ucopyin. rewrite (wrap_small 64) by lia. apply pr_wp. simpl length.
    apply (pcopyin_spec kend obj pt tb fl p kend_pos Hobj); [apply Ht1|done|lia|simpl; lia|by repeat constructor| |].
    { intros a Ha'. simpl in Ha'. exists c. rewrite <- Hc1. unfold byte_at. f_equal. lia. }
    intros l s' Hcp Hby Hl Hll. change (0 =? -1) with false. cbv beta iota. specialize (Hll 0%nat (Nat.lt_0_succ 0)). rewrite Z.add_0_r in Hll.
    assert (Hhd : l !!! 0%nat = c). { apply list_lookup_total_correct. rewrite Hll. exact Hc1. } rewrite Hhd.
    set (t2 := set_sys_procs s' t1). unfold upd_pipe. apply wps_bind_wp, wp_modify.
    assert (Hlt : pipe_count (sy_pipe t1 pi) < PIPESIZE). { pose proof (pk_fits _ (ap_pipe t1 Ht1)) as H. fold (pipe_count (sy_pipe t1 pi)) in H. lia. }
    destruct (pipe_put_ok c (sy_pipe t1 pi) (ap_pipe t1 Ht1) Hcr Hlt) as [Hok3 Hq3].
    set (t3 := put_pipe pi _ t2). assert (Hp3 : sy_pipe t3 pi = pipe_put c (sy_pipe t1 pi)) by (unfold t3; cbn; apply fn_lookup_insert).
    assert (Ht3 : at_pipe t3).
    { destruct (at_pipe_copied t1 s' Ht1 Hcp) as [? ? ? ?]. split; try done. by rewrite Hp3. }
    assert (S3 : sent addr i (i + 1) t t3).
    { split; [|intros a; change (byte_at t3 a) with (pbyte tb s' a); rewrite Hby; apply S1]. unfold q_of at 1. rewrite Hp3, Hq3. rewrite (proj1 S1) at 1.
      replace (i + 1 - i) with (0 + 1) by lia. rewrite Z.sub_diag, from_user_snoc by lia. rewrite app_nil_r, Z.add_0_r, Hc. done. }
    eapply wps_mono; [apply (IH (i + 1) t3); try done; [by rewrite Hp3, <- Ho, <- Ep1|lia|lia|]|..].
    + intros a Ha'. rewrite (proj2 S3). auto.
    + cbv beta. intros r t' (->&Ht'&S'). split; [done|]. split; [done|]. eapply sent_trans; [|exact S3|exact S']. lia.
    + cbv beta. intros t' (j&Hj&S'&Hfull). exists j. split; [lia|]. split; [|done]. eapply sent_trans; [|exact S3|exact S']. lia.
Qed.

(** The process is about to use the pipe, without locks. *)
Record near_pipe (t : sys) : Prop := {
  np_mem : pmem (sys_procs t);
  np_held : ps_held (sys_procs t) = [];
  np_killed : p_killed (ps_proc (sys_procs t) p) = 0;
  np_pipe : pipe_ok (sy_pipe t pi)
}.
Lemma enter_pipe {A} (k : Z → M sys A) (Q : A → sys → Prop) R t :
  near_pipe t → (∀ t', at_pipe t' → sy_pipe t' = sy_pipe t → ps_k (sys_procs t') = ps_k (sys_procs t) → wps (k p) Q R t') →
  wps (q ← pr curproc; pr (acquire (OTHER_LOCK pi)) ;; k q) Q R t.
Proof using.
  intros [Hm Hh Hk Hx] HQ. apply wps_bind_wp, pr_wp, (curproc_spec p); [apply Hm..|]. intros s1 L1.
  apply wps_bind_wp, pr_wp, acquire_spec; [apply L1|cbn; rewrite (fr_held _ _ _ (lo_frame _ _ _ L1)), Hh; apply not_elem_of_nil|]. intros s2 L2.
  pose proof (locks_trans _ _ _ _ _ L1 L2) as L12. cbn in L12. rewrite (fr_held _ _ _ (lo_frame _ _ _ L1)), Hh in L12. pose proof L12 as [F Hp Hn Hkk].
  apply HQ; [|done|done]. split; [split; cbn|apply F| |done].
  - apply F.
  - rewrite (fr_cur _ _ _ F). apply Hm.
  - rewrite Hp. apply Hm.
  - rewrite Hkk. apply Hm.
  - cbn. by rewrite Hp.
Qed.

(** C16: pipewrite appends the process's bytes to the pipe's queue, in order and
    across the wrap-around of the counters: it writes all [n] bytes and gives
    the lock back, or it goes to sleep after some of them, and then the queue
    is full. *)
Theorem pipewrite_appends addr n t :
  near_pipe t → pi_readopen (sy_pipe t pi) = true → 0 ≤ addr → 0 ≤ n → addr + n < 2 ^ 64 →
  (∀ a, addr ≤ a < addr + n → is_Some (byte_at t a)) →
  wps (pipewrite obj pi addr n)
    (λ r t', r = n ∧ q_of t' = q_of t ++ from_user t addr n ∧ pipe_ok (sy_pipe t' pi) ∧ ps_held (sys_procs t') = [] ∧
      ∀ a, byte_at t' a = byte_at t a)
    (λ t', ∃ j, 0 ≤ j < n ∧ q_of t' = q_of t ++ from_user t addr j ∧ Z.of_nat (length (q_of t')) = PIPESIZE ∧
      asleep_on (nwrite_chan pi) t') t.
Proof using kend_pos Hobj.
  intros Ht Ho Ha Hn Hmax Hb. unfold pipewrite. apply enter_pipe; [done|]. intros t1 Ht1 Ep1 Ek1. unfold pipewrite_from.
  assert (S1 : sent addr 0 0 t t1) by (by apply sent_nil).
  apply wps_bind. eapply wps_mono; [apply (pipewrite_loop_spec addr n); try done; [by rewrite Ep1|lia|intros a Ha'; rewrite (proj2 S1); auto]|..]; cbv beta.
  - intros r t2 (->&Ht2&S2). cbv iota. apply wps_bind_wp, wakeup_at; [done|]. intros t3 Ht3 Ep3 Ek3.
    apply wps_bind_wp, release_at; [done|]. intros t4 Hm4 Hh4 Ep4 Ek4. assert (S4 : sent addr 0 n t t4).
    { eapply sent_trans; [|exact S1|]; [lia|]. eapply sent_trans; [|exact S2|]; [lia|]. apply sent_nil; congruence. }
    destruct S4 as [Hq Hby]. rewrite Z.add_0_r, Z.sub_0_r in Hq. split_and!; try done. rewrite Ep4. apply Ht3.
  - intros t2 (j&Hj&S2&Hfull&As). exists j. split; [done|]. destruct (sent_trans addr 0 0 j t t1 t2) as [Hq _]; [lia|done..|].
    rewrite Z.add_0_r, Z.sub_0_r in Hq. done.
Qed.

(** The process got the first [m] bytes of the queue at [a0]. *)
Definition received (a0 : Z) (m : nat) (t t' : sys) : Prop :=
  q_of t' = drop m (q_of t) ∧ (∀ a, can_at t' a ↔ can_at t a) ∧
  ∀ a, byte_at t' a = if decide (a0 ≤ a < a0 + m) then q_of t !! Z.to_nat (a - a0) else byte_at t a.
Lemma received_nil a0 t t' : sy_pipe t' = sy_pipe t → ps_k (sys_procs t') = ps_k (sys_procs t) → received a0 0 t t'.
Proof using.
  intros E1 E2. split; [unfold q_of; by rewrite E1|]. split; [intros a; unfold can_at, pcan; by rewrite E2|].
  intros a. rewrite decide_False by lia. by apply byte_at_k.
Qed.
Lemma received_then a0 m n t t' t'' : received a0 m t t' → received (a0 + m) n t' t'' → received a0 (m + n) t t''.
Proof using.
  intros (Hq&Hc&Hb) (Hq'&Hc'&Hb'). split; [by rewrite Hq', Hq, drop_drop|]. split; [intros a; by rewrite Hc', Hc|].
  intros a. rewrite Hb', Hb, Hq. repeat case_decide; try lia; try done. rewrite lookup_drop. f_equal. lia.
Qed.

Lemma piperead_loop_spec addr n k i t :
  at_pipe t → 0 ≤ addr → 0 ≤ i → addr + i + Z.of_nat k < 2 ^ 64 → (∀ a, addr + i ≤ a < addr + i + k → can_at t a) →
  wp (piperead_loop obj pi addr n i k) (λ r t', let m := (k `min` length (q_of t))%nat in
    r = i + m ∧ at_pipe t' ∧ received (addr + i) m t t') t.
Proof using kend_pos Hobj.
  revert i t. induction k as [|k IH]; intros i t Ht Ha Hi Hmax Hb; cbn [piperead_loop].
  { wp_step. split; [lia|]. split; [done|by apply received_nil]. }
  unfold pfield, upd_pipe, ucopyout. wp_step. apply wp_gets. change (id (sy_pipe t pi)) with (sy_pipe t pi). rewrite pipe_empty by apply Ht.
  change (queue (sy_pipe t pi)) with (q_of t). destruct (q_of t) as [|c q] eqn:Hq.
  { rewrite bool_decide_eq_true_2 by done. wp_step. simpl. split; [lia|]. split; [done|by apply received_nil]. }
  rewrite bool_decide_eq_false_2 by done. destruct (pipe_get_ok _ c q (ap_pipe t Ht) Hq) as (Hget&Hok1&Hq1). rewrite Hget.
  wp_step. apply wp_modify. set (t1 := put_pipe pi _ t). assert (Hp1 : sy_pipe t1 pi = set_pread (u32 (pi_nread (sy_pipe t pi) + 1)) (sy_pipe t pi)).
  { unfold t1. cbn. apply fn_lookup_insert. }
  assert (Ht1 : at_pipe t1) by (destruct Ht; split; try done; by rewrite Hp1).
  assert (Hcr : 0 ≤ c < 256) by (rewrite <- Hget; apply pipe_get_byte, Ht).
  wp_step. rewrite (wrap_small 64) by lia. apply pr_wp.
  apply (pcopyout_spec kend obj pt tb fl p kend_pos Hobj); [apply Ht1|done|lia|simpl; lia|by apply Forall_singleton|intros a Ha'; simpl in Ha'; apply Hb; lia|].
  intros s' Hcp Hby. change (0 =? -1) with false. cbv iota. set (t2 := set_sys_procs s' t1).
  assert (R2 : received (addr + i) 1 t t2).
  { split; [|split].
    - unfold q_of at 1. change (sy_pipe t2) with (sy_pipe t1). rewrite Hp1, Hq1, Hq. done.
    - apply Hcp.
    - intros a. change (byte_at t2 a) with (pbyte tb s' a). rewrite Hby, Hq. simpl length.
      repeat case_decide; try lia; [|done]. by replace (Z.to_nat (a - (addr + i))) with 0%nat by lia. }
  eapply wp_mono; [apply (IH (i + 1) t2); try lia; [by apply at_pipe_copied|]|].
  { intros a Ha'. apply (proj1 (proj2 R2)), Hb. lia. }
  cbv beta zeta. intros r t' (->&Ht'&R'). rewrite (proj1 R2), Hq in R' |- *. simpl in *. rewrite drop_0 in *. split; [lia|]. split; [done|].
  replace (addr + (i + 1)) with (addr + i + 1%nat) in R' by lia. by apply (received_then _ 1 _ t t2 t').
Qed.

(** C17: piperead gives the process the oldest bytes of the queue, in order:
    as many as there are and as it asked for, at the address it gave, and
    nothing else of its memory changes; it goes to sleep exactly when the pipe
    is empty and has a writer. *)
Theorem piperead_takes addr n t :
  near_pipe t → 0 ≤ addr → 0 ≤ n → addr + n < 2 ^ 64 → (∀ a, addr ≤ a < addr + n → can_at t a) →
  wps (piperead obj pi addr n)
    (λ r t', let m := (Z.to_nat n `min` length (q_of t))%nat in
      ¬ (q_of t = [] ∧ pi_writeopen (sy_pipe t pi) = true) ∧
      r = m ∧ q_of t' = drop m (q_of t) ∧ pipe_ok (sy_pipe t' pi) ∧ ps_held (sys_procs t') = [] ∧
      ∀ a, byte_at t' a = if decide (addr ≤ a < addr + m) then q_of t !! Z.to_nat (a - addr) else byte_at t a)
    (λ t', q_of t = [] ∧ pi_writeopen (sy_pipe t pi) = true ∧ q_of t' = [] ∧ asleep_on (nread_chan pi) t') t.
Proof using kend_pos Hobj.
  intros Ht Ha Hn Hmax Hb. unfold piperead. apply enter_pipe; [done|]. intros t1 Ht1 Ep1 Ek1. unfold piperead_turn, pfield.
  apply wps_bind_wp, wp_gets. change (id (sy_pipe t1 pi)) with (sy_pipe t1 pi). rewrite pipe_empty by apply Ht1. rewrite Ep1.
  change (queue (sy_pipe t pi)) with (q_of t). destruct (bool_decide (q_of t = []) && pi_writeopen (sy_pipe t pi)) eqn:Hs.
  - apply andb_true_iff in Hs as [Hq%bool_decide_eq_true_1 Hw]. apply wps_bind_wp, killed_at; [done|]. intros t2 Ht2 Ep2 Ek2.
    change (negb (0 =? 0)) with false. cbv iota. apply sleep_at; [done|]. intros t3 As Ep3 Ek3. split; [done|]. split; [done|]. split; [|done].
    unfold q_of. rewrite Ep3, Ep2, Ep1. done.
  - apply wps_wp. assert (R1 : received addr 0 t t1) by (by apply received_nil). wp_step.
    eapply wp_mono; [apply (piperead_loop_spec addr n (Z.to_nat n) 0 t1 Ht1); try lia|].
    { intros a Ha'. apply (proj1 (proj2 R1)), Hb. lia. }
    cbv beta zeta. intros r t2 (->&Ht2&R2). rewrite Z.add_0_r in R2. rewrite (proj1 R1), drop_0 in R2 |- *.
    wp_step. apply wakeup_at; [done|]. intros t3 Ht3 Ep3 Ek3. wp_step. apply release_at; [done|]. intros t4 Hm4 Hh4 Ep4 Ek4. wp_step.
    set (m := (_ `min` _)%nat) in *. pose proof (received_then addr 0 m t t1 t2 R1) as R. rewrite Z.add_0_r in R. destruct (R R2) as (Hq&_&Hby).
    split_and!; [|lia| |rewrite Ep4; apply Ht3|done|].
    + intros [Hq0 Hw]. by rewrite Hq0, Hw in Hs.
    + unfold q_of at 1. by rewrite Ep4, Ep3.
    + intros a. rewrite (byte_at_k t2 t4) by congruence. apply Hby.
Qed.
End pipe.

(** ** A pipe whose counters wrap around

    The process of [VmDemo] uses a pipe that holds one byte and whose write
    counter is about to pass 2^32. *)

From S2P Require Import VmDemo Bio BioProps BioSpec LogDemo FsDemo ProcSteps.

Module PipeDemo.

#[local] Instance cache : BufCache bstate := Bio_cache 7.

Definition proc1 : proc := set_state RUNNING (set_pid 1 (set_pagetable VmDemo.root0 blank)).
Definition procs2 : pstate :=
  PState (λ _, proc1) 2 [] (Some 0) (Cpu (Some 0) 0 false true) VmDemo.state0 false.
Definition pipe1 : pipe := Pipe (<[510%nat := 9]> (replicate 512 0)) (2 ^ 32 - 2) (2 ^ 32 - 1) true true.
Definition sys2 : sys bstate :=
  Sys (λ _, File FD_NONE 0 false false 0 0 0 0) (λ _, pipe1)
    (FState false ∅ (Superblock 0 0 0 0 0 0 0 0) (LogDemo.log0 (BState false ∅ BioDemo.disk0)) procs2) 0.

Lemma pobj_low : 0 ≤ 0 ∧ 0 + BSIZE ≤ VmDemo.kend0.
Proof. done. Qed.
Lemma queue1 : queue pipe1 = [9].
Proof. vm_compute. reflexivity. Qed.
Lemma near2 : near_pipe VmDemo.kend0 VmDemo.root0 VmDemo.tables0 VmDemo.free0 0 77 sys2.
Proof.
  split; try done; split; try done.
  - split; [done|]. split; [done|apply NoDup_nil_2].
  - split; [apply VmDemo.state0_ok|apply VmDemo.uspace0].
  - apply (Forall_insert _ (replicate 512 0) 510 9); [by apply Forall_replicate|done].
Qed.
Lemma mapped2 a : 0 ≤ a < 4096 → can_at VmDemo.tables0 sys2 a.
Proof. apply FsDemo.user_page. Qed.
Lemma user2 : from_user VmDemo.tables0 sys2 0 3 = [0; 0; 0].
Proof. vm_compute. reflexivity. Qed.

(** Three bytes follow the one in the pipe. *)
Lemma pipewrite_appends_witness :
  wps (pipewrite 0 77 0 3) (λ r t', r = 3 ∧ queue (sy_pipe t' 77) = [9; 0; 0; 0]) (λ _, False) sys2.
Proof.
  eapply wps_mono; [apply (pipewrite_appends VmDemo.kend0 0 VmDemo.root0 VmDemo.tables0 VmDemo.free0 0 77 VmDemo.kend0_pos pobj_low 0 3 sys2 near2); try done|..].
  - intros a Ha. destruct (mapped2 a) as [pa Hpa]; [lia|]. unfold byte_at, pbyte, ubyte. rewrite Hpa. by eexists.
  - cbv beta. intros r t' (->&Hq&_). split; [done|]. unfold q_of in Hq. change (sy_pipe sys2 77) with pipe1 in Hq. by rewrite queue1, user2 in Hq.
  - cbv beta. intros t' (j&Hj&Hq&Hl&_). rewrite Hq in Hl. unfold q_of in Hl. change (sy_pipe sys2 77) with pipe1 in Hl. rewrite queue1 in Hl.
    unfold from_user in Hl. rewrite length_app, length_fmap, length_seqZ in Hl. change PIPESIZE with 512 in Hl. simpl in Hl. lia.
Defined.

(** The process asks for ten bytes and gets one. *)
Lemma piperead_takes_witness :
  wps (piperead 0 77 100 10) (λ r t', r = 1 ∧ queue (sy_pipe t' 77) = [] ∧ byte_at VmDemo.tables0 t' 100 = Some 9) (λ _, False) sys2.
Proof.
  assert (Hq0 : q_of 77 sys2 = [9]) by exact queue1.
  eapply wps_mono; [apply (piperead_takes VmDemo.kend0 0 VmDemo.root0 VmDemo.tables0 VmDemo.free0 0 77 VmDemo.kend0_pos pobj_low 100 10 sys2 near2); try done|..].
  - intros a Ha. apply mapped2. lia.
  - cbv beta zeta. rewrite Hq0. intros r t' (_&->&Hq&_&_&Hb). split; [done|]. split; [exact Hq|]. rewrite Hb. done.
  - cbv beta. rewrite Hq0. intros t' (?&_). done.
Defined.
End PipeDemo.
