(* ===== verification/FileSafe.v ===== *)
(** * The file layer and the process table

    Every function of file.c and pipe.c keeps an assertion on the process
    table that survives locks, memory and wakeups ([stable]).  [holds L m L']
    is the rule: [m] starts with the locks [L] and, when it returns [a], ends
    with [L' a]; when it sleeps, the process has left. *)
From S2P Require Import Prelude Kstring Kalloc Vm Block BufCache Log Fs UserVm Proc ProcProps ProcTable ProcFork ProcInv Crit FsKeeps File.

Create HintDb holds.

Section rules.
Context {S : Type} `{!BufCache S}.
Context (o : option Z) (P : list lockid → pstate → Prop) (R : pstate → Prop) (Hst : stable o P R).
Abbreviation sys := (sys S).

Definition holds {A} (L : list lockid) (m : M sys A) (L' : A → list lockid) : Prop :=
  ∀ t, P L (sys_procs t) → wlp m (λ a t', P (L' a) (sys_procs t')) (λ t', R (sys_procs t')) t.

Lemma holds_ret {A} (a : A) L L' : L = L' a → holds L (mret a) L'.
Proof using. intros -> t H. exact H. Qed.
Lemma holds_gets {A} (f : sys → A) L : holds L (gets f) (λ _, L).
Proof using. intros t H. exact H. Qed.
Lemma holds_modify (f : sys → sys) L : (∀ t, sys_procs (f t) = sys_procs t) → holds L (modify f) (λ _, L).
Proof using. intros Hf t H. unfold wlp, modify. by rewrite Hf. Qed.
Lemma holds_panic {A} e L L' : holds L (panic (A := A) e) L'.
Proof using. done. Qed.
Lemma holds_nofuel {A} L L' : holds (A := A) L (λ _, NoFuel) L'.
Proof using. done. Qed.
Lemma holds_nofuel' {A} L L' : holds (A := A) L nofuel L'.
Proof using. done. Qed.
Lemma holds_bind {A B} (m : M sys A) (k : A → M sys B) L L1 L2 :
  holds L m L1 → (∀ a, holds (L1 a) (k a) L2) → holds L (m ≫= k) L2.
Proof using. intros Hm Hk t H. eapply wlp_bind, wlp_mono; [by apply Hm| |done]. cbv beta. intros a t'. apply Hk. Qed.
Lemma pr_wlp {A} (m : M pstate A) (Q : A → sys → Prop) (R' : sys → Prop) t :
  wlp m (λ a s', ∀ t', sys_procs t' = s' → Q a t') (λ s', ∀ t', sys_procs t' = s' → R' t') (sys_procs t) → wlp (pr m) Q R' t.
Proof using. unfold wlp, pr, zoom. destruct (m (sys_procs t)); try done; intros H; by apply H. Qed.
Lemma holds_pr {A} (m : M pstate A) L L' :
  (∀ s, P L s → wlp m (λ a, P (L' a)) R s) → holds L (pr m) L'.
Proof using. intros Hm t H. apply pr_wlp. eapply wlp_mono; [by apply Hm|..]; cbv beta; by intros; subst. Qed.
Lemma holds_curproc {B} p (k : Z → M sys B) L L2 : o = Some p → holds L (k p) L2 → holds L (pr curproc ≫= k) L2.
Proof using Hst.
  intros Ho Hk t H. eapply wlp_bind, pr_wlp, wlp_mono; [by apply (curproc_st o P R Hst L _ H p (λ _, False))| |done]. cbv beta.
  intros ? s' [-> H'] t' <-. by apply Hk.
Qed.
Lemma holds_myproc {B} (k : option Z → M sys B) L L2 : holds L (k o) L2 → holds L (pr myproc ≫= k) L2.
Proof using Hst.
  intros Hk t H. eapply wlp_bind, pr_wlp, wlp_mono; [by apply (myproc_st o P R Hst L _ H (λ _, False))| |done]. cbv beta.
  intros ? s' [-> H'] t' <-. by apply Hk.
Qed.
Lemma holds_acquire a L : holds L (pr (acquire (OTHER_LOCK a))) (λ _, OTHER_LOCK a :: L).
Proof using Hst. apply holds_pr. intros s H. by apply (acquire_st o P R Hst). Qed.
Lemma holds_release l L : holds (l :: L) (pr (release l)) (λ _, L).
Proof using Hst. apply holds_pr. intros s H. by apply (release_st o P R Hst (l :: L)). Qed.
Lemma holds_field {A} (f : proc → A) q L : holds L (pr (field f q)) (λ _, L).
Proof using. apply holds_pr. done. Qed.
Lemma holds_reads {A} (f : pstate → A) L : holds L (pr (gets f)) (λ _, L).
Proof using. apply holds_pr. done. Qed.
Lemma holds_kern {A} (m : M kstate A) L : awake m → holds L (pr (kern m)) (λ _, L).
Proof using Hst. intros Hm. apply holds_pr. intros s H. by apply (kern_st o P R Hst). Qed.
Lemma holds_wakeup c L : holds L (pr (wakeup c)) (λ _, L).
Proof using Hst. apply holds_pr. intros s H. by apply (wakeup_st o P R Hst). Qed.
Lemma holds_killed q L : holds L (pr (killed q)) (λ _, L).
Proof using Hst. apply holds_pr. intros s H. by apply (killed_st o P R Hst). Qed.
Lemma holds_sleep {A} p c lk (L' : A → list lockid) : o = Some p → holds [lk] (pr (sleep c lk)) L'.
Proof using Hst. intros Ho. apply holds_pr. intros s H. by apply (sleep_st o P R Hst [lk] _ H p). Qed.
Lemma holds_fs {A} p (m : M (fstate S pstate) A) : o = Some p → keeps (P []) m → holds [] (fs m) (λ _, []).
Proof using Hst.
  intros Ho Hm t H. specialize (Hm (sy_fs t) H). revert Hm. unfold fs, zoom, wlp at 1 2.
  destruct (m (sy_fs t)) as [a s'|e|c s'|]; try done. intros H'. eapply wlp_bind, wlp_mono; [by apply (holds_acquire c [])| |done].
  intros ? t' H''. by apply (holds_sleep p).
Qed.
End rules.

(** Goes through a function's body. *)
#[export] Hint Resolve holds_gets holds_panic holds_nofuel holds_nofuel' : holds.
#[export] Hint Extern 0 (holds _ _ _ (mret _) _) => (apply holds_ret; reflexivity) : holds.
#[export] Hint Extern 0 (holds _ _ _ (modify _) _) => (apply holds_modify; done) : holds.
#[export] Hint Extern 0 (holds _ _ _ (upd_file _ _) _) => (apply holds_modify; done) : holds.
#[export] Hint Extern 0 (holds _ _ _ (upd_pipe _ _) _) => (apply holds_modify; done) : holds.
#[export] Hint Extern 0 (holds _ _ _ (ffield _ _) _) => (apply holds_gets) : holds.
#[export] Hint Extern 0 (holds _ _ _ (pfield _ _) _) => (apply holds_gets) : holds.
#[export] Hint Extern 0 (holds _ _ _ (pr (field _ _)) _) => (apply holds_field) : holds.
#[export] Hint Extern 0 (holds _ _ _ (pr (gets _)) _) => (apply holds_reads) : holds.
#[export] Hint Extern 0 (holds _ _ _ (pr (acquire _)) _) => (eapply holds_acquire; eassumption) : holds.
#[export] Hint Extern 0 (holds _ _ _ (pr (release _)) _) => (eapply holds_release; eassumption) : holds.
#[export] Hint Extern 0 (holds _ _ _ (pr (kern _)) _) => (eapply holds_kern; [eassumption|by auto with awake]) : holds.
#[export] Hint Extern 0 (holds _ _ _ (pr (wakeup _)) _) => (eapply holds_wakeup; eassumption) : holds.
#[export] Hint Extern 0 (holds _ _ _ (pr (killed _)) _) => (eapply holds_killed; eassumption) : holds.
#[export] Hint Extern 0 (holds _ _ _ (pr (sleep _ _)) _) => (eapply holds_sleep; [eassumption|reflexivity]) : holds.
#[export] Hint Extern 1 (holds _ _ _ (fs _) _) => (eapply holds_fs; [eassumption|reflexivity|by auto with keeps]) : holds.

Ltac holds_go :=
  repeat first
    [ solve [eauto 3 with holds]
    | lazymatch goal with
      | |- holds _ _ _ (mbind _ (pr curproc)) _ => eapply holds_curproc; [eassumption|reflexivity|]
      | |- holds _ _ _ (mbind _ (pr myproc)) _ => eapply holds_myproc; [eassumption|]
      | |- holds _ _ ?L (mbind _ (if _ then _ else _)) _ => eapply (holds_bind _ _ _ _ _ (λ _, L)); [|intros ?]
      | |- holds _ _ ?L (mbind _ (match _ with _ => _ end)) _ => eapply (holds_bind _ _ _ _ _ (λ _, L)); [|intros ?]
      | |- holds _ _ _ (mbind _ _) _ => eapply holds_bind; [solve [eauto 3 with holds]|intros ?; cbv beta]
      | |- holds _ _ _ (if ?b then _ else _) _ => destruct b
      | |- holds _ _ _ (match ?x with _ => _ end) _ => destruct x eqn:?
      | |- holds _ _ _ (let _ := _ in _) _ => cbv zeta
      end ].

Section file.
Context {S : Type} `{!BufCache S}.
Variables (kend obj ftable_lock : Z) (stat_pad : list Z).
Context (p : Z) (P : list lockid → pstate → Prop) (R : pstate → Prop) (Hst : stable (Some p) P R).
Abbreviation sys := (sys S).
Abbreviation holds := (holds (S := S) P R).
#[local] Instance copy : UserCopy pstate := Proc_copy obj.

Lemma holds_mypid L : holds L mypid (λ _, L).
Proof using Hst. unfold mypid. holds_go. Qed.
Lemma holds_mycwd L : holds L mycwd (λ _, L).
Proof using Hst. unfold mycwd. holds_go. Qed.
Hint Resolve holds_mypid holds_mycwd : holds.
Lemma holds_begin_op : holds [] begin_op (λ _, []).
Proof using Hst. unfold begin_op. holds_go. Qed.
Lemma holds_end_op : holds [] end_op (λ _, []).
Proof using Hst. unfold end_op. holds_go. Qed.
Lemma holds_iput i : holds [] (iput i) (λ _, []).
Proof using Hst. unfold iput. holds_go. Qed.
Lemma holds_ilock i : holds [] (ilock i) (λ _, []).
Proof using Hst. unfold ilock. holds_go. Qed.
Lemma holds_iunlock i : holds [] (iunlock i) (λ _, []).
Proof using Hst. unfold iunlock. holds_go. Qed.
Hint Resolve holds_begin_op holds_end_op holds_iput holds_ilock holds_iunlock : holds.
Lemma holds_iunlockput i : holds [] (iunlockput i) (λ _, []).
Proof using Hst. unfold iunlockput. holds_go. Qed.
Hint Resolve holds_iunlockput : holds.
Lemma holds_namei path : holds [] (sys_namei obj path) (λ _, []).
Proof using Hst. unfold sys_namei. holds_go. Qed.
Hint Resolve holds_namei : holds.

(** Copies to and from the process's memory. *)
Lemma copyop_awake pt va l : awake (@Fs.copyout _ (Vm_copy pt obj) va l) ∧ awake (@Fs.copyin _ (Vm_copy pt obj) va l).
Proof using. split; simpl; awake_go. Qed.
Lemma copies_kept L : copies_keep (P L).
Proof using Hst.
  split; intros va l s H; simpl; (eapply wlp_bind, wlp_mono; [by apply (curproc_st _ P R Hst L _ H p (λ _, False))| |done]);
    intros ? s1 [-> H1]; do 2 p_step; (eapply wlp_mono; [apply (kern_st _ P R Hst L s1 H1 _ (λ _, False))|done..]); apply copyop_awake.
Qed.
Lemma buf_kept b L : buf_ok (P L) b.
Proof using Hst. destruct b; [apply copies_kept|done]. Qed.
Lemma holds_ucopyout va l L : holds L (ucopyout obj va l) (λ _, L).
Proof using Hst. apply holds_pr. intros s H. eapply wlp_mono; [by apply (proj1 (copies_kept L))|done..]. Qed.
Lemma holds_ucopyin va l L : holds L (ucopyin obj va l) (λ _, L).
Proof using Hst. apply holds_pr. intros s H. eapply wlp_mono; [by apply (proj2 (copies_kept L))|done..]. Qed.
Hint Resolve holds_ucopyout holds_ucopyin : holds.
Hint Resolve buf_kept : keeps.

(** ** The file table *)
Lemma holds_filealloc_loop f k : holds [OTHER_LOCK ftable_lock] (filealloc_loop ftable_lock f k) (λ _, []).
Proof using Hst. revert f. induction k as [|k IH]; intros f; cbn [filealloc_loop]; holds_go. Qed.
Hint Resolve holds_filealloc_loop : holds.
Lemma holds_filealloc : holds [] (filealloc ftable_lock) (λ _, []).
Proof using Hst. unfold filealloc. holds_go. Qed.
Lemma holds_filedup f L : holds L (filedup ftable_lock f) (λ _, L).
Proof using Hst. unfold filedup. holds_go. Qed.
Lemma holds_pipeclose pi w : holds [] (pipeclose kend pi w) (λ _, []).
Proof using Hst. unfold pipeclose. holds_go. Qed.
Hint Resolve holds_filealloc holds_filedup holds_pipeclose : holds.
Lemma holds_fileclose f : holds [] (fileclose kend ftable_lock f) (λ _, []).
Proof using Hst. unfold fileclose. holds_go. Qed.
Hint Resolve holds_fileclose : holds.
Lemma holds_close_if f : holds [] (close_if kend ftable_lock f) (λ _, []).
Proof using Hst. unfold close_if. holds_go. Qed.
Hint Resolve holds_close_if : holds.
Lemma holds_pipealloc : holds [] (pipealloc kend ftable_lock) (λ _, []).
Proof using Hst. unfold pipealloc. holds_go. Qed.

(** ** Pipes *)
Definition pipe_locks (pi : Z) (r : Z + Z) : list lockid := match r with inl _ => [] | inr _ => [OTHER_LOCK pi] end.
Lemma holds_pipewrite_loop pi addr n i k : holds [OTHER_LOCK pi] (pipewrite_loop obj p pi addr n i k) (pipe_locks pi).
Proof using Hst. revert i. induction k as [|k IH]; intros i; cbn [pipewrite_loop]; holds_go. Qed.
Lemma holds_pipewrite_from pi addr n i : holds [OTHER_LOCK pi] (pipewrite_from obj p pi addr n i) (λ _, []).
Proof using Hst. unfold pipewrite_from. eapply holds_bind; [apply holds_pipewrite_loop|]. intros [v|j]; simpl; holds_go. Qed.
Hint Resolve holds_pipewrite_from : holds.
Lemma holds_pipewrite pi addr n : holds [] (pipewrite obj pi addr n) (λ _, []).
Proof using Hst. unfold pipewrite. holds_go. Qed.
Lemma holds_piperead_loop pi addr n i k L : holds L (piperead_loop obj pi addr n i k) (λ _, L).
Proof using Hst. revert i. induction k as [|k IH]; intros i; cbn [piperead_loop]; holds_go. Qed.
Hint Resolve holds_piperead_loop : holds.
Lemma holds_piperead_turn pi addr n : holds [OTHER_LOCK pi] (piperead_turn obj p pi addr n) (λ _, []).
Proof using Hst. unfold piperead_turn. holds_go. Qed.
Hint Resolve holds_piperead_turn : holds.
Lemma holds_piperead pi addr n : holds [] (piperead obj pi addr n) (λ _, []).
Proof using Hst. unfold piperead. holds_go. Qed.
Hint Resolve holds_pipewrite holds_piperead : holds.

(** ** Reading and writing, over devices that behave *)
Context (devsw_read devsw_write : Z → option (Z → Z → M sys Z)).
Definition device_ok (devsw : Z → option (Z → Z → M sys Z)) : Prop :=
  ∀ major f addr n, devsw major = Some f → holds [] (f addr n) (λ _, []).

Lemma holds_filestat f addr : holds [] (filestat obj stat_pad f addr) (λ _, []).
Proof using Hst. unfold filestat. holds_go. Qed.
Lemma holds_fileread f addr n : device_ok devsw_read → holds [] (fileread obj devsw_read f addr n) (λ _, []).
Proof using Hst. unfold device_ok. intros Hd. unfold fileread. holds_go. Qed.
Lemma holds_filewrite_loop f ip addr n i k : holds [] (filewrite_loop obj f ip addr n i k) (λ _, []).
Proof using Hst. revert i. induction k as [|k IH]; intros i; cbn [filewrite_loop]; holds_go. Qed.
Hint Resolve holds_filewrite_loop : holds.
Lemma holds_filewrite f addr n : device_ok devsw_write → holds [] (filewrite obj devsw_write f addr n) (λ _, []).
Proof using Hst. unfold device_ok. intros Hd. unfold filewrite. holds_go. Qed.
End file.

#[export] Hint Resolve holds_mypid holds_mycwd holds_begin_op holds_end_op holds_iput holds_ilock holds_iunlock holds_iunlockput holds_namei
  holds_ucopyout holds_ucopyin holds_filealloc holds_filedup holds_fileclose holds_close_if holds_pipealloc holds_filestat holds_fileread holds_filewrite : holds.
#[export] Hint Resolve buf_kept : keeps.

(** ** What proc.c needs of this layer *)
Section ops.
Context {S : Type} `{!BufCache S}.
Variables (kend obj ftable_lock : Z).
Abbreviation sys := (sys S).
#[local] Instance files : FileOps sys := sys_files kend obj ftable_lock.
#[local] Instance copy' : UserCopy pstate := Proc_copy obj.

Lemma holds_sleepy {A} (m : M sys A) :
  (∀ p s0, holds (grown p s0) (slept p s0) [] m (λ _, [])) → sleepy_op m.
Proof using.
  intros Hm t p Hc Hh Hp. change (t_procs t) with (sys_procs t) in *. eapply wlp_mono; [apply (Hm p (sys_procs t) t)| |done]; cbv beta.
  - assert (F : frame (sys_procs t) [] (sys_procs t)) by (rewrite <- Hh; by apply frame_refl).
    refine (conj F (conj eq_refl (conj (λ q, or_introl eq_refl) (conj Hp _)))). intros q. rewrite Hh. apply not_elem_of_nil.
  - intros _ t' (F&Hn&Ho&_). split; [by rewrite Hh|done|by rewrite Hp].
Qed.

(** Nothing returns from [sched]. *)
Lemma sleep_wlp {A} c lk (Q : A → pstate → Prop) s : wlp (sleep c lk) Q (λ _, True) s.
Proof using.
  assert (H : ∀ B (m : M pstate B) (k : B → M pstate A) s, (∀ b s, wlp (k b) Q (λ _, True) s) → wlp (m ≫= k) Q (λ _, True) s).
  { clear. intros B m k s Hk. apply wlp_bind. unfold wlp at 1. by destruct (m s). }
  unfold sleep, sched. repeat (apply H; intros). repeat (case_match; [done|]; repeat (apply H; intros)). by apply wlp_sleep_on.
Qed.

Lemma untouched_refl s : cpu_ok s → untouched s s.
Proof using. intros Hc. split; [by apply frame_refl|done]. Qed.
Lemma untouched_locks s L s' : locks s L s' → ps_held s = L → untouched s s'.
Proof using. intros [F Hp Hn _] <-. split; [done|]. split; [done|]. by rewrite Hp. Qed.

Lemma filedup_ok f : quiet_op (filedup ftable_lock f).
Proof using.
  intros t Hc. change (t_procs t) with (sys_procs t) in *. unfold filedup, upd_file. apply wlp_bind, pr_wlp.
  destruct (decide (OTHER_LOCK ftable_lock ∈ ps_held (sys_procs t))) as [Hin|Hin].
  { unfold acquire, push_off, intr_get, intr_off, upd_cpu, holding. wlp_steps. rewrite bool_decide_eq_true_2 by done. apply wlp_panic. }
  apply wlp_wp, acquire_spec; [done..|]. intros s1 L1 t1 <-. unfold ffield. do 2 wlp_step. destruct (_ <? 1); [done|]. wlp_step. wlp_step.
  apply wlp_bind, pr_wlp, wlp_wp. change (sys_procs (put_file _ _ t1)) with (sys_procs t1).
  apply (release_head _ (ps_held (sys_procs t))); [apply L1..|]. intros s2 L2 t2 <-. wlp_step. eapply untouched_locks; [|done]. by eapply locks_trans.
Qed.
Lemma fs_idup_awake i : awake (Fs.idup (S := S) (U := pstate) i).
Proof using. unfold Fs.idup, iupd. awake_go. Qed.
Lemma idup_ok i : quiet_op (idup i).
Proof using.
  intros t Hc. pose proof (keeps_idup (S := S) (untouched (sys_procs t)) i (sy_fs t)) as H.
  specialize (H (untouched_refl _ Hc)). revert H. unfold idup, fs, zoom, wlp. pose proof (fs_idup_awake i (sy_fs t)) as Ha.
  destruct (Fs.idup i (sy_fs t)) as [a s'|e|c s'|]; try done. by destruct (Ha c s').
Qed.

Lemma untouched_more s0 s s' : untouched s0 s → locks s (ps_held s) s' → untouched s0 s'.
Proof using.
  intros (F&Hn&Hp) [F' Hp' Hn' _]. rewrite (fr_held _ _ _ F) in F'. split; [by eapply frame_trans|]. split; [congruence|]. by rewrite Hp'.
Qed.
Lemma myproc_untouched s0 (Q : option Z → sys → Prop) R t :
  untouched s0 (sys_procs t) → (∀ r t', untouched s0 (sys_procs t') → Q r t') → wlp (pr myproc) Q R t.
Proof using.
  intros H HQ. apply pr_wlp, wlp_wp, myproc_spec; [apply H|]. intros s' L' t' <-. apply HQ. by eapply untouched_more.
Qed.
Lemma mycwd_untouched s0 (t : sys) : untouched s0 (sys_procs t) → wlp mycwd (λ _ t', untouched s0 (sys_procs t')) (λ _, True) t.
Proof using.
  intros H. unfold mycwd, curproc. apply wlp_bind, pr_wlp, wlp_bind, wlp_wp, myproc_spec; [apply H|]. intros s' L'.
  destruct (c_proc _) as [p|]; [|done]. wlp_step. intros t' <-. apply wlp_bind, pr_wlp. unfold field. wlp_step. intros t'' Ht.
  destruct (p_cwd _); [|done]. wlp_step. rewrite Ht. by eapply untouched_more.
Qed.
Lemma namei_ok path (t : sys) : cpu_ok (sys_procs t) → wlp (sys_namei obj path) (λ _ t', untouched (sys_procs t) (sys_procs t')) (λ _, True) t.
Proof using.
  intros Hc. set (s0 := sys_procs t). unfold sys_namei. apply wlp_bind, (myproc_untouched s0); [by apply untouched_refl|]. intros r t1 H1.
  apply (wlp_cut (λ t', untouched s0 (sys_procs t'))).
  { destruct r; [|by wlp_step]. apply pr_wlp. unfold field. wlp_step. by intros ? ->. }
  intros pid t2 H2. apply (wlp_cut (λ t', untouched s0 (sys_procs t'))).
  { destruct (bool_decide _); [by wlp_step|by apply mycwd_untouched]. }
  intros cwd t3 H3. pose proof (keeps_namei (S := S) (untouched s0) pid cwd path (sy_fs t3) H3) as H. revert H. unfold fs, zoom, wlp at 1 2.
  destruct (Fs.namei pid cwd path (sy_fs t3)) as [a s'|e|c s'|]; try done. intros H'. apply wlp_bind, pr_wlp.
  apply wlp_any; [|done]. intros ? s1 t4 _. apply pr_wlp. eapply wlp_mono; [apply (sleep_wlp c _ (λ _ _, False))|done..].
Qed.

#[export] Instance sys_files_ok : FileOpsOk sys.
Proof using.
  split.
  - done.
  - apply filedup_ok.
  - apply idup_ok.
  - intros f. apply holds_sleepy. intros p s0. apply (holds_fileclose _ _ p), grown_stable.
  - intros i. apply holds_sleepy. intros p s0. apply (holds_iput p), grown_stable.
  - apply holds_sleepy. intros p s0. apply (holds_begin_op p), grown_stable.
  - apply holds_sleepy. intros p s0. apply (holds_end_op p), grown_stable.
  - intros path t Hc. by apply namei_ok.
Qed.
End ops.
