(* ===== verification/Syscall.v ===== *)
(** * kernel/syscall.c and kernel/sysproc.c: system call arguments, and the
    system calls on processes

    Arguments are the user registers that the trampoline saved in the trap
    frame.  [buf] is the address of the kernel buffer that a string is copied
    to; the functions answer the string as the bytes before the terminator. *)
From S2P Require Import Prelude Kstring Kalloc Vm Block BufCache Log Fs UserVm Proc File.

Section syscall.
Context {S : Type} `{!BufCache S}.
Variables (kend obj ftable_lock trampoline proc_base forkret_addr : Z).
Variables (buf tickslock ticks_addr : Z).
Abbreviation sys := (sys S).
#[local] Instance files : FileOps sys := sys_files kend obj ftable_lock.

(** ** Arguments *)

(** The trap frame of the running process, as memory. *)
Definition tf_load (off : Z) : M sys Z :=
  p ← pr curproc; tf ← pr (field p_trapframe p); pr (gets (λ ps, load64 (k_mem (ps_k ps)) (tf + off))).
Definition tf_store (off v : Z) : M sys unit :=
  p ← pr curproc; tf ← pr (field p_trapframe p); pr (kern (upd_mem (λ m, store64 m (tf + off) (u64 v)))).

Definition fetchaddr (addr : Z) : M sys (Z * Z) :=
  p ← pr curproc;
  sz ← pr (field p_sz p);
  if (addr >=? sz) || (u64 (addr + 8) >? sz) then mret (-1, 0)
  else
    '(l, r) ← ucopyin obj addr (replicate 8 0);
    if negb (r =? 0) then mret (-1, 0) else mret (0, load64 (blk_mem l) 0).

(** [strlen] after a copy of at most [max] bytes that found the terminator. *)
Definition fetchstr_to (dst addr max : Z) : M sys (Z * list Z) :=
  p ← pr curproc;
  pt ← pr (field p_pagetable p);
  r ← pr (kern (copyinstr pt dst addr max));
  if r <? 0 then mret (-1, [])
  else
    m ← pr (gets (λ ps, k_mem (ps_k ps)));
    match strlen m dst (Z.to_nat max) with
    | Some n => mret (n, read_bytes m dst (Z.to_nat n))
    | None => nofuel
    end.
Definition fetchstr (addr max : Z) : M sys (Z * list Z) := fetchstr_to buf addr max.

Definition argraw (n : Z) : M sys Z :=
  if (0 <=? n) && (n <=? 5) then tf_load (TF_a0 + 8 * n) else panic "argraw".
Definition argint (n : Z) : M sys Z := v ← argraw n; mret (s32 v).
Definition argaddr (n : Z) : M sys Z := argraw n.
Definition argstr (n max : Z) : M sys (Z * list Z) := addr ← argaddr n; fetchstr addr max.

(** ** sysproc.c *)

Definition sys_exit : M sys Z := n ← argint 0; exit proc_base n.
Definition sys_getpid : M sys Z := p ← pr curproc; pr (field p_pid p).
Definition sys_fork : M sys Z := fork kend trampoline proc_base forkret_addr.
Definition sys_wait : M sys Z := p ← argaddr 0; pr (wait kend proc_base p).

Definition sys_sbrk : M sys Z :=
  n ← argint 0;
  p ← pr curproc;
  addr ← pr (field p_sz p);
  r ← pr (growproc kend n);
  if r <? 0 then mret (-1) else mret addr.

(** The loop of [sys_sleep]; the comparison is unsigned. *)
Definition sys_sleep_turn (p n ticks0 : Z) : M sys Z :=
  ticks ← gets sy_ticks;
  if u32 (ticks - ticks0) <? u32 n then
    k ← pr (killed p);
    if negb (k =? 0) then pr (release (OTHER_LOCK tickslock)) ;; mret (-1)
    else pr (sleep ticks_addr (OTHER_LOCK tickslock))
  else pr (release (OTHER_LOCK tickslock)) ;; mret 0.
Definition sys_sleep : M sys Z :=
  n ← argint 0;
  pr (acquire (OTHER_LOCK tickslock)) ;;
  ticks0 ← gets sy_ticks;
  p ← pr curproc;
  sys_sleep_turn p n ticks0.
Definition sys_sleep_resume (p n ticks0 : Z) : M sys Z :=
  pr (sleep_resume p (OTHER_LOCK tickslock)) ;; sys_sleep_turn p n ticks0.

Definition sys_kill : M sys Z := pid ← argint 0; pr (kill pid).

Definition sys_uptime : M sys Z :=
  pr (acquire (OTHER_LOCK tickslock)) ;;
  xticks ← gets sy_ticks;
  pr (release (OTHER_LOCK tickslock)) ;;
  mret xticks.
End syscall.
