(* ===== verification/Sysfile.v ===== *)
(** * kernel/sysfile.c: the system calls on files

    [goto bad] and [goto fail] are the functions' common ends.  A path is the
    list of its bytes; a directory entry's name the DIRSIZ bytes of its
    buffer. *)
From S2P Require Import Prelude Kstring Kalloc Vm Block BufCache Log Fs UserVm Proc File Syscall.

Definition MAXPATH : Z := 128.
Definition O_RDONLY : Z := 0x000.
Definition O_WRONLY : Z := 0x001.
Definition O_RDWR : Z := 0x002.
Definition O_CREATE : Z := 0x200.
Definition O_TRUNC : Z := 0x400.

(** The names of the two entries every directory has. *)
Definition dot : list Z := 46 :: replicate 13 0.
Definition dotdot : list Z := 46 :: 46 :: replicate 12 0.
Definition no_name : list Z := replicate (Z.to_nat DIRSIZ) 0.

Section sysfile.
Context {S : Type} `{!BufCache S}.
Variables (kend obj ftable_lock buf : Z) (stat_pad : list Z).
Variables (devsw_read devsw_write : Z → option (Z → Z → M (sys S) Z)).
#[local] Instance copy : UserCopy pstate := Proc_copy obj.
Abbreviation sys := (sys S).
Abbreviation fileclose := (fileclose kend ftable_lock).
Abbreviation filealloc := (filealloc ftable_lock).
Abbreviation filedup := (filedup ftable_lock).
Abbreviation argstr := (argstr buf).
Abbreviation namei := (sys_namei obj).

Definition type_of (ip : Z) : M sys Z := fs (ird i_type ip).

(** The descriptor and its file, or -1. *)
Definition argfd (n : Z) : M sys (Z * Z * Z) :=
  fd ← argint n;
  if (fd <? 0) || (fd >=? NOFILE) then mret (-1, 0, 0)
  else
    p ← pr curproc;
    f ← pr (field (ofile fd) p);
    if f =? 0 then mret (-1, 0, 0) else mret (0, fd, f).

Fixpoint fdalloc_loop (p f fd : Z) (k : nat) : M sys Z :=
  match k with
  | O => mret (-1)
  | Datatypes.S k =>
      g ← pr (field (ofile fd) p);
      if g =? 0 then pr (upd_proc p (set_ofile fd f)) ;; mret fd
      else fdalloc_loop p f (fd + 1) k
  end.
Definition fdalloc (f : Z) : M sys Z := p ← pr curproc; fdalloc_loop p f 0 (Z.to_nat NOFILE).

Definition sys_dup : M sys Z :=
  '(r, _, f) ← argfd 0;
  if r <? 0 then mret (-1)
  else
    fd ← fdalloc f;
    if fd <? 0 then mret (-1) else filedup f ;; mret fd.

Definition sys_read : M sys Z :=
  p ← argaddr 1;
  n ← argint 2;
  '(r, _, f) ← argfd 0;
  if r <? 0 then mret (-1) else fileread obj devsw_read f p n.

Definition sys_write : M sys Z :=
  p ← argaddr 1;
  n ← argint 2;
  '(r, _, f) ← argfd 0;
  if r <? 0 then mret (-1) else filewrite obj devsw_write f p n.

Definition sys_close : M sys Z :=
  '(r, fd, f) ← argfd 0;
  if r <? 0 then mret (-1)
  else
    p ← pr curproc;
    pr (upd_proc p (set_ofile fd 0)) ;;
    fileclose f ;;
    mret 0.

Definition sys_fstat : M sys Z :=
  st ← argaddr 1;
  '(r, _, f) ← argfd 0;
  if r <? 0 then mret (-1) else filestat obj stat_pad f st.

Definition nameiparent (path : list Z) : M sys (option Z * list Z) :=
  pid ← mypid;
  cwd ← (if bool_decide (head path = Some SLASH) then mret 0 else mycwd);
  fs (Fs.nameiparent pid cwd path no_name).

(** [dirlink], by the running process. *)
Definition dlink (dp : Z) (name : list Z) (inum : Z) : M sys Z := pid ← mypid; fs (dirlink pid dp name inum).

Definition link_bad (ip : Z) : M sys Z :=
  ilock ip ;;
  fs (iupd ip (λ x, set_inlink (s16 (i_nlink x - 1)) x)) ;;
  fs (iupdate ip) ;;
  iunlockput ip ;;
  end_op ;;
  mret (-1).

Definition sys_link : M sys Z :=
  '(r, old) ← argstr 0 MAXPATH;
  if r <? 0 then mret (-1)
  else
    '(r, new) ← argstr 1 MAXPATH;
    if r <? 0 then mret (-1)
    else
      begin_op ;;
      o ← namei old;
      match o with
      | None => end_op ;; mret (-1)
      | Some ip =>
          ilock ip ;;
          t ← type_of ip;
          if t =? T_DIR then iunlockput ip ;; end_op ;; mret (-1)
          else
            fs (iupd ip (λ x, set_inlink (s16 (i_nlink x + 1)) x)) ;;
            fs (iupdate ip) ;;
            iunlock ip ;;
            '(d, name) ← nameiparent new;
            match d with
            | None => link_bad ip
            | Some dp =>
                ilock dp ;;
                x ← fs (ird id ip);
                ddev ← fs (ird i_dev dp);
                r ← (if negb (ddev =? i_dev x) then mret (-1) else dlink dp name (i_inum x));
                if r <? 0 then iunlockput dp ;; link_bad ip
                else
                  iunlockput dp ;;
                  iput ip ;;
                  end_op ;;
                  mret 0
            end
      end.

Fixpoint isdirempty_loop (dp off : Z) (fuel : nat) : M sys bool :=
  match fuel with
  | O => nofuel
  | Datatypes.S fuel =>
      size ← fs (ird i_size dp);
      if off <? size then
        de ← fs (read_dirent dp off);
        match de with
        | None => panic "isdirempty: readi"
        | Some de => if negb (de_inum de =? 0) then mret false else isdirempty_loop dp (off + sizeof_dirent) fuel
        end
      else mret true
  end.
Definition isdirempty (dp : Z) : M sys bool :=
  size ← fs (ird i_size dp);
  isdirempty_loop dp (2 * sizeof_dirent) (dir_fuel size).

Definition unlink_bad (dp : Z) : M sys Z := iunlockput dp ;; end_op ;; mret (-1).

Definition sys_unlink : M sys Z :=
  '(r, path) ← argstr 0 MAXPATH;
  if r <? 0 then mret (-1)
  else
    begin_op ;;
    '(d, name) ← nameiparent path;
    match d with
    | None => end_op ;; mret (-1)
    | Some dp =>
        ilock dp ;;
        if (namecmp name dot =? 0) || (namecmp name dotdot =? 0) then unlink_bad dp
        else
          e ← fs (dirlookup dp name);
          match e with
          | None => unlink_bad dp
          | Some (ip, off) =>
              ilock ip ;;
              x ← fs (ird id ip);
              if i_nlink x <? 1 then panic "unlink: nlink < 1"
              else
                empty ← (if i_type x =? T_DIR then isdirempty ip else mret true);
                if negb empty then iunlockput ip ;; unlink_bad dp
                else
                  r ← fs (Fs.writei dp (KernBuf (replicate (Z.to_nat sizeof_dirent) 0)) off sizeof_dirent);
                  if negb (r =? sizeof_dirent) then panic "unlink: writei"
                  else
                    t ← type_of ip;
                    (if t =? T_DIR then
                       fs (iupd dp (λ y, set_inlink (s16 (i_nlink y - 1)) y)) ;; fs (iupdate dp)
                     else mret tt) ;;
                    iunlockput dp ;;
                    fs (iupd ip (λ y, set_inlink (s16 (i_nlink y - 1)) y)) ;;
                    fs (iupdate ip) ;;
                    iunlockput ip ;;
                    end_op ;;
                    mret 0
          end
    end.

(** The end of [create] when an entry could not be written. *)
Definition create_fail (ip dp : Z) : M sys (option Z) :=
  fs (iupd ip (set_inlink 0)) ;;
  fs (iupdate ip) ;;
  iunlockput ip ;;
  iunlockput dp ;;
  mret None.

(** The new or existing inode, locked. *)
Definition create (path : list Z) (type major minor : Z) : M sys (option Z) :=
  '(d, name) ← nameiparent path;
  match d with
  | None => mret None
  | Some dp =>
      ilock dp ;;
      e ← fs (dirlookup dp name);
      match e with
      | Some (ip, _) =>
          iunlockput dp ;;
          ilock ip ;;
          t ← type_of ip;
          if (type =? T_FILE) && ((t =? T_FILE) || (t =? T_DEVICE)) then mret (Some ip)
          else iunlockput ip ;; mret None
      | None =>
          dev ← fs (ird i_dev dp);
          o ← fs (ialloc dev type);
          match o with
          | None => iunlockput dp ;; mret None
          | Some ip =>
              ilock ip ;;
              fs (iupd ip (λ x, set_inlink 1 (set_idevno major minor x))) ;;
              fs (iupdate ip) ;;
              inum ← fs (ird i_inum ip);
              dinum ← fs (ird i_inum dp);
              r ← (if type =? T_DIR then
                     r ← dlink ip dot inum;
                     if r <? 0 then mret (-1) else dlink ip dotdot dinum
                   else mret 0);
              if r <? 0 then create_fail ip dp
              else
                r ← dlink dp name inum;
                if r <? 0 then create_fail ip dp
                else
                  (if type =? T_DIR then
                     fs (iupd dp (λ x, set_inlink (s16 (i_nlink x + 1)) x)) ;; fs (iupdate dp)
                   else mret tt) ;;
                  iunlockput dp ;;
                  mret (Some ip)
          end
      end
  end.

(** [sys_open] from the locked inode on. *)
Definition open_inode (ip omode : Z) : M sys Z :=
  x ← fs (ird id ip);
  if (i_type x =? T_DEVICE) && ((i_major x <? 0) || (i_major x >=? NDEV)) then
    iunlockput ip ;; end_op ;; mret (-1)
  else
    f ← filealloc;
    fd ← (if f =? 0 then mret (-1) else fdalloc f);
    if (f =? 0) || (fd <? 0) then
      close_if kend ftable_lock f ;; iunlockput ip ;; end_op ;; mret (-1)
    else
      (if i_type x =? T_DEVICE then upd_file f (λ y, set_fmajor (i_major x) (set_ftype FD_DEVICE y))
       else upd_file f (λ y, set_foff 0 (set_ftype FD_INODE y))) ;;
      upd_file f (set_fip ip) ;;
      upd_file f (set_fmode (negb (has_bits omode O_WRONLY)) (has_bits omode O_WRONLY || has_bits omode O_RDWR)) ;;
      (if has_bits omode O_TRUNC && (i_type x =? T_FILE) then fs (itrunc ip) else mret tt) ;;
      iunlock ip ;;
      end_op ;;
      mret fd.

Definition sys_open : M sys Z :=
  omode ← argint 1;
  '(n, path) ← argstr 0 MAXPATH;
  if n <? 0 then mret (-1)
  else
    begin_op ;;
    if has_bits omode O_CREATE then
      o ← create path T_FILE 0 0;
      match o with None => end_op ;; mret (-1) | Some ip => open_inode ip omode end
    else
      o ← namei path;
      match o with
      | None => end_op ;; mret (-1)
      | Some ip =>
          ilock ip ;;
          t ← type_of ip;
          if (t =? T_DIR) && negb (omode =? O_RDONLY) then iunlockput ip ;; end_op ;; mret (-1)
          else open_inode ip omode
      end.

Definition sys_mkdir : M sys Z :=
  begin_op ;;
  '(r, path) ← argstr 0 MAXPATH;
  o ← (if r <? 0 then mret None else create path T_DIR 0 0);
  match o with
  | None => end_op ;; mret (-1)
  | Some ip => iunlockput ip ;; end_op ;; mret 0
  end.

Definition sys_mknod : M sys Z :=
  begin_op ;;
  major ← argint 1;
  minor ← argint 2;
  '(r, path) ← argstr 0 MAXPATH;
  o ← (if r <? 0 then mret None else create path T_DEVICE (s16 major) (s16 minor));
  match o with
  | None => end_op ;; mret (-1)
  | Some ip => iunlockput ip ;; end_op ;; mret 0
  end.

Definition sys_chdir : M sys Z :=
  p ← pr curproc;
  begin_op ;;
  '(r, path) ← argstr 0 MAXPATH;
  o ← (if r <? 0 then mret None else namei path);
  match o with
  | None => end_op ;; mret (-1)
  | Some ip =>
      ilock ip ;;
      t ← type_of ip;
      if negb (t =? T_DIR) then iunlockput ip ;; end_op ;; mret (-1)
      else
        iunlock ip ;;
        cwd ← mycwd;
        iput cwd ;;
        end_op ;;
        pr (upd_proc p (set_cwd (Some ip))) ;;
        mret 0
  end.

(** [sys_pipe] gives back what it took when a copy fails. *)
Definition pipe_undo (p fd0 fd1 rf wf : Z) : M sys Z :=
  (if fd0 >=? 0 then pr (upd_proc p (set_ofile fd0 0)) else mret tt) ;;
  (if fd1 >=? 0 then pr (upd_proc p (set_ofile fd1 0)) else mret tt) ;;
  fileclose rf ;;
  fileclose wf ;;
  mret (-1).

Definition sys_pipe : M sys Z :=
  p ← pr curproc;
  fdarray ← argaddr 0;
  '(rf, wf, r) ← pipealloc kend ftable_lock;
  if r <? 0 then mret (-1)
  else
    fd0 ← fdalloc rf;
    fd1 ← (if fd0 <? 0 then mret (-1) else fdalloc wf);
    if (fd0 <? 0) || (fd1 <? 0) then pipe_undo p fd0 (-1) rf wf
    else
      r ← ucopyout obj fdarray (le_bytes 4 fd0);
      r ← (if r <? 0 then mret r else ucopyout obj (u64 (fdarray + 4)) (le_bytes 4 fd1));
      if r <? 0 then pipe_undo p fd0 fd1 rf wf
      else mret 0.
End sysfile.
