(* ===== verification/Exec.v ===== *)
(** * kernel/exec.c: replacing a process's image, and sys_exec

    The ELF and program headers are read into kernel variables as bytes.
    [argv] is the list of the kernel addresses of the argument strings, which
    the null pointer ends. *)
From S2P Require Import Prelude Kstring Kalloc Vm Block BufCache Log Fs UserVm Proc File Syscall Sysfile.

(** ** elf.h *)
Definition ELF_MAGIC : Z := 0x464C457F.
Definition ELF_PROG_LOAD : Z := 1.
Definition MAXARG : Z := 32.
Definition sizeof_elfhdr : Z := 64.
Definition sizeof_proghdr : Z := 56.

Record elfhdr := Elfhdr { e_magic : Z; e_entry : Z; e_phoff : Z; e_phnum : Z }.
Record proghdr := Proghdr { ph_type : Z; ph_flags : Z; ph_off : Z; ph_vaddr : Z; ph_filesz : Z; ph_memsz : Z }.

Definition parse_elfhdr (l : list Z) : elfhdr :=
  let m := blk_mem l in Elfhdr (load_le m 0 4) (load_le m 24 8) (load_le m 32 8) (load_le m 56 2).
Definition parse_proghdr (l : list Z) : proghdr :=
  let m := blk_mem l in
  Proghdr (load_le m 0 4) (load_le m 4 4) (load_le m 8 8) (load_le m 16 8) (load_le m 32 8) (load_le m 40 8).

Definition flags2perm (flags : Z) : Z :=
  let perm := if has_bits flags 0x1 then PTE_X else 0 in
  if has_bits flags 0x2 then Z.lor perm PTE_W else perm.

Section exec.
Context {S : Type} `{!BufCache S}.
Variables (kend obj buf trampoline proc_base : Z).
#[local] Instance copy : UserCopy pstate := Proc_copy obj.
Abbreviation sys := (sys S).

(** [readi] to a kernel variable of [n] bytes: the bytes, when all came. *)
Definition read_kern (ip off n : Z) : M sys (option (list Z)) :=
  '(r, dst) ← fs (Fs.readi ip (KernBuf []) (u32 off) n);
  match dst with
  | KernBuf l => mret (if r =? n then Some l else None)
  | UserBuf _ => mret None
  end.

Fixpoint loadseg_loop (pagetable va ip offset sz i : Z) (fuel : nat) : M sys Z :=
  match fuel with
  | O => nofuel
  | Datatypes.S fuel =>
      if i <? sz then
        pa ← pr (kern (walkaddr pagetable (u64 (va + i))));
        if pa =? 0 then panic "loadseg: address should exist"
        else
          let n := if sz - i <? PGSIZE then sz - i else PGSIZE in
          '(r, dst) ← fs (Fs.readi ip (KernBuf []) (u32 (offset + i)) n);
          (match dst with
           | KernBuf l => pr (kern (upd_mem (λ m, put_list m pa l)))
           | UserBuf _ => mret tt
           end) ;;
          if negb (r =? n) then mret (-1)
          else loadseg_loop pagetable va ip offset sz (u32 (i + PGSIZE)) fuel
      else mret 0
  end.
Definition loadseg (pagetable va ip offset sz : Z) : M sys Z :=
  loadseg_loop pagetable va ip offset sz 0 (Z.to_nat (sz / PGSIZE) + 2).

(** The loop over the program headers: the size reached, or the size at which
    the load failed. *)
Fixpoint load_loop (pagetable ip phnum i off sz : Z) (fuel : nat) : M sys (Z + Z) :=
  match fuel with
  | O => nofuel
  | Datatypes.S fuel =>
      if i <? phnum then
        o ← read_kern ip off sizeof_proghdr;
        match o with
        | None => mret (inl sz)
        | Some l =>
            let ph := parse_proghdr l in
            let off := s32 (off + sizeof_proghdr) in
            if negb (ph_type ph =? ELF_PROG_LOAD) then load_loop pagetable ip phnum (i + 1) off sz fuel
            else if ph_memsz ph <? ph_filesz ph then mret (inl sz)
            else if u64 (ph_vaddr ph + ph_memsz ph) <? ph_vaddr ph then mret (inl sz)
            else if negb (ph_vaddr ph `mod` PGSIZE =? 0) then mret (inl sz)
            else
              sz1 ← pr (kern (uvmalloc kend pagetable sz (u64 (ph_vaddr ph + ph_memsz ph)) (flags2perm (ph_flags ph))));
              if sz1 =? 0 then mret (inl sz)
              else
                r ← loadseg pagetable (ph_vaddr ph) ip (u32 (ph_off ph)) (u32 (ph_filesz ph));
                if r <? 0 then mret (inl sz1)
                else load_loop pagetable ip phnum (i + 1) off sz1 fuel
        end
      else mret (inr sz)
  end.

(** [strlen] of a kernel string in one page. *)
Definition kstrlen (a : Z) : M sys Z :=
  m ← pr (gets (λ ps, k_mem (ps_k ps)));
  match strlen m a (Z.to_nat PGSIZE) with Some n => mret n | None => nofuel end.

(** Pushing the argument strings: the stack pointer and the addresses. *)
Fixpoint push_args (pagetable stackbase : Z) (argv : list Z) (argc sp : Z) (ustack : list Z) : M sys (option (Z * list Z)) :=
  match argv with
  | [] => mret (Some (sp, ustack))
  | a :: argv =>
      if argc >=? MAXARG then mret None
      else
        n ← kstrlen a;
        let sp := u64 (sp - (n + 1)) in
        let sp := sp - sp `mod` 16 in
        if sp <? stackbase then mret None
        else
          r ← pr (kern (Vm.copyout pagetable sp a (n + 1)));
          if r <? 0 then mret None
          else push_args pagetable stackbase argv (argc + 1) sp (ustack ++ [sp])
  end.

(** [bad]: free the new image; the inode is still locked when [ip] is given. *)
Definition exec_bad (pagetable sz : Z) (ip : option Z) : M sys Z :=
  (if pagetable =? 0 then mret tt else pr (proc_freepagetable kend pagetable sz)) ;;
  (match ip with Some ip => iunlockput ip ;; end_op | None => mret tt end) ;;
  mret (-1).

(** The part of the path after its last slash. *)
Fixpoint last_elem (last s : list Z) : list Z :=
  match s with [] => last | c :: s => last_elem (if c =? SLASH then s else last) s end.

(** Committing to the new image. *)
Definition exec_commit (p pagetable sz sp entry argc : Z) (path : list Z) : M sys Z :=
  tf_store TF_a1 sp ;;
  pr (kern (upd_mem (λ m, safestrcpy (put_list m buf (last_elem path path ++ [0])) (name_addr proc_base p) buf 16))) ;;
  x ← pr (gets (λ ps, ps_proc ps p));
  pr (upd_proc p (set_pagetable pagetable)) ;;
  pr (upd_proc p (set_sz sz)) ;;
  tf_store TF_epc entry ;;
  tf_store TF_sp sp ;;
  pr (proc_freepagetable kend (p_pagetable x) (p_sz x)) ;;
  mret argc.

(** From the loaded program on: the stack and the arguments. *)
Definition exec_stack (p pagetable sz entry : Z) (path : list Z) (argv : list Z) : M sys Z :=
  let sz := PGROUNDUP sz in
  sz1 ← pr (kern (uvmalloc kend pagetable sz (u64 (sz + 2 * PGSIZE)) PTE_W));
  if sz1 =? 0 then exec_bad pagetable sz None
  else
    let sz := sz1 in
    pr (kern (uvmclear pagetable (u64 (sz - 2 * PGSIZE)))) ;;
    let stackbase := sz - PGSIZE in
    o ← push_args pagetable stackbase argv 0 sz [];
    match o with
    | None => exec_bad pagetable sz None
    | Some (sp, ustack) =>
        let argc := Z.of_nat (length ustack) in
        let sp := u64 (sp - (argc + 1) * 8) in
        let sp := sp - sp `mod` 16 in
        if sp <? stackbase then exec_bad pagetable sz None
        else
          r ← pr (kern (@Fs.copyout _ (Vm_copy pagetable obj) sp (concat (le_bytes 8 <$> ustack ++ [0]))));
          if r <? 0 then exec_bad pagetable sz None
          else exec_commit p pagetable sz sp entry argc path
    end.

Definition exec (path : list Z) (argv : list Z) : M sys Z :=
  p ← pr curproc;
  begin_op ;;
  o ← sys_namei obj path;
  match o with
  | None => end_op ;; mret (-1)
  | Some ip =>
      ilock ip ;;
      h ← read_kern ip 0 sizeof_elfhdr;
      match h with
      | None => exec_bad 0 0 (Some ip)
      | Some l =>
          let elf := parse_elfhdr l in
          if negb (e_magic elf =? ELF_MAGIC) then exec_bad 0 0 (Some ip)
          else
            pagetable ← pr (proc_pagetable kend trampoline p);
            if pagetable =? 0 then exec_bad 0 0 (Some ip)
            else
              r ← load_loop pagetable ip (e_phnum elf) 0 (s32 (e_phoff elf)) 0 (Z.to_nat (e_phnum elf) + 1);
              match r with
              | inl sz => exec_bad pagetable sz (Some ip)
              | inr sz =>
                  iunlockput ip ;;
                  end_op ;;
                  exec_stack p pagetable sz (e_entry elf) path argv
              end
      end
  end.

(** ** sys_exec (sysfile.c) *)

Fixpoint free_args (argv : list Z) : M sys unit :=
  match argv with [] => mret tt | a :: argv => pr (kern (kfree kend a)) ;; free_args argv end.

(** The loop that fetches the arguments: the pages allocated so far, and
    whether all came. *)
Fixpoint fetch_args (uargv i : Z) (argv : list Z) (k : nat) : M sys (list Z * bool) :=
  match k with
  | O => mret (argv, false)
  | Datatypes.S k =>
      '(r, uarg) ← fetchaddr obj (u64 (uargv + 8 * i));
      if r <? 0 then mret (argv, false)
      else if uarg =? 0 then mret (argv, true)
      else
        a ← pr (kern kalloc);
        if a =? 0 then mret (argv, false)
        else
          '(r, _) ← fetchstr_to a uarg PGSIZE;
          if r <? 0 then mret (argv ++ [a], false)
          else fetch_args uargv (i + 1) (argv ++ [a]) k
  end.

Definition sys_exec : M sys Z :=
  uargv ← argaddr 1;
  '(r, path) ← argstr buf 0 MAXPATH;
  if r <? 0 then mret (-1)
  else
    '(argv, ok) ← fetch_args uargv 0 [] (Z.to_nat MAXARG);
    if (ok : bool) then ret ← exec path argv; free_args argv ;; mret ret
    else free_args argv ;; mret (-1).
End exec.
