(* ===== verification/Trap.v ===== *)
(** * kernel/trap.c: traps, interrupts and the way back to user space; and the
    dispatch of system calls (syscall.c)

    The control registers of the hart join the state of the kernel.  The
    interrupt enable bit of [sstatus] is the one [Proc] keeps.  The device
    drivers' interrupt handlers, and the interrupt number that [plic_claim]
    reads from the interrupt controller, are arguments.  [usertrap] and
    [forkret] end in [userret] of the trampoline: their result is the page
    table register they pass to it. *)
From S2P Require Import Prelude Kstring Kalloc Vm Block BufCache Log Fs UserVm Proc File Syscall Sysfile Exec.

(** ** riscv.h, syscall.h *)
Definition SSTATUS_SPP : Z := Z.shiftl 1 8.
Definition SSTATUS_SPIE : Z := Z.shiftl 1 5.
Definition SSTATUS_SIE : Z := Z.shiftl 1 1.
Definition SATP_SV39 : Z := Z.shiftl 8 60.
Definition MAKE_SATP (pagetable : Z) : Z := Z.lor SATP_SV39 (Z.shiftr pagetable 12).
Definition UART0_IRQ : Z := 10.
Definition VIRTIO0_IRQ : Z := 1.

Record csrs := Csrs {
  r_sstatus_rest : Z;        (* sstatus without SIE *)
  r_sepc : Z; r_scause : Z; r_stvec : Z; r_satp : Z; r_tp : Z; r_sip : Z
}.
Record mach (S : Type) := Mach { mc_csr : csrs; mc_sys : sys S }.
Arguments Mach {S}. Arguments mc_csr {S}. Arguments mc_sys {S}.

Section trap.
Context {S : Type} `{!BufCache S}.
Variables (kend obj ftable_lock trampoline proc_base forkret_addr buf tickslock ticks_addr : Z).
Variables (kernelvec uservec userret usertrap_addr : Z) (stat_pad : list Z).
Variables (devsw_read devsw_write : Z → option (Z → Z → M (sys S) Z)).
Variables (uartintr virtio_disk_intr : M (sys S) unit).
#[local] Instance files : FileOps (sys S) := sys_files kend obj ftable_lock.
Abbreviation sys := (sys S).
Abbreviation mach := (mach S).

(** ** syscall.c *)

(** The array [syscalls], by the numbers of syscall.h. *)
Definition syscalls (num : Z) : option (M sys Z) :=
  match num with
  | 1 => Some (sys_fork kend obj ftable_lock trampoline proc_base forkret_addr)
  | 2 => Some (sys_exit kend obj ftable_lock proc_base)
  | 3 => Some (sys_wait kend proc_base)
  | 4 => Some (sys_pipe kend obj ftable_lock)
  | 5 => Some (sys_read obj devsw_read)
  | 6 => Some sys_kill
  | 7 => Some (sys_exec kend obj buf trampoline proc_base)
  | 8 => Some (sys_fstat obj stat_pad)
  | 9 => Some (sys_chdir obj buf)
  | 10 => Some (sys_dup ftable_lock)
  | 11 => Some sys_getpid
  | 12 => Some (sys_sbrk kend)
  | 13 => Some (sys_sleep tickslock ticks_addr)
  | 14 => Some (sys_uptime tickslock)
  | 15 => Some (sys_open kend obj ftable_lock buf)
  | 16 => Some (sys_write obj devsw_write)
  | 17 => Some (sys_mknod obj buf)
  | 18 => Some (sys_unlink obj buf)
  | 19 => Some (sys_link obj buf)
  | 20 => Some (sys_mkdir obj buf)
  | 21 => Some (sys_close kend ftable_lock)
  | _ => None
  end.

Definition NELEM_syscalls : Z := 22.

Definition syscall : M sys unit :=
  a7 ← tf_load TF_a7;
  let num := s32 a7 in
  if (num >? 0) && (num <? NELEM_syscalls) then
    match syscalls num with
    | Some f => r ← f; tf_store TF_a0 r
    | None => tf_store TF_a0 (-1)
    end
  else tf_store TF_a0 (-1).

(** ** trap.c *)

Definition kern_sys {A} (m : M sys A) : M mach A := zoom mc_sys (λ s t, Mach (mc_csr t) s) m.
Definition prm {A} (m : M pstate A) : M mach A := kern_sys (pr m).
Definition csr {A} (f : csrs → A) : M mach A := gets (λ t, f (mc_csr t)).
Definition upd_csr (f : csrs → csrs) : M mach unit := modify (λ t, Mach (f (mc_csr t)) (mc_sys t)).

Definition w_sepc v c := Csrs (r_sstatus_rest c) v (r_scause c) (r_stvec c) (r_satp c) (r_tp c) (r_sip c).
Definition w_stvec v c := Csrs (r_sstatus_rest c) (r_sepc c) (r_scause c) v (r_satp c) (r_tp c) (r_sip c).
Definition w_sip v c := Csrs (r_sstatus_rest c) (r_sepc c) (r_scause c) (r_stvec c) (r_satp c) (r_tp c) v.
Definition put_sstatus_rest v c := Csrs v (r_sepc c) (r_scause c) (r_stvec c) (r_satp c) (r_tp c) (r_sip c).

Definition r_sstatus : M mach Z :=
  rest ← csr r_sstatus_rest;
  i ← prm intr_get;
  mret (if (i : bool) then Z.lor rest SSTATUS_SIE else rest).
Definition w_sstatus (x : Z) : M mach unit :=
  upd_csr (put_sstatus_rest (Z.ldiff x SSTATUS_SIE)) ;;
  prm (if has_bits x SSTATUS_SIE then intr_on else intr_off).

(** [initlock] leaves the lock free. *)
Definition trapinit : M mach unit :=
  prm (modify (λ ps, set_held (list_difference (ps_held ps) [OTHER_LOCK tickslock]) ps)).
Definition trapinithart : M mach unit := upd_csr (w_stvec kernelvec).

Definition clockintr : M sys unit :=
  pr (acquire (OTHER_LOCK tickslock)) ;;
  modify (λ s, put_ticks (u32 (sy_ticks s + 1)) s) ;;
  pr (wakeup ticks_addr) ;;
  pr (release (OTHER_LOCK tickslock)).

(** [irq] is what [plic_claim] answers. *)
Definition devintr (irq : Z) : M mach Z :=
  scause ← csr r_scause;
  if has_bits scause 0x8000000000000000 && (Z.land scause 0xff =? 9) then
    kern_sys (if irq =? UART0_IRQ then uartintr else if irq =? VIRTIO0_IRQ then virtio_disk_intr else mret tt) ;;
    mret 1
  else if scause =? 0x8000000000000001 then
    tp ← csr r_tp;
    (if s32 tp =? 0 then kern_sys clockintr else mret tt) ;;
    sip ← csr r_sip;
    upd_csr (w_sip (Z.land sip (Z.lnot 2))) ;;
    mret 2
  else mret 0.

(** The trap frame's fields for the trampoline. *)
Definition TF_kernel_satp : Z := 0.
Definition TF_kernel_sp : Z := 8.
Definition TF_kernel_trap : Z := 16.
Definition TF_kernel_hartid : Z := 32.

Definition usertrapret : M mach Z :=
  p ← prm curproc;
  prm intr_off ;;
  upd_csr (w_stvec (u64 (TRAMPOLINE + (uservec - trampoline)))) ;;
  satp ← csr r_satp;
  kern_sys (tf_store TF_kernel_satp satp) ;;
  kstack ← prm (field p_kstack p);
  kern_sys (tf_store TF_kernel_sp (kstack + PGSIZE)) ;;
  kern_sys (tf_store TF_kernel_trap usertrap_addr) ;;
  tp ← csr r_tp;
  kern_sys (tf_store TF_kernel_hartid tp) ;;
  x ← r_sstatus;
  w_sstatus (Z.lor (Z.land x (Z.lnot SSTATUS_SPP)) SSTATUS_SPIE) ;;
  epc ← kern_sys (tf_load TF_epc);
  upd_csr (w_sepc epc) ;;
  pt ← prm (field p_pagetable p);
  mret (MAKE_SATP pt).

(** The end of [usertrap], after the cause was handled. *)
Definition usertrap_end (p which_dev : Z) : M mach Z :=
  k ← prm (killed p);
  if negb (k =? 0) then kern_sys (exit proc_base (-1))
  else if which_dev =? 2 then prm yield
  else usertrapret.
(** When the scheduler returns from that [yield]. *)
Definition usertrap_resume (p : Z) : M mach Z := prm (yield_resume p) ;; usertrapret.

Definition usertrap (irq : Z) : M mach Z :=
  st ← r_sstatus;
  if has_bits st SSTATUS_SPP then panic "usertrap: not from user mode"
  else
    upd_csr (w_stvec kernelvec) ;;
    p ← prm curproc;
    epc ← csr r_sepc;
    kern_sys (tf_store TF_epc epc) ;;
    scause ← csr r_scause;
    if scause =? 8 then
      k ← prm (killed p);
      if negb (k =? 0) then kern_sys (exit proc_base (-1))
      else
        epc ← kern_sys (tf_load TF_epc);
        kern_sys (tf_store TF_epc (epc + 4)) ;;
        prm intr_on ;;
        kern_sys syscall ;;
        usertrap_end p 0
    else
      which_dev ← devintr irq;
      (if which_dev =? 0 then prm (setkilled p) else mret tt) ;;
      usertrap_end p which_dev.

(** [kerneltrap]; the result says that it gave up the CPU on the way
    ([kerneltrap_resume] then finishes). *)
Definition kerneltrap_end (sepc sstatus : Z) : M mach unit :=
  upd_csr (w_sepc sepc) ;; w_sstatus sstatus.
Definition kerneltrap (irq : Z) : M mach unit :=
  sepc ← csr r_sepc;
  sstatus ← r_sstatus;
  if negb (has_bits sstatus SSTATUS_SPP) then panic "kerneltrap: not from supervisor mode"
  else
    i ← prm intr_get;
    if (i : bool) then panic "kerneltrap: interrupts enabled"
    else
      which_dev ← devintr irq;
      if which_dev =? 0 then panic "kerneltrap"
      else
        me ← prm myproc;
        run ← prm (gets (λ ps, match me with Some p => bool_decide (p_state (ps_proc ps p) = RUNNING) | None => false end));
        if (which_dev =? 2) && run then prm yield
        else kerneltrap_end sepc sstatus.
Definition kerneltrap_resume (p sepc sstatus : Z) : M mach unit :=
  prm (yield_resume p) ;; kerneltrap_end sepc sstatus.

(** ** forkret (proc.c) *)
Definition forkret : M mach Z :=
  p ← prm curproc;
  prm (release (PROC_LOCK p)) ;;
  first ← prm (gets ps_first);
  (if (first : bool) then
     prm (modify (set_first false)) ;;
     kern_sys (fs (fsinit ROOTDEV))
   else mret tt) ;;
  usertrapret.
End trap.
