(* ===== verification/Kvm.v ===== *)
(** * kernel/vm.c: the kernel's own page table

    [kvmmake] maps the devices, the kernel and the rest of memory at their
    physical addresses, the trampoline at the top of the address space, and
    below it a stack for every process.  Proved from the state that [kinit]
    leaves: the table has exactly these mappings, and the free pages
    suffice. *)
From S2P Require Import Prelude Kstring Kalloc Vm VmProps UvmProps Proc Trap.

(** kernel/memlayout.h *)
Definition UART0 : Z := 0x10000000.
Definition VIRTIO0 : Z := 0x10001000.
Definition PLIC : Z := 0x0c000000.

Section kvm.
(** The linker's [etext] and [trampoline]. *)
Variables etext trampoline : Z.

Definition kvmmake : M kstate Z :=
  kpgtbl ← kalloc;
  upd_mem (λ m, memset m kpgtbl 0 PGSIZE) ;;
  kvmmap kpgtbl UART0 UART0 PGSIZE (Z.lor PTE_R PTE_W) ;;
  kvmmap kpgtbl VIRTIO0 VIRTIO0 PGSIZE (Z.lor PTE_R PTE_W) ;;
  kvmmap kpgtbl PLIC PLIC 0x400000 (Z.lor PTE_R PTE_W) ;;
  kvmmap kpgtbl KERNBASE KERNBASE (etext - KERNBASE) (Z.lor PTE_R PTE_X) ;;
  kvmmap kpgtbl etext etext (PHYSTOP - etext) (Z.lor PTE_R PTE_W) ;;
  kvmmap kpgtbl TRAMPOLINE trampoline PGSIZE (Z.lor PTE_R PTE_X) ;;
  proc_mapstacks kpgtbl ;;
  mret kpgtbl.

(** The value of the variable [kernel_pagetable]. *)
Definition kvminit : M kstate Z := kvmmake.
End kvm.

Definition w_satp v c := Csrs (r_sstatus_rest c) (r_sepc c) (r_scause c) (r_stvec c) v (r_tp c) (r_sip c).
Definition kvminithart (kernel_pagetable : Z) (c : csrs) : csrs := w_satp (MAKE_SATP kernel_pagetable) c.

(** ** The tables needed *)

Definition kvm_keys : list (list Z) :=
  [[]; [0]; [0; 128]; [0; 96]; [0; 97]; [2]; [255]; [255; 511]] ++ map (λ i, [2; i]) (seqZ 0 64).

Lemma key_path v x lo hi (ks : list Z) : on_path v x → lo ≤ v < hi → 0 ≤ lo → hi ≤ MAXVA →
  (∀ w, lo / 2097152 ≤ w ≤ (hi - 1) / 2097152 → [w / 512; w `mod` 512] ∈ kvm_keys ∧ [w / 512] ∈ kvm_keys) →
  x ∈ kvm_keys.
Proof.
  intros Hx Hv Hlo Hhi Hw.
  assert (PX 2 v = v / 2097152 / 512 ∧ PX 1 v = (v / 2097152) `mod` 512) as [E2 E1].
  { rewrite !PX_mod by lia. change (2 ^ (12 + 9 * 2)) with (2097152 * 512). change (2 ^ (12 + 9 * 1)) with 2097152.
    rewrite <- Z.div_div by lia. split; [|done]. rewrite Z.mod_small; [done|].
    assert (MAXVA = 274877906944) by reflexivity. split; [apply Z.div_pos; [apply Z.div_pos; lia|lia]|].
    rewrite Z.div_div by lia. apply Z.div_lt_upper_bound; lia. }
  destruct (Hw (v / 2097152)) as [H1 H2]; [split; apply Z.div_le_mono; lia|].
  destruct Hx as [-> | ->]; rewrite ?E1, E2; done.
Qed.

Definition kvm_path (lo hi : Z) : Prop := ∀ v x, lo ≤ v < hi → on_path v x → x ∈ kvm_keys.
Lemma kvm_path_sub lo hi lo' hi' : kvm_path lo hi → lo ≤ lo' → hi' ≤ hi → kvm_path lo' hi'.
Proof. intros H ?? v x Hv. apply H. lia. Qed.
Lemma path_devices : kvm_path UART0 (VIRTIO0 + PGSIZE).
Proof.
  intros v x Hv Hx. eapply (key_path v x UART0 (VIRTIO0 + PGSIZE) []); [done|done|done|done|].
  intros w Hw. change (UART0 / 2097152) with 128 in Hw. change ((VIRTIO0 + PGSIZE - 1) / 2097152) with 128 in Hw.
  assert (w = 128) as -> by lia. vm_compute. set_solver.
Qed.
Lemma path_plic : kvm_path PLIC (PLIC + 0x400000).
Proof.
  intros v x Hv Hx. eapply (key_path v x PLIC (PLIC + 0x400000) []); [done|done|done|done|].
  intros w Hw. change (PLIC / 2097152) with 96 in Hw. change ((PLIC + 0x400000 - 1) / 2097152) with 97 in Hw.
  assert (w = 96 ∨ w = 97) as [-> | ->] by lia; vm_compute; set_solver.
Qed.
Lemma path_ram : kvm_path KERNBASE PHYSTOP.
Proof.
  intros v x Hv Hx. eapply (key_path v x KERNBASE PHYSTOP []); [done|done|done|done|].
  intros w Hw. change (KERNBASE / 2097152) with 1024 in Hw. change ((PHYSTOP - 1) / 2097152) with 1087 in Hw.
  assert (1024 ≤ w ≤ 1087) as Hr by lia.
  assert (w / 512 = 2 ∧ w `mod` 512 = w - 1024) as [-> ->].
  { split; [symmetry; apply (Z.div_unique_pos _ _ _ (w - 1024)); lia|symmetry; apply (Z.mod_unique_pos _ _ 2); lia]. }
  split; [|vm_compute; set_solver]. unfold kvm_keys. apply elem_of_app. right. apply (list_elem_of_fmap_2 (λ i, [2; i])).
  apply elem_of_seqZ. lia.
Qed.
Lemma path_top : kvm_path (KSTACK 63) MAXVA.
Proof.
  intros v x Hv Hx. eapply (key_path v x (KSTACK 63) MAXVA []); [done|done|done|done|].
  intros w Hw. change (KSTACK 63 / 2097152) with 131071 in Hw. change ((MAXVA - 1) / 2097152) with 131071 in Hw.
  assert (w = 131071) as -> by lia. vm_compute. set_solver.
Qed.

Lemma path_trampoline : kvm_path TRAMPOLINE MAXVA.
Proof. eapply kvm_path_sub; [apply path_top|done|done]. Qed.

Lemma length_omap_le {A B} (f : A → option B) l : (length (omap f l) ≤ length l)%nat.
Proof. induction l as [|x l IH]; [done|]. change (omap f (x :: l)) with (match f x with Some y => y :: omap f l | None => omap f l end). destruct (f x); simpl; lia. Qed.

(** ** The state while the table is built *)

Section build.
Variables (kend pt : Z) (l0 : list Z) (m0 : mem).
Hypotheses (kend_pos : 0 < kend) (l0_nodup : NoDup l0).

(** [stacks] have been allocated for stacks, the entries are [F], and the
    kernel's own memory is still [m0]. *)
Definition built (stacks : list Z) (F : Z → Z) (s : kstate) : Prop := ∃ t l k,
  vm_ok kend s pt t l ∧ (∀ x, is_Some (t !! x) → x ∈ kvm_keys) ∧
  l0 = k ++ l ∧ (∀ p, p ∈ k → p ∈ stacks ∨ ∃ x, t !! x = Some p) ∧
  NoDup stacks ∧ (∀ p, p ∈ stacks → data_page kend t l p) ∧
  (∀ va, 0 ≤ va < MAXVA → pte_val (k_mem s) t va = F va) ∧ ∀ x, x < kend → k_mem s x = m0 x.

(** There is room for all tables. *)
Lemma built_room stacks t k : NoDup k → (∀ x, is_Some (t !! x) → x ∈ kvm_keys) →
  (∀ p, p ∈ k → p ∈ stacks ∨ ∃ x, (t : tables) !! x = Some p) → (length k ≤ length stacks + 72)%nat.
Proof using.
  intros Hk Ht Hs. assert (k ⊆+ stacks ++ omap (t !!.) kvm_keys) as Hsub.
  { apply NoDup_submseteq; [done|]. intros p Hp. apply elem_of_app. destruct (Hs p Hp) as [?|[x Hx]]; [by left|right].
    apply list_elem_of_omap. exists x. split; [apply Ht; by eexists|done]. }
  apply submseteq_length in Hsub. rewrite length_app in Hsub. pose proof (length_omap_le (t !!.) kvm_keys) as Ho.
  change (length kvm_keys) with 72%nat in Ho. lia.
Qed.

Lemma kvmmap_built stacks F s va pa n perm :
  built stacks F s → (length stacks + 72 < length l0)%nat →
  0 ≤ perm < 1024 → aligned va → 0 ≤ va → 0 < n → va + PGSIZE * n ≤ MAXVA → aligned pa → 0 ≤ pa → pa + PGSIZE * n < 2 ^ 56 →
  kvm_path va (va + PGSIZE * n) → (∀ v, va ≤ v < va + PGSIZE * n → F v = 0) →
  wp (kvmmap pt va pa (PGSIZE * n) perm) (λ _ s', built stacks (mapped va pa perm (Z.to_nat n) F) s') s.
Proof.
  intros (t&l&k&Hok&Hkeys&El&Hk&Hnd&Hst&HF&Hlow) Hroom Hperm Hva Hva0 Hn Hmax Hpa Hpa0 Hpal Hpath Hun. unfold kvmmap. wp_step.
  wp_use (mappages_wp kend kend_pos pt perm s t l va (PGSIZE * n) pa); auto; rewrite ?npages_aligned by done; auto; try pg_lia.
  { rewrite (PGROUNDDOWN_id va) by done. intros v Hv. rewrite HF, Hun by pg_lia. done. }
  rewrite (PGROUNDDOWN_id va) by done. intros r s' (t'&l'&j&Hev&Hnew&Hpte&Hr).
  destruct (ev_free _ _ _ _ _ _ _ _ Hev) as [k' El'].
  assert (Hk' : ∀ p, p ∈ k ++ k' → p ∈ stacks ∨ ∃ x, t' !! x = Some p).
  { intros p [Hp|Hp]%elem_of_app.
    - destruct (Hk p Hp) as [?|[x Hx]]; [by left|right]. exists x. eapply lookup_weaken; [exact Hx|]. eapply ev_sub, Hev.
    - right. destruct (ev_taken _ _ _ _ _ _ _ _ Hev p) as [Hpl|?]; [rewrite El'; set_solver| |done].
      rewrite El, El', app_assoc in l0_nodup. apply NoDup_app in l0_nodup as (_&Hd&_). exfalso. apply (Hd p); set_solver. }
  assert (Hkeys' : ∀ x, is_Some (t' !! x) → x ∈ kvm_keys).
  { intros x [?|(v&Hv&Hx)]%Hnew; [auto|]. eapply Hpath; [|exact Hx]. lia. }
  assert (El0 : l0 = (k ++ k') ++ l') by (by rewrite El, El', app_assoc).
  destruct Hr as [[-> ->]|(->&_&->)].
  - apply wp_ret. exists t', l', (k ++ k'). split_and!; auto; [apply Hev|..].
    + intros p Hp. eapply data_page_evolve; eauto.
    + intros v Hv. rewrite Hpte by done. unfold mapped. case_decide; auto.
    + intros x Hx. rewrite (ev_frame _ _ _ _ _ _ _ _ Hev); [auto|]. intros (y&p&Hy&Hp).
      destruct (vm_pages _ _ _ _ _ (ev_ok _ _ _ _ _ _ _ _ Hev) _ _ Hy) as [[_ ?] _]. lia.
  - exfalso. rewrite app_nil_r in El0. pose proof (built_room stacks t' (k ++ k')) as Hl.
    rewrite <- El0 in Hl. specialize (Hl l0_nodup Hkeys'). rewrite El0 in Hroom. rewrite <- El0 in *. specialize (Hl Hk'). lia.
Qed.

Lemma kalloc_built stacks F s : built stacks F s → (length stacks + 72 < length l0)%nat →
  wp kalloc (λ p s', p ≠ 0 ∧ page_ok kend p ∧ p ∈ l0 ∧ built (stacks ++ [p]) F s') s.
Proof.
  intros (t&l&k&Hok&Hkeys&El&Hk&Hnd&Hst&HF&Hlow) Hroom. destruct l as [|p l].
  { exfalso. rewrite app_nil_r in El. subst l0. pose proof (built_room stacks t k l0_nodup Hkeys Hk). lia. }
  wp_use (kalloc_vm_wp kend kend_pos s pt t p l); [done|]. intros r s' (->&Hok'&Hd&Hso&Hpte).
  assert (p ∉ stacks) as Hps. { intros Hp. destruct (Hst p Hp) as (_&?&_). set_solver. }
  split_and!; [by apply (page_ok_nz kend kend_pos), Hd|apply Hd|set_solver|].
  exists t, l, (k ++ [p]). split_and!; auto.
  - by rewrite El, <- app_assoc.
  - set_solver.
  - apply NoDup_app. split_and!; [done|set_solver|apply NoDup_singleton].
  - intros q [Hq| ->%list_elem_of_singleton]%elem_of_app; [|done]. destruct (Hst q Hq) as (?&?&?). split_and!; [done|set_solver|done].
  - intros v Hv. rewrite Hpte. auto.
  - intros x Hx. rewrite Hso; [auto|]. destruct Hd as [[_ ?] _]. lia.
Qed.

Lemma perm_rw : 0 ≤ Z.lor PTE_R PTE_W < 1024.
Proof using. by vm_compute. Qed.
Lemma perm_rx : 0 ≤ Z.lor PTE_R PTE_X < 1024.
Proof using. by vm_compute. Qed.

(** The entries of the stacks [ps] of the processes from [i] on. *)
Fixpoint stack_ptes (i : Z) (ps : list Z) (F : Z → Z) : Z → Z :=
  match ps with
  | [] => F
  | p :: ps => stack_ptes (i + 1) ps (mapped (KSTACK i) p (Z.lor PTE_R PTE_W) 1 F)
  end.

Lemma KSTACK_pages i : KSTACK i = PGSIZE * (67108863 - (i + 1) * 2).
Proof using. unfold KSTACK. change TRAMPOLINE with (PGSIZE * 67108863). lia. Qed.
Lemma KSTACK_aligned i : aligned (KSTACK i).
Proof using. rewrite KSTACK_pages. apply aligned_mul. Qed.

Lemma mapstacks_built (n : nat) i stacks F s :
  built stacks F s → 0 ≤ i → i + n ≤ 64 → (length stacks + n + 72 < length l0)%nat →
  (∀ v, KSTACK 63 ≤ v < KSTACK i + PGSIZE → F v = 0) →
  wp (mapstacks_loop pt (seqZ i n)) (λ _ s', ∃ ps, length ps = n ∧ built (stacks ++ ps) (stack_ptes i ps F) s') s.
Proof.
  revert i stacks F s. induction n as [|n IH]; intros i stacks F s Hb Hi Hn Hroom HF.
  { apply wp_ret. exists []. by rewrite app_nil_r. }
  rewrite seqZ_cons by lia. cbn [mapstacks_loop]. wp_step. wp_use kalloc_built; [done|lia|]. intros p s1 (Hp0&Hp&_&Hb1). zbool.
  destruct (page_ok_bound kend kend_pos p Hp) as (Hpb&Hpa&Hpb'). wp_step.
  pose proof (KSTACK_pages i) as Ei. pose proof (KSTACK_pages 63) as E63. rewrite <- (Z.mul_1_r PGSIZE).
  assert (MAXVA = PGSIZE * 67108864) as EM by reflexivity.
  wp_use (kvmmap_built (stacks ++ [p]) F s1 (KSTACK i) p 1 (Z.lor PTE_R PTE_W)); auto using perm_rw; try pg_lia.
  - rewrite length_app. simpl. lia.
  - apply KSTACK_aligned.
  - eapply kvm_path_sub; [apply path_top|pg_lia|pg_lia].
  - intros v Hv. apply HF. pg_lia.
  - intros _ s2 Hb2. replace (Z.pred (S n)) with (Z.of_nat n) by lia.
    wp_use (IH (Z.succ i) (stacks ++ [p]) (mapped (KSTACK i) p (Z.lor PTE_R PTE_W) 1 F) s2); [done|lia|lia|rewrite length_app; simpl; lia| |].
    + intros v Hv. pose proof (KSTACK_pages (Z.succ i)). unfold mapped. rewrite decide_False by pg_lia. apply HF. pg_lia.
    + intros _ s3 (ps&Hl&Hb3). exists (p :: ps). split; [simpl; lia|]. by rewrite <- app_assoc in Hb3.
Qed.
End build.

(** ** The kernel's address space *)

Section map.
Variables (etext trampoline : Z) (stacks : list Z).

(** Permissions where virtual addresses are physical ones. *)
Definition direct_perm (va : Z) : option Z :=
  if decide (UART0 ≤ va < UART0 + PGSIZE) then Some (Z.lor PTE_R PTE_W)
  else if decide (VIRTIO0 ≤ va < VIRTIO0 + PGSIZE) then Some (Z.lor PTE_R PTE_W)
  else if decide (PLIC ≤ va < PLIC + 0x400000) then Some (Z.lor PTE_R PTE_W)
  else if decide (KERNBASE ≤ va < etext) then Some (Z.lor PTE_R PTE_X)
  else if decide (etext ≤ va < PHYSTOP) then Some (Z.lor PTE_R PTE_W)
  else None.

(** The process whose stack has the address; a page between two stacks has
    none. *)
Definition stack_of (va : Z) : option Z :=
  let q := (TRAMPOLINE - PGROUNDDOWN va) / PGSIZE in
  if Z.even q && (2 <=? q) && (q <=? 128) then Some (q / 2 - 1) else None.

Definition kernel_map (va : Z) : Z :=
  match direct_perm va with
  | Some perm => mkpte (PGROUNDDOWN va) perm
  | None =>
      if decide (TRAMPOLINE ≤ va) then mkpte trampoline (Z.lor PTE_R PTE_X)
      else match stack_of va with
           | Some i => default 0 ((λ p, mkpte p (Z.lor PTE_R PTE_W)) <$> stacks !! Z.to_nat i)
           | None => 0
           end
  end.
End map.

Lemma stack_of_spec va i : 0 ≤ i < 64 → stack_of va = Some i ↔ KSTACK i ≤ va < KSTACK i + PGSIZE.
Proof.
  intros Hi. rewrite KSTACK_pages. unfold stack_of. change TRAMPOLINE with (PGSIZE * 67108863). rewrite PGROUNDDOWN_eq, <- Z.mul_sub_distr_l.
  rewrite (Z.mul_comm PGSIZE (_ - _)), Z.div_mul by done. pose proof (Z.div_mod va PGSIZE ltac:(done)) as Hd.
  pose proof (Z.mod_pos_bound va PGSIZE ltac:(done)) as Hm. set (q := va / PGSIZE) in *.
  destruct (Z.even (67108863 - q)) eqn:He.
  - apply Z.even_spec in He as [h Hh]. rewrite Hh, (Z.mul_comm 2 h), Z.div_mul by done. cbn [andb].
    destruct (2 <=? h * 2) eqn:H2, (h * 2 <=? 128) eqn:H128; cbn [andb]; (split; [intros [= <-]|intros Hv]); pg_lia || (try done);
      try (f_equal; pg_lia); pg_lia.
  - split; [done|]. intros Hv. assert (q = 67108863 - (i + 1) * 2) by pg_lia.
    replace (67108863 - q) with (2 * (i + 1)) in He by lia. rewrite Z.even_mul in He. done.
Qed.

Lemma stack_of_range va i : stack_of va = Some i → 0 ≤ i < 64.
Proof.
  unfold stack_of. set (q := _ / _). destruct (Z.even q && (2 <=? q) && (q <=? 128)) eqn:E; [|done].
  intros [= <-]. assert (2 ≤ q ≤ 128) by lia. pose proof (Z.div_mod q 2). pose proof (Z.mod_pos_bound q 2). lia.
Qed.

Lemma stack_ptes_other i ps F va : 0 ≤ i → i + length ps ≤ 64 → (∀ j, stack_of va = Some j → j < i ∨ i + length ps ≤ j) →
  stack_ptes i ps F va = F va.
Proof.
  revert i F. induction ps as [|p ps IH]; intros i F Hi Hl Hj; simpl in *; [done|]. rewrite IH; [|lia|lia|].
  - unfold mapped. rewrite decide_False; [done|]. intros Hv. rewrite Z.mul_1_r in Hv. apply stack_of_spec in Hv; [|lia].
    apply Hj in Hv. lia.
  - intros j Hs. apply Hj in Hs. lia.
Qed.
Lemma stack_ptes_here i ps F va j p : 0 ≤ i → i + length ps ≤ 64 → stack_of va = Some j → i ≤ j →
  ps !! Z.to_nat (j - i) = Some p → stack_ptes i ps F va = mkpte p (Z.lor PTE_R PTE_W).
Proof.
  revert i F. induction ps as [|q ps IH]; intros i F Hi Hl Hs Hij Hp; [done|]. simpl in Hl |- *.
  destruct (decide (j = i)) as [->|].
  - rewrite Z.sub_diag in Hp. simpl in Hp. injection Hp as ->. rewrite stack_ptes_other; [|lia|lia|].
    + apply stack_of_spec in Hs; [|lia]. unfold mapped. rewrite decide_True by lia. f_equal.
      assert (PGROUNDDOWN va = KSTACK i); [|lia].
      rewrite PGROUNDDOWN_eq, (proj2 (same_page_iff (KSTACK i) va (KSTACK_aligned i)) Hs). symmetry. by apply aligned_inv, KSTACK_aligned.
    + intros j' Hj'. rewrite Hs in Hj'. injection Hj' as <-. lia.
  - apply IH; [lia|lia|done|lia|]. replace (Z.to_nat (j - i)) with (S (Z.to_nat (j - (i + 1)))) in Hp by lia. done.
Qed.

(** ** [kvmmake] *)

Section make.
Variables kend etext trampoline : Z.
Hypotheses (kend_pos : 0 < kend)
  (etext_ok : aligned etext ∧ KERNBASE < etext < PHYSTOP)
  (trampoline_ok : aligned trampoline ∧ KERNBASE ≤ trampoline < PHYSTOP).

(** A zeroed page is an empty page table. *)
Lemma zero_root s q l : kmem_ok kend s l → page_ok kend q → q ∉ l →
  let m := memset (k_mem s) q 0 PGSIZE in
  vm_ok kend (set_mem m s) q {[ [] := q ]} l ∧ ∀ va, pte_val m {[ [] := q ]} va = 0.
Proof using kend_pos.
  intros Hk Hqok Hql m.
  assert (Hz : ∀ i, idx i → load64 m (q + 8 * i) = 0).
  { intros i Hi. apply load64_zero. intros x Hx. unfold idx in Hi. apply memset_in. pg_lia. }
  split; [split; simpl|].
  - apply kmem_ok_set_mem; [done|apply memset_bytes_ok, Hk|]. intros p x Hp Hx.
    destruct (free_page_disjoint kend s l q p Hk Hqok Hql Hp); (apply memset_out; [done|pg_lia]).
  - split.
    + by rewrite lookup_singleton_eq.
    + intros x p [<- <-]%lookup_singleton_Some. split; [simpl; lia|constructor].
    + by intros x y p [<- _]%lookup_singleton_Some [<- _]%lookup_singleton_Some.
    + intros x i p [E _]%lookup_singleton_Some. by destruct x.
    + intros x p i [<- <-]%lookup_singleton_Some _ Hi. unfold child. rewrite Hz by done.
      symmetry. by apply lookup_singleton_None.
  - by intros x p [<- <-]%lookup_singleton_Some.
  - intros va. unfold pte_val. by rewrite (proj2 (lookup_singleton_None _ _ _)).
Qed.

Lemma fresh_table s q l (k : Z → M kstate Z) Q :
  kmem_ok kend s (q :: l) → (∀ s', built kend q (q :: l) (k_mem s) [] (λ _, 0) s' → wp (k q) Q s') →
  wp (q ← kalloc; upd_mem (λ m, memset m q 0 PGSIZE) ;; k q) Q s.
Proof using kend_pos.
  intros Hk HQ. wp_step. wp_use kalloc_wp; [done|done|]. intros r s1 (->&Hk1&Hs1&_). unfold upd_mem. wp_steps. apply HQ.
  pose proof (ok_pages _ _ _ Hk) as [Hqok _]%Forall_cons. pose proof (ok_nodup _ _ _ Hk) as [Hql _]%NoDup_cons.
  destruct (zero_root s1 q l Hk1 Hqok Hql) as [Hvm Hpte].
  exists {[ [] := q ]}, l, [q]. split_and!.
  - done.
  - intros x [p [<- _]%lookup_singleton_Some]. by left.
  - done.
  - intros p ->%list_elem_of_singleton. right. exists []. by rewrite lookup_singleton_eq.
  - constructor.
  - intros p Hp. by apply not_elem_of_nil in Hp.
  - intros va _. apply Hpte.
  - intros x Hx. destruct Hqok as [_ ?]. simpl. rewrite memset_out by pg_lia. apply Hs1. lia.
Qed.

Ltac kvm_arith := change KERNBASE with (PGSIZE * 524288) in *; change PHYSTOP with (PGSIZE * 557056) in *;
  change UART0 with (PGSIZE * 65536) in *; change VIRTIO0 with (PGSIZE * 65537) in *; change PLIC with (PGSIZE * 49152) in *;
  change TRAMPOLINE with (PGSIZE * 67108863) in *; change MAXVA with (PGSIZE * 67108864) in *; pg_lia.

Lemma kvm_step q l m0 F s va pa sz n perm (k : M kstate Z) Q :
  NoDup (q :: l) → (136 < length (q :: l))%nat → built kend q (q :: l) m0 [] F s → sz = PGSIZE * n →
  0 ≤ perm < 1024 → aligned va ∧ aligned pa → 0 ≤ va ∧ 0 < n ∧ va + PGSIZE * n ≤ MAXVA ∧ 0 ≤ pa ∧ pa + PGSIZE * n < 2 ^ 56 →
  kvm_path va (va + PGSIZE * n) → (∀ v, va ≤ v < va + PGSIZE * n → F v = 0) →
  (∀ s', built kend q (q :: l) m0 [] (mapped va pa perm (Z.to_nat n) F) s' → wp k Q s') →
  wp (kvmmap q va pa sz perm ;; k) Q s.
Proof using kend_pos.
  intros Hnd Hl Hb -> Hp [Hva Hpa] (?&?&?&?&?) Hpath HF HQ. wp_step.
  wp_use (kvmmap_built kend q (q :: l) m0 kend_pos Hnd [] F s va pa n perm); auto. simpl in *. lia.
Qed.
Ltac kvm_go n path := eapply (kvm_step _ _ _ _ _ _ _ _ n); [done|done|done|try kvm_arith|first [apply perm_rw|apply perm_rx]|
  split; first [assumption|reflexivity]|kvm_arith|eapply kvm_path_sub; [apply path|kvm_arith|kvm_arith]|
  unfold mapped; intros v Hv; repeat (rewrite decide_False by kvm_arith); done|intros ?s ?Hb].

(** The devices, the kernel, memory and the trampoline. *)
Definition base_map : Z → Z :=
  mapped TRAMPOLINE trampoline (Z.lor PTE_R PTE_X) (Z.to_nat 1)
    (mapped etext etext (Z.lor PTE_R PTE_W) (Z.to_nat ((PHYSTOP - etext) / PGSIZE))
       (mapped KERNBASE KERNBASE (Z.lor PTE_R PTE_X) (Z.to_nat ((etext - KERNBASE) / PGSIZE))
          (mapped PLIC PLIC (Z.lor PTE_R PTE_W) (Z.to_nat 1024)
             (mapped VIRTIO0 VIRTIO0 (Z.lor PTE_R PTE_W) (Z.to_nat 1)
                (mapped UART0 UART0 (Z.lor PTE_R PTE_W) (Z.to_nat 1) (λ _, 0)))))).

Lemma etext_pages : ∃ e, etext = PGSIZE * e ∧ 524288 < e < 557056.
Proof using etext_ok.
  destruct etext_ok as [Ha He]. exists (etext / PGSIZE). split; [by apply aligned_inv|]. pose proof (aligned_inv _ Ha).
  change KERNBASE with (PGSIZE * 524288) in He. change PHYSTOP with (PGSIZE * 557056) in He. pg_lia.
Qed.

Lemma kvmmake_wp s q l : kmem_ok kend s (q :: l) → (136 < length (q :: l))%nat →
  wp (kvmmake etext trampoline) (λ r s', r = q ∧ ∃ ps, length ps = 64%nat ∧
    built kend q (q :: l) (k_mem s) ps (stack_ptes 0 ps base_map) s') s.
Proof.
  intros Hk Hroom. pose proof (ok_nodup _ _ _ Hk) as Hnd. unfold kvmmake. apply (fresh_table s q l _ _ Hk). intros s1 Hb.
  destruct etext_pages as (e&He&Hr). destruct trampoline_ok as [Hta Ht].
  assert ((etext - KERNBASE) / PGSIZE = e - 524288 ∧ (PHYSTOP - etext) / PGSIZE = 557056 - e) as [Hn1 Hn2].
  { change KERNBASE with (PGSIZE * 524288). change PHYSTOP with (PGSIZE * 557056). rewrite He, <- !Z.mul_sub_distr_l.
    rewrite !(Z.mul_comm PGSIZE), !Z.div_mul by done. done. }
  unfold base_map. rewrite Hn1, Hn2. clear Hn1 Hn2. destruct etext_ok as [Hea _].
  kvm_go 1 path_devices. kvm_go 1 path_devices. kvm_go 1024 path_plic. kvm_go (e - 524288) path_ram.
  kvm_go (557056 - e) path_ram. kvm_go 1 path_trampoline.
  wp_step. unfold proc_mapstacks, procs. change NPROC with (Z.of_nat 64). eapply wp_mono.
  { eapply (mapstacks_built kend q (q :: l) (k_mem s) kend_pos Hnd 64 0 []); [exact Hb5|lia|lia|simpl in *; lia|].
    unfold mapped. intros v Hv. rewrite KSTACK_pages in Hv. rewrite KSTACK_pages in Hv. repeat (rewrite decide_False by kvm_arith). done. }
  intros _ s' (ps&Hl&Hbs). apply wp_ret. split; [done|]. by exists ps.
Qed.

Lemma mapped_direct a perm n F va : 0 ≤ n → mapped a a perm (Z.to_nat n) F va =
  if decide (a ≤ va < a + PGSIZE * n) then mkpte (PGROUNDDOWN va) perm else F va.
Proof using.
  intros Hn. unfold mapped. rewrite Z2Nat.id by done. case_decide; [|done]. f_equal. lia.
Qed.

Lemma base_map_spec va : 0 ≤ va < MAXVA → base_map va =
  match direct_perm etext va with
  | Some perm => mkpte (PGROUNDDOWN va) perm
  | None => if decide (TRAMPOLINE ≤ va) then mkpte trampoline (Z.lor PTE_R PTE_X) else 0
  end.
Proof using etext_ok.
  intros Hva. destruct etext_pages as (e&He&Hr). unfold base_map, direct_perm.
  assert (PGSIZE * ((etext - KERNBASE) / PGSIZE) = etext - KERNBASE ∧ PGSIZE * ((PHYSTOP - etext) / PGSIZE) = PHYSTOP - etext) as [E1 E2].
  { change KERNBASE with (PGSIZE * 524288). change PHYSTOP with (PGSIZE * 557056). rewrite He, <- !Z.mul_sub_distr_l.
    rewrite !(Z.mul_comm PGSIZE), !Z.div_mul by done. done. }
  assert (0 ≤ (etext - KERNBASE) / PGSIZE ∧ 0 ≤ (PHYSTOP - etext) / PGSIZE) as [P1 P2] by kvm_arith.
  unfold mapped at 1. change (Z.of_nat (Z.to_nat 1)) with 1. rewrite !mapped_direct, E1, E2 by done.
  clear E1 E2 P1 P2. pose proof (PGROUNDDOWN_le va) as Hd. pose proof (aligned_inv _ (PGROUNDDOWN_aligned va)) as Ha.
  destruct (decide (TRAMPOLINE ≤ va)) as [Ht|Ht].
  - rewrite decide_True by kvm_arith. repeat (rewrite decide_False by kvm_arith).
    assert (PGROUNDDOWN va = TRAMPOLINE) as -> by kvm_arith. f_equal. lia.
  - rewrite decide_False by kvm_arith. repeat case_decide; (reflexivity || kvm_arith).
Qed.

Lemma built_kernel_map ps va : length ps = 64%nat → 0 ≤ va < MAXVA →
  stack_ptes 0 ps base_map va = kernel_map etext trampoline ps va.
Proof using etext_ok.
  intros Hl Hva. unfold kernel_map. destruct (stack_of va) as [i|] eqn:Hs.
  - pose proof (stack_of_range va i Hs) as Hi. destruct (lookup_lt_is_Some_2 ps (Z.to_nat i)) as [p Hp]; [lia|].
    rewrite (stack_ptes_here 0 ps base_map va i p) by (rewrite ?Z.sub_0_r; done || lia). rewrite Hp.
    apply (stack_of_spec va i Hi) in Hs. rewrite KSTACK_pages in Hs. destruct etext_pages as (e&He&Hr).
    unfold direct_perm. repeat (rewrite decide_False by kvm_arith). done.
  - rewrite stack_ptes_other; [by apply base_map_spec|lia|lia|]. intros j. by rewrite Hs.
Qed.
End make.

Lemma free_pages_many kend l (n : nat) : 0 < kend → kend + (n + 1) * PGSIZE ≤ PHYSTOP → (∀ p, p ∈ l ↔ page_ok kend p) → (n ≤ length l)%nat.
Proof.
  intros Hk He Hall. set (ps := map (λ i, PHYSTOP - PGSIZE * (i + 1)) (seqZ 0 n)).
  assert (ps ⊆+ l) as Hsub.
  { apply NoDup_submseteq.
    - apply NoDup_fmap_2_strong; [|apply NoDup_seqZ]. unfold PGSIZE. lia.
    - intros p (i&->&Hi%elem_of_seqZ)%list_elem_of_fmap. apply Hall. split; [|unfold PGSIZE in *; lia].
      change PHYSTOP with (PGSIZE * 557056). rewrite <- Z.mul_sub_distr_l. apply aligned_mul. }
  apply submseteq_length in Hsub. unfold ps in Hsub. rewrite length_map, length_seqZ in Hsub. lia.
Qed.

(** C34: the kernel's address space.  From a machine with at least 137 pages
    above the kernel, [kinit] and [kvminit] do not panic, and walking the new
    table finds for every virtual address exactly the entry it should have:
    devices, kernel text and memory at their physical addresses with text
    executable and not writable, the trampoline on the last page, a stack of
    its own for each process below it, and nothing anywhere else, in
    particular not between two stacks.  The tables and the stacks are pages
    taken from the allocator, which stays consistent. *)
Theorem kvminit_maps_kernel (kend etext trampoline : Z) (s : kstate) :
  0 < kend → kend + 138 * PGSIZE ≤ PHYSTOP → bytes_ok (k_mem s) → k_free s = 0 →
  aligned etext ∧ KERNBASE < etext < PHYSTOP → aligned trampoline ∧ KERNBASE ≤ trampoline < PHYSTOP →
  wp (kinit kend ;; kvminit etext trampoline) (λ kpgtbl s', ∃ t l stacks,
    vm_ok kend s' kpgtbl t l ∧ length stacks = 64%nat ∧ NoDup stacks ∧ (∀ p, p ∈ stacks → data_page kend t l p) ∧
    ∀ va, 0 ≤ va < MAXVA → lookup_pte kpgtbl va s' = Ok (kernel_map etext trampoline stacks va) s') s.
Proof.
  intros Hk0 Hend Hb Hf He Ht. wp_step. wp_use (kinit_wp kend Hk0 s); [unfold PGSIZE in *; lia|done|done|].
  intros _ s1 (l&Hk&Hall&_). pose proof (free_pages_many kend l 137 Hk0 Hend Hall) as Hl. destruct l as [|q l]; [simpl in Hl; lia|].
  unfold kvminit. wp_use (kvmmake_wp kend etext trampoline Hk0 He Ht s1 q l); [done|lia|].
  intros r s' (->&ps&Hps&t&l'&k&Hok&_&_&_&Hnd&Hd&HF&_). exists t, l', ps. split_and!; auto. intros va Hva.
  rewrite (lookup_pte_ok kend Hk0 q s' t l') by (done || lia). rewrite HF by done. by rewrite built_kernel_map.
Qed.

Definition boot_state : kstate := KState (λ _, 0) 0 false.
Lemma kvminit_maps_kernel_witness :
  wp (kinit 0x80021000 ;; kvminit 0x80008000 0x80007000) (λ kpgtbl s', ∃ t l stacks,
    vm_ok 0x80021000 s' kpgtbl t l ∧ length stacks = 64%nat ∧ NoDup stacks ∧ (∀ p, p ∈ stacks → data_page 0x80021000 t l p) ∧
    ∀ va, 0 ≤ va < MAXVA → lookup_pte kpgtbl va s' = Ok (kernel_map 0x80008000 0x80007000 stacks va) s') boot_state.
Proof.
  apply (kvminit_maps_kernel 0x80021000 0x80008000 0x80007000 boot_state).
  - lia.
  - unfold PGSIZE, PHYSTOP, KERNBASE. lia.
  - intros x. simpl. lia.
  - reflexivity.
  - split; [reflexivity|unfold PHYSTOP, KERNBASE; lia].
  - split; [reflexivity|unfold PHYSTOP, KERNBASE; lia].
Defined.
