(* ===== verification/SysSafe.v ===== *)
(** * System calls and the process table

    Every system call keeps the invariant of the process table: the functions
    of sysfile.c, sysproc.c, exec.c and the dispatch of syscall.c, over the
    file layer. *)
From S2P Require Import Prelude Kstring Kalloc Vm Block BufCache Log Fs UserVm Proc ProcProps ProcTable ProcFork ProcInv Crit ProcSteps FsKeeps.
From S2P Require Import File FileSafe Syscall Sysfile Exec Trap.

Section rules.
Context {S : Type} `{!BufCache S} (p : Z).
Abbreviation sys := (sys S).
Abbreviation holds := (holds (S := S) (crit p) pinv).

Lemma holds_upd f L : (∀ x, same_id x (f x)) → holds L (pr (upd_proc p f)) (λ _, L).
Proof. intros Hf. apply holds_pr. intros s H. unfold upd_proc. apply wlp_modify. by apply crit_upd. Qed.
Lemma holds_kill pid L : holds L (pr (kill pid)) (λ _, L).
Proof. apply holds_pr. intros s H. by apply kill_crit. Qed.
Lemma holds_setkilled L : holds L (pr (setkilled p)) (λ _, L).
Proof. apply holds_pr. intros s H. by apply setkilled_crit. Qed.
Lemma holds_wait kend base addr : holds [] (pr (wait kend base addr)) (λ _, []).
Proof. apply holds_pr. intros s H. by apply wait_crit. Qed.
Lemma holds_growproc kend n : holds [] (pr (growproc kend n)) (λ _, []).
Proof. apply holds_pr. intros s H. by apply growproc_crit. Qed.
Lemma holds_yield {A} (L' : A → list lockid) : holds [] (pr yield) L'.
Proof. apply holds_pr. intros s H. by apply (yield_crit p). Qed.
Lemma holds_proc_freepagetable kend pt sz L : holds L (pr (proc_freepagetable kend pt sz)) (λ _, L).
Proof.
  apply holds_pr. intros s H. unfold proc_freepagetable.
  repeat (eapply wlp_bind, wlp_mono; [apply (kern_st _ _ _ (crit_stable p) L); [done|by auto with awake]| |done]; clear s H; intros ? s H).
  apply (kern_st _ _ _ (crit_stable p) L); [done|by auto with awake].
Qed.
End rules.

#[export] Hint Extern 0 (holds _ _ _ (pr (upd_proc _ _)) _) => (apply holds_upd; done) : holds.
#[export] Hint Resolve holds_kill holds_setkilled holds_wait holds_growproc holds_yield holds_proc_freepagetable : holds.

Section syscalls.
Context {S : Type} `{!BufCache S}.
Variables (kend obj ftable_lock trampoline proc_base forkret_addr buf tickslock ticks_addr : Z) (stat_pad : list Z).
Variables (devsw_read devsw_write : Z → option (Z → Z → M (sys S) Z)).
Abbreviation sys := (sys S).
#[local] Instance files : FileOps sys := sys_files kend obj ftable_lock.
#[local] Instance copy : UserCopy pstate := Proc_copy obj.

(** ** Arguments, for any assertion the file layer keeps *)
Section args.
Context (p : Z) (P : list lockid → pstate → Prop) (R : pstate → Prop) (Hst : stable (Some p) P R).
Abbreviation holds := (holds (S := S) P R).

Lemma holds_tf_load off L : holds L (tf_load off) (λ _, L).
Proof using Hst. unfold tf_load. holds_go. Qed.
Lemma holds_tf_store off v L : holds L (tf_store off v) (λ _, L).
Proof using Hst. unfold tf_store. holds_go. Qed.
Hint Resolve holds_tf_load holds_tf_store : holds.
Lemma holds_fetchaddr addr L : holds L (fetchaddr obj addr) (λ _, L).
Proof using Hst. unfold fetchaddr. holds_go. Qed.
Lemma holds_fetchstr_to dst addr max L : holds L (fetchstr_to dst addr max) (λ _, L).
Proof using Hst. unfold fetchstr_to. holds_go. Qed.
Lemma holds_argraw n L : holds L (argraw n) (λ _, L).
Proof using Hst. unfold argraw. holds_go. Qed.
Hint Resolve holds_fetchaddr holds_fetchstr_to holds_argraw : holds.
Lemma holds_argint n L : holds L (argint n) (λ _, L).
Proof using Hst. unfold argint. holds_go. Qed.
Lemma holds_argaddr n L : holds L (argaddr n) (λ _, L).
Proof using Hst. unfold argaddr. holds_go. Qed.
Hint Resolve holds_argint holds_argaddr : holds.
Lemma holds_argstr n max L : holds L (argstr buf n max) (λ _, L).
Proof using Hst. unfold argstr, fetchstr. holds_go. Qed.
End args.
Hint Resolve holds_tf_load holds_tf_store holds_fetchaddr holds_fetchstr_to holds_argraw holds_argint holds_argaddr holds_argstr : holds.

Context (p : Z).
Abbreviation holds := (holds (S := S) (crit p) pinv).
Let Hst : stable (Some p) (crit p) pinv := crit_stable p.

(** ** sysproc.c *)
Lemma holds_exit {A} n (L' : A → list lockid) : holds [] (exit proc_base n) L'.
Proof using. intros t H. exact (exit_crit (T := sys) proc_base p n _ t H). Qed.
Hint Resolve holds_exit : holds.
Lemma holds_sys_exit : holds [] (sys_exit kend obj ftable_lock proc_base) (λ _, []).
Proof using. unfold sys_exit. holds_go. Qed.
Lemma holds_sys_getpid : holds [] sys_getpid (λ _, []).
Proof using. unfold sys_getpid. holds_go. Qed.
Lemma holds_sys_wait : holds [] (sys_wait kend proc_base) (λ _, []).
Proof using. unfold sys_wait. holds_go. Qed.
Lemma holds_sys_sbrk : holds [] (sys_sbrk kend) (λ _, []).
Proof using. unfold sys_sbrk. holds_go. Qed.
Lemma holds_sys_sleep_turn n t0 : holds [OTHER_LOCK tickslock] (sys_sleep_turn tickslock ticks_addr p n t0) (λ _, []).
Proof using. unfold sys_sleep_turn. holds_go. Qed.
Hint Resolve holds_sys_sleep_turn : holds.
Lemma holds_sys_sleep : holds [] (sys_sleep tickslock ticks_addr) (λ _, []).
Proof using. unfold sys_sleep. holds_go. Qed.
Lemma holds_sys_kill : holds [] sys_kill (λ _, []).
Proof using. unfold sys_kill. holds_go. Qed.
Lemma holds_sys_uptime : holds [] (sys_uptime tickslock) (λ _, []).
Proof using. unfold sys_uptime. holds_go. Qed.

(** ** sysfile.c *)
Lemma holds_type_of i : holds [] (type_of i) (λ _, []).
Proof using. unfold type_of. holds_go. Qed.
Lemma holds_argfd n L : holds L (argfd n) (λ _, L).
Proof using. unfold argfd. holds_go. Qed.
Lemma holds_fdalloc_loop f fd k L : holds L (fdalloc_loop p f fd k) (λ _, L).
Proof using. revert fd. induction k as [|k IH]; intros fd; cbn [fdalloc_loop]; holds_go. Qed.
Hint Resolve holds_type_of holds_argfd holds_fdalloc_loop : holds.
Lemma holds_fdalloc f L : holds L (fdalloc f) (λ _, L).
Proof using. unfold fdalloc. holds_go. Qed.
Hint Resolve holds_fdalloc : holds.
Lemma holds_sys_dup : holds [] (sys_dup ftable_lock) (λ _, []).
Proof using. unfold sys_dup. holds_go. Qed.
Lemma holds_sys_close : holds [] (sys_close kend ftable_lock) (λ _, []).
Proof using. unfold sys_close. holds_go. Qed.
Lemma holds_sys_fstat : holds [] (sys_fstat obj stat_pad) (λ _, []).
Proof using. unfold sys_fstat. holds_go. Qed.
Lemma holds_sys_read : device_ok (S := S) (crit p) pinv devsw_read → holds [] (sys_read obj devsw_read) (λ _, []).
Proof using. intros Hd. unfold sys_read. holds_go. Qed.
Lemma holds_sys_write : device_ok (S := S) (crit p) pinv devsw_write → holds [] (sys_write obj devsw_write) (λ _, []).
Proof using. intros Hd. unfold sys_write. holds_go. Qed.
Lemma holds_nameiparent path : holds [] (nameiparent obj path) (λ _, []).
Proof using. unfold nameiparent. holds_go. Qed.
Lemma holds_dlink dp nm n : holds [] (dlink obj dp nm n) (λ _, []).
Proof using. unfold dlink. holds_go. Qed.
Lemma holds_link_bad i : holds [] (link_bad i) (λ _, []).
Proof using. unfold link_bad. holds_go. Qed.
Hint Resolve holds_nameiparent holds_dlink holds_link_bad : holds.
Lemma holds_sys_link : holds [] (sys_link obj buf) (λ _, []).
Proof using. unfold sys_link. holds_go. Qed.
Lemma holds_isdirempty_loop dp off k : holds [] (isdirempty_loop obj dp off k) (λ _, []).
Proof using. revert off. induction k as [|k IH]; intros off; cbn [isdirempty_loop]; holds_go. Qed.
Hint Resolve holds_isdirempty_loop : holds.
Lemma holds_isdirempty dp : holds [] (isdirempty obj dp) (λ _, []).
Proof using. unfold isdirempty. holds_go. Qed.
Lemma holds_unlink_bad dp : holds [] (unlink_bad dp) (λ _, []).
Proof using. unfold unlink_bad. holds_go. Qed.
Hint Resolve holds_isdirempty holds_unlink_bad : holds.
Lemma holds_sys_unlink : holds [] (sys_unlink obj buf) (λ _, []).
Proof using. unfold sys_unlink. holds_go. Qed.
Lemma holds_create_fail ip dp : holds [] (create_fail ip dp) (λ _, []).
Proof using. unfold create_fail. holds_go. Qed.
Hint Resolve holds_create_fail : holds.
Lemma holds_create path ty major minor : holds [] (create obj path ty major minor) (λ _, []).
Proof using. unfold create. holds_go. Qed.
Lemma holds_open_inode ip omode : holds [] (open_inode kend ftable_lock ip omode) (λ _, []).
Proof using. unfold open_inode. holds_go. Qed.
Hint Resolve holds_create holds_open_inode : holds.
Lemma holds_sys_open : holds [] (sys_open kend obj ftable_lock buf) (λ _, []).
Proof using. unfold sys_open. holds_go. Qed.
Lemma holds_sys_mkdir : holds [] (sys_mkdir obj buf) (λ _, []).
Proof using. unfold sys_mkdir. holds_go. Qed.
Lemma holds_sys_mknod : holds [] (sys_mknod obj buf) (λ _, []).
Proof using. unfold sys_mknod. holds_go. Qed.
Lemma holds_sys_chdir : holds [] (sys_chdir obj buf) (λ _, []).
Proof using. unfold sys_chdir. holds_go. Qed.
Lemma holds_pipe_undo fd0 fd1 rf wf : holds [] (pipe_undo kend ftable_lock p fd0 fd1 rf wf) (λ _, []).
Proof using. unfold pipe_undo. holds_go. Qed.
Hint Resolve holds_pipe_undo : holds.
Lemma holds_sys_pipe : holds [] (sys_pipe kend obj ftable_lock) (λ _, []).
Proof using. unfold sys_pipe. holds_go. Qed.

(** ** exec.c *)
Lemma holds_proc_pagetable L : holds L (pr (proc_pagetable kend trampoline p)) (λ _, L).
Proof using.
  apply holds_pr. intros s H. eapply wlp_mono; [apply (proc_pagetable_wlp kend trampoline p (ps_proc s p) (λ _, False) s), slot_to_refl, H| |done].
  intros ? s' [F Hn [Hu Ho]]. eapply crit_slot; [done|exact F|done|exact Hu|exact Ho|]. intros Hp. split; [|done]. apply soft_refl, ok_clear; [by eapply crit_ok|done].
Qed.
Lemma holds_read_kern ip off n : holds [] (read_kern obj ip off n) (λ _, []).
Proof using. unfold read_kern. holds_go. Qed.
Hint Resolve holds_proc_pagetable holds_read_kern : holds.
Lemma holds_loadseg_loop pt va ip off sz i k : holds [] (loadseg_loop obj pt va ip off sz i k) (λ _, []).
Proof using. revert i. induction k as [|k IH]; intros i; cbn [loadseg_loop]; holds_go. Qed.
Hint Resolve holds_loadseg_loop : holds.
Lemma holds_loadseg pt va ip off sz : holds [] (loadseg obj pt va ip off sz) (λ _, []).
Proof using. unfold loadseg. holds_go. Qed.
Hint Resolve holds_loadseg : holds.
Lemma holds_load_loop pt ip phnum i off sz k : holds [] (load_loop kend obj pt ip phnum i off sz k) (λ _, []).
Proof using. revert i off sz. induction k as [|k IH]; intros i off sz; cbn [load_loop]; holds_go. Qed.
Lemma holds_kstrlen a L : holds L (kstrlen a) (λ _, L).
Proof using. unfold kstrlen. holds_go. Qed.
Hint Resolve holds_load_loop holds_kstrlen : holds.
Lemma holds_push_args pt sb argv argc sp us : holds [] (push_args pt sb argv argc sp us) (λ _, []).
Proof using. revert argc sp us. induction argv as [|a argv IH]; intros argc sp us; cbn [push_args]; holds_go. Qed.
Lemma holds_exec_bad pt sz ip : holds [] (exec_bad kend pt sz ip) (λ _, []).
Proof using. unfold exec_bad. holds_go. Qed.
Lemma holds_exec_commit pt sz sp entry argc path : holds [] (exec_commit kend buf proc_base p pt sz sp entry argc path) (λ _, []).
Proof using. unfold exec_commit. holds_go. Qed.
Hint Resolve holds_push_args holds_exec_bad holds_exec_commit : holds.
Lemma holds_exec_stack pt sz entry path argv : holds [] (exec_stack kend obj buf proc_base p pt sz entry path argv) (λ _, []).
Proof using.
  assert (Ha : ∀ pt va l, awake (@Fs.copyout _ (Vm_copy pt obj) va l)) by (intros; apply copyop_awake). unfold exec_stack. holds_go.
Qed.
Hint Resolve holds_exec_stack : holds.
Lemma holds_exec path argv : holds [] (exec kend obj buf trampoline proc_base path argv) (λ _, []).
Proof using. unfold exec. holds_go. Qed.
Lemma holds_free_args argv L : holds L (free_args kend argv) (λ _, L).
Proof using. induction argv as [|a argv IH]; cbn [free_args]; holds_go. Qed.
Lemma holds_fetch_args u i argv k L : holds L (fetch_args obj u i argv k) (λ _, L).
Proof using. revert i argv. induction k as [|k IH]; intros i argv; cbn [fetch_args]; holds_go. Qed.
Hint Resolve holds_exec holds_free_args holds_fetch_args : holds.
Lemma holds_sys_exec : holds [] (sys_exec kend obj buf trampoline proc_base) (λ _, []).
Proof using. unfold sys_exec. holds_go. Qed.

(** ** Dispatch *)

Abbreviation syscalls := (syscalls kend obj ftable_lock trampoline proc_base forkret_addr buf tickslock ticks_addr stat_pad devsw_read devsw_write).
Abbreviation syscall := (syscall kend obj ftable_lock trampoline proc_base forkret_addr buf tickslock ticks_addr stat_pad devsw_read devsw_write).

Lemma holds_syscalls num f :
  device_ok (S := S) (crit p) pinv devsw_read → device_ok (S := S) (crit p) pinv devsw_write →
  syscalls num = Some f → num ≠ 1 → holds [] f (λ _, []).
Proof using.
  intros Hr Hw E Hn. unfold Trap.syscalls in E.
  repeat match type of E with context [match ?x with _ => _ end] => is_var x; destruct x; try discriminate end;
    injection E as <-; try done.
  all: auto using holds_sys_exit, holds_sys_getpid, holds_sys_wait, holds_sys_sbrk, holds_sys_sleep, holds_sys_kill, holds_sys_uptime,
    holds_sys_dup, holds_sys_close, holds_sys_fstat, holds_sys_read, holds_sys_write, holds_sys_link, holds_sys_unlink, holds_sys_open,
    holds_sys_mkdir, holds_sys_mknod, holds_sys_chdir, holds_sys_pipe, holds_sys_exec.
Qed.

(** The invariant, and the next pid. *)
Definition crit_at (n : Z) (L : list lockid) (s : pstate) : Prop := crit p L s ∧ ps_nextpid s = n.
Lemma crit_at_stable n : stable (Some p) (crit_at n) pinv.
Proof using.
  split.
  - intros L s [Hc _]. by apply (st_cpu _ _ _ Hst).
  - intros L s [Hc _]. apply Hc.
  - intros L s L' s' [Hc <-] Hl Hn. split; [by eapply (st_locks _ _ _ Hst)|apply Hl].
  - intros L s k [Hc Hn]. split; [by apply (st_k _ _ _ Hst)|done].
  - intros L s s' [Hc <-] He. split; [by eapply (st_nudge _ _ _ Hst)|apply He].
  - intros q lk c s s' E [Hc _] G. by eapply (st_sleep _ _ _ Hst q).
Qed.

Lemma syscall_crit t :
  device_ok (S := S) (crit p) pinv devsw_read → device_ok (S := S) (crit p) pinv devsw_write →
  crit p [] (sys_procs t) → ps_nextpid (sys_procs t) + 1 < 2 ^ 31 →
  wlp syscall (λ _ t', crit p [] (sys_procs t')) (λ t', pinv (sys_procs t')) t.
Proof using.
  intros Hr Hw Hc Hn. unfold Trap.syscall.
  eapply wlp_bind, wlp_mono; [apply (holds_tf_load p _ _ (crit_at_stable (ps_nextpid (sys_procs t))) TF_a7 []); by split| |done]. cbv beta.
  intros a7 t1 [H1 En]. assert (Hend : ∀ r (t : sys), crit p [] (sys_procs t) → wlp (tf_store TF_a0 r) (λ _ t', crit p [] (sys_procs t')) (λ t', pinv (sys_procs t')) t).
  { intros r t2 H2. by apply (holds_tf_store p _ _ Hst TF_a0 r []). }
  destruct (_ && _); [|by apply Hend]. destruct (Trap.syscalls _ _ _ _ _ _ _ _ _ _ _ _ (s32 a7)) as [f|] eqn:E; [|by apply Hend].
  destruct (decide (s32 a7 = 1)) as [E1|E1].
  - rewrite E1 in E. injection E as <-. assert (Hb : ps_nextpid (sys_procs t1) + 1 < 2 ^ 31) by lia.
    eapply wlp_bind, wlp_mono; [exact (fork_crit (T := sys) kend trampoline proc_base forkret_addr p (λ t', pinv (sys_procs t')) t1 H1 Hb)| |done].
    intros r. apply Hend.
  - eapply wlp_bind, wlp_mono; [by apply (holds_syscalls (s32 a7) f)|intros r; apply Hend|done].
Qed.
End syscalls.
