(* ===== verification/TrapSafe.v ===== *)
(** * Traps and the process table

    A trap from user space, from its entry in [usertrap] to the return to user
    space or to the switch to the scheduler, keeps the invariant of the process
    table; so does an interrupt that arrives in the scheduler. *)
From S2P Require Import Prelude Kstring Kalloc Vm Block BufCache Log Fs UserVm Proc ProcProps ProcTable ProcFork ProcInv Crit ProcSteps FsKeeps.
From S2P Require Import File FileSafe Syscall Sysfile Exec Trap SysSafe.

Create HintDb spares.

Section rules.
Context {S : Type} `{!BufCache S}.
Context (o : option Z) (P : list lockid → pstate → Prop) (Hst : stable o P pinv).
Context (Hintr : ∀ s b, P [] s → P [] (set_cpu (put_intr b (ps_cpu s)) s)).
Abbreviation mach := (mach S).

Definition mprocs (t : mach) : pstate := sys_procs (mc_sys t).
(** [m] runs without locks and keeps the assertion, or gives up the CPU. *)
Definition spares {A} (m : M mach A) : Prop :=
  ∀ t, P [] (mprocs t) → wlp m (λ _ t', P [] (mprocs t')) (λ t', pinv (mprocs t')) t.

Lemma spares_ret {A} (a : A) : spares (mret a).
Proof using. intros t H. exact H. Qed.
Lemma spares_gets {A} (f : mach → A) : spares (gets f).
Proof using. intros t H. exact H. Qed.
Lemma spares_upd_csr f : spares (upd_csr f).
Proof using. intros t H. exact H. Qed.
Lemma spares_panic {A} e : spares (panic (A := A) e).
Proof using. done. Qed.
Lemma spares_bind {A B} (m : M mach A) (k : A → M mach B) : spares m → (∀ a, spares (k a)) → spares (m ≫= k).
Proof using. intros Hm Hk t H. eapply wlp_bind, wlp_mono; [by apply Hm| |done]. cbv beta. intros a t'. apply Hk. Qed.
Lemma kern_sys_wlp {A} (m : M (sys S) A) (Q : A → pstate → Prop) R (t : mach) :
  wlp m (λ a s', Q a (sys_procs s')) (λ s', R (sys_procs s')) (mc_sys t) →
  wlp (kern_sys m) (λ a t', Q a (mprocs t')) (λ t', R (mprocs t')) t.
Proof using. unfold wlp, kern_sys, zoom. by destruct (m (mc_sys t)). Qed.
Lemma spares_sys {A} (m : M (sys S) A) : holds P pinv [] m (λ _, []) → spares (kern_sys m).
Proof using. intros Hm t H. apply (kern_sys_wlp m (λ _, P [])). by apply Hm. Qed.
Lemma spares_curproc {B} p (k : Z → M mach B) : o = Some p → spares (k p) → spares (prm curproc ≫= k).
Proof using Hst.
  intros Ho Hk t H. apply wlp_bind. eapply wlp_mono; [apply (kern_sys_wlp (pr curproc) (λ r s, r = p ∧ P [] s) pinv)| |done].
  - apply pr_wlp. eapply wlp_mono; [by apply (curproc_st _ P pinv Hst [] _ H p (λ _, False))| |done]. cbv beta. by intros ? s' [-> ?] t' <-.
  - cbv beta. intros ? t' [-> H']. by apply Hk.
Qed.
Lemma spares_myproc {B} (k : option Z → M mach B) : spares (k o) → spares (prm myproc ≫= k).
Proof using Hst.
  intros Hk t H. apply wlp_bind. eapply wlp_mono; [apply (kern_sys_wlp (pr myproc) (λ r s, r = o ∧ P [] s) pinv)| |done].
  - apply pr_wlp. eapply wlp_mono; [by apply (myproc_st _ P pinv Hst [] _ H (λ _, False))| |done]. cbv beta. by intros ? s' [-> ?] t' <-.
  - cbv beta. intros ? t' [-> H']. by apply Hk.
Qed.
Lemma spares_intr_on : spares (prm intr_on).
Proof using Hintr. apply spares_sys, holds_pr. intros s H. unfold intr_on, upd_cpu. apply wlp_modify. by apply Hintr. Qed.
Lemma spares_intr_off : spares (prm intr_off).
Proof using Hintr. apply spares_sys, holds_pr. intros s H. unfold intr_off, upd_cpu. apply wlp_modify. by apply Hintr. Qed.
Lemma spares_intr_get : spares (prm intr_get).
Proof using. apply spares_sys, holds_pr. done. Qed.
Hint Resolve spares_ret spares_gets spares_upd_csr spares_panic spares_intr_on spares_intr_off spares_intr_get : spares.
Lemma spares_r_sstatus : spares r_sstatus.
Proof using Hst. unfold r_sstatus. apply spares_bind; [apply spares_gets|intros ?]. apply spares_bind; [apply spares_intr_get|intros ?]. apply spares_ret. Qed.
Lemma spares_w_sstatus x : spares (w_sstatus x).
Proof using Hintr. unfold w_sstatus. apply spares_bind; [apply spares_upd_csr|intros ?]. destruct (has_bits _ _); auto with spares. Qed.
End rules.
#[export] Hint Resolve spares_ret spares_gets spares_upd_csr spares_panic spares_intr_on spares_intr_off spares_intr_get spares_r_sstatus spares_w_sstatus : spares.
#[export] Hint Extern 0 (spares _ (csr _)) => (apply spares_gets) : spares.
#[export] Hint Extern 1 (spares _ (kern_sys _)) => (apply spares_sys; holds_go) : spares.
#[export] Hint Extern 1 (spares _ (prm _)) => (apply spares_sys; holds_go) : spares.

Ltac spares_go :=
  repeat first
    [ solve [eauto 3 with spares]
    | lazymatch goal with
      | |- spares _ (mbind _ (prm curproc)) => eapply spares_curproc; [eassumption|reflexivity|]
      | |- spares _ (mbind _ (prm myproc)) => eapply spares_myproc; [eassumption|]
      | |- spares _ (mbind _ _) => apply spares_bind; [|intros ?]
      | |- spares _ (if ?b then _ else _) => destruct b
      end ].

Section traps.
Context {S : Type} `{!BufCache S}.
Variables (kend obj ftable_lock trampoline proc_base forkret_addr buf tickslock ticks_addr : Z).
Variables (kernelvec uservec usertrap_addr : Z) (stat_pad : list Z).
Variables (devsw_read devsw_write : Z → option (Z → Z → M (sys S) Z)).
Variables (uartintr virtio_disk_intr : M (sys S) unit).
#[local] Instance files : FileOps (sys S) := sys_files kend obj ftable_lock.
Abbreviation mach := (mach S).

(** What the traps rely on from the device drivers, in process [p]. *)
Record drivers_ok (p : Z) : Prop := {
  dr_read : device_ok (S := S) (crit p) pinv devsw_read;
  dr_write : device_ok (S := S) (crit p) pinv devsw_write;
  dr_uart : holds (crit p) pinv [] uartintr (λ _, []);
  dr_disk : holds (crit p) pinv [] virtio_disk_intr (λ _, [])
}.

Section any.
Context (o : option Z) (P : list lockid → pstate → Prop) (Hst : stable o P pinv).
Context (Hintr : ∀ s b, P [] s → P [] (set_cpu (put_intr b (ps_cpu s)) s)).
Lemma holds_clockintr L : holds (S := S) P pinv L (clockintr tickslock ticks_addr) (λ _, L).
Proof using Hst. unfold clockintr. holds_go. Qed.
Lemma spares_devintr irq :
  holds P pinv [] uartintr (λ _, []) → holds P pinv [] virtio_disk_intr (λ _, []) →
  spares (S := S) P (devintr tickslock ticks_addr uartintr virtio_disk_intr irq).
Proof using Hst.
  intros Hu Hv. pose proof holds_clockintr. unfold devintr. spares_go. all: apply spares_sys; repeat case_match; holds_go.
Qed.
Lemma spares_kerneltrap_end sepc st : spares (S := S) P (kerneltrap_end sepc st).
Proof using Hintr. unfold kerneltrap_end. spares_go. Qed.
End any.

Section some.
Context (p : Z) (P : list lockid → pstate → Prop) (Hst : stable (Some p) P pinv).
Context (Hintr : ∀ s b, P [] s → P [] (set_cpu (put_intr b (ps_cpu s)) s)).
Lemma spares_tf_store off v : spares P (kern_sys (S := S) (tf_store off v)).
Proof using Hst. eapply spares_sys, holds_tf_store, Hst. Qed.
Lemma spares_tf_load off : spares P (kern_sys (S := S) (tf_load off)).
Proof using Hst. eapply spares_sys, holds_tf_load, Hst. Qed.
Hint Resolve spares_tf_store spares_tf_load : spares.
Lemma spares_usertrapret : spares (S := S) P (usertrapret trampoline uservec usertrap_addr).
Proof using Hst Hintr. unfold usertrapret. spares_go. Qed.
End some.
Hint Resolve spares_kerneltrap_end : spares.
Hint Resolve spares_tf_store spares_tf_load spares_usertrapret : spares.

Lemma crit_intr p s b : crit p [] s → crit p [] (set_cpu (put_intr b (ps_cpu s)) s).
Proof using.
  intros Hc. destruct (cr_cpu _ _ _ Hc) as (Hn&_&Hnd). pose proof (cr_held _ _ _ Hc) as Hh.
  assert (F : frame s [] (set_cpu (put_intr b (ps_cpu s)) s)) by (by split).
  eapply crit_same; try done. intros q. apply not_elem_of_nil.
Qed.

Context (p : Z) (Hdr : drivers_ok p).
Let Hst : stable (Some p) (crit p) pinv := crit_stable p.
Let Hintr := crit_intr p.
Abbreviation spares := (spares (S := S) (crit p)).

Lemma spares_devintr_crit irq : spares (devintr tickslock ticks_addr uartintr virtio_disk_intr irq).
Proof using Hdr. by eapply spares_devintr; [exact Hst|apply Hdr..]. Qed.
Hint Resolve spares_devintr_crit : spares.
Lemma spares_exit {A} n : spares (kern_sys (exit (A := A) proc_base n)).
Proof using. apply spares_sys. apply holds_exit. Qed.
Hint Resolve spares_exit : spares.
Lemma spares_usertrap_end w : spares (usertrap_end kend obj ftable_lock trampoline proc_base uservec usertrap_addr p w).
Proof using. unfold usertrap_end. spares_go. Qed.
Hint Resolve spares_usertrap_end : spares.

Abbreviation usertrap := (usertrap kend obj ftable_lock trampoline proc_base forkret_addr buf tickslock ticks_addr kernelvec uservec usertrap_addr stat_pad
  devsw_read devsw_write uartintr virtio_disk_intr).
Abbreviation usertrapret := (usertrapret (S := S) trampoline uservec usertrap_addr).

Lemma crit_at_intr n s b : crit_at p n [] s → crit_at p n [] (set_cpu (put_intr b (ps_cpu s)) s).
Proof using. intros [Hc Hn]. split; [by apply crit_intr|done]. Qed.

(** [m] under the invariant and a known next pid, then [k] under the
    invariant. *)
Lemma spares_then {A B} n (m : M mach A) (k : A → M mach B) t :
  TrapSafe.spares (crit_at p n) m → crit_at p n [] (mprocs t) →
  (∀ a t', crit_at p n [] (mprocs t') → wlp (k a) (λ _ t', crit p [] (mprocs t')) (λ t', pinv (mprocs t')) t') →
  wlp (m ≫= k) (λ _ t', crit p [] (mprocs t')) (λ t', pinv (mprocs t')) t.
Proof using. intros Hm H Hk. eapply wlp_bind, wlp_mono; [by apply Hm| |done]. cbv beta. auto. Qed.

Lemma usertrap_crit irq t :
  crit p [] (mprocs t) → ps_nextpid (mprocs t) + 1 < 2 ^ 31 →
  wlp (usertrap irq) (λ _ t', crit p [] (mprocs t')) (λ t', pinv (mprocs t')) t.
Proof using Hdr.
  intros Hc Hn. assert (H : crit_at p (ps_nextpid (mprocs t)) [] (mprocs t)) by done. set (n := ps_nextpid (mprocs t)) in *. clearbody n. clear Hc.
  pose proof (crit_at_stable p n) as Hst'. pose proof (crit_at_intr n) as Hintr'.
  assert (Hend : ∀ w t', crit p [] (mprocs t') → wlp (usertrap_end kend obj ftable_lock trampoline proc_base uservec usertrap_addr p w)
    (λ _ t', crit p [] (mprocs t')) (λ t', pinv (mprocs t')) t') by (intros w; apply spares_usertrap_end).
  assert (Hex : ∀ t', crit p [] (mprocs t') → wlp (kern_sys (exit proc_base (-1)))
    (λ _ : Z, λ t', crit p [] (mprocs t')) (λ t', pinv (mprocs t')) t') by apply spares_exit.
  unfold Trap.usertrap. apply (spares_then n); [by eauto with spares|done|]. clear t H. intros st t H. destruct (has_bits _ _); [done|].
  apply (spares_then n); [by eauto with spares|done|]. clear t H. intros _ t H.
  apply wlp_bind. eapply wlp_mono; [apply (kern_sys_wlp (pr curproc) (λ r s, r = p ∧ crit_at p n [] s) pinv)| |done].
  { apply pr_wlp. eapply wlp_mono; [by apply (curproc_st _ _ pinv Hst' [] _ H p (λ _, False))| |done]. cbv beta. by intros ? s' [-> ?] t' <-. }
  cbv beta. clear t H. intros ? t [-> H].
  apply (spares_then n); [by eauto with spares|done|]. clear t H. intros epc t H.
  apply (spares_then n); [by eauto with spares|done|]. clear t H. intros _ t H.
  apply (spares_then n); [by eauto with spares|done|]. clear t H. intros scause t H.
  destruct (scause =? 8).
  - apply (spares_then n); [by eauto with spares|done|]. clear t H. intros k t H. destruct (negb _); [apply Hex, H|].
    apply (spares_then n); [by eauto with spares|done|]. clear t H. intros epc' t H.
    apply (spares_then n); [by eauto with spares|done|]. clear t H. intros _ t H.
    apply (spares_then n); [by eauto with spares|done|]. clear t H. intros _ t [H En].
    eapply wlp_bind, wlp_mono; [apply (kern_sys_wlp _ (λ _, crit p []) pinv)| |done].
    { apply syscall_crit; [apply Hdr..|done|]. unfold mprocs in En. lia. }
    intros ? t' H'. by apply Hend.
  - destruct H as [H _]. revert t H. apply (spares_bind _ _ _ (spares_devintr_crit irq)). intros w. apply spares_bind; [|intros _; exact (Hend w)].
    destruct (w =? 0); eauto with spares.
Qed.

(** ** Entered by the scheduler *)
Section entered.
Context (t : mach) (Hi : pinv (mprocs t)) (Hp : c_proc (ps_cpu (mprocs t)) = Some p).
Context (Hh : ps_held (mprocs t) = [PROC_LOCK p]) (Hrun : p_state (ps_proc (mprocs t) p) = RUNNING).

Lemma entered_then {A B} (m : M pstate A) (k : A → M mach B) :
  wlp m (λ _, crit p []) pinv (mprocs t) → (∀ a, spares (k a)) →
  wlp (prm m ≫= k) (λ _ t', crit p [] (mprocs t')) (λ t', pinv (mprocs t')) t.
Proof using.
  clear. intros Hm Hk. eapply wlp_bind, wlp_mono; [apply (kern_sys_wlp (pr m) (λ _, crit p []) pinv)|intros a t'; apply Hk|done].
  apply pr_wlp. eapply wlp_mono; [exact Hm|..]; cbv beta; by intros; subst.
Qed.
Lemma usertrap_resume_crit :
  wlp (usertrap_resume trampoline uservec usertrap_addr p) (λ _ t', crit p [] (mprocs t')) (λ t', pinv (mprocs t')) t.
Proof using Hi Hp Hh Hrun. apply entered_then; [by apply yield_resume_crit|]. intros _. eauto with spares. Qed.
(** What follows a [sleep] in a system call. *)
Lemma sleep_resume_then {A B} c (m : M (sys S) A) (k : A → M mach B) :
  holds (crit p) pinv [OTHER_LOCK c] m (λ _, []) → (∀ a, spares (k a)) →
  wlp (kern_sys (pr (sleep_resume p (OTHER_LOCK c)) ;; m) ≫= k) (λ _ t', crit p [] (mprocs t')) (λ t', pinv (mprocs t')) t.
Proof using Hi Hp Hh Hrun.
  intros Hm Hk. eapply wlp_bind, wlp_mono; [apply (kern_sys_wlp _ (λ _, crit p []) pinv)|intros a t'; apply Hk|done].
  eapply wlp_bind, pr_wlp, wlp_mono; [by apply (sleep_resume_crit p (mprocs t) Hi Hp Hh Hrun (OTHER_LOCK c) (λ _, False))| |done].
  intros ? s H t' <-. by apply Hm.
Qed.
Lemma crit_first s b : crit p [] s → crit p [] (set_first b s).
Proof using.
  clear. intros [[Hok Hso] ? ? ? ?]. split; try done. split; [destruct Hok; by constructor|destruct Hso; by constructor].
Qed.
Lemma forkret_mach : wlp (forkret trampoline uservec usertrap_addr) (λ _ t', crit p [] (mprocs t')) (λ t', pinv (mprocs t')) t.
Proof using Hi Hp Hh Hrun.
  clear Hdr. unfold forkret. eapply wlp_bind, wlp_mono;
    [apply (kern_sys_wlp (pr curproc) (λ r s, r = p ∧ locks (mprocs t) [PROC_LOCK p] s) pinv)| |done].
  { apply pr_wlp, wlp_wp, (curproc_spec p); [apply Hi|done|]. change (sys_procs (mc_sys t)) with (mprocs t). rewrite Hh. by intros s L t' <-. }
  cbv beta. intros ? t1 [-> L1]. eapply wlp_bind, wlp_mono; [apply (kern_sys_wlp (pr (release (PROC_LOCK p))) (λ _, crit p []) pinv)| |done].
  { apply pr_wlp, wlp_wp, (release_head _ []); [apply L1..|]. intros s2 L2 t' <-. pose proof (locks_trans _ _ _ _ _ L1 L2) as [F Hpr Hn _].
    apply (entered_crit p (mprocs t)); rewrite ?Hpr; try done; [set_solver|by left]. }
  cbv beta. intros ? t2 H2. revert t2 H2. apply spares_bind; [eauto with spares|intros first]. apply spares_bind; [|intros ?; eauto with spares].
  destruct first; [|eauto with spares]. apply spares_bind; [|intros ?; eauto with spares].
  apply spares_sys, holds_pr. intros s H. apply wlp_modify. by apply crit_first.
Qed.
End entered.
End traps.

(** An interrupt in the scheduler. *)
Section idle.
Context {S : Type} `{!BufCache S}.
Variables (tickslock ticks_addr : Z) (uartintr virtio_disk_intr : M (sys S) unit).
Context (Hu : holds idle pinv [] uartintr (λ _, [])) (Hv : holds idle pinv [] virtio_disk_intr (λ _, [])).
Lemma spares_kerneltrap_idle irq : spares idle (kerneltrap (S := S) tickslock ticks_addr uartintr virtio_disk_intr irq).
Proof using Hu Hv.
  pose proof (idle_stable pinv) as Hst. pose proof idle_intr as Hintr. unfold kerneltrap.
  apply spares_bind; [eauto with spares|intros sepc]. apply spares_bind; [eauto with spares|intros st]. destruct (negb _); [done|].
  apply spares_bind; [eauto with spares|intros i]. destruct i; [done|].
  apply spares_bind; [by eapply spares_devintr|intros w]. destruct (w =? 0); [done|]. eapply spares_myproc; [done|].
  intros t H. eapply wlp_bind. unfold prm, kern_sys, pr, gets, zoom. unfold wlp at 1. rewrite andb_false_r. by apply spares_kerneltrap_end.
Qed.
End idle.
