(* ===== verification/Kernel.v ===== *)
(** * The kernel, step by step

    One hart of the kernel as a transition system: after boot, the scheduler
    and the processes take turns.  A process in user space enters the kernel by
    a trap and stays there until it returns, sleeps, yields or exits; a process
    that the scheduler enters again continues where it gave up the CPU.  A trap
    is one step: what other harts do meanwhile is the subject of [Spinlock] and
    [SleepWakeup]. *)
From S2P Require Import Prelude Kstring Kalloc Vm Block BufCache Log Fs UserVm Proc ProcProps ProcTable ProcFork ProcInv Crit ProcSteps FsKeeps.
From S2P Require Import File FileSafe Syscall Sysfile Exec Trap SysSafe TrapSafe.

Section kernel.
Context {S : Type} `{!BufCache S}.
Variables (kend obj ftable_lock trampoline proc_base forkret_addr buf tickslock ticks_addr initcode initcode_name : Z).
Variables (kernelvec uservec usertrap_addr : Z) (stat_pad : list Z).
Variables (devsw_read devsw_write : Z → option (Z → Z → M (sys S) Z)).
Variables (uartintr virtio_disk_intr : M (sys S) unit).
#[local] Instance files : FileOps (sys S) := sys_files kend obj ftable_lock.
Abbreviation sys := (sys S).
Abbreviation mach := (mach S).
Abbreviation usertrap := (usertrap kend obj ftable_lock trampoline proc_base forkret_addr buf tickslock ticks_addr kernelvec uservec usertrap_addr stat_pad
  devsw_read devsw_write uartintr virtio_disk_intr).
Abbreviation usertrap_end := (usertrap_end kend obj ftable_lock trampoline proc_base uservec usertrap_addr).

(** What is left of a system call that slept: the rest of [wait], of a pipe's
    transfer, of [sys_sleep]; or, when it slept for the log or for an inode,
    some part [m] of the file system calls. *)
Inductive resumes (p : Z) : M sys Z → Prop :=
  | re_wait addr : resumes p (pr (wait_resume kend proc_base p addr))
  | re_pipewrite pi addr n i : resumes p (pipewrite_resume obj p pi addr n i)
  | re_piperead pi addr n : resumes p (piperead_resume obj p pi addr n)
  | re_sleep n ticks0 : resumes p (sys_sleep_resume tickslock ticks_addr p n ticks0)
  | re_files c (m : M sys Z) : holds (crit p) pinv [] m (λ _, []) →
      resumes p (pr (sleep_resume p (OTHER_LOCK c)) ;; pr (release (OTHER_LOCK c)) ;; m).

(** Where the hart is; [t_procs] of ProcSteps, for this state. *)
Definition scheduling (t : mach) : Prop := c_proc (ps_cpu (mprocs t)) = None.
Definition in_user (p : Z) (t : mach) : Prop := c_proc (ps_cpu (mprocs t)) = Some p ∧ ps_held (mprocs t) = [].
Definition entered_at (p : Z) (t : mach) : Prop :=
  c_proc (ps_cpu (mprocs t)) = Some p ∧ ps_held (mprocs t) = [PROC_LOCK p] ∧ p_state (ps_proc (mprocs t) p) = RUNNING.
Definition left_at (p : Z) (t : mach) : Prop :=
  c_proc (ps_cpu (mprocs t)) = Some p ∧ ps_held (mprocs t) = [PROC_LOCK p] ∧ p_state (ps_proc (mprocs t) p) ≠ RUNNING.

Inductive kstep (t : mach) : mach → Prop :=
  | k_visit q t' : scheduling t → 0 ≤ q < NPROC → ran (prm (visit q)) t t' → kstep t t'
  | k_interrupt irq t' : scheduling t → ran (kerneltrap tickslock ticks_addr uartintr virtio_disk_intr irq) t t' → kstep t t'
  | k_leave p t' : left_at p t → ran (prm (sched_leave p)) t t' → kstep t t'
  | k_first p t' : entered_at p t → ran (forkret trampoline uservec usertrap_addr) t t' → kstep t t'
  | k_preempted p t' : entered_at p t → ran (usertrap_resume trampoline uservec usertrap_addr p) t t' → kstep t t'
  | k_woken p m t' : entered_at p t → resumes p m →
      ran (r ← kern_sys m; kern_sys (tf_store TF_a0 r) ;; usertrap_end p 0) t t' → kstep t t'
  | k_trap p irq t' : in_user p t → ps_nextpid (mprocs t) + 1 < 2 ^ 31 → ran (usertrap irq) t t' → kstep t t'.

(** The kernel's states: main() has set up the table and the first process. *)
Inductive kreach (t0 : sys) : mach → Prop :=
  | k_boot c s : at_boot t0 → boot kend trampoline proc_base forkret_addr initcode initcode_name t0 = Ok tt s → kreach t0 (Mach c s)
  | k_step t t' : kreach t0 t → kstep t t' → kreach t0 t'.

Context (Hdr : ∀ p, drivers_ok devsw_read devsw_write uartintr virtio_disk_intr p).
Context (Hu : holds idle pinv [] uartintr (λ _, [])) (Hv : holds idle pinv [] virtio_disk_intr (λ _, [])).

Lemma ran_crit {A} p (m : M mach A) t t' :
  wlp m (λ _ t', crit p [] (mprocs t')) (λ t', pinv (mprocs t')) t → ran m t t' → pinv (mprocs t').
Proof using.
  intros Hm. apply (ran_wlp _ (λ t', pinv (mprocs t'))). eapply wlp_mono; [exact Hm| |done]. intros a s'. apply crit_pinv.
Qed.
Lemma ran_prm {A} (m : M pstate A) (Q : pstate → Prop) (t t' : mach) : wlp m (λ _, Q) Q (mprocs t) → ran (prm m) t t' → Q (mprocs t').
Proof using.
  intros Hm. apply (ran_wlp _ (λ t', Q (mprocs t'))). apply (kern_sys_wlp (pr m) (λ _, Q) Q). apply pr_wlp.
  eapply wlp_mono; [exact Hm|..]; cbv beta; by intros; subst.
Qed.

Lemma resumed_crit p m t : entered_at p t → pinv (mprocs t) → resumes p m →
  wlp (r ← kern_sys m; kern_sys (tf_store TF_a0 r) ;; usertrap_end p 0) (λ _ t', crit p [] (mprocs t')) (λ t', pinv (mprocs t')) t.
Proof using.
  intros (Hp&Hh&Hrun) Hi Hm. pose proof (crit_stable p) as Hst.
  assert (Hk : ∀ r, spares (crit p) (kern_sys (tf_store TF_a0 r) ;; usertrap_end p 0)).
  { intros r. apply spares_bind; [by eapply spares_tf_store|intros ?; apply spares_usertrap_end]. }
  destruct Hm as [addr|pi addr n i|pi addr n|n t0|c m Hm].
  - apply (entered_then p t (wait_resume kend proc_base p addr)); [by apply wait_resume_crit|done].
  - apply sleep_resume_then; [done..| |done]. by apply (holds_pipewrite_from obj p).
  - apply sleep_resume_then; [done..| |done]. by apply (holds_piperead_turn obj p).
  - apply sleep_resume_then; [done..| |done]. apply (holds_sys_sleep_turn tickslock ticks_addr p).
  - apply sleep_resume_then; [done..| |done]. eapply holds_bind; [by eapply holds_release|done].
Qed.

Lemma kstep_pinv t t' : pinv (mprocs t) → kstep t t' → pinv (mprocs t').
Proof using Hdr Hu Hv.
  intros Hi Hs. destruct Hs as [q t' Hp Hq Hm|irq t' Hp Hm|p t' (Hp&Hh&Hst) Hm|p t' (Hp&Hh&Hst) Hm|p t' (Hp&Hh&Hst) Hm|p m t' He Hr Hm|p irq t' [Hp Hh] Hn Hm].
  - eapply (ran_prm _ pinv); [|exact Hm]. by apply wlp_wp, visit_pinv.
  - revert Hm. apply (ran_wlp _ (λ t', pinv (mprocs t'))).
    eapply wlp_mono; [apply (spares_kerneltrap_idle tickslock ticks_addr uartintr virtio_disk_intr Hu Hv irq t); by apply pinv_idle| |done].
    intros a s'. apply idle_pinv.
  - eapply (ran_prm _ pinv); [|exact Hm]. by apply wlp_wp, leave_pinv.
  - eapply (ran_crit p); [|exact Hm]. by apply forkret_mach.
  - eapply (ran_crit p); [|exact Hm]. by apply usertrap_resume_crit.
  - eapply (ran_crit p); [|exact Hm]. by apply resumed_crit.
  - eapply (ran_crit p); [|exact Hm]. apply usertrap_crit; [apply Hdr|by apply pinv_crit|done].
Qed.

End kernel.

(** ** kill(0)

    A free slot of the process table has pid 0, and [kill] does not look at the
    state of the slot it finds: [kill(0)] succeeds and marks a free slot.
    [allocproc] never clears the mark. *)

Lemma list_find_ext_in {A} (P Q : A → Prop) `{!∀ x, Decision (P x)} `{!∀ x, Decision (Q x)} l :
  (∀ x, x ∈ l → P x ↔ Q x) → list_find P l = list_find Q l.
Proof.
  induction l as [|x l IH]; intros Hx; [done|]. simpl. destruct (decide (P x)) as [HP|HP]; destruct (decide (Q x)) as [HQ|HQ];
    try done; [destruct HQ; apply Hx; set_solver|destruct HP; apply Hx; set_solver|].
  rewrite IH; [done|]. set_solver.
Qed.

(** Free slots are the ones with pid 0. *)
Lemma pid_zero s q : ptable_ok s → 0 ≤ q < NPROC → p_pid (ps_proc s q) = 0 ↔ p_state (ps_proc s q) = UNUSED.
Proof.
  intros Hok Hq. split; intros E.
  - destruct (decide (p_state (ps_proc s q) = UNUSED)) as [|Hn]; [done|]. pose proof (pt_pid s Hok q Hq Hn). lia.
  - pose proof (pt_unused s Hok q Hq E) as Hv. unfold vacant in Hv. rewrite Hv. done.
Qed.

Lemma kill_zero_spec s w (Q : Z → pstate → Prop) :
  cpu_ok s → no_proc_lock s → ptable_ok s → first_unused procs s w →
  (∀ s', mapped s (kill_table s (Some w)) s' → Q 0 s') → wp (kill 0) Q s.
Proof.
  intros Hc Hn Hok [i Hw] HQ. apply kill_spec; [done..|]. rewrite (list_find_ext_in _ (λ q, p_state (ps_proc s q) = UNUSED)).
  - rewrite Hw. apply HQ.
  - intros q Hq%elem_of_procs. by apply pid_zero.
Qed.

Section kill_zero.
Context {T : Type} `{!FileOps T} `{!FileOpsOk T}.
Variables (kend trampoline proc_base forkret_addr : Z).

(** C40: [kill(0)] is no error: it returns 0, changes no process, and sets
    [killed] in the free slot that [fork] takes next, so the next child of any
    process is born killed. *)
Theorem kill_zero_dooms_next_child p w t :
  pinv (t_procs t) → in_process p t → first_unused procs (t_procs t) w →
  wlp (r ← prc (kill 0); pid ← fork kend trampoline proc_base forkret_addr; mret (r, pid))
    (λ '(r, pid) t', r = 0 ∧ (pid = -1 ∨
      let child := ps_proc (t_procs t') w in p_pid child = pid ∧ p_state child = RUNNABLE ∧ p_parent child = Some p ∧ p_killed child = 1))
    (λ _, False) t.
Proof using FileOpsOk0.
  intros Hi [Hp Hh] Hw. pose proof Hi as [Hok Hso]. apply prc_bind, (kill_zero_spec _ w); [apply Hso|intros q; rewrite Hh; apply not_elem_of_nil|done..|].
  intros s1 [F1 Hn1 Hk1 Hp1] t1 <-. rewrite Hh in F1.
  assert (Hst : ∀ q, p_state (ps_proc (t_procs t1) q) = UNUSED ↔ p_state (ps_proc (t_procs t) q) = UNUSED).
  { intros q. rewrite Hp1. unfold kill_table, kill_upd. case_decide; [|done]. case_decide as E; simpl; [by rewrite E|done]. }
  assert (Hkw : p_killed (ps_proc (t_procs t1) w) = 1).
  { rewrite Hp1. unfold kill_table, kill_upd. rewrite decide_True by done. by case_decide. }
  apply wlp_bind. apply (fork_wlp _ _ _ _ p _ _ t1 (t_procs t1)); [done|apply F1|apply F1|by rewrite (fr_cur _ _ _ F1)|..].
  - intros t2 _. wlp_step. by split; [|left].
  - intros np t2 (_&_&_&_&x&[Hu _]&Est&Epid&Epar&[i Hf]&Ek). wlp_step. split; [done|]. right.
    assert (np = w) as ->.
    { destruct Hw as [j Hw]. rewrite (list_find_ext_in _ (λ q, p_state (ps_proc (t_procs t) q) = UNUSED)) in Hf by (intros; apply Hst). congruence. }
    cbv zeta. rewrite Hu, Ek. done.
Qed.
End kill_zero.

(** ** A kernel that boots

    A machine with a blank disk and sixteen free pages, whose devices never
    answer; the theorems on the kernel's states are instantiated on it. *)

From S2P Require Import Sleeplock Bio BioProps BioSpec LogDemo.

Module KernelDemo.

#[local] Instance cache : BufCache bstate := Bio_cache 7.

(** The free pages, linked from 65536 on. *)
Definition pages : list Z := (λ i, 65536 + 4096 * i) <$> seqZ 0 16.
Definition link (m : mem) (l : list Z) : mem := foldr (λ a m, store64 m a (if a =? 126976 then 0 else a + 4096)) m l.
Definition mem1 : mem := put_list (put_list (link (λ _, 0) pages) 3000 initcode_bytes) 4000 [105; 110; 105; 116; 99; 111; 100; 101; 0].
Definition procs1 : pstate :=
  PState (λ _, blank) 1 [] None (Cpu None 0 false false) (KState mem1 65536 false) true.
Definition sys1 : sys bstate :=
  Sys (λ _, File FD_NONE 0 false false 0 0 0 0) (λ _, Pipe [] 0 0 false false)
    (FState false ∅ (Superblock 0 0 0 0 0 0 0 0) (LogDemo.log0 (BState false ∅ BioDemo.disk0)) procs1) 0.

Abbreviation booted := (@boot _ (Kernel.files 4096 0 0) 4096 8192 2000 0 3000 4000 sys1).
Definition is_ok {S A} (o : outcome S A) : bool := match o with Ok _ _ => true | _ => false end.
Lemma booted_ok : is_ok booted = true.
Proof. vm_compute. reflexivity. Qed.

Definition csr0 : csrs := Csrs 0 0 0 0 0 0 0.
Definition no_dev : Z → option (Z → Z → M (sys bstate) Z) := λ _, None.
Definition no_intr : M (sys bstate) unit := mret tt.
Abbreviation reach := (kreach 4096 0 0 8192 2000 0 500 2 1 3000 4000 64 128 192 [] no_dev no_dev no_intr no_intr sys1).

Lemma no_drivers p : drivers_ok no_dev no_dev no_intr no_intr p.
Proof. split; [done|done|by apply holds_ret|by apply holds_ret]. Qed.
Lemma at_boot1 : @at_boot _ (Kernel.files 4096 0 0) sys1.
Proof. exact (conj (λ _, eq_refl) (conj eq_refl (conj eq_refl (conj eq_refl eq_refl)))). Qed.

(** The state after boot, and after the scheduler's first visit. *)
Definition final {S A} (s0 : S) (o : outcome S A) : S := match o with Ok _ s => s | _ => s0 end.
Definition booted_to : sys bstate := final sys1 booted.
Lemma booted_eq : booted = Ok tt booted_to.
Proof.
  pose proof booted_ok as H. unfold booted_to. revert H. generalize booted. intros [[] ?| | |]; [reflexivity|discriminate..].
Qed.
Abbreviation entered_init := (prm (visit 0) (Mach csr0 booted_to)).
Definition runs_init (o : outcome (mach bstate) unit) : bool :=
  match o with Ok _ t => bool_decide (p_state (ps_proc (mprocs t) 0) = RUNNING) | _ => false end.
Lemma entered_init_ok : runs_init entered_init = true.
Proof. vm_compute. reflexivity. Qed.

Lemma reach_boot : reach (Mach csr0 booted_to).
Proof. exact (k_boot 4096 0 0 8192 2000 0 500 2 1 3000 4000 64 128 192 [] no_dev no_dev no_intr no_intr sys1 csr0 booted_to at_boot1 booted_eq). Qed.
Lemma booted_scheduling : scheduling (Mach csr0 booted_to).
Proof. vm_compute. reflexivity. Qed.
Lemma reach_init : ∃ t, reach t ∧ p_state (ps_proc (mprocs t) 0) = RUNNING.
Proof.
  assert (Hs : ∃ t, entered_init = Ok tt t ∧ p_state (ps_proc (mprocs t) 0) = RUNNING).
  { generalize entered_init_ok. generalize entered_init. intros [[] t| | |] H; try discriminate. exists t. by apply bool_decide_eq_true_1 in H. }
  generalize reach_boot, booted_scheduling. destruct Hs as (t&E&Hrun). revert E. generalize (Mach csr0 booted_to). intros t1 E Hr Hs.
  exists t. split; [|exact Hrun]. eapply k_step; [exact Hr|].
  refine (k_visit 4096 0 0 8192 2000 0 500 2 1 64 128 192 [] no_dev no_dev no_intr no_intr t1 0 t Hs _ (or_introl (ex_intro _ tt E))). split; [done|reflexivity].
Qed.


(** ** init calls kill(0), then fork *)

Definition init3 : proc := set_cwd (Some 0) (set_trapframe 57344 (set_pagetable 61440 (set_state RUNNING (set_pid 1 blank)))).
Definition procs3 : pstate :=
  PState (<[0 := init3]> (λ _, blank)) 2 [] (Some 0) (Cpu (Some 0) 0 false true) (KState mem1 65536 false) false.
Definition sys3 : sys bstate := set_sys_procs procs3 sys1.
Lemma procs3_pinv : pinv procs3.
Proof.
  apply (only_pinv procs3 0 init3); try done.
  - split; [done|]. split; [done|apply NoDup_nil_2].
  - by right.
  - intros q Hq. simpl. rewrite fn_lookup_insert_ne by done. done.
Qed.
#[local] Instance files3 : FileOps (sys bstate) := sys_files 4096 0 0.
#[local] Instance files3_ok : FileOpsOk (sys bstate) := sys_files_ok 4096 0 0.
Lemma sys3_pinv : pinv (t_procs sys3).
Proof. exact procs3_pinv. Qed.
Lemma sys3_running : in_process 0 sys3.
Proof. by split. Qed.
Abbreviation kill_fork := (r ← prc (kill 0); pid ← fork 4096 8192 2000 0; mret (r, pid)).
Definition result {S A} (o : outcome S A) : option A := match o with Ok a _ => Some a | _ => None end.
Lemma kill_fork_runs : result (kill_fork sys3) = Some (0, 2).
Proof. vm_compute. reflexivity. Qed.
Lemma first_free : first_unused procs (t_procs sys3) 1.
Proof. exists 1%nat. vm_compute. reflexivity. Qed.

(** The child is in slot 1, runnable, and killed. *)
Lemma kill_zero_dooms_next_child_witness :
  ∃ t', kill_fork sys3 = Ok (0, 2) t' ∧ p_pid (ps_proc (sys_procs t') 1) = 2 ∧ p_killed (ps_proc (sys_procs t') 1) = 1.
Proof.
  assert (Hs : ∃ t', kill_fork sys3 = Ok (0, 2) t').
  { generalize kill_fork_runs. generalize (kill_fork sys3). intros [a t'| | |] H; try discriminate. injection H as ->. by exists t'. }
  destruct Hs as [t' E]. exists t'. split; [exact E|].
  pose proof (kill_zero_dooms_next_child (T := sys bstate) 4096 8192 2000 0 0 1 sys3 sys3_pinv sys3_running first_free) as H.
  pose proof (wlp_Ok _ _ _ _ _ _ H E) as H2. clear H E. destruct H2 as [_ [E|(E1&_&_&E2)]]; [discriminate|]. split; [exact E1|exact E2].
Defined.
End KernelDemo.
