(* ===== verification/User.v ===== *)
(** * User programs

    A user program runs on its memory and its file descriptors.  What it
    reads from a descriptor arrives in the pieces the kernel chooses: each
    [read] takes bytes from the first piece; an empty piece is a [read] that
    answers 0, [None] one that fails.  A program returns, or ends with
    [exit]. *)
From S2P Require Import Prelude Kstring.

Definition NOFILE : Z := 16.

Definition stream := list (option (list Z)).

(** A string literal's bytes. *)
Fixpoint lit (s : string) : list Z :=
  match s with
  | EmptyString => []
  | String a s => Z.of_N (Ascii.N_of_ascii a) :: lit s
  end.

(** [struct stat]. *)
Record ustat := UStat { ust_dev : Z; ust_ino : Z; ust_type : Z; ust_nlink : Z; ust_size : Z }.

(** The calls that change files or processes. *)
Inductive call := CKill (pid : Z) | CLink (old new : list Z) | CMkdir (path : list Z) | CUnlink (path : list Z).

Record world := World {
  w_stat : list Z → option ustat;      (* what fstat finds of the file with a path *)
  w_path : Z → list Z;                 (* the path a descriptor was opened with *)
  w_pad : list Z;                      (* the padding bytes of the kernel's struct stat *)
  w_calls : list call;                 (* the calls so far *)
  w_answer : list call → Z             (* the answer to the last of a list of calls *)
}.

Record ustate := UState {
  us_mem : mem;
  us_in : Z → option stream;           (* the open descriptors and what is left to read *)
  us_out : list (Z * Z);               (* the bytes written so far, with their descriptors *)
  us_wr : Z → bool;                    (* does it accept writes? *)
  us_file : list Z → option stream;    (* what open finds *)
  us_world : world
}.

Definition set_umem (m : mem) (s : ustate) : ustate := UState m (us_in s) (us_out s) (us_wr s) (us_file s) (us_world s).
Definition set_uin (fd : Z) (x : option stream) (s : ustate) : ustate :=
  UState (us_mem s) (<[fd := x]> (us_in s)) (us_out s) (us_wr s) (us_file s) (us_world s).
Definition add_uout (fd : Z) (l : list Z) (s : ustate) : ustate :=
  UState (us_mem s) (us_in s) (us_out s ++ map (pair fd) l) (us_wr s) (us_file s) (us_world s).

Definition set_uworld (w : world) (s : ustate) : ustate := UState (us_mem s) (us_in s) (us_out s) (us_wr s) (us_file s) w.
Definition set_wpath (fd : Z) (path : list Z) (w : world) : world :=
  World (w_stat w) (<[fd := path]> (w_path w)) (w_pad w) (w_calls w) (w_answer w).
Definition add_wcall (c : call) (w : world) : world :=
  World (w_stat w) (w_path w) (w_pad w) (w_calls w ++ [c]) (w_answer w).
(** Nothing to [fstat], and every call answers 0. *)
Definition no_world : world := World (λ _, None) (λ _, []) [0; 0; 0; 0] [] (λ _, 0).

(** ** Programs *)

Inductive ures (A : Type) : Type :=
  | URet (a : A) (s : ustate)
  | UExit (status : Z) (s : ustate)
  | UNoFuel.                 (* out of fuel, or undefined *)
Arguments URet {A}. Arguments UExit {A}. Arguments UNoFuel {A}.

Definition U (A : Type) : Type := ustate → ures A.

#[global] Instance U_ret : MRet U := λ A a s, URet a s.
#[global] Instance U_bind : MBind U := λ A B k m s,
  match m s with
  | URet a s' => k a s'
  | UExit v s' => UExit v s'
  | UNoFuel => UNoFuel
  end.

Definition ugets {A} (f : ustate → A) : U A := λ s, URet (f s) s.
Definition umodify (f : ustate → ustate) : U unit := λ s, URet tt (f s).
Definition unofuel {A} : U A := λ _, UNoFuel.
Definition uload (a : Z) : U Z := ugets (λ s, us_mem s a).
Definition ustore (a v : Z) : U unit := umodify (λ s, set_umem (store8 (us_mem s) a v) s).

(** ** System calls *)

Definition exit {A} (status : Z) : U A := λ s, UExit status s.

(** What a [read] of [n] bytes takes from a stream: its result, the bytes,
    and the rest. *)
Definition take_chunk (n : Z) (st : stream) : Z * list Z * stream :=
  match st with
  | [] => (0, [], [])
  | None :: st => (-1, [], st)
  | Some c :: st =>
      let l := take (Z.to_nat n) c in
      (Z.of_nat (length l), l,
       match drop (Z.to_nat n) c with [] => st | c' => Some c' :: st end)
  end.

Fixpoint write_bytes (m : mem) (a : Z) (l : list Z) : mem :=
  match l with
  | [] => m
  | c :: l => write_bytes (store8 m a c) (a + 1) l
  end.

Definition read (fd a n : Z) : U Z := λ s,
  match us_in s fd with
  | None => URet (-1) s
  | Some st =>
      let '(r, l, st') := take_chunk n st in
      URet r (set_uin fd (Some st') (set_umem (write_bytes (us_mem s) a l) s))
  end.

(** [write] of the bytes [l]. *)
Definition write (fd : Z) (l : list Z) : U Z := λ s,
  if us_wr s fd then URet (Z.of_nat (length l)) (add_uout fd l s) else URet (-1) s.

Fixpoint lowest_free (f : Z → option stream) (fd : Z) (k : nat) : option Z :=
  match k with
  | O => None
  | S k => match f fd with None => Some fd | Some _ => lowest_free f (fd + 1) k end
  end.

Definition open (path : list Z) : U Z := λ s,
  match us_file s path, lowest_free (us_in s) 0 (Z.to_nat NOFILE) with
  | Some st, Some fd => URet fd (set_uworld (set_wpath fd path (us_world s)) (set_uin fd (Some st) s))
  | _, _ => URet (-1) s
  end.

Definition close (fd : Z) : U Z := λ s,
  match us_in s fd with Some _ => URet 0 (set_uin fd None s) | None => URet (-1) s end.

(** The fields of [x] in a [struct stat] at [a]. *)
Definition put_stat (pad : list Z) (x : ustat) (a : Z) (m : mem) : mem :=
  let m := store_le m a 4 (ust_dev x) in
  let m := store_le m (a + 4) 4 (ust_ino x) in
  let m := store_le m (a + 8) 2 (ust_type x) in
  let m := store_le m (a + 10) 2 (ust_nlink x) in
  let m := write_bytes m (a + 12) (take 4 pad) in
  store_le m (a + 16) 8 (ust_size x).

Definition fstat (fd a : Z) : U Z := λ s,
  match us_in s fd, w_stat (us_world s) (w_path (us_world s) fd) with
  | Some _, Some x => URet 0 (set_umem (put_stat (w_pad (us_world s)) x a (us_mem s)) s)
  | _, _ => URet (-1) s
  end.

Definition ucall (c : call) : U Z := λ s,
  let w := add_wcall c (us_world s) in URet (w_answer w (w_calls w)) (set_uworld w s).
Definition kill (pid : Z) : U Z := ucall (CKill pid).
Definition link (old new : list Z) : U Z := ucall (CLink old new).
Definition mkdir (path : list Z) : U Z := ucall (CMkdir path).
Definition unlink (path : list Z) : U Z := ucall (CUnlink path).

(** ** Rules *)

(** [wpu m Q E s]: the program returns with [Q], or exits with [E]. *)
Definition wpu {A} (m : U A) (Q : A → ustate → Prop) (E : Z → ustate → Prop) (s : ustate) : Prop :=
  match m s with URet a s' => Q a s' | UExit v s' => E v s' | UNoFuel => False end.

Lemma wpu_ret {A} (a : A) Q E s : Q a s → wpu (mret a) Q E s.
Proof. done. Qed.
Lemma wpu_bind {A B} (m : U A) (k : A → U B) Q E s : wpu m (λ a, wpu (k a) Q E) E s → wpu (m ≫= k) Q E s.
Proof. unfold wpu, mbind, U_bind. by destruct (m s). Qed.
Lemma wpu_mono {A} (m : U A) (Q Q' : A → ustate → Prop) (E E' : Z → ustate → Prop) s :
  wpu m Q E s → (∀ a s', Q a s' → Q' a s') → (∀ v s', E v s' → E' v s') → wpu m Q' E' s.
Proof. unfold wpu. destruct (m s); auto. Qed.
Lemma wpu_gets {A} (f : ustate → A) Q E s : Q (f s) s → wpu (ugets f) Q E s.
Proof. done. Qed.
Lemma wpu_modify f (Q : unit → ustate → Prop) E s : Q tt (f s) → wpu (umodify f) Q E s.
Proof. done. Qed.
Lemma wpu_exit {A} v (Q : A → ustate → Prop) E s : E v s → wpu (exit v) Q E s.
Proof. done. Qed.
Lemma wpu_write fd l Q E s : us_wr s fd = true → Q (Z.of_nat (length l)) (add_uout fd l s) → wpu (write fd l) Q E s.
Proof. intros Hw HQ. unfold wpu, write. by rewrite Hw. Qed.
Lemma wpu_read fd a n st Q E s : us_in s fd = Some st →
  (let '(r, l, st') := take_chunk n st in Q r (set_uin fd (Some st') (set_umem (write_bytes (us_mem s) a l) s))) →
  wpu (read fd a n) Q E s.
Proof. intros Hs HQ. unfold wpu, read. rewrite Hs. by destruct (take_chunk n st) as [[??]?]. Qed.

Ltac wpu_step :=
  lazymatch goal with
  | |- wpu (mbind _ _) _ _ _ => apply wpu_bind
  | |- wpu (mret _) _ _ _ => apply wpu_ret
  | |- wpu (ugets _) _ _ _ => apply wpu_gets
  | |- wpu (umodify _) _ _ _ => apply wpu_modify
  | |- wpu (exit _) _ _ _ => apply wpu_exit
  end; cbv beta.
Ltac wpu_steps := repeat wpu_step.

(** The bytes of a stream up to its end, and its pieces well-formed. *)
Fixpoint stream_bytes (st : stream) : list Z :=
  match st with
  | Some (c :: l) :: st => (c :: l) ++ stream_bytes st
  | _ => []
  end.
(** The stream ends without an error. *)
Fixpoint stream_ok (st : stream) : bool :=
  match st with
  | Some (_ :: _) :: st => stream_ok st
  | None :: _ => false
  | _ => true
  end.

Lemma write_bytes_at m a l x :
  write_bytes m a l x = if decide (a ≤ x < a + length l) then u8 (l !!! Z.to_nat (x - a)) else m x.
Proof.
  revert m a. induction l as [|c l IH]; intros m a; simpl.
  - rewrite decide_False by lia. done.
  - rewrite IH. unfold store8. destruct (Z.eqb_spec x a) as [->|].
    + rewrite decide_False, decide_True by lia. by rewrite Z.sub_diag.
    + repeat case_decide; try lia; try done. replace (Z.to_nat (x - a)) with (S (Z.to_nat (x - (a + 1)))) by lia. done.
Qed.

(** A read of at least one byte: the end of the input, or its next bytes. *)
Lemma take_chunk_cases n st : 0 < n → stream_ok st = true →
  match take_chunk n st with
  | (r, l, st') =>
      r = Z.of_nat (length l) ∧ r ≤ n ∧ (l = [] → stream_bytes st = []) ∧
      (l ≠ [] → stream_bytes st = l ++ stream_bytes st' ∧ stream_ok st' = true)
  end.
Proof.
  intros Hn Hok. destruct st as [|[[|c l]|] st]; simpl in *; try done.
  - split_and!; [done|lia|done|done].
  - rewrite take_nil, drop_nil. simpl. split_and!; try done; lia.
  - assert (∃ k, Z.to_nat n = S k) as [k Hk] by (exists (Z.to_nat (n - 1)); lia).
    rewrite Hk. simpl. split_and!; [done|rewrite length_take; lia|done|intros _].
    assert (Htd := take_drop k l).
    destruct (drop k l) as [|c' l'] eqn:E; split; try done.
    + rewrite app_nil_r in Htd. by rewrite Htd.
    + simpl. rewrite <- Htd at 1. rewrite <- app_assoc. done.
Qed.
