(* ===== verification/Ulib.v ===== *)
(** * user/ulib.c: the C library of user programs

    The loops of the source over the program's memory; a search for a
    terminator carries fuel. *)
From S2P Require Import Prelude Kstring User.

Fixpoint ustrcpy (m : mem) (s t : Z) (fuel : nat) : option mem :=
  match fuel with
  | O => None
  | S fuel => let m := store8 m s (m t) in if m s =? 0 then Some m else ustrcpy m (s + 1) (t + 1) fuel
  end.

Fixpoint ustrcmp (m : mem) (p q : Z) (fuel : nat) : option Z :=
  match fuel with
  | O => None
  | S fuel =>
      if negb (m p =? 0) && (m p =? m q) then ustrcmp m (p + 1) (q + 1) fuel else Some (m p - m q)
  end.

Fixpoint ustrlen_from (m : mem) (s n : Z) (fuel : nat) : option Z :=
  match fuel with
  | O => None
  | S fuel => if m (s + n) =? 0 then Some n else ustrlen_from m s (n + 1) fuel
  end.
Definition ustrlen (m : mem) (s : Z) (fuel : nat) : option Z := ustrlen_from m s 0 fuel.

Fixpoint umemset_from (m : mem) (cdst c i : Z) (k : nat) : mem :=
  match k with
  | O => m
  | S k => umemset_from (store8 m (cdst + i) c) cdst c (i + 1) k
  end.
Definition umemset (m : mem) (dst c n : Z) : mem := umemset_from m dst c 0 (Z.to_nat n).

(** The null pointer is 0. *)
Fixpoint strchr (m : mem) (s c : Z) (fuel : nat) : option Z :=
  match fuel with
  | O => None
  | S fuel => if m s =? 0 then Some 0 else if m s =? c then Some s else strchr m (s + 1) c fuel
  end.

(** The loop of [gets]; [cvar] is the address of the local [c]. *)
Fixpoint gets_loop (cvar buf max i : Z) (fuel : nat) : U Z :=
  match fuel with
  | O => unofuel
  | S fuel =>
      if i + 1 <? max then
        cc ← read 0 cvar 1;
        if cc <? 1 then mret i
        else
          c ← uload cvar;
          ustore (buf + i) c ;;
          if (c =? 10) || (c =? 13) then mret (i + 1) else gets_loop cvar buf max (i + 1) fuel
      else mret i
  end.
Definition gets (cvar buf max : Z) : U Z :=
  i ← gets_loop cvar buf max 0 (Z.to_nat max + 1);
  ustore (buf + i) 0 ;;
  mret buf.

Definition stat (n : list Z) (st : Z) : U Z :=
  fd ← open n;
  if fd <? 0 then mret (-1)
  else r ← fstat fd st; close fd ;; mret r.

(** [n*10 + *s++ - '0'] on [int]. *)
Fixpoint atoi_loop (m : mem) (s n : Z) (fuel : nat) : option Z :=
  match fuel with
  | O => None
  | S fuel =>
      if (48 <=? m s) && (m s <=? 57) then atoi_loop m (s + 1) (s32 (n * 10 + m s - 48)) fuel else Some n
  end.
(** The version that knows negative numbers ([SNU]). *)
Definition atoi (m : mem) (s : Z) (fuel : nat) : option Z :=
  if m s =? 45 then n ← atoi_loop m (s + 1) 0 fuel; Some (s32 (-1 * n))
  else n ← atoi_loop m s 0 fuel; Some (s32 (1 * n)).

Definition umemmove (m : mem) (dst src n : Z) : mem :=
  if src >? dst then copy_up m dst src (Z.to_nat n)
  else copy_down m (dst + n) (src + n) (Z.to_nat n).

Fixpoint umemcmp (m : mem) (p1 p2 : Z) (n : nat) : Z :=
  match n with
  | O => 0
  | S n => if negb (m p1 =? m p2) then m p1 - m p2 else umemcmp m (p1 + 1) (p2 + 1) n
  end.

Definition umemcpy (m : mem) (dst src n : Z) : mem := umemmove m dst src n.

(** ** What they compute *)

Lemma umemmove_at m d s n x : bytes_ok m → 0 ≤ n →
  umemmove m d s n x = if bool_decide (d ≤ x < d + n) then m (s + (x - d)) else m x.
Proof.
  intros Hm Hn. unfold umemmove. destruct (Z.gtb_spec s d);
    [rewrite copy_up_at by (auto; lia)|rewrite copy_down_at by (auto; lia)];
    repeat case_bool_decide; try lia; f_equal; lia.
Qed.

Lemma umemmove_bytes_ok m d s n : bytes_ok m → bytes_ok (umemmove m d s n).
Proof. intros. unfold umemmove. case_match; auto using copy_up_bytes_ok, copy_down_bytes_ok. Qed.

(** [strchr] on a string: the first occurrence. *)
Lemma strchr_found m s c l1 l2 fuel : c ≠ 0 → c ∉ l1 → cstr m s (l1 ++ c :: l2) → (length l1 < fuel)%nat →
  strchr m s c fuel = Some (s + length l1).
Proof.
  intros Hc. revert s fuel. induction l1 as [|a l1 IH]; intros s [|fuel] Hl Hs Hf; simpl in *; try lia.
  - destruct Hs as (Ha&_&_). rewrite Ha. zbool. f_equal. lia.
  - destruct Hs as (Ha&Hz&Hs). apply not_elem_of_cons in Hl as [Hac Hl]. rewrite Ha. zbool.
    rewrite IH by (done || lia). f_equal. lia.
Qed.
Lemma strchr_absent m s c l fuel : c ∉ l → cstr m s l → (length l < fuel)%nat → strchr m s c fuel = Some 0.
Proof.
  revert s fuel. induction l as [|a l IH]; intros s [|fuel] Hl Hs Hf; simpl in *; try lia.
  - by rewrite Hs.
  - destruct Hs as (Ha&Hz&Hs). apply not_elem_of_cons in Hl as [Hac Hl]. rewrite Ha. zbool.
    apply IH; [done|done|lia].
Qed.
