(* ===== verification/Uprintf.v ===== *)
(** * user/printf.c: formatted output of user programs

    The arguments after the format are a list: integers (64-bit words) and
    strings, [None] for the null pointer.  An argument that is missing or of
    the wrong kind is undefined. *)
From S2P Require Import Prelude Kstring User Ulib.

Inductive va := VInt (z : Z) | VStr (s : option (list Z)).

(** [0123456789ABCDEF] *)
Definition digits : list Z := [48; 49; 50; 51; 52; 53; 54; 55; 56; 57; 65; 66; 67; 68; 69; 70].

Definition putc (fd c : Z) : U unit := write fd [u8 c] ;; mret tt.

Fixpoint puts (fd : Z) (l : list Z) : U unit :=
  match l with [] => mret tt | c :: l => putc fd c ;; puts fd l end.

(** The loop that fills [buf], from the last digit to the first; [x] and
    [base] are unsigned. *)
Fixpoint fill_digits (x base : Z) (fuel : nat) : option (list Z) :=
  match fuel with
  | O => None
  | S fuel =>
      let c := digits !!! Z.to_nat (x `mod` base) in
      if x / base =? 0 then Some [c] else l ← fill_digits (x / base) base fuel; Some (c :: l)
  end.

(** A value of 32 bits has 32 digits at most. *)
Definition printint (fd xx base : Z) (sgn : bool) : U unit :=
  let neg := sgn && (xx <? 0) in
  let x := if neg then u32 (- xx) else u32 xx in
  match fill_digits x base 32 with
  | Some buf => puts fd (rev (buf ++ if neg then [45] else []))
  | None => unofuel
  end.

(** The loop of [printptr]. *)
Fixpoint printptr_loop (fd x : Z) (k : nat) : U unit :=
  match k with
  | O => mret tt
  | S k => putc fd (digits !!! Z.to_nat (Z.shiftr x 60)) ;; printptr_loop fd (u64 (Z.shiftl x 4)) k
  end.
Definition printptr (fd x : Z) : U unit := putc fd 48 ;; putc fd 120 ;; printptr_loop fd x 16.

Definition va_int (ap : list va) : option (Z * list va) :=
  match ap with VInt z :: ap => Some (z, ap) | _ => None end.
Definition va_str (ap : list va) : option (option (list Z) * list va) :=
  match ap with VStr s :: ap => Some (s, ap) | _ => None end.

(** [(null)] *)
Definition null_string : list Z := [40; 110; 117; 108; 108; 41].

(** The directive [%c]: what is left of the arguments. *)
Definition directive (fd c : Z) (ap : list va) : U (list va) :=
  if c =? 100 (* d *) then
    match va_int ap with Some (z, ap) => printint fd (s32 z) 10 true ;; mret ap | None => unofuel end
  else if c =? 108 (* l *) then
    match va_int ap with Some (z, ap) => printint fd (s32 (u64 z)) 10 false ;; mret ap | None => unofuel end
  else if c =? 120 (* x *) then
    match va_int ap with Some (z, ap) => printint fd (s32 z) 16 false ;; mret ap | None => unofuel end
  else if c =? 112 (* p *) then
    match va_int ap with Some (z, ap) => printptr fd (u64 z) ;; mret ap | None => unofuel end
  else if c =? 115 (* s *) then
    match va_str ap with Some (s, ap) => puts fd (default null_string s) ;; mret ap | None => unofuel end
  else if c =? 99 (* c *) then
    match va_int ap with Some (z, ap) => putc fd (u32 z) ;; mret ap | None => unofuel end
  else if c =? 37 then putc fd c ;; mret ap
  else putc fd 37 ;; putc fd c ;; mret ap.

(** [state] is whether a [%] came before. *)
Fixpoint vprintf_loop (fd : Z) (fmt : list Z) (state : bool) (ap : list va) : U unit :=
  match fmt with
  | [] => mret tt
  | c :: fmt =>
      if state then ap ← directive fd c ap; vprintf_loop fd fmt false ap
      else if c =? 37 then vprintf_loop fd fmt true ap
      else putc fd c ;; vprintf_loop fd fmt false ap
  end.
Definition vprintf (fd : Z) (fmt : list Z) (ap : list va) : U unit := vprintf_loop fd fmt false ap.
Definition fprintf (fd : Z) (fmt : list Z) (ap : list va) : U unit := vprintf fd fmt ap.
Definition printf (fmt : list Z) (ap : list va) : U unit := vprintf 1 fmt ap.

(** ** What is printed *)

(** The output of a program that only writes to [fd]. *)
Definition prints (fd : Z) (m : U unit) (l : list Z) : Prop :=
  ∀ s, us_wr s fd = true → m s = URet tt (add_uout fd l s).

Lemma add_uout_app fd l l' s : add_uout fd l' (add_uout fd l s) = add_uout fd (l ++ l') s.
Proof. unfold add_uout. simpl. by rewrite map_app, app_assoc. Qed.
Lemma add_uout_nil fd s : add_uout fd [] s = s.
Proof. destruct s. unfold add_uout. simpl. by rewrite app_nil_r. Qed.

Lemma prints_nil fd : prints fd (mret tt) [].
Proof. intros s _. by rewrite add_uout_nil. Qed.
Lemma prints_app fd m m' l l' : prints fd m l → prints fd m' l' → prints fd (m ;; m') (l ++ l').
Proof.
  intros Hm Hm' s Hs. unfold mbind, U_bind. rewrite Hm by done. rewrite Hm' by done. by rewrite add_uout_app.
Qed.
Lemma prints_putc fd c : prints fd (putc fd c) [u8 c].
Proof. intros s Hs. unfold putc, write, mbind, U_bind. by rewrite Hs. Qed.
Lemma prints_puts fd l : Forall (λ c, 0 ≤ c < 256) l → prints fd (puts fd l) l.
Proof.
  induction 1 as [|c l Hc _ IH]; [apply prints_nil|]. apply (prints_app fd _ _ [c]); [|done].
  rewrite <- (wrap_small 8 c) at 2 by lia. apply prints_putc.
Qed.

(** The value of a digit, and of a numeral from its last digit on. *)
Definition digit_val (c : Z) : Z := if c <=? 57 then c - 48 else c - 55.
Fixpoint value_rev (base : Z) (l : list Z) : Z :=
  match l with [] => 0 | c :: l => digit_val c + base * value_rev base l end.

Lemma digit_ok d : 0 ≤ d < 16 → digit_val (digits !!! Z.to_nat d) = d ∧ 48 ≤ digits !!! Z.to_nat d < 71 ∧
  (d < 10 → digits !!! Z.to_nat d = 48 + d).
Proof.
  intros Hd. assert (Forall (λ d, digit_val (digits !!! d) = Z.of_nat d ∧ 48 ≤ digits !!! d < 71 ∧
    (Z.of_nat d < 10 → digits !!! d = 48 + Z.of_nat d)) (seq 0 16)) as H.
  { repeat constructor; cbn; lia. }
  rewrite Forall_forall in H. specialize (H (Z.to_nat d)).
  rewrite Z2Nat.id in H by lia. apply H. apply elem_of_seq. lia.
Qed.

(** The digits printed for [x] are a numeral of [x], without leading zeros,
    and there are [n] of them at most when [x] is below [base^n]. *)
Lemma fill_digits_spec x base (n fuel : nat) : 2 ≤ base ≤ 16 → 0 ≤ x < base ^ n → (0 < n ≤ fuel)%nat →
  ∃ l, fill_digits x base fuel = Some l ∧ value_rev base l = x ∧ (0 < length l ≤ n)%nat ∧
    Forall (λ c, ∃ d, 0 ≤ d < base ∧ c = digits !!! Z.to_nat d) l ∧
    (1 < length l → 0 < x / base ^ (length l - 1)).
Proof.
  intros Hb. revert x fuel. induction n as [|n IH]; intros x [|fuel] Hx Hn; try lia.
  rewrite Nat2Z.inj_succ, Z.pow_succ_r in Hx by lia. simpl.
  assert (Hd := Z.mod_pos_bound x base). destruct (digit_ok (x `mod` base)) as (Hv&_); [lia|].
  destruct (Z.eqb_spec (x / base) 0) as [E|E].
  - exists [digits !!! Z.to_nat (x `mod` base)]. simpl. split_and!; [done| |lia..| |lia].
    + rewrite Hv. pose proof (Z.div_mod x base). lia.
    + constructor; [|done]. exists (x `mod` base). split; [lia|done].
  - assert (0 < x / base) by (assert (0 ≤ x / base) by (apply Z.div_pos; lia); lia).
    assert (x / base < base ^ n) by (apply Z.div_lt_upper_bound; lia).
    assert (0 < n)%nat. { destruct n; [|lia]. simpl in *. lia. }
    destruct (IH (x / base) fuel) as (l&->&Hl&Hlen&Hds&Hlead); [lia|lia|]. simpl.
    exists (digits !!! Z.to_nat (x `mod` base) :: l). simpl. split_and!; [done| |lia..| |].
    + rewrite Hv, Hl. pose proof (Z.div_mod x base). lia.
    + constructor; [|done]. exists (x `mod` base). split; [lia|done].
    + intros _. replace (S (length l) - 1) with (Z.of_nat (length l)) by lia.
      destruct (decide (length l = 1%nat)) as [->|]; [by rewrite Z.pow_1_r|].
      replace (Z.of_nat (length l)) with (1 + (Z.of_nat (length l) - 1)) by lia.
      rewrite Z.pow_add_r, Z.pow_1_r, <- Z.div_div by (try apply Z.pow_pos_nonneg; lia). apply Hlead. lia.
Qed.

#[global] Arguments fill_digits : simpl never.

(** What [printint] prints. *)
Definition numeral (base x : Z) : list Z := rev (default [] (fill_digits x base 32)).
Definition show_int (z : Z) : list Z := if z <? 0 then 45 :: numeral 10 (- z) else numeral 10 z.

Lemma numeral_spec base x : base = 10 ∨ base = 16 → 0 ≤ x < 2 ^ 32 →
  fill_digits x base 32 = Some (rev (numeral base x)) ∧ value_rev base (rev (numeral base x)) = x ∧
  (0 < length (numeral base x) ≤ 10)%nat ∧
  Forall (λ c, ∃ d, 0 ≤ d < base ∧ c = digits !!! Z.to_nat d) (numeral base x) ∧
  (1 < length (numeral base x) → 0 < x / base ^ (length (numeral base x) - 1)).
Proof.
  intros Hb Hx. destruct (fill_digits_spec x base 10 32) as (l&E&Hv&Hn&Hd&Hl); [lia| |lia|].
  { destruct Hb as [-> | ->]; simpl; lia. }
  unfold numeral. rewrite E. simpl. rewrite rev_involutive, length_rev. split_and!; try done; try lia.
  by apply Forall_rev.
Qed.

Lemma digits_bytes base l : base ≤ 16 →
  Forall (λ c, ∃ d, 0 ≤ d < base ∧ c = digits !!! Z.to_nat d) l → Forall (λ c, 0 ≤ c < 256) l.
Proof.
  intros Hb Hl. eapply Forall_impl; [exact Hl|]. intros c (d&Hd&->). destruct (digit_ok d); lia.
Qed.

Lemma prints_printint_d fd z : - 2 ^ 31 ≤ z < 2 ^ 31 → prints fd (printint fd z 10 true) (show_int z).
Proof.
  intros Hz. unfold printint, show_int. cbn [andb]. destruct (Z.ltb_spec z 0).
  - rewrite wrap_small by lia. destruct (numeral_spec 10 (- z)) as (->&_&_&Hd&_); [lia..|].
    rewrite rev_app_distr, rev_involutive. apply (prints_puts fd (45 :: _)). constructor; [lia|].
    by apply (digits_bytes 10).
  - rewrite wrap_small by lia. destruct (numeral_spec 10 z) as (->&_&_&Hd&_); [lia..|].
    rewrite app_nil_r, rev_involutive. apply prints_puts. by apply (digits_bytes 10).
Qed.

(** The format, directive by directive. *)
Lemma prints_end fd ap : prints fd (vprintf_loop fd [] false ap) [].
Proof. apply prints_nil. Qed.
Lemma prints_char fd c fmt ap l : c ≠ 37 → 0 ≤ c < 256 → prints fd (vprintf_loop fd fmt false ap) l →
  prints fd (vprintf_loop fd (c :: fmt) false ap) (c :: l).
Proof.
  intros Hc Hb Hl. simpl. zbool. apply (prints_app fd _ _ [c]); [|done].
  rewrite <- (wrap_small 8 c) at 2 by lia. apply prints_putc.
Qed.
Lemma prints_then fd m (k : list va → U unit) ap l l' : prints fd m l → prints fd (k ap) l' →
  prints fd ((m ;; mret ap) ≫= k) (l ++ l').
Proof.
  intros Hm Hk s Hs. unfold mbind, U_bind. rewrite Hm by done. simpl. rewrite Hk by done. by rewrite add_uout_app.
Qed.
Lemma prints_d fd z fmt ap l : - 2 ^ 31 ≤ z < 2 ^ 31 → prints fd (vprintf_loop fd fmt false ap) l →
  prints fd (vprintf_loop fd (37 :: 100 :: fmt) false (VInt z :: ap)) (show_int z ++ l).
Proof.
  intros Hz Hl. cbn [vprintf_loop]. change (directive fd 100 (VInt z :: ap)) with (printint fd (s32 z) 10 true ;; mret ap).
  rewrite (swrap_small 32 z) by lia. apply prints_then; [by apply prints_printint_d|done].
Qed.
Lemma prints_s fd t fmt ap l : Forall (λ c, 0 ≤ c < 256) t → prints fd (vprintf_loop fd fmt false ap) l →
  prints fd (vprintf_loop fd (37 :: 115 :: fmt) false (VStr (Some t) :: ap)) (t ++ l).
Proof.
  intros Ht Hl. cbn [vprintf_loop]. change (directive fd 115 (VStr (Some t) :: ap)) with (puts fd t ;; mret ap).
  apply prints_then; [by apply prints_puts|done].
Qed.

(** ** Reading a number back *)

Definition value_from (n : Z) (l : list Z) : Z := fold_left (λ n c, n * 10 + c - 48) l n.

Lemma value_from_ge n l : 0 ≤ n → Forall (λ c, 48 ≤ c ≤ 57) l → n ≤ value_from n l.
Proof.
  intros Hn Hl. revert n Hn. induction Hl as [|c l Hc _ IH]; intros n Hn; simpl; [lia|].
  specialize (IH (n * 10 + c - 48)). lia.
Qed.

Lemma atoi_loop_digits m s n l fuel : 0 ≤ n → Forall (λ c, 48 ≤ c ≤ 57) l → value_from n l < 2 ^ 31 →
  cstr m s l → (length l < fuel)%nat → atoi_loop m s n fuel = Some (value_from n l).
Proof.
  intros Hn Hl. revert n s fuel Hn. induction Hl as [|c l Hc Hl IH]; intros n s [|fuel] Hn Hv Hs Hf; simpl in *; try lia.
  - by rewrite Hs.
  - destruct Hs as (->&_&Hs). zbool. simpl. change (value_from (n * 10 + c - 48) l < 2 ^ 31) in Hv.
    assert (n * 10 + c - 48 ≤ value_from (n * 10 + c - 48) l) by (apply value_from_ge; [lia|done]).
    rewrite swrap_small by (simpl; lia). apply IH; [lia|done|done|lia].
Qed.

Lemma value_from_rev l : Forall (λ c, 48 ≤ c ≤ 57) l → value_from 0 (rev l) = value_rev 10 l.
Proof.
  induction 1 as [|c l Hc _ IH]; simpl; [done|]. unfold value_from in *. rewrite fold_left_app. simpl.
  rewrite IH. unfold digit_val. zbool. lia.
Qed.

Lemma numeral_decimal x : 0 ≤ x < 2 ^ 32 → Forall (λ c, 48 ≤ c ≤ 57) (numeral 10 x) ∧ value_from 0 (numeral 10 x) = x.
Proof.
  intros Hx. destruct (numeral_spec 10 x) as (_&Hv&_&Hd&_); [lia..|].
  assert (Forall (λ c, 48 ≤ c ≤ 57) (numeral 10 x)) as Hf.
  { eapply Forall_impl; [exact Hd|]. intros c (d&?&->). destruct (digit_ok d) as (_&_&E); [lia|]. rewrite E; lia. }
  split; [done|]. rewrite <- Hv at 2. rewrite <- value_from_rev by (by apply Forall_rev).
  by rewrite rev_involutive.
Qed.

Lemma atoi_show_int m a z fuel : - 2 ^ 31 < z < 2 ^ 31 → cstr m a (show_int z) → (length (show_int z) < fuel)%nat →
  atoi m a fuel = Some z.
Proof.
  intros Hz. unfold show_int, atoi. destruct (Z.ltb_spec z 0) as [Hn|Hn]; intros Ha Hf.
  - destruct (numeral_decimal (- z)) as [Hd Hv]; [lia|]. destruct Ha as (->&_&Ha). simpl in *.
    rewrite (atoi_loop_digits _ _ _ (numeral 10 (- z))) by (done || lia). simpl.
    rewrite Hv, swrap_small by (simpl; lia). f_equal. lia.
  - destruct (numeral_decimal z) as [Hd Hv]; [lia|].
    destruct (numeral_spec 10 z) as (_&_&Hl&_&_); [lia..|].
    destruct (numeral 10 z) as [|c l] eqn:E; [simpl in Hl; lia|].
    assert (m a = c) as Hc by apply Ha. inversion_clear Hd as [|?? Hc2 Hd2]. rewrite Hc. zbool.
    rewrite (atoi_loop_digits _ _ _ (c :: l)); [|lia|by constructor|lia|done|done]. unfold mbind, option_bind.
    rewrite Hv, swrap_small by (simpl; lia). f_equal. lia.
Qed.

(** [%d] *)
Lemma length_show_int z : - 2 ^ 31 ≤ z < 2 ^ 31 → (length (show_int z) ≤ 11)%nat.
Proof.
  intros Hz. unfold show_int. destruct (Z.ltb_spec z 0).
  - destruct (numeral_spec 10 (- z)) as (_&_&?&_); [lia..|]. simpl. lia.
  - destruct (numeral_spec 10 z) as (_&_&?&_); [lia..|]. lia.
Qed.

Definition PERCENT_D : list Z := [37; 100].

(** What [printf] prints for an integer, [atoi] reads back.  For every
    [int] but the smallest, [printf] of [%d] prints at most eleven characters
    (its buffer has 16), and the terminated string of them has that integer as
    its [atoi], without overflow on the way. *)
Theorem printf_atoi_roundtrip (z : Z) (s : ustate) :
  - 2 ^ 31 < z < 2 ^ 31 → us_wr s 1 = true →
  ∃ l, printf PERCENT_D [VInt z] s = URet tt (add_uout 1 l s) ∧ (length l ≤ 11)%nat ∧
    ∀ m a fuel, cstr m a l → (length l < fuel)%nat → atoi m a fuel = Some z.
Proof.
  intros Hz Hs. exists (show_int z). split_and!.
  - unfold printf, vprintf, PERCENT_D. simpl. unfold directive. simpl.
    rewrite (swrap_small 32 z) by lia. unfold mbind, U_bind. by rewrite (prints_printint_d 1 z) by (done || lia).
  - apply length_show_int. lia.
  - intros m a fuel. by apply atoi_show_int.
Qed.

Definition ustart : ustate := UState (λ _, 0) (λ _, None) [] (λ _, true) (λ _, None) no_world.

Lemma printf_atoi_roundtrip_witness :
  (- 2 ^ 31 < -407 < 2 ^ 31 ∧ us_wr ustart 1 = true) ∧
  printf PERCENT_D [VInt (-407)] ustart = URet tt (add_uout 1 [45; 52; 48; 55] ustart) ∧
  ∃ l, printf PERCENT_D [VInt (-407)] ustart = URet tt (add_uout 1 l ustart) ∧ (length l ≤ 11)%nat ∧
    ∀ m a fuel, cstr m a l → (length l < fuel)%nat → atoi m a fuel = Some (-407).
Proof. split_and!; [lia|lia|done|done|]. apply (printf_atoi_roundtrip (-407) ustart); [lia|done]. Defined.

(** [%l] takes a 64-bit argument and prints its low 32 bits. *)
Lemma percent_l_truncates : printf [37; 108] [VInt (2 ^ 32 + 7)] ustart = URet tt (add_uout 1 [55] ustart).
Proof. done. Qed.
