(* ===== verification/Regex.v ===== *)
(** * user/grep.c: the matcher

    The matcher walks the pattern and the text as terminated strings; here
    they are the lists of the bytes before the terminator, and a step of a
    pointer is the tail of a list.  The reference is the language that a
    pattern denotes: letters, [.], [*] as iteration, and the anchors. *)
From S2P Require Import Prelude.

(** ['^'], ['*'], ['$'] and ['.'] *)
Abbreviation HAT := 94.
Abbreviation STAR := 42.
Abbreviation DOLLAR := 36.
Abbreviation DOT := 46.

(** [here] is [matchhere(re, .)]. *)
Fixpoint matchstar (here : list Z → bool) (c : Z) (text : list Z) : bool :=
  if here text then true
  else
    match text with
    | [] => false
    | t :: text => if (t =? c) || (c =? DOT) then matchstar here c text else false
    end.

(** [hd 0] reads the terminator at the end of a string. *)
Fixpoint matchhere (re : list Z) (text : list Z) : bool :=
  match re with
  | [] => true
  | c :: re1 =>
      let rest :=
        if (c =? DOLLAR) && (hd 0 re1 =? 0) then hd 0 text =? 0
        else
          match text with
          | t :: text => if (c =? DOT) || (c =? t) then matchhere re1 text else false
          | [] => false
          end in
      match re1 with
      | b :: re2 => if b =? STAR then matchstar (matchhere re2) c text else rest
      | [] => rest
      end
  end.

(** The loop of [match]. *)
Fixpoint match_from (re : list Z) (text : list Z) : bool :=
  if matchhere re text then true
  else match text with [] => false | _ :: text => match_from re text end.

Definition matches (re text : list Z) : bool :=
  if hd 0 re =? HAT then matchhere (tail re) text else match_from re text.

(** ** The language of a pattern *)

Inductive regex :=
  | Letter (c : Z)
  | Anything
  | Iterate (r : regex)
  | Follow (r r' : regex)
  | Nothing.

Inductive lang : regex → list Z → Prop :=
  | lang_letter c : lang (Letter c) [c]
  | lang_any c : lang Anything [c]
  | lang_stop r : lang (Iterate r) []
  | lang_again r w w' : lang r w → lang (Iterate r) w' → lang (Iterate r) (w ++ w')
  | lang_follow r r' w w' : lang r w → lang r' w' → lang (Follow r r') (w ++ w')
  | lang_nothing : lang Nothing [].

Definition atom (c : Z) : regex := if c =? DOT then Anything else Letter c.

(** The expression a pattern stands for, and whether it ends in [$]. *)
Fixpoint denote (re : list Z) : regex * bool :=
  match re with
  | [] => (Nothing, false)
  | c :: re1 =>
      match re1 with
      | [] => if c =? DOLLAR then (Nothing, true) else (Follow (atom c) Nothing, false)
      | b :: re2 =>
          if b =? STAR then (Follow (Iterate (atom c)) (denote re2).1, (denote re2).2)
          else (Follow (atom c) (denote re1).1, (denote re1).2)
      end
  end.

(** A text contains a match: a part of it is in the language, at the start of
    the text when the pattern begins with [^], at its end when it ends in [$]. *)
Definition contains (re text : list Z) : Prop :=
  let anchored := hd 0 re =? HAT in
  let '(r, at_end) := denote (if anchored then tail re else re) in
  ∃ before w after, text = before ++ w ++ after ∧ lang r w ∧
    (anchored = true → before = []) ∧ (at_end = true → after = []).

(** ** The matcher decides the language *)

(** A match at the beginning of the text. *)
Definition begins (re text : list Z) : Prop :=
  ∃ w after, text = w ++ after ∧ lang (denote re).1 w ∧ ((denote re).2 = true → after = []).

Lemma lang_atom c w : lang (atom c) w ↔ ∃ t, w = [t] ∧ (c = DOT ∨ t = c).
Proof.
  unfold atom. destruct (Z.eqb_spec c DOT) as [->|Hc]; split.
  - inversion 1; subst. eauto.
  - intros (t&->&_). constructor.
  - inversion 1; subst. eauto.
  - intros (t&->&[ ? | -> ]); [done|constructor].
Qed.

Lemma lang_iterate c w : lang (Iterate (atom c)) w ↔ Forall (λ t, c = DOT ∨ t = c) w.
Proof.
  split.
  - remember (Iterate (atom c)) as r eqn:Hr. induction 1; simplify_eq; [constructor|].
    apply lang_atom in H as (t&->&Ht). simpl. constructor; auto.
  - induction 1 as [|t w Ht _ IH]; [constructor|]. apply (lang_again _ [t]); [|done]. apply lang_atom. eauto.
Qed.

Lemma lang_follow_inv r r' w : lang (Follow r r') w → ∃ w1 w2, w = w1 ++ w2 ∧ lang r w1 ∧ lang r' w2.
Proof. inversion 1; subst. eauto. Qed.

Lemma matchstar_iff here c text :
  matchstar here c text = true ↔ ∃ w after, text = w ++ after ∧ Forall (λ t, c = DOT ∨ t = c) w ∧ here after = true.
Proof.
  induction text as [|t text IH]; simpl; destruct (here _) eqn:Hh.
  - split; [|done]. intros _. exists [], []. done.
  - split; [done|]. intros (w&after&E&_&Ha). symmetry in E. apply app_eq_nil in E as [-> ->]. congruence.
  - split; [|done]. intros _. exists [], (t :: text). done.
  - destruct ((t =? c) || (c =? DOT)) eqn:Ht.
    + rewrite IH. split.
      * intros (w&after&->&Hw&Ha). exists (t :: w), after. split_and!; [done| |done]. constructor; [lia|done].
      * intros ([|t' w]&after&E&Hw&Ha); simpl in E; simplify_eq; [congruence|]. inversion_clear Hw. eauto.
    + split; [done|]. intros ([|t' w]&after&E&Hw&Ha); simpl in E; simplify_eq; [congruence|]. inversion_clear Hw. lia.
Qed.

Lemma begins_nil text : begins [] text.
Proof. exists [], text. split_and!; [done|constructor|done]. Qed.

Lemma begins_star c re text :
  begins (c :: STAR :: re) text ↔ ∃ w after, text = w ++ after ∧ Forall (λ t, c = DOT ∨ t = c) w ∧ begins re after.
Proof.
  unfold begins. simpl. split.
  - intros (w&after&->&Hw&He). apply lang_follow_inv in Hw as (w1&w2&->&H1&H2). apply lang_iterate in H1.
    exists w1, (w2 ++ after). split_and!; [by rewrite app_assoc|done|]. eauto.
  - intros (w&after&->&Hw&w2&after2&->&H2&He). exists (w ++ w2), after2.
    split_and!; [by rewrite app_assoc| |done]. constructor; [by apply lang_iterate|done].
Qed.

Lemma begins_dollar text : begins [DOLLAR] text ↔ text = [].
Proof.
  unfold begins. simpl. split.
  - intros (w&after&->&Hw&He). inversion Hw. by rewrite He.
  - intros ->. exists [], []. split_and!; [done|constructor|done].
Qed.

Lemma begins_atom c re text : hd 0 re ≠ STAR → (re = [] → c ≠ DOLLAR) →
  begins (c :: re) text ↔ ∃ t after, text = t :: after ∧ (c = DOT ∨ t = c) ∧ begins re after.
Proof.
  intros Hs Hd.
  assert (denote (c :: re) = (Follow (atom c) (denote re).1, (denote re).2)) as E.
  { destruct re as [|b re2]; simpl in *; [specialize (Hd eq_refl); by zbool|].
    by zbool. }
  unfold begins. rewrite E. simpl. split.
  - intros (w&after&->&Hw&He). apply lang_follow_inv in Hw as (w1&w2&->&H1&H2).
    apply lang_atom in H1 as (t&->&Ht). simpl. exists t, (w2 ++ after). eauto 8.
  - intros (t&rest&->&Ht&w&after&->&Hw&He). exists ([t] ++ w), after. split_and!; [done| |done].
    constructor; [apply lang_atom; eauto|done].
Qed.

(** [matchhere] looks for a match at the beginning. *)
Lemma matchhere_iff re text : 0 ∉ text → 0 ∉ re → matchhere re text = true ↔ begins re text.
Proof.
  intros Ht. remember (length re) as n eqn:Hn. assert (length re ≤ n)%nat as Hl by lia. clear Hn.
  revert re text Ht Hl. induction n as [|n IH]; intros [|c re] text Ht Hl Hr; simpl in Hl; try lia.
  1, 2: split; [intros _; apply begins_nil|done].
  apply not_elem_of_cons in Hr as [Hc Hr].
  destruct (decide (hd 0 re = STAR)) as [Hs|Hs].
  - destruct re as [|b re]; simpl in Hs; [done|subst b]. apply not_elem_of_cons in Hr as [_ Hr].
    change (matchhere (c :: STAR :: re) text) with (matchstar (matchhere re) c text).
    rewrite matchstar_iff, begins_star. do 2 (apply exist_proper; intros ?).
    split; intros (->&Hw&Hx); (split_and!; [done..|]); apply IH; simpl in *; try done; try lia; set_solver.
  - assert (matchhere (c :: re) text =
      if (c =? DOLLAR) && (hd 0 re =? 0) then hd 0 text =? 0
      else match text with t :: text => if (c =? DOT) || (c =? t) then matchhere re text else false | [] => false end) as ->.
    { simpl. destruct re as [|b re]; [done|]. simpl in Hs. by zbool. }
    destruct (decide (c = DOLLAR ∧ re = [])) as [[-> ->]|Hd].
    + rewrite begins_dollar. simpl. destruct text as [|t text]; [done|]. simpl. split; [|done]. set_solver by lia.
    + rewrite begins_atom by (done || naive_solver).
      replace ((c =? DOLLAR) && (hd 0 re =? 0)) with false.
      2: { destruct re as [|b re]; simpl in *; [|set_solver by lia]. destruct (Z.eqb_spec c DOLLAR); naive_solver. }
      destruct text as [|t text]; [naive_solver|]. apply not_elem_of_cons in Ht as [_ Ht].
      destruct ((c =? DOT) || (c =? t)) eqn:E.
      * rewrite IH by (done || lia). split; [intros; exists t, text; split_and!; [done|lia|done]|].
        intros (?&?&?&_&?). by simplify_eq.
      * split; [done|]. intros (?&?&?&?&?). simplify_eq. lia.
Qed.

Lemma match_from_iff re text : 0 ∉ text → 0 ∉ re →
  match_from re text = true ↔ ∃ pre post, text = pre ++ post ∧ begins re post.
Proof.
  intros Ht Hr. induction text as [|t text IH]; simpl; destruct (matchhere re _) eqn:Hh.
  - apply matchhere_iff in Hh; [|done..]. split; [intros _; by exists [], []|done].
  - split; [done|]. intros (pre&post&E&Hb). symmetry in E. apply app_eq_nil in E as [-> ->].
    apply matchhere_iff in Hb; [congruence|done..].
  - apply matchhere_iff in Hh; [|done..]. split; [intros _; by exists [], (t :: text)|done].
  - rewrite IH by set_solver. split.
    + intros (pre&post&->&Hb). by exists (t :: pre), post.
    + intros ([|t' pre]&post&E&Hb); simpl in E; simplify_eq; [|eauto].
      apply matchhere_iff in Hb; [congruence|done..].
Qed.

(** C29: the matcher of grep agrees with the meaning of regular expressions.
    For every pattern and every text, [match] answers 1 exactly when the text
    has a part in the language that the pattern denotes, where [c*] is the
    iteration of [c], [.] is any character, and [^] and [$] tie the part to
    the beginning and to the end of the text. *)
Theorem match_decides_language (re text : list Z) :
  0 ∉ re → 0 ∉ text → matches re text = true ↔ contains re text.
Proof.
  intros Hr Ht. unfold matches, contains. destruct (Z.eqb_spec (hd 0 re) HAT) as [E|E].
  - destruct re as [|? re]; simpl in *; [done|]. rewrite matchhere_iff by set_solver.
    unfold begins. destruct (denote re) as [r e]; simpl. split.
    + intros (w&after&->&Hw&He). exists [], w, after. done.
    + intros (pre&w&after&->&Hw&Hp&He). rewrite Hp by done. by exists w, after.
  - rewrite match_from_iff by done. unfold begins. destruct (denote re) as [r e]; simpl. split.
    + intros (pre&?&->&w&after&->&Hw&He). exists pre, w, after. done.
    + intros (pre&w&after&->&Hw&_&He). exists pre, (w ++ after). split; [done|]. by exists w, after.
Qed.

(** The pattern [^a.*b$]. *)
Lemma match_decides_language_witness :
  (0 ∉ [94; 97; 46; 42; 98; 36] ∧ 0 ∉ [97; 99; 98]) ∧ contains [94; 97; 46; 42; 98; 36] [97; 99; 98].
Proof.
  assert (0 ∉ [94; 97; 46; 42; 98; 36] ∧ 0 ∉ [97; 99; 98]) as [H1 H2] by (split; set_solver by lia).
  split; [done|]. by apply (match_decides_language _ _ H1 H2).
Defined.
