(* ===== verification/Grep.v ===== *)
(** * user/grep.c: the search

    [buf] is the address of the program's buffer.  The file arrives in pieces
    that need not end with a line: an unfinished line moves to the front of
    the buffer and the next piece follows it. *)
From S2P Require Import Prelude Kstring User Ulib Uprintf Regex.

Section grep.
Variable buf : Z.
Definition sizeof_buf : Z := 1024.

(** The line from [p] up to the newline at [q]. *)
Definition grep_line (pattern : list Z) (p q : Z) : U unit :=
  ustore q 0 ;;
  m ← ugets us_mem;
  if matches pattern (strn m p (Z.to_nat sizeof_buf)) then
    ustore q 10 ;;
    m ← ugets us_mem;
    write 1 (read_bytes m p (Z.to_nat (q + 1 - p))) ;;
    mret tt
  else mret tt.

(** The loop over the lines in the buffer, from [p]; answers the last [p]. *)
Fixpoint grep_lines (pattern : list Z) (p : Z) (fuel : nat) : U Z :=
  match fuel with
  | O => unofuel
  | S fuel =>
      m ← ugets us_mem;
      match strchr m p 10 (Z.to_nat sizeof_buf) with
      | None => unofuel
      | Some q => if q =? 0 then mret p else grep_line pattern p q ;; grep_lines pattern (q + 1) fuel
      end
  end.

Fixpoint grep_loop (pattern : list Z) (fd m : Z) (fuel : nat) : U unit :=
  match fuel with
  | O => unofuel
  | S fuel =>
      n ← read fd (buf + m) (sizeof_buf - m - 1);
      if n >? 0 then
        let m := m + n in
        ustore (buf + m) 0 ;;
        p ← grep_lines pattern buf (Z.to_nat sizeof_buf);
        m ← (if m >? 0 then
               umodify (λ s, set_umem (umemmove (us_mem s) buf p (m - (p - buf))) s) ;;
               mret (m - (p - buf))
             else mret m);
        grep_loop pattern fd m fuel
      else mret tt
  end.

(** Each round of the loop takes a byte or a piece from the file. *)
Definition stream_size (st : stream) : nat := sum_list_with (λ c, S (length (default [] c))) st.
Definition grep (pattern : list Z) (fd : Z) : U unit :=
  k ← ugets (λ s, stream_size (default [] (us_in s fd)));
  grep_loop pattern fd 0 (k + 1).

Fixpoint grep_files (pattern : list Z) (argv : list (list Z)) : U unit :=
  match argv with
  | [] => mret tt
  | file :: argv =>
      fd ← open file;
      if fd <? 0 then printf (lit "grep: cannot open %s" ++ [10]) [VStr (Some file)] ;; exit 1
      else grep pattern fd ;; close fd ;; grep_files pattern argv
  end.

Definition grep_main (argv : list (list Z)) : U unit :=
  match argv with
  | [] | [_] => fprintf 2 (lit "usage: grep pattern [file ...]" ++ [10]) [] ;; exit 1
  | [_; pattern] => grep pattern 0 ;; exit 0
  | _ :: pattern :: files => grep_files pattern files ;; exit 0
  end.

(** ** The lines of a text *)

(** The finished lines and the rest. *)
Fixpoint lines (l : list Z) : list (list Z) * list Z :=
  match l with
  | [] => ([], [])
  | c :: l =>
      let '(ls, r) := lines l in
      if c =? 10 then ([] :: ls, r)
      else match ls with [] => ([], c :: r) | x :: ls => ((c :: x) :: ls, r) end
  end.

(** What a search prints: the lines that match. *)
Definition found (pattern text : list Z) : list Z :=
  concat (map (λ l, l ++ [10]) (filter (λ l, matches pattern l = true) (lines text).1)).

Lemma lines_flat l : 10 ∉ l → lines l = ([], l).
Proof.
  induction l as [|c l IH]; intros Hl; simpl; [done|]. apply not_elem_of_cons in Hl as [Hc Hl].
  rewrite IH by done. by zbool.
Qed.
Lemma lines_cons l l' : 10 ∉ l → lines (l ++ 10 :: l') = (l :: (lines l').1, (lines l').2).
Proof.
  induction l as [|c l IH]; intros Hl; simpl.
  - by destruct (lines l').
  - apply not_elem_of_cons in Hl as [Hc Hl]. rewrite IH by done. by zbool.
Qed.
(** Every text is lines and a rest. *)
Lemma lines_split (P : list Z → Prop) :
  (∀ l, 10 ∉ l → P l) → (∀ l l', 10 ∉ l → P l' → P (l ++ 10 :: l')) → ∀ l, P l.
Proof.
  intros H1 H2 l. remember (length l) as n eqn:Hn. assert (length l ≤ n)%nat as Hl by lia. clear Hn.
  revert l Hl. induction n as [|n IH]; intros l Hl.
  { destruct l; simpl in *; [apply H1; set_solver|lia]. }
  destruct (decide (10 ∈ l)) as [Hi|]; [|by apply H1].
  apply list_elem_of_split_l in Hi as (l1&l2&->&Hi). apply H2; [done|]. apply IH.
  rewrite length_app in Hl. simpl in Hl. lia.
Qed.
Lemma lines_app l l' : lines (l ++ l') = ((lines l).1 ++ (lines ((lines l).2 ++ l')).1, (lines ((lines l).2 ++ l')).2).
Proof.
  revert l. apply (lines_split (λ l, lines (l ++ l') = _)).
  - intros l Hl. rewrite (lines_flat l) by done. simpl. by destruct (lines (l ++ l')).
  - intros l l2 Hl IH. rewrite <- app_assoc. simpl. rewrite !lines_cons, IH by done. done.
Qed.
Lemma lines_rest l : 10 ∉ (lines l).2.
Proof.
  revert l. apply (lines_split (λ l, 10 ∉ (lines l).2)).
  - intros l Hl. by rewrite lines_flat.
  - intros l l2 Hl IH. by rewrite lines_cons.
Qed.
Lemma found_app pattern l l' : found pattern (l ++ l') = found pattern l ++ found pattern ((lines l).2 ++ l').
Proof. unfold found. rewrite lines_app at 1. simpl. by rewrite filter_app, map_app, concat_app. Qed.

(** ** The search finds the lines *)

#[local] Arguments strchr : simpl never.
#[local] Arguments strn : simpl never.
#[local] Arguments read_bytes : simpl nomatch.
#[local] Opaque Z.to_nat.

Lemma cstr_iff m a l : cstr m a l ↔ read_bytes m a (length l) = l ∧ 0 ∉ l ∧ m (a + length l) = 0.
Proof.
  revert a. induction l as [|c l IH]; intros a; simpl.
  - rewrite Z.add_0_r. split; [intros; split_and!; [done|set_solver|done]|tauto].
  - rewrite IH, not_elem_of_cons. replace (a + 1 + length l) with (a + S (length l)) by lia. split.
    + intros (->&Hc&->&?&?). split_and!; done.
    + intros (E&[Hc ?]&?). injection E as ->. done.
Qed.

(** What the lines of the buffer leave alone. *)
Definition same_files (s s' : ustate) : Prop := us_in s' = us_in s ∧ us_wr s' = us_wr s ∧ us_file s' = us_file s.

Lemma read_line m p l q : q = p + length l → read_bytes m p (length l) = l →
  read_bytes (store8 m q 10) p (Z.to_nat (q + 1 - p)) = l ++ [10].
Proof.
  intros -> Hl. replace (Z.to_nat (p + length l + 1 - p)) with (length l + 1)%nat by lia.
  rewrite read_bytes_app. simpl. rewrite store8_eq. f_equal. rewrite <- Hl at 3. apply read_bytes_ext.
  intros i Hi. rewrite store8_ne by lia. done.
Qed.

Lemma grep_line_ok pattern l p s : read_bytes (us_mem s) p (length l) = l → 0 ∉ l → bytes_ok (us_mem s) →
  us_wr s 1 = true → length l < sizeof_buf →
  wpu (grep_line pattern p (p + length l))
    (λ _ s', same_files s s' ∧ bytes_ok (us_mem s') ∧
       us_out s' = us_out s ++ map (pair 1) (if matches pattern l then l ++ [10] else []) ∧
       ∀ x, p + length l < x → us_mem s' x = us_mem s x) (λ _ _, False) s.
Proof.
  intros Hl Hz Hm Hw Hlen. unfold grep_line, ustore. wpu_steps. cbn [us_mem set_umem].
  assert (∀ v, read_bytes (store8 (us_mem s) (p + length l) v) p (length l) = l) as Hv.
  { intros v. rewrite <- Hl at 3. apply read_bytes_ext. intros i Hi. by rewrite store8_ne by lia. }
  rewrite (cstr_strn _ _ l); [| |unfold sizeof_buf in *; lia].
  2: { apply cstr_iff. split_and!; [done..|]. by rewrite store8_eq. }
  destruct (matches pattern l).
  - wpu_steps. cbn [us_mem set_umem]. apply wpu_write; [done|]. wpu_steps. simpl. split; [done|]. split_and!.
    + auto using store8_bytes_ok.
    + do 2 f_equal. by apply read_line.
    + intros x Hx. by rewrite !store8_ne by lia.
  - wpu_steps. simpl. split; [done|]. rewrite app_nil_r. split_and!; [auto using store8_bytes_ok|done|].
    intros x Hx. by rewrite store8_ne by lia.
Qed.

Lemma found_cons pattern l l' : 10 ∉ l →
  found pattern (l ++ 10 :: l') = (if matches pattern l then l ++ [10] else []) ++ found pattern l'.
Proof.
  intros Hl. unfold found. rewrite lines_cons by done. simpl. rewrite filter_cons.
  destruct (matches pattern l); [rewrite decide_True by done|rewrite decide_False by done]; simpl; done.
Qed.

Lemma same_files_trans s1 s2 s3 : same_files s1 s2 → same_files s2 s3 → same_files s1 s3.
Proof. unfold same_files. intuition congruence. Qed.

Lemma grep_lines_ok pattern rest p fuel s : 0 < p → cstr (us_mem s) p rest → bytes_ok (us_mem s) →
  us_wr s 1 = true → length rest < sizeof_buf → (length (lines rest).1 < fuel)%nat →
  wpu (grep_lines pattern p fuel) (λ p' s', same_files s s' ∧ bytes_ok (us_mem s') ∧
    us_out s' = us_out s ++ map (pair 1) (found pattern rest) ∧
    p' = p + (length rest - length (lines rest).2) ∧
    read_bytes (us_mem s') p' (length (lines rest).2) = (lines rest).2) (λ _ _, False) s.
Proof.
  unfold sizeof_buf. revert rest p fuel s. refine (lines_split _ _ _).
  - intros l Hl p [|fuel] s Hp Hs Hm Hw Hlen Hf; [simpl in Hf; lia|]. simpl. wpu_steps.
    rewrite (strchr_absent _ _ _ l) by (first [done | unfold sizeof_buf; lia | lia]). simpl. wpu_steps.
    unfold found. rewrite (lines_flat l) by done. simpl. rewrite app_nil_r.
    split; [done|]. split_and!; [done|done|lia|by destruct (proj1 (cstr_iff _ _ _) Hs)].
  - intros l l' Hl IH p [|fuel] s Hp Hs Hm Hw Hlen Hf; [simpl in Hf; lia|]. rewrite length_app in Hlen. simpl in Hlen.
    rewrite (lines_cons l) in Hf |- * by done. simpl in Hf. simpl. wpu_step. wpu_step.
    rewrite (strchr_found _ _ _ l l') by (first [done | unfold sizeof_buf; lia | lia]). simpl. zbool.
    apply cstr_iff in Hs as (Hb&Hz&He). rewrite length_app, read_bytes_app in Hb. apply app_inj_1 in Hb as [Hb Hb'];
      [|by rewrite length_read_bytes]. simpl in Hb'. injection Hb' as Hq Hb'.
    assert (0 ∉ l ∧ 0 ∉ l') as [Hz1 Hz2] by set_solver.
    wpu_step. eapply wpu_mono; [apply (grep_line_ok pattern l p s); unfold sizeof_buf; first [done | lia]| |done].
    intros _ s1 (Hf1&Hm1&Ho1&Hx1). cbv beta. pose proof Hf1 as (_&Hw1&_).
    eapply wpu_mono; [apply IH; [lia| |done|by rewrite Hw1|lia|lia]| |done].
    { apply cstr_iff. rewrite length_app in He. simpl in He. split_and!; [|done|].
      - rewrite <- Hb' at 2. apply read_bytes_ext. intros i Hi. apply Hx1. lia.
      - rewrite Hx1 by lia. rewrite <- He. f_equal. lia. }
    intros p' s2 (Hf2&Hm2&Ho2&->&Hr). split; [by eapply same_files_trans|]. split_and!; [done| |rewrite length_app; simpl; lia|done].
    rewrite Ho2, Ho1, found_cons, map_app, app_assoc by done. done.
Qed.

(** Every line fits the buffer, with its newline and a terminator. *)
Definition short_lines (text : list Z) : Prop :=
  Forall (λ l, length l < sizeof_buf - 1) ((lines text).1 ++ [(lines text).2]).

Lemma lines_length l : (length (lines l).1 ≤ length l)%nat.
Proof.
  revert l. apply (lines_split (λ l, (length (lines l).1 ≤ length l)%nat)).
  - intros l Hl. rewrite lines_flat by done. simpl. lia.
  - intros l l' Hl IH. rewrite lines_cons, length_app by done. simpl. lia.
Qed.

Lemma lines_rest_length l : (length (lines l).2 ≤ length l)%nat.
Proof.
  revert l. apply (lines_split (λ l, (length (lines l).2 ≤ length l)%nat)).
  - intros l Hl. rewrite lines_flat by done. done.
  - intros l l' Hl IH. rewrite lines_cons, length_app by done. simpl. lia.
Qed.
Lemma Forall_lines_rest (P : Z → Prop) l : Forall P l → Forall P (lines l).2.
Proof.
  revert l. apply (lines_split (λ l, Forall P l → Forall P (lines l).2)).
  - intros l Hl. by rewrite lines_flat.
  - intros l l' Hl IH. rewrite lines_cons by done. intros [_ [_ ?]%Forall_cons]%Forall_app. by apply IH.
Qed.
Lemma stream_bytes_size st : (length (stream_bytes st) ≤ stream_size st)%nat.
Proof.
  unfold stream_size. induction st as [|[[|c l]|] st IH]; simpl; try lia. rewrite length_app. lia.
Qed.

Lemma short_lines_prefix l text : 10 ∉ l → short_lines (l ++ text) → length l < sizeof_buf - 1.
Proof.
  unfold short_lines, sizeof_buf. intros Hl Hs. destruct (decide (10 ∈ text)) as [Hi|Hi].
  - apply list_elem_of_split_l in Hi as (l1&l2&->&Hi). rewrite app_assoc, lines_cons in Hs by set_solver.
    simpl in Hs. apply Forall_cons in Hs as [Hs _]. rewrite length_app in Hs. lia.
  - rewrite lines_flat in Hs by set_solver. simpl in Hs. apply Forall_cons in Hs as [Hs _].
    rewrite length_app in Hs. lia.
Qed.
Lemma short_lines_rest l text : short_lines (l ++ text) → short_lines ((lines l).2 ++ text).
Proof.
  unfold short_lines. rewrite lines_app at 1 2. simpl. rewrite <- app_assoc, Forall_app. tauto.
Qed.

(** The buffer holds [l] at its beginning. *)
Definition holds_text (l : list Z) (s : ustate) : Prop := read_bytes (us_mem s) buf (length l) = l.

Lemma read_bytes_write m a l : Forall (λ c, 0 ≤ c < 256) l → read_bytes (write_bytes m a l) a (length l) = l.
Proof.
  revert m a. induction l as [|c l IH]; intros m a Hl; simpl; [done|]. apply Forall_cons in Hl as [Hc Hl].
  f_equal; [|by apply IH]. rewrite write_bytes_at, decide_False by lia. rewrite store8_eq. apply wrap_small. lia.
Qed.
Lemma write_bytes_ok m a l : bytes_ok m → bytes_ok (write_bytes m a l).
Proof. revert m a. induction l; simpl; auto using store8_bytes_ok. Qed.

(** A piece arrives behind the unfinished line. *)
Lemma buffer_filled m l c : bytes_ok m → Forall (λ c, 0 < c < 256) (l ++ c) → read_bytes m buf (length l) = l →
  cstr (store8 (write_bytes m (buf + length l) c) (buf + (length l + length c)) 0) buf (l ++ c).
Proof.
  intros Hm Hc Hl. apply cstr_iff. split_and!.
  - rewrite length_app, read_bytes_app. f_equal.
    + transitivity (read_bytes m buf (length l)); [|done]. apply read_bytes_ext.
      intros i Hi. rewrite store8_ne, write_bytes_at, decide_False by lia. done.
    + transitivity (read_bytes (write_bytes m (buf + length l) c) (buf + length l) (length c)).
      * apply read_bytes_ext. intros i Hi. by rewrite store8_ne by lia.
      * apply read_bytes_write. apply Forall_app in Hc as [_ Hc]. eapply Forall_impl; [exact Hc|]. simpl. lia.
  - intros Hi. rewrite Forall_forall in Hc. apply Hc in Hi. lia.
  - rewrite length_app. replace (buf + (length l + length c)%nat) with (buf + (length l + length c)) by lia.
    by rewrite store8_eq.
Qed.

Lemma grep_loop_ok pattern fd l st fuel s : 0 < buf → us_in s fd = Some st → stream_ok st = true →
  us_wr s 1 = true → bytes_ok (us_mem s) → holds_text l s → 10 ∉ l → Forall (λ c, 0 < c < 256) (l ++ stream_bytes st) →
  short_lines (l ++ stream_bytes st) → (length (stream_bytes st) < fuel)%nat →
  wpu (grep_loop pattern fd (length l) fuel) (λ _ s',
    us_out s' = us_out s ++ map (pair 1) (found pattern (l ++ stream_bytes st))) (λ _ _, False) s.
Proof.
  intros Hbuf. revert l st s. induction fuel as [|fuel IH]; intros l st s Hin Hok Hw Hm Hl Hnl Hc Hs Hf; [lia|].
  pose proof (short_lines_prefix _ _ Hnl Hs) as Hlen.
  simpl. wpu_step. eapply wpu_read; [done|].
  pose proof (take_chunk_cases (sizeof_buf - length l - 1) st ltac:(lia) Hok) as Hcut.
  destruct (take_chunk _ st) as [[r c] st'] eqn:Et. destruct Hcut as (->&Hr&Hnil&Hcons).
  destruct (decide (c = [])) as [->|Hne].
  { simpl. wpu_steps. rewrite Hnil by done. unfold found. rewrite app_nil_r, lines_flat by done. simpl.
    by rewrite app_nil_r. }
  destruct (Hcons Hne) as [Eb Hok']. rewrite Eb in *. rewrite app_assoc in Hc, Hs.
  assert (0 < length c)%nat by (destruct c; simpl; [done|lia]). zbool.
  unfold ustore. wpu_steps. cbn [us_mem set_umem set_uin].
  eapply wpu_mono; [apply (grep_lines_ok pattern (l ++ c))| |done]; cbn [us_mem set_umem set_uin us_wr us_out].
  - done.
  - apply buffer_filled; [done| |done]. by apply Forall_app in Hc as [? _].
  - apply store8_bytes_ok. by apply write_bytes_ok.
  - done.
  - rewrite length_app. unfold sizeof_buf in *. lia.
  - pose proof (lines_length (l ++ c)) as Hll. rewrite length_app in Hll. unfold sizeof_buf in *. lia.
  - intros p s1 ((Hi1&Hw1&_)&Hm1&Ho1&->&Hr1). cbv beta. wpu_steps. rewrite length_app in Hr1 |- *.
    pose proof (lines_rest_length (l ++ c)) as Hrl. rewrite length_app in Hrl.
    set (r := (lines (l ++ c)).2) in *.
    replace (length l + length c - _) with (Z.of_nat (length r)) by lia.
    eapply wpu_mono; [eapply (IH r st')| |done]; cbn [us_mem set_umem us_wr us_in us_out].
    + rewrite Hi1. cbn [us_in set_umem set_uin]. apply fn_lookup_insert.
    + done.
    + by rewrite Hw1.
    + by apply umemmove_bytes_ok.
    + unfold holds_text. cbn [us_mem set_umem]. etrans; [|exact Hr1]. apply read_bytes_ext. intros i Hi.
      rewrite umemmove_at, bool_decide_eq_true_2 by (done || lia). f_equal. lia.
    + apply lines_rest.
    + apply Forall_app in Hc as [Hc1 Hc2]. apply Forall_app. split; [|done]. by apply Forall_lines_rest.
    + by apply short_lines_rest.
    + rewrite length_app in Hf. lia.
    + intros _ s2 Ho2. rewrite Ho2, Ho1, app_assoc, (found_app _ (l ++ c)), map_app, app_assoc. done.
Qed.

End grep.

(** Three pieces, with a line cut in the middle; the pattern is [b*c]. *)
Definition grep_input : stream := [Some (lit "abc" ++ [10] ++ lit "x"); Some (lit "yb"); Some (lit "cc" ++ [10] ++ lit "ab" ++ [10])].
Definition grep_state : ustate := UState (λ _, 0) (λ _, Some grep_input) [] (λ _, true) (λ _, None) no_world.

(** A line that does not fit the buffer ends the search: [read] is asked for
    no bytes, answers 0, and the rest of the file is not looked at. *)
Definition long_input : stream := [Some (repeat 97 1023); Some ([10] ++ lit "b" ++ [10])].
Definition long_state : ustate := UState (λ _, 0) (λ _, Some long_input) [] (λ _, true) (λ _, None) no_world.
Definition output (r : ures unit) : option (list (Z * Z)) :=
  match r with URet _ s => Some (us_out s) | _ => None end.
Lemma grep_stops_at_long_line :
  found (lit "b") (stream_bytes long_input) = lit "b" ++ [10] ∧
  output (grep 4096 (lit "b") 0 long_state) = Some [].
Proof. split; vm_compute; reflexivity. Qed.
