(* ===== verification/Utils.v ===== *)
(** * user/cat.c, user/wc.c and user/echo.c

    [buf] is the address of the program's buffer of 512 bytes; the files
    arrive in pieces ([User]). *)
From S2P Require Import Prelude Kstring User Ulib Uprintf Grep.

Section utils.
Variable buf : Z.
Definition sizeof_catbuf : Z := 512.

(** ** cat.c *)

(** The loop; answers the last result of [read]. *)
Fixpoint cat_loop (fd : Z) (fuel : nat) : U Z :=
  match fuel with
  | O => unofuel
  | S fuel =>
      n ← read fd buf sizeof_catbuf;
      if n >? 0 then
        m ← ugets us_mem;
        r ← write 1 (read_bytes m buf (Z.to_nat n));
        if negb (r =? n) then fprintf 2 (lit "cat: write error" ++ [10]) [] ;; exit 1
        else cat_loop fd fuel
      else mret n
  end.
Definition cat (fd : Z) : U unit :=
  k ← ugets (λ s, stream_size (default [] (us_in s fd)));
  n ← cat_loop fd (k + 1);
  if n <? 0 then fprintf 2 (lit "cat: read error" ++ [10]) [] ;; exit 1 else mret tt.

Fixpoint cat_files (argv : list (list Z)) : U unit :=
  match argv with
  | [] => mret tt
  | file :: argv =>
      fd ← open file;
      if fd <? 0 then fprintf 2 (lit "cat: cannot open %s" ++ [10]) [VStr (Some file)] ;; exit 1
      else cat fd ;; close fd ;; cat_files argv
  end.
Definition cat_main (argv : list (list Z)) : U unit :=
  match argv with
  | [] | [_] => cat 0 ;; exit 0
  | _ :: files => cat_files files ;; exit 0
  end.

(** ** wc.c *)

(** The bytes of [" \r\t\n\v"]. *)
Definition is_space (c : Z) : bool := existsb (Z.eqb c) [32; 13; 9; 10; 11].

Record counts := Counts { wc_l : Z; wc_w : Z; wc_c : Z; wc_inword : bool }.

(** The body of the inner loop, on [int] counters. *)
Definition count (x : counts) (b : Z) : counts :=
  let c := s32 (wc_c x + 1) in
  let l := if b =? 10 then s32 (wc_l x + 1) else wc_l x in
  if is_space b then Counts l (wc_w x) c false
  else if negb (wc_inword x) then Counts l (s32 (wc_w x + 1)) c true
  else Counts l (wc_w x) c (wc_inword x).

Fixpoint wc_scan (m : mem) (i : Z) (k : nat) (x : counts) : counts :=
  match k with
  | O => x
  | S k => wc_scan m (i + 1) k (count x (m (buf + i)))
  end.

Fixpoint wc_loop (fd : Z) (x : counts) (fuel : nat) : U (Z * counts) :=
  match fuel with
  | O => unofuel
  | S fuel =>
      n ← read fd buf sizeof_catbuf;
      if n >? 0 then m ← ugets us_mem; wc_loop fd (wc_scan m 0 (Z.to_nat n) x) fuel
      else mret (n, x)
  end.
Definition wc (fd : Z) (name : list Z) : U unit :=
  k ← ugets (λ s, stream_size (default [] (us_in s fd)));
  '(n, x) ← wc_loop fd (Counts 0 0 0 false) (k + 1);
  if n <? 0 then printf (lit "wc: read error" ++ [10]) [] ;; exit 1
  else printf (lit "%d %d %d %s" ++ [10]) [VInt (wc_l x); VInt (wc_w x); VInt (wc_c x); VStr (Some name)].

Fixpoint wc_files (argv : list (list Z)) : U unit :=
  match argv with
  | [] => mret tt
  | file :: argv =>
      fd ← open file;
      if fd <? 0 then printf (lit "wc: cannot open %s" ++ [10]) [VStr (Some file)] ;; exit 1
      else wc fd file ;; close fd ;; wc_files argv
  end.
Definition wc_main (argv : list (list Z)) : U unit :=
  match argv with
  | [] | [_] => wc 0 [] ;; exit 0
  | _ :: files => wc_files files ;; exit 0
  end.

(** ** echo.c *)

Fixpoint echo_args (argv : list (list Z)) : U unit :=
  match argv with
  | [] => mret tt
  | arg :: argv =>
      write 1 arg ;;
      write 1 (match argv with [] => [10] | _ => [32] end) ;;
      echo_args argv
  end.
Definition echo_main (argv : list (list Z)) : U unit := echo_args (tail argv) ;; exit 0.

(** ** Reading a whole file *)

(** Reading piece by piece from the start of a buffer: what holds of the
    bytes read so far holds of the whole file. *)
Lemma read_piece {A} fd size st s (k : Z → U A) Q E : 0 < size → us_in s fd = Some st → stream_ok st = true →
  Forall (λ c, 0 ≤ c < 256) (stream_bytes st) →
  (stream_bytes st = [] → ∀ s', us_out s' = us_out s → us_wr s' = us_wr s → wpu (k 0) Q E s') →
  (∀ l st' s', l ≠ [] → stream_bytes st = l ++ stream_bytes st' → stream_ok st' = true → us_in s' fd = Some st' →
     us_out s' = us_out s → us_wr s' = us_wr s → read_bytes (us_mem s') buf (length l) = l → wpu (k (length l)) Q E s') →
  wpu (read fd buf size ≫= k) Q E s.
Proof.
  intros Hsz Hin Hok Hb Hend Hk. wpu_step. eapply wpu_read; [done|].
  pose proof (take_chunk_cases size st Hsz Hok) as Hc. destruct (take_chunk size st) as [[r l] st'].
  destruct Hc as (->&_&Hnil&Hcons). destruct (decide (l = [])) as [->|Hne]; [by apply Hend; [apply Hnil|..]|].
  destruct (Hcons Hne) as [Eb Hok']. apply (Hk l st'); try done.
  - cbn [us_in set_uin]. apply fn_lookup_insert.
  - cbn [us_mem set_uin set_umem]. apply read_bytes_write. rewrite Eb in Hb. by apply Forall_app in Hb as [? _].
Qed.

Lemma cat_loop_ok fd st fuel s : us_in s fd = Some st → stream_ok st = true → us_wr s 1 = true →
  Forall (λ c, 0 ≤ c < 256) (stream_bytes st) → (length (stream_bytes st) < fuel)%nat →
  wpu (cat_loop fd fuel) (λ n s', n = 0 ∧ us_wr s' = us_wr s ∧
    us_out s' = us_out s ++ map (pair 1) (stream_bytes st)) (λ _ _, False) s.
Proof.
  revert st s. induction fuel as [|fuel IH]; intros st s Hin Hok Hw Hb Hf; [lia|].
  cbn [cat_loop]. eapply read_piece; [unfold sizeof_catbuf; lia|done..| |].
  - intros -> s' Ho Hw'. cbn. wpu_steps. rewrite app_nil_r. done.
  - intros l st' s' Hne Eb Hok' Hin' Ho Hw' Hl. assert (0 < length l)%nat by (destruct l; simpl; [done|lia]). zbool.
    wpu_steps. rewrite Nat2Z.id, Hl. apply wpu_write; [by rewrite Hw'|]. rewrite Z.eqb_refl. simpl.
    rewrite Eb in Hb, Hf. rewrite length_app in Hf. apply Forall_app in Hb as [_ Hb].
    eapply wpu_mono; [apply (IH st' (add_uout 1 l s')); [exact Hin'|done|cbn [us_wr add_uout]; congruence|done|lia]| |done].
    intros n s2 (->&Hw2&Ho2). rewrite Ho2, Hw2. cbn [us_out us_wr add_uout]. rewrite Ho, Eb, map_app, app_assoc. done.
Qed.

(** cat writes out exactly what it reads. *)
Lemma cat_copies fd st s : us_in s fd = Some st → stream_ok st = true → us_wr s 1 = true →
  Forall (λ c, 0 ≤ c < 256) (stream_bytes st) →
  wpu (cat fd) (λ _ s', us_out s' = us_out s ++ map (pair 1) (stream_bytes st)) (λ _ _, False) s.
Proof.
  intros Hin Hok Hw Hb. unfold cat. wpu_steps. rewrite Hin.
  eapply wpu_mono; [apply (cat_loop_ok fd st)|intros n s' (->&_&?); done|done]; try done.
  pose proof (stream_bytes_size st). simpl. lia.
Qed.

(** ** Counting *)

Definition newlines (l : list Z) : Z := length (filter (λ c, c = 10) l).
(** A word starts where a byte that is no space follows a space, or stands at
    the beginning. *)
Definition words (l : list Z) : Z :=
  length (filter (λ x, is_space x.1 = true ∧ is_space x.2 = false) (zip (32 :: l) l)).

Lemma wc_scan_fold m i k x : wc_scan m i k x = fold_left count (read_bytes m (buf + i) k) x.
Proof.
  revert i x. induction k as [|k IH]; intros i x; simpl; [done|]. rewrite IH. do 2 f_equal. lia.
Qed.

Lemma wc_loop_fold fd st x fuel s : us_in s fd = Some st → stream_ok st = true →
  Forall (λ c, 0 ≤ c < 256) (stream_bytes st) → (length (stream_bytes st) < fuel)%nat →
  wpu (wc_loop fd x fuel) (λ r s', r = (0, fold_left count (stream_bytes st) x) ∧
    us_wr s' = us_wr s ∧ us_out s' = us_out s) (λ _ _, False) s.
Proof.
  revert st x s. induction fuel as [|fuel IH]; intros st x s Hin Hok Hb Hf; [lia|].
  cbn [wc_loop]. eapply read_piece; [unfold sizeof_catbuf; lia|done..| |].
  - intros -> s' Ho Hw'. done.
  - intros l st' s' Hne Eb Hok' Hin' Ho Hw' Hl. assert (0 < length l)%nat by (destruct l; simpl; [done|lia]). zbool.
    wpu_steps. rewrite Nat2Z.id, wc_scan_fold, Z.add_0_r, Hl.
    rewrite Eb in Hb, Hf. rewrite length_app in Hf. apply Forall_app in Hb as [_ Hb].
    eapply wpu_mono; [apply (IH st'); [done|done|done|lia]| |done].
    intros r s2 (->&Hw2&Ho2). rewrite Eb, fold_left_app. split_and!; congruence.
Qed.

(** The state machine counts the starts of words; [p] is the byte before. *)
Lemma count_fold p l x : 0 ≤ wc_l x → 0 ≤ wc_w x → 0 ≤ wc_c x →
  wc_l x + length l < 2 ^ 31 → wc_w x + length l < 2 ^ 31 → wc_c x + length l < 2 ^ 31 →
  wc_inword x = negb (is_space p) →
  let x' := fold_left count l x in
  wc_l x' = wc_l x + newlines l ∧ wc_c x' = wc_c x + length l ∧
  wc_w x' = wc_w x + length (filter (λ y, is_space y.1 = true ∧ is_space y.2 = false) (zip (p :: l) l)).
Proof.
  revert p x. induction l as [|b l IH]; intros p [vl vw vc vi] H1 H2 H3 H4 H5 H6 Hi; cbn [length] in *.
  { unfold newlines. simpl. lia. }
  cbn [fold_left]. cbn [wc_l wc_w wc_c wc_inword] in *.
  assert (Hs : ∀ v, 0 ≤ v → v + S (length l) < 2 ^ 31 → s32 (v + 1) = v + 1) by (intros; apply swrap_small; simpl; lia).
  specialize (IH b (count (Counts vl vw vc vi) b)). unfold newlines in *. rewrite filter_cons.
  change (zip (p :: b :: l) (b :: l)) with ((p, b) :: zip (b :: l) l). rewrite filter_cons. cbn [fst snd].
  unfold count in IH |- *. cbn [wc_l wc_w wc_c wc_inword] in *. rewrite !Hs in IH |- * by lia. subst vi.
  destruct (decide (b = 10)) as [->|Hb]; [change (10 =? 10) with true in *|rewrite (proj2 (Z.eqb_neq b 10) Hb) in *];
    destruct (is_space p) eqn:Hp; try change (is_space 10) with true in *; try (destruct (is_space b) eqn:Hsb);
    cbn [negb wc_l wc_w wc_c wc_inword] in *;
    (destruct IH as (->&->&->); [lia|lia|lia|lia|lia|lia|reflexivity|]); repeat case_decide; cbn [length]; intuition (lia || congruence).
Qed.

Lemma filter_length_bound {A} (P : A → Prop) `{!∀ x, Decision (P x)} (l : list A) : (length (filter P l) ≤ length l)%nat.
Proof. induction l as [|a l IH]; [done|]. rewrite filter_cons. case_decide; simpl; lia. Qed.
Lemma newlines_range l : 0 ≤ newlines l ≤ length l.
Proof. unfold newlines. pose proof (filter_length_bound (λ c, c = 10) l). lia. Qed.
Lemma words_range l : 0 ≤ words l ≤ length l.
Proof.
  unfold words. pose proof (filter_length_bound (λ x, is_space x.1 = true ∧ is_space x.2 = false) (zip (32 :: l) l)) as H.
  rewrite length_zip in H. lia.
Qed.

Lemma prints_wc l w c name : 0 ≤ l < 2 ^ 31 → 0 ≤ w < 2 ^ 31 → 0 ≤ c < 2 ^ 31 → Forall (λ c, 0 ≤ c < 256) name →
  prints 1 (printf (lit "%d %d %d %s" ++ [10]) [VInt l; VInt w; VInt c; VStr (Some name)])
    (show_int l ++ [32] ++ show_int w ++ [32] ++ show_int c ++ [32] ++ name ++ [10]).
Proof.
  intros Hl Hw Hc Hn. unfold printf, vprintf.
  let x := eval vm_compute in (lit "%d %d %d %s" ++ [10]) in change (lit "%d %d %d %s" ++ [10]) with x.
  apply prints_d; [lia|]. apply prints_char; [done|done|]. apply prints_d; [lia|]. apply prints_char; [done|done|].
  apply prints_d; [lia|]. apply prints_char; [done|done|]. apply prints_s; [done|]. apply prints_char; [done|done|].
  apply prints_end.
Qed.

(** [wc] counts lines, words and characters.  For a file of less than 2^31
    bytes, in whatever pieces it arrives, [wc] prints the number of its
    newlines, the number of places where a word starts, the number of its
    bytes, and the name. *)
Theorem wc_counts (fd : Z) (name : list Z) (st : stream) (s : ustate) :
  us_in s fd = Some st → stream_ok st = true → us_wr s 1 = true →
  Forall (λ c, 0 ≤ c < 256) (stream_bytes st) → Forall (λ c, 0 ≤ c < 256) name → length (stream_bytes st) < 2 ^ 31 →
  let text := stream_bytes st in
  wpu (wc fd name) (λ _ s', us_out s' = us_out s ++ map (pair 1)
    (show_int (newlines text) ++ [32] ++ show_int (words text) ++ [32] ++ show_int (length text) ++ [32] ++ name ++ [10]))
    (λ _ _, False) s.
Proof.
  intros Hin Hok Hw Hb Hn Hlen text. unfold wc. wpu_steps. rewrite Hin. simpl default.
  eapply wpu_mono; [apply (wc_loop_fold fd st); try done; pose proof (stream_bytes_size st); lia| |done].
  intros [n x] s' ([= -> ->]&Hw'&Ho). cbv beta iota. fold text.
  destruct (count_fold 32 text (Counts 0 0 0 false)) as (El&Ec&Ew); [done|done|done|done|done|done|done|].
  fold (words text) in Ew. cbn [wc_l wc_w wc_c] in *. rewrite El, Ec, Ew. rewrite !Z.add_0_l. change (0 <? 0) with false. cbv iota.
  pose proof (newlines_range text). pose proof (words_range text). unfold wpu. fold text in Hlen.
  rewrite (prints_wc _ _ _ name) by (done || lia || by rewrite Hw').
  cbn [us_out add_uout]. by rewrite Ho.
Qed.
End utils.

Definition wc_state : ustate := UState (λ _, 0) (λ _, Some grep_input) [] (λ _, true) (λ _, None) no_world.
Lemma wc_counts_witness :
  newlines (stream_bytes grep_input) = 3 ∧ words (stream_bytes grep_input) = 3 ∧
  wpu (wc 4096 0 (lit "f")) (λ _ s', us_out s' = us_out wc_state ++ map (pair 1)
    (show_int 3 ++ [32] ++ show_int 3 ++ [32] ++ show_int 13 ++ [32] ++ lit "f" ++ [10])) (λ _ _, False) wc_state.
Proof.
  split_and!; [done|done|].
  apply (wc_counts 4096 0 (lit "f") grep_input wc_state); try done; repeat constructor; done.
Defined.
