(* ===== verification/Programs.v ===== *)
(** * user/kill.c, ln.c, mkdir.c, rm.c and ls.c

    [kill], [link], [mkdir] and [unlink] are recorded in the order they are
    made, with the kernel's answers ([User]).  [ls] works on the program's
    memory: its locals and the static buffer of [fmtname] are at the
    addresses of the section. *)
From S2P Require Import Prelude Kstring User Ulib Uprintf Grep.

(** ** kill.c, ln.c, mkdir.c, rm.c *)

(** An argument of [exec] fits in a page. *)
Definition MAXSTR : nat := Z.to_nat 4096.

(** The arguments of [kill] are pointers: it converts them. *)
Fixpoint kill_args (argv : list Z) : U unit :=
  match argv with
  | [] => mret tt
  | arg :: argv =>
      m ← ugets us_mem;
      match atoi m arg MAXSTR with
      | Some n => kill n ;; kill_args argv
      | None => unofuel
      end
  end.
Definition kill_main (argv : list Z) : U unit :=
  match argv with
  | [] | [_] => fprintf 2 (lit "usage: kill pid..." ++ [10]) [] ;; exit 1
  | _ :: argv => kill_args argv ;; exit 0
  end.

Definition ln_main (argv : list (list Z)) : U unit :=
  match argv with
  | [_; old; new] =>
      r ← link old new;
      (if r <? 0 then fprintf 2 (lit "link %s %s: failed" ++ [10]) [VStr (Some old); VStr (Some new)] else mret tt) ;;
      exit 0
  | _ => fprintf 2 (lit "Usage: ln old new" ++ [10]) [] ;; exit 1
  end.

Fixpoint mkdir_args (argv : list (list Z)) : U unit :=
  match argv with
  | [] => mret tt
  | arg :: argv =>
      r ← mkdir arg;
      if r <? 0 then fprintf 2 (lit "mkdir: %s failed to create" ++ [10]) [VStr (Some arg)] else mkdir_args argv
  end.
Definition mkdir_main (argv : list (list Z)) : U unit :=
  match argv with
  | [] | [_] => fprintf 2 (lit "Usage: mkdir files..." ++ [10]) [] ;; exit 1
  | _ :: argv => mkdir_args argv ;; exit 0
  end.

Fixpoint rm_args (argv : list (list Z)) : U unit :=
  match argv with
  | [] => mret tt
  | arg :: argv =>
      r ← unlink arg;
      if r <? 0 then fprintf 2 (lit "rm: %s failed to delete" ++ [10]) [VStr (Some arg)] else rm_args argv
  end.
Definition rm_main (argv : list (list Z)) : U unit :=
  match argv with
  | [] | [_] => fprintf 2 (lit "Usage: rm files..." ++ [10]) [] ;; exit 1
  | _ :: argv => rm_args argv ;; exit 0
  end.

(** ** ls.c *)

Definition DIRSIZ : Z := 14.
Definition T_DIR : Z := 1.
Definition T_FILE : Z := 2.
Definition T_DEVICE : Z := 3.
Definition sizeof_dirent : Z := 16.
Definition sizeof_lsbuf : Z := 512.

(** [strlen] and the string at a pointer. *)
Definition ulen (a : Z) : U Z :=
  m ← ugets us_mem;
  match ustrlen m a MAXSTR with Some n => mret n | None => unofuel end.
Definition ustr (a : Z) : U (list Z) :=
  n ← ulen a; ugets (λ s, read_bytes (us_mem s) a (Z.to_nat n)).

(** The loop of [fmtname]. *)
Fixpoint last_slash (m : mem) (path p : Z) (fuel : nat) : option Z :=
  match fuel with
  | O => None
  | S fuel => if (p >=? path) && negb (m p =? 47) then last_slash m path (p - 1) fuel else Some p
  end.

Section ls.
Variable fmtbuf : Z.     (* the static [buf] of fmtname *)
Variable buf : Z.        (* the locals of ls *)
Variable de : Z.
Variable st : Z.

Definition fmtname (path : Z) : U Z :=
  n ← ulen path;
  m ← ugets us_mem;
  match last_slash m path (path + n) (Z.to_nat n + 2) with
  | None => unofuel
  | Some p =>
      let p := p + 1 in
      n ← ulen p;
      if n >=? DIRSIZ then mret p
      else
        n ← ulen p;
        umodify (λ s, set_umem (umemmove (us_mem s) fmtbuf p n) s) ;;
        n ← ulen p;
        n' ← ulen p;
        umodify (λ s, set_umem (umemset (us_mem s) (fmtbuf + n) 32 (DIRSIZ - n')) s) ;;
        mret fmtbuf
  end.

(** The fields of [st] and [de]. *)
Definition get_type : U Z := ugets (λ s, s16 (load_le (us_mem s) (st + 8) 2)).
Definition get_ino : U Z := ugets (λ s, load_le (us_mem s) (st + 4) 4).
Definition get_size : U Z := ugets (λ s, load_le (us_mem s) (st + 16) 8).
Definition get_inum : U Z := ugets (λ s, load_le (us_mem s) de 2).

(** [printf(fmt, fmtname(path), st.type, st.ino, st.size)] *)
Definition ls_print (fmt : list Z) (path : Z) : U unit :=
  name ← fmtname path;
  name ← ustr name;
  type ← get_type; ino ← get_ino; size ← get_size;
  printf fmt [VStr (Some name); VInt type; VInt ino; VInt size].

Fixpoint ls_entries (fd p : Z) (fuel : nat) : U unit :=
  match fuel with
  | O => unofuel
  | S fuel =>
      n ← read fd de sizeof_dirent;
      if n =? sizeof_dirent then
        inum ← get_inum;
        if inum =? 0 then ls_entries fd p fuel
        else
          umodify (λ s, set_umem (umemmove (us_mem s) p (de + 2) DIRSIZ) s) ;;
          ustore (p + DIRSIZ) 0 ;;
          name ← ustr buf;
          r ← stat name st;
          if r <? 0 then
            printf (lit "ls: cannot stat %s" ++ [10]) [VStr (Some name)] ;; ls_entries fd p fuel
          else
            ls_print (lit "%s %d %d %d" ++ [10]) buf ;; ls_entries fd p fuel
      else mret tt
  end.

Definition ls_dir (fd path : Z) : U unit :=
  n ← ulen path;
  if n + 1 + DIRSIZ + 1 >? sizeof_lsbuf then printf (lit "ls: path too long" ++ [10]) []
  else
    m ← ugets us_mem;
    match ustrcpy m buf path MAXSTR with
    | None => unofuel
    | Some m =>
        umodify (set_umem m) ;;
        n ← ulen buf;
        ustore (buf + n) 47 ;;
        k ← ugets (λ s, stream_size (default [] (us_in s fd)));
        ls_entries fd (buf + n + 1) (k + 1)
    end.

Definition ls (path : Z) : U unit :=
  name ← ustr path;
  fd ← open name;
  if fd <? 0 then fprintf 2 (lit "ls: cannot open %s" ++ [10]) [VStr (Some name)]
  else
    r ← fstat fd st;
    if r <? 0 then
      fprintf 2 (lit "ls: cannot stat %s" ++ [10]) [VStr (Some name)] ;; close fd ;; mret tt
    else
      type ← get_type;
      (if (type =? T_DEVICE) || (type =? T_FILE) then ls_print (lit "%s %d %d %l" ++ [10]) path
       else if type =? T_DIR then ls_dir fd path
       else mret tt) ;;
      close fd ;; mret tt.

Variable dot : Z.        (* the literal [.] *)
Fixpoint ls_args (argv : list Z) : U unit :=
  match argv with
  | [] => mret tt
  | arg :: argv => ls arg ;; ls_args argv
  end.
Definition ls_main (argv : list Z) : U unit :=
  match argv with
  | [] | [_] => ls dot ;; exit 0
  | _ :: argv => ls_args argv ;; exit 0
  end.
End ls.

Lemma MAXSTR_lt (n : nat) : n < 4096 → (n < MAXSTR)%nat.
Proof. unfold MAXSTR. lia. Qed.
#[local] Opaque MAXSTR Z.to_nat.

(** ** Arguments one by one *)

(** The first arguments of a list up to the first whose call fails, after the
    calls [h]; and the one that failed. *)
Fixpoint tried (answer : list call → Z) (c : list Z → call) (h : list call) (args : list (list Z)) :
    list (list Z) * option (list Z) :=
  match args with
  | [] => ([], None)
  | a :: args =>
      if answer (h ++ [c a]) <? 0 then ([a], Some a)
      else let '(l, f) := tried answer c (h ++ [c a]) args in (a :: l, f)
  end.

(** A program that stops at its first failure with a message. *)
Definition stops_at_failure (c : list Z → call) (msg : list Z → list Z) (prog : list (list Z) → U unit) : Prop :=
  ∀ args s, us_wr s 2 = true → Forall (Forall (λ c, 0 ≤ c < 256)) args →
  let '(l, f) := tried (w_answer (us_world s)) c (w_calls (us_world s)) args in
  wpu (prog args) (λ _ s', w_calls (us_world s') = w_calls (us_world s) ++ map c l ∧
      us_out s' = us_out s ++ map (pair 2) (from_option msg [] f)) (λ _ _, False) s.

Lemma stops_at_failure_loop (c : list Z → call) fmt msg (prog : list (list Z) → U unit) :
  prog [] = mret tt →
  (∀ a args, prog (a :: args) = (ucall (c a) ≫= λ r, if r <? 0 then fprintf 2 fmt [VStr (Some a)] else prog args)) →
  (∀ a, Forall (λ c, 0 ≤ c < 256) a → prints 2 (fprintf 2 fmt [VStr (Some a)]) (msg a)) →
  stops_at_failure c msg prog.
Proof.
  intros Hnil Hcons Hmsg args. induction args as [|a args IH]; intros s Hw Hb.
  { simpl. rewrite Hnil. apply wpu_ret. simpl. by rewrite !app_nil_r. }
  apply Forall_cons in Hb as [Ha Hb]. rewrite Hcons. cbn [tried].
  set (w := add_wcall (c a) (us_world s)).
  specialize (IH (set_uworld w s) Hw Hb). unfold w in IH. cbn [us_world set_uworld add_wcall w_answer w_calls us_out] in IH.
  change (wpu (ucall (c a) ≫= ?k) ?Q ?E s) with (wpu (k (w_answer (us_world s) (w_calls w))) Q E (set_uworld w s)).
  change (w_calls w) with (w_calls (us_world s) ++ [c a]). cbv beta.
  destruct (_ <? 0).
  - unfold wpu. rewrite (Hmsg a Ha) by done. done.
  - destruct (tried _ _ _ args) as [l f]. eapply wpu_mono; [exact IH| |done].
    intros _ s' [Hc Ho]. rewrite Hc, Ho, <- app_assoc. done.
Qed.

Ltac lits := repeat match goal with |- context [lit ?x] =>
  let y := eval vm_compute in (lit x) in change (lit x) with y end; cbn [app].
Ltac prints_go := unfold printf, fprintf, vprintf; lits;
  repeat (first [apply prints_s; [assumption|] | apply prints_char; [done|done|] | apply prints_d; [lia|]]);
  first [apply prints_end | idtac].

(** rm unlinks its arguments in order, up to the first that cannot be deleted. *)
Lemma rm_stops_at_failure : stops_at_failure CUnlink (λ a, lit "rm: " ++ a ++ lit " failed to delete" ++ [10]) rm_args.
Proof. apply stops_at_failure_loop with (fmt := lit "rm: %s failed to delete" ++ [10]); [done|done|]. intros a Ha. prints_go. Qed.
Lemma mkdir_stops_at_failure : stops_at_failure CMkdir (λ a, lit "mkdir: " ++ a ++ lit " failed to create" ++ [10]) mkdir_args.
Proof. apply stops_at_failure_loop with (fmt := lit "mkdir: %s failed to create" ++ [10]); [done|done|]. intros a Ha. prints_go. Qed.

(** rm from its argument vector to its exit. *)
Lemma rm_main_ok prog args s : us_wr s 2 = true → Forall (Forall (λ c, 0 ≤ c < 256)) args →
  let '(l, f) := tried (w_answer (us_world s)) CUnlink (w_calls (us_world s)) args in
  wpu (rm_main (prog :: args)) (λ _ _, False) (λ v s',
    v = (if decide (args = []) then 1 else 0) ∧ w_calls (us_world s') = w_calls (us_world s) ++ map CUnlink l ∧
    us_out s' = us_out s ++ map (pair 2) (if decide (args = []) then lit "Usage: rm files..." ++ [10]
      else from_option (λ a, lit "rm: " ++ a ++ lit " failed to delete" ++ [10]) [] f)) s.
Proof.
  intros Hw Hb. destruct args as [|a args].
  - simpl tried. assert (prints 2 (fprintf 2 (lit "Usage: rm files..." ++ [10]) []) (lit "Usage: rm files..." ++ [10])) as Hp by prints_go.
    unfold rm_main. apply wpu_bind. unfold wpu at 1. rewrite Hp by done. apply wpu_exit. rewrite app_nil_r. done.
  - pose proof (rm_stops_at_failure (a :: args) s Hw Hb) as H. destruct (tried _ _ _ _) as [l f].
    unfold rm_main. apply wpu_bind. eapply wpu_mono; [exact H| |done]. intros _ s' [Hc Ho]. by apply wpu_exit.
Qed.

(** kill sends its signals to the numbers its arguments show. *)
Lemma kill_args_ok args zs s : Forall2 (λ a z, cstr (us_mem s) a (show_int z) ∧ - 2 ^ 31 < z < 2 ^ 31) args zs →
  wpu (kill_args args) (λ _ s', w_calls (us_world s') = w_calls (us_world s) ++ map CKill zs ∧ us_out s' = us_out s) (λ _ _, False) s.
Proof.
  intros H. remember (us_mem s) as m eqn:Em. revert s Em.
  induction H as [|a z args zs [Ha Hz] _ IH]; intros s Em; simpl.
  { apply wpu_ret. by rewrite app_nil_r. }
  apply wpu_bind. apply wpu_gets. rewrite <- Em, (atoi_show_int m a z) by (done || pose proof (length_show_int z); apply MAXSTR_lt; lia).
  eapply wpu_mono; [apply (IH (set_uworld (add_wcall (CKill z) (us_world s)) s) Em)| |done].
  intros _ s' [Hc Ho]. rewrite Hc, Ho. cbn. by rewrite <- app_assoc.
Qed.

(** ln makes one link, and exits with 0 whether or not it succeeds. *)
Lemma ln_main_ok prog old new s : us_wr s 2 = true → Forall (λ c, 0 ≤ c < 256) old → Forall (λ c, 0 ≤ c < 256) new →
  wpu (ln_main [prog; old; new]) (λ _ _, False) (λ v s', v = 0 ∧ w_calls (us_world s') = w_calls (us_world s) ++ [CLink old new] ∧
    us_out s' = us_out s ++ map (pair 2)
      (if w_answer (us_world s) (w_calls (us_world s) ++ [CLink old new]) <? 0
       then lit "link " ++ old ++ lit " " ++ new ++ lit ": failed" ++ [10] else [])) s.
Proof.
  intros Hw Ho Hn. unfold ln_main, link, ucall. apply wpu_bind. unfold wpu at 1. cbn [w_calls add_wcall w_answer].
  assert (prints 2 (fprintf 2 (lit "link %s %s: failed" ++ [10]) [VStr (Some old); VStr (Some new)])
    (lit "link " ++ old ++ lit " " ++ new ++ lit ": failed" ++ [10])) as Hp by prints_go.
  apply wpu_bind. destruct (_ <? 0).
  - unfold wpu at 1. rewrite Hp by done. by apply wpu_exit.
  - apply wpu_ret, wpu_exit. by rewrite app_nil_r.
Qed.

(** ** Names *)

(** What follows the last slash. *)
Fixpoint basename (l : list Z) : list Z :=
  match l with
  | [] => []
  | c :: l' => if bool_decide (47 ∈ l') then basename l' else if c =? 47 then l' else l
  end.
Definition pad (l : list Z) : list Z := l ++ replicate (14 - length l) 32.
(** The bytes before the first zero. *)
Fixpoint before0 (l : list Z) : list Z :=
  match l with
  | [] => []
  | c :: l => if c =? 0 then [] else c :: before0 l
  end.

Lemma basename_cases l :
  47 ∉ basename l ∧ (basename l = l ∨ ∃ l1, l = l1 ++ 47 :: basename l).
Proof.
  induction l as [|c l [IHn IH]]; simpl; [split; [set_solver|by left]|].
  case_bool_decide as Hl.
  - split; [done|right]. destruct IH as [E|[l1 E]]; [by rewrite E in IHn|]. exists (c :: l1). simpl. by rewrite <- E.
  - destruct (Z.eqb_spec c 47) as [->|]; [split; [done|right; by exists []]|]. split; [set_solver|by left].
Qed.
Lemma basename_app l1 l2 : 47 ∉ l2 → basename (l1 ++ 47 :: l2) = l2.
Proof.
  intros H. induction l1 as [|c l1 IH]; simpl.
  - rewrite bool_decide_false by done. done.
  - rewrite bool_decide_true by set_solver. done.
Qed.
Lemma before0_spec l : 0 ∉ before0 l ∧ ∃ r, l = before0 l ++ r ∧ (r = [] ∨ ∃ r', r = 0 :: r').
Proof.
  induction l as [|c l (IHn&r&IHr&Hr)]; simpl; [split; [set_solver|exists []; auto]|].
  destruct (Z.eqb_spec c 0) as [->|]; [split; [set_solver|exists (0 :: l); eauto]|].
  split; [set_solver|]. exists r. split; [by rewrite IHr at 1|done].
Qed.

(** ** Memory *)

Definition apart (a n b k : Z) : Prop := a + n ≤ b ∨ b + k ≤ a.
Lemma apart_sub a n b k a' n' b' k' : apart a n b k → a ≤ a' → a' + n' ≤ a + n → b ≤ b' → b' + k' ≤ b + k → apart a' n' b' k'.
Proof. unfold apart. lia. Qed.
Lemma apart_sym a n b k : apart a n b k → apart b k a n.
Proof. unfold apart. tauto. Qed.
Lemma apart_out a n b k x : apart a n b k → b ≤ x < b + k → x < a ∨ a + n ≤ x.
Proof. unfold apart. lia. Qed.
(** Parts of ranges that [H] keeps apart. *)
Ltac sep H := first [eapply (apart_sub _ _ _ _ _ _ _ _ H); lia | eapply apart_sym, (apart_sub _ _ _ _ _ _ _ _ H); lia].
(** [m'] differs from [m] in the [n] bytes from [a] only. *)
Definition only (a n : Z) (m m' : mem) : Prop := ∀ x, x < a ∨ a + n ≤ x → m' x = m x.

Lemma ulen_ok a l s Q E : cstr (us_mem s) a l → (length l < MAXSTR)%nat → Q (Z.of_nat (length l)) s → wpu (ulen a) Q E s.
Proof.
  intros Ha Hl HQ. unfold ulen. wpu_steps.
  change (ustrlen (us_mem s) a MAXSTR) with (strlen_from (us_mem s) a 0 MAXSTR).
  rewrite (strlen_from_cstr _ _ 0 l) by (done || by rewrite Z.add_0_r). by apply wpu_ret.
Qed.
Lemma ustr_ok a l s Q E : cstr (us_mem s) a l → (length l < MAXSTR)%nat → Q l s → wpu (ustr a) Q E s.
Proof.
  intros Ha Hl HQ. unfold ustr. wpu_steps. eapply ulen_ok; [done|done|]. wpu_steps.
  rewrite Nat2Z.id. apply cstr_iff in Ha as [-> _]. done.
Qed.

Lemma last_slash_ok m path q p (fuel : nat) : path - 1 ≤ q ≤ p → (q = path - 1 ∨ m q = 47) → (∀ x, q < x ≤ p → m x ≠ 47) →
  p - q < fuel → last_slash m path p fuel = Some q.
Proof.
  intros Hq Hm Hx. revert p Hq Hx. induction fuel as [|fuel IH]; intros p Hq Hx Hf; [lia|]. simpl.
  destruct (decide (p = q)) as [->|Hne].
  - destruct Hm as [->|Hm]; [|rewrite Hm, andb_false_r; done].
    replace (path - 1 >=? path) with false by lia. done.
  - replace (p >=? path) with true by lia. specialize (Hx p ltac:(lia)) as Hp. zbool. simpl.
    apply IH; [lia| |lia]. intros x ?. apply Hx. lia.
Qed.

Lemma cstr_app_r m a l1 l2 : cstr m a (l1 ++ l2) → cstr m (a + length l1) l2.
Proof.
  revert a. induction l1 as [|c l1 IH]; intros a; simpl; [by rewrite Z.add_0_r|].
  intros (_&_&H). apply IH in H. by replace (a + S (length l1)) with (a + 1 + length l1) by lia.
Qed.
Lemma cstr_lookup m a l (i : nat) : cstr m a l → (i < length l)%nat → m (a + i) = l !!! i.
Proof.
  intros H Hi. apply cstr_iff in H as (H&_&_). assert (l !! i = Some (m (a + i))) as E by (rewrite <- H; by apply read_bytes_lookup).
  by rewrite list_lookup_total_alt, E.
Qed.

Lemma umemset_at m d c n x : 0 ≤ n → umemset m d c n x = if bool_decide (d ≤ x < d + n) then u8 c else m x.
Proof. exact (memset_at m d c n x). Qed.

(** Where the name of a path starts. *)
Lemma basename_at m a l : cstr m a l →
  (length (basename l) ≤ length l)%nat ∧ cstr m (a + (length l - length (basename l))) (basename l) ∧
  last_slash m a (a + length l) (Z.to_nat (length l) + 2) = Some (a + (length l - length (basename l)) - 1).
Proof.
  intros Ha. destruct (basename_cases l) as [Hn Hb]. set (b := basename l) in *.
  assert (length b ≤ length l)%nat as Hlb by (destruct Hb as [->|[l1 E]]; [done|rewrite E, length_app; simpl; lia]).
  assert (cstr m (a + (length l - length b)) b) as Hcb.
  { destruct Hb as [E|[l1 E]]; [rewrite E; by replace (a + _) with a by lia|].
    rewrite E, (cons_middle 47), app_assoc in Ha. apply cstr_app_r in Ha. rewrite length_app in Ha.
    rewrite E. rewrite length_app. simpl in *. by replace (a + (_ - _)) with (a + (length l1 + 1)%nat) by lia. }
  split_and!; [done|done|]. apply last_slash_ok; [lia|..|lia].
  - destruct Hb as [E|[l1 E]]; [left; rewrite E; lia|right]. rewrite E in Ha. rewrite E, length_app. simpl.
    replace (a + _ - 1) with (a + length l1) by lia. apply cstr_app_r in Ha. by destruct Ha as [? _].
  - intros x Hx Hx'. assert (∃ i : nat, x = a + (length l - length b) + i ∧ (i ≤ length b)%nat) as (i&->&Hi).
    { exists (Z.to_nat (x - (a + (length l - length b)))). lia. }
    destruct (decide (i = length b)) as [->|Hne]; [by rewrite (cstr_end _ _ b Hcb) in Hx'|].
    rewrite (cstr_lookup _ _ _ _ Hcb) in Hx' by lia. apply Hn. rewrite <- Hx'. apply list_elem_of_lookup_total_2. lia.
Qed.

(** The name moved to a buffer and padded there. *)
Lemma pad_at m d p b : cstr m p b → (length b < 14)%nat → bytes_ok m → m (d + 14) = 0 → apart p (length b + 1) d 15 →
  let m1 := umemmove m d p (length b) in let m2 := umemset m1 (d + length b) 32 (14 - length b) in
  cstr m1 p b ∧ cstr m2 d (pad b) ∧ bytes_ok m2 ∧ only d 14 m m2.
Proof.
  intros Hb Hl Hm H0 Hap m1 m2. unfold apart in Hap.
  assert (∀ x, m1 x = if bool_decide (d ≤ x < d + length b) then m (p + (x - d)) else m x) as Hm1
    by (intros; by apply umemmove_at; [|lia]).
  assert (∀ x, m2 x = if bool_decide (d + length b ≤ x < d + 14) then 32 else m1 x) as Hm2.
  { intros x. unfold m2. rewrite umemset_at by lia. by replace (d + length b + (14 - length b)) with (d + 14) by lia. }
  split_and!.
  - eapply cstr_ext; [|exact Hb]. intros x Hx. rewrite Hm1, bool_decide_false; [done|]. lia.
  - assert (length (pad b) = 14%nat) as Hp by (unfold pad; rewrite length_app, length_replicate; lia).
    apply cstr_intro; [|rewrite Hp, Hm2, Hm1, !bool_decide_false by lia; done].
    intros i c Hi. unfold pad in Hi. apply lookup_app_Some in Hi as [Hi|[Hi1 Hi]].
    + pose proof (lookup_lt_Some _ _ _ Hi). rewrite Hm2, Hm1, bool_decide_false, bool_decide_true by lia.
      replace (p + (d + i - d)) with (p + i) by lia. rewrite (cstr_lookup _ _ _ _ Hb) by done.
      apply cstr_iff in Hb as (_&Hz&_). rewrite (list_lookup_total_correct _ _ _ Hi). split; [done|].
      intros ->. by apply Hz, (list_elem_of_lookup_2 _ i).
    + apply lookup_replicate in Hi as [-> Hlt].
      rewrite Hm2, bool_decide_true by lia. done.
  - apply (memset_bytes_ok m1). by apply umemmove_bytes_ok.
  - intros x Hx. rewrite Hm2, Hm1, !bool_decide_false by lia. done.
Qed.

Section ls_ok.
Variables fmtbuf buf de st : Z.

(** [fmtname] answers a string of the padded name, and writes to its static
    buffer only. *)
Lemma fmtname_ok a l s : cstr (us_mem s) a l → (length l < MAXSTR)%nat → bytes_ok (us_mem s) → us_mem s (fmtbuf + 14) = 0 →
  apart a (length l + 1) fmtbuf 15 →
  wpu (fmtname fmtbuf a) (λ p s', ∃ m', s' = set_umem m' s ∧ cstr m' p (pad (basename l)) ∧ bytes_ok m' ∧
    only fmtbuf 14 (us_mem s) m') (λ _ _, False) s.
Proof.
  intros Ha Hl Hm H0 Hap. unfold fmtname. apply wpu_bind. eapply ulen_ok; [done|done|]. wpu_steps.
  destruct (basename_at _ _ _ Ha) as (Hlb&Hcb&->). set (b := basename l) in *.
  replace (a + (length l - length b) - 1 + 1) with (a + (length l - length b)) by lia. set (p := a + (length l - length b)) in *.
  assert (length b < MAXSTR)%nat by lia. apply wpu_bind. eapply ulen_ok; [done|done|]. unfold DIRSIZ.
  destruct (Z.geb_spec (length b) 14) as [Hge|Hlt].
  { wpu_steps. exists (us_mem s). split_and!; [by destruct s| |done|by intros ?]. unfold pad.
    replace (14 - length b)%nat with O by lia. by rewrite app_nil_r. }
  destruct (pad_at (us_mem s) fmtbuf p b) as (Hm1&Hm2&?&?); [done|lia|done|done|sep Hap|].
  apply wpu_bind. eapply ulen_ok; [done|done|]. wpu_steps.
  eapply ulen_ok; [done|done|]. wpu_steps. eapply ulen_ok; [done|done|]. wpu_steps. eauto 10.
Qed.

(** *** The fields of a file *)

Definition stat_ok (x : ustat) : Prop :=
  - 2 ^ 15 ≤ ust_type x < 2 ^ 15 ∧ 0 ≤ ust_ino x < 2 ^ 31 ∧ 0 ≤ ust_size x < 2 ^ 31.
(** The struct at [st] holds [x]. *)
Definition holds_stat (x : ustat) (m : mem) : Prop :=
  s16 (load_le m (st + 8) 2) = ust_type x ∧ load_le m (st + 4) 4 = ust_ino x ∧ load_le m (st + 16) 8 = ust_size x.

Lemma put_stat_only p x m : only st 24 m (put_stat p x st m).
Proof.
  intros a Ha. unfold put_stat. rewrite store_le_other by lia. rewrite write_bytes_at, decide_False.
  - by rewrite !store_le_other by lia.
  - rewrite length_take. lia.
Qed.
Lemma put_stat_bytes_ok p x m : bytes_ok m → bytes_ok (put_stat p x st m).
Proof. intros. unfold put_stat. auto 10 using store_le_bytes_ok, write_bytes_ok. Qed.
Lemma load_le_write_other m a l b (k : nat) : b + k ≤ a ∨ a + length l ≤ b → load_le (write_bytes m a l) b k = load_le m b k.
Proof. intros. apply load_le_ext. intros x ?. rewrite write_bytes_at, decide_False by lia. done. Qed.
Lemma put_stat_holds p x m : stat_ok x → holds_stat x (put_stat p x st m).
Proof.
  intros (Ht&Hi&Hs). unfold holds_stat, put_stat. pose proof (length_take p 4).
  rewrite (load_store_le _ (st + 16)), (load_store_le_other _ (st + 16) _ _ (st + 8)), (load_store_le_other _ (st + 16) _ _ (st + 4)) by lia.
  rewrite !load_le_write_other by lia. rewrite !(load_store_le_other _ (st + 10)) by lia.
  rewrite load_store_le, (load_store_le_other _ (st + 8)), load_store_le by lia.
  rewrite (Z.mod_small (ust_ino x)), (Z.mod_small (ust_size x)) by lia. split_and!; try done.
  change (256 ^ 2%nat) with (2 ^ 16). unfold swrap. rewrite Z.add_mod_idemp_l by lia. by apply (swrap_small 16).
Qed.
Lemma holds_stat_ext x m m' a n : only a n m m' → apart st 24 a n → holds_stat x m → holds_stat x m'.
Proof.
  intros Ho Ha. unfold holds_stat, apart in *.
  rewrite !(load_le_ext m' m) by (intros; apply Ho; lia). done.
Qed.

(** Files and descriptors are the same. *)
Definition same_fds (s s' : ustate) : Prop :=
  us_file s' = us_file s ∧ us_wr s' = us_wr s ∧ w_stat (us_world s') = w_stat (us_world s) ∧ ∀ fd, us_in s' fd = us_in s fd.

(** What [stat] finds. *)
Definition stat_of (s : ustate) (name : list Z) : option ustat :=
  match us_file s name with Some _ => w_stat (us_world s) name | None => None end.

Lemma lowest_free_spec f fd k r : lowest_free f fd k = Some r → f r = None ∧ fd ≤ r.
Proof.
  revert fd. induction k as [|k IH]; intros fd; simpl; [done|]. destruct (f fd) eqn:E; [|intros [= <-]; by split].
  intros H%IH. split; [apply H|lia].
Qed.

Lemma stat_ok_spec name s : lowest_free (us_in s) 0 (Z.to_nat NOFILE) ≠ None →
  wpu (stat name st) (λ r s', same_fds s s' ∧ us_out s' = us_out s ∧
    match stat_of s name with
    | None => r = -1 ∧ us_mem s' = us_mem s
    | Some x => r = 0 ∧ us_mem s' = put_stat (w_pad (us_world s)) x st (us_mem s)
    end) (λ _ _, False) s.
Proof.
  intros Hf. destruct (lowest_free _ _ _) as [fd|] eqn:Efd; [|done]. apply lowest_free_spec in Efd as Hfd.
  unfold stat, stat_of. apply wpu_bind. unfold open, wpu at 1. rewrite Efd.
  destruct (us_file s name) as [c|] eqn:Ec; [|done]. replace (fd <? 0) with false by lia.
  apply wpu_bind. unfold fstat, wpu at 1. cbn [us_in us_world set_uworld set_uin set_wpath w_path w_stat w_pad].
  rewrite !fn_lookup_insert.
  destruct (w_stat _ name) as [x|]; apply wpu_bind; unfold close, wpu at 1; cbn [us_in set_umem set_uworld set_uin];
    rewrite fn_lookup_insert; apply wpu_ret; unfold same_fds; cbn; (split_and!; try done);
    intros fd'; (destruct (decide (fd' = fd)) as [->|]; [rewrite fn_lookup_insert; by destruct Hfd|by rewrite !fn_lookup_insert_ne]).
Qed.

(** *** Lines *)

Lemma prints_cannot_stat fd path : Forall (λ c, 0 ≤ c < 256) path →
  prints fd (fprintf fd (lit "ls: cannot stat %s" ++ [10]) [VStr (Some path)]) (lit "ls: cannot stat " ++ path ++ [10]).
Proof. intros H. prints_go. Qed.
Lemma prints_cannot_open path : Forall (λ c, 0 ≤ c < 256) path →
  prints 2 (fprintf 2 (lit "ls: cannot open %s" ++ [10]) [VStr (Some path)]) (lit "ls: cannot open " ++ path ++ [10]).
Proof. intros H. prints_go. Qed.
Lemma prints_too_long : prints 1 (printf (lit "ls: path too long" ++ [10]) []) (lit "ls: path too long" ++ [10]).
Proof. prints_go. Qed.

Definition ls_line (name : list Z) (x : ustat) : list Z :=
  pad name ++ [32] ++ show_int (ust_type x) ++ [32] ++ show_int (ust_ino x) ++ [32] ++ show_int (ust_size x) ++ [10].

Definition prints_line (fmt : list Z) : Prop := ∀ name x, Forall (λ c, 0 ≤ c < 256) (pad name) → stat_ok x →
  prints 1 (printf fmt [VStr (Some (pad name)); VInt (ust_type x); VInt (ust_ino x); VInt (ust_size x)]) (ls_line name x).

Lemma prints_line_d : prints_line (lit "%s %d %d %d" ++ [10]).
Proof. intros name x Hn (?&?&?). unfold ls_line. prints_go. Qed.
Lemma prints_l fd z fmt ap l : 0 ≤ z < 2 ^ 31 → prints fd (vprintf_loop fd fmt false ap) l →
  prints fd (vprintf_loop fd (37 :: 108 :: fmt) false (VInt z :: ap)) (show_int z ++ l).
Proof.
  intros Hz Hl. cbn [vprintf_loop]. change (directive fd 108 (VInt z :: ap)) with (printint fd (s32 (u64 z)) 10 false ;; mret ap).
  rewrite (wrap_small 64 z), (swrap_small 32 z) by lia. apply prints_then; [|done].
  replace (printint fd z 10 false) with (printint fd z 10 true); [apply prints_printint_d; lia|].
  unfold printint. cbn [andb]. by replace (z <? 0) with false by lia.
Qed.
Lemma prints_line_l : prints_line (lit "%s %d %d %l" ++ [10]).
Proof. intros name x Hn (?&?&?). unfold ls_line. prints_go. apply prints_l; [lia|]. prints_go. Qed.

Lemma cstr_bytes m a l : bytes_ok m → cstr m a l → Forall (λ c, 0 ≤ c < 256) l.
Proof.
  intros Hm H. apply cstr_iff in H as (<-&_&_). apply Forall_lookup. intros i c Hi.
  pose proof (lookup_lt_Some _ _ _ Hi) as Hlt. rewrite length_read_bytes in Hlt. rewrite read_bytes_lookup in Hi by done. injection Hi as <-. apply Hm.
Qed.

Lemma length_pad l : (length (pad l) ≤ length l + 14)%nat.
Proof. unfold pad. rewrite length_app, length_replicate. lia. Qed.

Hypothesis st_fmtbuf : apart st 24 fmtbuf 15.

Lemma ls_print_ok fmt a l x s : prints_line fmt → stat_ok x → holds_stat x (us_mem s) → us_wr s 1 = true →
  cstr (us_mem s) a l → (length l + 14 < MAXSTR)%nat → bytes_ok (us_mem s) → us_mem s (fmtbuf + 14) = 0 →
  apart a (length l + 1) fmtbuf 15 →
  wpu (ls_print fmtbuf st fmt a) (λ _ s', ∃ m', s' = add_uout 1 (ls_line (basename l) x) (set_umem m' s) ∧ bytes_ok m' ∧
    only fmtbuf 14 (us_mem s) m') (λ _ _, False) s.
Proof.
  intros Hfmt Hx Hst Hw Ha Hl Hm H0 Hap. unfold ls_print. apply wpu_bind.
  eapply wpu_mono; [apply fmtname_ok; try done; lia| |done]. intros p s' (m'&->&Hp&Hm'&Ho).
  pose proof (basename_at _ _ _ Ha) as (Hlb&_&_). pose proof (length_pad (basename l)).
  apply wpu_bind. eapply ustr_ok; [exact Hp|lia|]. unfold get_type, get_ino, get_size. wpu_steps. cbn [us_mem set_umem].
  assert (holds_stat x m') as (->&->&->) by (eapply holds_stat_ext; [exact Ho|sep st_fmtbuf|done]).
  unfold wpu. rewrite Hfmt; [eauto|by eapply cstr_bytes|done|done].
Qed.

Lemma read_bytes_intro m a l : (∀ (i : nat) c, l !! i = Some c → m (a + i) = c) → read_bytes m a (length l) = l.
Proof.
  revert a. induction l as [|c l IH]; intros a H; simpl; [done|]. f_equal; [rewrite <- (Z.add_0_r a); by apply (H 0%nat)|].
  apply IH. intros i c' Hi. replace (a + 1 + i) with (a + S i) by lia. by apply (H (S i)).
Qed.

(** *** Directory entries *)

Definition inum_of (e : list Z) : Z := e !!! 0%nat + 256 * e !!! 1%nat.
Definition name_of (e : list Z) : list Z := before0 (drop 2 e).
Definition entry_ok (e : list Z) : Prop := length e = 16%nat ∧ Forall (λ c, 0 ≤ c < 256) e ∧ 47 ∉ name_of e.
(** A directory whose entries arrive in pieces of one or more. *)
Definition dir_of (pieces : list (list (list Z))) : stream := (λ rs, Some (concat rs)) <$> pieces.

Lemma take_dir r rs ps : length r = 16%nat → Forall (λ r, length r = 16%nat) rs →
  take_chunk 16 (dir_of ((r :: rs) :: ps)) = (16, r, dir_of (match rs with [] => ps | _ => rs :: ps end)).
Proof.
  intros Hr Hrs. simpl. change (Z.to_nat 16) with 16%nat. rewrite <- Hr, take_app_length, drop_app_length, Hr.
  destruct rs as [|r' rs]; [done|]. apply Forall_cons in Hrs as [Hr' _]. simpl. destruct (r' ++ concat rs) eqn:E; [|done].
  apply app_eq_nil in E as [-> _]. done.
Qed.

Hypothesis de_fmtbuf : apart de 16 fmtbuf 15.
Hypothesis buf_fmtbuf : apart buf 512 fmtbuf 15.
Hypothesis de_buf : apart de 16 buf 512.
Hypothesis st_buf : apart st 24 buf 512.

Section entries.
Variable dirname : list Z.
Hypothesis dirname_len : (length dirname + 16 ≤ 512)%nat.
Hypothesis dirname_0 : 0 ∉ dirname.

(** What the loop keeps in memory. *)
Definition ls_inv (m : mem) : Prop :=
  bytes_ok m ∧ m (fmtbuf + 14) = 0 ∧ read_bytes m buf (length dirname + 1) = dirname ++ [47].

Lemma ls_inv_only a n m m' : ls_inv m → only a n m m' → bytes_ok m' → apart a n buf (length dirname + 1) → apart a n (fmtbuf + 14) 1 →
  ls_inv m'.
Proof.
  intros (Hb&H0&Hr) Ho Hb' Ha Ha'. split_and!; [done|rewrite Ho by (apply (apart_out _ _ _ _ _ Ha'); lia); done|].
  rewrite <- Hr. apply read_bytes_ext. intros j Hj. apply Ho, (apart_out _ _ _ _ _ Ha). lia.
Qed.

Definition entry_mem (e : list Z) (m : mem) : mem :=
  store8 (umemmove (write_bytes m de e) (buf + length dirname + 1) (de + 2) 14) (buf + length dirname + 1 + 14) 0.

Lemma entry_mem_at e m x : length e = 16%nat → bytes_ok m → ls_inv m →
  entry_mem e m x = (if bool_decide (x = buf + length dirname + 15) then 0
    else if bool_decide (buf + length dirname + 1 ≤ x < buf + length dirname + 15) then u8 (e !!! Z.to_nat (x - (buf + length dirname + 1) + 2))
    else write_bytes m de e x).
Proof.
  intros He Hm Hi. unfold entry_mem. unfold apart in de_buf. case_bool_decide as Hx.
  { subst x. replace (_ + 1 + 14) with (buf + length dirname + 15) by lia. by rewrite store8_eq. }
  rewrite store8_ne by lia. rewrite umemmove_at by (try apply write_bytes_ok; done).
  replace (_ + 1 + 14) with (buf + length dirname + 15) by lia. case_bool_decide; [|done].
  rewrite write_bytes_at, decide_True by lia. do 3 f_equal. lia.
Qed.

Lemma entry_path e m : entry_ok e → ls_inv m →
  ls_inv (entry_mem e m) ∧ cstr (entry_mem e m) buf (dirname ++ [47] ++ name_of e).
Proof.
  intros (He&Hb&_) Hi. pose proof Hi as (Hm&H0&Hr).
  assert (bytes_ok (entry_mem e m)) as Hm' by (apply store8_bytes_ok, umemmove_bytes_ok, write_bytes_ok; done).
  assert (ls_inv (entry_mem e m)) as Hi'.
  { apply (ls_inv_only de 16 m (write_bytes m de e)) in Hi as Hi1; [|intros x Hx; rewrite write_bytes_at, decide_False by lia; reflexivity|by apply write_bytes_ok|sep de_buf|sep de_fmtbuf].
    eapply (ls_inv_only (buf + length dirname + 1) 15); [exact Hi1| |done|unfold apart; lia|sep buf_fmtbuf].
    intros x Hx. rewrite entry_mem_at, !bool_decide_false by (done || lia). done. }
  split; [done|]. destruct Hi' as (_&_&Hr'). destruct (before0_spec (drop 2 e)) as (Hn0&rest&Hrest&Hz).
  fold (name_of e) in Hn0, Hrest. assert (Hlen := f_equal length Hrest). rewrite length_app, length_drop, He in Hlen.
  assert (∀ k : nat, (k < 14)%nat → entry_mem e m (buf + length dirname + 1 + k) = u8 (drop 2 e !!! k)) as Hk.
  { intros k ?. rewrite entry_mem_at, bool_decide_false, bool_decide_true by (done || lia).
    rewrite lookup_total_drop. do 2 f_equal. lia. }
  assert (Forall (λ c, 0 ≤ c < 256) (drop 2 e)) as Hbd by by apply Forall_drop.
  apply cstr_iff. split_and!.
  - replace (length (dirname ++ [47] ++ name_of e)) with (length dirname + 1 + length (name_of e))%nat by (rewrite !length_app; simpl; lia).
    rewrite read_bytes_app, Hr', <- app_assoc. do 2 f_equal. apply read_bytes_intro. intros j c Hj.
    pose proof (lookup_lt_Some _ _ _ Hj). replace (buf + (length dirname + 1)%nat + j) with (buf + length dirname + 1 + j) by lia.
    rewrite Hk by lia. assert (drop 2 e !! j = Some c) as Hjc by (rewrite Hrest, lookup_app_l by lia; done).
    rewrite (list_lookup_total_correct _ _ _ Hjc). apply wrap_small. by apply (Forall_lookup_1 _ _ j c Hbd).
  - rewrite !not_elem_of_app. split_and!; [done|set_solver|done].
  - replace (buf + length _) with (buf + length dirname + 1 + length (name_of e)) by (rewrite !length_app; simpl; lia).
    destruct Hz as [->|[r' ->]]; simpl in Hlen.
    + rewrite entry_mem_at, bool_decide_true by (done || lia). done.
    + rewrite Hk by lia. rewrite Hrest, lookup_total_app_r, Nat.sub_diag by lia. done.
Qed.

Lemma entry_inum e m : length e = 16%nat → Forall (λ c, 0 ≤ c < 256) e → load_le (write_bytes m de e) de 2 = inum_of e.
Proof.
  intros He Hb. unfold load_le, inum_of. rewrite !write_bytes_at, !decide_True by lia.
  rewrite Z.sub_diag. replace (de + 1 - de) with 1 by lia. change (Z.to_nat 0) with 0%nat. change (Z.to_nat 1) with 1%nat.
  assert (∀ k, (k < 16)%nat → u8 (e !!! k) = e !!! k) as Hu.
  { intros k Hk. apply wrap_small. apply (Forall_lookup_total_1 _ e k Hb). lia. }
  rewrite !Hu by lia. lia.
Qed.

(** The line of an entry. *)
Definition entry_line (s : ustate) (e : list Z) : list Z :=
  if inum_of e =? 0 then []
  else let path := dirname ++ [47] ++ name_of e in
    match stat_of s path with
    | None => lit "ls: cannot stat " ++ path ++ [10]
    | Some x => ls_line (name_of e) x
    end.

(** One entry: its line is printed, and the loop goes on. *)
Definition entry_body (p : Z) (k : U unit) : U unit :=
  inum ← get_inum de;
  if inum =? 0 then k
  else
    umodify (λ s, set_umem (umemmove (us_mem s) p (de + 2) DIRSIZ) s) ;;
    ustore (p + DIRSIZ) 0 ;;
    name ← ustr buf;
    r ← stat name st;
    if r <? 0 then printf (lit "ls: cannot stat %s" ++ [10]) [VStr (Some name)] ;; k
    else ls_print fmtbuf st (lit "%s %d %d %d" ++ [10]) buf ;; k.

Definition stats_ok (s : ustate) : Prop := ∀ p x, w_stat (us_world s) p = Some x → stat_ok x.
Lemma stat_of_ok s p x : stats_ok s → stat_of s p = Some x → stat_ok x.
Proof. unfold stat_of. intros Hs. destruct (us_file s p); [apply Hs|done]. Qed.

Lemma entry_path_len e : entry_ok e → length (dirname ++ [47] ++ name_of e) < 512.
Proof.
  intros (He&_&_). destruct (before0_spec (drop 2 e)) as (_&r&Hr&_). apply (f_equal length) in Hr. fold (name_of e) in Hr.
  rewrite !length_app, length_drop in *. simpl. lia.
Qed.

Lemma entry_body_ok e m k s Q E : entry_ok e → ls_inv m → us_mem s = write_bytes m de e → us_wr s 1 = true → stats_ok s →
  lowest_free (us_in s) 0 (Z.to_nat NOFILE) ≠ None →
  (∀ s', same_fds s s' → ls_inv (us_mem s') → us_out s' = us_out s ++ map (pair 1) (entry_line s e) → wpu k Q E s') →
  wpu (entry_body (buf + length dirname + 1) k) Q E s.
Proof.
  intros He Hi Em Hw Hst Hfree Hk. pose proof He as (Hl&Hb&Hs). unfold entry_body, get_inum. wpu_steps.
  rewrite Em, entry_inum by done. unfold entry_line in Hk. destruct (inum_of e =? 0).
  { apply Hk; [done| |by rewrite app_nil_r]. rewrite Em. eapply (ls_inv_only de 16); [exact Hi| | |sep de_buf|sep de_fmtbuf].
    - intros x Hx. rewrite write_bytes_at, decide_False by lia. done.
    - apply write_bytes_ok, Hi. }
  unfold ustore. wpu_steps. set (s1 := set_umem _ _). assert (us_mem s1 = entry_mem e m) as Em1 by (cbn; by rewrite Em).
  destruct (entry_path e m He Hi) as [Hi1 Hp]. set (path := dirname ++ [47] ++ name_of e) in *.
  pose proof (entry_path_len e He) as Hpl. fold path in Hpl.
  eapply ustr_ok; [by rewrite Em1|apply MAXSTR_lt; lia|]. apply wpu_bind. eapply wpu_mono; [by apply stat_ok_spec| |done].
  intros r s2 (Hsame&Ho&Hr). change (stat_of s1 path) with (stat_of s path) in Hr.
  assert (same_fds s s2) as Hs2 by exact Hsame.
  assert (us_wr s2 1 = true) as Hw2 by (destruct Hs2 as (_&->&_); done).
  assert (Forall (λ c, 0 ≤ c < 256) path) as Hpb by (eapply cstr_bytes; [apply Hi1|exact Hp]).
  destruct (stat_of s path) as [x|] eqn:Ex; destruct Hr as [-> Hm2]; rewrite Em1 in Hm2; apply wpu_bind.
  - assert (stat_ok x) as Hx by by eapply stat_of_ok.
    assert (ls_inv (us_mem s2)) as Hi2.
    { rewrite Hm2. eapply (ls_inv_only st 24); [exact Hi1|apply put_stat_only|apply put_stat_bytes_ok, Hi1|sep st_buf|sep st_fmtbuf]. }
    eapply wpu_mono; [apply (ls_print_ok _ buf path x); [apply prints_line_d|done| |done| |apply MAXSTR_lt; lia|apply Hi2|apply Hi2|sep buf_fmtbuf]| |done].
    + rewrite Hm2. by apply put_stat_holds.
    + eapply cstr_ext; [|exact Hp]. intros a Ha. rewrite Hm2. symmetry. apply put_stat_only, (apart_out _ _ _ _ _ st_buf). lia.
    + intros _ s3 (m3&->&Hm3&Ho3). apply Hk; [exact Hs2| |].
      * cbn [us_mem add_uout set_umem]. eapply (ls_inv_only fmtbuf 14); [exact Hi2|done|done|sep buf_fmtbuf|unfold apart; lia].
      * cbn [us_out add_uout set_umem]. rewrite Ho. do 3 f_equal. unfold path. apply basename_app, Hs.
  - unfold wpu at 1. rewrite (prints_cannot_stat 1) by done. apply Hk; [exact Hs2| |].
    + cbn [us_mem add_uout]. by rewrite Hm2.
    + cbn [us_out add_uout]. by rewrite Ho.
Qed.

Lemma lowest_free_ext f g fd k : (∀ x, f x = None ↔ g x = None) → lowest_free f fd k = lowest_free g fd k.
Proof.
  intros H. revert fd. induction k as [|k IH]; intros fd; simpl; [done|].
  destruct (f fd) eqn:Ef, (g fd) eqn:Eg; [apply IH| | |done]; [apply H in Eg|apply H in Ef]; congruence.
Qed.

(** Files and descriptors are the same, but for what is left to read from [fd]. *)
Definition same_but (fd : Z) (s s' : ustate) : Prop :=
  us_file s' = us_file s ∧ us_wr s' = us_wr s ∧ w_stat (us_world s') = w_stat (us_world s) ∧
  (∀ fd', fd' ≠ fd → us_in s' fd' = us_in s fd') ∧ us_in s' fd ≠ None.

Lemma same_files_but_trans fd s1 s2 s3 : same_but fd s1 s2 → same_but fd s2 s3 → same_but fd s1 s3.
Proof.
  intros (?&?&?&H&_) (?&?&?&H'&?). split_and!; [congruence..| |done]. intros fd' ?. by rewrite H', H.
Qed.
Lemma same_fds_but fd s s' : same_fds s s' → us_in s fd ≠ None → same_but fd s s'.
Proof. intros (?&?&?&H) Hin. split_and!; auto. by rewrite H. Qed.

Lemma ls_entries_ok fd pieces fuel s : Forall (λ p, p ≠ []) pieces → Forall entry_ok (concat pieces) →
  us_in s fd = Some (dir_of pieces) → ls_inv (us_mem s) → us_wr s 1 = true → stats_ok s →
  lowest_free (us_in s) 0 (Z.to_nat NOFILE) ≠ None → (length (concat pieces) < fuel)%nat →
  wpu (ls_entries fmtbuf buf de st fd (buf + length dirname + 1) fuel)
    (λ _ s', same_but fd s s' ∧ us_out s' = us_out s ++ map (pair 1) (concat (entry_line s <$> concat pieces))) (λ _ _, False) s.
Proof.
  revert pieces s. induction fuel as [|fuel IH]; intros pieces s Hne Hok Hin Hi Hw Hst Hfree Hf; [lia|].
  cbn [ls_entries]. apply wpu_bind. eapply wpu_read; [done|]. unfold sizeof_dirent.
  destruct pieces as [|[|r rs] ps]; [|by apply Forall_cons in Hne as [? _]|].
  { simpl. apply wpu_ret. rewrite app_nil_r. split; [|done]. split_and!; try done; cbn.
    - intros fd' ?. by rewrite fn_lookup_insert_ne.
    - by rewrite fn_lookup_insert. }
  apply Forall_cons in Hne as [_ Hne]. change (concat ((r :: rs) :: ps)) with (r :: rs ++ concat ps) in *.
  apply Forall_cons in Hok as [Hr Hok]. set (ps' := match rs with [] => ps | _ => rs :: ps end).
  assert (concat ps' = rs ++ concat ps) as Eps by (unfold ps'; by destruct rs).
  rewrite take_dir; [|apply Hr|apply Forall_app in Hok as [Hrs _]; eapply Forall_impl; [exact Hrs|]; by intros ? []].
  fold ps'. change (16 =? 16) with true. cbv iota.
  set (s1 := set_uin _ _ _). assert (us_mem s1 = write_bytes (us_mem s) de r) as Em1 by done.
  assert (same_but fd s s1) as Hs1.
  { split_and!; try done; cbn; [intros fd' ?; by rewrite fn_lookup_insert_ne|by rewrite fn_lookup_insert]. }
  assert (∀ s2, same_but fd s s2 → lowest_free (us_in s2) 0 (Z.to_nat NOFILE) ≠ None) as Hfree2.
  { intros s2 (_&_&_&Hi2&Hn2). rewrite (lowest_free_ext _ (us_in s)); [done|]. intros x.
    destruct (decide (x = fd)) as [->|]; [rewrite Hin; naive_solver|by rewrite Hi2]. }
  apply (entry_body_ok r (us_mem s)); [done|done|done|done|done|by apply Hfree2|].
  intros s2 Hs2 Hi2 Ho2. assert (us_in s2 fd = Some (dir_of ps')) as Hin2.
  { destruct Hs2 as (_&_&_&->). cbn. by rewrite fn_lookup_insert. }
  assert (same_but fd s s2) as Hs12 by (eapply same_files_but_trans; [exact Hs1|by apply same_fds_but; [|apply Hs1]]).
  pose proof Hs12 as (Ef&Ew&Es&_&_).
  eapply wpu_mono; [apply (IH ps' s2); [|by rewrite Eps|done|done|by rewrite Ew|intros p x; rewrite Es; apply Hst|by apply Hfree2|rewrite Eps; simpl in Hf; lia]| |done].
  { unfold ps'. destruct rs; [done|by constructor]. }
  intros _ s3 [Hs3 Ho3]. split; [by eapply same_files_but_trans|]. rewrite Ho3, Ho2, Eps. simpl.
  assert (∀ e, entry_line s2 e = entry_line s e) as He by (intros e; unfold entry_line, stat_of; by rewrite Ef, Es).
  rewrite (list_fmap_ext (entry_line s2) (entry_line s)) by auto. rewrite <- app_assoc, <- map_app. done.
Qed.
End entries.

(** *** ls *)

Lemma ustrcpy_ok m d a l fuel : bytes_ok m → cstr m a l → apart d (length l + 1) a (length l + 1) → (length l < fuel)%nat →
  ∃ m', ustrcpy m d a fuel = Some m' ∧ cstr m' d l ∧ bytes_ok m' ∧ only d (length l + 1) m m'.
Proof.
  revert m d a fuel. induction l as [|c l IH]; intros m d a fuel Hm Ha Hap Hf; (destruct fuel as [|fuel]; simpl in Hf; [lia|]);
    cbn [ustrcpy cstr length] in *; rewrite store8_eq, u8_byte by done.
  - rewrite Ha. simpl. exists (store8 m d 0). split_and!; [done|by rewrite store8_eq|by apply store8_bytes_ok|].
    intros x Hx. apply store8_ne. lia.
  - destruct Ha as (Hc&Hc0&Ha). rewrite Hc. zbool.
    destruct (IH (store8 m d c) (d + 1) (a + 1) fuel) as (m'&->&Hd&Hm'&Ho); [by apply store8_bytes_ok| |unfold apart in *; lia|lia|].
    { eapply cstr_ext; [|exact Ha]. intros x Hx. rewrite store8_ne; [done|]. unfold apart in Hap. lia. }
    exists m'. split_and!; [done| |done|done|done|].
    + rewrite Ho, store8_eq by lia. rewrite <- Hc. by apply u8_byte.
    + intros x Hx. rewrite Ho by lia. apply store8_ne. lia.
Qed.

Lemma dir_of_size pieces : Forall entry_ok (concat pieces) → (length (concat pieces) ≤ stream_size (dir_of pieces))%nat.
Proof.
  induction pieces as [|p ps IH]; [simpl; lia|]. intros [Hp Hps]%Forall_app. specialize (IH Hps).
  assert (length p ≤ length (concat p))%nat.
  { clear -Hp. induction Hp as [|e p (He&_) _ IH]; simpl; [lia|]. rewrite length_app. lia. }
  unfold stream_size in *. cbn [dir_of fmap list_fmap sum_list_with concat default] in *. rewrite length_app.
  change (sum_list_with _ ((λ rs, Some (concat rs)) <$> ps)) with (sum_list_with (λ c, S (length (default [] c))) (dir_of ps)). simpl. lia.
Qed.

(** A directory to list: its entries, in the pieces they arrive in. *)
Definition directory (pieces : list (list (list Z))) : Prop :=
  Forall (λ p, p ≠ []) pieces ∧ Forall entry_ok (concat pieces).

Definition dir_output (s : ustate) (name : list Z) (pieces : list (list (list Z))) : list Z :=
  if length name + 16 >? 512 then lit "ls: path too long" ++ [10] else concat (entry_line name s <$> concat pieces).

Lemma ls_dir_ok fd path name pieces s : cstr (us_mem s) path name → (length name < MAXSTR)%nat → bytes_ok (us_mem s) →
  us_mem s (fmtbuf + 14) = 0 → apart path (length name + 1) buf 512 → directory pieces →
  us_in s fd = Some (dir_of pieces) → us_wr s 1 = true → stats_ok s → lowest_free (us_in s) 0 (Z.to_nat NOFILE) ≠ None →
  wpu (ls_dir fmtbuf buf de st fd path) (λ _ s', same_but fd s s' ∧ us_out s' = us_out s ++ map (pair 1) (dir_output s name pieces))
    (λ _ _, False) s.
Proof.
  intros Ha Hl Hm H0 Hap [Hne Hok] Hin Hw Hst Hfree. unfold ls_dir, dir_output. apply wpu_bind. eapply ulen_ok; [done|done|].
  unfold DIRSIZ, sizeof_lsbuf. replace (length name + 1 + 14 + 1) with (length name + 16) by lia. destruct (Z.gtb_spec (length name + 16) 512).
  { unfold wpu. rewrite prints_too_long by done. split; [|done]. apply same_fds_but; [done|by rewrite Hin]. }
  wpu_steps. destruct (ustrcpy_ok (us_mem s) buf path name MAXSTR) as (m1&->&Hb1&Hm1&Ho1); [done|done|sep Hap|done|].
  wpu_steps. eapply ulen_ok; [exact Hb1|done|]. unfold ustore. wpu_steps.
  set (s2 := set_umem _ _). change (us_in s2 fd) with (us_in s fd). rewrite Hin. simpl default.
  eapply wpu_mono; [apply (ls_entries_ok name) with (pieces := pieces); try done|intros _ s' [Hs' Ho']; split; [exact Hs'|exact Ho']|done].
  - lia.
  - by apply cstr_iff in Ha as (_&?&_).
  - split_and!; cbn [us_mem set_umem s2].
    + by apply store8_bytes_ok.
    + rewrite store8_ne, Ho1; [done|apply (apart_out _ _ fmtbuf 15); [sep buf_fmtbuf|lia]|].
      destruct (apart_out _ _ _ _ (fmtbuf + 14) buf_fmtbuf); lia.
    + rewrite read_bytes_app. f_equal; [|simpl; by rewrite store8_eq]. apply cstr_iff in Hb1 as (Hb1&_&_).
      transitivity (read_bytes m1 buf (length name)); [|done]. apply read_bytes_ext. intros i Hi. by rewrite store8_ne by lia.
  - pose proof (dir_of_size pieces Hok). lia.
Qed.

(** What ls prints for a path, on which descriptor. *)
Definition ls_output (s : ustate) (name : list Z) (pieces : list (list (list Z))) : list (Z * Z) :=
  match us_file s name, w_stat (us_world s) name with
  | None, _ => map (pair 2) (lit "ls: cannot open " ++ name ++ [10])
  | Some _, None => map (pair 2) (lit "ls: cannot stat " ++ name ++ [10])
  | Some _, Some x =>
      map (pair 1)
        (if (ust_type x =? T_DEVICE) || (ust_type x =? T_FILE) then ls_line (basename name) x
         else if ust_type x =? T_DIR then dir_output s name pieces
         else [])
  end.

(** The path of an argument is apart from what ls and fmtname write. *)
Definition path_apart (path : Z) (n : nat) : Prop :=
  apart path (n + 1) buf 512 ∧ apart path (n + 1) fmtbuf 15 ∧ apart path (n + 1) st 24.
(** A descriptor for the path, and another one for what is in it. *)
Definition two_free (s : ustate) : Prop :=
  ∃ fd, lowest_free (us_in s) 0 (Z.to_nat NOFILE) = Some fd ∧
    lowest_free (<[fd := Some []]> (us_in s)) 0 (Z.to_nat NOFILE) ≠ None.

Lemma close_ok fd s s' Q E : us_in s fd = None → same_but fd (set_uin fd (Some []) s) s' →
  (∀ s2, same_fds s s2 → us_out s2 = us_out s' → Q tt s2) → wpu (close fd ;; mret tt) Q E s'.
Proof.
  intros Hfd (?&?&?&Hin&Hn) HQ. unfold close. apply wpu_bind. unfold wpu at 1.
  destruct (us_in s' fd) eqn:Ein; [|done]. apply wpu_ret, HQ; [|done]. split_and!; try done. cbn. intros fd'.
  destruct (decide (fd' = fd)) as [->|Hne]; [by rewrite fn_lookup_insert|]. rewrite fn_lookup_insert_ne by done.
  rewrite Hin by done. cbn. by rewrite fn_lookup_insert_ne.
Qed.

(** The lines, when [fstat] has filled the struct. *)
Lemma ls_show_ok fd path name pieces x s : stat_ok x → holds_stat x (us_mem s) →
  cstr (us_mem s) path name → length name + 14 < 4096 → path_apart path (length name) →
  bytes_ok (us_mem s) → us_mem s (fmtbuf + 14) = 0 → us_wr s 1 = true → stats_ok s → directory pieces →
  us_in s fd ≠ None → (ust_type x = T_DIR → us_in s fd = Some (dir_of pieces)) →
  lowest_free (us_in s) 0 (Z.to_nat NOFILE) ≠ None →
  wpu (if (ust_type x =? T_DEVICE) || (ust_type x =? T_FILE) then ls_print fmtbuf st (lit "%s %d %d %l" ++ [10]) path
       else if ust_type x =? T_DIR then ls_dir fmtbuf buf de st fd path else mret tt)
    (λ _ s', same_but fd s s' ∧ us_out s' = us_out s ++ map (pair 1)
        (if (ust_type x =? T_DEVICE) || (ust_type x =? T_FILE) then ls_line (basename name) x
         else if ust_type x =? T_DIR then dir_output s name pieces
         else [])) (λ _ _, False) s.
Proof.
  intros Hx Hsx Ha Hl (Hap1&Hap2&Hap3) Hm H0 Hw Hst Hdir Hn Hin Hfree.
  destruct (_ || _).
  - eapply wpu_mono; [apply (ls_print_ok _ path name x); try done; [apply prints_line_l|apply MAXSTR_lt; lia]| |done].
    intros _ s' (m'&->&_&_). split; [|done]. by apply same_fds_but.
  - destruct (Z.eqb_spec (ust_type x) T_DIR) as [Ht|].
    + apply ls_dir_ok; try done; [apply MAXSTR_lt; lia|by apply Hin].
    + apply wpu_ret. rewrite app_nil_r. split; [|done]. by apply same_fds_but.
Qed.

(** C26: ls lists directories.  For a path that cannot be opened or examined ls
    reports so on descriptor 2.  For a file or a device it prints the last
    component of the path, padded to 14 characters, with its type, number and
    size.  For a directory it prints such a line for every entry in use, in
    order, in whatever pieces the entries arrive, with what [stat] finds under
    the path and the entry's name; it reports the entries that [stat] cannot
    examine, and a path too long for its buffer.  Every descriptor is closed
    again. *)
Theorem ls_lists (path : Z) (name : list Z) (pieces : list (list (list Z))) (s : ustate) :
  cstr (us_mem s) path name → length name + 14 < 4096 → path_apart path (length name) →
  bytes_ok (us_mem s) → us_mem s (fmtbuf + 14) = 0 → us_wr s 1 = true → us_wr s 2 = true → stats_ok s → two_free s →
  directory pieces →
  (∀ f x, us_file s name = Some f → w_stat (us_world s) name = Some x → ust_type x = T_DIR → f = dir_of pieces) →
  wpu (ls fmtbuf buf de st path) (λ _ s', us_out s' = us_out s ++ ls_output s name pieces ∧ same_fds s s') (λ _ _, False) s.
Proof.
  intros Ha Hl (Hap1&Hap2&Hap3) Hm H0 Hw1 Hw2 Hst (fd&Hfd&Hfree) Hdir Hf.
  assert (Forall (λ c, 0 ≤ c < 256) name) as Hb by by eapply cstr_bytes.
  unfold ls, ls_output. apply wpu_bind. eapply ustr_ok; [done|apply MAXSTR_lt; lia|]. apply wpu_bind. unfold open, wpu at 1. rewrite Hfd.
  destruct (us_file s name) as [f|] eqn:Ef.
  2: { change (-1 <? 0) with true. cbv iota. unfold wpu. rewrite prints_cannot_open by done. done. }
  apply lowest_free_spec in Hfd as [Hfd Hge]. replace (fd <? 0) with false by lia.
  set (s1 := set_uworld _ _). assert (us_in s1 fd = Some f) as Hin1 by (cbn; apply fn_lookup_insert).
  assert (∀ s', same_but fd s1 s' → same_but fd (set_uin fd (Some []) s) s') as Hs1.
  { intros s' (?&?&?&Hi&?). split_and!; try done. intros fd' ?. rewrite Hi by done. cbn. by rewrite !fn_lookup_insert_ne. }
  apply wpu_bind. unfold fstat, wpu at 1. rewrite Hin1. cbn [us_world set_uworld s1 set_wpath w_path w_stat]. rewrite fn_lookup_insert.
  destruct (w_stat (us_world s) name) as [x|] eqn:Ex.
  2: { change (-1 <? 0) with true. cbv iota. apply wpu_bind. unfold wpu at 1. rewrite (prints_cannot_stat 2) by done.
       eapply (close_ok fd s); [done| |intros s2 Hs2 ->; split; [done|exact Hs2]]. apply Hs1, same_fds_but; [done|by rewrite Hin1]. }
  change (0 <? 0) with false. cbv iota. set (s2 := set_umem _ _). apply wpu_bind.
  assert (stat_ok x) as Hx by by eapply Hst.
  pose proof (put_stat_holds (w_pad (us_world s)) x (us_mem s) Hx) as Hx2. unfold get_type. apply wpu_gets.
  replace (s16 (load_le (us_mem s2) (st + 8) 2)) with (ust_type x) by (symmetry; apply Hx2). apply wpu_bind.
  eapply wpu_mono; [apply (ls_show_ok fd path name pieces x s2); try assumption| |done].
  - eapply cstr_ext; [|exact Ha]. intros a Hi. symmetry. apply put_stat_only, (apart_out _ _ path (length name + 1)); [sep Hap3|lia].
  - by split_and!.
  - by apply put_stat_bytes_ok.
  - cbn [us_mem set_umem s2]. rewrite put_stat_only; [exact H0|]. apply (apart_out _ _ _ _ _ st_fmtbuf). lia.
  - change (us_in s2 fd) with (us_in s1 fd). by rewrite Hin1.
  - intros Ht. change (us_in s2 fd) with (us_in s1 fd). rewrite Hin1. f_equal. by eapply Hf.
  - rewrite (lowest_free_ext _ (<[fd := Some []]> (us_in s))); [exact Hfree|]. intros y. cbn.
    destruct (decide (y = fd)) as [->|]; [by rewrite !fn_lookup_insert|by rewrite !fn_lookup_insert_ne].
  - intros _ s3 [Hs3 Ho3]. eapply (close_ok fd s); [done|by apply Hs1|].
    intros s4 Hs4 ->. split; [exact Ho3|exact Hs4].
Qed.
End ls_ok.

(** ** An example *)

Module LsDemo.
Definition entry (inum : Z) (name : string) : list Z :=
  [inum; 0] ++ take 14 (lit name ++ repeat 0 14).
Definition pieces : list (list (list Z)) :=
  [[entry 1 "."; entry 2 "README"]; [entry 0 "gone"]; [entry 9 "secret"]].
Definition mem0 : mem := λ x, if x =? 256 then 100 else 0.
Definition files (p : list Z) : option ustat :=
  if bool_decide (p = lit "d") || bool_decide (p = lit "d/.") then Some (UStat 1 1 1 1 64)
  else if bool_decide (p = lit "d/README") then Some (UStat 1 2 2 1 2226)
  else None.
Definition state : ustate :=
  UState mem0 (λ fd, if (0 <=? fd) && (fd <? 3) then Some [] else None) [] (λ _, true)
    (λ p, if bool_decide (p = lit "d") then Some (dir_of pieces) else if files p then Some [] else None)
    (World files (λ _, []) [0; 0; 0; 0] [] (λ _, 0)).

Lemma files_ok p x : files p = Some x → stat_ok x.
Proof. unfold files. intros H. repeat (case_match; [injection H as <-; unfold stat_ok; simpl; lia|]). done. Qed.
Lemma pieces_ok : directory pieces.
Proof.
  split; [repeat constructor; done|]. repeat (constructor; [split_and!; [done|repeat constructor; lia|by apply (bool_decide_unpack _)]|]). constructor.
Qed.

Lemma ls_lists_witness :
  wpu (ls 4096 8192 12288 12544 256)
    (λ _ s', us_out s' = map (pair 1) (lit ".              1 1 64" ++ [10] ++ lit "README         2 2 2226" ++ [10] ++
      lit "ls: cannot stat d/secret" ++ [10])) (λ _ _, False) state.
Proof.
  assert (path_apart 4096 8192 12544 256 1) as Hap by (unfold path_apart, apart; lia).
  assert (bytes_ok mem0) as Hm by (intros a; unfold mem0; case_match; lia).
  eapply wpu_mono; [apply (ls_lists 4096 8192 12288 12544) with (name := lit "d") (pieces := pieces);
    first [exact Hap|exact Hm|exact files_ok|exact pieces_ok|by vm_compute|unfold apart; lia|idtac]| |done].
  - exists 3. split; [done|by vm_compute].
  - intros f x [= <-] _ _. done.
  - intros _ s' [-> _]. by vm_compute.
Defined.
End LsDemo.
