(* ===== verification/Umalloc.v ===== *)
(** * user/umalloc.c: the memory allocator of user programs

    A [union header] is known by its address: its [ptr] and its [size], in
    units of a header (16 bytes).  [base] is the address of the static header
    that starts the free list; [can_grow] says whether the kernel extends the
    process's memory from one size to another. *)
From Stdlib Require Import Sorted.
From S2P Require Import Prelude.

Definition HEADER : Z := 16.
Ltac hlia := unfold HEADER in *; lia.

Record heap := Heap {
  h_ptr : Z → Z;
  h_size : Z → Z;
  h_freep : Z;
  h_brk : Z               (* the process's size *)
}.

Definition set_ptr (a v : Z) (h : heap) : heap := Heap (<[a := v]> (h_ptr h)) (h_size h) (h_freep h) (h_brk h).
Definition set_size (a v : Z) (h : heap) : heap := Heap (h_ptr h) (<[a := u32 v]> (h_size h)) (h_freep h) (h_brk h).
Definition set_freep (v : Z) (h : heap) : heap := Heap (h_ptr h) (h_size h) v (h_brk h).
Definition set_brk (v : Z) (h : heap) : heap := Heap (h_ptr h) (h_size h) (h_freep h) v.

(** The blocks from the start of the heap: their units, header included, and
    whether they are free. *)
Abbreviation blocks := (list (Z * bool)).

Section umalloc.
Variable base : Z.
Variable can_grow : Z → Z → bool.

(** The loop of [free]: the free block that [bp] goes behind. *)
Fixpoint find_place (h : heap) (bp p : Z) (fuel : nat) : option Z :=
  match fuel with
  | O => None
  | S fuel =>
      if (bp >? p) && (bp <? h_ptr h p) then Some p
      else if (p >=? h_ptr h p) && ((bp >? p) || (bp <? h_ptr h p)) then Some p
      else find_place h bp (h_ptr h p) fuel
  end.

(** The rest of [free]: [bp] joins the list behind [p]. *)
Definition join_upper (bp p : Z) (h : heap) : heap :=
  if bp + HEADER * h_size h bp =? h_ptr h p then
    let h := set_size bp (h_size h bp + h_size h (h_ptr h p)) h in
    set_ptr bp (h_ptr h (h_ptr h p)) h
  else set_ptr bp (h_ptr h p) h.
Definition join_lower (bp p : Z) (h : heap) : heap :=
  if p + HEADER * h_size h p =? bp then
    let h := set_size p (h_size h p + h_size h bp) h in
    set_ptr p (h_ptr h bp) h
  else set_ptr p bp h.

Definition free (h : heap) (ap : Z) (fuel : nat) : option heap :=
  let bp := ap - HEADER in
  p ← find_place h bp (h_freep h) fuel;
  Some (set_freep p (join_lower bp p (join_upper bp p h))).

(** [sbrk(n)] of an [int], as the kernel's [growproc] does it: the old size,
    or -1. *)
Definition sbrk (n : Z) (h : heap) : Z * heap :=
  let sz := h_brk h in
  if n >? 0 then
    if can_grow sz (u64 (sz + n)) then (sz, set_brk (u64 (sz + n)) h) else (-1, h)
  else if n <? 0 then
    (sz, if u64 (sz + n) >=? sz then h else set_brk (u64 (sz + n)) h)
  else (sz, h).

Definition morecore (h : heap) (nu : Z) (fuel : nat) : option (Z * heap) :=
  let nu := if nu <? 4096 then 4096 else nu in
  let '(p, h) := sbrk (s32 (nu * HEADER)) h in
  if p =? -1 then Some (0, h)
  else
    let h := set_size p nu h in
    h ← free h (p + HEADER) fuel;
    Some (h_freep h, h).

(** [p] is large enough: it goes, or its upper end does. *)
Definition carve (h : heap) (nunits prevp p : Z) : Z * heap :=
  if h_size h p =? nunits then (p + HEADER, set_freep prevp (set_ptr prevp (h_ptr h p) h))
  else
    let h := set_size p (h_size h p - nunits) h in
    let p := p + HEADER * h_size h p in
    let h := set_size p nunits h in
    (p + HEADER, set_freep prevp h).

Fixpoint malloc_loop (h : heap) (nunits prevp p : Z) (fuel : nat) : option (Z * heap) :=
  match fuel with
  | O => None
  | S fuel =>
      if h_size h p >=? nunits then Some (carve h nunits prevp p)
      else if p =? h_freep h then
        '(p, h) ← morecore h nunits fuel;
        if p =? 0 then Some (0, h) else malloc_loop h nunits p (h_ptr h p) fuel
      else malloc_loop h nunits p (h_ptr h p) fuel
  end.

Definition units_of (nbytes : Z) : Z := u32 ((nbytes + HEADER - 1) / HEADER + 1).
Definition init_list (h : heap) : heap :=
  if h_freep h =? 0 then set_size base 0 (set_freep base (set_ptr base base h)) else h.
Definition malloc (h : heap) (nbytes : Z) (fuel : nat) : option (Z * heap) :=
  let h := init_list h in
  malloc_loop h (units_of nbytes) (h_freep h) (h_ptr h (h_freep h)) fuel.

(** ** The heap as a sequence of blocks *)

Fixpoint units (bs : blocks) : Z := match bs with [] => 0 | (n, _) :: bs => n + units bs end.
(** The addresses of the free blocks. *)
Fixpoint frees (a : Z) (bs : blocks) : list Z :=
  match bs with
  | [] => []
  | (n, f) :: bs => (if f then [a] else []) ++ frees (a + HEADER * n) bs
  end.
(** The blocks in use: address and units. *)
Fixpoint live (a : Z) (bs : blocks) : list (Z * Z) :=
  match bs with
  | [] => []
  | (n, f) :: bs => (if f then [] else [(a, n)]) ++ live (a + HEADER * n) bs
  end.
(** Each block's header has its size. *)
Fixpoint sized (h : heap) (a : Z) (bs : blocks) : Prop :=
  match bs with
  | [] => True
  | (n, _) :: bs => 0 < n ∧ h_size h a = n ∧ sized h (a + HEADER * n) bs
  end.
(** No two free blocks are neighbours. *)
Fixpoint apart (bs : blocks) : Prop :=
  match bs with
  | (_, f) :: bs => (f = true → match bs with (_, true) :: _ => False | _ => True end) ∧ apart bs
  | [] => True
  end.
(** Each header of the list points to the next. *)
Fixpoint linked (h : heap) (l : list Z) : Prop :=
  match l with
  | x :: l => match l with y :: _ => h_ptr h x = y | [] => True end ∧ linked h l
  | [] => True
  end.

Record heap_ok (lo : Z) (bs : blocks) (h : heap) : Prop := {
  ho_base : 0 < base ∧ base < lo;
  ho_sized : sized h lo bs;
  ho_size0 : h_size h base = 0;
  ho_apart : apart bs;
  ho_ring : linked h (base :: frees lo bs ++ [base]);
  ho_freep : h_freep h ∈ base :: frees lo bs;
  ho_brk : h_brk h = lo + HEADER * units bs;
  ho_small : lo + HEADER * units bs ≤ 2 ^ 36
}.

End umalloc.

(** ** Lists of blocks *)


Lemma units_app l1 l2 : units (l1 ++ l2) = units l1 + units l2.
Proof. induction l1 as [|[n f] l1 IH]; simpl; lia. Qed.
Lemma frees_app a l1 l2 : frees a (l1 ++ l2) = frees a l1 ++ frees (a + HEADER * units l1) l2.
Proof.
  revert a. induction l1 as [|[n f] l1 IH]; intros a; simpl.
  - by rewrite Z.mul_0_r, Z.add_0_r.
  - rewrite IH, <- app_assoc. do 3 f_equal. hlia.
Qed.
Lemma live_app a l1 l2 : live a (l1 ++ l2) = live a l1 ++ live (a + HEADER * units l1) l2.
Proof.
  revert a. induction l1 as [|[n f] l1 IH]; intros a; simpl.
  - by rewrite Z.mul_0_r, Z.add_0_r.
  - rewrite IH, <- app_assoc. do 3 f_equal. hlia.
Qed.
Lemma sized_app h a l1 l2 : sized h a (l1 ++ l2) ↔ sized h a l1 ∧ sized h (a + HEADER * units l1) l2.
Proof.
  revert a. induction l1 as [|[n f] l1 IH]; intros a; simpl.
  - rewrite Z.mul_0_r, Z.add_0_r. tauto.
  - rewrite IH. replace (a + HEADER * (n + units l1)) with (a + HEADER * n + HEADER * units l1) by hlia. tauto.
Qed.
Lemma sized_pos h a bs : sized h a bs → 0 ≤ units bs.
Proof. revert a. induction bs as [|[n f] bs IH]; intros a; simpl; [lia|]. intros (?&_&?%IH). lia. Qed.
Lemma frees_range h a bs x : sized h a bs → x ∈ frees a bs → a ≤ x < a + HEADER * units bs.
Proof.
  revert a. induction bs as [|[n f] bs IH]; intros a; simpl; [set_solver|].
  intros (?&_&Hs) [Hx|Hx]%elem_of_app.
  - apply sized_pos in Hs. destruct f; [|set_solver]. apply list_elem_of_singleton in Hx. hlia.
  - pose proof (IH _ Hs Hx). hlia.
Qed.
Lemma frees_sorted h a bs : sized h a bs → StronglySorted Z.lt (frees a bs).
Proof.
  revert a. induction bs as [|[n f] bs IH]; intros a; simpl; [constructor|]. intros (?&_&Hs).
  destruct f; simpl; [|by apply IH]. constructor; [by apply IH|]. apply Forall_forall.
  intros x Hx. apply (frees_range h) in Hx; [|done]. unfold HEADER in *. lia.
Qed.
Lemma apart_app l1 l2 : apart (l1 ++ l2) ↔ apart l1 ∧ apart l2 ∧
  (match last l1 with Some (_, true) => match l2 with (_, true) :: _ => False | _ => True end | _ => True end).
Proof.
  induction l1 as [|[n f] l1 IH]; [simpl; tauto|]. rewrite last_cons. simpl. rewrite IH.
  destruct l1 as [|[n1 f1] l1]; simpl.
  - destruct f, l2 as [|[n2 []] l2]; simpl; naive_solver.
  - rewrite last_cons. destruct (last l1) as [[n2 f2]|]; destruct f; simpl; tauto.
Qed.

(** ** The list in memory *)

Lemma linked_app h l1 x l2 : linked h (l1 ++ x :: l2) ↔ linked h (l1 ++ [x]) ∧ linked h (x :: l2).
Proof.
  induction l1 as [|y l1 IH]; [simpl; tauto|]. change ((y :: l1) ++ x :: l2) with (y :: (l1 ++ x :: l2)).
  change ((y :: l1) ++ [x]) with (y :: (l1 ++ [x])). cbn [linked]. rewrite IH. destruct l1; simpl; tauto.
Qed.
(** Only the headers before the last matter. *)
Lemma linked_ext h h' l x : (∀ y, y ∈ l → h_ptr h' y = h_ptr h y) → linked h (l ++ [x]) → linked h' (l ++ [x]).
Proof.
  induction l as [|y l IH]; intros He Hl; [simpl; tauto|]. change ((y :: l) ++ [x]) with (y :: (l ++ [x])) in *.
  cbn [linked] in *. destruct Hl as [Hy Hl]. split; [|apply IH; [set_solver|done]].
  destruct l; simpl in *; rewrite He by set_solver; done.
Qed.
Lemma linked_step h x y l : linked h (x :: y :: l) ↔ h_ptr h x = y ∧ linked h (y :: l).
Proof. done. Qed.

(** Walking along the list to [p], when no header before it stops the loop. *)
Lemma find_place_walk h bp l x p fuel : linked h (l ++ [p]) → head (l ++ [p]) = Some x →
  (∀ y, y ∈ l → ((bp >? y) && (bp <? h_ptr h y)) = false ∧
     ((y >=? h_ptr h y) && ((bp >? y) || (bp <? h_ptr h y))) = false) →
  ((bp >? p) && (bp <? h_ptr h p)) = true ∨ ((p >=? h_ptr h p) && ((bp >? p) || (bp <? h_ptr h p))) = true →
  (length l < fuel)%nat → find_place h bp x fuel = Some p.
Proof.
  revert x fuel. induction l as [|y l IH]; intros x [|fuel] Hl Hx Hno Hp Hf; simpl in Hf; try lia; simpl in Hx; simplify_eq.
  - cbn [find_place]. destruct Hp as [-> | ->]; [done|]. by destruct (_ && _).
  - cbn [find_place]. destruct (Hno x) as [-> ->]; [set_solver|]. destruct (l ++ [p]) as [|z l'] eqn:E; [by destruct l|].
    change ((x :: l) ++ [p]) with (x :: (l ++ [p])) in Hl. rewrite E in Hl. apply linked_step in Hl as [-> Hl].
    apply IH; [done|done| |done|lia]. intros y Hy. apply Hno. set_solver.
Qed.

Lemma sorted_app l1 l2 : StronglySorted Z.lt (l1 ++ l2) →
  StronglySorted Z.lt l1 ∧ StronglySorted Z.lt l2 ∧ ∀ x y, x ∈ l1 → y ∈ l2 → x < y.
Proof.
  induction l1 as [|a l1 IH]; simpl; [intros; split_and!; [constructor|done|set_solver]|].
  intros H. inversion_clear H as [|?? Hs Hf]. destruct (IH Hs) as (H1&H2&H3). rewrite Forall_forall in Hf. split_and!.
  - constructor; [done|]. apply Forall_forall. set_solver.
  - done.
  - intros x y [->|Hx]%elem_of_cons Hy; [apply Hf; set_solver|by apply H3].
Qed.

(** In an ascending list each header points upwards. *)
Lemma linked_up h l p y : StronglySorted Z.lt (l ++ [p]) → linked h (l ++ [p]) → y ∈ l → y < h_ptr h y ≤ p.
Proof.
  intros Hs Hl (l1&l2&->)%list_elem_of_split. rewrite <- app_assoc in Hs, Hl. simpl in Hs, Hl.
  apply linked_app in Hl as [_ Hl]. apply sorted_app in Hs as (_&Hs&_). inversion_clear Hs as [|?? Hs2 Hf].
  rewrite Forall_forall in Hf. destruct (l2 ++ [p]) as [|z l3] eqn:E; [by destruct l2|].
  apply linked_step in Hl as [-> _]. split; [apply Hf; set_solver|].
  destruct l2 as [|b l2]; simpl in E; simplify_eq; [lia|]. inversion_clear Hs2 as [|?? _ Hf2].
  rewrite Forall_forall in Hf2. assert (z < p) by (apply Hf2; set_solver). lia.
Qed.

Section free.
Variable base : Z.

Lemma linked_up_or_base h F y : StronglySorted Z.lt F → linked h (F ++ [base]) → y ∈ F → y < h_ptr h y ∨ h_ptr h y = base.
Proof.
  intros Hs Hl Hy. destruct F as [|z F _] using rev_ind; [set_solver|]. rewrite <- app_assoc in Hl. simpl in Hl.
  apply linked_app in Hl as [Hl1 Hl2]. apply elem_of_app in Hy as [Hy|Hy].
  - left. by destruct (linked_up h F z y Hs Hl1 Hy).
  - right. apply list_elem_of_singleton in Hy as ->. apply Hl2.
Qed.

(** The place of a block at [bp]: the last header below it, from wherever the
    search starts. *)
Lemma find_place_ok h P p F bp x fuel :
  head (P ++ [p]) = Some base → StronglySorted Z.lt (P ++ [p]) → StronglySorted Z.lt F →
  linked h (P ++ p :: F ++ [base]) → base ≤ p → p < bp → (∀ y, y ∈ F → bp < y) → x ∈ P ++ p :: F →
  (length P + length F + 1 < fuel)%nat → find_place h bp x fuel = Some p.
Proof.
  intros Hh Hs1 Hs2 Hl Hb Hp HF Hx Hf. apply linked_app in Hl as [Hl1 Hl2].
  assert (HP : ∀ y, y ∈ P → ((bp >? y) && (bp <? h_ptr h y)) = false ∧
     ((y >=? h_ptr h y) && ((bp >? y) || (bp <? h_ptr h y))) = false).
  { intros y Hy. pose proof (linked_up h P p y Hs1 Hl1 Hy). lia. }
  assert (Hstop : ((bp >? p) && (bp <? h_ptr h p)) = true ∨
     ((p >=? h_ptr h p) && ((bp >? p) || (bp <? h_ptr h p))) = true).
  { destruct F as [|z F]; simpl in Hl2; destruct Hl2 as [-> _]; [lia|]. specialize (HF z ltac:(set_solver)). lia. }
  apply elem_of_app in Hx as [Hx|[->|Hx]%elem_of_cons].
  - apply list_elem_of_split in Hx as (A&B&->). rewrite <- app_assoc in Hl1. apply linked_app in Hl1 as [_ Hl1].
    apply (find_place_walk h bp (x :: B)); [done|done| |done|rewrite length_app in Hf; simpl in *; lia].
    intros y Hy. apply HP. set_solver.
  - apply (find_place_walk h bp []); [done|done|set_solver|done|simpl; lia].
  - assert (linked h (F ++ [base])) as Hl3 by (destruct F; apply Hl2).
    assert (HF2 := λ y, linked_up_or_base h F y Hs2 Hl3).
    apply list_elem_of_split in Hx as (A&B&->). rewrite <- app_assoc in Hl3. apply linked_app in Hl3 as [_ Hl3].
    apply (find_place_walk h bp (x :: B ++ P)); [|done| |done|rewrite length_app in Hf; simpl in *; rewrite length_app; lia].
    + destruct (P ++ [p]) as [|b T] eqn:E; [by destruct P|]. injection Hh as ->.
      change ((x :: B ++ P) ++ [p]) with (x :: ((B ++ P) ++ [p])). rewrite <- app_assoc, E.
      apply (linked_app h (x :: B) base T). done.
    + intros y Hy. rewrite app_comm_cons in Hy. apply elem_of_app in Hy as [Hy|Hy]; [|by apply HP]. assert (y ∈ A ++ x :: B) as Hy2 by set_solver.
      specialize (HF y Hy2). destruct (HF2 y Hy2); lia.
Qed.

Lemma sized_ext h h' a bs : (∀ x, a ≤ x < a + HEADER * units bs → h_size h' x = h_size h x) → sized h a bs → sized h' a bs.
Proof.
  revert a. induction bs as [|[n f] bs IH]; intros a Hx; [done|]. cbn [sized units] in *. intros (Hn&Hsz&Hs).
  pose proof (sized_pos _ _ _ Hs). split_and!; [done|rewrite Hx; [done|hlia]|].
  apply IH; [|exact Hs]. intros x ?. apply Hx. hlia.
Qed.
(** The first free block of [bs] is not at its start. *)
Lemma frees_not_first h a bs : sized h a bs → match bs with (_, true) :: _ => False | _ => True end →
  ∀ y, y ∈ frees a bs → a < y.
Proof.
  destruct bs as [|[n []] bs]; [set_solver|done|]. intros (?&_&Hs) _ y Hy. simpl in Hy.
  apply (frees_range h) in Hy; [|done]. hlia.
Qed.

(** Headers other than [bp] are as they were. *)
Definition same_but (bp : Z) (h h' : heap) : Prop :=
  (∀ x, x ≠ bp → h_ptr h' x = h_ptr h x ∧ h_size h' x = h_size h x) ∧ h_freep h' = h_freep h ∧ h_brk h' = h_brk h.

(** [bp] takes in the block above it when that is free. *)
Lemma same_but_ptr bp v h : same_but bp h (set_ptr bp v h).
Proof. split_and!; [|done..]. intros x Hx. simpl. by rewrite fn_lookup_insert_ne. Qed.
Lemma same_but_size bp v h : same_but bp h (set_size bp v h).
Proof. split_and!; [|done..]. intros x Hx. simpl. by rewrite fn_lookup_insert_ne. Qed.
Lemma same_but_trans bp h1 h2 h3 : same_but bp h1 h2 → same_but bp h2 h3 → same_but bp h1 h3.
Proof.
  intros (H1&?&?) (H2&?&?). split_and!; [|congruence..]. intros x Hx. destruct (H1 x Hx), (H2 x Hx). split; congruence.
Qed.
Lemma same_but_sized bp h h' a bs : same_but bp h h' → bp < a ∨ a + HEADER * units bs ≤ bp → sized h a bs → sized h' a bs.
Proof. intros (Hx&_) Ha. apply sized_ext. intros x ?. apply Hx. hlia. Qed.
Lemma same_but_linked bp h h' l x : same_but bp h h' → bp ∉ l → linked h (l ++ [x]) → linked h' (l ++ [x]).
Proof. intros (Hx&_) Hl. apply linked_ext. intros y Hy. apply Hx. set_solver. Qed.

(** [bp] takes in the block above it when that is free. *)
Lemma join_upper_ok h p bp n l2 : base < bp → p ≠ bp → h_size h bp = n → 0 < n → sized h (bp + HEADER * n) l2 →
  n + units l2 < 2 ^ 32 → apart l2 → linked h (p :: frees (bp + HEADER * n) l2 ++ [base]) →
  ∃ n' l2', let h1 := join_upper bp p h in
    same_but bp h h1 ∧ h_size h1 bp = n' ∧ n ≤ n' ∧ n' + units l2' = n + units l2 ∧
    sized h1 (bp + HEADER * n') l2' ∧ linked h1 (bp :: frees (bp + HEADER * n') l2' ++ [base]) ∧
    apart ((n', true) :: l2') ∧ live (bp + HEADER * n') l2' = live (bp + HEADER * n) l2 ∧ (length l2' ≤ length l2)%nat.
Proof.
  intros Hb Hp Hn Hpos Hs Hsm Ha Hl. pose proof (sized_pos _ _ _ Hs) as Hu. unfold join_upper. rewrite Hn.
  assert ((∃ j l, l2 = (j, true) :: l) ∨ match l2 with (_, true) :: _ => False | _ => True end) as [(j&l&->)|Hnf]
    by (destruct l2 as [|[? []]]; eauto).
  - destruct Hs as (Hj&Hsj&Hs). destruct Hl as [Hpp Hl]. simpl in Hpp, Hl. rewrite Hpp, Z.eqb_refl.
    pose proof (sized_pos _ _ _ Hs). cbn [units] in *. exists (n + j), l. cbv zeta.
    replace (bp + HEADER * (n + j)) with (bp + HEADER * n + HEADER * j) by hlia.
    set (h1 := set_size bp _ h). assert (same_but bp h h1) as H1 by apply same_but_size.
    change (h_ptr h1) with (h_ptr h). rewrite Hpp.
    set (h2 := set_ptr bp _ h1). assert (same_but bp h h2) as H2 by (eapply same_but_trans, same_but_ptr; done).
    split_and!; [done| |lia|lia| | | |done|simpl; lia].
    + simpl. rewrite fn_lookup_insert, wrap_small by lia. lia.
    + eapply same_but_sized; [done|hlia|done].
    + destruct (frees _ l ++ [base]) as [|z r] eqn:E; [by destruct (frees _ l)|].
      apply linked_step. split; [simpl; rewrite fn_lookup_insert; apply Hl|].
      rewrite <- E. eapply same_but_linked; [done| |rewrite E; apply Hl].
      intros Hi. apply (frees_range h) in Hi; [hlia|done].
    + destruct Ha as [Ha Ha2]. simpl. split; [intros _; by apply Ha|done].
  - exists n, l2. destruct (frees _ l2 ++ [base]) as [|z r] eqn:E; [by destruct (frees _ l2)|].
    apply linked_step in Hl as [Hz Hl]. rewrite Hz.
    assert (bp + HEADER * n ≠ z).
    { destruct (frees _ l2) as [|y F] eqn:EF; simpl in E; injection E as <- _; [hlia|].
      assert (bp + HEADER * n < y); [|lia]. apply (frees_not_first h _ l2); [done|done|]. rewrite EF. set_solver. }
    zbool. assert (same_but bp h (set_ptr bp z h)) as H1 by apply same_but_ptr. cbv zeta.
    split_and!; [done|done|lia|lia| | | |done|done].
    + eapply same_but_sized; [done|hlia|done].
    + apply linked_step. split; [simpl; by rewrite fn_lookup_insert|]. rewrite <- E in Hl |- *.
      eapply same_but_linked; [done| |done]. intros Hi. apply (frees_range h) in Hi; [hlia|done].
    + simpl. split; [by intros _|done].
Qed.

Lemma free_end h a bs x : sized h a bs → x ∈ frees a bs → x + HEADER * h_size h x ≤ a + HEADER * units bs.
Proof.
  revert a. induction bs as [|[n f] bs IH]; intros a; simpl; [set_solver|]. intros (?&Hn&Hs) [Hx|Hx]%elem_of_app.
  - apply sized_pos in Hs. destruct f; [|set_solver]. apply list_elem_of_singleton in Hx as ->. hlia.
  - specialize (IH _ Hs Hx). hlia.
Qed.

(** The state of the heap around the block [n] at [bp], which is about to
    join the list behind [p]: the blocks [l1] below it, [l2] above it. *)
Record around (lo : Z) (l1 : blocks) (n : Z) (l2 : blocks) (P : list Z) (p : Z) (h : heap) : Prop := {
  ar_base : 0 < base < lo;
  ar_size0 : h_size h base = 0;
  ar_below : sized h lo l1;
  ar_size : h_size h (lo + HEADER * units l1) = n;
  ar_pos : 0 < n;
  ar_above : sized h (lo + HEADER * units l1 + HEADER * n) l2;
  ar_path : P ++ [p] = base :: frees lo l1;
  ar_linked : linked h (P ++ [p]);
  ar_next : linked h (lo + HEADER * units l1 :: frees (lo + HEADER * units l1 + HEADER * n) l2 ++ [base]);
  ar_apart : apart l1;
  ar_apart2 : apart ((n, true) :: l2);
  ar_small : units l1 + n + units l2 < 2 ^ 32
}.

Lemma path_range lo l1 n l2 P p h : around lo l1 n l2 P p h →
  base ≤ p < lo + HEADER * units l1 ∧ p ∉ P ∧ (∀ y, y ∈ P → base ≤ y < lo + HEADER * units l1) ∧ 0 ≤ units l1 ∧ 0 ≤ units l2.
Proof.
  intros [Hb _ Hs _ Hn Hs2 HP _ _ _ _ _]. pose proof (sized_pos _ _ _ Hs). pose proof (sized_pos _ _ _ Hs2).
  assert (Hr : ∀ y, y ∈ P ++ [p] → base ≤ y < lo + HEADER * units l1).
  { intros y Hy. rewrite HP in Hy. apply elem_of_cons in Hy as [->|Hy]; [hlia|].
    apply (frees_range h) in Hy; [|done]. hlia. }
  assert (StronglySorted Z.lt (P ++ [p])) as Hso.
  { rewrite HP. constructor; [by eapply frees_sorted|]. apply Forall_forall. intros y Hy.
    apply (frees_range h) in Hy; [|done]. hlia. }
  split_and!; [apply Hr; set_solver|apply Hr; set_solver| | |done|done].
  - intros Hp. apply sorted_app in Hso as (_&_&Hlt). specialize (Hlt p p Hp). set_solver by lia.
  - intros y Hy. apply Hr. set_solver.
Qed.

(** What the list is after the block has joined it. *)
Definition joined (lo : Z) (l1 : blocks) (n : Z) (l2 : blocks) (p : Z) (h h' : heap) : Prop :=
  ∃ bs, sized h' lo bs ∧ h_size h' base = 0 ∧ apart bs ∧ linked h' (base :: frees lo bs ++ [base]) ∧
    p ∈ base :: frees lo bs ∧ units bs = units l1 + n + units l2 ∧
    live lo bs = live lo l1 ++ live (lo + HEADER * units l1 + HEADER * n) l2 ∧
    h_brk h' = h_brk h ∧ (length bs ≤ length l1 + length l2 + 1)%nat ∧ ∃ m, n ≤ m ∧ (m, true) ∈ bs.

Lemma join_lower_merges lo l1 k n l2 P p h :
  around lo (l1 ++ [(k, true)]) n l2 P p h →
  joined lo (l1 ++ [(k, true)]) n l2 p h (join_lower (lo + HEADER * units (l1 ++ [(k, true)])) p h).
Proof.
  intros Har. destruct (path_range _ _ _ _ _ _ _ Har) as (Hp&HpP&HP&Hu1&Hu2).
  destruct Har as [Hb H0 Hs1 Hsn Hn Hs2 Hpath Hl Hnx Ha1 Ha2 Hsm].
  rewrite frees_app in Hpath. simpl in Hpath. rewrite app_comm_cons in Hpath. apply app_inj_tail in Hpath as [-> ->].
  apply sized_app in Hs1 as [Hs1 (Hk&Hsk&_)]. rewrite units_app in *. simpl units in *. rewrite Z.add_0_r in *.
  pose proof (sized_pos _ _ _ Hs1). set (p := lo + HEADER * units l1) in *. set (bp := lo + HEADER * (units l1 + k)) in *.
  unfold join_lower. rewrite Hsk. replace (p + HEADER * k =? bp) with true by (symmetry; apply Z.eqb_eq; unfold p, bp; hlia).
  set (h1 := set_size p _ h). change (h_ptr h1) with (h_ptr h). set (h2 := set_ptr p _ h1).
  assert (same_but p h h2) as H2 by (eapply same_but_trans; [apply same_but_size|apply same_but_ptr]).
  assert (bp + HEADER * n = p + HEADER * (k + n)) as Eend by (unfold p, bp; hlia).
  exists (l1 ++ (k + n, true) :: l2). rewrite frees_app, !live_app, !units_app, sized_app, apart_app.
  cbn [sized frees live units apart app]. fold p. rewrite <- Eend, app_nil_r. apply apart_app in Ha1 as (Ha1&_&Ha3). split_and!.
  - eapply same_but_sized; [exact H2|right; unfold p; lia|done].
  - lia.
  - simpl. rewrite fn_lookup_insert, Hsn, wrap_small by lia. done.
  - eapply same_but_sized; [exact H2|left; unfold p, bp; hlia|done].
  - destruct H2 as [H2 _]. destruct (H2 base) as [_ ->]; [hlia|done].
  - done.
  - intros _. by apply Ha2.
  - apply Ha2.
  - done.
  - rewrite <- app_assoc, app_comm_cons. apply linked_app. split.
    + by eapply same_but_linked.
    + change (linked h2 (p :: (frees (bp + HEADER * n) l2 ++ [base]))).
      destruct (frees (bp + HEADER * n) l2 ++ [base]) as [|z r] eqn:E; [by destruct (frees (bp + HEADER * n) l2)|].
      apply linked_step in Hnx as [Hz Hnx]. apply linked_step. split; [simpl; by rewrite fn_lookup_insert|].
      rewrite <- E in Hnx |- *. eapply same_but_linked; [done| |done].
      intros Hi. apply (frees_range h) in Hi; [unfold p, bp in *; hlia|done].
  - set_solver.
  - lia.
  - unfold bp. by rewrite Z.add_0_r.
  - done.
  - rewrite !length_app. simpl. lia.
  - exists (k + n). split; [lia|set_solver].
Qed.

Lemma join_lower_alone lo l1 n l2 P p h : match last l1 with Some (_, true) => False | _ => True end →
  around lo l1 n l2 P p h → joined lo l1 n l2 p h (join_lower (lo + HEADER * units l1) p h).
Proof.
  intros Hlast Har. destruct (path_range _ _ _ _ _ _ _ Har) as (Hp&HpP&HP&Hu1&Hu2).
  destruct Har as [Hb H0 Hs1 Hsn Hn Hs2 Hpath Hl Hnx Ha1 Ha2 Hsm].
  assert (p + HEADER * h_size h p ≠ lo + HEADER * units l1) as Hgap.
  { assert (p ∈ base :: frees lo l1) as [->|Hi]%elem_of_cons by (rewrite <- Hpath; set_solver); [rewrite H0; hlia|].
    destruct l1 as [|[k f] l1 _] using rev_ind; [set_solver|]. rewrite last_snoc in Hlast. destruct f; [done|].
    rewrite frees_app, app_nil_r in Hi. apply sized_app in Hs1 as [Hs1 (Hk&_)].
    apply (free_end h) in Hi; [|done]. rewrite units_app. simpl. hlia. }
  set (bp := lo + HEADER * units l1) in *. unfold join_lower. zbool.
  assert (same_but p h (set_ptr p bp h)) as H2 by apply same_but_ptr. set (h2 := set_ptr p bp h) in *.
  exists (l1 ++ (n, true) :: l2). rewrite frees_app, live_app, units_app, sized_app, apart_app.
  cbn [sized frees live units apart app]. fold bp. split_and!; try done.
  - by apply (sized_ext h).
  - by apply (sized_ext h).
  - apply Ha2.
  - apply Ha2.
  - rewrite <- app_assoc, app_comm_cons. rewrite <- Hpath, <- app_assoc. apply linked_app. split.
    + by eapply same_but_linked.
    + apply linked_step. split; [simpl; by rewrite fn_lookup_insert|].
      change (linked h2 ((bp :: frees (bp + HEADER * n) l2) ++ [base])). eapply same_but_linked; [done| |exact Hnx].
      intros [->|Hi]%elem_of_cons; [lia|]. apply (frees_range h) in Hi; [hlia|done].
  - rewrite app_comm_cons, <- Hpath. set_solver.
  - lia.
  - rewrite length_app. simpl. lia.
  - exists n. split; [lia|set_solver].
Qed.

Lemma join_lower_ok lo l1 n l2 P p h : around lo l1 n l2 P p h →
  joined lo l1 n l2 p h (join_lower (lo + HEADER * units l1) p h).
Proof.
  destruct l1 as [|[k []] l1 _] using rev_ind.
  - by apply join_lower_alone.
  - apply join_lower_merges.
  - apply join_lower_alone. by rewrite last_snoc.
Qed.

Lemma path_exists x (l : list Z) : ∃ P p, P ++ [p] = x :: l.
Proof. destruct l as [|y l _] using rev_ind; [by exists [], x|]. by exists (x :: l), y. Qed.

Lemma frees_length a bs : (length (frees a bs) ≤ length bs)%nat.
Proof. revert a. induction bs as [|[n f] bs IH]; intros a; simpl; [lia|]. rewrite length_app. specialize (IH (a + HEADER * n)). destruct f; simpl; lia. Qed.

(** [free] of the block in use between [l1] and [l2]. *)
Lemma free_ok lo l1 n l2 h fuel : heap_ok base lo (l1 ++ (n, false) :: l2) h → (length l1 + length l2 + 2 < fuel)%nat →
  ∃ h' bs, free h (lo + HEADER * units l1 + HEADER) fuel = Some h' ∧ heap_ok base lo bs h' ∧
    live lo bs = live lo l1 ++ live (lo + HEADER * units l1 + HEADER * n) l2 ∧ h_brk h' = h_brk h ∧
    units bs = units (l1 ++ (n, false) :: l2) ∧ (length bs ≤ length l1 + length l2 + 1)%nat ∧ ∃ m, n ≤ m ∧ (m, true) ∈ bs.
Proof.
  intros [Hb Hs H0 Ha Hr Hf Hbrk Hsm] Hfuel. apply sized_app in Hs as [Hs1 (Hn&Hsn&Hs2)].
  rewrite frees_app in Hr, Hf. cbn [frees app] in Hr, Hf. rewrite units_app in *. cbn [units] in *.
  pose proof (sized_pos _ _ _ Hs1). pose proof (sized_pos _ _ _ Hs2).
  set (bp := lo + HEADER * units l1) in *. apply apart_app in Ha as (Ha1&[_ Ha2]&_).
  destruct (path_exists base (frees lo l1)) as (P&p&Hpath).
  rewrite <- app_assoc, app_comm_cons, <- Hpath, <- app_assoc in Hr. simpl in Hr.
  assert (∀ y, y ∈ P ++ [p] → base ≤ y < bp) as Hlow.
  { intros y Hy. rewrite Hpath in Hy. apply elem_of_cons in Hy as [->|Hy]; [unfold bp; hlia|].
    apply (frees_range h) in Hy; [|done]. unfold bp; hlia. }
  assert (find_place h bp (h_freep h) fuel = Some p) as Hplace.
  { apply (find_place_ok h P p (frees (bp + HEADER * n) l2)).
    - by rewrite Hpath.
    - rewrite Hpath. constructor; [by eapply frees_sorted|]. apply Forall_forall. intros y Hy.
      apply (frees_range h) in Hy; [|done]. hlia.
    - by eapply frees_sorted.
    - done.
    - apply Hlow. set_solver.
    - apply Hlow. set_solver.
    - intros y Hy. apply (frees_range h) in Hy; [hlia|done].
    - rewrite app_comm_cons, <- Hpath, <- app_assoc in Hf. done.
    - assert (length (P ++ [p]) = length (base :: frees lo l1)) as El by (by rewrite Hpath). rewrite length_app in El. simpl in El.
      pose proof (frees_length lo l1). pose proof (frees_length (bp + HEADER * n) l2). lia. }
  assert (p < bp) as Hp by (apply Hlow; set_solver). apply linked_app in Hr as [Hr1 Hr2].
  destruct (join_upper_ok h p bp n l2) as (n'&l2'&Hsame&Hsz&Hge&Hun&Hs'&Hl'&Ha'&Hlive&Hlen); try done; [unfold bp; hlia|lia|hlia|].
  set (h1 := join_upper bp p h) in *. pose proof Hsame as (_&_&Hbrk1).
  destruct (join_lower_ok lo l1 n' l2' P p h1) as (bs&Hs3&H03&Ha3&Hr3&Hp3&Hu3&Hl3&Hbrk3&Hlen3&m&Hm&Hmi).
  { fold bp. split; fold bp; try done.
    - destruct Hsame as [Hx _]. destruct (Hx base) as [_ ->]; [unfold bp; hlia|done].
    - eapply same_but_sized; [exact Hsame|right; unfold bp; hlia|done].
    - lia.
    - eapply same_but_linked; [exact Hsame| |done]. intros Hi. specialize (Hlow bp ltac:(set_solver)). lia.
    - hlia. }
  fold bp in Hs3, H03, Hr3, Hl3, Hbrk3.
  exists (set_freep p (join_lower bp p h1)), bs. split_and!.
  - unfold free. replace (bp + HEADER - HEADER) with bp by lia. by rewrite Hplace.
  - split; try done; [by apply (sized_ext (join_lower bp p h1))|by apply (linked_ext (join_lower bp p h1) _ (base :: _))|simpl; rewrite Hbrk3, Hbrk1; hlia|hlia].
  - by rewrite Hl3, Hlive.
  - simpl. lia.
  - lia.
  - lia.
  - exists m. split; [lia|done].
Qed.
End free.
