(* ===== verification/UmallocProps.v ===== *)
(** * malloc and free: every block belongs to one owner

    [malloc] carves its block out of the free list, asking the kernel for
    more memory when no free block is large enough; [free] puts a block back
    and joins it with its free neighbours.  The blocks, free and in use, always
    tile the heap. *)
From Stdlib Require Import Sorted.
From S2P Require Import Prelude Umalloc.

Section malloc.
Variable base : Z.
Variable can_grow : Z → Z → bool.
(** The kernel's memory ends far below this. *)
Hypothesis grow_small : ∀ a b, can_grow a b = true → b ≤ 2 ^ 36.

Abbreviation heap_ok := (heap_ok base).
Abbreviation malloc_loop := (malloc_loop can_grow).
Abbreviation morecore := (morecore can_grow).

(** The ring through the free block at [p], and its predecessor. *)
Lemma ring_pred lo l1 k l2 h prevp : heap_ok lo (l1 ++ (k, true) :: l2) h →
  let p := lo + HEADER * units l1 in
  prevp ∈ base :: frees lo (l1 ++ (k, true) :: l2) → h_ptr h prevp = p →
  ∃ P, P ++ [prevp] = base :: frees lo l1 ∧ linked h (P ++ [prevp]) ∧ prevp ∉ P ∧
    linked h (p :: frees (p + HEADER * k) l2 ++ [base]) ∧ base ≤ prevp < p.
Proof.
  intros Hok p Hin Hptr. destruct Hok as [Hb Hs H0 Ha Hr Hf Hbrk Hsm].
  pose proof (frees_sorted _ _ _ Hs) as Hso. apply sized_app in Hs as [Hs1 (Hk&Hsk&Hs2)].
  rewrite frees_app in Hr, Hin, Hso. cbn [frees app] in Hr, Hin, Hso. fold p in Hs2, Hr, Hin, Hsk, Hso.
  destruct (path_exists base (frees lo l1)) as (P&q&Hpath).
  assert (StronglySorted Z.lt (P ++ [q] ++ p :: frees (p + HEADER * k) l2)) as Hsort.
  { rewrite app_assoc, Hpath. constructor; [done|]. apply Forall_forall. intros y [Hy|[->|Hy]%elem_of_cons]%elem_of_app.
    - apply (frees_range h) in Hy; [lia|done].
    - pose proof (sized_pos _ _ _ Hs1). unfold p. hlia.
    - pose proof (sized_pos _ _ _ Hs1). apply (frees_range h) in Hy; [unfold p in *; hlia|done]. }
  rewrite <- app_assoc, app_comm_cons, <- Hpath, <- app_assoc in Hr. rewrite app_comm_cons, <- Hpath, <- app_assoc in Hin.
  simpl in Hr. apply linked_app in Hr as [Hr1 Hr2]. apply linked_step in Hr2 as [Hq Hr2].
  apply sorted_app in Hsort as (HsP&Hs3&Hlt1). pose proof Hs3 as Hs3'. apply (sorted_app [q]) in Hs3' as (_&HsF&Hlt2).
  assert (prevp = q) as ->; [|exists P; split_and!; try done].
  - assert (Hup : ∀ y, y ∈ p :: frees (p + HEADER * k) l2 → h_ptr h y ≠ p).
    { intros y Hy E. destruct (linked_up_or_base base h (p :: frees (p + HEADER * k) l2) y HsF Hr2 Hy) as [Hu|Hu].
      - assert (p ≤ y); [|lia]. apply elem_of_cons in Hy as [->|Hy]; [lia|]. apply (frees_range h) in Hy; [hlia|done].
      - assert (q < p) by (apply Hlt2; set_solver). assert (base ≤ q); [|lia].
        assert (q ∈ base :: frees lo l1) as [->|Hq2]%elem_of_cons by (rewrite <- Hpath; set_solver); [lia|].
        apply (frees_range h) in Hq2; [lia|done]. }
    apply elem_of_app in Hin as [Hin|Hin]; [|apply elem_of_app in Hin as [Hin|Hin]].
    + exfalso. assert (StronglySorted Z.lt (P ++ [q])) as HPq.
      { rewrite Hpath. constructor; [by eapply frees_sorted|]. apply Forall_forall. intros y Hy.
        apply (frees_range h) in Hy; [lia|done]. }
      pose proof (linked_up h P q prevp HPq Hr1 Hin). assert (q < p) by (apply Hlt2; set_solver). lia.
    + set_solver.
    + by destruct (Hup prevp).
  - intros Hi. specialize (Hlt1 q q Hi). set_solver by lia.
  - assert (q ∈ base :: frees lo l1) as [->|Hq2]%elem_of_cons by (rewrite <- Hpath; set_solver); [lia|].
    apply (frees_range h) in Hq2; [lia|done].
  - apply Hlt2; set_solver.
Qed.

(** What the owner of the new block gets, and what everybody else keeps. *)
Definition carved (lo : Z) (bs : blocks) (n r : Z) (h h' : heap) : Prop :=
  ∃ bs', heap_ok lo bs' h' ∧ 0 < r ∧ live lo bs' ≡ₚ (r - HEADER, n) :: live lo bs ∧
    units bs' = units bs ∧ (length bs' ≤ length bs + 1)%nat.

Lemma carve_whole lo l1 n l2 h prevp : heap_ok lo (l1 ++ (n, true) :: l2) h →
  let p := lo + HEADER * units l1 in
  prevp ∈ base :: frees lo (l1 ++ (n, true) :: l2) → h_ptr h prevp = p →
  carved lo (l1 ++ (n, true) :: l2) n (p + HEADER) h (set_freep prevp (set_ptr prevp (h_ptr h p) h)).
Proof.
  intros Hok p Hin Hptr. destruct (ring_pred lo l1 n l2 h prevp Hok Hin Hptr) as (P&Hpath&Hl&HnP&Hnx&Hrng).
  fold p in Hnx. destruct Hok as [Hb Hs H0 Ha Hr Hf Hbrk Hsm]. apply sized_app in Hs as [Hs1 (Hn&Hsn&Hs2)].
  fold p in Hsn, Hs2. pose proof (sized_pos _ _ _ Hs1). pose proof (sized_pos _ _ _ Hs2).
  set (h1 := set_ptr prevp _ h). assert (same_but prevp h h1) as Hsame by apply same_but_ptr.
  exists (l1 ++ (n, false) :: l2). rewrite !live_app, !units_app, !length_app. rewrite units_app in Hsm, Hbrk.
  cbn [live app length units] in *. fold p. split_and!; [|unfold p; hlia| |done|lia].
  2: { replace (p + HEADER - HEADER) with p by lia. rewrite Permutation_middle. done. }
  assert (frees lo (l1 ++ (n, false) :: l2) = frees lo l1 ++ frees (p + HEADER * n) l2) as Hfr.
  { rewrite frees_app. done. }
  split; rewrite ?Hfr, ?units_app; cbn [units]; try done.
  - apply sized_app. fold p. split; [by apply (sized_ext h)|]. split_and!; [done|done|by apply (sized_ext h)].
  - rewrite !apart_app in Ha |- *. destruct Ha as (?&[_ ?]&?). split_and!; [done|by split|]. by destruct (last l1) as [[? []]|].
  - apply (linked_ext h1 _ (base :: _)); [done|]. rewrite app_comm_cons, <- Hpath, <- !app_assoc.
    apply linked_app. split.
    + by eapply (same_but_linked prevp h).
    + change ([prevp] ++ frees (p + HEADER * n) l2 ++ [base]) with (prevp :: (frees (p + HEADER * n) l2 ++ [base])).
      destruct (frees (p + HEADER * n) l2 ++ [base]) as [|z r] eqn:E; [by destruct (frees (p + HEADER * n) l2)|].
      apply linked_step in Hnx as [Hz Hnx]. apply linked_step. split; [simpl; by rewrite fn_lookup_insert|].
      rewrite <- E in Hnx |- *. eapply (same_but_linked prevp h); [done| |done].
      intros Hi. apply (frees_range h) in Hi; [hlia|done].
  - change (prevp ∈ base :: frees lo l1 ++ frees (p + HEADER * n) l2). rewrite app_comm_cons, <- Hpath. set_solver.
Qed.

Lemma carve_part lo l1 k n l2 h prevp : heap_ok lo (l1 ++ (k, true) :: l2) h → 0 < n < k →
  let p := lo + HEADER * units l1 in
  let h1 := set_size p (k - n) h in
  prevp ∈ base :: frees lo (l1 ++ (k, true) :: l2) →
  carved lo (l1 ++ (k, true) :: l2) n (p + HEADER * (k - n) + HEADER) h
    (set_freep prevp (set_size (p + HEADER * (k - n)) n h1)).
Proof.
  intros [Hb Hs H0 Ha Hr Hf Hbrk Hsm] Hn p h1 Hin. apply sized_app in Hs as [Hs1 (_&Hsk&Hs2)].
  fold p in Hsk, Hs2. pose proof (sized_pos _ _ _ Hs1). pose proof (sized_pos _ _ _ Hs2).
  rewrite units_app in Hsm, Hbrk. cbn [units] in Hsm, Hbrk.
  set (q := p + HEADER * (k - n)). set (h2 := set_size q n h1).
  assert (Hq : q + HEADER * n = p + HEADER * k) by (unfold q; hlia).
  assert (Hx : ∀ x, x ≠ p → x ≠ q → h_size h2 x = h_size h x).
  { intros x Hxp Hxq. simpl. by rewrite !fn_lookup_insert_ne. }
  assert (Hsq : h_size h2 q = n) by (simpl; rewrite fn_lookup_insert, wrap_small; hlia).
  assert (Hsp : h_size h2 p = k - n).
  { simpl. rewrite fn_lookup_insert_ne, fn_lookup_insert, wrap_small by (unfold q; hlia). done. }
  assert (Hfr : frees lo (l1 ++ (k - n, true) :: (n, false) :: l2) = frees lo (l1 ++ (k, true) :: l2)).
  { rewrite !frees_app. cbn [frees app]. fold p q. by rewrite Hq. }
  exists (l1 ++ (k - n, true) :: (n, false) :: l2). rewrite !live_app, !units_app, !length_app.
  cbn [live app length units]. fold p q. rewrite Hq. split_and!; [|unfold q, p; hlia| |lia|lia].
  2: { replace (q + HEADER - HEADER) with q by lia. rewrite Permutation_middle. done. }
  split; rewrite ?Hfr, ?units_app; cbn [units]; try done.
  - apply (sized_ext h2); [done|]. apply sized_app. fold p. cbn [sized]. fold q. rewrite Hq. split_and!; try done; try lia.
    + eapply sized_ext; [|exact Hs1]. intros x ?. apply Hx; unfold q, p; hlia.
    + eapply sized_ext; [|exact Hs2]. intros x ?. apply Hx; unfold q, p in *; hlia.
  - simpl. rewrite !fn_lookup_insert_ne by (unfold q, p; hlia). done.
  - rewrite !apart_app in Ha |- *. destruct Ha as (?&[_ ?]&?). cbn [apart]. by split_and!.
  - by apply (linked_ext h _ (base :: _)).
  - simpl. hlia.
  - hlia.
Qed.

Lemma frees_split lo bs p : p ∈ frees lo bs → ∃ l1 k l2, bs = l1 ++ (k, true) :: l2 ∧ p = lo + HEADER * units l1.
Proof.
  clear. revert lo. induction bs as [|[n f] bs IH]; intros lo; simpl; [set_solver|]. intros [Hp|Hp]%elem_of_app.
  - destruct f; [|set_solver]. apply list_elem_of_singleton in Hp as ->. exists [], n, bs. split; [done|]. simpl. lia.
  - destruct (IH _ Hp) as (l1&k&l2&->&->). exists ((n, f) :: l1), k, l2. split; [done|]. simpl. hlia.
Qed.

Lemma carve_ok lo bs n h prevp p : heap_ok lo bs h → 0 < n → prevp ∈ base :: frees lo bs → h_ptr h prevp = p →
  p ∈ frees lo bs → n ≤ h_size h p → carved lo bs n (carve h n prevp p).1 h (carve h n prevp p).2.
Proof.
  intros Hok Hn Hin Hptr Hp Hsz. apply frees_split in Hp as (l1&k&l2&->&->).
  assert (h_size h (lo + HEADER * units l1) = k) as Hk.
  { pose proof (ho_sized _ _ _ _ Hok) as Hs. apply sized_app in Hs as [_ (_&Hs&_)]. done. }
  unfold carve. rewrite Hk in *. destruct (Z.eqb_spec k n) as [->|Hne]; simpl.
  - by apply carve_whole.
  - pose proof (ho_small _ _ _ _ Hok) as Hsm. pose proof (ho_base _ _ _ _ Hok). pose proof (ho_sized _ _ _ _ Hok) as Hs.
    rewrite units_app in Hsm. simpl in Hsm. apply sized_app in Hs as [?%sized_pos (_&_&?%sized_pos)].
    rewrite fn_lookup_insert, (wrap_small 32 (k - n)) by hlia. apply carve_part; [done|lia|done].
Qed.

(** Memory from the kernel becomes a block in use at the end of the heap. *)
Lemma heap_grown lo bs h nu b : heap_ok lo bs h → 0 < nu → b = h_brk h + HEADER * nu → b ≤ 2 ^ 36 →
  heap_ok lo (bs ++ [(nu, false)]) (set_size (h_brk h) nu (set_brk b h)).
Proof.
  intros [Hb Hs H0 Ha Hr Hf Hbrk Hsm] Hnu -> Hle. pose proof (sized_pos _ _ _ Hs).
  assert (frees lo (bs ++ [(nu, false)]) = frees lo bs) as Hfr by (rewrite frees_app; apply app_nil_r).
  split; rewrite ?Hfr, ?units_app; cbn [units]; try done.
  - apply sized_app. cbn [sized]. rewrite Hbrk. simpl. rewrite fn_lookup_insert, wrap_small by hlia. split_and!; try done.
    eapply sized_ext; [|exact Hs]. intros x ?. simpl. rewrite fn_lookup_insert_ne by hlia. done.
  - simpl. rewrite fn_lookup_insert_ne by hlia. done.
  - apply apart_app. split_and!; [done|done|]. by destruct (last bs) as [[? []]|].
  - by apply (linked_ext h _ (base :: _)).
  - simpl. hlia.
  - hlia.
Qed.

Definition grown (n : Z) : Z := Z.max 4096 n.

Lemma morecore_ok lo bs h n fuel : heap_ok lo bs h → 0 < n < 2 ^ 27 → (length bs + 2 < fuel)%nat →
  (can_grow (h_brk h) (h_brk h + HEADER * grown n) = false ∧ morecore h n fuel = Some (0, h)) ∨
  (∃ h' bs', morecore h n fuel = Some (h_freep h', h') ∧ heap_ok lo bs' h' ∧ live lo bs' = live lo bs ∧
     h_brk h < h_brk h' ∧ (length bs' ≤ length bs + 1)%nat ∧ ∃ m, n ≤ m ∧ (m, true) ∈ bs').
Proof.
  intros Hok Hn Hf. pose proof Hok as [Hb Hs _ _ _ _ Hbrk Hsm]. pose proof (sized_pos _ _ _ Hs).
  unfold Umalloc.morecore. replace (if n <? 4096 then 4096 else n) with (grown n) by (unfold grown; destruct (Z.ltb_spec n 4096); lia).
  assert (4096 ≤ grown n < 2 ^ 27 ∧ n ≤ grown n) as [Hg Hng] by (unfold grown; lia).
  rewrite swrap_small by (simpl; hlia). unfold sbrk. rewrite (gtb_true (grown n * HEADER)) by hlia.
  rewrite (wrap_small 64) by hlia. replace (h_brk h + grown n * HEADER) with (h_brk h + HEADER * grown n) by lia.
  destruct (can_grow _ _) eqn:Hc; [right|by left]. rewrite (proj2 (Z.eqb_neq _ _)) by hlia.
  pose proof (heap_grown lo bs h (grown n) _ Hok ltac:(lia) eq_refl (grow_small _ _ Hc)) as Hok2.
  destruct (free_ok base lo bs (grown n) [] _ fuel Hok2) as (h'&bs'&Hfree&Hok'&Hlive&Hbrk'&_&Hlen&m&Hm&Hmi); [simpl; lia|].
  rewrite <- Hbrk in Hfree. exists h', bs'. rewrite Hfree. simpl in Hlive, Hlen, Hbrk'. rewrite app_nil_r in Hlive.
  split_and!; [done|done|done|hlia|lia|]. exists m. split; [lia|done].
Qed.

(** ** The search *)

(** One walk over [L], which ends with the header the walk started from. *)
Lemma malloc_walk h n L prevp p fuel : linked h (prevp :: L ++ [h_freep h]) → head (L ++ [h_freep h]) = Some p →
  h_freep h ∉ L → (length L < fuel)%nat →
  (∃ prev y, prev ∈ prevp :: L ∧ y ∈ L ++ [h_freep h] ∧ h_ptr h prev = y ∧ n ≤ h_size h y ∧
     malloc_loop h n prevp p fuel = Some (carve h n prev y)) ∨
  ((∀ y, y ∈ L ++ [h_freep h] → h_size h y < n) ∧
   malloc_loop h n prevp p fuel =
     ('(p, h) ← morecore h n (fuel - length L - 1);
      if p =? 0 then Some (0, h) else malloc_loop h n p (h_ptr h p) (fuel - length L - 1))).
Proof.
  clear grow_small. revert prevp p fuel. induction L as [|x L IH]; intros prevp p [|fuel] Hl Hp Hn Hf; simpl in Hf; try lia.
  - simpl in Hp. injection Hp as <-. cbn [Umalloc.malloc_loop]. destruct (Z.geb_spec (h_size h (h_freep h)) n).
    + left. exists prevp, (h_freep h). split_and!; [set_solver|set_solver|apply Hl|lia|done].
    + right. rewrite Z.eqb_refl. split; [intros y ->%list_elem_of_singleton; lia|].
      simpl length. by replace (S fuel - 0 - 1)%nat with fuel by lia.
  - simpl in Hp. injection Hp as <-. cbn [Umalloc.malloc_loop]. destruct (Z.geb_spec (h_size h x) n).
    + left. exists prevp, x. split_and!; [set_solver|set_solver|apply Hl|lia|done].
    + rewrite (proj2 (Z.eqb_neq x (h_freep h))) by set_solver.
      apply (linked_step h prevp x) in Hl as [_ Hl].
      assert (Hnext : head (L ++ [h_freep h]) = Some (h_ptr h x)) by (destruct L; simpl in *; destruct Hl as [-> _]; done).
      destruct (IH x (h_ptr h x) fuel Hl Hnext ltac:(set_solver) ltac:(lia)) as [(prev&y&Hpr&Hy&?&?&?)|[Hall ->]].
      * left. exists prev, y. split_and!; [set_solver|set_solver|done|done|done].
      * right. split; [intros y Hy; apply elem_of_cons in Hy as [->|Hy]; [lia|by apply Hall]|].
        simpl length. by replace (S fuel - S (length L) - 1)%nat with (fuel - length L - 1)%nat by lia.
Qed.

(** The ring, cut open at [freep]. *)
Lemma ring_from_freep lo bs h : heap_ok lo bs h → ∃ L, linked h (h_freep h :: L ++ [h_freep h]) ∧
  head (L ++ [h_freep h]) = Some (h_ptr h (h_freep h)) ∧ h_freep h ∉ L ∧
  (∀ y, y ∈ L ++ [h_freep h] ↔ y ∈ base :: frees lo bs) ∧ (length L ≤ length bs)%nat.
Proof.
  intros [Hb Hs _ _ Hr Hf _ _]. clear grow_small. set (x := h_freep h) in *.
  assert (StronglySorted Z.lt (base :: frees lo bs)) as Hso.
  { constructor; [by eapply frees_sorted|]. apply Forall_forall. intros y Hy. apply (frees_range h) in Hy; [lia|done]. }
  apply list_elem_of_split in Hf as (A&B&E). rewrite E in Hso. rewrite app_comm_cons, E, <- app_assoc in Hr.
  simpl in Hr. apply linked_app in Hr as [Hr1 Hr2]. exists (B ++ A).
  assert (linked h (x :: (B ++ A) ++ [x])) as Hl.
  { rewrite <- app_assoc. destruct (A ++ [x]) as [|b T] eqn:EA; [by destruct A|].
    assert (b = base) as ->. { destruct A; simpl in *; congruence. } by apply (linked_app h (x :: B) base T). }
  split_and!; [done| | | |].
  - destruct ((B ++ A) ++ [x]) as [|z r] eqn:EL; [by destruct (B ++ A)|]. apply linked_step in Hl as [-> _]. done.
  - apply sorted_app in Hso as (_&Hso&HA). inversion_clear Hso as [|?? _ HB]. rewrite Forall_forall in HB.
    intros [Hi|Hi]%elem_of_app; [specialize (HB x Hi)|specialize (HA x x Hi ltac:(set_solver))]; lia.
  - intros y. rewrite E. set_solver.
  - apply (f_equal length) in E. rewrite length_app in E. simpl in E. rewrite length_app. pose proof (frees_length lo bs). lia.
Qed.

Lemma frees_has lo bs h m : sized h lo bs → (m, true) ∈ bs → ∃ y, y ∈ frees lo bs ∧ h_size h y = m.
Proof.
  clear. revert lo. induction bs as [|[n f] bs IH]; intros lo; [set_solver|]. intros (_&Hn&Hs) [E|Hi]%elem_of_cons.
  - injection E as <- <-. exists lo. split; [set_solver|done].
  - destruct (IH _ Hs Hi) as (y&Hy&?). exists y. split; [|done]. simpl. set_solver.
Qed.

(** A header that is large enough is a free block, not [base]. *)
Lemma large_is_free lo bs h n y : heap_ok lo bs h → 0 < n → n ≤ h_size h y → y ∈ base :: frees lo bs → y ∈ frees lo bs.
Proof. intros Hok Hn Hy [->|?]%elem_of_cons; [|done]. rewrite (ho_size0 _ _ _ _ Hok) in Hy. lia. Qed.

Lemma freep_pos lo bs h : heap_ok lo bs h → 0 < h_freep h.
Proof.
  clear. intros [Hb Hs _ _ _ Hf _ _]. apply elem_of_cons in Hf as [->|Hf]; [lia|].
  apply (frees_range h) in Hf; [lia|done].
Qed.

(** The search when a free block is large enough. *)
Lemma malloc_finds lo bs h n fuel : heap_ok lo bs h → 0 < n → (∃ m, n ≤ m ∧ (m, true) ∈ bs) → (length bs < fuel)%nat →
  ∃ r h', malloc_loop h n (h_freep h) (h_ptr h (h_freep h)) fuel = Some (r, h') ∧ carved lo bs n r h h'.
Proof.
  intros Hok Hn (m&Hm&Hmi) Hf. destruct (ring_from_freep lo bs h Hok) as (L&Hl&Hh&Hni&Hring&Hlen).
  destruct (malloc_walk h n L (h_freep h) (h_ptr h (h_freep h)) fuel Hl Hh Hni ltac:(lia)) as [(prev&y&Hpr&Hy&Hptr&Hsz&->)|[Hno _]].
  - eexists _, _. rewrite <- surjective_pairing. split; [done|]. apply carve_ok; [done|done| |done| |done].
    + apply Hring. set_solver.
    + eapply large_is_free; [done|done|done|]. by apply Hring.
  - destruct (frees_has lo bs h m (ho_sized _ _ _ _ Hok) Hmi) as (y&Hy&E).
    specialize (Hno y). rewrite Hring in Hno. specialize (Hno ltac:(set_solver)). lia.
Qed.

Lemma units_of_eq nbytes : 0 ≤ nbytes < 2 ^ 31 - 64 →
  0 < units_of nbytes < 2 ^ 27 ∧ nbytes ≤ HEADER * (units_of nbytes - 1) < nbytes + HEADER.
Proof.
  clear. intros Hn. unfold units_of, HEADER. pose proof (Z.div_mod (nbytes + 16 - 1) 16 ltac:(lia)).
  pose proof (Z.mod_pos_bound (nbytes + 16 - 1) 16 ltac:(lia)). rewrite wrap_small by lia. lia.
Qed.

(** [malloc] on a heap whose list is set up. *)
Lemma malloc_ok lo bs h nbytes fuel : heap_ok lo bs (init_list base h) → 0 ≤ nbytes < 2 ^ 31 - 64 →
  (2 * length bs + 6 < fuel)%nat →
  ∃ r h', malloc base can_grow h nbytes fuel = Some (r, h') ∧
    ((r = 0 ∧ h' = init_list base h ∧ can_grow (h_brk h') (h_brk h' + HEADER * grown (units_of nbytes)) = false ∧
      ∀ m, (m, true) ∈ bs → m < units_of nbytes) ∨
     (0 < r ∧ ∃ bs', heap_ok lo bs' h' ∧ live lo bs' ≡ₚ (r - HEADER, units_of nbytes) :: live lo bs)).
Proof.
  intros Hok Hn Hf. destruct (units_of_eq nbytes Hn) as [Hu _]. unfold malloc. set (n := units_of nbytes) in *.
  set (h0 := init_list base h) in *. destruct (ring_from_freep lo bs h0 Hok) as (L&Hl&Hh&Hni&Hring&Hlen).
  destruct (malloc_walk h0 n L (h_freep h0) _ fuel Hl Hh Hni ltac:(lia)) as [(prev&y&Hpr&Hy&Hptr&Hsz&->)|[Hno ->]].
  - eexists _, _. rewrite <- surjective_pairing. split; [done|]. right.
    destruct (carve_ok lo bs n h0 prev y) as (bs'&?&?&?&_); [done|lia|apply Hring; set_solver|done| |done|eauto].
    apply (large_is_free lo bs h0 n); [done|lia|done|]. by apply Hring.
  - destruct (morecore_ok lo bs h0 n (fuel - length L - 1) Hok Hu ltac:(lia)) as [[Hc ->]|(h1&bs1&->&Hok1&Hlive&_&Hlen1&Hbig)].
    + exists 0, h0. split; [done|]. left. split_and!; [done|done|done|]. intros m Hmi.
      destruct (frees_has lo bs h0 m (ho_sized _ _ _ _ Hok) Hmi) as (y&Hy&E).
      specialize (Hno y). rewrite Hring in Hno. specialize (Hno ltac:(set_solver)). lia.
    + simpl. pose proof (freep_pos _ _ _ Hok1) as Hpos.
      zbool. destruct (malloc_finds lo bs1 h1 n (fuel - length L - 1) Hok1 ltac:(lia) Hbig ltac:(lia)) as (r&h'&->&bs'&?&?&Hp&_).
      exists r, h'. split; [done|]. right. rewrite Hlive in Hp. eauto.
Qed.

(** ** More fuel changes nothing *)

Lemma find_place_more h bp p fuel fuel' x : find_place h bp p fuel = Some x → (fuel ≤ fuel')%nat →
  find_place h bp p fuel' = Some x.
Proof.
  clear. revert p fuel'. induction fuel as [|fuel IH]; intros p [|fuel'] Hx Hle; simpl in *; try done; try lia.
  repeat case_match; try done. apply IH; [done|lia].
Qed.
Lemma free_more h ap fuel fuel' h' : free h ap fuel = Some h' → (fuel ≤ fuel')%nat → free h ap fuel' = Some h'.
Proof.
  clear. unfold free. intros H Hle. destruct (find_place _ _ _ fuel) as [p|] eqn:E; [|done].
  by rewrite (find_place_more _ _ _ _ _ _ E Hle).
Qed.
Lemma morecore_more h n fuel fuel' x : morecore h n fuel = Some x → (fuel ≤ fuel')%nat → morecore h n fuel' = Some x.
Proof.
  clear. unfold Umalloc.morecore. intros H Hle. destruct (sbrk _ _ _) as [p h1]. case_match; [done|].
  destruct (free _ _ fuel) as [h2|] eqn:E; [|done]. by rewrite (free_more _ _ _ _ _ E Hle).
Qed.
Lemma malloc_loop_more h n prevp p fuel fuel' x : malloc_loop h n prevp p fuel = Some x → (fuel ≤ fuel')%nat →
  malloc_loop h n prevp p fuel' = Some x.
Proof.
  clear. revert h prevp p fuel'. induction fuel as [|fuel IH]; intros h prevp p [|fuel'] Hx Hle; try done; try lia.
  cbn [Umalloc.malloc_loop] in *. case_match; [done|]. case_match; [|apply IH; [done|lia]].
  destruct (morecore h n fuel) as [[q h1]|] eqn:E; [|done]. rewrite (morecore_more _ _ _ fuel' _ E) by lia. simpl in *.
  case_match; [done|]. apply IH; [done|lia].
Qed.

(** ** Programs that allocate *)

(** What a program can reach by calling [malloc] and [free] of the blocks it
    owns: the heap and its blocks, with the number of bytes it asked for. *)
Inductive mreach (lo : Z) : heap → list (Z * Z) → Prop :=
  | mr_start h : h_freep h = 0 → h_brk h = lo → mreach lo h []
  | mr_malloc h own n fuel r h' : mreach lo h own → 0 ≤ n < 2 ^ 31 - 64 → malloc base can_grow h n fuel = Some (r, h') →
      r ≠ 0 → mreach lo h' ((r, n) :: own)
  | mr_refused h own n fuel h' : mreach lo h own → 0 ≤ n < 2 ^ 31 - 64 → malloc base can_grow h n fuel = Some (0, h') →
      mreach lo h' own
  | mr_free h own p n own' fuel h' : mreach lo h (own ++ (p, n) :: own') → free h p fuel = Some h' →
      mreach lo h' (own ++ own').

Definition block_of (x : Z * Z) : Z * Z := (x.1 - HEADER, units_of x.2).

Record minv (lo : Z) (h : heap) (own : list (Z * Z)) (bs : blocks) : Prop := {
  mi_ok : heap_ok lo bs (init_list base h);
  mi_fresh : h_freep h = 0 → bs = [];
  mi_live : live lo bs ≡ₚ map block_of own;
  mi_size : ∀ p n, (p, n) ∈ own → 0 ≤ n < 2 ^ 31 - 64
}.

Lemma init_list_ok lo bs h : heap_ok lo bs h → init_list base h = h.
Proof. clear. intros Hok%freep_pos. unfold init_list. rewrite (proj2 (Z.eqb_neq _ _)); [done|lia]. Qed.
Lemma init_fresh lo h : 0 < base < lo → lo ≤ 2 ^ 36 → h_freep h = 0 → h_brk h = lo → heap_ok lo [] (init_list base h).
Proof.
  clear. intros Hb Hlo Hf Hk. unfold init_list. rewrite Hf. simpl. split; simpl; try done.
  - by rewrite fn_lookup_insert.
  - by rewrite fn_lookup_insert.
  - set_solver.
  - hlia.
  - hlia.
Qed.

Lemma live_split lo bs a n : (a, n) ∈ live lo bs → ∃ l1 l2, bs = l1 ++ (n, false) :: l2 ∧ a = lo + HEADER * units l1.
Proof.
  clear. revert lo. induction bs as [|[k f] bs IH]; intros lo; simpl; [set_solver|]. intros [Hi|Hi]%elem_of_app.
  - destruct f; [set_solver|]. apply list_elem_of_singleton in Hi. simplify_eq. exists [], bs. split; [done|]. simpl. lia.
  - destruct (IH _ Hi) as (l1&l2&->&->). exists ((k, f) :: l1), l2. split; [done|]. simpl. hlia.
Qed.

Lemma minv_free lo h own p n own' bs : minv lo h (own ++ (p, n) :: own') bs →
  ∃ fuel h' bs', free h p fuel = Some h' ∧ minv lo h' (own ++ own') bs'.
Proof.
  intros [Hok Hfr Hlive Hsz]. assert ((p - HEADER, units_of n) ∈ live lo bs) as Hi.
  { rewrite Hlive. apply list_elem_of_fmap. exists (p, n). split; [done|set_solver]. }
  assert (init_list base h = h) as Eh.
  { unfold init_list in *. destruct (Z.eqb_spec (h_freep h) 0) as [E|]; [|done]. rewrite (Hfr E) in Hi. set_solver. }
  rewrite Eh in Hok. apply live_split in Hi as (l1&l2&->&Ep).
  destruct (free_ok base lo l1 (units_of n) l2 h (length l1 + length l2 + 3) Hok ltac:(lia)) as (h'&bs'&Hf&Hok'&Hl'&_).
  exists (length l1 + length l2 + 3)%nat, h', bs'. replace (lo + HEADER * units l1 + HEADER) with p in Hf by lia.
  split; [done|]. split.
  - by rewrite (init_list_ok lo bs').
  - intros E. apply freep_pos in Hok'. lia.
  - rewrite Hl'. rewrite live_app in Hlive. cbn [live app] in Hlive. rewrite <- Ep in *.
    rewrite map_app in *. cbn [map] in Hlive. change (block_of (p, n)) with (p - HEADER, units_of n) in Hlive.
    rewrite <- !Permutation_middle in Hlive. by apply Permutation_cons_inv in Hlive.
  - intros q m Hq. apply (Hsz q m). set_solver.
Qed.

Lemma minv_malloc lo h own n bs : minv lo h own bs → 0 ≤ n < 2 ^ 31 - 64 →
  ∃ fuel r h' bs', malloc base can_grow h n fuel = Some (r, h') ∧
    ((r = 0 ∧ minv lo h' own bs') ∨ (r ≠ 0 ∧ minv lo h' ((r, n) :: own) bs')).
Proof.
  intros [Hok Hfr Hlive Hsz] Hn. exists (2 * length bs + 7)%nat.
  destruct (malloc_ok lo bs h n (2 * length bs + 7) Hok Hn ltac:(lia)) as (r&h'&Hm&[(->&->&_)|(Hr&bs'&Hok'&Hl')]).
  - exists 0, (init_list base h), bs. split; [done|]. left. split; [done|]. split; try done.
    + by rewrite (init_list_ok lo bs).
    + intros E. apply freep_pos in Hok. lia.
  - exists r, h', bs'. split; [done|]. right. split; [lia|]. split.
    + by rewrite (init_list_ok lo bs').
    + intros E. apply freep_pos in Hok'. lia.
    + rewrite Hl'. simpl. by rewrite Hlive.
    + intros p m [E|Hi]%elem_of_cons; [by simplify_eq|by eapply Hsz].
Qed.

Lemma mreach_minv lo h own : 0 < base < lo → lo ≤ 2 ^ 36 → mreach lo h own → ∃ bs, minv lo h own bs.
Proof.
  intros Hb Hlo. induction 1 as [h Hf Hk|h own n fuel r h' _ [bs Hi] Hn Hm Hr|h own n fuel h' _ [bs Hi] Hn Hm|h own p n own' fuel h' _ [bs Hi] Hf].
  - exists []. split; [by apply init_fresh|done|done|set_solver].
  - destruct (minv_malloc lo h own n bs Hi Hn) as (k&r'&h2&bs'&Hm'&Hor).
    pose proof (malloc_loop_more _ _ _ _ _ (fuel + k) _ Hm ltac:(lia)) as E1.
    pose proof (malloc_loop_more _ _ _ _ _ (fuel + k) _ Hm' ltac:(lia)) as E2.
    rewrite E1 in E2. injection E2 as <- <-. destruct Hor as [[? _]|[_ ?]]; [done|eauto].
  - destruct (minv_malloc lo h own n bs Hi Hn) as (k&r'&h2&bs'&Hm'&Hor).
    pose proof (malloc_loop_more _ _ _ _ _ (fuel + k) _ Hm ltac:(lia)) as E1.
    pose proof (malloc_loop_more _ _ _ _ _ (fuel + k) _ Hm' ltac:(lia)) as E2.
    rewrite E1 in E2. injection E2 as <- <-. destruct Hor as [[_ ?]|[? _]]; [eauto|done].
  - destruct (minv_free lo h own p n own' bs Hi) as (k&h2&bs'&Hf'&?).
    pose proof (free_more _ _ _ (fuel + k) _ Hf ltac:(lia)) as E1. pose proof (free_more _ _ _ (fuel + k) _ Hf' ltac:(lia)) as E2.
    rewrite E1 in E2. injection E2 as <-. eauto.
Qed.

Lemma live_range h lo bs a n : sized h lo bs → (a, n) ∈ live lo bs → lo ≤ a ∧ a + HEADER * n ≤ lo + HEADER * units bs.
Proof.
  clear. intros Hs (l1&l2&->&->)%live_split. apply sized_app in Hs as [?%sized_pos (?&_&?%sized_pos)].
  rewrite units_app. simpl. hlia.
Qed.
Lemma live_disjoint h lo bs (i j : nat) a n b m : sized h lo bs → live lo bs !! i = Some (a, n) → live lo bs !! j = Some (b, m) →
  (i < j)%nat → a + HEADER * n ≤ b.
Proof.
  clear. revert lo i j. induction bs as [|[k f] bs IH]; intros lo i j; [done|]. intros (?&_&Hs).
  destruct f; simpl; [intros; eapply IH; eauto|]. destruct i as [|i], j as [|j]; simpl; intros Hi Hj ?; try lia.
  - simplify_eq. apply list_elem_of_lookup_2, (live_range h) in Hj; [lia|done].
  - apply (IH _ i j Hs); [done|done|lia].
Qed.
Lemma live_apart h lo bs (i j : nat) a n b m : sized h lo bs → live lo bs !! i = Some (a, n) → live lo bs !! j = Some (b, m) →
  i ≠ j → a + HEADER * n ≤ b ∨ b + HEADER * m ≤ a.
Proof.
  clear. intros Hs Hi Hj Hne. assert (i < j ∨ j < i)%nat as [?|?] by lia; [left|right]; by eapply live_disjoint.
Qed.

End malloc.

(** ** An example: two blocks, of which the first is freed *)
Module MallocDemo.
Definition hbase : Z := 4096.
Definition room (a b : Z) : bool := b <=? 1048576.
Definition heap0 : heap := Heap (λ _, 0) (λ _, 0) 0 8192.
Definition alloc (n : Z) (h : heap) : heap := match malloc hbase room h n 20 with Some (_, h) => h | None => h end.
Definition release (p : Z) (h : heap) : heap := match free h p 20 with Some h => h | None => h end.

Lemma room_small a b : room a b = true → b ≤ 2 ^ 36.
Proof. unfold room. lia. Qed.


(** A request near 2^32 bytes: the size in bytes that [morecore] passes to
    [sbrk] wraps around as an [int].  [malloc] answers a block of 2^28+1 units
    and the process has grown by 16 bytes. *)
Lemma malloc_huge_wraps :
  match malloc hbase room heap0 (2 ^ 32 - 1) 20 with
  | Some (p, h) => p ≠ 0 ∧ h_brk h = 8192 + 16 ∧ h_size h (p - HEADER) = 2 ^ 28 + 1
  | None => False
  end.
Proof. vm_compute. split_and!; [done|done|done]. Qed.
End MallocDemo.
