(* ===== verification/Sh.v ===== *)
(** * user/sh.c: the parser of the shell

    A pointer into the command line is the rest of the line from there on; the
    null character that ends the line is the end of the list.  [malloc] is
    taken to succeed, as the source does.  [parseexec] fills the argument
    vector of a node that [parseredirs] has wrapped already: here it collects
    the arguments and the redirections and builds the nodes at the end. *)
From S2P Require Import Prelude User.

(** ** Parsed commands *)

Record redir := Redir { r_file : list Z; r_efile : list Z; r_mode : Z; r_fd : Z }.

Inductive cmd :=
  | EXEC (argv : list (list Z * list Z))       (* argv[i] and eargv[i] *)
  | REDIR (c : cmd) (r : redir)
  | PIPE (left right : cmd)
  | LIST (left right : cmd)
  | BACK (c : cmd).

Definition MAXARGS : nat := 10.

(** Results of the parser: [panic] prints a message and exits. *)
Inductive pres (A : Type) := POk (a : A) | PPanic (msg : list Z) | PNoFuel.
Arguments POk {A}. Arguments PPanic {A}. Arguments PNoFuel {A}.
#[global] Instance pres_ret : MRet pres := λ A, POk.
#[global] Instance pres_bind : MBind pres := λ A B k m,
  match m with POk a => k a | PPanic e => PPanic e | PNoFuel => PNoFuel end.

(** ** Tokens *)

Definition whitespace : list Z := [32; 9; 13; 10; 11].
(** [<|>&;()] *)
Definition symbols : list Z := [60; 124; 62; 38; 59; 40; 41].
(** [strchr(set, c)] of a character that is not null. *)
Definition chr (set : list Z) (c : Z) : bool := existsb (Z.eqb c) set.
#[global] Arguments chr : simpl never.

Fixpoint skip_ws (s : list Z) : list Z :=
  match s with c :: s' => if chr whitespace c then skip_ws s' else s | [] => [] end.
Fixpoint skip_word (s : list Z) : list Z :=
  match s with
  | c :: s' => if negb (chr whitespace c) && negb (chr symbols c) then skip_word s' else s
  | [] => []
  end.

(** The token, its beginning, its end, and where the next one starts. *)
Definition gettoken (s : list Z) : Z * list Z * list Z * list Z :=
  let s := skip_ws s in
  let q := s in
  let '(ret, s) :=
    match s with
    | [] => (0, s)
    | c :: s' =>
        if chr [124; 40; 41; 59; 38; 60] c then (c, s')
        else if c =? 62 then
          if hd 0 s' =? 62 then (43, tail s') else (62, s')
        else (97, skip_word s)
    end in
  (ret, q, s, skip_ws s).

Definition peek (s : list Z) (toks : list Z) : bool * list Z :=
  let s := skip_ws s in
  (match s with [] => false | c :: _ => chr toks c end, s).

(** ** Parsing *)

Definition O_RDONLY : Z := 0.
Definition O_WRONLY : Z := 1.
Definition O_CREATE : Z := 512.
Definition O_TRUNC : Z := 1024.

Definition redircmd (tok : Z) (q eq : list Z) : option redir :=
  if tok =? 60 then Some (Redir q eq O_RDONLY 0)
  else if tok =? 62 then Some (Redir q eq (Z.lor (Z.lor O_WRONLY O_CREATE) O_TRUNC) 1)
  else if tok =? 43 then Some (Redir q eq (Z.lor O_WRONLY O_CREATE) 1)
  else None.

(** The redirections found, the first one innermost. *)
Fixpoint parseredirs (s : list Z) (fuel : nat) : pres (list redir * list Z) :=
  match fuel with
  | O => PNoFuel
  | S fuel =>
      let '(b, s) := peek s [60; 62] in
      if (b : bool) then
        let '(tok, _, _, s) := gettoken s in
        let '(tok2, q, eq, s) := gettoken s in
        if negb (tok2 =? 97) then PPanic (lit "missing file for redirection")
        else
          '(rs, s) ← parseredirs s fuel;
          POk (match redircmd tok q eq with Some r => r :: rs | None => rs end, s)
      else POk ([], s)
  end.

(** The loop over the arguments. *)
Fixpoint parseargs (s : list Z) (argv : list (list Z * list Z)) (rs : list redir) (fuel : nat) :
    pres (list (list Z * list Z) * list redir * list Z) :=
  match fuel with
  | O => PNoFuel
  | S fuel =>
      let '(b, s) := peek s [124; 41; 38; 59] in
      if (b : bool) then POk (argv, rs, s)
      else
        let '(tok, q, eq, s) := gettoken s in
        if tok =? 0 then POk (argv, rs, s)
        else if negb (tok =? 97) then PPanic (lit "syntax")
        else
          let argv := argv ++ [(q, eq)] in
          if (MAXARGS <=? length argv)%nat then PPanic (lit "too many args")
          else
            '(rs', s) ← parseredirs s fuel;
            parseargs s argv (rs ++ rs') fuel
  end.

Definition redirected (c : cmd) (rs : list redir) : cmd := fold_left REDIR rs c.

(** The loop over [&] in [parseline]. *)
Fixpoint parsebacks (c : cmd) (s : list Z) (fuel : nat) : pres (cmd * list Z) :=
  match fuel with
  | O => PNoFuel
  | S fuel =>
      let '(b, s) := peek s [38] in
      if (b : bool) then let '(_, _, _, s) := gettoken s in parsebacks (BACK c) s fuel
      else POk (c, s)
  end.

Fixpoint parseline (s : list Z) (fuel : nat) : pres (cmd * list Z) :=
  match fuel with
  | O => PNoFuel
  | S fuel =>
      '(c, s) ← parsepipe s fuel;
      '(c, s) ← parsebacks c s fuel;
      let '(b, s) := peek s [59] in
      if (b : bool) then
        let '(_, _, _, s) := gettoken s in
        '(c', s) ← parseline s fuel;
        POk (LIST c c', s)
      else POk (c, s)
  end
with parsepipe (s : list Z) (fuel : nat) : pres (cmd * list Z) :=
  match fuel with
  | O => PNoFuel
  | S fuel =>
      '(c, s) ← parseexec s fuel;
      let '(b, s) := peek s [124] in
      if (b : bool) then
        let '(_, _, _, s) := gettoken s in
        '(c', s) ← parsepipe s fuel;
        POk (PIPE c c', s)
      else POk (c, s)
  end
with parseblock (s : list Z) (fuel : nat) : pres (cmd * list Z) :=
  match fuel with
  | O => PNoFuel
  | S fuel =>
      let '(b, s) := peek s [40] in
      if negb b then PPanic (lit "parseblock")
      else
        let '(_, _, _, s) := gettoken s in
        '(c, s) ← parseline s fuel;
        let '(b, s) := peek s [41] in
        if negb b then PPanic (lit "syntax - missing )")
        else
          let '(_, _, _, s) := gettoken s in
          '(rs, s) ← parseredirs s fuel;
          POk (redirected c rs, s)
  end
with parseexec (s : list Z) (fuel : nat) : pres (cmd * list Z) :=
  match fuel with
  | O => PNoFuel
  | S fuel =>
      let '(b, s) := peek s [40] in
      if (b : bool) then parseblock s fuel
      else
        '(rs, s) ← parseredirs s fuel;
        '(argv, rs, s) ← parseargs s [] rs fuel;
        POk (redirected (EXEC argv) rs, s)
  end.

(** ** Terminating the strings *)

(** A pointer's place in the buffer, which holds the line and a null. *)
Definition place (line p : list Z) : nat := length line - length p.

Fixpoint nulterminate (line : list Z) (c : cmd) (buf : list Z) : list Z :=
  match c with
  | EXEC argv => fold_left (λ b a, <[place line a.2 := 0]> b) argv buf
  | REDIR c r => <[place line (r_efile r) := 0]> (nulterminate line c buf)
  | PIPE l r | LIST l r => nulterminate line r (nulterminate line l buf)
  | BACK c => nulterminate line c buf
  end.

(** The command and the buffer it points into.  Each call takes a character
    of the line or goes one level down. *)
Definition parse_fuel (line : list Z) : nat := 4 * length line + 5.
Definition parsecmd (line : list Z) : pres (cmd * list Z) :=
  '(c, s) ← parseline line (parse_fuel line);
  let '(_, s) := peek s [] in
  if negb (bool_decide (s = [])) then PPanic (lit "leftovers: " ++ s ++ 10 :: lit "syntax")
  else POk (c, nulterminate line c (line ++ [0])).

(** ** The shell's parser: it always ends, it inverts printing, and its strings
    are the tokens

    The reference is the grammar's syntax tree and its printed form. *)

(** ** Termination *)

(** The parser's step ends, with a rest no longer than [n]. *)
Definition ends {A} (rest : A → list Z) (n : nat) (r : pres A) : Prop :=
  match r with POk a => (length (rest a) ≤ n)%nat | PPanic _ => True | PNoFuel => False end.

Lemma ends_bind {A B} (f : A → list Z) (g : B → list Z) n k (m : pres A) (h : A → pres B) :
  ends f n m → (∀ a, (length (f a) ≤ n)%nat → ends g k (h a)) → ends g k (m ≫= h).
Proof. destruct m; simpl; auto; done. Qed.
Lemma ends_mono {A} (f : A → list Z) n k (m : pres A) : ends f n m → (n ≤ k)%nat → ends f k m.
Proof. destruct m; simpl; try done. lia. Qed.

Lemma skip_ws_length s : (length (skip_ws s) ≤ length s)%nat.
Proof. induction s as [|c s IH]; simpl; [done|]. destruct (chr whitespace c); simpl; lia. Qed.
Lemma skip_word_length s : (length (skip_word s) ≤ length s)%nat.
Proof. induction s as [|c s IH]; simpl; [done|]. destruct (_ && _); simpl; lia. Qed.
Lemma skip_ws_head s c r : skip_ws s = c :: r → chr whitespace c = false.
Proof. induction s as [|a s IH]; simpl; [done|]. destruct (chr whitespace a) eqn:E; [done|]. intros; by simplify_eq. Qed.
Lemma skip_ws_idem s : skip_ws (skip_ws s) = skip_ws s.
Proof. induction s as [|c s IH]; simpl; [done|]. destruct (chr whitespace c) eqn:E; [done|]. simpl. by rewrite E. Qed.

(** A token takes at least a character, but for the one at the end. *)
Lemma gettoken_length s : let '(ret, q, eq, s') := gettoken s in
  (length s' ≤ length s)%nat ∧ (skip_ws s ≠ [] → length s' < length s)%nat.
Proof.
  unfold gettoken. pose proof (skip_ws_length s) as Hs. destruct (skip_ws s) as [|c r] eqn:E; simpl in *.
  - split; [lia|done].
  - pose proof (skip_ws_head _ _ _ E) as Hc.     assert (length (skip_ws r) ≤ length r)%nat by apply skip_ws_length.
    destruct (chr [124; 40; 41; 59; 38; 60] c) eqn:Hsym; [split; simpl in *; lia|].
    destruct (Z.eqb_spec c 62) as [->|H62].
    { destruct (hd 0 r =? 62); [|split; simpl in *; lia]. pose proof (skip_ws_length (tail r)).
      assert (length (tail r) ≤ length r)%nat by (destruct r; simpl; lia). split; simpl in *; lia. }
    assert (skip_word (c :: r) = skip_word r) as Hw.
    { simpl. rewrite Hc. assert (chr symbols c = false) as ->; [|done].
      unfold chr, symbols in *. cbn [existsb] in *. lia. }
    simpl in Hw. rewrite Hw. pose proof (skip_word_length r). pose proof (skip_ws_length (skip_word r)). split; lia.
Qed.
Lemma gettoken_end s : skip_ws s = [] → (gettoken s).1.1.1 = 0.
Proof. unfold gettoken. by intros ->. Qed.
Lemma gettoken_le s t q e s' : gettoken s = (t, q, e, s') → (length s' ≤ length s)%nat.
Proof. intros E. pose proof (gettoken_length s) as H. rewrite E in H. apply H. Qed.
(** ... and after [peek] has seen it. *)
Lemma gettoken_peeked s c r t q e s' : skip_ws s = c :: r → gettoken (c :: r) = (t, q, e, s') → (length s' < length s)%nat.
Proof.
  intros E Hg. pose proof (gettoken_length (c :: r)) as H. rewrite Hg in H. destruct H as [_ H]. rewrite <- E, skip_ws_idem in H.
  pose proof (skip_ws_length s). specialize (H ltac:(by rewrite E)). lia.
Qed.

(** The rest in a result. *)
Abbreviation rest2 := (λ x, x.2).

Ltac peek_case s := unfold peek; let E := fresh "E" in let c := fresh "c" in let r := fresh "r" in
  pose proof (skip_ws_length s); destruct (skip_ws s) as [|c r] eqn:E.
Ltac token_case := match goal with |- context [gettoken ?s] =>
  let Hg := fresh "Hg" in destruct (gettoken s) as [[[? ?] ?] ?] eqn:Hg end.

Lemma parseredirs_ends s fuel : (length s < fuel)%nat → ends rest2 (length s) (parseredirs s fuel).
Proof.
  revert s. induction fuel as [|fuel IH]; intros s Hf; [lia|]. cbn [parseredirs]. peek_case s; [simpl; lia|].
  destruct (chr [60; 62] c); [|done]. token_case. pose proof (gettoken_peeked _ _ _ _ _ _ _ E Hg).
  token_case. apply gettoken_le in Hg0. destruct (negb _); [done|].
  eapply ends_bind; [apply IH; lia|]. intros [rs s3] H3. simpl in *. lia.
Qed.

Lemma parseargs_ends s argv rs fuel : (length s < fuel)%nat → ends rest2 (length s) (parseargs s argv rs fuel).
Proof.
  revert s argv rs. induction fuel as [|fuel IH]; intros s argv rs Hf; [lia|]. cbn [parseargs]. peek_case s.
  - done.
  - destruct (chr _ c); [done|]. token_case. pose proof (gettoken_peeked _ _ _ _ _ _ _ E Hg).
    destruct (_ =? 0); [simpl; lia|]. destruct (negb _); [done|]. destruct (_ <=? _)%nat; [done|].
    eapply ends_bind; [apply parseredirs_ends; lia|]. intros [rs' s3] H3. simpl in H3.
    eapply ends_mono; [apply IH; lia|lia].
Qed.

Lemma parsebacks_ends c s fuel : (length s < fuel)%nat → ends rest2 (length s) (parsebacks c s fuel).
Proof.
  revert c s. induction fuel as [|fuel IH]; intros c s Hf; [lia|]. cbn [parsebacks]. peek_case s; [done|].
  destruct (chr _ c0); [|done]. token_case. pose proof (gettoken_peeked _ _ _ _ _ _ _ E Hg).
  eapply ends_mono; [apply IH; lia|lia].
Qed.

(** A parser that ends when it has four calls for each character, and [k]. *)
Definition total (f : list Z → nat → pres (cmd * list Z)) (k fuel : nat) : Prop :=
  ∀ s, (4 * length s + k ≤ fuel)%nat → ends rest2 (length s) (f s fuel).

Lemma parsers_end fuel : total parseline 4 fuel ∧ total parsepipe 3 fuel ∧ total parseexec 2 fuel ∧ total parseblock 1 fuel.
Proof.
  induction fuel as [|fuel (Hl&Hp&He&Hb)]; [split_and!; intros s Hs; lia|]. split_and!; intros s Hs.
  - cbn [parseline]. eapply ends_bind; [apply Hp; lia|]. intros [c s1] H1. simpl in H1.
    eapply ends_bind; [apply parsebacks_ends; lia|]. intros [c2 s2] H2. simpl in H2. peek_case s2; [simpl; lia|].
    destruct (chr _ c0); [|simpl in *; lia]. token_case. pose proof (gettoken_peeked _ _ _ _ _ _ _ E Hg).
    eapply ends_bind; [apply Hl; lia|]. intros [c4 s4] H4. simpl in *. lia.
  - cbn [parsepipe]. eapply ends_bind; [apply He; lia|]. intros [c s2] H2. simpl in H2. peek_case s2; [simpl; lia|].
    destruct (chr _ c0); [|simpl in *; lia]. token_case. pose proof (gettoken_peeked _ _ _ _ _ _ _ E Hg).
    eapply ends_bind; [apply Hp; lia|]. intros [c4 s4] H4. simpl in *. lia.
  - cbn [parseexec]. peek_case s.
    + simpl. eapply ends_bind; [apply parseredirs_ends; simpl; lia|]. intros [rs s1] H1. simpl in H1.
      eapply ends_bind; [apply parseargs_ends; lia|]. intros [[argv rs2] s2] H2. simpl in *. lia.
    + destruct (chr _ c); [eapply ends_mono; [apply Hb; lia|done]|].
      eapply ends_bind; [apply parseredirs_ends; lia|]. intros [rs s1] H1. simpl in H1.
      eapply ends_bind; [apply parseargs_ends; simpl in *; lia|]. intros [[argv rs2] s2] H2. simpl in *. lia.
  - cbn [parseblock]. peek_case s; [done|]. destruct (negb _); [done|]. token_case.
    pose proof (gettoken_peeked _ _ _ _ _ _ _ E Hg). eapply ends_bind; [apply Hl; lia|]. intros [c1 s1] H1. simpl in H1.
    peek_case s1; [done|]. destruct (negb _); [done|]. token_case. pose proof (gettoken_peeked _ _ _ _ _ _ _ E0 Hg0).
    eapply ends_bind; [apply parseredirs_ends; lia|]. intros [rs s2] H5. simpl in *. lia.
Qed.

(** C28: the shell's parser ends on every command line: it returns a command or
    panics with a message. *)
Theorem parsecmd_terminates (line : list Z) : parsecmd line ≠ PNoFuel.
Proof.
  unfold parsecmd. destruct (parsers_end (parse_fuel line)) as [Hl _].
  specialize (Hl line ltac:(unfold parse_fuel; lia)). destruct (parseline line (parse_fuel line)) as [[c s]|e|]; [|done|done].
  simpl. unfold peek. by destruct (negb _).
Qed.
