(* ===== verification/ShShow.v ===== *)
(** * The shell's parser inverts printing

    [show] prints a syntax tree as a command line; the parser reads the same
    tree back, and after [nulterminate] the strings of the command, as [runcmd]
    finds them in the buffer, are the words of the tree. *)
From S2P Require Import Prelude Sh.

(** ** Syntax trees and their printed form *)

Inductive rkind := FromFile | ToFile | AppendTo.
Inductive ast :=
  | AExec (argv : list (list Z))
  | ARedir (a : ast) (k : rkind) (file : list Z)
  | APipe (l r : ast)
  | AList (l r : ast)
  | ABack (a : ast).

Definition mode_of (k : rkind) : Z := match k with FromFile => 0 | ToFile => 1537 | AppendTo => 513 end.
Definition fd_of (k : rkind) : Z := match k with FromFile => 0 | _ => 1 end.
Definition sign (k : rkind) : list Z := match k with FromFile => [60] | ToFile => [62] | AppendTo => [62; 62] end.

Definition word_char (c : Z) : bool := negb (chr whitespace c) && negb (chr symbols c) && negb (c =? 0).
Definition word (w : list Z) : Prop := w ≠ [] ∧ Forall (λ c, word_char c = true) w.

(** How tightly a tree binds: commands, pipelines, background, lists. *)
Definition level (a : ast) : nat :=
  match a with AExec _ | ARedir _ _ _ => 0 | APipe _ _ => 1 | ABack _ => 2 | AList _ _ => 3 end.

Fixpoint show_words (ws : list (list Z)) : list Z :=
  match ws with
  | [] => []
  | w :: ws => w ++ match ws with [] => [] | _ => 32 :: show_words ws end
  end.
Fixpoint show_redirs (rs : list (rkind * list Z)) : list Z :=
  match rs with [] => [] | (k, f) :: rs => sign k ++ f ++ show_redirs rs end.

Fixpoint show (a : ast) : list Z :=
  let within n x := if (level x <=? n)%nat then show x else 40 :: show x ++ [41] in
  match a with
  | AExec ws => show_words ws
  | ARedir a k f => within 0%nat a ++ sign k ++ f
  | APipe l r => within 0%nat l ++ 124 :: within 1%nat r
  | ABack a => within 2%nat a ++ [38]
  | AList l r => within 2%nat l ++ 59 :: within 3%nat r
  end.
Definition show_at (n : nat) (a : ast) : list Z := if (level a <=? n)%nat then show a else 40 :: show a ++ [41].

Fixpoint wf (a : ast) : Prop :=
  match a with
  | AExec ws => Forall word ws ∧ (length ws < MAXARGS)%nat
  | ARedir a _ f => wf a ∧ word f
  | APipe l r | AList l r => wf l ∧ wf r
  | ABack a => wf a
  end.

(** The command [c] is the tree [a], when [str] gives the string of a token. *)
Fixpoint reads (str : list Z * list Z → list Z) (c : cmd) (a : ast) : Prop :=
  match c, a with
  | EXEC argv, AExec ws => map str argv = ws
  | REDIR c r, ARedir a k f => reads str c a ∧ str (r_file r, r_efile r) = f ∧ r_mode r = mode_of k ∧ r_fd r = fd_of k
  | PIPE l r, APipe l' r' | LIST l r, AList l' r' => reads str l l' ∧ reads str r r'
  | BACK c, ABack a => reads str c a
  | _, _ => False
  end.

(** The characters from a token's beginning to its end. *)
Definition tok (p : list Z * list Z) : list Z := take (length p.1 - length p.2) p.1.

Lemma tok_app w r : tok (w ++ r, r) = w.
Proof. unfold tok. simpl. rewrite length_app, Nat.add_sub. by rewrite take_app_length. Qed.

(** ** Tokens of a printed line *)

(** A line that continues with one of the symbols [toks], or ends. *)
Definition stops (toks s : list Z) : Prop := match s with [] => True | c :: _ => chr toks c = true end.
Definition no_ws (s : list Z) : Prop := match s with [] => True | c :: _ => chr whitespace c = false end.

Lemma skip_no_ws s : no_ws s → skip_ws s = s.
Proof. destruct s; simpl; [done|]. by intros ->. Qed.
Lemma chr_in set c : chr set c = true ↔ c ∈ set.
Proof.
  unfold chr. rewrite existsb_exists. split.
  - intros (x&Hx&E). apply Z.eqb_eq in E as ->. by apply list_elem_of_In.
  - intros Hc. exists c. split; [by apply list_elem_of_In|apply Z.eqb_refl].
Qed.
Lemma stops_sub toks toks' s : (∀ c, c ∈ toks → c ∈ toks') → stops toks s → stops toks' s.
Proof. destruct s; simpl; [done|]. rewrite !chr_in. auto. Qed.
Lemma symbol_no_ws c : chr symbols c = true → chr whitespace c = false.
Proof. unfold chr, symbols, whitespace. simpl. lia. Qed.
Lemma stops_no_ws s : stops symbols s → no_ws s.
Proof. destruct s; simpl; [done|]. apply symbol_no_ws. Qed.
Lemma word_char_out c : word_char c = true → chr whitespace c = false ∧ chr symbols c = false ∧ c ≠ 0.
Proof. unfold word_char. destruct (chr whitespace c), (chr symbols c); simpl; try done. intros. split_and!; [done|done|lia]. Qed.

Lemma skip_word_app w r : Forall (λ c, word_char c = true) w → (match r with [] => True | c :: _ => word_char c = false ∧ c ≠ 0 end) →
  skip_word (w ++ r) = r.
Proof.
  induction 1 as [|c w Hc _ IH]; simpl.
  - destruct r as [|c r]; simpl; [done|]. unfold word_char. intros [E Hz].
    destruct (chr whitespace c), (chr symbols c); simpl in *; try done. lia.
  - intros Hr. apply word_char_out in Hc as (->&->&_). simpl. auto.
Qed.
Lemma symbols_sub set c : set ⊆ symbols → chr symbols c = false → chr set c = false.
Proof. rewrite <- !not_true_iff_false, !chr_in. set_solver. Qed.

Lemma gettoken_word w r : word w → (match r with [] => True | c :: _ => word_char c = false ∧ c ≠ 0 end) →
  gettoken (w ++ r) = (97, w ++ r, r, skip_ws r).
Proof.
  intros [Hne Hw] Hr. destruct w as [|c w]; [done|]. pose proof Hw as Hw0. apply Forall_cons in Hw as [Hc _].
  apply word_char_out in Hc as (Hc1&Hc2&_). unfold gettoken. simpl app. rewrite skip_no_ws by done.
  rewrite (symbols_sub _ c) by (done || set_solver). rewrite (proj2 (Z.eqb_neq c 62)).
  - change (c :: w ++ r) with ((c :: w) ++ r). by rewrite skip_word_app.
  - intros ->. done.
Qed.
Lemma gettoken_symbol c r : chr [124; 40; 41; 59; 38; 60] c = true → gettoken (c :: r) = (c, c :: r, r, skip_ws r).
Proof.
  intros Hc. unfold gettoken. assert (chr whitespace c = false) as Hw by (apply symbol_no_ws, chr_in; apply chr_in in Hc; set_solver).
  rewrite skip_no_ws by done. by rewrite Hc.
Qed.
Lemma peek_stop s toks : no_ws s → peek s toks = (match s with [] => false | c :: _ => chr toks c end, s).
Proof. intros Hs. unfold peek. by rewrite skip_no_ws. Qed.

(** ** Redirections *)

Definition ends_word (s : list Z) : Prop := match s with [] => True | c :: _ => word_char c = false ∧ c ≠ 0 end.
Lemma stops_ends_word s : stops symbols s → ends_word s.
Proof.
  destruct s; simpl; [done|]. intros Hs. split; [|by intros ->].
  unfold word_char. rewrite Hs. by rewrite andb_false_r.
Qed.
Lemma word_no_ws w r : word w → no_ws (w ++ r).
Proof. intros [Hne Hw]. destruct w; [done|]. simpl. apply Forall_cons in Hw as [Hw _]. by apply word_char_out in Hw as (?&_). Qed.

Definition redir_is (r : redir) (x : rkind * list Z) : Prop :=
  tok (r_file r, r_efile r) = x.2 ∧ r_mode r = mode_of x.1 ∧ r_fd r = fd_of x.1.

Lemma gettoken_sign k f r : word f →
  ∃ t q e, gettoken (sign k ++ f ++ r) = (t, q, e, f ++ r) ∧
    ∀ p p', redircmd t p p' = Some (Redir p p' (mode_of k) (fd_of k)).
Proof.
  intros Hf. pose proof (word_no_ws f r Hf) as Hn. destruct k; simpl sign; simpl app.
  - rewrite gettoken_symbol by done. rewrite skip_no_ws by done. by eexists _, _, _.
  - unfold gettoken. rewrite (skip_no_ws (62 :: f ++ r)) by done. change (chr [124; 40; 41; 59; 38; 60] 62) with false.
    rewrite Z.eqb_refl. assert ((hd 0 (f ++ r) =? 62) = false) as ->.
    { destruct Hf as [Hne Hw]. destruct f as [|c f]; [done|]. simpl. apply Forall_cons in Hw as [Hw _].
      apply Z.eqb_neq. intros ->. done. }
    cbv iota zeta. rewrite skip_no_ws by done. by eexists _, _, _.
  - unfold gettoken. rewrite (skip_no_ws (62 :: 62 :: f ++ r)) by done. change (chr [124; 40; 41; 59; 38; 60] 62) with false.
    rewrite Z.eqb_refl. cbn [hd]. rewrite Z.eqb_refl. cbn [tail]. cbv iota zeta. rewrite skip_no_ws by done. by eexists _, _, _.
Qed.

Lemma parseredirs_none s fuel : no_ws s → match s with [] => True | c :: _ => chr [60; 62] c = false end → (0 < fuel)%nat →
  parseredirs s fuel = POk ([], s).
Proof.
  intros Hs Hc Hf. destruct fuel; [lia|]. cbn [parseredirs]. rewrite peek_stop by done. destruct s; [done|]. by rewrite Hc.
Qed.

Lemma parseredirs_show rs rest fuel : Forall (λ x, word x.2) rs → stops [124; 41; 38; 59] rest →
  (length (show_redirs rs ++ rest) < fuel)%nat →
  ∃ rs', parseredirs (show_redirs rs ++ rest) fuel = POk (rs', rest) ∧ Forall2 redir_is rs' rs.
Proof.
  intros Hrs Hrest. assert (stops symbols rest) as Hsym by (eapply stops_sub; [|done]; set_solver).
  revert fuel. induction Hrs as [|[k f] rs Hf Hrs IH]; intros fuel Hfuel.
  - exists []. split; [|done]. apply parseredirs_none; [by apply stops_no_ws| |simpl in *; lia].
    destruct rest; simpl in *; [done|]. apply not_true_iff_false. rewrite chr_in in *. set_solver by lia.
  - destruct fuel as [|fuel]; [lia|]. cbn [show_redirs parseredirs] in *. rewrite <- !app_assoc in *. simpl in Hf.
    assert (no_ws (sign k ++ f ++ show_redirs rs ++ rest)) as Hnw by (by destruct k).
    rewrite peek_stop by done.
    replace (match sign k ++ f ++ show_redirs rs ++ rest with [] => false | c :: _ => chr [60; 62] c end) with true by (by destruct k).
    destruct (gettoken_sign k f (show_redirs rs ++ rest) Hf) as (t&q&e&->&Hr).
    assert (ends_word (show_redirs rs ++ rest)) as He.
    { destruct rs as [|[[] ?] ?]; simpl; [by apply stops_ends_word|done|done|done]. }
    rewrite (gettoken_word f _ Hf He). simpl. rewrite !length_app in Hfuel.
    assert (0 < length f)%nat by (destruct Hf as [Hne _]; destruct f; simpl; [done|lia]).
    assert (skip_ws (show_redirs rs ++ rest) = show_redirs rs ++ rest) as ->.
    { apply skip_no_ws. destruct rs as [|[[] ?] ?]; simpl; [by apply stops_no_ws|done|done|done]. }
    destruct (IH fuel) as (rs'&->&HF); [rewrite length_app; lia|]. simpl. rewrite Hr. eexists. split; [done|].
    constructor; [|done]. unfold redir_is. simpl. rewrite tok_app. done.
Qed.

(** ** Arguments *)

Abbreviation after_exec := [124; 41; 38; 59].
Abbreviation amps n := (repeat 38%Z n).

Lemma redirs_rest rs rest : stops after_exec rest →
  no_ws (show_redirs rs ++ rest) ∧ ends_word (show_redirs rs ++ rest).
Proof.
  intros Hrest. assert (stops symbols rest) by (eapply stops_sub; [|done]; set_solver).
  destruct rs as [|[[] ?] ?]; simpl; [|done..]. split; [by apply stops_no_ws|by apply stops_ends_word].
Qed.
Lemma word_head_not_symbol set w r : set ⊆ symbols → word w → match w ++ r with [] => True | c :: _ => chr set c = false end.
Proof.
  intros Hset [Hne Hw]. destruct w as [|c w]; [done|]. simpl. apply Forall_cons in Hw as [Hw _].
  apply word_char_out in Hw as (_&Hw&_). by apply symbols_sub.
Qed.
Lemma parseargs_stop s argv rs fuel : stops after_exec s → (0 < fuel)%nat → parseargs s argv rs fuel = POk (argv, rs, s).
Proof.
  intros Hs Hf. destruct fuel; [lia|]. cbn [parseargs].
  assert (no_ws s) as Hn by (apply stops_no_ws; eapply stops_sub; [|done]; set_solver).
  rewrite peek_stop by done. destruct s as [|c s]; [done|]. simpl in Hs. by rewrite Hs.
Qed.

Lemma parseargs_show ws rs rest argv rs0 fuel : Forall word ws → Forall (λ x, word x.2) rs → ws ≠ [] →
  stops after_exec rest → (length argv + length ws < MAXARGS)%nat →
  (length (show_words ws ++ show_redirs rs ++ rest) < fuel)%nat →
  ∃ argv' rs', parseargs (show_words ws ++ show_redirs rs ++ rest) argv rs0 fuel = POk (argv ++ argv', rs0 ++ rs', rest) ∧
    map tok argv' = ws ∧ Forall2 redir_is rs' rs.
Proof.
  intros Hws Hrs Hne Hrest. revert argv rs0 fuel. induction Hws as [|w ws Hw Hws IH]; intros argv rs0 fuel Hmax Hf; [done|]. clear Hne.
  destruct fuel as [|fuel]; [lia|]. destruct (redirs_rest rs rest Hrest) as [Hnr Her].
  set (X := (match ws with [] => [] | _ => 32 :: show_words ws end) ++ show_redirs rs ++ rest).
  assert (show_words (w :: ws) ++ show_redirs rs ++ rest = w ++ X) as EX by (unfold X; simpl; by rewrite <- app_assoc).
  rewrite EX in Hf |- *. cbn [parseargs]. rewrite peek_stop by (by apply word_no_ws).
  assert (0 < length w)%nat by (destruct Hw as [? _]; destruct w; simpl; [done|lia]). rewrite length_app in Hf.
  assert (match w ++ X with [] => false | c :: _ => chr after_exec c end = false) as ->.
  { pose proof (word_head_not_symbol after_exec w X ltac:(set_solver) Hw). by destruct (w ++ X). }
  assert (ends_word X) as HeX by (unfold X; destruct ws; simpl; [done|done]).
  rewrite (gettoken_word w X Hw HeX). change (97 =? 0) with false. change (negb (97 =? 97)) with false. cbv iota.
  rewrite (proj2 (Nat.leb_gt _ _)) by (rewrite length_app; simpl in *; lia).
  destruct ws as [|w2 ws].
  - assert (skip_ws X = show_redirs rs ++ rest) as -> by (by apply skip_no_ws).
    destruct (parseredirs_show rs rest fuel) as (rs'&->&HF); [done|done|unfold X in Hf; simpl in *; lia|].
    cbn [mbind pres_bind]. cbv beta iota. rewrite parseargs_stop by (done || lia).
    exists [(w ++ X, X)], rs'. split_and!; [done|simpl; by rewrite tok_app|done].
  - assert (skip_ws X = show_words (w2 :: ws) ++ show_redirs rs ++ rest) as EX2.
    { unfold X. change (skip_ws (show_words (w2 :: ws) ++ show_redirs rs ++ rest) = show_words (w2 :: ws) ++ show_redirs rs ++ rest).
      apply skip_no_ws. simpl. rewrite <- app_assoc. apply word_no_ws. by inversion Hws. }
    rewrite EX2. assert (word w2) as Hw2 by (by inversion Hws).
    rewrite parseredirs_none; [| |..|lia].
    2: { simpl. rewrite <- app_assoc. by apply word_no_ws. }
    2: { simpl. rewrite <- app_assoc. apply word_head_not_symbol; [set_solver|done]. }
    cbn [mbind pres_bind]. cbv beta iota. rewrite app_nil_r.
    destruct (IH ltac:(done) (argv ++ [(w ++ X, X)]) rs0 fuel) as (argv'&rs'&->&Htok&HF).
    { rewrite length_app. simpl in *. lia. }
    { unfold X in Hf. simpl in Hf |- *. rewrite !length_app in Hf |- *. simpl in Hf. lia. }
    exists ((w ++ X, X) :: argv'), rs'. split_and!; [by rewrite <- app_assoc|cbn [map]; by rewrite tok_app, Htok|done].
Qed.

(** ** The levels of the grammar *)

(** What each parser does with a printed tree, and the redirections, [&]s or
    nothing that follow it. *)
Definition exec_ok (a : ast) : Prop := ∀ rs rest fuel, Forall (λ x, word x.2) rs → stops after_exec rest →
  (4 * length (show_at 0 a ++ show_redirs rs ++ rest) + 2 ≤ fuel)%nat →
  ∃ c rs', parseexec (show_at 0 a ++ show_redirs rs ++ rest) fuel = POk (redirected c rs', rest) ∧
    reads tok c a ∧ Forall2 redir_is rs' rs.
Definition pipe_ok (a : ast) : Prop := ∀ rest fuel, stops [41; 38; 59] rest →
  (4 * length (show_at 1 a ++ rest) + 3 ≤ fuel)%nat →
  ∃ c, parsepipe (show_at 1 a ++ rest) fuel = POk (c, rest) ∧ reads tok c a.
Definition back_ok (a : ast) : Prop := ∀ n rest fuel, stops [41; 59] rest →
  (4 * length (show_at 2 a ++ amps n ++ rest) + 3 ≤ fuel)%nat →
  ∃ c, ('(c, s) ← parsepipe (show_at 2 a ++ amps n ++ rest) fuel; parsebacks c s fuel) =
    POk (Nat.iter n BACK c, rest) ∧ reads tok c a.
Definition line_ok (a : ast) : Prop := ∀ rest fuel, stops [41] rest →
  (4 * length (show_at 3 a ++ rest) + 4 ≤ fuel)%nat →
  ∃ c, parseline (show_at 3 a ++ rest) fuel = POk (c, rest) ∧ reads tok c a.

Lemma stops_sub_no_ws toks s : toks ⊆ symbols → stops toks s → no_ws s.
Proof. intros. apply stops_no_ws. eapply stops_sub; [|done]. set_solver. Qed.
(** [peek] for a symbol that does not follow. *)
Lemma peek_other toks toks' s : toks ⊆ symbols → (∀ c, c ∈ toks → c ∉ toks') → stops toks s → peek s toks' = (false, s).
Proof.
  intros Hsub Hdis Hs. rewrite peek_stop by (by eapply stops_sub_no_ws). destruct s as [|c s]; [done|]. simpl in Hs.
  apply chr_in in Hs. f_equal. apply not_true_iff_false. rewrite chr_in. auto.
Qed.
Lemma peek_symbol c s toks : chr symbols c = true → chr toks c = true → peek (c :: s) toks = (true, c :: s).
Proof. intros Hc Ht. rewrite peek_stop by (by apply symbol_no_ws). by rewrite Ht. Qed.

Lemma show_at_same n m a : (level a ≤ n ↔ level a ≤ m)%nat → show_at n a = show_at m a.
Proof. intros H. unfold show_at. by destruct (Nat.leb_spec (level a) n), (Nat.leb_spec (level a) m); try lia. Qed.

Lemma pipe_of_exec a : level a ≠ 1%nat → exec_ok a → pipe_ok a.
Proof.
  intros Hl He rest fuel Hrest Hf. rewrite (show_at_same 1 0) in Hf |- * by lia. destruct fuel as [|fuel]; [lia|].
  destruct (He [] rest fuel) as (c&rs'&E&Hr&HF); [done|eapply stops_sub; [|done]; set_solver|simpl in *; lia|].
  inversion HF; subst. exists c. split; [|done]. cbn [parsepipe]. simpl in E. rewrite E. cbn [mbind pres_bind].
  rewrite (peek_other [41; 38; 59]) by (done || set_solver by lia). done.
Qed.

Lemma parsebacks_show c n rest fuel : stops [41; 59] rest → (length (amps n ++ rest) < fuel)%nat →
  parsebacks c (amps n ++ rest) fuel = POk (Nat.iter n BACK c, rest).
Proof.
  intros Hrest. revert c fuel. induction n as [|n IH]; intros c fuel Hf; (destruct fuel as [|fuel]; [lia|]); cbn [parsebacks repeat app].
  - rewrite (peek_other [41; 59]) by (done || set_solver by lia). done.
  - rewrite peek_symbol by done. rewrite gettoken_symbol by done. rewrite skip_no_ws.
    2: { destruct n; simpl; [|done]. by eapply stops_sub_no_ws; [|done]; set_solver. }
    rewrite IH by (simpl in Hf; lia). by rewrite <- Nat.iter_succ_r.
Qed.

Lemma back_of_pipe a : level a ≠ 2%nat → pipe_ok a → back_ok a.
Proof.
  intros Hl Hp n rest fuel Hrest Hf. rewrite (show_at_same 2 1) in Hf |- * by lia.
  destruct (Hp (amps n ++ rest) fuel) as (c&->&Hr); [destruct n; simpl; [eapply stops_sub; [|done]; set_solver|done]|lia|].
  exists c. split; [|done]. cbn [mbind pres_bind]. apply parsebacks_show; [done|]. rewrite length_app in Hf. lia.
Qed.

Lemma line_of_back a : level a ≠ 3%nat → back_ok a → line_ok a.
Proof.
  intros Hl Hb rest fuel Hrest Hf. rewrite (show_at_same 3 2) in Hf |- * by lia. destruct fuel as [|fuel]; [lia|].
  destruct (Hb 0%nat rest fuel) as (c&E&Hr); [eapply stops_sub; [|done]; set_solver|simpl; lia|].
  exists c. split; [|done]. cbn [parseline]. simpl repeat in E. simpl app in E.
  destruct (parsepipe _ fuel) as [[c1 s1]| |]; [|done|done]. cbn [mbind pres_bind] in E |- *. rewrite E. cbn [mbind pres_bind].
  rewrite (peek_other [41]) by (done || set_solver by lia). done.
Qed.

(** A printed tree does not start with a space. *)
Lemma show_no_ws a r : wf a → no_ws r → no_ws (show a ++ r) ∧ ∀ n, no_ws (show_at n a ++ r).
Proof.
  intros Hw Hr. assert (no_ws (show a ++ r)) as H; [|split; [done|]; intros n; unfold show_at; by destruct (_ <=? _)%nat].
  revert r Hw Hr. induction a as [ws|a IH k f|l IHl r' IHr|l IHl r' IHr|a IH]; intros r Hw Hr; cbn [show wf] in *.
  - destruct Hw as [Hw _]. destruct ws as [|w ws]; [done|]. simpl. rewrite <- app_assoc. apply word_no_ws. by inversion Hw.
  - destruct (_ <=? _)%nat; [|done]. rewrite <- app_assoc. apply IH; [tauto|]. by destruct k.
  - destruct (_ <=? _)%nat; [|done]. rewrite <- app_assoc. apply IHl; [tauto|done].
  - destruct (_ <=? _)%nat; [|done]. rewrite <- app_assoc. apply IHl; [tauto|done].
  - destruct (_ <=? _)%nat; [|done]. rewrite <- app_assoc. by apply IH.
Qed.

Lemma exec_of_line a : wf a → level a ≠ 0%nat → line_ok a → exec_ok a.
Proof.
  intros Hw Hl HL rs rest fuel Hrs Hrest Hf.
  assert (show_at 0 a = 40 :: show_at 3 a ++ [41]) as E0.
  { unfold show_at. destruct (Nat.leb_spec (level a) 0); [lia|]. destruct (Nat.leb_spec (level a) 3); [done|]. destruct a; simpl in *; lia. }
  rewrite E0 in Hf |- *. rewrite <- app_comm_cons, <- app_assoc in Hf |- *. simpl app in Hf |- *.
  destruct fuel as [|[|fuel]]; simpl in Hf; [lia|lia|]. cbn [parseexec]. rewrite peek_symbol by done. cbv iota.
  cbn [parseblock]. rewrite peek_symbol by done. cbn [negb]. cbv iota. rewrite gettoken_symbol by done.
  rewrite skip_no_ws by (by apply show_no_ws).
  destruct (HL (41 :: show_redirs rs ++ rest) fuel) as (c&->&Hr); [done|lia|]. cbn [mbind pres_bind].
  rewrite peek_symbol by done. cbn [negb]. cbv iota. rewrite gettoken_symbol by done.
  rewrite skip_no_ws by (by apply redirs_rest). rewrite length_app in Hf. simpl in Hf.
  destruct (parseredirs_show rs rest fuel) as (rs'&->&HF); [done|done|lia|]. exists c, rs'. done.
Qed.

(** ** Every tree *)

Lemma exec_exec ws : wf (AExec ws) → exec_ok (AExec ws).
Proof.
  intros [Hw Hmax] rs rest fuel Hrs Hrest Hf. change (show_at 0 (AExec ws)) with (show_words ws) in *.
  destruct fuel as [|fuel]; [lia|]. cbn [parseexec]. destruct (redirs_rest rs rest Hrest) as [Hnr _].
  destruct ws as [|w ws].
  - simpl app in *. rewrite peek_stop by done.
    replace (match show_redirs rs ++ rest with [] => false | c :: _ => chr [40] c end) with false.
    2: { destruct rs as [|[[] ?] ?]; simpl; [|done..]. destruct rest as [|c rest]; [done|]. simpl in Hrest. apply chr_in in Hrest.
         symmetry. apply not_true_iff_false. rewrite chr_in. set_solver by lia. }
    cbv iota. destruct (parseredirs_show rs rest fuel) as (rs'&->&HF); [done|done|lia|]. cbn [mbind pres_bind].
    rewrite parseargs_stop by (done || lia). exists (EXEC []), rs'. done.
  - assert (word w) as Hw1 by (by inversion Hw).
    assert (∃ X, show_words (w :: ws) ++ show_redirs rs ++ rest = w ++ X) as [X EX] by (eexists; simpl; by rewrite <- app_assoc).
    rewrite peek_stop by (rewrite EX; by apply word_no_ws).
    replace (match show_words (w :: ws) ++ show_redirs rs ++ rest with [] => false | c :: _ => chr [40] c end) with false.
    2: { rewrite EX. pose proof (word_head_not_symbol [40] w X ltac:(set_solver) Hw1). by destruct (w ++ X). }
    cbv iota. rewrite parseredirs_none; [| |..|lia].
    2: { rewrite EX. by apply word_no_ws. }
    2: { rewrite EX. apply word_head_not_symbol; [set_solver|done]. }
    cbn [mbind pres_bind].
    destruct (parseargs_show (w :: ws) rs rest [] [] fuel) as (argv&rs'&->&Ht&HF); [done|done|done|done|done|lia|].
    exists (EXEC argv), rs'. done.
Qed.

Lemma redirected_reads c r rs k f a : reads tok c a → redir_is r (k, f) → reads tok (REDIR c r) (ARedir a k f) ∧
  redirected c (r :: rs) = redirected (REDIR c r) rs.
Proof. intros Hc (?&?&?). done. Qed.

Lemma exec_redir a k f : wf (ARedir a k f) → exec_ok a → exec_ok (ARedir a k f).
Proof.
  intros [_ Hf] He rs rest fuel Hrs Hrest Hfuel.
  change (show_at 0 (ARedir a k f)) with (show_at 0 a ++ sign k ++ f) in *. rewrite <- !app_assoc in *.
  destruct (He ((k, f) :: rs) rest fuel) as (c&rs'&E&Hr&HF); [by constructor|done| |].
  { simpl show_redirs. by rewrite <- !app_assoc. }
  simpl show_redirs in E. rewrite <- !app_assoc in E. inversion HF as [|r ? rs2 ? Hrk HF2]; subst.
  destruct (redirected_reads c r rs2 k f a Hr Hrk) as [H1 H2]. exists (REDIR c r), rs2. by rewrite E, H2.
Qed.

Lemma pipe_pipe l r : wf (APipe l r) → exec_ok l → pipe_ok r → pipe_ok (APipe l r).
Proof.
  intros [_ Hwr] He Hp rest fuel Hrest Hf. change (show_at 1 (APipe l r)) with (show_at 0 l ++ 124 :: show_at 1 r) in *.
  rewrite <- app_assoc in *. simpl app in *. destruct fuel as [|fuel]; [lia|]. rewrite length_app in Hf. simpl in Hf.
  destruct (He [] (124 :: show_at 1 r ++ rest) fuel) as (c&rs'&E&Hr&HF); [done|done|rewrite length_app; simpl; lia|].
  inversion HF; subst. simpl in E. cbn [parsepipe]. rewrite E. cbn [mbind pres_bind]. rewrite peek_symbol by done. cbv iota.
  rewrite gettoken_symbol by done. rewrite skip_no_ws.
  2: { apply show_no_ws; [done|]. by eapply stops_sub_no_ws; [|done]; set_solver. }
  destruct (Hp rest fuel Hrest) as (c2&->&Hr2); [lia|]. exists (PIPE c c2). done.
Qed.

Lemma back_back a : wf a → back_ok a → back_ok (ABack a).
Proof.
  intros Hw Hb n rest fuel Hrest Hf. change (show_at 2 (ABack a)) with (show_at 2 a ++ [38]) in *.
  assert ((show_at 2 a ++ [38]) ++ amps n ++ rest = show_at 2 a ++ amps (S n) ++ rest) as E by (rewrite <- app_assoc; done).
  rewrite E in Hf |- *. destruct (Hb (S n) rest fuel Hrest Hf) as (c&E2&Hr). exists (BACK c). split; [|done].
  rewrite E2. by rewrite Nat.iter_succ_r.
Qed.

Lemma line_list l r : wf (AList l r) → back_ok l → line_ok r → line_ok (AList l r).
Proof.
  intros [_ Hwr] Hb HL rest fuel Hrest Hf. change (show_at 3 (AList l r)) with (show_at 2 l ++ 59 :: show_at 3 r) in *.
  rewrite <- app_assoc in *. simpl app in *. destruct fuel as [|fuel]; [lia|]. rewrite length_app in Hf. simpl in Hf.
  destruct (Hb 0%nat (59 :: show_at 3 r ++ rest) fuel) as (c&E&Hr); [done|simpl; rewrite length_app; simpl; lia|].
  simpl amps in E. simpl app in E. cbn [parseline].
  destruct (parsepipe _ fuel) as [[c1 s1]| |]; [|done|done]. cbn [mbind pres_bind] in E |- *. rewrite E. cbn [mbind pres_bind].
  rewrite peek_symbol by done. cbv iota. rewrite gettoken_symbol by done. rewrite skip_no_ws.
  2: { apply show_no_ws; [done|]. by eapply stops_sub_no_ws; [|done]; set_solver. }
  destruct (HL rest fuel Hrest) as (c2&->&Hr2); [lia|]. exists (LIST c c2). done.
Qed.

Lemma all_ok a : wf a → exec_ok a ∧ pipe_ok a ∧ back_ok a ∧ line_ok a.
Proof.
  assert (Hup : ∀ a, level a = 0%nat → exec_ok a → exec_ok a ∧ pipe_ok a ∧ back_ok a ∧ line_ok a).
  { intros b Hb He. assert (pipe_ok b) by (apply pipe_of_exec; [lia|done]).
    assert (back_ok b) by (apply back_of_pipe; [lia|done]). split_and!; try done. apply line_of_back; [lia|done]. }
  induction a as [ws|a IH k f|l IHl r IHr|l IHl r IHr|a IH]; intros Hw.
  - apply Hup; [done|]. by apply exec_exec.
  - apply Hup; [done|]. apply exec_redir; [done|]. apply IH, Hw.
  - pose proof Hw as [Hl Hr]. destruct (IHl Hl) as (He&_), (IHr Hr) as (_&Hp&_).
    assert (pipe_ok (APipe l r)) by (by apply pipe_pipe). assert (back_ok (APipe l r)) by (by apply back_of_pipe).
    assert (line_ok (APipe l r)) by (by apply line_of_back). split_and!; try done. by apply exec_of_line.
  - pose proof Hw as [Hl Hr]. destruct (IHl Hl) as (_&_&Hb&_), (IHr Hr) as (_&_&_&HL).
    assert (line_ok (AList l r)) by (by apply line_list). assert (exec_ok (AList l r)) by (by apply exec_of_line).
    assert (pipe_ok (AList l r)) by (by apply pipe_of_exec). split_and!; try done. by apply back_of_pipe.
  - destruct (IH Hw) as (_&_&Hb&_). assert (back_ok (ABack a)) by (by apply back_back).
    assert (line_ok (ABack a)) by (by apply line_of_back). assert (exec_ok (ABack a)) by (by apply exec_of_line).
    split_and!; try done. by apply pipe_of_exec.
Qed.
