(* ===== verification/ShStrings.v ===== *)
(** * The strings of a parsed command

    The parser keeps pointers to the beginning and the end of each token;
    [nulterminate] puts a null at each end.  Ends are never inside a token, so
    each string is its token. *)
From S2P Require Import Prelude Sh ShShow.

(** The string at a token's beginning in the buffer. *)
Fixpoint until0 (l : list Z) : list Z :=
  match l with c :: l => if c =? 0 then [] else c :: until0 l | [] => [] end.
Definition string_at (line buf : list Z) (p : list Z * list Z) : list Z := until0 (drop (place line p.1) buf).

Fixpoint tokens (c : cmd) : list (list Z * list Z) :=
  match c with
  | EXEC argv => argv
  | REDIR c r => tokens c ++ [(r_file r, r_efile r)]
  | PIPE l r | LIST l r => tokens l ++ tokens r
  | BACK c => tokens c
  end.

(** ** Tokens of a line *)

Section line.
Variable line : list Z.
Hypothesis no_nul : 0 ∉ line.

(** [p] is a maximal run of word characters. *)
Definition good (p : list Z * list Z) : Prop :=
  ∃ pre w, line = pre ++ w ++ p.2 ∧ p.1 = w ++ p.2 ∧ Forall (λ c, word_char c = true) w ∧
    match p.2 with [] => True | c :: _ => word_char c = false end.

Lemma skip_ws_suffix s : skip_ws s `suffix_of` s.
Proof using. induction s as [|c s IH]; simpl; [done|]. destruct (chr whitespace c); [by apply suffix_cons_r|done]. Qed.
Lemma skip_word_split s : 0 ∉ s → ∃ w, s = w ++ skip_word s ∧ Forall (λ c, word_char c = true) w ∧
  match skip_word s with [] => True | c :: _ => word_char c = false end.
Proof using.
  induction s as [|c s IH]; intros Hz; simpl; [by exists []|]. apply not_elem_of_cons in Hz as [Hc Hz].
  destruct (IH Hz) as (w&E&Hw&Hr). destruct (negb (chr whitespace c) && negb (chr symbols c)) eqn:Hwc.
  - exists (c :: w). split_and!; [simpl; congruence| |done]. constructor; [|done]. unfold word_char. rewrite Hwc. simpl. lia.
  - exists []. split_and!; [done|done|]. unfold word_char. by rewrite Hwc.
Qed.

Lemma gettoken_good s t q e s' : s `suffix_of` line → gettoken s = (t, q, e, s') →
  s' `suffix_of` line ∧ (t = 97 → good (q, e)).
Proof.
  intros Hs. unfold gettoken. pose proof (skip_ws_suffix s) as H1.
  assert (skip_ws s `suffix_of` line) as H2 by (by etrans). destruct (skip_ws s) as [|c r] eqn:E.
  { intros; simplify_eq. split; [done|]. done. }
  assert (r `suffix_of` line) as H3 by (etrans; [|exact H2]; by apply suffix_cons_r).
  assert (∀ x, x `suffix_of` line → skip_ws x `suffix_of` line) as Hk by (intros; etrans; [apply skip_ws_suffix|done]).
  destruct (chr [124; 40; 41; 59; 38; 60] c) eqn:Hc; [intros; simplify_eq; split; [auto|]; intros ->; done|].
  destruct (Z.eqb_spec c 62) as [->|].
  { destruct (hd 0 r =? 62); intros; simplify_eq; (split; [apply Hk|done]); [|done].
    etrans; [|exact H3]. destruct r; [done|]. by apply suffix_cons_r. }
  intros; simplify_eq. destruct H2 as [pre Hp]. destruct (skip_word_split (c :: r)) as (w&Ew&Hw&Hr).
  { rewrite Hp in no_nul. set_solver. }
  assert (skip_word (c :: r) `suffix_of` c :: r) as Hsw by (rewrite Ew at 2; by apply suffix_app_r).
  split; [apply Hk; etrans; [exact Hsw|by exists pre]|]. intros _. exists pre, w. cbn [fst snd]. split_and!; [|done|done|done].
  by rewrite <- Ew.
Qed.

(** A parser's result points to tokens of the line. *)
Definition sound {A} (toks : A → list (list Z * list Z)) (r : pres (A * list Z)) : Prop :=
  match r with POk (x, s) => s `suffix_of` line ∧ Forall good (toks x) | _ => True end.

Lemma sound_bind {A B} (ta : A → list (list Z * list Z)) (tb : B → list (list Z * list Z)) (m : pres (A * list Z)) (k : A * list Z → pres (B * list Z)) :
  sound ta m → (∀ x s, s `suffix_of` line → Forall good (ta x) → sound tb (k (x, s))) → sound tb (m ≫= k).
Proof using. destruct m as [[x s]| |]; simpl; [|done|done]. intros [? ?] Hk. by apply Hk. Qed.

Definition redir_tok (r : redir) : list Z * list Z := (r_file r, r_efile r).

Lemma peek_suffix s toks b s' : s `suffix_of` line → peek s toks = (b, s') → s' `suffix_of` line.
Proof using. unfold peek. intros Hs E. simplify_eq. etrans; [apply skip_ws_suffix|done]. Qed.

Ltac peek_s := match goal with |- context [peek ?s ?t] =>
  let b := fresh "b" in let s' := fresh "s" in let E := fresh "E" in
  destruct (peek s t) as [b s'] eqn:E; apply peek_suffix in E; [|assumption]; destruct b end.
Ltac token_s := match goal with |- context [gettoken ?s] =>
  let E := fresh "E" in let H := fresh "Htok" in
  destruct (gettoken s) as [[[? ?] ?] ?] eqn:E; apply gettoken_good in E as [? H]; [|assumption] end.

Lemma parseredirs_sound s fuel : s `suffix_of` line → sound (map redir_tok) (parseredirs s fuel).
Proof.
  revert s. induction fuel as [|fuel IH]; intros s Hs; [done|]. cbn [parseredirs]. peek_s; [|by split]. token_s. token_s.
  destruct (negb (_ =? 97)) eqn:H97; [done|]. apply sound_bind with (ta := map redir_tok); [by apply IH|].
  intros rs s4 Hs4 Hrs. split; [done|]. unfold redircmd. repeat case_match; simplify_eq; simpl; try constructor; try done; apply Htok0; lia.
Qed.

Lemma parseargs_sound s argv rs fuel : s `suffix_of` line → Forall good argv → Forall good (map redir_tok rs) →
  sound (λ x, x.1 ++ map redir_tok x.2) (parseargs s argv rs fuel).
Proof.
  revert s argv rs. induction fuel as [|fuel IH]; intros s argv rs Hs Ha Hr; [done|]. cbn [parseargs].
  peek_s; [split; [done|by apply Forall_app]|]. token_s. destruct (_ =? 0); [split; [done|by apply Forall_app]|].
  destruct (negb (_ =? 97)) eqn:H97; [done|]. destruct (_ <=? _)%nat; [done|].
  apply sound_bind with (ta := map redir_tok); [by apply parseredirs_sound|]. intros rs' s4 Hs4 Hrs'.
  apply IH; [done| |rewrite map_app; by apply Forall_app]. apply Forall_app. split; [done|]. constructor; [|done]. apply Htok. lia.
Qed.

Lemma parsebacks_sound c s fuel : s `suffix_of` line → Forall good (tokens c) → sound tokens (parsebacks c s fuel).
Proof.
  revert c s. induction fuel as [|fuel IH]; intros c s Hs Hc; [done|]. cbn [parsebacks]. peek_s; [|by split]. token_s. by apply IH.
Qed.

Lemma redirected_tokens c rs : tokens (redirected c rs) = tokens c ++ map redir_tok rs.
Proof using.
  unfold redirected. revert c. induction rs as [|r rs IH]; intros c; simpl; [by rewrite app_nil_r|].
  rewrite IH. simpl. by rewrite <- app_assoc.
Qed.

Lemma parsers_sound fuel s : s `suffix_of` line →
  sound tokens (parseline s fuel) ∧ sound tokens (parsepipe s fuel) ∧ sound tokens (parseexec s fuel) ∧ sound tokens (parseblock s fuel).
Proof.
  revert s. induction fuel as [|fuel IH]; intros s Hs; [done|]. split_and!.
  - cbn [parseline]. apply sound_bind with (ta := tokens); [by apply IH|]. intros c1 s1 Hs1 Hc1. cbv beta iota.
    apply sound_bind with (ta := tokens); [by apply parsebacks_sound|]. intros c2 s2 Hs2 Hc2. cbv beta iota. peek_s; [|by split].
    token_s. apply sound_bind with (ta := tokens); [by apply IH|]. intros c3 s3 Hs3 Hc3. split; [done|]. by apply Forall_app.
  - cbn [parsepipe]. apply sound_bind with (ta := tokens); [by apply IH|]. intros c2 s2 Hs2 Hc2. cbv beta iota. peek_s; [|by split].
    token_s. apply sound_bind with (ta := tokens); [by apply IH|]. intros c3 s3 Hs3 Hc3. split; [done|]. by apply Forall_app.
  - cbn [parseexec]. peek_s; [by apply IH|]. apply sound_bind with (ta := map redir_tok); [by apply parseredirs_sound|].
    intros rs s1 Hs1 Hrs. cbv beta iota. apply sound_bind with (ta := λ x, x.1 ++ map redir_tok x.2); [by apply parseargs_sound|].
    intros [argv rs2] s2 Hs2 H2. split; [done|]. by rewrite redirected_tokens.
  - cbn [parseblock]. peek_s; [|done]. token_s. cbn [negb]. apply sound_bind with (ta := tokens); [by apply IH|].
    intros c1 s1 Hs1 Hc1. cbv beta iota. peek_s; [|done]. cbn [negb]. token_s.
    apply sound_bind with (ta := map redir_tok); [by apply parseredirs_sound|]. intros rs s5 Hs5 Hrs.
    split; [done|]. rewrite redirected_tokens. by apply Forall_app.
Qed.

(** ** The buffer *)

Definition put_nul (b : list Z) (p : list Z * list Z) : list Z := <[place line p.2 := 0]> b.

Lemma nulterminate_tokens c buf : nulterminate line c buf = fold_left put_nul (tokens c) buf.
Proof using.
  revert buf. induction c as [argv|c IH r|l IHl r IHr|l IHl r IHr|c IH]; intros buf; simpl; try done.
  - by rewrite fold_left_app, IH.
  - by rewrite fold_left_app, IHl, IHr.
  - by rewrite fold_left_app, IHl, IHr.
Qed.

Lemma put_nuls_other ps buf i : (∀ p, p ∈ ps → place line p.2 ≠ i) → fold_left put_nul ps buf !! i = buf !! i.
Proof using. clear no_nul.
  revert buf. induction ps as [|p ps IH]; intros buf Hps; simpl; [done|]. rewrite IH by set_solver.
  unfold put_nul. by rewrite list_lookup_insert_ne by set_solver.
Qed.
Lemma put_nuls_zero ps buf i : buf !! i = Some 0 → fold_left put_nul ps buf !! i = Some 0.
Proof using. clear no_nul.
  revert buf. induction ps as [|p ps IH]; intros buf Hi; simpl; [done|]. apply IH. unfold put_nul.
  destruct (decide (place line p.2 = i)) as [->|]; [|by rewrite list_lookup_insert_ne].
  apply list_lookup_insert_eq. by apply lookup_lt_Some in Hi.
Qed.
Lemma put_nuls_end ps buf p : p ∈ ps → (place line p.2 < length buf)%nat → fold_left put_nul ps buf !! place line p.2 = Some 0.
Proof using. clear no_nul.
  revert buf. induction ps as [|x ps IH]; intros buf Hp Hl; [set_solver|]. simpl. apply elem_of_cons in Hp as [->|Hp].
  - apply put_nuls_zero. unfold put_nul. by apply list_lookup_insert_eq.
  - apply IH; [done|]. unfold put_nul. by rewrite length_insert.
Qed.

Lemma until0_lookup l w : Forall (λ c, c ≠ 0) w → (∀ i, (i < length w)%nat → l !! i = w !! i) → l !! length w = Some 0 → until0 l = w.
Proof using.
  intros Hw. revert l. induction Hw as [|c w Hc Hw IH]; intros l Hl H0.
  - destruct l as [|x l]; [done|]. simpl in *. by simplify_eq.
  - destruct l as [|x l]; [done|]. pose proof (Hl 0%nat ltac:(simpl; lia)) as Hx. simpl in Hx. injection Hx as ->. simpl. zbool.
    f_equal. apply IH; [|done]. intros i Hi. apply (Hl (S i)). simpl. lia.
Qed.

(** The character after a token is no word character. *)
Lemma good_end p : good p → match (line ++ [0]) !! place line p.2 with Some c => word_char c = false | None => False end.
Proof using.
  intros (pre&w&E&_&_&Hr). unfold place. rewrite E, !length_app.
  replace (length pre + (length w + length p.2) - length p.2)%nat with (length (pre ++ w)) by (rewrite length_app; lia).
  rewrite <- app_assoc. rewrite !app_assoc. rewrite <- (app_assoc (pre ++ w)). rewrite lookup_app_r, Nat.sub_diag by lia.
  by destruct p.2.
Qed.

Lemma string_at_token ps p : Forall good ps → p ∈ ps → string_at line (fold_left put_nul ps (line ++ [0])) p = tok p.
Proof.
  intros Hps Hp. rewrite Forall_forall in Hps. pose proof (Hps p Hp) as (pre&w&E&Ep&Hw&Hr).
  assert (tok p = w) as ->. { destruct p as [q e]. simpl in *. subst q. apply tok_app. }
  assert (place line p.1 = length pre) as Hpl by (unfold place; rewrite Ep, E, !length_app; lia).
  assert (place line p.2 = (length pre + length w)%nat) as Hpe by (unfold place; rewrite E, !length_app; lia).
  unfold string_at. rewrite Hpl. apply until0_lookup.
  - eapply Forall_impl; [exact Hw|]. intros c Hc. by apply word_char_out in Hc as (_&_&?).
  - intros i Hi. rewrite lookup_drop. assert ((line ++ [0]) !! (length pre + i)%nat = w !! i) as El.
    { rewrite E, <- app_assoc, lookup_app_r by lia. replace (length pre + i - length pre)%nat with i by lia.
      rewrite <- app_assoc. by rewrite lookup_app_l. }
    rewrite put_nuls_other; [done|]. intros p' Hp' Heq. pose proof (good_end p' (Hps p' Hp')) as He. rewrite Heq, El in He.
    destruct (w !! i) as [c|] eqn:Ew; [|apply lookup_ge_None in Ew; lia]. rewrite Forall_forall in Hw.
    apply list_elem_of_lookup_2, Hw in Ew. congruence.
  - rewrite lookup_drop, <- Hpe. apply put_nuls_end; [done|]. rewrite length_app. simpl. unfold place. lia.
Qed.

(** The strings of a command, in the terminated buffer, are its tokens. *)
Lemma parsecmd_strings c buf p : parsecmd line = POk (c, buf) → p ∈ tokens c → string_at line buf p = tok p.
Proof.
  unfold parsecmd. destruct (parsers_sound (parse_fuel line) line ltac:(done)) as [Hs _].
  destruct (parseline line (parse_fuel line)) as [[c' s]| |]; [|done|done]. simpl in Hs. destruct Hs as [_ Hc].
  cbn [mbind pres_bind]. destruct (peek s []) as [b s']. destruct (negb _); [done|]. intros [= <- <-] Hp.
  rewrite nulterminate_tokens. by apply string_at_token.
Qed.
End line.

(** ** Printing and parsing *)

Lemma reads_ext str str' c a : (∀ p, p ∈ tokens c → str' p = str p) → reads str c a → reads str' c a.
Proof.
  revert a. induction c as [argv|c IH r|l IHl r IHr|l IHl r IHr|c IH]; intros [] He; simpl in *; try done.
  - intros <-. apply map_ext_in. intros p Hp. apply He. by apply list_elem_of_In.
  - intros (?&<-&?&?). split_and!; [apply IH; set_solver|apply He; set_solver|done|done].
  - intros []. split; [apply IHl; set_solver|apply IHr; set_solver].
  - intros []. split; [apply IHl; set_solver|apply IHr; set_solver].
  - by apply IH.
Qed.

(** The characters of a printed line. *)
Definition line_char (c : Z) : Prop := word_char c = true ∨ c ∈ symbols ∨ c = 32.
Lemma word_chars w : word w → Forall line_char w.
Proof. intros [_ Hw]. eapply Forall_impl; [exact Hw|]. by left. Qed.
Lemma symbol_line_char c : c ∈ symbols → line_char c.
Proof. by right; left. Qed.
Ltac line_chars := repeat first
  [ assumption | apply Forall_nil_2 | apply Forall_cons_2 | apply Forall_app_2
  | apply symbol_line_char; unfold symbols; set_solver | by right; right | by apply word_chars ].

Lemma show_chars a : wf a → Forall line_char (show a).
Proof.
  induction a as [ws|a IH k f|l IHl r IHr|l IHl r IHr|a IH]; simpl; intros Hw.
  - destruct Hw as [Hw _]. induction Hw as [|w ws Hw1 Hws IH]; simpl; [line_chars|]. destruct ws; line_chars.
  - destruct Hw as [Ha Hf]. specialize (IH Ha). destruct (_ <=? _)%nat, k; simpl; line_chars.
  - destruct Hw as [H1 H2]. specialize (IHl H1). specialize (IHr H2).
    destruct (level l <=? 0)%nat, (level r <=? 1)%nat; line_chars.
  - destruct Hw as [H1 H2]. specialize (IHl H1). specialize (IHr H2).
    destruct (level l <=? 2)%nat, (level r <=? 3)%nat; line_chars.
  - specialize (IH Hw). destruct (level a <=? 2)%nat; line_chars.
Qed.
Lemma show_lacks a c : wf a → ¬ line_char c → c ∉ show a.
Proof. intros Hw Hc Hi. apply show_chars in Hw. rewrite Forall_forall in Hw. by apply Hc, Hw. Qed.
Lemma show_no_nul a : wf a → 0 ∉ show a.
Proof. intros Hw. apply show_lacks; [done|]. intros [?|[?|?]]; [done|by vm_compute in *; set_solver|done]. Qed.

(** C25: the shell's parser inverts printing.  For every syntax tree of
    commands with arguments, redirections, pipelines, lists and background
    jobs, nested in parentheses as needed, parsing its printed form succeeds
    with that tree: the same structure, the same open modes and descriptors,
    and, in the buffer that [nulterminate] leaves, the same strings. *)
Theorem parse_show_roundtrip (a : ast) :
  wf a → ∃ c buf, parsecmd (show a) = POk (c, buf) ∧ reads (string_at (show a) buf) c a.
Proof.
  intros Hw. destruct (all_ok a Hw) as (_&_&_&HL).
  assert (show_at 3 a = show a) as E by (unfold show_at; destruct (Nat.leb_spec (level a) 3); [done|destruct a; simpl in *; lia]).
  destruct (HL [] (parse_fuel (show a))) as (c&Hp&Hr); [done|rewrite app_nil_r, E; unfold parse_fuel; lia|].
  rewrite app_nil_r, E in Hp.
  assert (parsecmd (show a) = POk (c, nulterminate (show a) c (show a ++ [0]))) as Hcmd by (unfold parsecmd; by rewrite Hp).
  exists c, (nulterminate (show a) c (show a ++ [0])). split; [done|]. eapply reads_ext; [|done]. intros p Hpin.
  by eapply parsecmd_strings; [apply show_no_nul| |].
Qed.

(** [ls -l|(wc;echo)>out &] *)
Definition sample : ast :=
  ABack (APipe (AExec [[108; 115]; [45; 108]]) (ARedir (AList (AExec [[119; 99]]) (AExec [[101; 99; 104; 111]])) ToFile [111; 117; 116])).
Lemma parse_show_roundtrip_witness :
  wf sample ∧ ∃ c buf, parsecmd (show sample) = POk (c, buf) ∧ reads (string_at (show sample) buf) c sample.
Proof.
  assert (wf sample) as Hw by (vm_compute; repeat (split || constructor || lia || done)).
  split; [exact Hw|]. apply (parse_show_roundtrip sample Hw).
Defined.

(** ** The newline at the end of a command line

    [gets] leaves the newline in the buffer.  The parser reads a line with it
    like the line without. *)

Definition nl (s : list Z) : list Z := s ++ [10].

(** The same place in the line and in the line with a newline; both parsers
    may be at the end, and the second is when it has skipped the newline. *)
Definition same_place (s s' : list Z) : Prop := s' = nl s ∨ (s = [] ∧ s' = []).
Definition same_start (s s' : list Z) : Prop := (s ≠ [] ∧ s' = nl s) ∨ (s = [] ∧ s' = []).

Definition nl_token (p : list Z * list Z) : list Z * list Z := (nl p.1, nl p.2).
Definition nl_redir (r : redir) : redir := Redir (nl (r_file r)) (nl (r_efile r)) (r_mode r) (r_fd r).
Fixpoint nl_cmd (c : cmd) : cmd :=
  match c with
  | EXEC argv => EXEC (map nl_token argv)
  | REDIR c r => REDIR (nl_cmd c) (nl_redir r)
  | PIPE l r => PIPE (nl_cmd l) (nl_cmd r)
  | LIST l r => LIST (nl_cmd l) (nl_cmd r)
  | BACK c => BACK (nl_cmd c)
  end.

Lemma start_place s s' : same_start s s' → same_place s s'.
Proof. intros [[_ ?]|?]; [by left|by right]. Qed.

Lemma skip_ws_place s s' : same_place s s' → same_start (skip_ws s) (skip_ws s').
Proof.
  intros [->|[-> ->]]; [|by right]. induction s as [|c s IH]; simpl; [by right|].
  destruct (chr whitespace c); [done|]. by left.
Qed.
Lemma skip_word_nl s : skip_word (nl s) = nl (skip_word s).
Proof. unfold nl. induction s as [|c s IH]; simpl; [done|]. by destruct (_ && _). Qed.

Lemma peek_place s s' toks b r : same_place s s' → peek s toks = (b, r) → ∃ r', peek s' toks = (b, r') ∧ same_start r r'.
Proof.
  intros Hs%skip_ws_place. unfold peek. intros [= <- <-]. eexists. split; [|done]. f_equal.
  destruct Hs as [[Hne ->]|[-> ->]]; [|done]. by destruct (skip_ws s).
Qed.

Lemma gettoken_place s s' t q e r : same_place s s' → gettoken s = (t, q, e, r) →
  ∃ q' e' r', gettoken s' = (t, q', e', r') ∧ same_start r r' ∧ (t = 97 → q' = nl q ∧ e' = nl e).
Proof.
  intros Hs%skip_ws_place. unfold gettoken. destruct Hs as [[Hne ->]|[-> ->]].
  2: { intros; simplify_eq. eexists _, _, _. split; [done|]. split; [by right|done]. }
  destruct (skip_ws s) as [|c l]; [done|]. cbn [nl app]. change (l ++ [10]) with (nl l).
  destruct (chr [124; 40; 41; 59; 38; 60] c) eqn:Hc.
  { intros; simplify_eq. eexists _, _, _. split; [done|]. split; [apply skip_ws_place; by left|]. by intros ->. }
  destruct (Z.eqb_spec c 62) as [->|].
  { replace (hd 0 (nl l) =? 62) with (hd 0 l =? 62) by (by destruct l). destruct (hd 0 l =? 62) eqn:Hh; intros; simplify_eq;
      (eexists _, _, _; split; [done|]; split; [apply skip_ws_place|done]); [|by left]. destruct l; [done|]. by left. }
  intros; simplify_eq. change (c :: nl l) with (nl (c :: l)). rewrite skip_word_nl. eexists _, _, _. split; [done|].
  split; [apply skip_ws_place; by left|done].
Qed.

(** ** Parsers *)

Definition same_parse {A} (f : A → A) (m m' : pres (A * list Z)) : Prop :=
  match m with POk (x, s) => ∃ s', m' = POk (f x, s') ∧ same_start s s' | _ => True end.

Lemma same_bind {A B} (f : A → A) (g : B → B) (m m' : pres (A * list Z)) (k k' : A * list Z → pres (B * list Z)) :
  same_parse f m m' → (∀ x s s', same_start s s' → same_parse g (k (x, s)) (k' (f x, s'))) → same_parse g (m ≫= k) (m' ≫= k').
Proof. destruct m as [[x s]| |]; simpl; [|done|done]. intros (s'&->&Hs) Hk. by apply Hk. Qed.
Lemma same_ok {A} (f : A → A) x s s' y : y = f x → same_start s s' → same_parse f (POk (x, s)) (POk (y, s')).
Proof. intros -> Hs. by exists s'. Qed.

#[local] Hint Resolve start_place : core.
Ltac peek_nl := match goal with |- same_parse _ ?m ?m' => match m with context [peek ?s ?t] => match m' with context [peek ?s' t] =>
  let b := fresh "b" in let r := fresh "r" in let r' := fresh "r'" in let E := fresh "E" in let E' := fresh "E'" in let H := fresh "H" in
  destruct (peek s t) as [b r] eqn:E; destruct (peek_place s s' t b r) as (r'&E'&H); [by auto|done|];
  rewrite E'; clear E E'; destruct b; cbn [negb] end end end.
Ltac token_nl := match goal with |- same_parse _ ?m ?m' => match m with context [gettoken ?s] => match m' with context [gettoken ?s'] =>
  let t := fresh "t" in let q := fresh "q" in let e := fresh "e" in let r := fresh "r" in
  let E := fresh "E" in let E' := fresh "E'" in let H := fresh "H" in let T := fresh "T" in
  destruct (gettoken s) as [[[t q] e] r] eqn:E; destruct (gettoken_place s s' t q e r) as (?&?&?&E'&H&T); [by auto|done|];
  rewrite E'; clear E E' end end end.

Lemma parseredirs_nl s s' fuel : same_place s s' → same_parse (map nl_redir) (parseredirs s fuel) (parseredirs s' fuel).
Proof.
  revert s s'. induction fuel as [|fuel IH]; intros s s' Hs; [done|]. cbn [parseredirs]. peek_nl; [|by apply same_ok].
  token_nl. token_nl. destruct (negb (_ =? 97)) eqn:H97; [done|]. destruct T0 as [-> ->]; [lia|].
  apply same_bind with (f := map nl_redir); [by auto|]. intros rs s1 s1' Hs1. apply same_ok; [|done].
  unfold redircmd. repeat case_match; simplify_eq; done.
Qed.

Lemma parseargs_nl s s' argv rs fuel : same_place s s' →
  same_parse (λ x, (map nl_token x.1, map nl_redir x.2)) (parseargs s argv rs fuel)
    (parseargs s' (map nl_token argv) (map nl_redir rs) fuel).
Proof.
  revert s s' argv rs. induction fuel as [|fuel IH]; intros s s' argv rs Hs; [done|]. cbn [parseargs].
  peek_nl; [by apply same_ok|]. token_nl. destruct (_ =? 0); [by apply same_ok|].
  destruct (negb (_ =? 97)) eqn:H97; [done|]. destruct T as [-> ->]; [lia|].
  rewrite !length_app, length_map. simpl length. destruct (_ <=? _)%nat; [done|].
  apply same_bind with (f := map nl_redir); [apply parseredirs_nl; by auto|]. intros rs' s1 s1' Hs1.
  rewrite <- map_app. change [(nl q, nl e)] with (map nl_token [(q, e)]). rewrite <- map_app. by auto.
Qed.

Lemma parsebacks_nl c s s' fuel : same_place s s' → same_parse nl_cmd (parsebacks c s fuel) (parsebacks (nl_cmd c) s' fuel).
Proof.
  revert c s s'. induction fuel as [|fuel IH]; intros c s s' Hs; [done|]. cbn [parsebacks]. peek_nl; [|by apply same_ok].
  token_nl. change (BACK (nl_cmd c)) with (nl_cmd (BACK c)). by auto.
Qed.

Lemma redirected_nl c rs : redirected (nl_cmd c) (map nl_redir rs) = nl_cmd (redirected c rs).
Proof. unfold redirected. revert c. induction rs as [|r rs IH]; intros c; simpl; [done|]. by rewrite <- IH. Qed.

Lemma parsers_nl fuel s s' : same_place s s' →
  same_parse nl_cmd (parseline s fuel) (parseline s' fuel) ∧ same_parse nl_cmd (parsepipe s fuel) (parsepipe s' fuel) ∧
  same_parse nl_cmd (parseexec s fuel) (parseexec s' fuel) ∧ same_parse nl_cmd (parseblock s fuel) (parseblock s' fuel).
Proof.
  revert s s'. induction fuel as [|fuel IH]; intros s s' Hs; [done|]. split_and!.
  - cbn [parseline]. apply same_bind with (f := nl_cmd); [by apply IH|]. intros c1 s1 s1' Hs1. cbv beta iota.
    apply same_bind with (f := nl_cmd); [apply parsebacks_nl; by auto|]. intros c2 s2 s2' Hs2. cbv beta iota.
    peek_nl; [|by apply same_ok]. token_nl. apply same_bind with (f := nl_cmd); [apply IH; by auto|].
    intros c3 s3 s3' Hs3. by apply same_ok.
  - cbn [parsepipe]. apply same_bind with (f := nl_cmd); [by apply IH|]. intros c1 s1 s1' Hs1. cbv beta iota.
    peek_nl; [|by apply same_ok]. token_nl. apply same_bind with (f := nl_cmd); [apply IH; by auto|].
    intros c3 s3 s3' Hs3. by apply same_ok.
  - cbn [parseexec]. peek_nl; [apply IH; by auto|]. apply same_bind with (f := map nl_redir); [apply parseredirs_nl; by auto|].
    intros rs s1 s1' Hs1. cbv beta iota. eapply same_bind; [apply (parseargs_nl s1 s1' []); by auto|].
    intros [argv rs2] s2 s2' Hs2. apply same_ok; [|done]. by rewrite <- redirected_nl.
  - cbn [parseblock]. peek_nl; [|done]. token_nl. apply same_bind with (f := nl_cmd); [apply IH; by auto|].
    intros c1 s1 s1' Hs1. cbv beta iota. peek_nl; [|done]. token_nl.
    apply same_bind with (f := map nl_redir); [apply parseredirs_nl; by auto|]. intros rs s5 s5' Hs5.
    apply same_ok; [|done]. by rewrite <- redirected_nl.
Qed.

Lemma tok_nl p : p.2 `suffix_of` p.1 → tok (nl_token p) = tok p.
Proof.
  destruct p as [q e]. simpl. intros [w ->]. unfold nl_token, nl. cbn [fst snd]. rewrite <- app_assoc. by rewrite !tok_app.
Qed.

Lemma reads_nl c a : (∀ p, p ∈ tokens c → p.2 `suffix_of` p.1) → reads tok c a → reads tok (nl_cmd c) a.
Proof.
  revert a. induction c as [argv|c IH r|l IHl r IHr|l IHl r IHr|c IH]; intros [] He; simpl in *; try done.
  - intros <-. rewrite map_map. apply map_ext_in. intros p Hp. apply tok_nl, He. by apply list_elem_of_In.
  - intros (?&<-&?&?). split_and!; [apply IH; set_solver| |done|done]. apply (tok_nl (r_file r, r_efile r)), He. set_solver.
  - intros []. split; [apply IHl; set_solver|apply IHr; set_solver].
  - intros []. split; [apply IHl; set_solver|apply IHr; set_solver].
  - by apply IH.
Qed.

(** A printed tree and a newline parse to the tree. *)
Lemma parse_line a : wf a → ∃ c buf, parsecmd (nl (show a)) = POk (c, buf) ∧ reads (string_at (nl (show a)) buf) c a.
Proof.
  intros Hw. destruct (all_ok a Hw) as (_&_&_&HL).
  assert (show_at 3 a = show a) as E by (unfold show_at; destruct (Nat.leb_spec (level a) 3); [done|destruct a; simpl in *; lia]).
  destruct (HL [] (parse_fuel (nl (show a)))) as (c&Hp&Hr); [done|rewrite app_nil_r, E; unfold parse_fuel, nl; rewrite length_app; simpl; lia|].
  rewrite app_nil_r, E in Hp. pose proof (show_no_nul a Hw) as Hz.
  destruct (parsers_nl (parse_fuel (nl (show a))) (show a) (nl (show a))) as [Hn _]; [by left|].
  destruct (parsers_sound (show a) Hz (parse_fuel (nl (show a))) (show a) ltac:(done)) as [Hs _].
  rewrite Hp in Hn, Hs. simpl in Hs. destruct Hs as [_ Hg]. destruct Hn as (s'&Hn&[[? _]|[_ ->]]); [done|].
  set (buf := nulterminate (nl (show a)) (nl_cmd c) (nl (show a) ++ [0])).
  assert (parsecmd (nl (show a)) = POk (nl_cmd c, buf)) as Hcmd by (unfold parsecmd; by rewrite Hn).
  exists (nl_cmd c), buf. split; [done|]. eapply reads_ext; [|apply reads_nl; [|done]].
  - intros p Hpin. eapply parsecmd_strings; [|done|done]. unfold nl. set_solver by lia.
  - intros p Hpin. rewrite Forall_forall in Hg. destruct (Hg p Hpin) as (pre&w&_&->&_). by apply suffix_app_r.
Qed.
