(* ===== verification/ShRun.v ===== *)
(** * The shell: running a command

    [runcmd], [fork1], [panic] and the shell's [main] as trees of system
    calls: a node for each call, with one continuation for each answer.
    [trace] runs a tree on a descriptor table.  The kernel's choices, whether
    a file opens, a program loads, a pipe or a process is created, are
    functions; descriptors are the lowest free ones, as in [fdalloc]. *)
From S2P Require Import Prelude User Sh ShShow ShStrings.

Inductive proc :=
  | TExec (path : list Z) (argv : list (list Z)) (k : proc)
  | TOpen (path : list Z) (mode : Z) (k : Z → proc)
  | TClose (fd : Z) (k : proc)
  | TDup (fd : Z) (k : Z → proc)
  | TPipe (k : option (Z * Z) → proc)
  | TFork (k : Z → proc)
  | TWait (k : proc)
  | TChdir (path : list Z) (k : Z → proc)
  | TRead (fd : Z) (k : option Z → proc)    (* one byte, or none *)
  | TWrite (fd : Z) (l : list Z) (k : proc)
  | TExit (status : Z)
  | TNoFuel.

(** ** sh.c *)

Definition exec_failed (s : list Z) : list Z := lit "exec " ++ s ++ lit " failed" ++ [10].
Definition open_failed (s : list Z) : list Z := lit "open " ++ s ++ lit " failed" ++ [10].
Definition cannot_cd (s : list Z) : list Z := lit "cannot cd " ++ s ++ [10].

Definition panic (s : list Z) : proc := TWrite 2 (s ++ [10]) (TExit 1).

Definition fork1 (k : Z → proc) : proc :=
  TFork (λ pid, if pid =? -1 then panic (lit "fork") else k pid).

(** [str] gives the string of a token. *)
Fixpoint runcmd (str : list Z * list Z → list Z) (c : cmd) : proc :=
  match c with
  | EXEC argv =>
      match argv with
      | [] => TExit 1
      | a0 :: _ => TExec (str a0) (map str argv) (TWrite 2 (exec_failed (str a0)) (TExit 0))
      end
  | REDIR c r =>
      let file := str (r_file r, r_efile r) in
      TClose (r_fd r) (TOpen file (r_mode r) (λ fd,
        if fd <? 0 then TWrite 2 (open_failed file) (TExit 1) else runcmd str c))
  | LIST l r =>
      fork1 (λ pid, if pid =? 0 then runcmd str l else TWait (runcmd str r))
  | PIPE l r =>
      TPipe (λ p, match p with
      | None => panic (lit "pipe")
      | Some (p0, p1) =>
          fork1 (λ pid, if pid =? 0 then
            TClose 1 (TDup p1 (λ _, TClose p0 (TClose p1 (runcmd str l))))
          else fork1 (λ pid, if pid =? 0 then
            TClose 0 (TDup p0 (λ _, TClose p0 (TClose p1 (runcmd str r))))
          else TClose p0 (TClose p1 (TWait (TWait (TExit 0))))))
      end)
  | BACK c =>
      fork1 (λ pid, if pid =? 0 then runcmd str c else TExit 0)
  end.

(** [gets] of at most [m] characters, after the characters [l]. *)
Fixpoint gets (m : nat) (l : list Z) (k : list Z → proc) : proc :=
  match m with
  | O => k l
  | S m => TRead 0 (λ c, match c with
      | None => k l
      | Some c => if (c =? 10) || (c =? 13) then k (l ++ [c]) else gets m (l ++ [c]) k
      end)
  end.

Definition sizeof_buf : nat := 100.
(** The line read, [None] at the end of the input. *)
Definition getcmd (k : option (list Z) → proc) : proc :=
  TWrite 2 (lit "$ ") (gets (sizeof_buf - 1) [] (λ l, k (if hd 0 l =? 0 then None else Some (until0 l)))).

Definition is_cd (line : list Z) : bool := bool_decide (take 3 line = lit "cd ").

(** The child that runs a line. *)
Definition runline (line : list Z) : proc :=
  match parsecmd line with
  | POk (c, buf) => runcmd (string_at line buf) c
  | PPanic msg => panic msg
  | PNoFuel => TNoFuel
  end.

(** [fuel]: how many lines to read. *)
Fixpoint main_loop (fuel : nat) : proc :=
  match fuel with
  | O => TNoFuel
  | S fuel => getcmd (λ r, match r with
      | None => TExit 0
      | Some line =>
          if is_cd line then
            let dir := drop 3 (take (length line - 1) line) in
            TChdir dir (λ r, if r <? 0 then TWrite 2 (cannot_cd dir) (main_loop fuel) else main_loop fuel)
          else fork1 (λ pid, if pid =? 0 then runline line else TWait (main_loop fuel))
      end)
  end.

Definition O_RDWR : Z := 2.
(** The loop that opens the console; it runs at most four times. *)
Fixpoint open_console (n : nat) (k : proc) : proc :=
  match n with
  | O => TNoFuel
  | S n => TOpen (lit "console") O_RDWR (λ fd,
      if 0 <=? fd then if 3 <=? fd then TClose fd k else open_console n k else k)
  end.

Definition sh_main (fuel : nat) : proc := open_console 4 (main_loop fuel).

(** ** Running a tree *)

(** A process's name: which of its parent's children it is, and so on up. *)
Definition name := list nat.

Inductive obj :=
  | OFile (path : list Z) (mode : Z)
  | OPipe (maker : name) (write : bool)
  | OOther (id : Z).
Abbreviation fdtable := (list (option obj)).

(** What a process does, with what its children do. *)
Inductive event :=
  | EExec (argv : list (list Z)) (fds : fdtable)
  | EFork (child : list event)
  | EWait
  | EChdir (path : list Z)
  | EWrite (to : option obj) (l : list Z)
  | EExit (status : Z).

Fixpoint lowest (fds : fdtable) : option nat :=
  match fds with
  | [] => None
  | None :: _ => Some O
  | Some _ :: fds => S <$> lowest fds
  end.
Definition alloc (fds : fdtable) (o : obj) : option (Z * fdtable) :=
  match lowest fds with Some i => Some (Z.of_nat i, <[i := Some o]> fds) | None => None end.
Definition at_fd (fds : fdtable) (fd : Z) : option obj := mjoin (fds !! Z.to_nat fd).

Record kernel := Kernel {
  k_opens : list Z → Z → bool;
  k_execs : list Z → bool;
  k_pipes : name → bool;
  k_forks : name → bool;
  k_chdirs : list Z → bool;
  k_input : name → list Z      (* what the reads of a process answer *)
}.

Section trace.
Variable K : kernel.

(** [me] is the process's name, [n] how many children it has had, [inp] what
    is left for it to read. *)
Fixpoint trace (t : proc) (me : name) (n : nat) (inp : list Z) (fds : fdtable) : list event :=
  match t with
  | TExec path argv k => if k_execs K path then [EExec argv fds] else trace k me n inp fds
  | TOpen path mode k =>
      match (if k_opens K path mode then alloc fds (OFile path mode) else None) with
      | Some (fd, fds') => trace (k fd) me n inp fds'
      | None => trace (k (-1)) me n inp fds
      end
  | TClose fd k => trace k me n inp (<[Z.to_nat fd := None]> fds)
  | TDup fd k =>
      match (o ← at_fd fds fd; alloc fds o) with
      | Some (fd', fds') => trace (k fd') me n inp fds'
      | None => trace (k (-1)) me n inp fds
      end
  | TPipe k =>
      match (if k_pipes K me then
               '(p0, fds) ← alloc fds (OPipe me false); '(p1, fds) ← alloc fds (OPipe me true); Some (p0, p1, fds)
             else None) with
      | Some (p0, p1, fds') => trace (k (Some (p0, p1))) me n inp fds'
      | None => trace (k None) me n inp fds
      end
  | TFork k =>
      if k_forks K (me ++ [n]) then EFork (trace (k 0) (me ++ [n]) 0 (k_input K (me ++ [n])) fds) :: trace (k 1) me (S n) inp fds
      else trace (k (-1)) me (S n) inp fds
  | TWait k => EWait :: trace k me n inp fds
  | TChdir path k => EChdir path :: trace (k (if k_chdirs K path then 0 else -1)) me n inp fds
  | TRead fd k =>
      match inp with
      | c :: inp => trace (k (Some c)) me n inp fds
      | [] => trace (k None) me n [] fds
      end
  | TWrite fd l k => EWrite (at_fd fds fd) l :: trace k me n inp fds
  | TExit v => [EExit v]
  | TNoFuel => []
  end.
End trace.

(** ** What a command means *)

Section meaning.
Variable K : kernel.

Definition fork_meaning (me : name) (n : nat) (fds : fdtable) (child k : list event) : list event :=
  if k_forks K (me ++ [n]) then EFork child :: k else [EWrite (at_fd fds 2) (lit "fork" ++ [10]); EExit 1].

(** The descriptors of a command are those of the shell, but for the ends of
    its pipes and its redirections: no program sees any other pipe end. *)
Fixpoint meaning (a : ast) (me : name) (n : nat) (fds : fdtable) : list event :=
  match a with
  | AExec [] => [EExit 1]
  | AExec (w :: ws) =>
      if k_execs K w then [EExec (w :: ws) fds] else [EWrite (at_fd fds 2) (exec_failed w); EExit 0]
  | ARedir a k f =>
      if k_opens K f (mode_of k) then meaning a me n (<[Z.to_nat (fd_of k) := Some (OFile f (mode_of k))]> fds)
      else [EWrite (at_fd fds 2) (open_failed f); EExit 1]
  | AList l r =>
      fork_meaning me n fds (meaning l (me ++ [n]) 0 fds) (EWait :: meaning r me (S n) fds)
  | APipe l r =>
      if k_pipes K me then
        fork_meaning me n fds (meaning l (me ++ [n]) 0 (<[1%nat := Some (OPipe me true)]> fds))
          (fork_meaning me (S n) fds (meaning r (me ++ [S n]) 0 (<[0%nat := Some (OPipe me false)]> fds))
             [EWait; EWait; EExit 0])
      else [EWrite (at_fd fds 2) (lit "pipe" ++ [10]); EExit 1]
  | ABack a => fork_meaning me n fds (meaning a (me ++ [n]) 0 fds) [EExit 0]
  end.
End meaning.
