(* ===== verification/ShMain.v ===== *)
(** * What the shell does with its input

    Running a parsed command does what its syntax tree means, with exactly
    the descriptors the tree asks for; the shell's [main] does so for line
    after line. *)
From S2P Require Import Prelude User Sh ShShow ShStrings ShRun.

(** ** Descriptor tables *)

Lemma lowest_Some fds i : fds !! i = Some None → (∀ j, (j < i)%nat → ∃ o, fds !! j = Some (Some o)) → lowest fds = Some i.
Proof.
  revert i. induction fds as [|[o|] fds IH]; intros i Hi Hj; simpl; [done| |].
  - destruct i as [|i]; [done|]. rewrite (IH i); [done|done|]. intros j Hl. apply (Hj (S j)). lia.
  - destruct i as [|i]; [done|]. by destruct (Hj 0%nat ltac:(lia)).
Qed.
Lemma lowest_le fds i : fds !! i = Some None → ∃ k, lowest fds = Some k ∧ (k ≤ i)%nat ∧ fds !! k = Some None.
Proof.
  revert i. induction fds as [|[o|] fds IH]; intros i Hi; simpl; [done| |exists O; split_and!; [done|lia|done]].
  destruct i as [|i]; [done|]. destruct (IH i Hi) as (k&->&?&?). exists (S k). split_and!; [done|lia|done].
Qed.

Definition is_open (fds : fdtable) (i : nat) : Prop := ∃ o, fds !! i = Some (Some o).
(** The standard descriptors are open and two others are free. *)
Definition ready (fds : fdtable) : Prop :=
  is_open fds 0 ∧ is_open fds 1 ∧ is_open fds 2 ∧ ∃ i j, (i < j)%nat ∧ fds !! i = Some None ∧ fds !! j = Some None.

Lemma ready_insert fds i o : ready fds → (i < 2)%nat → ready (<[i := Some o]> fds).
Proof.
  intros (H0&H1&H2&a&b&Hab&Ha&Hb) Hi.
  assert (∀ k, is_open fds k → is_open (<[i := Some o]> fds) k) as Hk.
  { intros k [x Hx]. destruct (decide (k = i)) as [->|].
    - exists o. apply list_lookup_insert_eq. by apply lookup_lt_Some in Hx.
    - exists x. by rewrite list_lookup_insert_ne. }
  assert (∀ k, fds !! k = Some None → k ≠ i).
  { intros k Hk' ->. destruct H0 as [??], H1 as [??]. destruct i as [|[|i]]; [congruence|congruence|lia]. }
  split_and!; [by apply Hk..|]. exists a, b. rewrite !list_lookup_insert_ne by (apply not_eq_sym; auto). done.
Qed.

(** Closing a standard descriptor makes it the lowest one. *)
Lemma alloc_closed fds i o : is_open fds 0 → is_open fds 1 → (i < 2)%nat →
  alloc (<[i := None]> fds) o = Some (Z.of_nat i, <[i := Some o]> fds).
Proof.
  intros [x Hx] [y Hy] Hi. unfold alloc. rewrite (lowest_Some _ i).
  - by rewrite list_insert_insert_eq.
  - apply list_lookup_insert_eq. apply lookup_lt_Some in Hx, Hy. lia.
  - intros j Hj. rewrite list_lookup_insert_ne by lia. destruct j; [by eexists|lia].
Qed.

(** The descriptors of a new pipe. *)
Lemma alloc_pipe fds r w : ready fds → ∃ i j, (2 < i)%nat ∧ (2 < j)%nat ∧ i ≠ j ∧ fds !! i = Some None ∧ fds !! j = Some None ∧
  alloc fds r = Some (Z.of_nat i, <[i := Some r]> fds) ∧
  alloc (<[i := Some r]> fds) w = Some (Z.of_nat j, <[j := Some w]> (<[i := Some r]> fds)).
Proof.
  intros ([? H0]&[? H1]&[? H2]&a&b&Hab&Ha&Hb). destruct (lowest_le fds a Ha) as (i&Hi&Hia&Hni).
  assert (<[i := Some r]> fds !! b = Some None) as Hb' by (rewrite list_lookup_insert_ne by lia; done).
  destruct (lowest_le _ _ Hb') as (j&Hj&Hjb&Hnj).
  assert (i ≠ j). { intros <-. rewrite list_lookup_insert_eq in Hnj by (by apply lookup_lt_Some in Hni). done. }
  rewrite list_lookup_insert_ne in Hnj by done. 
  assert (∀ k, fds !! k = Some None → (2 < k)%nat) as Hk by (intros [|[|[|k]]] Hk; [congruence..|lia]).
  exists i, j. unfold alloc. rewrite Hi, Hj. split_and!; auto.
Qed.

(** A child's table after its [close], [dup] and two more [close]s. *)
Lemma pipe_child (fds : fdtable) i j k o r w : (2 < i)%nat → (2 < j)%nat → i ≠ j → (k < 2)%nat → fds !! i = Some None → fds !! j = Some None →
  <[j := None]> (<[i := None]> (<[k := Some o]> (<[j := w]> (<[i := r]> fds)))) = <[k := Some o]> fds.
Proof.
  intros Hi Hj Hij Hk Ei Ej. rewrite (list_insert_insert_ne _ i k), (list_insert_insert_ne _ j k) by lia. f_equal.
  rewrite (list_insert_insert_ne _ i j) by done. rewrite list_insert_insert_eq. rewrite list_insert_insert_eq.
  rewrite (list_insert_id _ i) by done. by apply list_insert_id.
Qed.

(** ** Running commands *)

Section running.
Variable K : kernel.

Lemma at_fd_insert fds i fd o : Z.to_nat fd ≠ i → at_fd (<[i := o]> fds) fd = at_fd fds fd.
Proof. intros. unfold at_fd. by rewrite list_lookup_insert_ne. Qed.

Lemma trace_fork1 k me n inp fds : trace K (fork1 k) me n inp fds =
  fork_meaning K me n fds (trace K (k 0) (me ++ [n]) 0 (k_input K (me ++ [n])) fds) (trace K (k 1) me (S n) inp fds).
Proof. unfold fork1, fork_meaning. cbn [trace]. by destruct (k_forks K (me ++ [n])). Qed.

Lemma fork_meaning_at me n fds fds' child k : at_fd fds 2 = at_fd fds' 2 →
  fork_meaning K me n fds child k = fork_meaning K me n fds' child k.
Proof. unfold fork_meaning. by intros ->. Qed.

Lemma trace_redir file mode fd k me n inp fds : ready fds → fd = 0 ∨ fd = 1 →
  trace K (TClose fd (TOpen file mode (λ fd, if fd <? 0 then TWrite 2 (open_failed file) (TExit 1) else k))) me n inp fds =
  if k_opens K file mode then trace K k me n inp (<[Z.to_nat fd := Some (OFile file mode)]> fds)
  else [EWrite (at_fd fds 2) (open_failed file); EExit 1].
Proof.
  intros (H0&H1&H2&_) Hfd. cbn [trace]. destruct (k_opens K file mode).
  - rewrite alloc_closed by (done || lia). by rewrite (proj2 (Z.ltb_ge _ _)) by lia.
  - cbn. rewrite at_fd_insert; [done|]. destruct Hfd as [-> | ->]; simpl; lia.
Qed.

(** An end of a pipe as descriptor [fd] of a child. *)
Lemma trace_child (fd i j : nat) o b k me n inp fds r w : ready fds → (fd < 2)%nat → (2 < i)%nat → (2 < j)%nat → i ≠ j →
  fds !! i = Some None → fds !! j = Some None → o = (if b : bool then w else r) →
  let p := Z.of_nat (if b : bool then j else i) in
  trace K (TClose (Z.of_nat fd) (TDup p (λ _, TClose (Z.of_nat i) (TClose (Z.of_nat j) k)))) me n inp
    (<[j := Some w]> (<[i := Some r]> fds)) = trace K k me n inp (<[fd := Some o]> fds).
Proof.
  intros Hr Hfd Hi Hj Hij Ei Ej -> p. cbn [trace]. rewrite !Nat2Z.id.
  assert (at_fd (<[fd := None]> (<[j := Some w]> (<[i := Some r]> fds))) p = Some (if b then w else r)) as ->.
  { subst p. unfold at_fd. rewrite Nat2Z.id. apply lookup_lt_Some in Ei, Ej.
    rewrite list_lookup_insert_ne by (destruct b; lia). destruct b; [by rewrite list_lookup_insert_eq by (rewrite length_insert; lia)|].
    rewrite list_lookup_insert_ne by lia. by rewrite list_lookup_insert_eq. }
  cbn [mbind option_bind]. destruct Hr as ([x H0]&[y H1]&_). rewrite alloc_closed; [|..|done].
  - by rewrite pipe_child.
  - exists x. rewrite !list_lookup_insert_ne by lia. done.
  - exists y. rewrite !list_lookup_insert_ne by lia. done.
Qed.

Lemma trace_runcmd str c a me n inp fds : reads str c a → ready fds →
  trace K (runcmd str c) me n inp fds = meaning K a me n fds.
Proof.
  revert a me n inp fds. induction c as [argv|c IH r|l IHl r IHr|l IHl r IHr|c IH]; intros [] me n inp fds Hr Hd; try done; cbn [runcmd].
  - simpl in Hr. subst. destruct argv as [|a0 argv]; [done|]. simpl. by destruct (k_execs K (str a0)).
  - destruct Hr as (Hr&Hf&Hm&Hfd). rewrite Hf, Hm, Hfd. assert (fd_of k = 0 ∨ fd_of k = 1) as Hk by (destruct k; auto).
    rewrite trace_redir by done. cbn [meaning]. destruct (k_opens K file (mode_of k)); [|done]. apply IH; [done|].
    apply ready_insert; [done|]. destruct Hk as [-> | ->]; simpl; lia.
  - destruct Hr as [Hl Hr]. cbn [trace meaning]. destruct (k_pipes K me); [|done].
    destruct (alloc_pipe fds (OPipe me false) (OPipe me true) Hd) as (i&j&Hi&Hj&Hij&Ei&Ej&A1&A2).
    rewrite A1. cbn [mbind option_bind]. rewrite A2. cbn [mbind option_bind]. rewrite !trace_fork1.
    assert (at_fd (<[j := Some (OPipe me true)]> (<[i := Some (OPipe me false)]> fds)) 2 = at_fd fds 2) as E2
      by (rewrite !at_fd_insert by (simpl; lia); done).
    rewrite (fork_meaning_at me n _ _ _ _ E2). change (0 =? 0) with true. change (1 =? 0) with false. cbv iota.
    rewrite (trace_child 1 i j (OPipe me true) true) by (done || lia). rewrite (IHl _ _ _ _ _ Hl) by (apply ready_insert; [done|lia]).
    rewrite trace_fork1, (fork_meaning_at me (S n) _ _ _ _ E2). change (0 =? 0) with true. change (1 =? 0) with false. cbv iota.
    rewrite (trace_child 0 i j (OPipe me false) false) by (done || lia). by rewrite (IHr _ _ _ _ _ Hr) by (apply ready_insert; [done|lia]).
  - destruct Hr as [Hl Hr]. rewrite trace_fork1. cbn [meaning]. change (0 =? 0) with true. change (1 =? 0) with false. cbv iota. rewrite (IHl _ _ _ _ _ Hl) by done. cbn [trace]. by rewrite (IHr _ _ _ _ _ Hr).
  - rewrite trace_fork1. cbn [meaning]. change (0 =? 0) with true. change (1 =? 0) with false. cbv iota. by rewrite (IH a).
Qed.

Lemma trace_gets m l w k me n inp fds : (length w < m)%nat → 10 ∉ w → 13 ∉ w →
  trace K (gets m l k) me n (nl w ++ inp) fds = trace K (k (l ++ nl w)) me n inp fds.
Proof.
  unfold nl. revert m l. induction w as [|c w IH]; intros m l Hm H1 H2; (destruct m as [|m]; [simpl in Hm; lia|]); cbn [gets trace app]; [done|].
  apply not_elem_of_cons in H1 as [? H1], H2 as [? H2]. rewrite (proj2 (Z.eqb_neq c 10)), (proj2 (Z.eqb_neq c 13)) by done.
  cbn [orb]. rewrite IH by (done || simpl in Hm; lia). by rewrite <- app_assoc.
Qed.

Lemma until0_id l : 0 ∉ l → until0 l = l.
Proof. induction l as [|c l IH]; simpl; [done|]. intros [? Hl]%not_elem_of_cons. zbool. by rewrite IH. Qed.

Lemma trace_getcmd w k me n inp fds : (length w < sizeof_buf - 1)%nat → 0 ∉ w → 10 ∉ w → 13 ∉ w →
  trace K (getcmd k) me n (nl w ++ inp) fds = EWrite (at_fd fds 2) (lit "$ ") :: trace K (k (Some (nl w))) me n inp fds.
Proof.
  intros Hl H0 H1 H2. unfold getcmd. cbn [trace]. rewrite trace_gets by done. simpl app.
  assert (0 ∉ nl w) as Hn by (unfold nl; set_solver by lia). rewrite (until0_id _ Hn).
  assert (hd 0 (nl w) ≠ 0) as Hh by (unfold nl in *; destruct w; simpl in *; set_solver by lia).
  by rewrite (proj2 (Z.eqb_neq _ _) Hh).
Qed.
Lemma trace_getcmd_end k me n fds :
  trace K (getcmd k) me n [] fds = EWrite (at_fd fds 2) (lit "$ ") :: trace K (k None) me n [] fds.
Proof. done. Qed.

(** ** A session *)

Inductive input := Run (a : ast) | Cd (dir : list Z).
Definition text (l : input) : list Z := match l with Run a => show a | Cd dir => lit "cd " ++ dir end.
Definition typed (ls : list input) : list Z := concat (map (λ l, nl (text l)) ls).
(** Lines the shell can take: they fit its buffer, a command is well-formed
    and not a [cd], and a directory's name has no null or line end. *)
Definition valid (l : input) : Prop :=
  (length (text l) < sizeof_buf - 1)%nat ∧
  match l with Run a => wf a ∧ is_cd (nl (show a)) = false | Cd dir => 0 ∉ dir ∧ 10 ∉ dir ∧ 13 ∉ dir end.

Fixpoint session (ls : list input) (n : nat) (fds : fdtable) : list event :=
  EWrite (at_fd fds 2) (lit "$ ") ::
  match ls with
  | [] => [EExit 0]
  | Run a :: ls => fork_meaning K [] n fds (meaning K a [n] 0 fds) (EWait :: session ls (S n) fds)
  | Cd dir :: ls => EChdir dir :: (if k_chdirs K dir then [] else [EWrite (at_fd fds 2) (cannot_cd dir)]) ++ session ls n fds
  end.

Lemma valid_text l : valid l → (length (text l) < sizeof_buf - 1)%nat ∧ 0 ∉ text l ∧ 10 ∉ text l ∧ 13 ∉ text l.
Proof.
  destruct l as [a|dir]; intros [Hl H]; (split; [done|]).
  - destruct H as [H _]. split_and!; apply show_lacks; try done; intros [?|[?|?]]; (done || by vm_compute in *; set_solver).
  - cbn [text]. destruct H as (?&?&?). assert (∀ c, c ∉ dir → c ∉ lit "cd " → c ∉ lit "cd " ++ dir) as Hc by set_solver.
    split_and!; apply Hc; try done; vm_compute; set_solver by lia.
Qed.

Lemma trace_session ls n fds : Forall valid ls → ready fds →
  trace K (main_loop (S (length ls))) [] n (typed ls) fds = session ls n fds.
Proof.
  intros Hv Hd. revert n. induction Hv as [|l ls Hl Hv IH]; intros n; [done|]. cbn [length]. set (fuel := S (length ls)) in *.
  change (typed (l :: ls)) with (nl (text l) ++ typed ls). cbn [main_loop].
  destruct (valid_text l Hl) as (Hlen&H0&H1&H2). rewrite trace_getcmd by done. cbn [session]. f_equal.
  destruct Hl as [_ Hl]. destruct l as [a|dir]; cbn [text] in *.
  - destruct Hl as [Hw ->]. rewrite trace_fork1. change (0 =? 0) with true. change (1 =? 0) with false. cbv iota.
    destruct (parse_line a Hw) as (c&buf&Hp&Hr). unfold runline. rewrite Hp. rewrite (trace_runcmd _ _ a) by done.
    cbn [trace]. by rewrite IH.
  - replace (is_cd _) with true by done. cbv zeta iota. cbn [trace].
    replace (drop 3 (take (length (nl (lit "cd " ++ dir)) - 1) (nl (lit "cd " ++ dir)))) with dir.
    2: { unfold nl. rewrite length_app. simpl (length [10]). rewrite Nat.add_sub, take_app_length. by rewrite drop_app_length'. }
    destruct (k_chdirs K dir).
    + change (0 <? 0) with false. cbv iota. by rewrite IH.
    + change (-1 <? 0) with true. cbv iota. cbn [trace app]. by rewrite IH.
Qed.

Lemma trace_open_console k me n inp fds : ready fds → trace K (open_console 4 k) me n inp fds = trace K k me n inp fds.
Proof.
  intros Hd. cbn [open_console trace]. destruct (k_opens K (lit "console") O_RDWR); [|done].
  destruct (alloc_pipe fds (OFile (lit "console") O_RDWR) (OOther 0) Hd) as (i&j&Hi&_&_&Ei&_&A&_).
  rewrite A. zbool. cbn [trace]. rewrite Nat2Z.id, list_insert_insert_eq. by rewrite list_insert_id.
Qed.
End running.

(** C24: what the shell does.  Reading valid lines, it prompts, and for each
    command line forks a child and waits for it; the child and its
    descendants run the programs of the syntax tree the line was printed
    from, each with the shell's descriptors except for the redirections and
    pipe ends that the tree gives it (no other end of a pipe stays open), a
    list's right side after waiting for the left one, both sides of a pipe
    before waiting for both, a background job without waiting; failures of
    [open], [exec], [pipe] and [fork] are reported on descriptor 2.  A [cd]
    runs in the shell itself.  At the end of the input the shell exits. *)
Theorem shell_runs_lines (K : kernel) (ls : list input) (fds : fdtable) :
  Forall valid ls → ready fds →
  trace K (sh_main (S (length ls))) [] 0 (typed ls) fds = session K ls 0 fds.
Proof. intros Hv Hd. unfold sh_main. rewrite trace_open_console by done. by apply trace_session. Qed.

(** A kernel that grants everything but [cd] to a missing directory. *)
Definition demo_kernel : kernel := Kernel (λ _ _, true) (λ _, true) (λ _, true) (λ _, true) (λ d, bool_decide (d = lit "a")) (λ _, []).
Definition demo_fds : fdtable := [Some (OOther 0); Some (OOther 1); Some (OOther 2)] ++ repeat None 13.
Definition demo_lines : list input := [Run sample; Cd (lit "b"); Run (AExec [])].
Lemma shell_runs_lines_witness :
  Forall valid demo_lines ∧ ready demo_fds ∧
  trace demo_kernel (sh_main 4) [] 0 (typed demo_lines) demo_fds = session demo_kernel demo_lines 0 demo_fds.
Proof.
  assert (Forall valid demo_lines) as Hv.
  { unfold demo_lines. repeat constructor; unfold valid; try (vm_compute; repeat (split || constructor || lia || done)); vm_compute; set_solver by lia. }
  assert (ready demo_fds) as Hd.
  { unfold ready, is_open, demo_fds. split_and!; [by eexists..|]. exists 3%nat, 4%nat. split_and!; [lia|done|done]. }
  split_and!; [exact Hv|exact Hd|]. apply (shell_runs_lines demo_kernel demo_lines demo_fds Hv Hd).
Defined.
