(* ===== verification/Init.v ===== *)
(** * user/init.c and user/zombie.c

    The first program and a small one that leaves a zombie, as trees of
    system calls like the shell's ([ShRun]), with the process numbers that
    [fork] and [wait] answer. *)
From S2P Require Import Prelude User Sh ShShow ShStrings ShRun.

Inductive iproc :=
  | IOpen (path : list Z) (mode : Z) (k : Z → iproc)
  | IMknod (path : list Z) (major minor : Z) (k : Z → iproc)
  | IDup (fd : Z) (k : Z → iproc)
  | IPrintf (l : list Z) (k : iproc)
  | IFork (k : Z → iproc)
  | IExec (path : list Z) (argv : list (list Z)) (k : iproc)
  | IWait (k : Z → iproc)
  | ISleep (n : Z) (k : iproc)
  | IExit (status : Z)
  | INoFuel.

(** ** init.c *)

Definition CONSOLE : Z := 1.
Definition console : list Z := lit "console".
Definition argv : list (list Z) := [lit "sh"].
Definition starting : list Z := lit "init: starting sh" ++ [10].
Definition fork_failed : list Z := lit "init: fork failed" ++ [10].
Definition sh_failed : list Z := lit "init: exec sh failed" ++ [10].
Definition wait_failed : list Z := lit "init: wait returned an error" ++ [10].

(** The inner loop: wait until the shell [pid] exits. *)
Fixpoint wait_shell (pid : Z) (fuel : nat) (k : iproc) : iproc :=
  match fuel with
  | O => INoFuel
  | S fuel => IWait (λ wpid,
      if wpid =? pid then k
      else if wpid <? 0 then IPrintf wait_failed (IExit 1)
      else wait_shell pid fuel k)
  end.

(** [rounds]: how often to start the shell; [fuel]: how often to wait for it. *)
Fixpoint init_loop (rounds fuel : nat) : iproc :=
  match rounds with
  | O => INoFuel
  | S rounds =>
      IPrintf starting (IFork (λ pid,
        if pid <? 0 then IPrintf fork_failed (IExit 1)
        else if pid =? 0 then IExec (lit "sh") argv (IPrintf sh_failed (IExit 1))
        else wait_shell pid fuel (init_loop rounds fuel)))
  end.

Definition init_main (rounds fuel : nat) : iproc :=
  IOpen console O_RDWR (λ r,
    let rest := IDup 0 (λ _, IDup 0 (λ _, init_loop rounds fuel)) in
    if r <? 0 then IMknod console CONSOLE 0 (λ _, IOpen console O_RDWR (λ _, rest)) else rest).

(** ** zombie.c *)

Definition zombie_main : iproc := IFork (λ pid, if pid >? 0 then ISleep 5 (IExit 0) else IExit 0).

(** ** Running a tree *)

Inductive ievent :=
  | IEMknod (path : list Z) (major minor : Z)
  | IEWrite (to : option obj) (l : list Z)
  | IEFork (child : list ievent)
  | IEExec (path : list Z) (argv : list (list Z)) (fds : fdtable)
  | IEWait (wpid : Z)
  | IESleep (n : Z)
  | IEExit (status : Z).

(** The console exists or not; [execs] is whether a program loads in a
    process; [forks] and [waits] are the answers to come.  A call of [wait]
    without an answer does not return. *)
Section itrace.
Variable execs : Z → bool.

Fixpoint itrace (t : iproc) (me : Z) (made : bool) (forks waits : list Z) (fds : fdtable) : list ievent :=
  match t with
  | IOpen path mode k =>
      match (if made then alloc fds (OFile path mode) else None) with
      | Some (fd, fds') => itrace (k fd) me made forks waits fds'
      | None => itrace (k (-1)) me made forks waits fds
      end
  | IMknod path major minor k =>
      IEMknod path major minor :: itrace (k (if made then -1 else 0)) me true forks waits fds
  | IDup fd k =>
      match (o ← at_fd fds fd; alloc fds o) with
      | Some (fd', fds') => itrace (k fd') me made forks waits fds'
      | None => itrace (k (-1)) me made forks waits fds
      end
  | IPrintf l k => IEWrite (at_fd fds 1) l :: itrace k me made forks waits fds
  | IFork k =>
      match forks with
      | pid :: forks =>
          if pid <? 0 then itrace (k (-1)) me made forks waits fds
          else IEFork (itrace (k 0) pid made [] [] fds) :: itrace (k pid) me made forks waits fds
      | [] => itrace (k (-1)) me made [] waits fds
      end
  | IExec path argv k => if execs me then [IEExec path argv fds] else itrace k me made forks waits fds
  | IWait k =>
      match waits with
      | wpid :: waits => IEWait wpid :: itrace (k wpid) me made forks waits fds
      | [] => []
      end
  | ISleep n k => IESleep n :: itrace k me made forks waits fds
  | IExit v => [IEExit v]
  | INoFuel => []
  end.

(** ** What init does *)

Definition tty : option obj := Some (OFile console O_RDWR).
(** Descriptors 0, 1 and 2 are the console, the others as they were. *)
Definition ttys (fds : fdtable) : fdtable := tty :: tty :: tty :: drop 3 fds.

(** A shell with its process number and the orphans reaped while it runs. *)
Definition session : Type := Z * list Z.
Definition session_ok (x : session) : Prop := 0 < x.1 ∧ Forall (λ w, 0 ≤ w ∧ w ≠ x.1) x.2.

Definition shell (fds : fdtable) (pid : Z) : list ievent :=
  if execs pid then [IEExec (lit "sh") argv fds] else [IEWrite tty sh_failed; IEExit 1].
Definition start_shell (fds : fdtable) (pid : Z) : list ievent := [IEWrite tty starting; IEFork (shell fds pid)].

(** How init ends, or where it stays. *)
Inductive ending :=
  | NoProcess                              (* fork fails *)
  | NoChild (pid : Z) (orphans : list Z)   (* wait fails *)
  | Waiting (pid : Z) (orphans : list Z).  (* nobody exits *)
Definition ending_ok (e : ending) : Prop :=
  match e with NoProcess => True | NoChild pid l | Waiting pid l => session_ok (pid, l) end.
Definition end_forks (e : ending) : list Z := match e with NoProcess => [] | NoChild pid _ | Waiting pid _ => [pid] end.
Definition end_waits (e : ending) : list Z :=
  match e with NoProcess => [] | NoChild _ l => l ++ [-1] | Waiting _ l => l end.
Definition end_events (fds : fdtable) (e : ending) : list ievent :=
  match e with
  | NoProcess => [IEWrite tty starting; IEWrite tty fork_failed; IEExit 1]
  | NoChild pid l => start_shell fds pid ++ map IEWait (l ++ [-1]) ++ [IEWrite tty wait_failed; IEExit 1]
  | Waiting pid l => start_shell fds pid ++ map IEWait l
  end.
Definition session_events (fds : fdtable) (x : session) : list ievent :=
  start_shell fds x.1 ++ map IEWait (x.2 ++ [x.1]).

Lemma wait_shell_ok pid l waits fuel k me made forks fds : Forall (λ w, 0 ≤ w ∧ w ≠ pid) l → (length l < fuel)%nat →
  itrace (wait_shell pid fuel k) me made forks (l ++ waits) fds =
    map IEWait l ++ itrace (wait_shell pid (fuel - length l) k) me made forks waits fds.
Proof.
  intros Hl. revert fuel. induction Hl as [|w l [Hw Hne] _ IH]; intros fuel Hf; simpl in Hf; [by rewrite Nat.sub_0_r|].
  destruct fuel as [|fuel]; [lia|]. cbn [app wait_shell itrace map]. f_equal. zbool. apply IH. lia.
Qed.

Definition opened (fds : fdtable) : Prop := at_fd fds 1 = tty.

Lemma start_shell_ok pid rounds fuel me made forks waits fds : opened fds → 0 < pid →
  itrace (init_loop (S rounds) fuel) me made (pid :: forks) waits fds =
    start_shell fds pid ++ itrace (wait_shell pid fuel (init_loop rounds fuel)) me made forks waits fds.
Proof.
  intros Hopen Hpid. cbn [init_loop itrace]. rewrite Hopen. zbool. unfold start_shell, shell. cbn [Z.ltb Z.eqb Z.compare itrace].
  by rewrite Hopen.
Qed.

(** The rounds of init, however many shells and orphans there are. *)
Lemma init_loop_ok sessions e rounds fuel made fds me : opened fds → Forall session_ok sessions → ending_ok e →
  (length sessions < rounds)%nat → Forall (λ x : session, (length x.2 < fuel)%nat) sessions → (length (end_waits e) < fuel)%nat →
  itrace (init_loop rounds fuel) me made (map fst sessions ++ end_forks e) (concat (map (λ x, x.2 ++ [x.1]) sessions) ++ end_waits e) fds =
    concat (map (session_events fds) sessions) ++ end_events fds e.
Proof.
  intros Hopen Hs He. revert rounds. induction Hs as [|[pid l] sessions [Hpid Hl] _ IH]; intros rounds Hr Hf Hfe; simpl in Hr;
    (destruct rounds as [|rounds]; [lia|]).
  - cbn [map concat app]. destruct e as [|pid l|pid l]; cbn [end_forks end_waits ending_ok end_events] in *.
    + cbn. by rewrite Hopen.
    + destruct He as [Hpid Hl]. simpl in Hpid, Hl. rewrite length_app in Hfe. simpl in Hfe.
      rewrite start_shell_ok, wait_shell_ok by (done || lia). rewrite map_app, <- app_assoc. do 2 f_equal.
      destruct (fuel - length l)%nat eqn:Ef; [lia|]. cbn [wait_shell itrace map app]. zbool. cbn [itrace Z.ltb Z.compare]. by rewrite Hopen.
    + destruct He as [Hpid Hl]. simpl in Hpid, Hl. rewrite start_shell_ok by done. f_equal.
      rewrite <- (app_nil_r l) at 1. rewrite wait_shell_ok by (done || lia).
      destruct (fuel - length l)%nat eqn:Ef; [lia|]. cbn. by rewrite app_nil_r.
  - apply Forall_cons in Hf as [Hfl Hf]. simpl in Hpid, Hl, Hfl. cbn [map concat app fst snd]. unfold session_events at 1. cbn [fst snd].
    rewrite start_shell_ok by done. rewrite <- !app_assoc, wait_shell_ok by done. rewrite map_app, <- app_assoc. do 2 f_equal.
    destruct (fuel - length l)%nat eqn:Ef; [lia|]. cbn [wait_shell itrace app map]. rewrite Z.eqb_refl. f_equal. apply IH; [lia|done|done].
Qed.

(** C27: init keeps a shell running.  Whether or not the console exists, init
    starts with it as descriptors 0, 1 and 2, creating it when it is missing.
    Then, whatever processes it is given and whoever exits, it starts a shell
    with these descriptors, reaps orphans until that shell exits, and starts
    the next one; it ends, with a message, only when [fork] or [wait] fails. *)
Theorem init_keeps_shell (made : bool) (sessions : list session) (e : ending) (rounds fuel : nat) (rest : fdtable) :
  Forall session_ok sessions → ending_ok e →
  (length sessions < rounds)%nat → Forall (λ x : session, (length x.2 < fuel)%nat) sessions → (length (end_waits e) < fuel)%nat →
  let fds := None :: None :: None :: rest in
  itrace (init_main rounds fuel) 1 made (map fst sessions ++ end_forks e)
      (concat (map (λ x, x.2 ++ [x.1]) sessions) ++ end_waits e) fds =
    (if made then [] else [IEMknod console CONSOLE 0]) ++
    concat (map (session_events (ttys fds)) sessions) ++ end_events (ttys fds) e.
Proof.
  intros Hs He Hr Hf Hfe fds. unfold init_main, fds. destruct made; cbn; [|f_equal];
    apply (init_loop_ok sessions e rounds fuel _ (ttys fds)); done.
Qed.

(** zombie's child exits while its parent sleeps. *)
Lemma zombie_child_first pid made waits fds : 0 < pid →
  itrace zombie_main 1 made [pid] waits fds = [IEFork [IEExit 0]; IESleep 5; IEExit 0].
Proof. intros. unfold zombie_main. cbn. zbool. cbn. by replace (pid >? 0) with true by lia. Qed.
End itrace.

Lemma init_keeps_shell_witness :
  itrace (λ pid, negb (pid =? 7)) (init_main 9 9) 1 false [3; 7] [5; 6; 3; 8] (replicate 16 None) =
    [IEMknod console CONSOLE 0] ++
    [IEWrite tty starting; IEFork [IEExec (lit "sh") argv (ttys (replicate 16 None))]; IEWait 5; IEWait 6; IEWait 3] ++
    [IEWrite tty starting; IEFork [IEWrite tty sh_failed; IEExit 1]; IEWait 8].
Proof.
  apply (init_keeps_shell (λ pid, negb (pid =? 7)) false [(3, [5; 6])] (Waiting 7 [8]) 9 9 (replicate 13 None)).
  - repeat constructor; simpl; lia.
  - repeat constructor; simpl; lia.
  - simpl. lia.
  - repeat constructor; simpl; lia.
  - simpl. lia.
Defined.
