(* ===== verification/Ring.v ===== *)
(** * Ring buffers

    A ring of [n] places with indices that run modulo 2^w; [n] divides 2^w,
    so that the place of an index survives its wrap-around. *)
From S2P Require Import Prelude.

Section ring.
Variable n : Z.

(** The [k] elements from index [i] on. *)
Definition ring (buf : list Z) (i k : Z) : list Z := (λ j, buf !!! Z.to_nat ((i + j) `mod` n)) <$> seqZ 0 k.

Lemma length_ring buf i k : length (ring buf i k) = Z.to_nat k.
Proof. unfold ring. by rewrite length_fmap, length_seqZ. Qed.
Lemma ring_nil buf i : ring buf i 0 = [].
Proof. done. Qed.
Lemma ring_app buf i a b : 0 ≤ a → 0 ≤ b → ring buf i (a + b) = ring buf i a ++ ring buf (i + a) b.
Proof.
  intros Ha Hb. unfold ring. rewrite seqZ_app, fmap_app by done. f_equal.
  replace (0 + a) with (a + 0) by lia. rewrite <- (fmap_add_seqZ a 0), <- list_fmap_compose. apply list_fmap_ext. intros j x _. simpl.
  do 3 f_equal. lia.
Qed.
Lemma ring_one buf i : ring buf i 1 = [buf !!! Z.to_nat (i `mod` n)].
Proof. unfold ring. simpl. by rewrite Z.add_0_r. Qed.
Lemma ring_cons buf i k : 0 < k → ring buf i k = buf !!! Z.to_nat (i `mod` n) :: ring buf (i + 1) (k - 1).
Proof. intros Hk. replace k with (1 + (k - 1)) at 1 by lia. rewrite ring_app, ring_one by lia. done. Qed.
Lemma ring_snoc buf i k : 0 < k → ring buf i k = ring buf i (k - 1) ++ [buf !!! Z.to_nat ((i + (k - 1)) `mod` n)].
Proof. intros Hk. replace k with (k - 1 + 1) at 1 by lia. by rewrite ring_app, ring_one by lia. Qed.

End ring.

Section places.
Variables w n : Z.
Hypotheses (w_pos : 0 ≤ w) (n_pos : 0 < n) (n_div : (n | 2 ^ w)).

Lemma wrap_mod i : wrap w i `mod` n = i `mod` n.
Proof.
  destruct n_div as [d Hd]. unfold wrap. assert (2 ^ w ≠ 0) by (apply Z.pow_nonzero; lia).
  rewrite (Z.mod_eq i (2 ^ w)) by done. rewrite Hd at 1. replace (i - d * n * (i / 2 ^ w)) with (i + (- d * (i / 2 ^ w)) * n) by lia.
  apply Z.mod_add. lia.
Qed.
Lemma ring_wrap buf i k : ring n buf (wrap w i) k = ring n buf i k.
Proof.
  unfold ring. apply list_fmap_ext. intros j x _. do 2 f_equal.
  rewrite <- Z.add_mod_idemp_l, wrap_mod, Z.add_mod_idemp_l by lia. done.
Qed.

End places.

Section writes.
Variable n : Z.
Hypothesis n_pos : 0 < n.

Lemma place_lt i : (Z.to_nat (i `mod` n) < Z.to_nat n)%nat.
Proof. pose proof (Z.mod_pos_bound i n n_pos). lia. Qed.

(** A write outside the elements, and one behind them. *)
Lemma ring_put_other buf i k j v : 0 ≤ k ≤ j → j < n → ring n (<[Z.to_nat ((i + j) `mod` n) := v]> buf) i k = ring n buf i k.
Proof.
  intros Hk Hj. unfold ring. apply list_fmap_ext. intros a x Hx. apply lookup_seqZ in Hx as [-> Ha].
  rewrite list_lookup_total_insert_ne; [done|]. intros E.
  pose proof (Z.mod_pos_bound (i + j) n n_pos). pose proof (Z.mod_pos_bound (i + (0 + a)) n n_pos).
  assert (E' : (i + j) `mod` n = (i + (0 + a)) `mod` n) by lia.
  assert ((j - a) `mod` n = 0) as Hd.
  { replace (j - a) with ((i + j) - (i + (0 + a))) by lia. rewrite Zminus_mod, E', Z.sub_diag. done. }
  rewrite Z.mod_small in Hd; lia.
Qed.
Lemma ring_put_next buf i k v : 0 ≤ k < n → length buf = Z.to_nat n →
  ring n (<[Z.to_nat ((i + k) `mod` n) := v]> buf) i (k + 1) = ring n buf i k ++ [v].
Proof.
  intros Hk Hl. rewrite ring_app, ring_one by lia. rewrite ring_put_other by lia. f_equal.
  rewrite list_lookup_total_insert_eq; [done|]. rewrite Hl. apply place_lt.
Qed.

End writes.

(** ** Counts *)

Section counts.
Variable w : Z.
Hypothesis w_pos : 0 ≤ w.

Lemma wrap_wrap_sub a b : wrap w (wrap w a - b) = wrap w (a - b) ∧ wrap w (a - wrap w b) = wrap w (a - b).
Proof. unfold wrap. by rewrite Zminus_mod_idemp_l, Zminus_mod_idemp_r. Qed.
Lemma wrap_from a b k : wrap w (a + (wrap w (b - a) + k)) = wrap w (b + k).
Proof.
  unfold wrap. replace (a + ((b - a) `mod` 2 ^ w + k)) with ((b - a) `mod` 2 ^ w + (a + k)) by lia.
  rewrite Zplus_mod_idemp_l. f_equal. lia.
Qed.
Lemma wrap_succ a k : 0 ≤ wrap w a + k < 2 ^ w → wrap w (a + k) = wrap w a + k.
Proof.
  assert (2 ^ w ≠ 0) by (apply Z.pow_nonzero; lia). unfold wrap. intros Hk. rewrite <- Z.add_mod_idemp_l by done. by apply Z.mod_small.
Qed.
Lemma wrap_sum a b : wrap w a + wrap w b < 2 ^ w → wrap w (a + b) = wrap w a + wrap w b.
Proof.
  intros Hs. assert (0 < 2 ^ w) as Hp by (by apply Z.pow_pos_nonneg). unfold wrap in *. rewrite Z.add_mod by lia. apply Z.mod_small.
  pose proof (Z.mod_pos_bound a (2 ^ w) Hp). pose proof (Z.mod_pos_bound b (2 ^ w) Hp). lia.
Qed.
Lemma wrap_zero a b : 0 ≤ a < 2 ^ w → 0 ≤ b < 2 ^ w → wrap w (b - a) = 0 ↔ a = b.
Proof.
  intros Ha Hb. assert (0 < 2 ^ w) as Hp by (by apply Z.pow_pos_nonneg). unfold wrap. split; [|intros ->; by rewrite Z.sub_diag].
  intros E. apply Z.mod_divide in E as [d Hd]; [|lia]. generalize dependent (2 ^ w). intros P Ha Hb Hp Hd.
  destruct (Z.lt_trichotomy d 0) as [?|[->|?]]; nia.
Qed.
End counts.

(** ** Queues

    What a ring holds from index [i] up to the index [j]. *)
Definition queue (w n : Z) (buf : list Z) (i j : Z) : list Z := ring n buf i (wrap w (j - i)).

Section queue.
Variables w n : Z.
Hypotheses (w_pos : 0 ≤ w) (n_pos : 0 < n) (n_div : (n | 2 ^ w)).
Abbreviation queue := (queue w n).

Lemma length_wqueue buf i j : Z.of_nat (length (queue buf i j)) = wrap w (j - i).
Proof.
  unfold queue. rewrite length_ring. assert (0 < 2 ^ w) as Hp by (by apply Z.pow_pos_nonneg).
  pose proof (Z.mod_pos_bound (j - i) (2 ^ w) Hp). unfold wrap. lia.
Qed.
Lemma queue_empty buf i : queue buf i i = [].
Proof. unfold queue. by rewrite Z.sub_diag. Qed.
Lemma queue_place i j : j `mod` n = (i + wrap w (j - i)) `mod` n.
Proof.
  pose proof (wrap_from w i j 0) as E. rewrite !Z.add_0_r in E. rewrite <- (wrap_mod w n w_pos n_pos n_div (i + _)), E.
  by rewrite (wrap_mod w n w_pos n_pos n_div).
Qed.
Lemma queue_put buf i j v : Z.of_nat (length (queue buf i j)) < n → queue (<[Z.to_nat (j `mod` n) := v]> buf) i j = queue buf i j.
Proof.
  intros Hl. rewrite (queue_place i j), length_wqueue in *. unfold queue. apply ring_put_other; [done| |done].
  split; [|lia]. apply Z.mod_pos_bound, Z.pow_pos_nonneg; lia.
Qed.
Lemma queue_push buf i j v : n < 2 ^ w → length buf = Z.to_nat n → Z.of_nat (length (queue buf i j)) < n →
  queue (<[Z.to_nat (j `mod` n) := v]> buf) i (wrap w (j + 1)) = queue buf i j ++ [v].
Proof.
  intros Hn Hb Hl. rewrite (queue_place i j), length_wqueue in *. unfold queue. rewrite (proj1 (wrap_wrap_sub w _ _)).
  assert (0 < 2 ^ w) as Hp by (by apply Z.pow_pos_nonneg). pose proof (Z.mod_pos_bound (j - i) (2 ^ w) Hp) as Hw. fold (wrap w (j - i)) in Hw.
  replace (j + 1 - i) with (j - i + 1) by lia. rewrite (wrap_succ w) by lia. apply ring_put_next; lia.
Qed.
Lemma queue_advance buf i j v : n < 2 ^ w → length buf = Z.to_nat n → Z.of_nat (length (queue buf i j)) < n →
  buf !! Z.to_nat (j `mod` n) = Some v → queue buf i (wrap w (j + 1)) = queue buf i j ++ [v].
Proof. intros Hn Hb Hl E. rewrite <- (queue_push buf i j v) by done. by rewrite list_insert_id. Qed.
Lemma queue_pop buf i j : 0 ≤ i < 2 ^ w → 0 ≤ j < 2 ^ w → i ≠ j →
  queue buf i j = buf !!! Z.to_nat (i `mod` n) :: queue buf (wrap w (i + 1)) j.
Proof.
  intros Hi Hj Hn. assert (0 < 2 ^ w) as Hp by (by apply Z.pow_pos_nonneg). pose proof (Z.mod_pos_bound (j - i) (2 ^ w) Hp) as Hw.
  fold (wrap w (j - i)) in Hw. pose proof (wrap_zero w w_pos i j Hi Hj). unfold queue. rewrite ring_cons by lia. f_equal.
  rewrite (ring_wrap w n w_pos n_pos n_div), (proj2 (wrap_wrap_sub w _ _)). replace (j - (i + 1)) with (j - i + -1) by lia.
  by rewrite (wrap_succ w) by lia.
Qed.

End queue.
