(* ===== verification/Console.v ===== *)
(** * kernel/uart.c, kernel/console.c, kernel/printf.c

    The UART is a device: a read of LSR says whether a byte has arrived and
    whether the transmitter is idle, a read of RHR takes the byte, a write to
    THR sends one.  [d_idle] are the answers about the transmitter that future
    reads of LSR will give; a loop that waits for an idle transmitter when no
    such answer comes does not end ([NoFuel]).  The locks are locks of the
    hart ([Proc]); the functions that sleep have a [_resume]. *)
From S2P Require Import Prelude Kstring Kalloc Vm UserVm Fs Proc User File.

(** ** The UART (uart.c) *)

Definition RHR : Z := 0.
Definition THR : Z := 0.
Definition IER : Z := 1.
Definition IER_RX_ENABLE : Z := Z.shiftl 1 0.
Definition IER_TX_ENABLE : Z := Z.shiftl 1 1.
Definition FCR : Z := 2.
Definition FCR_FIFO_ENABLE : Z := Z.shiftl 1 0.
Definition FCR_FIFO_CLEAR : Z := Z.shiftl 3 1.
Definition LCR : Z := 3.
Definition LCR_EIGHT_BITS : Z := Z.shiftl 3 0.
Definition LCR_BAUD_LATCH : Z := Z.shiftl 1 7.
Definition LSR : Z := 5.
Definition LSR_TX_IDLE : Z := Z.shiftl 1 5.

Record device := Device {
  d_in : list Z;            (* bytes that have arrived *)
  d_idle : list bool;       (* is the transmitter idle, at the next reads of LSR? *)
  d_out : list Z;           (* the bytes sent *)
  d_ier : Z; d_fcr : Z; d_lcr : Z;
  d_divisor : Z             (* of the baud rate *)
}.
Definition put_in l d := Device l (d_idle d) (d_out d) (d_ier d) (d_fcr d) (d_lcr d) (d_divisor d).
Definition put_idle l d := Device (d_in d) l (d_out d) (d_ier d) (d_fcr d) (d_lcr d) (d_divisor d).
Definition put_out l d := Device (d_in d) (d_idle d) l (d_ier d) (d_fcr d) (d_lcr d) (d_divisor d).
Definition put_ier v d := Device (d_in d) (d_idle d) (d_out d) v (d_fcr d) (d_lcr d) (d_divisor d).
Definition put_fcr v d := Device (d_in d) (d_idle d) (d_out d) (d_ier d) v (d_lcr d) (d_divisor d).
Definition put_lcr v d := Device (d_in d) (d_idle d) (d_out d) (d_ier d) (d_fcr d) v (d_divisor d).
Definition put_divisor v d := Device (d_in d) (d_idle d) (d_out d) (d_ier d) (d_fcr d) (d_lcr d) v.

(** The device's side of a read and a write.  With the baud latch set,
    registers 0 and 1 are the bytes of the divisor. *)
Definition dev_read (reg : Z) (d : device) : Z * device :=
  if reg =? LSR then
    (Z.lor (if bool_decide (d_in d = []) then 0 else 1) (if hd false (d_idle d) then LSR_TX_IDLE else 0), put_idle (tail (d_idle d)) d)
  else if reg =? RHR then (hd 0 (d_in d), put_in (tail (d_in d)) d)
  else (0, d).
Definition dev_write (reg v : Z) (d : device) : device :=
  let v := u8 v in
  if reg =? LCR then put_lcr v d
  else if reg =? FCR then put_fcr v d
  else if has_bits (d_lcr d) LCR_BAUD_LATCH then
    if reg =? 0 then put_divisor (d_divisor d / 256 * 256 + v) d
    else if reg =? 1 then put_divisor (d_divisor d `mod` 256 + 256 * v) d else d
  else if reg =? THR then put_out (d_out d ++ [v]) d
  else if reg =? IER then put_ier v d
  else d.

Definition UART_TX_BUF_SIZE : Z := 32.
Record uart := Uart { tx_buf : list Z; tx_w : Z; tx_r : Z }.
Definition tx_put c u := Uart (<[Z.to_nat (tx_w u `mod` UART_TX_BUF_SIZE) := u8 c]> (tx_buf u)) (u64 (tx_w u + 1)) (tx_r u).
Definition tx_get u : Z := tx_buf u !!! Z.to_nat (tx_r u `mod` UART_TX_BUF_SIZE).
Definition tx_next u := Uart (tx_buf u) (tx_w u) (u64 (tx_r u + 1)).

(** ** The console's input (console.c) *)

Definition BACKSPACE : Z := 0x100.
Definition C (x : Z) : Z := x - 64.
Definition INPUT_BUF_SIZE : Z := 128.
Record cons := Cons { c_buf : list Z; c_r : Z; c_w : Z; c_e : Z }.
Definition set_cr v c := Cons (c_buf c) v (c_w c) (c_e c).
Definition set_cw v c := Cons (c_buf c) (c_r c) v (c_e c).
Definition set_ce v c := Cons (c_buf c) (c_r c) (c_w c) v.
(** [cons.buf[i % INPUT_BUF_SIZE]] *)
Definition buf_at (i : Z) c : Z := c_buf c !!! Z.to_nat (i `mod` INPUT_BUF_SIZE).
Definition buf_put (i v : Z) c := Cons (<[Z.to_nat (i `mod` INPUT_BUF_SIZE) := u8 v]> (c_buf c)) (c_r c) (c_w c) (c_e c).

(** ** The state *)

Record cstate := CState {
  cs_cons : cons; cs_uart : uart; cs_dev : device;
  cs_panicked : bool; cs_locking : bool;      (* panicked and pr.locking (printf.c) *)
  cs_procs : pstate
}.
Definition set_cons x s := CState x (cs_uart s) (cs_dev s) (cs_panicked s) (cs_locking s) (cs_procs s).
Definition set_uart x s := CState (cs_cons s) x (cs_dev s) (cs_panicked s) (cs_locking s) (cs_procs s).
Definition set_dev x s := CState (cs_cons s) (cs_uart s) x (cs_panicked s) (cs_locking s) (cs_procs s).
Definition set_panicked x s := CState (cs_cons s) (cs_uart s) (cs_dev s) x (cs_locking s) (cs_procs s).
Definition set_locking x s := CState (cs_cons s) (cs_uart s) (cs_dev s) (cs_panicked s) x (cs_procs s).
Definition set_cprocs x s := CState (cs_cons s) (cs_uart s) (cs_dev s) (cs_panicked s) (cs_locking s) x.

Definition pr {A} (m : M pstate A) : M cstate A := zoom cs_procs set_cprocs m.
Definition upd_cons (f : cons → cons) : M cstate unit := modify (λ s, set_cons (f (cs_cons s)) s).
Definition upd_uart (f : uart → uart) : M cstate unit := modify (λ s, set_uart (f (cs_uart s)) s).
Definition ReadReg (reg : Z) : M cstate Z := λ s,
  let '(v, d) := dev_read reg (cs_dev s) in Ok v (set_dev d s).
Definition WriteReg (reg v : Z) : M cstate unit := modify (λ s, set_dev (dev_write reg v (cs_dev s)) s).

Section console.
(** The addresses of the locks and of the channels, and of the kernel's
    one-byte buffer for copies. *)
Variables (cons_lock uart_tx_lock pr_lock cons_r_chan tx_r_chan obj proc_base : Z).
#[local] Instance copy : UserCopy pstate := Proc_copy obj.

(** ** uart.c *)

(** [initlock] leaves a lock free. *)
Definition initlock (a : Z) : M cstate unit :=
  pr (modify (λ ps, set_held (list_difference (ps_held ps) [OTHER_LOCK a]) ps)).

Definition uartinit : M cstate unit :=
  WriteReg IER 0x00 ;;
  WriteReg LCR LCR_BAUD_LATCH ;;
  WriteReg 0 0x03 ;;
  WriteReg 1 0x00 ;;
  WriteReg LCR LCR_EIGHT_BITS ;;
  WriteReg FCR (Z.lor FCR_FIFO_ENABLE FCR_FIFO_CLEAR) ;;
  WriteReg IER (Z.lor IER_TX_ENABLE IER_RX_ENABLE) ;;
  initlock uart_tx_lock.

(** The loop runs once for each answer of the device at most. *)
Fixpoint uartstart_loop (fuel : nat) : M cstate unit :=
  match fuel with
  | O => nofuel
  | S fuel =>
      u ← gets cs_uart;
      if tx_w u =? tx_r u then mret tt
      else
        lsr ← ReadReg LSR;
        if negb (has_bits lsr LSR_TX_IDLE) then mret tt
        else
          let c := tx_get u in
          upd_uart tx_next ;;
          pr (wakeup tx_r_chan) ;;
          WriteReg THR c ;;
          uartstart_loop fuel
  end.
Definition uartstart : M cstate unit := n ← gets (λ s, length (d_idle (cs_dev s))); uartstart_loop (S n).

(** From the test of the loop on. *)
Definition uartputc_turn (c : Z) : M cstate unit :=
  u ← gets cs_uart;
  if tx_w u =? u64 (tx_r u + UART_TX_BUF_SIZE) then pr (sleep tx_r_chan (OTHER_LOCK uart_tx_lock))
  else
    upd_uart (tx_put c) ;;
    uartstart ;;
    pr (release (OTHER_LOCK uart_tx_lock)).
Definition uartputc (c : Z) : M cstate unit :=
  pr (acquire (OTHER_LOCK uart_tx_lock)) ;;
  panicked ← gets cs_panicked;
  if (panicked : bool) then nofuel else uartputc_turn c.
Definition uartputc_resume (p c : Z) : M cstate unit :=
  pr (sleep_resume p (OTHER_LOCK uart_tx_lock)) ;; uartputc_turn c.

(** Waiting for the transmitter. *)
Fixpoint wait_idle (fuel : nat) : M cstate unit :=
  match fuel with
  | O => nofuel
  | S fuel => lsr ← ReadReg LSR; if has_bits lsr LSR_TX_IDLE then mret tt else wait_idle fuel
  end.
Definition uartputc_sync (c : Z) : M cstate unit :=
  pr push_off ;;
  panicked ← gets cs_panicked;
  if (panicked : bool) then nofuel
  else
    n ← gets (λ s, length (d_idle (cs_dev s)));
    wait_idle n ;;
    WriteReg THR c ;;
    pr pop_off.

Definition uartgetc : M cstate Z :=
  lsr ← ReadReg LSR;
  if has_bits lsr 1 then ReadReg RHR else mret (-1).

(** ** Output of the kernel: consputc, printf (console.c, printf.c) *)

Definition consputc (c : Z) : M cstate unit :=
  if c =? BACKSPACE then uartputc_sync 8 ;; uartputc_sync 32 ;; uartputc_sync 8
  else uartputc_sync c.
Fixpoint consputs (l : list Z) : M cstate unit :=
  match l with [] => mret tt | c :: l => consputc c ;; consputs l end.

(** [0123456789abcdef] *)
Definition digits : list Z := [48; 49; 50; 51; 52; 53; 54; 55; 56; 57; 97; 98; 99; 100; 101; 102].
(** The loop that fills [buf], from the last digit to the first. *)
Fixpoint fill_digits (x base : Z) (fuel : nat) : option (list Z) :=
  match fuel with
  | O => None
  | S fuel =>
      let c := digits !!! Z.to_nat (x `mod` base) in
      if x / base =? 0 then Some [c] else l ← fill_digits (x / base) base fuel; Some (c :: l)
  end.
Definition printint (xx base : Z) (sgn : bool) : M cstate unit :=
  let neg := sgn && (xx <? 0) in
  let x := if neg then u32 (- xx) else u32 xx in
  match fill_digits x base 32 with
  | Some buf => consputs (rev (buf ++ if neg then [45] else []))
  | None => nofuel
  end.
Fixpoint printptr_loop (x : Z) (k : nat) : M cstate unit :=
  match k with
  | O => mret tt
  | S k => consputc (digits !!! Z.to_nat (Z.shiftr x 60)) ;; printptr_loop (u64 (Z.shiftl x 4)) k
  end.
Definition printptr (x : Z) : M cstate unit := consputc 48 ;; consputc 120 ;; printptr_loop x 16.

(** The arguments after the format: integers and strings, [None] the null
    pointer.  One that is missing or of the wrong kind is undefined. *)
Inductive arg := AInt (z : Z) | AStr (s : option (list Z)).
Definition next_int (ap : list arg) : option (Z * list arg) := match ap with AInt z :: ap => Some (z, ap) | _ => None end.
Definition next_str (ap : list arg) : option (option (list Z) * list arg) := match ap with AStr s :: ap => Some (s, ap) | _ => None end.

Definition directive (c : Z) (ap : list arg) : M cstate (list arg) :=
  if c =? 100 (* d *) then
    match next_int ap with Some (z, ap) => printint (s32 z) 10 true ;; mret ap | None => nofuel end
  else if c =? 120 (* x *) then
    match next_int ap with Some (z, ap) => printint (s32 z) 16 true ;; mret ap | None => nofuel end
  else if c =? 112 (* p *) then
    match next_int ap with Some (z, ap) => printptr (u64 z) ;; mret ap | None => nofuel end
  else if c =? 115 (* s *) then
    match next_str ap with Some (s, ap) => consputs (default (lit "(null)") s) ;; mret ap | None => nofuel end
  else if c =? 37 then consputc 37 ;; mret ap
  else consputc 37 ;; consputc c ;; mret ap.

Fixpoint printf_loop (fmt : list Z) (ap : list arg) : M cstate unit :=
  match fmt with
  | [] => mret tt
  | c :: fmt =>
      if negb (c =? 37) then consputc c ;; printf_loop fmt ap
      else match fmt with
           | [] => mret tt
           | c :: fmt => ap ← directive c ap; printf_loop fmt ap
           end
  end.
Definition printf (fmt : option (list Z)) (ap : list arg) : M cstate unit :=
  locking ← gets cs_locking;
  (if (locking : bool) then pr (acquire (OTHER_LOCK pr_lock)) else mret tt) ;;
  match fmt with
  | None => Prelude.panic "null fmt"
  | Some fmt =>
      printf_loop fmt ap ;;
      if (locking : bool) then pr (release (OTHER_LOCK pr_lock)) else mret tt
  end.

(** What [panic] does before its endless loop. *)
Definition panic (s : list Z) : M cstate unit :=
  modify (set_locking false) ;;
  printf (Some (lit "panic: ")) [] ;;
  printf (Some s) [] ;;
  printf (Some [10]) [] ;;
  modify (set_panicked true).

Definition printfinit : M cstate unit := initlock pr_lock ;; modify (set_locking true).

(** ** procdump (proc.c) *)

Definition states (x : procstate) : list Z :=
  match x with
  | UNUSED => lit "unused" | USED => lit "used" | SLEEPING => lit "sleep "
  | RUNNABLE => lit "runble" | RUNNING => lit "run   " | ZOMBIE => lit "zombie"
  end.
(** The string in memory, of less than [k] characters. *)
Fixpoint cstring (m : mem) (a : Z) (k : nat) : option (list Z) :=
  match k with
  | O => None
  | S k => if m a =? 0 then Some [] else l ← cstring m (a + 1) k; Some (m a :: l)
  end.
(** [p->name] has 16 characters. *)
Fixpoint procdump_loop (l : list Z) : M cstate unit :=
  match l with
  | [] => mret tt
  | p :: l =>
      x ← pr (gets (λ s, ps_proc s p));
      (if bool_decide (p_state x = UNUSED) then mret tt
       else
         m ← pr (gets (λ s, k_mem (ps_k s)));
         match cstring m (name_addr proc_base p) 16 with
         | Some name =>
             printf (Some (lit "%d %s %s")) [AInt (p_pid x); AStr (Some (states (p_state x))); AStr (Some name)] ;;
             printf (Some [10]) []
         | None => nofuel
         end) ;;
      procdump_loop l
  end.
Definition procdump : M cstate unit := printf (Some [10]) [] ;; procdump_loop procs.

(** ** Input (console.c) *)

(** Kill line: every round of the loop of [C('U')] but the last takes one
    character off. *)
Fixpoint kill_line (fuel : nat) : M cstate unit :=
  match fuel with
  | O => nofuel
  | S fuel =>
      x ← gets cs_cons;
      if negb (c_e x =? c_w x) && negb (buf_at (u32 (c_e x - 1)) x =? 10) then
        upd_cons (set_ce (u32 (c_e x - 1))) ;;
        consputc BACKSPACE ;;
        kill_line fuel
      else mret tt
  end.
Definition kill_fuel (x : cons) : nat := S (Z.to_nat (u32 (c_e x - c_w x))).

Definition consoleintr (c : Z) : M cstate unit :=
  pr (acquire (OTHER_LOCK cons_lock)) ;;
  (if c =? C 80 (* P *) then procdump
   else if c =? C 85 (* U *) then x ← gets cs_cons; kill_line (kill_fuel x)
   else if (c =? C 72 (* H *)) || (c =? 127) then
     x ← gets cs_cons;
     if negb (c_e x =? c_w x) then upd_cons (set_ce (u32 (c_e x - 1))) ;; consputc BACKSPACE else mret tt
   else
     x ← gets cs_cons;
     if negb (c =? 0) && (u32 (c_e x - c_r x) <? INPUT_BUF_SIZE) then
       let c := if c =? 13 then 10 else c in
       consputc c ;;
       upd_cons (λ x, set_ce (u32 (c_e x + 1)) (buf_put (c_e x) c x)) ;;
       x ← gets cs_cons;
       if (c =? 10) || (c =? C 68 (* D *)) || (u32 (c_e x - c_r x) =? INPUT_BUF_SIZE) then
         upd_cons (λ x, set_cw (c_e x) x) ;;
         pr (wakeup cons_r_chan)
       else mret tt
     else mret tt) ;;
  pr (release (OTHER_LOCK cons_lock)).

(** The loop of [uartintr]; every round takes a byte from the device. *)
Fixpoint uartintr_loop (fuel : nat) : M cstate unit :=
  match fuel with
  | O => nofuel
  | S fuel =>
      c ← uartgetc;
      if c =? -1 then mret tt else consoleintr c ;; uartintr_loop fuel
  end.
Definition uartintr : M cstate unit :=
  n ← gets (λ s, length (d_in (cs_dev s)));
  uartintr_loop (S n) ;;
  pr (acquire (OTHER_LOCK uart_tx_lock)) ;;
  uartstart ;;
  pr (release (OTHER_LOCK uart_tx_lock)).

(** ** read and write on the console *)

(** Copies of one byte: [either_copyout(1, ...)] and [either_copyin(..., 1,
    ...)], or to and from the memory of the kernel. *)
Definition either_copyout (user_dst : bool) (dst c : Z) : M cstate Z :=
  if user_dst then pr (Fs.copyout dst [c])
  else pr (kern (modify (λ k, set_mem (store8 (k_mem k) dst c) k))) ;; mret 0.
Definition either_copyin (user_src : bool) (src : Z) : M cstate (Z * Z) :=
  if user_src then '(l, r) ← pr (Fs.copyin src [0]); mret (l !!! 0%nat, r)
  else c ← pr (kern (gets (λ k, k_mem k src))); mret (c, 0).

(** From [i] on; [k] is how many bytes are left. *)
Fixpoint consolewrite_loop (user_src : bool) (src i : Z) (k : nat) : M cstate Z :=
  match k with
  | O => mret i
  | S k =>
      '(c, r) ← either_copyin user_src (u64 (src + i));
      if r =? -1 then mret i
      else uartputc c ;; consolewrite_loop user_src src (i + 1) k
  end.
Definition consolewrite (user_src : bool) (src n : Z) : M cstate Z := consolewrite_loop user_src src 0 (Z.to_nat n).
(** [uartputc(c)] of the byte [i] slept. *)
Definition consolewrite_resume (p : Z) (user_src : bool) (src n i c : Z) : M cstate Z :=
  uartputc_resume p c ;; consolewrite_loop user_src src (i + 1) (Z.to_nat (n - (i + 1))).

(** From the test of the outer loop on: [k] is [n].  The result is what is
    left of [n], or [None] for a killed process, which has given the lock
    back. *)
Fixpoint consoleread_loop (target : Z) (user_dst : bool) (dst : Z) (k : nat) : M cstate (option Z) :=
  match k with
  | O => mret (Some 0)
  | S k' =>
      x ← gets cs_cons;
      if c_r x =? c_w x then
        p ← pr curproc;
        killed ← pr (killed p);
        if negb (killed =? 0) then pr (release (OTHER_LOCK cons_lock)) ;; mret None
        else pr (sleep cons_r_chan (OTHER_LOCK cons_lock))
      else
        let c := buf_at (c_r x) x in
        upd_cons (set_cr (u32 (c_r x + 1))) ;;
        if c =? C 68 then
          (if Z.of_nat k <? target then upd_cons (λ x, set_cr (u32 (c_r x - 1)) x) else mret tt) ;;
          mret (Some (Z.of_nat k))
        else
          r ← either_copyout user_dst dst c;
          if r =? -1 then mret (Some (Z.of_nat k))
          else if c =? 10 then mret (Some (Z.of_nat k'))
          else consoleread_loop target user_dst (u64 (dst + 1)) k'
  end.
Definition consoleread_from (target : Z) (user_dst : bool) (dst n : Z) : M cstate Z :=
  r ← (if 0 <? n then consoleread_loop target user_dst dst (Z.to_nat n) else mret (Some n));
  match r with
  | Some n' => pr (release (OTHER_LOCK cons_lock)) ;; mret (s32 (target - n'))
  | None => mret (-1)
  end.
Definition consoleread (user_dst : bool) (dst n : Z) : M cstate Z :=
  pr (acquire (OTHER_LOCK cons_lock)) ;; consoleread_from (u32 n) user_dst dst n.
Definition consoleread_resume (p target : Z) (user_dst : bool) (dst n : Z) : M cstate Z :=
  pr (sleep_resume p (OTHER_LOCK cons_lock)) ;; consoleread_from target user_dst dst n.

(** [devsw] gets its entries in [File]; here the lock and the device. *)
Definition consoleinit : M cstate unit := initlock cons_lock ;; uartinit.
End console.
