(* ===== verification/ConsoleProps.v ===== *)
(** * What the console and the UART do

    Output: what is sent and what is queued form one stream, to which
    [consolewrite] appends.  Input: [consoleintr] edits a line, [consoleread]
    takes bytes of finished lines. *)
From S2P Require Import Prelude Kstring Kalloc Vm VmProps UvmProps CopyProps Block BufCache Log Fs FsIO UserVm Proc ProcProps File PipeProps Ring User Console.

(** ** The device *)

(** How often the transmitter will be found idle. *)
Definition ready (d : device) : nat := length (List.filter id (d_idle d)).

Lemma dev_read_LSR d : dev_read LSR d =
  (Z.lor (if bool_decide (d_in d = []) then 0 else 1) (if hd false (d_idle d) then LSR_TX_IDLE else 0), put_idle (tail (d_idle d)) d).
Proof. done. Qed.
Lemma lsr_idle d : has_bits (dev_read LSR d).1 LSR_TX_IDLE = hd false (d_idle d).
Proof. rewrite dev_read_LSR. simpl. by destruct (bool_decide _), (hd false (d_idle d)). Qed.
Lemma lsr_in d : has_bits (dev_read LSR d).1 1 = bool_decide (d_in d ≠ []).
Proof. rewrite dev_read_LSR. simpl. destruct (d_in d); simpl; by destruct (hd false (d_idle d)). Qed.
Lemma write_THR c d : has_bits (d_lcr d) LCR_BAUD_LATCH = false → dev_write THR c d = put_out (d_out d ++ [u8 c]) d.
Proof. unfold dev_write. by intros ->. Qed.

(** The UART can send, and the hart's lock bookkeeping is consistent. *)
Record can_send (t : cstate) : Prop := {
  cn_lcr : has_bits (d_lcr (cs_dev t)) LCR_BAUD_LATCH = false;
  cn_panicked : cs_panicked t = false;
  cn_cpu : cpu_ok (cs_procs t)
}.

(** The bytes [l] went out, and nothing but the console's input changed. *)
Record echoed (l : list Z) (t t' : cstate) : Prop := {
  eh_uart : cs_uart t' = cs_uart t;
  eh_in : d_in (cs_dev t') = d_in (cs_dev t);
  eh_out : d_out (cs_dev t') = d_out (cs_dev t) ++ l;
  eh_ready : ready (cs_dev t) = (length l + ready (cs_dev t'))%nat;
  eh_procs : locks (cs_procs t) (ps_held (cs_procs t)) (cs_procs t');
  eh_can : can_send t'
}.
Lemma echoed_trans l l' t t' t'' : echoed l t t' → echoed l' t' t'' → echoed (l ++ l') t t''.
Proof.
  intros [? ? Ho ? Hp _] [? ? Ho' ? Hp' ?]. split; try congruence; try done.
  - by rewrite Ho', Ho, app_assoc.
  - rewrite length_app. lia.
  - rewrite (fr_held _ _ _ (lo_frame _ _ _ Hp)) in Hp'. by eapply locks_trans.
Qed.
Lemma echoed_nil t : can_send t → echoed [] t t.
Proof. intros Hc. split; try done; [by rewrite app_nil_r|]. split; try done. apply frame_refl, Hc. Qed.

Lemma cpr_wp {A} (m : M pstate A) (Q : A → cstate → Prop) t :
  wp m (λ a s', Q a (set_cprocs s' t)) (cs_procs t) → wp (pr m) Q t.
Proof. unfold wp, pr, zoom. by destruct (m (cs_procs t)). Qed.
Lemma cpr_wps {A} (m : M pstate A) (Q : A → cstate → Prop) R t :
  wps m (λ a s', Q a (set_cprocs s' t)) (λ s', R (set_cprocs s' t)) (cs_procs t) → wps (pr m) Q R t.
Proof. unfold wps, pr, zoom. by destruct (m (cs_procs t)). Qed.
Lemma ReadReg_wp reg (Q : Z → cstate → Prop) t :
  Q (dev_read reg (cs_dev t)).1 (set_dev (dev_read reg (cs_dev t)).2 t) → wp (ReadReg reg) Q t.
Proof. unfold wp, ReadReg. by destruct (dev_read reg (cs_dev t)). Qed.

Lemma wait_idle_wp (Q : unit → cstate → Prop) t n : (0 < ready (cs_dev t))%nat → n = length (d_idle (cs_dev t)) →
  (∀ l, S (length (List.filter id l)) = ready (cs_dev t) → Q tt (set_dev (put_idle l (cs_dev t)) t)) → wp (wait_idle n) Q t.
Proof.
  intros Hr -> HQ. destruct t as [x u d b k ps]. simpl in *. unfold ready in *. remember (d_idle d) as idle eqn:E. revert d E HQ.
  induction idle as [|a idle IH]; intros d E HQ; simpl in Hr; [lia|]. cbn [wait_idle length]. wp_step. apply ReadReg_wp.
  cbn [cs_dev set_dev]. rewrite lsr_idle, <- E. simpl hd. destruct a; simpl in Hr.
  - wp_step. rewrite dev_read_LSR, <- E. simpl. by apply HQ.
  - rewrite dev_read_LSR, <- E. cbn [snd tail]. apply (IH Hr (put_idle idle d)); [done|]. intros l Hl. by apply (HQ l).
Qed.

Lemma uartputc_sync_spec c (Q : unit → cstate → Prop) t :
  can_send t → (0 < ready (cs_dev t))%nat → (∀ t', echoed [u8 c] t t' → cs_cons t' = cs_cons t → Q tt t') → wp (uartputc_sync c) Q t.
Proof.
  intros [Hl Hp Hc] Hr HQ. unfold uartputc_sync. wp_step. apply cpr_wp. pose proof Hc as (Hn&Hi&Hd).
  unfold push_off, intr_get, intr_off, upd_cpu. wp_steps. simpl. rewrite Hp. wp_step. apply wp_gets. wp_step.
  eapply wait_idle_wp; [exact Hr|done|]. intros l Hl'. wp_step. unfold WriteReg. apply wp_modify. apply cpr_wp. cbn [cs_procs set_dev set_cprocs].
  eapply (pop_off_spec _ _ (ps_held (cs_procs t)) (length (ps_held (cs_procs t)))); simpl; try done; try lia.
  - by destruct (c_noff _ =? 0).
  - destruct (c_noff _ =? 0); simpl; lia.
  - intros s' [[Hi' Hf' Hc' Hh' Hk'] ? ? ?]. simpl in *. apply HQ; [|done]. rewrite write_THR by done.
    assert (c_proc (ps_cpu s') = c_proc (ps_cpu (cs_procs t))) by (by destruct (c_noff _ =? 0)).
    split; try done; by (split; try done; split).
Qed.

Lemma consputs_spec l (Q : unit → cstate → Prop) t :
  can_send t → Forall (λ c, 0 ≤ c < 256) l → (length l ≤ ready (cs_dev t))%nat → (∀ t', echoed l t t' → cs_cons t' = cs_cons t → Q tt t') → wp (consputs l) Q t.
Proof.
  intros Hc Hl. revert t Hc Q. induction Hl as [|c l Hb _ IH]; intros t Hc Q Hr HQ; simpl.
  { wp_step. apply HQ; [by apply echoed_nil|done]. }
  wp_step. unfold consputc. rewrite (proj2 (Z.eqb_neq _ _)) by (unfold BACKSPACE; lia).
  apply uartputc_sync_spec; [done|simpl in Hr; lia|]. intros t1 E1 C1. rewrite (wrap_small 8) in E1 by done.
  apply IH; [apply E1|pose proof (eh_ready _ _ _ E1); simpl in *; lia|]. intros t2 E2 C2. apply HQ; [|congruence]. by apply (echoed_trans [c] l _ t1).
Qed.
(** What BACKSPACE echoes. *)
Definition rubout : list Z := [8; 32; 8].
Lemma consputc_backspace (Q : unit → cstate → Prop) t :
  can_send t → (3 ≤ ready (cs_dev t))%nat → (∀ t', echoed rubout t t' → cs_cons t' = cs_cons t → Q tt t') → wp (consputc BACKSPACE) Q t.
Proof.
  intros Hc Hr HQ. change (consputc BACKSPACE) with (uartputc_sync 8 ;; uartputc_sync 32 ;; uartputc_sync 8). wp_step.
  apply uartputc_sync_spec; [done|lia|]. intros t1 E1 C1. pose proof (eh_ready _ _ _ E1). simpl in *. wp_step.
  apply uartputc_sync_spec; [apply E1|lia|]. intros t2 E2 C2. pose proof (eh_ready _ _ _ E2). simpl in *.
  apply uartputc_sync_spec; [apply E2|lia|]. intros t3 E3 C3. apply HQ; [|congruence].
  apply (echoed_trans [8] [32; 8] _ t1); [done|]. by apply (echoed_trans [32] [8] _ t2).
Qed.

(** ** Editing a line *)

Lemma list_snoc_case {A} (l : list A) : l = [] ∨ ∃ l' x, l = l' ++ [x].
Proof. induction l as [|x l' _] using rev_ind; eauto. Qed.

Record cons_ok (x : cons) : Prop := {
  ck_len : length (c_buf x) = 128%nat;
  ck_bytes : Forall (λ c, 0 ≤ c < 256) (c_buf x);
  ck_r : 0 ≤ c_r x < 2 ^ 32;
  ck_w : 0 ≤ c_w x < 2 ^ 32;
  ck_e : 0 ≤ c_e x < 2 ^ 32;
  ck_fits : u32 (c_w x - c_r x) + u32 (c_e x - c_w x) ≤ 128
}.
(** The bytes of finished lines that are not read yet, and the line that is
    being typed. *)
Definition typed (x : cons) : list Z := ring 128 (c_buf x) (c_r x) (u32 (c_w x - c_r x)).
Definition line (x : cons) : list Z := ring 128 (c_buf x) (c_w x) (u32 (c_e x - c_w x)).

Lemma div128 : (128 | 2 ^ 32).
Proof. by exists 33554432. Qed.
Lemma u32_nonneg z : 0 ≤ u32 z < 2 ^ 32.
Proof. apply u32_range. Qed.

Lemma count_er x : cons_ok x → u32 (c_e x - c_r x) = u32 (c_w x - c_r x) + u32 (c_e x - c_w x).
Proof.
  intros Hx. pose proof (ck_fits x Hx). rewrite <- wrap_sum; [f_equal; lia|lia|change (2 ^ 32) with 4294967296; lia].
Qed.
Lemma length_typed x : Z.of_nat (length (typed x)) = u32 (c_w x - c_r x).
Proof. unfold typed. rewrite length_ring. pose proof (u32_nonneg (c_w x - c_r x)). lia. Qed.
Lemma length_line x : Z.of_nat (length (line x)) = u32 (c_e x - c_w x).
Proof. unfold line. rewrite length_ring. pose proof (u32_nonneg (c_e x - c_w x)). lia. Qed.
Lemma line_empty x : cons_ok x → (c_e x =? c_w x) = bool_decide (line x = []).
Proof.
  intros Hx. pose proof (length_line x) as Hl. apply eq_true_iff_eq. rewrite Z.eqb_eq, bool_decide_eq_true.
  pose proof (wrap_zero 32 ltac:(lia) (c_w x) (c_e x) (ck_w x Hx) (ck_e x Hx)) as Hz. rewrite <- length_zero_iff_nil. split; intros E.
  - symmetry in E. apply Hz in E. lia.
  - symmetry. apply Hz. lia.
Qed.
Lemma typed_empty x : cons_ok x → (c_r x =? c_w x) = bool_decide (typed x = []).
Proof.
  intros Hx. pose proof (length_typed x) as Hl. apply eq_true_iff_eq. rewrite Z.eqb_eq, bool_decide_eq_true.
  pose proof (wrap_zero 32 ltac:(lia) (c_r x) (c_w x) (ck_r x Hx) (ck_w x Hx)) as Hz. rewrite <- length_zero_iff_nil. split; intros E.
  - apply Hz in E. lia.
  - apply Hz. lia.
Qed.

(** [cons.e--] takes the last character off the line. *)
Lemma line_back x l c : cons_ok x → line x = l ++ [c] → let x' := set_ce (u32 (c_e x - 1)) x in
  cons_ok x' ∧ typed x' = typed x ∧ line x' = l ∧ buf_at (u32 (c_e x - 1)) x = c.
Proof.
  intros Hx Hl x'. pose proof (length_line x) as Hn. rewrite Hl, length_app in Hn. simpl in Hn. pose proof (u32_nonneg (c_e x - c_w x)).
  assert (Hc : u32 (c_e x' - c_w x') = u32 (c_e x - c_w x) - 1).
  { simpl. rewrite (proj1 (wrap_wrap_sub 32 _ _)). replace (c_e x - 1 - c_w x) with (c_e x - c_w x + -1) by lia.
    rewrite wrap_succ; lia. }
  pose proof (ck_fits x Hx). unfold line in Hl. rewrite ring_snoc in Hl by lia. apply app_inj_tail in Hl as [Hl Hb]. split_and!.
  - destruct Hx. split; try done; [apply u32_range|]. rewrite Hc. simpl. lia.
  - done.
  - unfold line. rewrite Hc. done.
  - unfold buf_at. rewrite <- Hb. do 2 f_equal. change INPUT_BUF_SIZE with 128.
    rewrite <- !(wrap_mod 32 128 ltac:(lia) ltac:(lia) div128 (_ + _)). f_equal.
    replace (u32 (c_e x - c_w x) - 1) with (u32 (c_e x - c_w x) + -1) by lia. by rewrite wrap_from.
Qed.

(** [cons.buf[cons.e++ % INPUT_BUF_SIZE] = c] adds one. *)
Lemma line_add x c : cons_ok x → 0 ≤ c < 256 → u32 (c_e x - c_r x) < 128 → let x' := set_ce (u32 (c_e x + 1)) (buf_put (c_e x) c x) in
  cons_ok x' ∧ typed x' = typed x ∧ line x' = line x ++ [c] ∧ u32 (c_e x' - c_r x') = u32 (c_e x - c_r x) + 1.
Proof.
  intros Hx Hb Hn x'. rewrite (count_er x Hx) in *. pose proof (u32_nonneg (c_e x - c_w x)). pose proof (u32_nonneg (c_w x - c_r x)).
  assert (Hc : u32 (c_e x' - c_w x') = u32 (c_e x - c_w x) + 1).
  { simpl. rewrite (proj1 (wrap_wrap_sub 32 _ _)). replace (c_e x + 1 - c_w x) with (c_e x - c_w x + 1) by lia.
    rewrite wrap_succ; change (2 ^ 32) with 4294967296 in *; lia. }
  assert (Hok : cons_ok x').
  { pose proof (ck_fits x Hx). destruct Hx. split; simpl; try done.
    - by rewrite length_insert.
    - apply Forall_insert; [done|]. by rewrite wrap_small.
    - apply u32_range.
    - change (u32 (c_w x - c_r x) + u32 (c_e x' - c_w x') ≤ 128). lia. }
  assert (Hpos : ∀ a, (a + u32 (c_e x - a)) `mod` 128 = c_e x `mod` 128).
  { intros a. rewrite <- Z.add_mod_idemp_r by lia. rewrite (wrap_mod 32 128 ltac:(lia) ltac:(lia) div128), Z.add_mod_idemp_r by lia. f_equal. lia. }
  split_and!; [done| | |rewrite (count_er x' Hok), Hc; simpl; lia].
  - unfold typed. simpl. change INPUT_BUF_SIZE with 128. rewrite <- (Hpos (c_r x)). apply ring_put_other; rewrite ?(count_er x Hx); lia.
  - unfold line at 1. rewrite Hc. simpl. change INPUT_BUF_SIZE with 128. rewrite <- (Hpos (c_w x)), (wrap_small 8 c) by lia.
    apply ring_put_next; [lia|lia|apply Hx].
Qed.

(** [cons.w = cons.e] finishes the line. *)
Lemma line_finish x : cons_ok x → let x' := set_cw (c_e x) x in cons_ok x' ∧ typed x' = typed x ++ line x ∧ line x' = [].
Proof.
  intros Hx x'. pose proof (ck_fits x Hx). pose proof (u32_nonneg (c_e x - c_w x)). pose proof (u32_nonneg (c_w x - c_r x)).
  assert (u32 (c_e x - c_e x) = 0) as Hz by (by rewrite Z.sub_diag). split_and!.
  - pose proof (count_er x Hx). destruct Hx. split; try done. simpl. lia.
  - unfold typed. simpl. rewrite (count_er x Hx), ring_app by lia. f_equal. unfold line.
    rewrite <- (ring_wrap 32 128 ltac:(lia) ltac:(lia) div128 _ (c_r x + _)). f_equal.
    rewrite <- (Z.add_0_r (u32 (c_w x - c_r x))), wrap_from, Z.add_0_r. apply wrap_small, Hx.
  - unfold line. simpl. by rewrite Hz.
Qed.

(** What a key does to the finished bytes and the line, and its echo. *)
Definition accepted (c : Z) (a : list Z * list Z) : bool := negb (c =? 0) && (length a.1 + length a.2 <? 128)%nat.
Definition newline (c : Z) : Z := if c =? 13 then 10 else c.
Definition finishes (c : Z) (a : list Z * list Z) : bool := (c =? 10) || (c =? C 68) || (length a.1 + length a.2 =? 127)%nat.
Definition key (c : Z) (a : list Z * list Z) : list Z * list Z :=
  if c =? C 85 then (a.1, [])
  else if (c =? C 72) || (c =? 127) then (a.1, removelast a.2)
  else if accepted c a then
    let l := a.2 ++ [newline c] in if finishes (newline c) a then (a.1 ++ l, []) else (a.1, l)
  else a.
Definition key_echo (c : Z) (a : list Z * list Z) : list Z :=
  if c =? C 85 then concat (repeat rubout (length a.2))
  else if (c =? C 72) || (c =? 127) then match a.2 with [] => [] | _ => rubout end
  else if accepted c a then [newline c] else [].

Definition edits (x : cons) (a : list Z * list Z) : Prop := cons_ok x ∧ typed x = a.1 ∧ line x = a.2 ∧ 10 ∉ a.2.

Section input.
Variables (cons_lock pr_lock cons_r_chan proc_base : Z).

(** The interrupt handler can take the console's lock and wake processes. *)
Record at_console (t : cstate) : Prop := {
  at_can : can_send t;
  at_lock : OTHER_LOCK cons_lock ∉ ps_held (cs_procs t);
  at_free : no_proc_lock (cs_procs t)
}.

Lemma echoed_cons l t t' x : echoed l (set_cons x t) t' ↔ echoed l t t'.
Proof. by split; intros []; split. Qed.

Lemma kill_line_spec l (Q : unit → cstate → Prop) t fuel :
  can_send t → cons_ok (cs_cons t) → line (cs_cons t) = l → 10 ∉ l → (length l < fuel)%nat → (3 * length l ≤ ready (cs_dev t))%nat →
  (∀ t', echoed (concat (repeat rubout (length l))) t t' →
    cons_ok (cs_cons t') → typed (cs_cons t') = typed (cs_cons t) → line (cs_cons t') = [] → Q tt t') →
  wp (kill_line fuel) Q t.
Proof.
  revert Q t fuel. induction l as [|c l IH] using rev_ind; intros Q t fuel Hc Hx Hl Hnl Hf Hr HQ; (destruct fuel as [|fuel]; [lia|]); cbn [kill_line].
  - wp_step. apply wp_gets. rewrite (line_empty _ Hx), Hl. simpl. wp_step. by apply HQ; [apply echoed_nil|..].
  - wp_step. apply wp_gets. rewrite (line_empty _ Hx), Hl, bool_decide_eq_false_2 by (by destruct l).
    destruct (line_back _ l c Hx Hl) as (Hx'&Ht'&Hl'&Hb). rewrite Hb, (proj2 (Z.eqb_neq c 10)) by set_solver. simpl.
    wp_step. unfold upd_cons. apply wp_modify. rewrite length_app in *. simpl in Hf, Hr. wp_step.
    apply consputc_backspace; [by destruct Hc|simpl; lia|]. intros t1 E1 C1. apply (proj1 (echoed_cons _ _ _ _)) in E1. pose proof (eh_ready _ _ _ E1) as Hr1. simpl in Hr1.
    apply IH; [apply E1|by rewrite C1..|set_solver|lia|lia|]. intros t2 E2 Hok2 Hty2 Hl2. rewrite C1 in Hty2.
    apply HQ; [|done|by rewrite Hty2|done]. simpl length. rewrite Nat.add_1_r. change (repeat rubout (S (length l))) with (rubout :: repeat rubout (length l)).
    by apply (echoed_trans rubout _ t t1).
Qed.

(** Whether the key finishes a line, and so wakes the readers. *)
Definition wakes (c : Z) (a : list Z * list Z) : bool :=
  negb (c =? C 85) && negb ((c =? C 72) || (c =? 127)) && accepted c a && finishes (newline c) a.

Record handled (c : Z) (a : list Z * list Z) (t t' : cstate) : Prop := {
  hd_edits : edits (cs_cons t') (key c a);
  hd_uart : cs_uart t' = cs_uart t;
  hd_in : d_in (cs_dev t') = d_in (cs_dev t);
  hd_out : d_out (cs_dev t') = d_out (cs_dev t) ++ key_echo c a;
  hd_ready : ready (cs_dev t) = (length (key_echo c a) + ready (cs_dev t'))%nat;
  hd_can : can_send t';
  hd_procs : ProcProps.mapped (cs_procs t) (λ q, if wakes c a && bool_decide (0 ≤ q < NPROC) then
      woken cons_r_chan (c_proc (ps_cpu (cs_procs t))) q (ps_proc (cs_procs t) q) else ps_proc (cs_procs t) q) (cs_procs t')
}.

Lemma handled_quiet c a t t' :
  echoed (key_echo c a) t t' → wakes c a = false → edits (cs_cons t') (key c a) → handled c a t t'.
Proof.
  intros [? ? ? ? Hp ?] Hw He. split; try done. rewrite Hw. simpl. by apply mapped_locks.
Qed.

Lemma accepted_spec x a c : edits x a → negb (c =? 0) && (u32 (c_e x - c_r x) <? INPUT_BUF_SIZE) = accepted c a.
Proof.
  intros (Hx&Ht&Hl&_). unfold accepted. f_equal. rewrite (count_er x Hx), <- length_typed, <- length_line, Ht, Hl.
  change INPUT_BUF_SIZE with 128. apply eq_true_iff_eq. rewrite Z.ltb_lt, Nat.ltb_lt. lia.
Qed.
Lemma newline_byte c : 0 ≤ c < 256 → 0 ≤ newline c < 256.
Proof. unfold newline. destruct (c =? 13); lia. Qed.

(** A character that is accepted. *)
Lemma intr_add_spec c a (Q : unit → cstate → Prop) t :
  can_send t → no_proc_lock (cs_procs t) → edits (cs_cons t) a → 0 ≤ c < 256 → c ≠ C 85 → c ≠ C 72 → c ≠ 127 → accepted c a = true →
  (1 ≤ ready (cs_dev t))%nat → (∀ t', handled c a t t' → Q tt t') →
  wp (consputc (newline c) ;;
      upd_cons (λ x, set_ce (u32 (c_e x + 1)) (buf_put (c_e x) (newline c) x)) ;;
      x ← gets cs_cons;
      if (newline c =? 10) || (newline c =? C 68) || (u32 (c_e x - c_r x) =? INPUT_BUF_SIZE) then
        upd_cons (λ x, set_cw (c_e x) x) ;; pr (wakeup cons_r_chan)
      else mret tt) Q t.
Proof.
  intros Hc Hn He Hb HU HH HD Hacc Hr HQ. pose proof (newline_byte c Hb) as Hb'. wp_step. unfold consputc.
  rewrite (proj2 (Z.eqb_neq _ BACKSPACE)) by (unfold BACKSPACE; lia). apply uartputc_sync_spec; [done|lia|]. intros t1 E1 C1.
  rewrite (wrap_small 8) in E1 by done. unfold upd_cons. wp_step. apply wp_modify. wp_step. apply wp_gets. cbn [cs_cons set_cons].
  pose proof (accepted_spec _ _ c He) as Ha. rewrite Hacc in Ha. pose proof He as (Hx&Ht&Hl&Hnl). rewrite C1.
  destruct (line_add (cs_cons t) (newline c) Hx Hb') as (Hx2&Ht2&Hl2&Hn2); [change INPUT_BUF_SIZE with 128 in Ha; lia|].
  set (x2 := set_ce _ _) in *. rewrite Hn2.
  assert (key_echo c a = [newline c]) as Hecho by (unfold key_echo; zbool; simpl; by rewrite Hacc).
  assert (u32 (c_e (cs_cons t) - c_r (cs_cons t)) + 1 =? INPUT_BUF_SIZE = (length a.1 + length a.2 =? 127)%nat) as ->.
  { rewrite (count_er _ Hx), <- length_typed, <- length_line, Ht, Hl. change INPUT_BUF_SIZE with 128. apply eq_true_iff_eq.
    rewrite Z.eqb_eq, Nat.eqb_eq. lia. }
  change ((newline c =? 10) || (newline c =? C 68) || (length a.1 + length a.2 =? 127)%nat) with (finishes (newline c) a).
  assert (wakes c a = finishes (newline c) a) as Hw by (unfold wakes; zbool; simpl; by rewrite Hacc).
  assert (key c a = if finishes (newline c) a then (a.1 ++ a.2 ++ [newline c], []) else (a.1, a.2 ++ [newline c])) as Hkey
    by (unfold key; zbool; simpl; by rewrite Hacc).
  destruct (finishes (newline c) a) eqn:Hf.
  - wp_step. apply wp_modify. cbn [cs_cons set_cons]. destruct (line_finish x2 Hx2) as (Hx3&Ht3&Hl3). apply cpr_wp.
    apply wakeup_spec; [apply E1| |].
    { intros q. cbn. rewrite (fr_held _ _ _ (lo_frame _ _ _ (eh_procs _ _ _ E1))). apply Hn. }
    intros s' Hm. apply HQ. destruct E1 as [? ? ? ? Hp1 [? ? ?]]. split; try done; rewrite ?Hecho; try done.
    + rewrite Hkey. split_and!; [done| |done|set_solver]. change (typed (set_cw (c_e x2) x2) = a.1 ++ a.2 ++ [newline c]). by rewrite Ht3, Ht2, Hl2, Ht, Hl.
    + split; try done. apply Hm.
    + rewrite Hw. destruct Hp1 as [F1 Hp1 Hn1 Hk1], Hm as [F2 Hn2' Hk2 Hp2]. cbn in Hn2', Hk2, Hp2. split; [|cbn; congruence|cbn; congruence|].
      * cbn in F2. rewrite (fr_held _ _ _ F1) in F2. by eapply frame_trans.
      * intros q. cbn. rewrite Hp2, Hp1, (fr_cur _ _ _ F1). simpl. destruct (decide (0 ≤ q < NPROC)); [by rewrite bool_decide_eq_true_2|by rewrite bool_decide_eq_false_2].
  - wp_step. apply HQ. apply handled_quiet; [|done|].
    + rewrite Hecho. apply (echoed_trans [newline c] [] t t1); [done|]. apply (proj1 (echoed_cons _ _ _ x2)). 
      assert (can_send (set_cons x2 t1)) as Hc' by (by destruct E1 as [? ? ? ? ? []]). by apply echoed_nil.
    + rewrite Hkey. simpl. split_and!; [done|by rewrite Ht2|by rewrite Hl2, Hl|].
      unfold finishes in Hf. set_solver by lia.
Qed.

(** The handler without its lock. *)
Lemma intr_body_spec c a (Q : unit → cstate → Prop) t :
  can_send t → no_proc_lock (cs_procs t) → edits (cs_cons t) a → 0 ≤ c < 256 → c ≠ C 80 →
  (length (key_echo c a) ≤ ready (cs_dev t))%nat → (∀ t', handled c a t t' → Q tt t') →
  wp (if c =? C 85 then x ← gets cs_cons; kill_line (kill_fuel x)
      else if (c =? C 72) || (c =? 127) then
        x ← gets cs_cons;
        if negb (c_e x =? c_w x) then upd_cons (set_ce (u32 (c_e x - 1))) ;; consputc BACKSPACE else mret tt
      else
        x ← gets cs_cons;
        if negb (c =? 0) && (u32 (c_e x - c_r x) <? INPUT_BUF_SIZE) then
          let c := if c =? 13 then 10 else c in
          consputc c ;;
          upd_cons (λ x, set_ce (u32 (c_e x + 1)) (buf_put (c_e x) c x)) ;;
          x ← gets cs_cons;
          if (c =? 10) || (c =? C 68) || (u32 (c_e x - c_r x) =? INPUT_BUF_SIZE) then
            upd_cons (λ x, set_cw (c_e x) x) ;; pr (wakeup cons_r_chan)
          else mret tt
        else mret tt) Q t.
Proof.
  intros Hc Hn He Hb HP Hr HQ. pose proof He as (Hx&Ht&Hl&Hnl).
  assert (Hquiet : ∀ t', echoed (key_echo c a) t t' → wakes c a = false → edits (cs_cons t') (key c a) → Q tt t')
    by (intros; apply HQ, handled_quiet; done). unfold wakes, key, key_echo in Hquiet, Hr.
  destruct (Z.eqb_spec c (C 85)) as [->|HU].
  - wp_step. apply wp_gets. apply (kill_line_spec a.2); [done|done|done|done| | |].
    + unfold kill_fuel. rewrite <- length_line, Hl. lia.
    + assert (∀ k, length (concat (repeat rubout k)) = (3 * k)%nat) as E; [|rewrite E in Hr; lia].
      clear. intros k. induction k as [|k IH]; simpl in *; lia.
    + intros t' E' Hx' Ht' Hl'. apply Hquiet; [done|done|]. split_and!; [done|by rewrite Ht'|done|set_solver].
  - destruct ((c =? C 72) || (c =? 127)) eqn:HH.
    + wp_step. apply wp_gets. rewrite (line_empty _ Hx), Hl. destruct (list_snoc_case a.2) as [E|(l&k&E)].
      * rewrite E in *. simpl. wp_step. apply Hquiet; [by apply echoed_nil|done|]. split_and!; [done|done|by rewrite Hl|set_solver].
      * rewrite E in *. rewrite bool_decide_eq_false_2 by (by destruct l). simpl. wp_step. unfold upd_cons. apply wp_modify.
        destruct (line_back _ l k Hx Hl) as (Hx'&Ht'&Hl'&_). apply consputc_backspace; [by destruct Hc|destruct l; simpl in *; lia|].
        intros t1 E1 C1. apply (proj1 (echoed_cons _ _ _ _)) in E1. apply Hquiet; [by destruct l|done|].
        rewrite C1, removelast_last. split_and!; [done|by simpl; rewrite Ht'|done|set_solver].
    + wp_step. apply wp_gets. rewrite (accepted_spec _ a c He). destruct (accepted c a) eqn:Ha.
      * apply (intr_add_spec c a); try done; lia.
      * wp_step. apply Hquiet; [by apply echoed_nil|done|done].
Qed.

(** C21: console input.  [consoleintr] edits the line being typed: control-U
    kills it, backspace and delete take its last character off, and any other
    character but null is added while there is room, a carriage return as a
    newline; newline, control-D and a full buffer finish the line, hand it to
    the readers and wake them.  What the user sees is exactly the echo of the
    edit; output of programs, other processes and locks are as before.  The
    ring's indices may wrap around. *)
Theorem consoleintr_edits c a t :
  at_console t → edits (cs_cons t) a → 0 ≤ c < 256 → c ≠ C 80 → (length (key_echo c a) ≤ ready (cs_dev t))%nat →
  wp (consoleintr cons_lock pr_lock cons_r_chan proc_base c) (λ _, handled c a t) t.
Proof.
  intros [Hc Hlk Hn] He Hb HP Hr. unfold consoleintr. rewrite (proj2 (Z.eqb_neq c (C 80)) HP). wp_step.
  apply cpr_wp, acquire_spec; [apply Hc|done|]. intros s1 L1. set (t1 := set_cprocs s1 t).
  assert (can_send t1) as Hc1 by (destruct Hc; split; try done; apply L1). wp_step.
  apply (intr_body_spec c a); [done| |done|done|done|done|].
  { intros q. cbn. rewrite (fr_held _ _ _ (lo_frame _ _ _ L1)). pose proof (Hn q). set_solver. }
  intros t2 [He2 Hu2 Hi2 Ho2 Hr2 Hc2 Hm2]. destruct L1 as [F1 Hp1 Hn1 Hk1], Hm2 as [F2 Hn2 Hk2 Hp2]. cbn in F2, Hn2, Hk2, Hp2.
  apply cpr_wp, (release_head _ (ps_held (cs_procs t))); [apply Hc2|rewrite (fr_held _ _ _ F2); apply F1|].
  intros s3 [F3 Hp3 Hn3 Hk3]. split; try done.
  - destruct Hc2. split; try done. apply F3.
  - split; cbn; [|congruence|congruence|].
    + eapply frame_trans; [exact F1|]. eapply frame_trans; [exact F2|done].
    + intros q. rewrite Hp3, Hp2, Hp1, (fr_cur _ _ _ F1). done.
Qed.
End input.

(** ** Output *)

Record uart_ok (u : uart) : Prop := {
  uk_len : length (tx_buf u) = 32%nat;
  uk_bytes : Forall (λ c, 0 ≤ c < 256) (tx_buf u);
  uk_r : 0 ≤ tx_r u < 2 ^ 64;
  uk_w : 0 ≤ tx_w u < 2 ^ 64;
  uk_fits : u64 (tx_w u - tx_r u) ≤ 32
}.
Definition queued (u : uart) : list Z := ring 32 (tx_buf u) (tx_r u) (u64 (tx_w u - tx_r u)).

Lemma div32 : (32 | 2 ^ 64).
Proof. by exists 576460752303423488. Qed.
Lemma u64_nonneg z : 0 ≤ u64 z < 2 ^ 64.
Proof. apply u64_range. Qed.
Lemma length_queued u : Z.of_nat (length (queued u)) = u64 (tx_w u - tx_r u).
Proof. unfold queued. rewrite length_ring. pose proof (u64_nonneg (tx_w u - tx_r u)). lia. Qed.
Lemma queued_empty u : uart_ok u → (tx_w u =? tx_r u) = bool_decide (queued u = []).
Proof.
  intros Hu. pose proof (length_queued u) as Hl. apply eq_true_iff_eq. rewrite Z.eqb_eq, bool_decide_eq_true.
  pose proof (wrap_zero 64 ltac:(lia) (tx_r u) (tx_w u) (uk_r u Hu) (uk_w u Hu)) as Hz. rewrite <- length_zero_iff_nil. split; intros E.
  - symmetry in E. apply Hz in E. lia.
  - symmetry. apply Hz. lia.
Qed.
Lemma queued_full u : uart_ok u → (tx_w u =? u64 (tx_r u + UART_TX_BUF_SIZE)) = (length (queued u) =? 32)%nat.
Proof.
  intros Hu. pose proof (length_queued u) as Hl. apply eq_true_iff_eq. rewrite Z.eqb_eq, Nat.eqb_eq. change UART_TX_BUF_SIZE with 32.
  assert (u64 (tx_w u - tx_r u) = 32 ↔ tx_w u = u64 (tx_r u + 32)) as <-; [|lia]. split; intros E.
  - rewrite <- E, <- (Z.add_0_r (u64 (tx_w u - _))), wrap_from, Z.add_0_r. symmetry. apply wrap_small, Hu.
  - rewrite E, (proj1 (wrap_wrap_sub 64 _ _)). replace (tx_r u + 32 - tx_r u) with 32 by lia. done.
Qed.

Lemma tx_put_ok c u : uart_ok u → 0 ≤ c < 256 → (length (queued u) < 32)%nat →
  uart_ok (tx_put c u) ∧ queued (tx_put c u) = queued u ++ [c].
Proof.
  intros Hu Hc Hn. pose proof (length_queued u) as Hl. pose proof (u64_nonneg (tx_w u - tx_r u)).
  assert (Hcnt : u64 (u64 (tx_w u + 1) - tx_r u) = u64 (tx_w u - tx_r u) + 1).
  { rewrite (proj1 (wrap_wrap_sub 64 _ _)). replace (tx_w u + 1 - tx_r u) with (tx_w u - tx_r u + 1) by lia.
    rewrite wrap_succ; change (2 ^ 64) with 18446744073709551616 in *; lia. }
  split.
  - destruct Hu. split; simpl; [by rewrite length_insert|apply Forall_insert; [done|by rewrite wrap_small]|done|apply u64_range|lia].
  - unfold queued at 1. simpl. rewrite Hcnt, (wrap_small 8 c) by lia. change UART_TX_BUF_SIZE with 32.
    replace (tx_w u `mod` 32) with ((tx_r u + u64 (tx_w u - tx_r u)) `mod` 32).
    + apply ring_put_next; [lia|lia|apply Hu].
    + rewrite <- Z.add_mod_idemp_r by lia. rewrite (wrap_mod 64 32 ltac:(lia) ltac:(lia) div32), Z.add_mod_idemp_r by lia. f_equal. lia.
Qed.
Lemma tx_next_ok u c q : uart_ok u → queued u = c :: q → tx_get u = c ∧ uart_ok (tx_next u) ∧ queued (tx_next u) = q.
Proof.
  intros Hu Hq. pose proof (length_queued u) as Hl. rewrite Hq in Hl. simpl in Hl. pose proof (uk_fits u Hu).
  assert (Hcnt : u64 (tx_w u - u64 (tx_r u + 1)) = u64 (tx_w u - tx_r u) - 1).
  { rewrite (proj2 (wrap_wrap_sub 64 _ _)). replace (tx_w u - (tx_r u + 1)) with (tx_w u - tx_r u + -1) by lia.
    rewrite wrap_succ; change (2 ^ 64) with 18446744073709551616 in *; lia. }
  unfold queued in Hq. rewrite ring_cons in Hq by lia. injection Hq as Hc Hq. split_and!; [done| |].
  - destruct Hu. split; simpl; [done|done|apply u64_range|done|lia].
  - unfold queued. simpl. rewrite Hcnt, (ring_wrap 64 32 ltac:(lia) ltac:(lia) div32). done.
Qed.

(** How many bytes the transmitter takes before it is busy. *)
Fixpoint takes (idle : list bool) : nat := match idle with true :: idle => S (takes idle) | _ => O end.

Lemma tx_get_byte u : uart_ok u → 0 ≤ tx_get u < 256.
Proof.
  intros Hu. pose proof (uk_bytes u Hu) as Hf. rewrite Forall_lookup in Hf. apply (Hf (Z.to_nat (tx_r u `mod` 32))).
  apply list_lookup_lookup_total_lt. rewrite (uk_len u Hu). apply (place_lt 32 ltac:(lia)).
Qed.

Section output.
Variables (kend obj pt : Z) (tb : tables) (fl : list Z) (p uart_tx_lock tx_r_chan : Z).
Abbreviation pmem := (pmem kend pt tb fl p).
Abbreviation copied := (copied kend pt tb fl p).

(** The process [p] uses the UART, holding the locks [L]. *)
Record on_uart (L : list lockid) (t : cstate) : Prop := {
  ou_mem : pmem (cs_procs t);
  ou_held : ps_held (cs_procs t) = L;
  ou_lcr : has_bits (d_lcr (cs_dev t)) LCR_BAUD_LATCH = false;
  ou_panicked : cs_panicked t = false;
  ou_uart : uart_ok (cs_uart t)
}.
Abbreviation locked := (on_uart [OTHER_LOCK uart_tx_lock]).
(** What has been sent and what is waiting. *)
Definition stream (t : cstate) : list Z := d_out (cs_dev t) ++ queued (cs_uart t).
Definition same_rest (t t' : cstate) : Prop :=
  cs_cons t' = cs_cons t ∧ d_in (cs_dev t') = d_in (cs_dev t) ∧ ps_k (cs_procs t') = ps_k (cs_procs t).

Lemma on_uart_procs L L' t s' : on_uart L t → frame (cs_procs t) L' s' → ps_proc s' p = ps_proc (cs_procs t) p →
  ps_k s' = ps_k (cs_procs t) → on_uart L' (set_cprocs s' t).
Proof.
  intros [[Hc Hcur Hpt Hvm] Hh Hl Hp Hu] F Hpr Hk. split; try done; [|apply F]. split; cbn; [apply F|by rewrite (fr_cur _ _ _ F)|by rewrite Hpr|by rewrite Hk].
Qed.
Lemma on_uart_device L t u d : on_uart L t → uart_ok u → d_lcr d = d_lcr (cs_dev t) → on_uart L (set_dev d (set_uart u t)).
Proof. intros [? ? Hl ? ?] Hu Hd. split; try done. cbn. by rewrite Hd. Qed.
Lemma wakeup_uart L c (Q : unit → cstate → Prop) t : on_uart L t → (∀ q, PROC_LOCK q ∉ L) →
  (∀ s', on_uart L (set_cprocs s' t) → ps_k s' = ps_k (cs_procs t) → Q tt (set_cprocs s' t)) → wp (pr (wakeup c)) Q t.
Proof.
  intros Ht HL HQ. pose proof (ou_mem _ t Ht) as Hm. apply cpr_wp, wakeup_spec; [apply Hm|intros q; rewrite (ou_held _ t Ht); apply HL|].
  intros s' [F Hn Hk Hp]. rewrite (ou_held _ t Ht) in F. apply HQ; [|done]. apply (on_uart_procs L L); try done.
  rewrite Hp. case_decide; [|done]. unfold woken. rewrite decide_False; [done|]. rewrite (pm_cur _ _ _ _ _ _ Hm). naive_solver.
Qed.

Lemma uartstart_loop_spec fuel t : locked t → (length (d_idle (cs_dev t)) < fuel)%nat →
  wp (uartstart_loop tx_r_chan fuel) (λ _ t', let k := (length (queued (cs_uart t)) `min` takes (d_idle (cs_dev t)))%nat in
    locked t' ∧ same_rest t t' ∧ d_out (cs_dev t') = d_out (cs_dev t) ++ take k (queued (cs_uart t)) ∧
    queued (cs_uart t') = drop k (queued (cs_uart t))) t.
Proof.
  revert t. induction fuel as [|fuel IH]; intros t Ht Hf; [lia|]. cbn [uartstart_loop]. wp_step. apply wp_gets.
  pose proof (ou_uart _ t Ht) as Hu. rewrite (queued_empty _ Hu). destruct (queued (cs_uart t)) as [|c q] eqn:Hq.
  { rewrite bool_decide_eq_true_2 by done. wp_step. split_and!; [done|done|by rewrite app_nil_r|done]. }
  rewrite bool_decide_eq_false_2 by done. wp_step. apply ReadReg_wp. rewrite lsr_idle. destruct (d_idle (cs_dev t)) as [|b idle] eqn:Hi.
  { cbn [hd negb]. wp_step. cbn [takes]. rewrite Nat.min_0_r. split_and!; [|done|by rewrite app_nil_r|done]. by apply (on_uart_device _ t (cs_uart t)). }
  cbn [hd]. destruct b; cbn [negb].
  2: { wp_step. cbn [takes]. rewrite Nat.min_0_r. split_and!; [|done|by rewrite app_nil_r|done]. by apply (on_uart_device _ t (cs_uart t)). }
  destruct (tx_next_ok _ c q Hu Hq) as (Hget&Hu'&Hq'). rewrite Hget. unfold upd_uart, WriteReg. wp_step. apply wp_modify.
  set (t1 := set_uart _ _). assert (Ht1 : locked t1) by (by apply (on_uart_device _ t (tx_next (cs_uart t)))). wp_step.
  apply (wakeup_uart _ _ _ t1 Ht1); [set_solver|]. intros s' Ht2 Hk2. wp_step. apply wp_modify. set (t2 := set_cprocs s' t1) in *.
  assert (Hcb : u8 c = c). { rewrite <- Hget. apply wrap_small, tx_get_byte, Hu. }
  assert (write_THR' : dev_write THR c (cs_dev t2) = put_out (d_out (cs_dev t) ++ [c]) (cs_dev t2)).
  { rewrite write_THR by apply Ht2. by rewrite Hcb. }
  rewrite write_THR'. set (t3 := set_dev _ t2). assert (Ht3 : locked t3) by (by apply (on_uart_device _ t2 (cs_uart t2))).
  assert (Hi3 : d_idle (cs_dev t3) = idle) by (cbn; by rewrite Hi).
  eapply wp_mono; [apply (IH t3 Ht3); rewrite Hi3; simpl in Hf; lia|]. cbv beta zeta. rewrite Hi3.
  change (queued (cs_uart t3)) with (queued (tx_next (cs_uart t))). rewrite Hq'. simpl.
  intros _ t' (Ht'&(?&?&Hk')&Ho'&Hq2). split_and!; [done|split_and!; [done|done|by rewrite Hk']|by rewrite Ho'; simpl; rewrite <- app_assoc|done].
Qed.

Definition sleeping_on (c : Z) (t : cstate) : Prop :=
  let x := ps_proc (cs_procs t) p in p_state x = SLEEPING ∧ p_chan x = c ∧ ps_held (cs_procs t) = [PROC_LOCK p].

(** [uartputc] adds its character to the stream, or sleeps because the buffer
    is full. *)
Lemma uartputc_spec c t : on_uart [] t → 0 ≤ c < 256 →
  wps (uartputc uart_tx_lock tx_r_chan c)
    (λ _ t', on_uart [] t' ∧ same_rest t t' ∧ stream t' = stream t ++ [c])
    (λ t', same_rest t t' ∧ stream t' = stream t ∧ length (queued (cs_uart t')) = 32%nat ∧ sleeping_on tx_r_chan t') t.
Proof.
  intros Ht Hc. unfold uartputc. apply wps_bind_wp, cpr_wp, acquire_spec; [apply (ou_mem _ t Ht)|rewrite (ou_held _ t Ht); set_solver|].
  intros s1 [F1 Hp1 Hn1 Hk1]. rewrite (ou_held _ t Ht) in F1. set (t1 := set_cprocs s1 t).
  assert (Ht1 : locked t1) by (apply (on_uart_procs [] _ t); try done; by rewrite Hp1).
  apply wps_bind_wp, wp_gets. rewrite (ou_panicked _ t1 Ht1). unfold uartputc_turn. apply wps_bind_wp, wp_gets.
  change (cs_uart t1) with (cs_uart t). pose proof (ou_uart _ t Ht) as Hu. rewrite (queued_full _ Hu). destruct (Nat.eqb_spec (length (queued (cs_uart t))) 32) as [Hf|Hf].
  - apply cpr_wps, (sleep_spec p); [apply (ou_mem _ t1 Ht1)..|apply (ou_held _ t1 Ht1)|done|]. intros s2 (F2&_&Hk2&_&b&[Hs2 _]).
    split; [split_and!; [done|done|cbn; by rewrite Hk2]|]. split; [done|]. split; [done|]. unfold sleeping_on. cbn. rewrite Hs2. split_and!; [done|done|apply F2].
  - unfold upd_uart. apply wps_bind_wp, wp_modify. change (cs_uart t1) with (cs_uart t).
    assert (Hlt : (length (queued (cs_uart t)) < 32)%nat). { pose proof (length_queued (cs_uart t)). pose proof (uk_fits _ Hu). lia. }
    destruct (tx_put_ok c _ Hu Hc Hlt) as [Hu2 Hq2]. set (t2 := set_uart _ t1).
    assert (Ht2 : locked t2) by (by apply (on_uart_device _ t1 (tx_put c (cs_uart t)) (cs_dev t1))).
    unfold uartstart. apply wps_bind_wp, wp_bind, wp_gets. eapply wp_mono; [by apply uartstart_loop_spec; [|lia]|]. cbv beta zeta.
    intros _ t3 (Ht3&(?&?&Hk3)&Ho3&Hq3). change (queued (cs_uart t2)) with (queued (tx_put c (cs_uart t))) in *. rewrite Hq2 in *.
    apply wps_wp, cpr_wp, (release_head _ []); [apply (ou_mem _ t3 Ht3)|apply (ou_held _ t3 Ht3)|]. intros s4 [F4 Hp4 Hn4 Hk4].
    split; [apply (on_uart_procs _ _ t3 s4 Ht3); try done; by rewrite Hp4|]. split; [split_and!; [done|done|cbn; by rewrite Hk4, Hk3]|].
    unfold stream. cbn. rewrite Ho3, Hq3, <- app_assoc, take_drop. by rewrite app_assoc.
Qed.

Definition cbyte (t : cstate) (a : Z) : option Z := pbyte tb (cs_procs t) a.
Definition ccan (t : cstate) (a : Z) : Prop := pcan tb (cs_procs t) a.
(** The [n] bytes at [a] of the process's memory. *)
Definition user_bytes (t : cstate) (a n : Z) : list Z := (λ k, default 0 (cbyte t (a + k))) <$> seqZ 0 n.
Lemma user_bytes_cons t a n : 0 < n → user_bytes t a n = default 0 (cbyte t a) :: user_bytes t (a + 1) (n - 1).
Proof.
  intros Hn. unfold user_bytes. rewrite seqZ_cons by done. cbn [fmap list_fmap]. rewrite Z.add_0_r. f_equal.
  rewrite <- (fmap_add_seqZ 1 0), <- list_fmap_compose. replace (Z.pred n) with (n - 1) by lia.
  apply list_fmap_ext. intros i k _. simpl. do 2 f_equal. lia.
Qed.
Lemma user_bytes_ext t t' a n : (∀ b, cbyte t' b = cbyte t b) → user_bytes t' a n = user_bytes t a n.
Proof. intros E. unfold user_bytes. apply list_fmap_ext. intros i k _. by rewrite E. Qed.

Context (kend_pos : 0 < kend) (Hobj : 0 ≤ obj ∧ obj + BSIZE ≤ kend).

Lemma consolewrite_loop_spec src i k t :
  on_uart [] t → 0 ≤ src → 0 ≤ i → src + i + Z.of_nat k < 2 ^ 64 → (∀ a, src + i ≤ a < src + i + k → is_Some (cbyte t a)) →
  wps (consolewrite_loop uart_tx_lock tx_r_chan obj true src i k)
    (λ r t', r = i + k ∧ on_uart [] t' ∧ stream t' = stream t ++ user_bytes t (src + i) k ∧ cs_cons t' = cs_cons t ∧ ∀ a, cbyte t' a = cbyte t a)
    (λ t', ∃ j, i ≤ j < i + k ∧ stream t' = stream t ++ user_bytes t (src + i) (j - i) ∧ length (queued (cs_uart t')) = 32%nat ∧
      sleeping_on tx_r_chan t') t.
Proof using kend_pos Hobj.
  revert i t. induction k as [|k IH]; intros i t Ht Hs Hi Hmax Hb; cbn [consolewrite_loop].
  { split_and!; [lia|done|by rewrite app_nil_r|done|done]. }
  unfold either_copyin. rewrite (wrap_small 64) by lia. destruct (Hb (src + i)) as [c Hc]; [lia|].
  assert (Hcr : 0 ≤ c < 256) by (eapply pbyte_range; [apply (ou_mem _ t Ht)|exact Hc]).
  apply wps_bind_wp. wp_step. apply cpr_wp.
  apply (pcopyin_spec kend obj pt tb fl p kend_pos Hobj); [apply (ou_mem _ t Ht)|done|lia|simpl; lia|by repeat constructor| |].
  { intros a Ha. simpl in Ha. exists c. rewrite <- Hc. unfold cbyte. f_equal. lia. }
  intros l s1 [F1 Hp1 _ Hm1 _] Hby1 Hl Hll. specialize (Hll 0%nat (Nat.lt_0_succ 0)). rewrite Z.add_0_r in Hll.
  assert (l !!! 0%nat = c) as ->. { apply list_lookup_total_correct. rewrite Hll. exact Hc. }
  wp_step. change (0 =? -1) with false. cbv iota. set (t1 := set_cprocs s1 t).
  assert (Ht1 : on_uart [] t1). { destruct Ht as [? Hh ? ? ?]. split; try done. cbn. rewrite (fr_held _ _ _ F1). exact Hh. }
  assert (Hby1' : ∀ a, cbyte t1 a = cbyte t a) by exact Hby1. apply wps_bind.
  rewrite user_bytes_cons by lia. rewrite Hc. simpl default.
  eapply wps_mono; [apply (uartputc_spec c t1 Ht1 Hcr)|..]; cbv beta.
  - intros _ t2 (Ht2&(Hco2&_&Hk2)&Hs2). assert (Hby2 : ∀ a, cbyte t2 a = cbyte t a).
    { intros a. rewrite <- Hby1'. unfold cbyte, pbyte. by rewrite Hk2. }
    eapply wps_mono; [apply (IH (i + 1) t2 Ht2); try lia|..]; cbv beta.
    + intros a Ha. rewrite Hby2. apply Hb. lia.
    + intros r t' (->&Ht'&Hs'&Hco'&Hby'). split_and!; [lia|done| |by rewrite Hco', Hco2|intros a; by rewrite Hby'].
      rewrite Hs', Hs2, (user_bytes_ext t2 t) by done. rewrite <- app_assoc. simpl. do 3 f_equal; lia.
    + intros t' (j&Hj&Hs'&Hf). exists j. split; [lia|]. split; [|done].
      rewrite Hs', Hs2, (user_bytes_ext t t2) by done. rewrite (user_bytes_cons t (src + i)), Hc by lia. rewrite <- app_assoc. simpl. do 3 f_equal; lia.
  - intros t2 (_&Hs2&Hf). exists i. split; [lia|]. split; [|done]. by rewrite Hs2, Z.sub_diag, app_nil_r.
Qed.

(** C23: console output.  [consolewrite] appends the process's bytes, in order,
    to the stream of what the UART has sent and what waits in its buffer,
    whether or not the transmitter is busy and across the wrap-around of the
    buffer's indices: it writes all [n] bytes, or sleeps after some of them,
    and then the buffer is full.  The process's memory and the console's input
    stay as they are. *)
Theorem consolewrite_appends src n t :
  on_uart [] t → 0 ≤ src → 0 ≤ n → src + n < 2 ^ 64 → (∀ a, src ≤ a < src + n → is_Some (cbyte t a)) →
  wps (consolewrite uart_tx_lock tx_r_chan obj true src n)
    (λ r t', r = n ∧ on_uart [] t' ∧ stream t' = stream t ++ user_bytes t src n ∧ cs_cons t' = cs_cons t ∧ ∀ a, cbyte t' a = cbyte t a)
    (λ t', ∃ j, 0 ≤ j < n ∧ stream t' = stream t ++ user_bytes t src j ∧ length (queued (cs_uart t')) = 32%nat ∧
      sleeping_on tx_r_chan t') t.
Proof using kend_pos Hobj.
  intros Ht Hs Hn Hmax Hb. unfold consolewrite. eapply wps_mono; [apply (consolewrite_loop_spec src 0); try done; try lia|..]; cbv beta.
  - intros a Ha. apply Hb. lia.
  - rewrite Z.add_0_r, Z2Nat.id by lia. intros r t' (->&H). done.
  - rewrite Z.add_0_r, Z2Nat.id by lia. intros t' (j&Hj&H). exists j. rewrite Z.sub_0_r in H. split; [lia|done].
Qed.
End output.
