(* ===== verification/ConsoleRead.v ===== *)
(** * Reading lines from the console *)
From S2P Require Import Prelude Kstring Kalloc Vm VmProps UvmProps CopyProps Block BufCache Log Fs FsIO UserVm Proc ProcProps File PipeProps Ring User Console ConsoleProps.

(** What a [read] of [n] bytes takes from the bytes of finished lines: the
    bytes, what is left, and whether the read is complete.  [fresh] is whether
    nothing has been read yet: a control-D then is consumed, and otherwise
    left for the next read. *)
Fixpoint take_line (fresh : bool) (n : nat) (q : list Z) : list Z * list Z * bool :=
  match n with
  | O => ([], q, true)
  | S n =>
      match q with
      | [] => ([], [], false)
      | c :: q =>
          if c =? C 68 then ([], if fresh then q else c :: q, true)
          else if c =? 10 then ([c], q, true)
          else let '(l, r, b) := take_line false n q in (c :: l, r, b)
      end
  end.
Lemma take_line_length fresh n q : (length (take_line fresh n q).1.1 ≤ n)%nat.
Proof.
  revert fresh q. induction n as [|n IH]; intros fresh q; simpl; [lia|]. destruct q as [|c q]; simpl; [lia|].
  destruct (c =? C 68); simpl; [lia|]. destruct (c =? 10); simpl; [lia|]. specialize (IH false q). destruct (take_line false n q) as [[??]?]. simpl in *. lia.
Qed.

(** [c = cons.buf[cons.r++ % INPUT_BUF_SIZE]] *)
Lemma typed_next x c q : cons_ok x → typed x = c :: q → let x' := set_cr (u32 (c_r x + 1)) x in
  buf_at (c_r x) x = c ∧ cons_ok x' ∧ typed x' = q ∧ line x' = line x ∧ set_cr (u32 (c_r x' - 1)) x' = x.
Proof.
  intros Hx Hq x'. pose proof (length_typed x) as Hl. rewrite Hq in Hl. simpl in Hl. pose proof (ck_fits x Hx).
  pose proof (u32_nonneg (c_e x - c_w x)).
  assert (Hcnt : u32 (c_w x - u32 (c_r x + 1)) = u32 (c_w x - c_r x) - 1).
  { rewrite (proj2 (wrap_wrap_sub 32 _ _)). replace (c_w x - (c_r x + 1)) with (c_w x - c_r x + -1) by lia.
    rewrite wrap_succ; change (2 ^ 32) with 4294967296 in *; lia. }
  unfold typed in Hq. rewrite ring_cons in Hq by lia. injection Hq as Hc Hq. split_and!; [done| |..|done|].
  - destruct Hx. split; simpl; try done; [apply u32_range|lia].
  - unfold typed. simpl. rewrite Hcnt, (ring_wrap 32 128 ltac:(lia) ltac:(lia) div128). done.
  - simpl. rewrite (proj1 (wrap_wrap_sub 32 _ _)). replace (c_r x + 1 - 1) with (c_r x) by lia. rewrite wrap_small by apply Hx. by destruct x.
Qed.

Lemma typed_byte x c q : cons_ok x → typed x = c :: q → 0 ≤ c < 256.
Proof.
  intros Hx Hq. destruct (typed_next x c q Hx Hq) as [<- _]. pose proof (ck_bytes x Hx) as Hf. rewrite Forall_lookup in Hf.
  unfold buf_at. apply (Hf (Z.to_nat (c_r x `mod` 128))). apply list_lookup_lookup_total_lt. rewrite (ck_len x Hx). apply (place_lt 128 ltac:(lia)).
Qed.

Section read.
Variables (kend obj pt : Z) (tb : tables) (fl : list Z) (p cons_lock cons_r_chan : Z).
Abbreviation pmem := (pmem kend pt tb fl p).
Abbreviation cbyte := (cbyte tb).
Abbreviation ccan := (ccan tb).

(** The process [p], which is not killed, uses the console's input, holding
    the locks [L]. *)
Record on_cons (L : list lockid) (t : cstate) : Prop := {
  oc_mem : pmem (cs_procs t);
  oc_held : ps_held (cs_procs t) = L;
  oc_killed : p_killed (ps_proc (cs_procs t) p) = 0;
  oc_cons : cons_ok (cs_cons t)
}.
Abbreviation locked := (on_cons [OTHER_LOCK cons_lock]).

(** The process received the bytes [l] at [dst], and [q] is left. *)
Definition got (dst : Z) (l q : list Z) (t t' : cstate) : Prop :=
  typed (cs_cons t') = q ∧ line (cs_cons t') = line (cs_cons t) ∧
  cs_uart t' = cs_uart t ∧ cs_dev t' = cs_dev t ∧ (∀ a, ccan t' a ↔ ccan t a) ∧
  ∀ a, cbyte t' a = if decide (dst ≤ a < dst + length l) then l !! Z.to_nat (a - dst) else cbyte t a.

Lemma got_nil dst q t t' : typed (cs_cons t) = q → cs_cons t' = cs_cons t → cs_uart t' = cs_uart t → cs_dev t' = cs_dev t → ps_k (cs_procs t') = ps_k (cs_procs t) →
  got dst [] q t t'.
Proof.
  intros <- E1 E2 E3 E4. unfold got, ConsoleProps.ccan, ConsoleProps.cbyte, pcan, pbyte. rewrite E1, E4. split_and!; try done.
  intros a. rewrite decide_False by (simpl; lia). done.
Qed.
Lemma got_cons dst c l q q1 t t1 t' : got dst [c] q1 t t1 → got (dst + 1) l q t1 t' → got dst (c :: l) q t t'.
Proof.
  intros (_&Hl1&Hu1&Hd1&Hc1&Hb1) (Hq&Hl&Hu&Hd&Hc&Hb). split_and!; [done|congruence..|intros a; by rewrite Hc, Hc1|].
  intros a. rewrite Hb, Hb1. simpl length. repeat case_decide; try lia; try done.
  - by replace (Z.to_nat (a - dst)) with (S (Z.to_nat (a - (dst + 1)))) by lia.
  - assert (a = dst) as -> by lia. by rewrite Z.sub_diag.
Qed.

Lemma on_cons_procs L L' t s' : on_cons L t → frame (cs_procs t) L' s' → ps_proc s' p = ps_proc (cs_procs t) p →
  ps_k s' = ps_k (cs_procs t) → on_cons L' (set_cprocs s' t).
Proof.
  intros [[Hc Hcur Hpt Hvm] Hh Hl Hp] F Hpr Hk. split; try done; [|apply F|cbn; by rewrite Hpr].
  split; cbn; [apply F|by rewrite (fr_cur _ _ _ F)|by rewrite Hpr|by rewrite Hk].
Qed.

(** No finished line: the reader sleeps. *)
Lemma read_waits {A} (K : M cstate A) (Q : A → cstate → Prop) R t : locked t →
  (∀ t', cs_cons t' = cs_cons t → cs_uart t' = cs_uart t → cs_dev t' = cs_dev t → ps_k (cs_procs t') = ps_k (cs_procs t) →
    sleeping_on p cons_r_chan t' → R t') →
  wps (q ← pr curproc; killed ← pr (killed q);
       if negb (killed =? 0) then K else pr (sleep cons_r_chan (OTHER_LOCK cons_lock))) Q R t.
Proof.
  intros Ht HR. apply wps_bind_wp, cpr_wp, (curproc_spec p); [apply (oc_mem _ t Ht)..|]. intros s1 [F1 Hp1 _ Hk1]. rewrite (oc_held _ t Ht) in F1.
  apply wps_bind_wp, cpr_wp, killed_spec; [apply F1|intros q; cbn; rewrite (fr_held _ _ _ F1); set_solver|]. intros s2 [F2 Hp2 _ Hk2].
  cbn in F2, Hp2, Hk2. rewrite (fr_held _ _ _ F1) in F2. cbn. rewrite Hp1, (oc_killed _ t Ht). simpl.
  apply cpr_wps, (sleep_spec p); [apply F2|cbn; rewrite (fr_cur _ _ _ F2), (fr_cur _ _ _ F1); apply (oc_mem _ t Ht)|apply F2|done|].
  intros s3 (F3&_&Hk3&_&b&[Hs3 _]). apply HR; try done; cbn; [by rewrite Hk3; cbn; rewrite Hk2|].
  unfold sleeping_on. cbn. rewrite Hs3. split_and!; [done|done|apply F3].
Qed.

Context (kend_pos : 0 < kend) (Hobj : 0 ≤ obj ∧ obj + BSIZE ≤ kend).

(** One byte goes to the process. *)
Lemma read_copies c q t dst (Q : Z → cstate → Prop) :
  locked t → typed (cs_cons t) = c :: q → 0 ≤ dst < 2 ^ 64 - 1 → ccan t dst →
  (∀ t', locked t' → got dst [c] q t t' → Q 0 t') →
  wp (either_copyout obj true dst c) Q (set_cons (set_cr (u32 (c_r (cs_cons t) + 1)) (cs_cons t)) t).
Proof using kend_pos Hobj.
  intros Ht Hq Hd Hcan HQ. destruct (typed_next _ c q (oc_cons _ t Ht) Hq) as (_&Hx1&Ht1&Hl1&_).
  pose proof (typed_byte _ c q (oc_cons _ t Ht) Hq) as Hcb. unfold either_copyout. apply cpr_wp.
  apply (pcopyout_spec kend obj pt tb fl p kend_pos Hobj); [apply (oc_mem _ t Ht)|done|lia|simpl; lia|by apply Forall_singleton| |].
  { intros a Ha. simpl in Ha. by replace a with dst by lia. }
  intros s1 [F1 Hp1 _ Hm1 Hc1] Hb1. apply HQ.
  - destruct Ht as [? Hh Hk ?]. split; try done; cbn; [rewrite (fr_held _ _ _ F1); exact Hh|by rewrite Hp1].
  - split_and!; try done.
Qed.

Lemma consoleread_loop_spec target dst k t :
  locked t → 0 ≤ dst → Z.of_nat k ≤ target → dst + k < 2 ^ 64 → (∀ a, dst ≤ a < dst + k → ccan t a) →
  let '(l, q, done) := take_line (Z.of_nat k =? target) k (typed (cs_cons t)) in
  wps (consoleread_loop cons_lock cons_r_chan obj target true dst k)
    (λ r t', done = true ∧ r = Some (Z.of_nat k - Z.of_nat (length l)) ∧ locked t' ∧ got dst l q t t')
    (λ t', done = false ∧ got dst l q t t' ∧ sleeping_on p cons_r_chan t') t.
Proof using kend_pos Hobj.
  revert dst t. induction k as [|k IH]; intros dst t Ht Hd Hk Hmax Hcan; cbn [consoleread_loop take_line].
  { split_and!; try done. by apply got_nil. }
  pose proof (oc_cons _ t Ht) as Hx. destruct (typed (cs_cons t)) as [|c q] eqn:Hq.
  - apply wps_bind_wp, wp_gets. rewrite (typed_empty _ Hx), Hq, bool_decide_eq_true_2 by done.
    apply read_waits; [done|]. intros t' E1 E2 E3 E4 Hs. split; [done|]. split; [|done]. by apply got_nil.
  - destruct (typed_next _ c q Hx Hq) as (Hb&Hx1&Ht1&Hl1&Hback).
    assert (Hstep : ∀ (Q : option Z → cstate → Prop) R, wps (upd_cons (set_cr (u32 (c_r (cs_cons t) + 1))) ;;
      if c =? C 68 then
        (if Z.of_nat (S k) <? target then upd_cons (λ x, set_cr (u32 (c_r x - 1)) x) else mret tt) ;; mret (Some (Z.of_nat (S k)))
      else r ← either_copyout obj true dst c; if r =? -1 then mret (Some (Z.of_nat (S k))) else if c =? 10 then mret (Some (Z.of_nat k))
        else consoleread_loop cons_lock cons_r_chan obj target true (u64 (dst + 1)) k) Q R t →
      wps (consoleread_loop cons_lock cons_r_chan obj target true dst (S k)) Q R t).
    { intros Q R HQ. cbn [consoleread_loop]. apply wps_bind_wp, wp_gets. rewrite (typed_empty _ Hx), Hq, bool_decide_eq_false_2 by done. by rewrite Hb. }
    unfold upd_cons in Hstep. destruct (c =? C 68) eqn:HD.
    + apply Hstep, wps_bind_wp, wp_modify, wps_wp. cbn [cs_cons set_cons]. destruct (Z.eqb_spec (Z.of_nat (S k)) target) as [Ek|Ek].
      * rewrite (proj2 (Z.ltb_ge _ _)) by lia. wp_steps. split; [done|]. split; [f_equal; simpl; lia|]. split; [by destruct Ht; split|].
        split_and!; try done. intros a. rewrite decide_False by (simpl; lia). done.
      * rewrite (proj2 (Z.ltb_lt _ _)) by lia. wp_steps. cbn [cs_cons set_cons]. rewrite Hback. split; [done|]. split; [f_equal; simpl; lia|]. split; [by destruct Ht; split|].
        by apply got_nil.
    + destruct (c =? 10) eqn:HN.
      * apply Hstep, wps_bind_wp, wp_modify, wps_wp. wp_step. apply (read_copies c q); [done|done|lia|apply Hcan; lia|].
        intros t1 Ht1' Hg1. change (0 =? -1) with false. cbv iota. wp_step. split_and!; [done|f_equal; simpl; lia|done|done].
      * destruct (take_line false k q) as [[l r] b] eqn:Etl.
        apply Hstep, wps_bind_wp, wp_modify, wps_bind_wp. apply (read_copies c q); [done|done|lia|apply Hcan; lia|].
        intros t1 Ht1' Hg1. change (0 =? -1) with false. cbv iota. rewrite (wrap_small 64) by lia.
        pose proof Hg1 as (Hq1&_&_&_&Hc1&_). specialize (IH (dst + 1) t1 Ht1'). rewrite Hq1, (proj2 (Z.eqb_neq (Z.of_nat k) target)), Etl in IH by lia.
        eapply wps_mono; [apply IH; try lia; intros a Ha; apply Hc1, Hcan; lia|..]; cbv beta.
        -- intros r' t' (->&->&Ht'&Hg'). split_and!; [done|f_equal; simpl; lia|done|]. by eapply got_cons.
        -- intros t' (->&Hg'&Hs'). split_and!; [done|by eapply got_cons|apply Hs'..].
Qed.

(** C22: reading from the console.  [consoleread] of [n] bytes gives the process
    the oldest bytes of finished lines at the address it asked for, up to and
    including a newline, up to a control-D, or [n] of them, and returns how
    many; a control-D that was not the first byte stays for the next read,
    which then returns 0.  The process goes to sleep exactly when the finished
    lines run out before that, with those bytes already delivered.  The line
    being typed, the output, and the rest of the process's memory stay as they
    are. *)
Theorem consoleread_takes_line dst n t :
  on_cons [] t → 0 ≤ dst → 0 ≤ n < 2 ^ 31 → dst + n < 2 ^ 64 → (∀ a, dst ≤ a < dst + n → ccan t a) →
  let '(l, q, done) := take_line true (Z.to_nat n) (typed (cs_cons t)) in
  wps (consoleread cons_lock cons_r_chan obj true dst n)
    (λ r t', done = true ∧ r = Z.of_nat (length l) ∧ on_cons [] t' ∧ got dst l q t t')
    (λ t', done = false ∧ got dst l q t t' ∧ sleeping_on p cons_r_chan t') t.
Proof using kend_pos Hobj.
  intros Ht Hd Hn Hmax Hcan. destruct (take_line true (Z.to_nat n) (typed (cs_cons t))) as [[l q] b] eqn:E.
  assert (Hlen : Z.of_nat (length l) ≤ n). { pose proof (take_line_length true (Z.to_nat n) (typed (cs_cons t))) as H. rewrite E in H. simpl in H. lia. }
  unfold consoleread. apply wps_bind_wp, cpr_wp, acquire_spec; [apply (oc_mem _ t Ht)|rewrite (oc_held _ t Ht); set_solver|].
  intros s1 [F1 Hp1 _ Hk1]. rewrite (oc_held _ t Ht) in F1. set (t1 := set_cprocs s1 t).
  assert (Ht1 : locked t1) by (apply (on_cons_procs [] _ t); try done; by rewrite Hp1).
  assert (Hgot : ∀ t', got dst l q t1 t' → got dst l q t t').
  { unfold got, ConsoleProps.ccan, ConsoleProps.cbyte, pcan, pbyte. change (cs_procs t1) with s1. by rewrite Hk1. }
  rewrite (wrap_small 32) by lia. unfold consoleread_from. apply wps_bind.
  assert (Hloop : wps (if 0 <? n then consoleread_loop cons_lock cons_r_chan obj n true dst (Z.to_nat n) else mret (Some n))
    (λ r t', b = true ∧ r = Some (n - Z.of_nat (length l)) ∧ locked t' ∧ got dst l q t1 t')
    (λ t', b = false ∧ got dst l q t1 t' ∧ sleeping_on p cons_r_chan t') t1).
  { destruct (Z.ltb_spec 0 n) as [H0|H0].
    - pose proof (consoleread_loop_spec n dst (Z.to_nat n) t1 Ht1 Hd) as Hs. change (typed (cs_cons t1)) with (typed (cs_cons t)) in Hs.
      rewrite Z2Nat.id, Z.eqb_refl, E in Hs by lia. apply Hs; [lia|done|]. intros a Ha. unfold ConsoleProps.ccan, pcan. cbn. rewrite Hk1. by apply Hcan.
    - assert (n = 0) as -> by lia. simpl in E. injection E as <- <- <-. split_and!; try done. by apply got_nil. }
  eapply wps_mono; [exact Hloop|..]; cbv beta.
  - intros r t2 (->&->&Ht2&Hg2). apply wps_bind_wp, cpr_wp, (release_head _ []); [apply (oc_mem _ t2 Ht2)|apply (oc_held _ t2 Ht2)|].
    intros s3 [F3 Hp3 _ Hk3]. split; [done|]. split; [replace (n - (n - Z.of_nat (length l))) with (Z.of_nat (length l)) by lia; apply swrap_small; lia|].
    split; [apply (on_cons_procs _ _ t2 s3 Ht2); try done; by rewrite Hp3|]. apply Hgot in Hg2 as (?&?&?&?&Hc2&Hb2). split_and!; try done; intros a.
    + rewrite <- Hc2. unfold ConsoleProps.ccan, pcan. cbn. by rewrite Hk3.
    + rewrite <- Hb2. unfold ConsoleProps.cbyte, pbyte. cbn. by rewrite Hk3.
  - intros t2 (->&Hg2&Hs2). split; [done|]. split; [by apply Hgot|done].
Qed.
End read.

(** ** A console whose indices wrap around *)

From S2P Require Import VmDemo Bio BioProps BioSpec LogDemo FsDemo ProcSteps.

Module ConsoleDemo.

(** The line [hi] has arrived, [a] is being typed; the UART's buffer holds one
    byte and its transmitter takes one and is then busy. *)
Definition cons1 : cons :=
  Cons (<[126%nat := 104]> (<[127%nat := 105]> (<[0%nat := 10]> (<[1%nat := 97]> (replicate 128 0))))) (2 ^ 32 - 2) 1 2.
Definition uart1 : uart := Uart (<[31%nat := 120]> (replicate 32 0)) 0 (2 ^ 64 - 1).
Definition dev1 : device := Device [] [true; false; true; true; true] [] 3 7 3 3.
Definition state1 : cstate := CState cons1 uart1 dev1 false true PipeDemo.procs2.

Lemma cons1_ok : cons_ok cons1.
Proof.
  assert (Hr : Forall (λ c, 0 ≤ c < 256) (replicate 128 0)) by (by apply Forall_replicate).
  split; try (by vm_compute). unfold cons1. cbn [c_buf]. do 4 (apply Forall_insert; [|lia]). exact Hr.
Qed.
Lemma cons1_edits : edits cons1 ([104; 105; 10], [97]).
Proof. split; [apply cons1_ok|]. split; [by vm_compute|]. split; [by vm_compute|]. set_solver. Qed.
Lemma uart1_ok : uart_ok uart1.
Proof.
  assert (Hr : Forall (λ c, 0 ≤ c < 256) (replicate 32 0)) by (by apply Forall_replicate).
  split; try (by vm_compute). unfold uart1. cbn [tx_buf]. by apply Forall_insert.
Qed.
Lemma pmem1 : pmem VmDemo.kend0 VmDemo.root0 VmDemo.tables0 VmDemo.free0 0 PipeDemo.procs2.
Proof. apply (np_mem _ _ _ _ _ _ _ PipeDemo.near2). Qed.
Lemma can_send1 : can_send state1.
Proof. split; [done|done|apply pmem1]. Qed.

Lemma on_uart1 : on_uart VmDemo.kend0 VmDemo.root0 VmDemo.tables0 VmDemo.free0 0 [] state1.
Proof. split; [apply pmem1|done|done|done|apply uart1_ok]. Qed.
Lemma on_cons1 : on_cons VmDemo.kend0 VmDemo.root0 VmDemo.tables0 VmDemo.free0 0 [] state1.
Proof. split; [apply pmem1|done|done|apply cons1_ok]. Qed.

(** Control-U wipes the [a]. *)
Lemma consoleintr_edits_witness :
  wp (consoleintr 1 2 3 4 (C 85)) (λ _ t', edits (cs_cons t') ([104; 105; 10], []) ∧ d_out (cs_dev t') = [8; 32; 8]) state1.
Proof.
  eapply wp_mono; [apply (consoleintr_edits 1 2 3 4 (C 85) ([104; 105; 10], [97]) state1)|].
  - split; [apply can_send1|apply not_elem_of_nil|intros q; apply not_elem_of_nil].
  - apply cons1_edits.
  - done.
  - done.
  - vm_compute. lia.
  - intros _ t' [He _ _ Ho _ _ _]. split; [exact He|exact Ho].
Defined.

(** Three bytes follow the one in the buffer. *)
Lemma consolewrite_appends_witness :
  wps (consolewrite 1 2 0 true 0 3) (λ r t', r = 3 ∧ stream t' = [120; 0; 0; 0]) (λ _, False) state1.
Proof.
  assert (Hu : user_bytes VmDemo.tables0 state1 0 3 = [0; 0; 0]) by (vm_compute; reflexivity).
  assert (Hs : stream state1 = [120]) by (vm_compute; reflexivity).
  eapply wps_mono; [apply (consolewrite_appends VmDemo.kend0 0 VmDemo.root0 VmDemo.tables0 VmDemo.free0 0 1 2 VmDemo.kend0_pos PipeDemo.pobj_low 0 3 state1 on_uart1); [lia|lia|lia|]|..].
  - intros a Ha. destruct (PipeDemo.mapped2 a) as [pa Hpa]; [lia|]. unfold cbyte, pbyte, ubyte.
    change (cs_procs state1) with (sys_procs PipeDemo.sys2). rewrite Hpa. by eexists.
  - cbv beta. intros r t' (->&_&Hst&_). split; [done|]. by rewrite Hst, Hu, Hs.
  - cbv beta. intros t' (j&Hj&Hst&Hf&_). rewrite Hs in Hst.
    assert (length (stream t') ≤ 4)%nat as Hl.
    { rewrite Hst. unfold user_bytes. rewrite length_app, length_fmap, length_seqZ. simpl. lia. }
    unfold stream in Hl. rewrite length_app in Hl. lia.
Defined.

(** A read of ten bytes gets the line. *)
Lemma consoleread_takes_line_witness :
  wps (consoleread 1 3 0 true 100 10)
    (λ r t', r = 3 ∧ typed (cs_cons t') = [] ∧ line (cs_cons t') = [97] ∧ cbyte VmDemo.tables0 t' 101 = Some 105) (λ _, False) state1.
Proof.
  pose proof (consoleread_takes_line VmDemo.kend0 0 VmDemo.root0 VmDemo.tables0 VmDemo.free0 0 1 3 VmDemo.kend0_pos PipeDemo.pobj_low 100 10 state1 on_cons1) as H.
  destruct cons1_edits as (_&Ht&Hl&_). cbn [fst snd] in Ht, Hl. change (cs_cons state1) with cons1 in H. rewrite Ht in H.
  assert (take_line true (Z.to_nat 10) [104; 105; 10] = ([104; 105; 10], [], true)) as E by reflexivity. rewrite E in H. cbv beta iota in H.
  eapply wps_mono; [apply H; [lia|lia|lia|]|..].
  - intros a Ha. apply (PipeDemo.mapped2 a). lia.
  - cbv beta. intros r t' (_&->&_&Hq&Hli&_&_&_&Hb). split; [done|]. split; [done|]. split; [rewrite Hli; exact Hl|]. rewrite Hb. done.
  - cbv beta. intros t' (?&_). done.
Defined.
End ConsoleDemo.
