(* ===== verification/Virtio.v ===== *)
(** * kernel/virtio_disk.c: the driver of the disk

    The queue that driver and device share is a record of its fields; a
    pointer in a descriptor is a value of [addr].  [sleep] puts the calling
    thread, [me], on the list of sleepers and gives the lock back; [wakeup]
    takes threads off it.  [virtio_disk_rw] is cut where another thread, an
    interrupt or, behind the memory barrier, the device can see what it has
    done. *)
From S2P Require Import Prelude Kstring Kalloc Block.

(** ** virtio.h *)

Definition NUM : Z := 8.
Definition VRING_DESC_F_NEXT : Z := 1.
Definition VRING_DESC_F_WRITE : Z := 2.
Definition VIRTIO_BLK_T_IN : Z := 0.
Definition VIRTIO_BLK_T_OUT : Z := 1.

(** Null, the request [ops[i]], the data of a buffer, [info[i].status]. *)
Inductive addr := Null | OpAt (i : Z) | DataOf (b : Z) | StatusAt (i : Z).
Record virtq_desc := Desc { ds_addr : addr; ds_len : Z; ds_flags : Z; ds_next : Z }.
Record virtio_blk_req := Req { rq_type : Z; rq_reserved : Z; rq_sector : Z }.

(** ** The driver's state, and the buffers' *)

Record disk := Disk {
  dk_desc : list virtq_desc;
  dk_avail_idx : Z; dk_avail_ring : list Z;     (* avail->idx, avail->ring *)
  dk_used_idx : Z; dk_used_ring : list Z;       (* used->idx, used->ring[].id *)
  dk_free : list bool;
  dk_seen : Z;                                  (* used_idx *)
  dk_info_b : list (option Z); dk_status : list Z;
  dk_ops : list virtio_blk_req
}.
Record dbuf := DBuf { bf_disk : Z; bf_blockno : Z; bf_data : list Z }.

Record vstate := VState {
  vs_disk : disk;
  vs_buf : Z → dbuf;
  vs_lock : bool;                  (* vdisk_lock *)
  vs_asleep : list (Z * Z)         (* sleeping threads with their channels *)
}.

Definition set_desc x d := Disk x (dk_avail_idx d) (dk_avail_ring d) (dk_used_idx d) (dk_used_ring d) (dk_free d) (dk_seen d) (dk_info_b d) (dk_status d) (dk_ops d).
Definition set_avail i x d := Disk (dk_desc d) i x (dk_used_idx d) (dk_used_ring d) (dk_free d) (dk_seen d) (dk_info_b d) (dk_status d) (dk_ops d).
Definition set_used i x d := Disk (dk_desc d) (dk_avail_idx d) (dk_avail_ring d) i x (dk_free d) (dk_seen d) (dk_info_b d) (dk_status d) (dk_ops d).
Definition set_free x d := Disk (dk_desc d) (dk_avail_idx d) (dk_avail_ring d) (dk_used_idx d) (dk_used_ring d) x (dk_seen d) (dk_info_b d) (dk_status d) (dk_ops d).
Definition set_seen x d := Disk (dk_desc d) (dk_avail_idx d) (dk_avail_ring d) (dk_used_idx d) (dk_used_ring d) (dk_free d) x (dk_info_b d) (dk_status d) (dk_ops d).
Definition set_info_b x d := Disk (dk_desc d) (dk_avail_idx d) (dk_avail_ring d) (dk_used_idx d) (dk_used_ring d) (dk_free d) (dk_seen d) x (dk_status d) (dk_ops d).
Definition set_status x d := Disk (dk_desc d) (dk_avail_idx d) (dk_avail_ring d) (dk_used_idx d) (dk_used_ring d) (dk_free d) (dk_seen d) (dk_info_b d) x (dk_ops d).
Definition set_ops x d := Disk (dk_desc d) (dk_avail_idx d) (dk_avail_ring d) (dk_used_idx d) (dk_used_ring d) (dk_free d) (dk_seen d) (dk_info_b d) (dk_status d) x.

Definition put_disk x s := VState x (vs_buf s) (vs_lock s) (vs_asleep s).
Definition put_buf b x s := VState (vs_disk s) (<[b := x]> (vs_buf s)) (vs_lock s) (vs_asleep s).
Definition put_lock x s := VState (vs_disk s) (vs_buf s) x (vs_asleep s).
Definition put_asleep x s := VState (vs_disk s) (vs_buf s) (vs_lock s) x.

Definition upd_disk (f : disk → disk) : M vstate unit := modify (λ s, put_disk (f (vs_disk s)) s).
Definition dget {A} (f : disk → A) : M vstate A := gets (λ s, f (vs_disk s)).
Definition write_desc (i : Z) (x : virtq_desc) : M vstate unit := upd_disk (λ d, set_desc (<[Z.to_nat i := x]> (dk_desc d)) d).
Definition set_bdisk (b v : Z) : M vstate unit :=
  modify (λ s, let x := vs_buf s b in put_buf b (DBuf v (bf_blockno x) (bf_data x)) s).

Definition acquire_vdisk : M vstate unit := acquire vs_lock put_lock.
Definition release_vdisk : M vstate unit := release vs_lock put_lock.

(** Channels: [&disk.free[0]], and the buffers. *)
Definition FREE_CHAN : Z := -1.
Definition wakeup (chan : Z) : M vstate unit :=
  modify (λ s, put_asleep (List.filter (λ x, negb (x.2 =? chan)) (vs_asleep s)) s).
Definition sleep {A} (me chan : Z) : M vstate A :=
  release_vdisk ;; modify (λ s, put_asleep ((me, chan) :: vs_asleep s) s) ;; sleep_on chan.

(** ** Descriptors *)

Fixpoint alloc_desc_loop (i : Z) (k : nat) : M vstate Z :=
  match k with
  | O => mret (-1)
  | S k =>
      f ← dget (λ d, dk_free d !!! Z.to_nat i);
      if (f : bool) then upd_disk (λ d, set_free (<[Z.to_nat i := false]> (dk_free d)) d) ;; mret i
      else alloc_desc_loop (i + 1) k
  end.
Definition alloc_desc : M vstate Z := alloc_desc_loop 0 (Z.to_nat NUM).

Definition free_desc (i : Z) : M vstate unit :=
  if i >=? NUM then panic "free_desc 1"
  else
    f ← dget (λ d, dk_free d !!! Z.to_nat i);
    if (f : bool) then panic "free_desc 2"
    else
      write_desc i (Desc Null 0 0 0) ;;
      upd_disk (λ d, set_free (<[Z.to_nat i := true]> (dk_free d)) d) ;;
      wakeup FREE_CHAN.

#[global] Instance desc_inhabited : Inhabited virtq_desc := populate (Desc Null 0 0 0).
#[global] Instance req_inhabited : Inhabited virtio_blk_req := populate (Req 0 0 0).

(** Every round frees a descriptor that was in use. *)
Fixpoint free_chain_loop (i : Z) (fuel : nat) : M vstate unit :=
  match fuel with
  | O => nofuel
  | S fuel =>
      x ← dget (λ d, dk_desc d !!! Z.to_nat i);
      free_desc i ;;
      if has_bits (ds_flags x) VRING_DESC_F_NEXT then free_chain_loop (ds_next x) fuel else mret tt
  end.
Definition free_chain (i : Z) : M vstate unit := free_chain_loop i (Z.to_nat NUM + 1).

Fixpoint free_all (l : list Z) : M vstate unit :=
  match l with [] => mret tt | i :: l => free_desc i ;; free_all l end.
(** [idx] are the descriptors found so far, [k] is how many are missing. *)
Fixpoint alloc3_loop (idx : list Z) (k : nat) : M vstate (option (list Z)) :=
  match k with
  | O => mret (Some idx)
  | S k =>
      i ← alloc_desc;
      if i <? 0 then free_all idx ;; mret None else alloc3_loop (idx ++ [i]) k
  end.
Definition alloc3_desc : M vstate (option (list Z)) := alloc3_loop [] 3.

(** ** virtio_disk_rw *)

(** From [buf0] to the entry of the avail ring. *)
Definition rw_format (b : Z) (write : bool) (i0 i1 i2 : Z) : M vstate unit :=
  blockno ← gets (λ s, bf_blockno (vs_buf s b));
  let sector := u64 (u32 (blockno * (BSIZE / 512))) in
  upd_disk (λ d, set_ops (<[Z.to_nat i0 := Req (if write then VIRTIO_BLK_T_OUT else VIRTIO_BLK_T_IN) 0 sector]> (dk_ops d)) d) ;;
  write_desc i0 (Desc (OpAt i0) 16 VRING_DESC_F_NEXT i1) ;;
  write_desc i1 (Desc (DataOf b) BSIZE (Z.lor (if write then 0 else VRING_DESC_F_WRITE) VRING_DESC_F_NEXT) i2) ;;
  upd_disk (λ d, set_status (<[Z.to_nat i0 := 0xff]> (dk_status d)) d) ;;
  write_desc i2 (Desc (StatusAt i0) 1 VRING_DESC_F_WRITE 0) ;;
  set_bdisk b 1 ;;
  upd_disk (λ d, set_info_b (<[Z.to_nat i0 := Some b]> (dk_info_b d)) d) ;;
  upd_disk (λ d, set_avail (dk_avail_idx d) (<[Z.to_nat (dk_avail_idx d `mod` NUM) := i0]> (dk_avail_ring d)) d).

(** [avail->idx += 1]; the notification has no effect on the state. *)
Definition rw_post : M vstate unit := upd_disk (λ d, set_avail (wrap 16 (dk_avail_idx d + 1)) (dk_avail_ring d) d).

(** The wait for [virtio_disk_intr], and what follows it. *)
Definition rw_wait (me b i0 : Z) : M vstate unit :=
  k ← gets (λ s, bf_disk (vs_buf s b));
  if k =? 1 then sleep me b
  else
    upd_disk (λ d, set_info_b (<[Z.to_nat i0 := None]> (dk_info_b d)) d) ;;
    free_chain i0 ;;
    release_vdisk.

(** The descriptors, or sleep. *)
Definition rw_alloc (me b : Z) (write : bool) : M vstate (Z * Z * Z) :=
  r ← alloc3_desc;
  match r with
  | Some [i0; i1; i2] => rw_format b write i0 i1 i2 ;; mret (i0, i1, i2)
  | _ => sleep me FREE_CHAN
  end.
Definition rw_begin (me b : Z) (write : bool) : M vstate (Z * Z * Z) := acquire_vdisk ;; rw_alloc me b write.
Definition rw_end (me b i0 : Z) : M vstate unit := rw_post ;; rw_wait me b i0.
Definition virtio_disk_rw (me b : Z) (write : bool) : M vstate unit :=
  '(i0, _, _) ← rw_begin me b write; rw_end me b i0.
(** After [sleep] returned, with the lock taken again: looking for descriptors,
    and waiting for the disk. *)
Definition rw_alloc_resume (me b : Z) (write : bool) : M vstate (Z * Z * Z) := acquire_vdisk ;; rw_alloc me b write.
Definition rw_wait_resume (me b i0 : Z) : M vstate unit := acquire_vdisk ;; rw_wait me b i0.

(** ** virtio_disk_intr *)

(** A round of its loop; [false] when there is nothing left. *)
Definition intr_round : M vstate bool :=
  d ← gets vs_disk;
  if dk_seen d =? dk_used_idx d then mret false
  else
    let id := dk_used_ring d !!! Z.to_nat (dk_seen d `mod` NUM) in
    if negb (dk_status d !!! Z.to_nat id =? 0) then panic "virtio_disk_intr status"
    else
      match dk_info_b d !!! Z.to_nat id with
      | None => panic "kerneltrap"
      | Some b =>
          set_bdisk b 0 ;;
          wakeup b ;;
          upd_disk (λ d, set_seen (wrap 16 (dk_seen d + 1)) d) ;;
          mret true
      end.
Fixpoint intr_loop (fuel : nat) : M vstate unit :=
  match fuel with
  | O => nofuel
  | S fuel => more ← intr_round; if (more : bool) then intr_loop fuel else mret tt
  end.
(** At most [NUM] requests are finished. *)
Definition virtio_disk_intr : M vstate unit :=
  acquire_vdisk ;; intr_loop (Z.to_nat NUM + 1) ;; release_vdisk.

(** ** virtio_disk_init

    The registers of the device: [read] is what a register answers after the
    writes so far, which are listed with the last one first. *)
Definition VIRTIO_MMIO_MAGIC_VALUE : Z := 0x000.
Definition VIRTIO_MMIO_VERSION : Z := 0x004.
Definition VIRTIO_MMIO_DEVICE_ID : Z := 0x008.
Definition VIRTIO_MMIO_VENDOR_ID : Z := 0x00c.
Definition VIRTIO_MMIO_DEVICE_FEATURES : Z := 0x010.
Definition VIRTIO_MMIO_DRIVER_FEATURES : Z := 0x020.
Definition VIRTIO_MMIO_QUEUE_SEL : Z := 0x030.
Definition VIRTIO_MMIO_QUEUE_NUM_MAX : Z := 0x034.
Definition VIRTIO_MMIO_QUEUE_NUM : Z := 0x038.
Definition VIRTIO_MMIO_QUEUE_READY : Z := 0x044.
Definition VIRTIO_MMIO_STATUS : Z := 0x070.
Definition VIRTIO_MMIO_QUEUE_DESC_LOW : Z := 0x080.
Definition VIRTIO_MMIO_QUEUE_DESC_HIGH : Z := 0x084.
Definition VIRTIO_MMIO_DRIVER_DESC_LOW : Z := 0x090.
Definition VIRTIO_MMIO_DRIVER_DESC_HIGH : Z := 0x094.
Definition VIRTIO_MMIO_DEVICE_DESC_LOW : Z := 0x0a0.
Definition VIRTIO_MMIO_DEVICE_DESC_HIGH : Z := 0x0a4.
Definition VIRTIO_CONFIG_S_ACKNOWLEDGE : Z := 1.
Definition VIRTIO_CONFIG_S_DRIVER : Z := 2.
Definition VIRTIO_CONFIG_S_DRIVER_OK : Z := 4.
Definition VIRTIO_CONFIG_S_FEATURES_OK : Z := 8.
Definition VIRTIO_BLK_F_RO : Z := 5.
Definition VIRTIO_BLK_F_SCSI : Z := 7.
Definition VIRTIO_BLK_F_CONFIG_WCE : Z := 11.
Definition VIRTIO_BLK_F_MQ : Z := 12.
Definition VIRTIO_F_ANY_LAYOUT : Z := 27.
Definition VIRTIO_RING_F_INDIRECT_DESC : Z := 28.
Definition VIRTIO_RING_F_EVENT_IDX : Z := 29.

Record istate := IState { is_k : kstate; is_writes : list (Z * Z); is_v : vstate }.

Section init.
Variable read : list (Z * Z) → Z → Z.

Definition R (r : Z) : M istate Z := gets (λ s, u32 (read (is_writes s) r)).
Definition W (r v : Z) : M istate unit := modify (λ s, IState (is_k s) ((r, u32 v) :: is_writes s) (is_v s)).
Definition ikern {A} (m : M kstate A) : M istate A := zoom is_k (λ k s, IState k (is_writes s) (is_v s)) m.
(** [features &= ~(1 << k)] *)
Definition clear_bit (k features : Z) : Z := Z.land features (u64 (Z.lnot (Z.shiftl 1 k))).

(** The features that the driver leaves on. *)
Definition accepted (features : Z) : Z :=
  let features := clear_bit VIRTIO_BLK_F_RO features in
  let features := clear_bit VIRTIO_BLK_F_SCSI features in
  let features := clear_bit VIRTIO_BLK_F_CONFIG_WCE features in
  let features := clear_bit VIRTIO_BLK_F_MQ features in
  let features := clear_bit VIRTIO_F_ANY_LAYOUT features in
  let features := clear_bit VIRTIO_RING_F_EVENT_IDX features in
  clear_bit VIRTIO_RING_F_INDIRECT_DESC features.

(** The three pages are zeroed, so the queue is empty; [disk] itself is a
    static variable. *)
Definition fresh_disk : disk :=
  Disk (replicate 8 (Desc Null 0 0 0)) 0 (replicate 8 0) 0 (replicate 8 0) (replicate 8 true) 0
    (replicate 8 None) (replicate 8 0) (replicate 8 (Req 0 0 0)).

Definition virtio_disk_init : M istate unit :=
  modify (λ s, IState (is_k s) (is_writes s) (put_lock false (is_v s))) ;;
  magic ← R VIRTIO_MMIO_MAGIC_VALUE;
  version ← R VIRTIO_MMIO_VERSION;
  device ← R VIRTIO_MMIO_DEVICE_ID;
  vendor ← R VIRTIO_MMIO_VENDOR_ID;
  if negb (magic =? 0x74726976) || negb (version =? 2) || negb (device =? 2) || negb (vendor =? 0x554d4551) then
    panic "could not find virtio disk"
  else
    let status := 0 in
    W VIRTIO_MMIO_STATUS status ;;
    let status := Z.lor status VIRTIO_CONFIG_S_ACKNOWLEDGE in
    W VIRTIO_MMIO_STATUS status ;;
    let status := Z.lor status VIRTIO_CONFIG_S_DRIVER in
    W VIRTIO_MMIO_STATUS status ;;
    features ← R VIRTIO_MMIO_DEVICE_FEATURES;
    W VIRTIO_MMIO_DRIVER_FEATURES (accepted features) ;;
    let status := Z.lor status VIRTIO_CONFIG_S_FEATURES_OK in
    W VIRTIO_MMIO_STATUS status ;;
    status ← R VIRTIO_MMIO_STATUS;
    if negb (has_bits status VIRTIO_CONFIG_S_FEATURES_OK) then panic "virtio disk FEATURES_OK unset"
    else
      W VIRTIO_MMIO_QUEUE_SEL 0 ;;
      ready ← R VIRTIO_MMIO_QUEUE_READY;
      if negb (ready =? 0) then panic "virtio disk should not be ready"
      else
        max ← R VIRTIO_MMIO_QUEUE_NUM_MAX;
        if max =? 0 then panic "virtio disk has no queue 0"
        else if max <? NUM then panic "virtio disk max queue too short"
        else
          desc ← ikern kalloc;
          avail ← ikern kalloc;
          used ← ikern kalloc;
          if (desc =? 0) || (avail =? 0) || (used =? 0) then panic "virtio disk kalloc"
          else
            ikern (upd_mem (λ m, memset m desc 0 PGSIZE)) ;;
            ikern (upd_mem (λ m, memset m avail 0 PGSIZE)) ;;
            ikern (upd_mem (λ m, memset m used 0 PGSIZE)) ;;
            W VIRTIO_MMIO_QUEUE_NUM NUM ;;
            W VIRTIO_MMIO_QUEUE_DESC_LOW desc ;;
            W VIRTIO_MMIO_QUEUE_DESC_HIGH (Z.shiftr desc 32) ;;
            W VIRTIO_MMIO_DRIVER_DESC_LOW avail ;;
            W VIRTIO_MMIO_DRIVER_DESC_HIGH (Z.shiftr avail 32) ;;
            W VIRTIO_MMIO_DEVICE_DESC_LOW used ;;
            W VIRTIO_MMIO_DEVICE_DESC_HIGH (Z.shiftr used 32) ;;
            W VIRTIO_MMIO_QUEUE_READY 1 ;;
            modify (λ s, IState (is_k s) (is_writes s) (put_disk fresh_disk (is_v s))) ;;
            W VIRTIO_MMIO_STATUS (Z.lor status VIRTIO_CONFIG_S_DRIVER_OK).
End init.

(** ** What the operations of the disk driver do *)

From S2P Require Import Ring.

Definition at_ {A} (l : list A) (i : Z) : option A := l !! Z.to_nat i.
Definition sized (d : disk) : Prop := length (dk_free d) = 8%nat ∧ length (dk_desc d) = 8%nat.

Lemma at_lookup {A} `{Inhabited A} (l : list A) i : length l = 8%nat → 0 ≤ i < 8 → at_ l i = Some (l !!! Z.to_nat i).
Proof. intros Hl Hi. apply list_lookup_lookup_total_lt. lia. Qed.
Lemma at_total {A} `{Inhabited A} (l : list A) i x : at_ l i = Some x → l !!! Z.to_nat i = x.
Proof. apply list_lookup_total_correct. Qed.
Lemma at_put {A} (l : list A) i j x : length l = 8%nat → 0 ≤ i < 8 → 0 ≤ j →
  at_ (<[Z.to_nat i := x]> l) j = if decide (i = j) then Some x else at_ l j.
Proof.
  intros Hl Hi Hj. unfold at_. destruct (decide (i = j)) as [->|Hn]; [apply list_lookup_insert_eq; lia|].
  apply list_lookup_insert_ne. lia.
Qed.

(** ** Descriptors *)

Definition take (i : Z) (v : vstate) : vstate := put_disk (set_free (<[Z.to_nat i := false]> (dk_free (vs_disk v))) (vs_disk v)) v.
Definition give (i : Z) (v : vstate) : vstate :=
  VState (set_free (<[Z.to_nat i := true]> (dk_free (vs_disk v))) (set_desc (<[Z.to_nat i := Desc Null 0 0 0]> (dk_desc (vs_disk v))) (vs_disk v)))
    (vs_buf v) (vs_lock v) (List.filter (λ x, negb (x.2 =? FREE_CHAN)) (vs_asleep v)).
Definition is_free (v : vstate) (i : Z) : Prop := 0 ≤ i < 8 ∧ at_ (dk_free (vs_disk v)) i = Some true.
Definition is_taken (v : vstate) (i : Z) : Prop := 0 ≤ i < 8 ∧ at_ (dk_free (vs_disk v)) i = Some false.

Lemma alloc_desc_loop_spec (Q : Z → vstate → Prop) v i k : sized (vs_disk v) → 0 ≤ i → i + Z.of_nat k = 8 → (∀ j, 0 ≤ j < i → is_taken v j) →
  ((∀ j, 0 ≤ j < 8 → is_taken v j) → Q (-1) v) → (∀ j, is_free v j → Q j (take j v)) → wp (alloc_desc_loop i k) Q v.
Proof.
  revert i. induction k as [|k IH]; intros i Hs Hi Hk Hb H1 H2; cbn [alloc_desc_loop].
  - apply wp_ret, H1. intros j Hj. apply Hb. lia.
  - apply wp_bind, wp_gets. pose proof (at_lookup (dk_free (vs_disk v)) i (proj1 Hs) ltac:(lia)) as E. destruct (_ !!! _).
    + apply wp_bind, wp_modify, wp_ret, H2. split; [lia|done].
    + apply IH; auto; [lia|lia|]. intros j Hj. destruct (decide (j = i)) as [->|]; [split; [lia|done]|apply Hb; lia].
Qed.
Lemma alloc_desc_spec (Q : Z → vstate → Prop) v : sized (vs_disk v) →
  ((∀ j, 0 ≤ j < 8 → is_taken v j) → Q (-1) v) → (∀ j, is_free v j → Q j (take j v)) → wp alloc_desc Q v.
Proof. intros Hs. apply alloc_desc_loop_spec; [done|lia|done|lia]. Qed.

Lemma free_desc_spec (Q : unit → vstate → Prop) v i : sized (vs_disk v) → is_taken v i → Q tt (give i v) → wp (free_desc i) Q v.
Proof.
  intros Hs [Hi Hf] HQ. unfold free_desc. replace (i >=? NUM) with false by (unfold NUM; symmetry; rewrite Z.geb_leb; apply Z.leb_gt; lia).
  apply wp_bind, wp_gets. rewrite (at_total _ _ _ Hf). repeat (wp_step || apply wp_modify || unfold write_desc, upd_disk, wakeup). done.
Qed.

Lemma sized_take i v : sized (vs_disk v) → sized (vs_disk (take i v)).
Proof. unfold sized. simpl. by rewrite length_insert. Qed.
Lemma sized_give i v : sized (vs_disk v) → sized (vs_disk (give i v)).
Proof. unfold sized. simpl. by rewrite !length_insert. Qed.
Lemma taken_take i j v : sized (vs_disk v) → is_free v i → is_taken v j ∨ i = j → is_taken (take i v) j.
Proof.
  intros Hs [Hi Hf] Hj. assert (Hj' : 0 ≤ j < 8) by (destruct Hj as [[]| ->]; lia). split; [done|]. simpl. rewrite at_put by (try apply Hs; lia).
  destruct (decide (i = j)); [done|]. destruct Hj as [[]|]; done.
Qed.
Lemma free_take i j v : sized (vs_disk v) → is_free v i → is_free (take i v) j ↔ is_free v j ∧ i ≠ j.
Proof.
  intros Hs [Hi Hf]. unfold is_free. split; intros H.
  - destruct H as [Hj H]. simpl in H. rewrite at_put in H by (try apply Hs; lia). destruct (decide (i = j)); [done|done].
  - destruct H as [[Hj H] ?]. simpl. rewrite at_put by (try apply Hs; lia). by rewrite decide_False.
Qed.
Lemma taken_before i j v : sized (vs_disk v) → 0 ≤ i < 8 → i ≠ j → is_taken (take i v) j → is_taken v j.
Proof. intros Hs Hi Hn [Hj H]. split; [done|]. simpl in H. rewrite at_put in H by (try apply Hs; lia). by rewrite decide_False in H. Qed.

(** Descriptors were given back after all: only what they hold has changed. *)
Definition put_back (v v' : vstate) : Prop := ∃ x, vs_disk v' = set_desc x (vs_disk v) ∧ length x = 8%nat ∧
  (∀ k, 0 ≤ k → ¬ is_free v k → at_ x k = at_ (dk_desc (vs_disk v)) k) ∧
  vs_buf v' = vs_buf v ∧ vs_lock v' = vs_lock v ∧ vs_asleep v' ⊆ vs_asleep v.

Lemma put_back_refl v : sized (vs_disk v) → put_back v v.
Proof. intros Hs. exists (dk_desc (vs_disk v)). split_and!; try done; [by destruct v as [[]]|apply Hs]. Qed.
Lemma put_back_trans v v' v'' : put_back v v' → put_back v' v'' → put_back v v''.
Proof.
  intros (x & E & Hl & Hx & Eb & El & Ea) (x' & E' & Hl' & Hx' & Eb' & El' & Ea'). exists x'. rewrite E', E. split_and!; try done; try congruence.
  - intros k Hk Hf. rewrite Hx'; [rewrite E; by apply Hx|done|]. unfold is_free. rewrite E. exact Hf.
  - by etrans.
Qed.
Lemma filter_subset {A} (f : A → bool) l : List.filter f l ⊆ l.
Proof. intros x Hx. apply list_elem_of_In, List.filter_In in Hx as [Hx _]. by apply list_elem_of_In. Qed.
Lemma give_take i v : sized (vs_disk v) → is_free v i → put_back v (give i (take i v)).
Proof.
  intros Hs [Hi Hf]. exists (<[Z.to_nat i := Desc Null 0 0 0]> (dk_desc (vs_disk v))). split_and!; try done.
  - unfold give, take, set_desc, set_free, put_disk. simpl. rewrite list_insert_insert_eq, (list_insert_id (dk_free _)) by exact Hf. done.
  - rewrite length_insert. apply Hs.
  - intros k Hk Hn. rewrite at_put by (try apply Hs; lia). destruct (decide (i = k)) as [->|]; [by destruct Hn|done].
  - apply filter_subset.
Qed.
Lemma give_take_commute i j v : 0 ≤ i → 0 ≤ j → i ≠ j → give i (take j v) = take j (give i v).
Proof.
  intros Hi Hj Hn. unfold give, take, set_desc, set_free, put_disk. simpl. do 2 f_equal. apply list_insert_insert_ne. lia.
Qed.
Lemma someone_taken (P : Z → Prop) a b : (∀ j, 0 ≤ j < 8 → j ≠ a → j ≠ b → P j) → ∃ k, P k.
Proof.
  intros H. destruct (decide (0 = a ∨ 0 = b)) as [H0|]; [|exists 0; apply H; lia].
  destruct (decide (1 = a ∨ 1 = b)); [|exists 1; apply H; lia]. exists 2. apply H; lia.
Qed.

(** Three free descriptors, or not all descriptors are free. *)
Lemma alloc3_spec (Q : option (list Z) → vstate → Prop) v : sized (vs_disk v) →
  (∀ v', put_back v v' → (∃ k, is_taken v k) → Q None v') →
  (∀ a b c, is_free v a → is_free v b → is_free v c → NoDup [a; b; c] → Q (Some [a; b; c]) (take c (take b (take a v)))) →
  wp alloc3_desc Q v.
Proof.
  intros Hs HN HS. unfold alloc3_desc. cbn [alloc3_loop]. apply wp_bind, alloc_desc_spec; [done|..].
  { intros Ht. cbn -[wp]. apply wp_bind, wp_ret, wp_ret, HN; [by apply put_back_refl|]. exists 0. apply Ht. lia. }
  intros a Ha. replace (a <? 0) with false by (symmetry; apply Z.ltb_ge, Ha). assert (Hs1 := sized_take a v Hs). apply wp_bind, alloc_desc_spec; [done|..].
  { intros Ht. cbn -[wp free_desc]. apply wp_bind, wp_bind, free_desc_spec; [done|by apply taken_take; auto|]. apply wp_ret, wp_ret, HN; [by apply give_take|].
    apply (someone_taken _ a a). intros j Hj Hn _. apply (taken_before a); auto. apply Ha. }
  intros b Hb. replace (b <? 0) with false by (symmetry; apply Z.ltb_ge, Hb). apply free_take in Hb as [Hb Hab]; [|done..].
  assert (Hb1 : is_free (take a v) b) by (by apply free_take). assert (Hs2 := sized_take b _ Hs1). apply wp_bind, alloc_desc_spec; [done|..].
  { intros Ht. cbn -[wp free_desc]. apply wp_bind, wp_bind, free_desc_spec; [done|apply taken_take; auto; left; by apply taken_take; auto|].
    rewrite give_take_commute by (try apply Ha; try apply Hb; done). pose proof (give_take a v Hs Ha) as P1. destruct (P1) as (x & E & Hl & _).
    assert (Hs3 : sized (vs_disk (give a (take a v)))) by (by apply sized_give).
    assert (Hb3 : is_free (give a (take a v)) b) by (unfold is_free; rewrite E; exact Hb).
    apply wp_bind, free_desc_spec; [by apply sized_take|by apply taken_take; auto|]. apply wp_ret, wp_ret, HN.
    - eapply put_back_trans; [exact P1|]. by apply give_take.
    - apply (someone_taken _ a b). intros j Hj ??. apply (taken_before a), (taken_before b); auto; [apply Ha|apply Hb]. }
  intros c Hc. replace (c <? 0) with false by (symmetry; apply Z.ltb_ge, Hc). apply free_take in Hc as [Hc Hbc]; [|done..].
  apply free_take in Hc as [Hc Hac]; [|done..]. apply wp_ret, HS; auto. repeat constructor; set_solver.
Qed.

(** A chain of three descriptors is freed. *)
Lemma has_next b : has_bits (Z.lor (if b : bool then 0 else VRING_DESC_F_WRITE) VRING_DESC_F_NEXT) VRING_DESC_F_NEXT = true.
Proof. by destruct b. Qed.
Lemma free_chain_spec (Q : unit → vstate → Prop) v x y z h m s : sized (vs_disk v) → NoDup [h; m; s] → is_taken v h → is_taken v m → is_taken v s →
  at_ (dk_desc (vs_disk v)) h = Some x → at_ (dk_desc (vs_disk v)) m = Some y → at_ (dk_desc (vs_disk v)) s = Some z →
  has_bits (ds_flags x) VRING_DESC_F_NEXT = true → ds_next x = m → has_bits (ds_flags y) VRING_DESC_F_NEXT = true → ds_next y = s →
  has_bits (ds_flags z) VRING_DESC_F_NEXT = false → Q tt (give s (give m (give h v))) → wp (free_chain h) Q v.
Proof.
  intros Hs HN Hh Hm Hz Eh Em Ez Fx <- Fy <- Fz HQ. apply NoDup_cons in HN as [N1 N2]. apply NoDup_cons in N2 as [N2 _].
  assert (G : ∀ i j w, sized (vs_disk w) → i ≠ j → 0 ≤ i < 8 → is_taken w j → is_taken (give i w) j).
  { intros i j w Hw Hn Hi [Hj Hf]. split; [done|]. simpl. rewrite at_put by (try apply Hw; lia). by rewrite decide_False. }
  assert (D : ∀ i j w, sized (vs_disk w) → i ≠ j → 0 ≤ i < 8 → 0 ≤ j → at_ (dk_desc (vs_disk (give i w))) j = at_ (dk_desc (vs_disk w)) j).
  { intros i j w Hw Hn Hi Hj. simpl. rewrite at_put by (try apply Hw; lia). by rewrite decide_False. }
  pose proof (proj1 Hh). pose proof (proj1 Hm). pose proof (proj1 Hz).
  assert (h ≠ ds_next x) by set_solver. assert (h ≠ ds_next y) by set_solver. assert (ds_next x ≠ ds_next y) by set_solver.
  unfold free_chain. change (Z.to_nat NUM + 1)%nat with 9%nat. cbn [free_chain_loop]. apply wp_bind, wp_gets. rewrite (at_total _ _ _ Eh).
  apply wp_bind, free_desc_spec; [done|done|]. rewrite Fx. apply wp_bind, wp_gets. rewrite (at_total _ (ds_next x) y) by (rewrite D by (done || lia); done).
  apply wp_bind, free_desc_spec; [by apply sized_give|by apply G|]. rewrite Fy. apply wp_bind, wp_gets.
  rewrite (at_total _ (ds_next y) z) by (rewrite !D by (by repeat apply sized_give) || (done || lia); done).
  apply wp_bind, free_desc_spec; [by do 2 apply sized_give|apply G; auto using sized_give|]. rewrite Fz. by apply wp_ret.
Qed.

(** ** virtio_disk_rw *)

(** The request is written down. *)
Definition formatted (b : Z) (write : bool) (h m s : Z) (v : vstate) : vstate :=
  let d := vs_disk v in
  VState
    (Disk
       (<[Z.to_nat s := Desc (StatusAt h) 1 VRING_DESC_F_WRITE 0]>
          (<[Z.to_nat m := Desc (DataOf b) BSIZE (Z.lor (if write then 0 else VRING_DESC_F_WRITE) VRING_DESC_F_NEXT) s]>
             (<[Z.to_nat h := Desc (OpAt h) 16 VRING_DESC_F_NEXT m]> (dk_desc d))))
       (dk_avail_idx d) (<[Z.to_nat (dk_avail_idx d `mod` NUM) := h]> (dk_avail_ring d)) (dk_used_idx d) (dk_used_ring d)
       (dk_free d) (dk_seen d) (<[Z.to_nat h := Some b]> (dk_info_b d)) (<[Z.to_nat h := 0xff]> (dk_status d))
       (<[Z.to_nat h := Req (if write then VIRTIO_BLK_T_OUT else VIRTIO_BLK_T_IN) 0 (u64 (u32 (bf_blockno (vs_buf v b) * (BSIZE / 512))))]> (dk_ops d)))
    (<[b := DBuf 1 (bf_blockno (vs_buf v b)) (bf_data (vs_buf v b))]> (vs_buf v)) (vs_lock v) (vs_asleep v).
Definition fell_asleep (me c : Z) (v : vstate) : vstate := VState (vs_disk v) (vs_buf v) false ((me, c) :: vs_asleep v).
Definition taken3 (h m s : Z) (v : vstate) : vstate := take s (take m (take h v)).

Lemma wps_sleep {A} me c (Q : A → vstate → Prop) R v : vs_lock v = true → R (fell_asleep me c v) → wps (sleep me c) Q R v.
Proof. intros Hl HR. unfold sleep, release_vdisk. apply wps_bind_wp. apply wp_release; [done|]. apply wps_bind_wp, wp_modify. done. Qed.

Lemma rw_begin_spec me b write (Q : Z * Z * Z → vstate → Prop) R v : sized (vs_disk v) → vs_lock v = false →
  (∀ v', put_back (put_lock true v) v' → (∃ k, is_taken v k) → R (fell_asleep me FREE_CHAN v')) →
  (∀ h m s, is_free v h → is_free v m → is_free v s → NoDup [h; m; s] → Q (h, m, s) (formatted b write h m s (taken3 h m s (put_lock true v)))) →
  wps (rw_begin me b write) Q R v.
Proof.
  intros Hs Hl HR HQ. unfold rw_begin, rw_alloc. apply wps_bind_wp, wp_acquire; [done|]. apply wps_bind_wp, alloc3_spec; [done|..].
  - intros v' Hp Ht. apply wps_sleep; [|by apply HR]. destruct Hp as (x & _ & _ & _ & _ & -> & _). done.
  - intros h m s Hh Hm Hz HN. apply wps_wp. unfold rw_format, write_desc, upd_disk, set_bdisk. wp_steps.
    apply (HQ h m s); done.
Qed.

Lemma rw_wait_sleeps me b h (Q : unit → vstate → Prop) R v : vs_lock v = true → bf_disk (vs_buf v b) = 1 → R (fell_asleep me b v) →
  wps (rw_wait me b h) Q R v.
Proof. intros Hl Hb HR. unfold rw_wait. apply wps_bind_wp, wp_gets. rewrite Hb. simpl. by apply wps_sleep. Qed.

Definition forget_info (h : Z) (v : vstate) : vstate := put_disk (set_info_b (<[Z.to_nat h := None]> (dk_info_b (vs_disk v))) (vs_disk v)) v.
Definition given3 (h m s : Z) (v : vstate) : vstate := give s (give m (give h v)).

(** ** A round of virtio_disk_intr *)

Definition reported (b : Z) (v : vstate) : vstate :=
  VState (set_seen (wrap 16 (dk_seen (vs_disk v) + 1)) (vs_disk v)) (<[b := DBuf 0 (bf_blockno (vs_buf v b)) (bf_data (vs_buf v b))]> (vs_buf v))
    (vs_lock v) (List.filter (λ x, negb (x.2 =? b)) (vs_asleep v)).
Lemma intr_round_done v : dk_seen (vs_disk v) = dk_used_idx (vs_disk v) → intr_round v = Ok false v.
Proof. intros E. unfold intr_round, gets, mbind, M_bind. rewrite E, Z.eqb_refl. done. Qed.
Lemma intr_round_more v h b : dk_seen (vs_disk v) ≠ dk_used_idx (vs_disk v) → dk_used_ring (vs_disk v) !!! Z.to_nat (dk_seen (vs_disk v) `mod` 8) = h →
  at_ (dk_status (vs_disk v)) h = Some 0 → at_ (dk_info_b (vs_disk v)) h = Some (Some b) → intr_round v = Ok true (reported b v).
Proof.
  intros E <- Es Ei. unfold intr_round, gets, mbind, M_bind. rewrite (proj2 (Z.eqb_neq _ _) E). change NUM with 8.
  rewrite (at_total _ _ _ Es), (at_total _ _ _ Ei). done.
Qed.
