(* ===== verification/VirtioSys.v ===== *)
(** * The disk driver, the device, and the threads that use them

    The steps of the whole system: threads call [virtio_disk_rw], interrupts
    run [virtio_disk_intr] round by round, and the device works on requests.
    Between two of these steps any other may happen, as far as the lock
    allows.  The device is a relation [dev]; [virtio_device] is what the
    virtio specification promises of it: it takes requests from the avail
    ring, completes them in any order and reports them in the used ring. *)
From S2P Require Import Prelude Kstring Kalloc Block Ring Virtio.

(** ** Threads *)

(** A thread is looking for descriptors; has formatted the ones it got; waits
    for the disk; has returned. *)
Inductive pc := PAlloc | PPost (h m s : Z) | PWait (h m s : Z) | PDone.
#[global] Instance pc_eq_dec : EqDecision pc.
Proof. solve_decision. Defined.
(** [th_data] and [th_block] are what the buffer and the disk's block held
    when [virtio_disk_rw] was called. *)
Record thread := Thread { th_b : Z; th_write : bool; th_pc : pc; th_data : list Z; th_block : list Z }.
Definition set_pc x th := Thread (th_b th) (th_write th) x (th_data th) (th_block th).
Definition triple (th : thread) : list Z := match th_pc th with PPost h m s | PWait h m s => [h; m; s] | _ => [] end.

Record vsys := VSys {
  y_v : vstate;
  y_blocks : Z → list Z;      (* the disk *)
  y_seen : Z;                 (* how far the device has read the avail ring *)
  y_active : list Z;          (* the requests it works on *)
  y_thr : gmap Z thread;
  y_intr : bool               (* virtio_disk_intr is running *)
}.
Definition set_v v y := VSys v (y_blocks y) (y_seen y) (y_active y) (y_thr y) (y_intr y).
Definition set_thr t y := VSys (y_v y) (y_blocks y) (y_seen y) (y_active y) t (y_intr y).
Definition set_intr b y := VSys (y_v y) (y_blocks y) (y_seen y) (y_active y) (y_thr y) b.
Definition y_disk y := vs_disk (y_v y).
Definition y_buf y b := vs_buf (y_v y) b.

(** ** The device *)

(** A request: whether it is a write, its block, its buffer and the place of
    its status; [None] if the chain of descriptors is not well-formed. *)
Definition dev_request (d : disk) (h : Z) : option (bool * Z * Z * Z) :=
  let d0 := dk_desc d !!! Z.to_nat h in
  let d1 := dk_desc d !!! Z.to_nat (ds_next d0) in
  let d2 := dk_desc d !!! Z.to_nat (ds_next d1) in
  match ds_addr d0, ds_addr d1, ds_addr d2 with
  | OpAt o, DataOf b, StatusAt i =>
      let rq := dk_ops d !!! Z.to_nat o in
      let write := rq_type rq =? VIRTIO_BLK_T_OUT in
      if has_bits (ds_flags d0) VRING_DESC_F_NEXT && has_bits (ds_flags d1) VRING_DESC_F_NEXT && negb (has_bits (ds_flags d2) VRING_DESC_F_NEXT) &&
         (ds_len d0 =? 16) && (ds_len d1 =? BSIZE) && (ds_len d2 =? 1) &&
         Bool.eqb (has_bits (ds_flags d1) VRING_DESC_F_WRITE) (negb write) && has_bits (ds_flags d2) VRING_DESC_F_WRITE
      then Some (write, rq_sector rq / 2, b, i) else None
  | _, _, _ => None
  end.

Definition dev_fetch (y : vsys) : vsys :=
  let d := y_disk y in
  VSys (y_v y) (y_blocks y) (wrap 16 (y_seen y + 1)) (y_active y ++ [dk_avail_ring d !!! Z.to_nat (y_seen y `mod` NUM)]) (y_thr y) (y_intr y).

Definition dev_complete (h : Z) (y : vsys) : option vsys :=
  let v := y_v y in
  let d := vs_disk v in
  '(write, blk, b, i) ← dev_request d h;
  let x := vs_buf v b in
  let d' := set_used (wrap 16 (dk_used_idx d + 1)) (<[Z.to_nat (dk_used_idx d `mod` NUM) := h]> (dk_used_ring d))
              (set_status (<[Z.to_nat i := 0]> (dk_status d)) d) in
  Some (VSys (put_buf b (if (write : bool) then x else DBuf (bf_disk x) (bf_blockno x) (y_blocks y blk)) (put_disk d' v))
          (if (write : bool) then <[blk := bf_data x]> (y_blocks y) else y_blocks y)
          (y_seen y) (list_difference (y_active y) [h]) (y_thr y) (y_intr y)).

(** [None] is a request that is not well-formed. *)
Definition virtio_device (dev : vsys → option vsys → Prop) : Prop := ∀ y o, dev y o →
  (y_seen y ≠ dk_avail_idx (y_disk y) ∧ o = Some (dev_fetch y)) ∨ (∃ h, h ∈ y_active y ∧ o = dev_complete h y).
(** It does not stop while there are requests. *)
Definition device_works (dev : vsys → option vsys → Prop) : Prop := ∀ y,
  y_seen y ≠ dk_avail_idx (y_disk y) ∨ y_active y ≠ [] → ∃ o, dev y o.

(** ** Steps *)

Section steps.
Variable dev : vsys → option vsys → Prop.

Definition awake (i : Z) (y : vsys) : Prop := ∀ c, (i, c) ∉ vs_asleep (y_v y).
(** Is the buffer, or its block, in use? *)
Definition unused (b : Z) (y : vsys) : Prop := ∀ j th, y_thr y !! j = Some th → th_b th ≠ b.
Definition fresh_block (k : Z) (y : vsys) : Prop := ∀ j th, y_thr y !! j = Some th → bf_blockno (y_buf y (th_b th)) ≠ k.

(** The thread [i] goes on to [p] when its call returns, to [q] when it
    sleeps; a panic is [None]. *)
Definition thread_result {A} (i : Z) (th : thread) (y : vsys) (o : outcome vstate A) (p : A → pc) (q : pc) : option vsys :=
  match o with
  | Ok a v => Some (set_v v (set_thr (<[i := set_pc (p a) th]> (y_thr y)) y))
  | Sleep _ v => Some (set_v v (set_thr (<[i := set_pc q th]> (y_thr y)) y))
  | _ => None
  end.

(** [None] is a panic or a request that is not well-formed. *)
Inductive vstep (y : vsys) : option vsys → Prop :=
  | S_call i b write :
      y_thr y !! i = None → awake i y → unused b y → fresh_block (bf_blockno (y_buf y b)) y → 0 ≤ b → 0 ≤ bf_blockno (y_buf y b) < 2 ^ 31 →
      vstep y (Some (set_thr (<[i := Thread b write PAlloc (bf_data (y_buf y b)) (y_blocks y (bf_blockno (y_buf y b)))]> (y_thr y)) y))
  | S_alloc i th :
      y_thr y !! i = Some th → th_pc th = PAlloc → awake i y → vs_lock (y_v y) = false →
      vstep y (thread_result i th y (rw_begin i (th_b th) (th_write th) (y_v y)) (λ x, PPost x.1.1 x.1.2 x.2) PAlloc)
  | S_post i th h m s :
      y_thr y !! i = Some th → th_pc th = PPost h m s →
      vstep y (thread_result i th y (rw_end i (th_b th) h (y_v y)) (λ _, PDone) (PWait h m s))
  | S_wait i th h m s :
      y_thr y !! i = Some th → th_pc th = PWait h m s → awake i y → vs_lock (y_v y) = false →
      vstep y (thread_result i th y (rw_wait_resume i (th_b th) h (y_v y)) (λ _, PDone) (PWait h m s))
  | S_return i th :
      y_thr y !! i = Some th → th_pc th = PDone → vstep y (Some (set_thr (delete i (y_thr y)) y))
  | S_touch b x :
      unused b y → vstep y (Some (set_v (put_buf b x (y_v y)) y))
  | S_intr :
      vs_lock (y_v y) = false → vstep y (Some (set_intr true (set_v (put_lock true (y_v y)) y)))
  | S_round :
      y_intr y = true →
      vstep y (match intr_round (y_v y) with
               | Ok true v => Some (set_v v y)
               | Ok false v => Some (set_intr false (set_v (put_lock false v) y))
               | _ => None
               end)
  | S_device o : dev y o → vstep y o.

(** The state that [virtio_disk_init] leaves. *)
Definition start (bufs : Z → dbuf) (blocks : Z → list Z) : vsys :=
  VSys (VState fresh_disk bufs false []) blocks 0 [] ∅ false.

Inductive reachable (y0 : vsys) : vsys → Prop :=
  | R_start : reachable y0 y0
  | R_step y y' : reachable y0 y → vstep y (Some y') → reachable y0 y'.

End steps.

(** ** The invariant of the disk driver *)

(** ** Requests on their way *)

(** The heads posted and not yet taken by the device, and all that are not
    completed; the ones completed and not yet seen by the driver. *)
Definition posted (y : vsys) : list Z :=
  queue 16 8 (dk_avail_ring (y_disk y)) (y_seen y) (dk_avail_idx (y_disk y)).
Definition unseen (y : vsys) : list Z :=
  queue 16 8 (dk_used_ring (y_disk y)) (dk_seen (y_disk y)) (dk_used_idx (y_disk y)).
Definition flight (y : vsys) : list Z := posted y ++ y_active y.

Definition blk (y : vsys) (th : thread) : Z := bf_blockno (y_buf y (th_b th)).
Definition disk_of (y : vsys) (th : thread) : list Z := y_blocks y (blk y th).
Definition data_of (y : vsys) (th : thread) : list Z := bf_data (y_buf y (th_b th)).

(** Nothing was transferred yet, and everything was. *)
Definition pending (y : vsys) (th : thread) : Prop := disk_of y th = th_block th ∧ data_of y th = th_data th.
Definition finished (y : vsys) (th : thread) : Prop :=
  disk_of y th = data_of y th ∧ if th_write th then data_of y th = th_data th else disk_of y th = th_block th.

Record chain_ok (y : vsys) (th : thread) (h m s : Z) : Prop := {
  ch_head : at_ (dk_desc (y_disk y)) h = Some (Desc (OpAt h) 16 VRING_DESC_F_NEXT m);
  ch_data : at_ (dk_desc (y_disk y)) m =
    Some (Desc (DataOf (th_b th)) BSIZE (Z.lor (if th_write th then 0 else VRING_DESC_F_WRITE) VRING_DESC_F_NEXT) s);
  ch_status : at_ (dk_desc (y_disk y)) s = Some (Desc (StatusAt h) 1 VRING_DESC_F_WRITE 0);
  ch_op : at_ (dk_ops (y_disk y)) h =
    Some (Req (if th_write th then VIRTIO_BLK_T_OUT else VIRTIO_BLK_T_IN) 0 (2 * blk y th));
  ch_info : at_ (dk_info_b (y_disk y)) h = Some (Some (th_b th))
}.

(** Where a waiting request is: on its way, completed, seen. *)
Inductive where_is (y : vsys) (th : thread) (h : Z) : Prop :=
  | W_flight : bf_disk (y_buf y (th_b th)) = 1 → h ∈ flight y → h ∉ unseen y → pending y th → where_is y th h
  | W_unseen : bf_disk (y_buf y (th_b th)) = 1 → h ∈ unseen y → h ∉ flight y → finished y th → at_ (dk_status (y_disk y)) h = Some 0 → where_is y th h
  | W_seen : bf_disk (y_buf y (th_b th)) = 0 → h ∉ unseen y → h ∉ flight y → finished y th → where_is y th h.

Definition thread_ok (y : vsys) (th : thread) : Prop :=
  match th_pc th with
  | PAlloc => pending y th
  | PPost h m s => chain_ok y th h m s ∧ pending y th ∧ bf_disk (y_buf y (th_b th)) = 1 ∧ h ∉ flight y ∧ h ∉ unseen y ∧
      at_ (dk_avail_ring (y_disk y)) (dk_avail_idx (y_disk y) `mod` 8) = Some h
  | PWait h m s => chain_ok y th h m s ∧ where_is y th h
  | PDone => finished y th
  end.

Definition head_of (th : thread) : option Z := match th_pc th with PWait h _ _ => Some h | _ => None end.
Definition is_post (th : thread) : Prop := match th_pc th with PPost _ _ _ => True | _ => False end.
(** What a sleeping thread waits for has not happened. *)
Definition sleeps_for (y : vsys) (th : thread) (c : Z) : Prop :=
  match th_pc th with
  | PAlloc => c = FREE_CHAN ∧ ∃ k, is_taken (y_v y) k
  | PWait _ _ _ => c = th_b th ∧ bf_disk (y_buf y (th_b th)) = 1
  | _ => False
  end.

(** The lists have eight elements and the indices 16 bits. *)
Record shape (y : vsys) : Prop := {
  sh_desc : length (dk_desc (y_disk y)) = 8%nat;
  sh_aring : length (dk_avail_ring (y_disk y)) = 8%nat;
  sh_uring : length (dk_used_ring (y_disk y)) = 8%nat;
  sh_free : length (dk_free (y_disk y)) = 8%nat;
  sh_info : length (dk_info_b (y_disk y)) = 8%nat;
  sh_status : length (dk_status (y_disk y)) = 8%nat;
  sh_ops : length (dk_ops (y_disk y)) = 8%nat;
  sh_aidx : 0 ≤ dk_avail_idx (y_disk y) < 2 ^ 16;
  sh_uidx : 0 ≤ dk_used_idx (y_disk y) < 2 ^ 16;
  sh_seen : 0 ≤ dk_seen (y_disk y) < 2 ^ 16;
  sh_yseen : 0 ≤ y_seen y < 2 ^ 16
}.

(** No two threads share descriptors, a buffer or a block. *)
Record own (y : vsys) : Prop := {
  ow_triple : ∀ i th, y_thr y !! i = Some th → NoDup (triple th) ∧ Forall (λ k, 0 ≤ k < 8) (triple th);
  ow_disjoint : ∀ i j th th', i ≠ j → y_thr y !! i = Some th → y_thr y !! j = Some th' →
    triple th ## triple th' ∧ th_b th ≠ th_b th' ∧ blk y th ≠ blk y th';
  ow_range : ∀ i th, y_thr y !! i = Some th → 0 ≤ th_b th ∧ 0 ≤ blk y th < 2 ^ 31
}.

(** Who has the lock: nobody, the interrupt handler, or the one thread that
    has formatted a request. *)
Inductive lock_state (y : vsys) : Prop :=
  | L_none : vs_lock (y_v y) = false → y_intr y = false → (∀ j th, y_thr y !! j = Some th → ¬ is_post th) → lock_state y
  | L_intr : vs_lock (y_v y) = true → y_intr y = true → (∀ j th, y_thr y !! j = Some th → ¬ is_post th) → lock_state y
  | L_post i th : vs_lock (y_v y) = true → y_intr y = false → y_thr y !! i = Some th → is_post th →
      (∀ j th', j ≠ i → y_thr y !! j = Some th' → ¬ is_post th') → lock_state y.

Record vinv (y : vsys) : Prop := {
  vi_shape : shape y;
  vi_own : own y;
  vi_threads : ∀ i th, y_thr y !! i = Some th → thread_ok y th;
  vi_free : ∀ k, is_free (y_v y) k ↔ 0 ≤ k < 8 ∧ ∀ i th, y_thr y !! i = Some th → k ∉ triple th;
  vi_heads : ∀ h, h ∈ flight y ++ unseen y → ∃ i th, y_thr y !! i = Some th ∧ head_of th = Some h;
  vi_nodup : NoDup (flight y ++ unseen y);
  vi_lock : lock_state y;
  vi_asleep : ∀ i c, (i, c) ∈ vs_asleep (y_v y) → ∃ th, y_thr y !! i = Some th ∧ sleeps_for y th c
}.

(** ** What a thread's part of the invariant depends on *)

Record same_for (y y' : vsys) (th : thread) : Prop := {
  sf_buf : y_buf y' (th_b th) = y_buf y (th_b th);
  sf_block : y_blocks y' (blk y th) = y_blocks y (blk y th);
  sf_desc : ∀ k, k ∈ triple th → at_ (dk_desc (y_disk y')) k = at_ (dk_desc (y_disk y)) k;
  sf_op : ∀ k, k ∈ triple th → at_ (dk_ops (y_disk y')) k = at_ (dk_ops (y_disk y)) k;
  sf_info : ∀ k, k ∈ triple th → at_ (dk_info_b (y_disk y')) k = at_ (dk_info_b (y_disk y)) k;
  sf_status : ∀ k, k ∈ triple th → at_ (dk_status (y_disk y')) k = at_ (dk_status (y_disk y)) k;
  sf_flight : ∀ k, k ∈ triple th → k ∈ flight y' ↔ k ∈ flight y;
  sf_unseen : ∀ k, k ∈ triple th → k ∈ unseen y' ↔ k ∈ unseen y;
  sf_ring : is_post th → at_ (dk_avail_ring (y_disk y')) (dk_avail_idx (y_disk y') `mod` 8) = at_ (dk_avail_ring (y_disk y)) (dk_avail_idx (y_disk y) `mod` 8)
}.

Section frame.
Variables (y y' : vsys) (th : thread).
Hypothesis same : same_for y y' th.

Lemma same_blk : blk y' th = blk y th.
Proof. unfold blk. by rewrite (sf_buf _ _ _ same). Qed.
Lemma same_pending : pending y th → pending y' th.
Proof. unfold pending, disk_of, data_of. rewrite same_blk, (sf_buf _ _ _ same), (sf_block _ _ _ same). done. Qed.
Lemma same_finished : finished y th → finished y' th.
Proof. unfold finished, disk_of, data_of. rewrite same_blk, (sf_buf _ _ _ same), (sf_block _ _ _ same). done. Qed.
Lemma same_chain h m s : triple th = [h; m; s] → chain_ok y th h m s → chain_ok y' th h m s.
Proof.
  intros E [C1 C2 C3 C4 C5]. split.
  - rewrite (sf_desc _ _ _ same); [done|rewrite E; set_solver].
  - rewrite (sf_desc _ _ _ same); [done|rewrite E; set_solver].
  - rewrite (sf_desc _ _ _ same); [done|rewrite E; set_solver].
  - rewrite (sf_op _ _ _ same), same_blk; [done|rewrite E; set_solver].
  - rewrite (sf_info _ _ _ same); [done|rewrite E; set_solver].
Qed.
Lemma same_where h : h ∈ triple th → where_is y th h → where_is y' th h.
Proof.
  intros Ht Hw. pose proof (sf_flight _ _ _ same h Ht) as F. pose proof (sf_unseen _ _ _ same h Ht) as U.
  destruct Hw as [B I J P|B I J P S|B I J P]; rewrite <- (sf_buf _ _ _ same) in B.
  - apply W_flight; [done|tauto|tauto|by apply same_pending].
  - apply W_unseen; [done|tauto|tauto|by apply same_finished|]. by rewrite (sf_status _ _ _ same).
  - apply W_seen; [done|tauto|tauto|by apply same_finished].
Qed.
Lemma same_thread_ok : thread_ok y th → thread_ok y' th.
Proof.
  pose proof same_chain as SC. unfold thread_ok, is_post, triple in *. pose proof (sf_ring _ _ _ same) as SR. unfold is_post in SR.
  pose proof (sf_flight _ _ _ same) as F. pose proof (sf_unseen _ _ _ same) as U. pose proof same_where as W. unfold triple in *.
  destruct (th_pc th) as [|h m s|h m s|].
  - apply same_pending.
  - intros (C & P & B & I & J & R). rewrite (sf_buf _ _ _ same), (F h), (U h), SR by set_solver. split_and!; auto using same_pending.
  - intros [C L]. split; [auto|]. apply W; [set_solver|done].
  - apply same_finished.
Qed.
Lemma same_sleeps c : (∀ k, is_taken (y_v y) k → ∃ k, is_taken (y_v y') k) → sleeps_for y th c → sleeps_for y' th c.
Proof.
  intros Hk. unfold sleeps_for. rewrite (sf_buf _ _ _ same). destruct (th_pc th); try done. intros [-> [k T]]. split; [done|]. by eapply Hk.
Qed.
End frame.
