(* ===== verification/VirtioSteps.v ===== *)
(** * The steps of the disk driver preserve its invariant *)
From S2P Require Import Prelude Kstring Kalloc Block Ring Virtio VirtioSys.

Lemma set_pc_id th : set_pc (th_pc th) th = th.
Proof. by destruct th. Qed.
Lemma set_thr_id y i th : y_thr y !! i = Some th → set_thr (<[i := th]> (y_thr y)) y = y.
Proof. intros H. unfold set_thr. rewrite insert_id by done. by destruct y. Qed.

(** ** Ownership *)

Lemma own_same y y' : own y → y_thr y' = y_thr y → (∀ j th, y_thr y !! j = Some th → blk y' th = blk y th) → own y'.
Proof.
  intros [O1 O2 O3] E B. split; rewrite E; [done| |].
  - intros i j th th' Hn Hi Hj. rewrite (B i th Hi), (B j th' Hj). eauto.
  - intros i th Hi. rewrite (B i th Hi). eauto.
Qed.
Lemma own_update y y' i th p : own y → y_thr y !! i = Some th → y_thr y' = <[i := set_pc p th]> (y_thr y) →
  (∀ j th, y_thr y !! j = Some th → blk y' th = blk y th) →
  NoDup (triple (set_pc p th)) ∧ Forall (λ k, 0 ≤ k < 8) (triple (set_pc p th)) →
  (∀ j th', j ≠ i → y_thr y !! j = Some th' → triple (set_pc p th) ## triple th') → own y'.
Proof.
  intros [O1 O2 O3] Hi E B Ht Hd. split; rewrite E.
  - intros j th' Hj. apply lookup_insert_Some in Hj as [[<- <-]|[? Hj]]; eauto.
  - intros j k th1 th2 Hn Hj Hk. apply lookup_insert_Some in Hj as [[<- <-]|[? Hj]], Hk as [[<- <-]|[? Hk]]; [done|..].
    + destruct (O2 i k th th2) as (?&?&?); [done..|]. split_and!; [by apply (Hd k)|done|]. change (blk y' (set_pc p th)) with (blk y' th). by rewrite (B i th), (B k th2).
    + destruct (O2 j i th1 th) as (?&?&?); [done..|]. split_and!; [intros x ??; by apply (Hd j th1 ltac:(done) Hj x)|done|]. change (blk y' (set_pc p th)) with (blk y' th). by rewrite (B i th), (B j th1).
    + rewrite (B j th1), (B k th2) by done. by apply (O2 j k).
  - intros j th' Hj. apply lookup_insert_Some in Hj as [[<- <-]|[? Hj]].
    + change (blk y' (set_pc p th)) with (blk y' th). rewrite (B i th) by done. exact (O3 i th Hi).
    + rewrite (B j th') by done. by apply (O3 j).
Qed.

(** A thread's descriptors are not free. *)
Lemma triple_not_free y i th k : vinv y → y_thr y !! i = Some th → k ∈ triple th → ¬ is_free (y_v y) k.
Proof. intros V Hi Hk Hf. apply (vi_free y V) in Hf as [_ Hf]. by eapply Hf. Qed.
Lemma triple_range y i th k : vinv y → y_thr y !! i = Some th → k ∈ triple th → 0 ≤ k < 8.
Proof. intros V Hi Hk. destruct (ow_triple y (vi_own y V) i th Hi) as [_ Hf]. rewrite Forall_forall in Hf. by apply Hf. Qed.
Lemma triple_taken y i th k : vinv y → y_thr y !! i = Some th → k ∈ triple th → is_taken (y_v y) k.
Proof.
  intros V Hi Hk. pose proof (triple_range y i th k V Hi Hk) as Hr. split; [done|]. pose proof (triple_not_free y i th k V Hi Hk) as Hf.
  unfold is_free in Hf. rewrite (at_lookup (dk_free (vs_disk (y_v y)))) in * by (done || apply (sh_free y (vi_shape y V))). destruct (_ !!! _); [|done]. by destruct Hf.
Qed.
Lemma sized_inv y : vinv y → sized (vs_disk (y_v y)).
Proof. intros V. destruct (vi_shape y V). done. Qed.

(** ** A thread that finds too few descriptors *)

Lemma alloc_sleeps y i th v' : vinv y → y_thr y !! i = Some th → th_pc th = PAlloc → vs_lock (y_v y) = false →
  put_back (put_lock true (y_v y)) v' → (∃ k, is_taken (y_v y) k) → vinv (set_v (fell_asleep i FREE_CHAN v') y).
Proof.
  intros V Hi Hp Hl (x & Ed & Hx & Hsame & Eb & El & Ea) Ht. destruct v' as [d b l a]. simpl in *. subst d b l.
  assert (SF : ∀ j t, y_thr y !! j = Some t → same_for y (set_v (fell_asleep i FREE_CHAN (VState (set_desc x (vs_disk (y_v y))) (vs_buf (y_v y)) true a)) y) t).
  { intros j t Hj. split; try done. intros k Hk. simpl. apply Hsame; [|by eapply triple_not_free]. pose proof (triple_range y j t k V Hj Hk). lia. }
  destruct (V). split.
  - destruct vi_shape. by split.
  - by apply (own_same y).
  - intros j t Hj. eapply same_thread_ok; [by eapply SF|]. eauto.
  - done.
  - done.
  - done.
  - destruct vi_lock; [by apply L_none|congruence..].
  - intros j c Hj. simpl in Hj. apply elem_of_cons in Hj as [Hj|Hj].
    + injection Hj as -> ->. exists th. split; [done|]. unfold sleeps_for. rewrite Hp. done.
    + destruct (vi_asleep j c) as (t & Hj' & Hs); [by apply Ea|]. exists t. split; [done|]. eapply same_sleeps; [by eapply SF| |done]. eauto.
Qed.

(** ** The number of requests *)

Lemma eight_at_most (l : list Z) x : NoDup l → (∀ k, k ∈ l → 0 ≤ k < 8) → 0 ≤ x < 8 → x ∉ l → (length l < 8)%nat.
Proof.
  intros Hn Hr Hx Hl. assert (x :: l ⊆+ seqZ 0 8) as Hs.
  { apply NoDup_submseteq; [by constructor|]. intros k Hk. apply elem_of_seqZ. apply elem_of_cons in Hk as [->|Hk]; [lia|]. apply Hr in Hk. lia. }
  apply submseteq_length in Hs. simpl in Hs. lia.
Qed.
Lemma head_triple th h : head_of th = Some h → h ∈ triple th.
Proof. unfold head_of, triple. destruct (th_pc th); try done. intros [= ->]. set_solver. Qed.
Lemma head_range y h : vinv y → h ∈ flight y ++ unseen y → 0 ≤ h < 8.
Proof. intros V Hh. apply (vi_heads y V) in Hh as (i & th & Hi & Hh). eapply triple_range; [done..|by apply head_triple]. Qed.
Lemma room y x : vinv y → 0 ≤ x < 8 → x ∉ flight y ++ unseen y → Z.of_nat (length (flight y ++ unseen y)) < 8.
Proof. intros V Hx Hn. pose proof (eight_at_most _ x (vi_nodup y V) (λ k, head_range y k V) Hx Hn). lia. Qed.
Lemma free_not_head y x : vinv y → is_free (y_v y) x → x ∉ flight y ++ unseen y.
Proof.
  intros V Hf Hx. apply (vi_heads y V) in Hx as (i & th & Hi & Hh). by eapply triple_not_free; [..|by apply head_triple|].
Qed.

Lemma div8_16 : (8 | 2 ^ 16).
Proof. by exists 8192. Qed.
Lemma fn_put_eq {A} (f : Z → A) b x : (<[b := x]> f) b = x.
Proof. apply fn_lookup_insert. Qed.
Lemma fn_put_ne {A} (f : Z → A) b c x : b ≠ c → (<[b := x]> f) c = f c.
Proof. apply fn_lookup_insert_ne. Qed.

(** ** A thread that got its descriptors *)

Lemma free_taken3 v h m s k : sized (vs_disk v) → is_free v h → is_free v m → is_free v s → NoDup [h; m; s] →
  is_free (taken3 h m s v) k ↔ is_free v k ∧ k ∉ [h; m; s].
Proof.
  intros Hs Hh Hm Hz Hn. apply NoDup_cons in Hn as [N1 N2]. apply NoDup_cons in N2 as [N2 _].
  assert (Hm1 : is_free (take h v) m) by (apply free_take; [done|done|set_solver]).
  assert (Hz1 : is_free (take m (take h v)) s).
  { apply free_take; [by apply sized_take|done|]. split; [|set_solver]. apply free_take; [done|done|set_solver]. }
  unfold taken3. rewrite !free_take by auto using sized_take. set_solver.
Qed.

Section formats.
Variables (y : vsys) (i : Z) (th : thread) (h m s : Z).
Hypotheses (V : vinv y) (Hi : y_thr y !! i = Some th) (Hpc : th_pc th = PAlloc) (Haw : awake i y) (Hl : vs_lock (y_v y) = false).
Hypotheses (Hh : is_free (y_v y) h) (Hm : is_free (y_v y) m) (Hs : is_free (y_v y) s) (HN : NoDup [h; m; s]).

Let y' := set_v (formatted (th_b th) (th_write th) h m s (taken3 h m s (put_lock true (y_v y)))) (set_thr (<[i := set_pc (PPost h m s) th]> (y_thr y)) y).

Lemma fm_posted : posted y' = posted y.
Proof.
  unfold posted, y'. simpl. change NUM with 8. apply (queue_put 16 8); [lia|lia|apply div8_16|].
  pose proof (room y h V (proj1 Hh) (free_not_head y h V Hh)) as Hr. unfold flight in Hr. rewrite !length_app in Hr. unfold posted in Hr. lia.
Qed.
Lemma fm_flight : flight y' = flight y.
Proof. unfold flight. by rewrite fm_posted. Qed.
Lemma fm_not_mine j t k : y_thr y !! j = Some t → k ∈ triple t → k ∉ [h; m; s].
Proof.
  intros Hj Hk Hin. pose proof (triple_not_free y j t k V Hj Hk) as Hf. apply Hf.
  apply elem_of_cons in Hin as [->|Hin]; [done|]. apply elem_of_cons in Hin as [->|Hin]; [done|]. apply elem_of_cons in Hin as [->|Hin]; [done|]. by apply elem_of_nil in Hin.
Qed.
Lemma fm_same j t : j ≠ i → y_thr y !! j = Some t → same_for y y' t.
Proof.
  intros Hn Hj. destruct (ow_disjoint y (vi_own y V) j i t th Hn Hj Hi) as (_ & Nb & _). destruct (vi_shape y V).
  assert (D : ∀ k, k ∈ triple t → 0 ≤ k < 8 ∧ k ≠ h ∧ k ≠ m ∧ k ≠ s).
  { intros k Hk. split; [by eapply triple_range|]. pose proof (fm_not_mine j t k Hj Hk). set_solver. }
  pose proof (proj1 Hh). pose proof (proj1 Hm). pose proof (proj1 Hs).
  split; try done.
  2-5: intros k Hk; destruct (D k Hk) as (?&?&?&?); simpl; rewrite !at_put by (rewrite ?length_insert; done || lia);
    by rewrite !decide_False by congruence.
  - unfold y_buf. simpl. by rewrite fn_put_ne.
  - intros k Hk. by rewrite fm_flight.
  - intros Hp. destruct (vi_lock y V) as [_ _ HL| |]; [|congruence..]. by destruct (HL j t Hj).
Qed.
Lemma fm_blk j t : y_thr y !! j = Some t → blk y' t = blk y t.
Proof.
  intros Hj. unfold blk, y_buf, y'. simpl. destruct (decide (th_b th = th_b t)) as [<-|]; [by rewrite fn_put_eq|by rewrite fn_put_ne].
Qed.
Lemma fm_thread : thread_ok y' (set_pc (PPost h m s) th).
Proof.
  pose proof (proj1 Hh). pose proof (proj1 Hm). pose proof (proj1 Hs). apply NoDup_cons in HN as [N1 N2]. apply NoDup_cons in N2 as [N2 _].
  assert (h ≠ m ∧ h ≠ s ∧ m ≠ s) as (?&?&?) by set_solver. destruct (vi_shape y V). destruct (ow_range y (vi_own y V) i th Hi) as [_ Hb].
  pose proof (vi_threads y V i th Hi) as Hth. unfold thread_ok in Hth. rewrite Hpc in Hth.
  assert (Hn := free_not_head y h V Hh). unfold thread_ok. simpl th_pc. cbv iota. split_and!.
  - split; simpl; rewrite ?at_put by (rewrite ?length_insert; done || lia); repeat case_decide; try congruence.
    unfold blk, y_buf. simpl. rewrite fn_put_eq. do 2 f_equal. unfold blk, y_buf in Hb. change (BSIZE / 512) with 2. simpl bf_blockno.
    rewrite (wrap_small 32), wrap_small by (change (2 ^ 32) with 4294967296; change (2 ^ 64) with 18446744073709551616; lia). lia.
  - destruct Hth as [P1 P2]. unfold pending, disk_of, data_of. change (blk y' (set_pc (PPost h m s) th)) with (blk y' th). rewrite (fm_blk i th Hi).
    unfold y_buf. simpl. rewrite fn_put_eq. split; [exact P1|exact P2].
  - unfold y_buf. simpl. by rewrite fn_put_eq.
  - rewrite fm_flight. set_solver.
  - change (unseen y') with (unseen y). set_solver.
  - simpl. change NUM with 8. pose proof (Z.mod_pos_bound (dk_avail_idx (y_disk y)) 8). unfold y_disk in *. rewrite at_put by (done || lia).
    by rewrite decide_True.
Qed.
Lemma alloc_gets : vinv y'.
Proof.
  pose proof (sized_inv y V) as Hz. destruct (V). split.
  - destruct vi_shape. split; simpl; rewrite ?length_insert; done.
  - apply (own_update y y' i th (PPost h m s)); auto; [apply fm_blk| |].
    + split; [done|]. repeat constructor; apply Hh || apply Hm || apply Hs.
    + intros j t Hn Hj k Hk1 Hk2. by apply (fm_not_mine j t k).
  - intros j t Hj. simpl in Hj. apply lookup_insert_Some in Hj as [[<- <-]|[? Hj]]; [apply fm_thread|].
    eapply same_thread_ok; [apply (fm_same j); done|eauto].
  - intros k. change (is_free (y_v y') k) with (is_free (taken3 h m s (put_lock true (y_v y))) k).
    rewrite free_taken3 by done. change (is_free (put_lock true (y_v y)) k) with (is_free (y_v y) k). rewrite vi_free. split.
    + intros [[Hk HA] Hn]. split; [done|]. intros j t Hj. simpl in Hj. apply lookup_insert_Some in Hj as [[<- <-]|[? Hj]]; [done|by eapply HA].
    + intros [Hk HA]. split; [|apply (HA i (set_pc (PPost h m s) th)), lookup_insert_eq]. split; [done|].
      intros j t Hj. destruct (decide (j = i)) as [->|]; [|apply (HA j t); simpl; by rewrite lookup_insert_ne].
      assert (t = th) as -> by congruence. unfold triple. rewrite Hpc. set_solver.
  - intros k. rewrite fm_flight. change (unseen y') with (unseen y). intros Hk. destruct (vi_heads k Hk) as (j & t & Hj & Ht).
    exists j, t. split; [|done]. simpl. rewrite lookup_insert_ne; [done|]. intros ->. unfold head_of in Ht. replace t with th in Ht by congruence. by rewrite Hpc in Ht.
  - by rewrite fm_flight.
  - destruct vi_lock as [_ HI HL| |]; [|congruence..]. apply (L_post _ i (set_pc (PPost h m s) th)); try done; [simpl; apply lookup_insert_eq|].
    intros j t Hn Hj. simpl in Hj. rewrite lookup_insert_ne in Hj by done. eauto.
  - intros j c Hj. destruct (vi_asleep j c Hj) as (t & Ht & Hc). simpl. destruct (decide (j = i)) as [->|Hn]; [by destruct (Haw c)|].
    exists t. rewrite lookup_insert_ne by done. split; [done|]. eapply same_sleeps; [by apply (fm_same j)| |done].
    intros k [Hk Tk]. exists k. split; [done|]. simpl. rewrite !at_put by (rewrite ?length_insert; try apply Hz; try apply Hh; try apply Hm; try apply Hs; lia).
    repeat case_decide; done.
Qed.
End formats.

(** ** A thread that hands its request to the device *)

Definition advanced (v : vstate) : vstate :=
  put_disk (set_avail (wrap 16 (dk_avail_idx (vs_disk v) + 1)) (dk_avail_ring (vs_disk v)) (vs_disk v)) v.

Lemma posting_alone y i th : vinv y → y_thr y !! i = Some th → is_post th →
  vs_lock (y_v y) = true ∧ y_intr y = false ∧ ∀ j t, j ≠ i → y_thr y !! j = Some t → ¬ is_post t.
Proof.
  intros V Hi Hp. destruct (vi_lock y V) as [_ _ HL|_ _ HL|k t HL HI Hk Ht HA]; [by destruct (HL i th Hi)|by destruct (HL i th Hi)|].
  destruct (decide (i = k)) as [->|Hn]; [done|]. by destruct (HA i th Hn Hi).
Qed.
Lemma wrap16_range x : 0 ≤ wrap 16 x < 2 ^ 16.
Proof. apply Z.mod_pos_bound. lia. Qed.

Section posts.
Variables (y : vsys) (i : Z) (th : thread) (h m s : Z).
Hypotheses (V : vinv y) (Hi : y_thr y !! i = Some th) (Hpc : th_pc th = PPost h m s).

Let y' := set_v (fell_asleep i (th_b th) (advanced (y_v y))) (set_thr (<[i := set_pc (PWait h m s) th]> (y_thr y)) y).

Lemma po_was : thread_ok y th → chain_ok y th h m s ∧ pending y th ∧ bf_disk (y_buf y (th_b th)) = 1 ∧ h ∉ flight y ∧ h ∉ unseen y ∧
  at_ (dk_avail_ring (y_disk y)) (dk_avail_idx (y_disk y) `mod` 8) = Some h.
Proof. unfold thread_ok. by rewrite Hpc. Qed.
Lemma po_triple : triple th = [h; m; s].
Proof. unfold triple. by rewrite Hpc. Qed.
Lemma po_posted : posted y' = posted y ++ [h].
Proof.
  destruct (po_was (vi_threads y V i th Hi)) as (_ & _ & _ & F & U & R). unfold posted, y'. simpl.
  assert (0 ≤ h < 8) as Hh by (eapply triple_range; [done..|rewrite po_triple; set_solver]).
  apply (queue_advance 16 8); [lia|lia|apply div8_16|lia|apply (sh_aring y (vi_shape y V))| |exact R].
  pose proof (room y h V Hh ltac:(set_solver)) as Hr. unfold flight in Hr. rewrite !length_app in Hr. unfold posted in Hr. unfold y_disk in *. lia.
Qed.
Lemma po_flight : flight y' ≡ₚ h :: flight y.
Proof. unfold flight. rewrite po_posted. rewrite <- app_assoc. by rewrite Permutation_middle. Qed.
Lemma po_others j t k : j ≠ i → y_thr y !! j = Some t → k ∈ triple t → k ≠ h.
Proof.
  intros Hn Hj Hk ->. destruct (ow_disjoint y (vi_own y V) j i t th Hn Hj Hi) as [D _]. apply (D h Hk). rewrite po_triple. set_solver.
Qed.
Lemma po_same j t : j ≠ i → y_thr y !! j = Some t → same_for y y' t.
Proof.
  intros Hn Hj. split; try done.
  - intros k Hk. rewrite po_flight, elem_of_cons. pose proof (po_others j t k Hn Hj Hk). tauto.
  - intros Hp. destruct (posting_alone y i th V Hi) as (_ & _ & HA); [unfold is_post; by rewrite Hpc|]. by destruct (HA j t Hn Hj).
Qed.
Lemma rw_posts : vinv y'.
Proof.
  destruct (po_was (vi_threads y V i th Hi)) as (C & P & B & F & U & R).
  destruct (posting_alone y i th V Hi) as (HL & HI & HA); [unfold is_post; by rewrite Hpc|]. destruct (V). split.
  - destruct vi_shape. split; simpl; try done. apply wrap16_range.
  - apply (own_update y y' i th (PWait h m s)); auto; unfold triple; simpl; rewrite <- po_triple; [by apply (ow_triple y vi_own i)|].
    intros j t Hn Hj. by apply (ow_disjoint y vi_own i j th t).
  - intros j t Hj. simpl in Hj. apply lookup_insert_Some in Hj as [[<- <-]|[? Hj]]; [|eapply same_thread_ok; [apply (po_same j); done|eauto]].
    split; [by destruct C|]. apply W_flight; [done| |done|done]. rewrite po_flight. set_solver.
  - intros k. change (is_free (y_v y') k) with (is_free (y_v y) k). rewrite vi_free. split; intros [Hk Hf]; (split; [done|]); intros j t Hj.
    + simpl in Hj. apply lookup_insert_Some in Hj as [[<- <-]|[? Hj]]; [|by eapply Hf]. change (triple (set_pc (PWait h m s) th)) with [h; m; s]. rewrite <- po_triple. by eapply Hf.
    + destruct (decide (j = i)) as [->|]; [|apply (Hf j t); simpl; by rewrite lookup_insert_ne]. replace t with th by congruence. rewrite po_triple.
      apply (Hf i (set_pc (PWait h m s) th)). apply lookup_insert_eq.
  - intros k. rewrite po_flight. change (unseen y') with (unseen y). simpl. intros Hk. apply elem_of_cons in Hk as [->|Hk].
    + exists i, (set_pc (PWait h m s) th). by rewrite lookup_insert_eq.
    + destruct (vi_heads k Hk) as (j & t & Hj & Ht). exists j, t. split; [|done]. rewrite lookup_insert_ne; [done|]. intros ->.
      unfold head_of in Ht. replace t with th in Ht by congruence. by rewrite Hpc in Ht.
  - rewrite po_flight. change (unseen y') with (unseen y). simpl. constructor; [set_solver|done].
  - apply L_none; [done|done|]. intros j t Hj. simpl in Hj. apply lookup_insert_Some in Hj as [[<- <-]|[Hn Hj]]; [by intros []|by apply (HA j)].
  - intros j c Hj. simpl in *. apply elem_of_cons in Hj as [[= -> ->]|Hj].
    + exists (set_pc (PWait h m s) th). rewrite lookup_insert_eq. split; [done|]. split; done.
    + destruct (vi_asleep j c Hj) as (t & Ht & Hc). exists t. assert (j ≠ i) as Hn.
      { intros ->. replace t with th in Hc by congruence. unfold sleeps_for in Hc. by rewrite Hpc in Hc. }
      rewrite lookup_insert_ne by done. split; [done|]. eapply same_sleeps; [by apply (po_same j)| |done]. eauto.
Qed.
End posts.

(** ** A thread that waits, and its return *)

Lemma rw_waits_again y i th h m s : vinv y → y_thr y !! i = Some th → th_pc th = PWait h m s → vs_lock (y_v y) = false →
  bf_disk (y_buf y (th_b th)) = 1 → vinv (set_v (fell_asleep i (th_b th) (put_lock true (y_v y))) y).
Proof.
  intros V Hi Hpc Hl Hb. destruct (V). split; try done.
  - by destruct vi_shape.
  - by apply (own_same y).
  - intros j t Hj. eapply same_thread_ok; [|by eapply vi_threads]. done.
  - destruct vi_lock; [by apply L_none|congruence..].
  - intros j c Hj. apply elem_of_cons in Hj as [[= -> ->]|Hj]; [|by destruct (vi_asleep j c Hj) as (t & Ht & Hc); exists t].
    exists th. split; [done|]. unfold sleeps_for. by rewrite Hpc.
Qed.

Lemma free_given3 v h m s k : sized (vs_disk v) → 0 ≤ h < 8 → 0 ≤ m < 8 → 0 ≤ s < 8 →
  is_free (given3 h m s v) k ↔ is_free v k ∨ k ∈ [h; m; s].
Proof.
  intros Hs Hh Hm Hz. rewrite !elem_of_cons, elem_of_nil. unfold is_free. simpl. destruct (decide (0 ≤ k < 8)) as [Hk|]; [|naive_solver lia].
  rewrite !at_put by (rewrite ?length_insert; try apply Hs; lia). repeat case_decide; subst; naive_solver.
Qed.
Lemma asleep_given3 v h m s x : x ∈ vs_asleep (given3 h m s v) → x ∈ vs_asleep v ∧ x.2 ≠ FREE_CHAN.
Proof.
  simpl. intros Hx. apply filter_subset, filter_subset, list_elem_of_In, List.filter_In in Hx as [Hx Hn].
  split; [by apply list_elem_of_In|]. intros E. by rewrite E in Hn.
Qed.

Section returns.
Variables (y : vsys) (i : Z) (th : thread) (h m s : Z).
Hypotheses (V : vinv y) (Hi : y_thr y !! i = Some th) (Hpc : th_pc th = PWait h m s) (Haw : awake i y) (Hl : vs_lock (y_v y) = false).
Hypothesis Hb : bf_disk (y_buf y (th_b th)) ≠ 1.

Let y' := set_v (put_lock false (given3 h m s (forget_info h (put_lock true (y_v y))))) (set_thr (<[i := set_pc PDone th]> (y_thr y)) y).

Lemma re_triple : triple th = [h; m; s].
Proof. unfold triple. by rewrite Hpc. Qed.
Lemma re_was : chain_ok y th h m s ∧ h ∉ unseen y ∧ h ∉ flight y ∧ finished y th.
Proof.
  pose proof (vi_threads y V i th Hi) as Hth. unfold thread_ok in Hth. rewrite Hpc in Hth. destruct Hth as [C [? ?| |]]; done.
Qed.
Lemma re_range : 0 ≤ h < 8 ∧ 0 ≤ m < 8 ∧ 0 ≤ s < 8.
Proof. split_and!; (eapply triple_range; [done..|rewrite re_triple; set_solver]). Qed.
Lemma re_same j t : j ≠ i → y_thr y !! j = Some t → same_for y y' t.
Proof.
  intros Hn Hj. destruct re_range as (?&?&?). destruct (ow_disjoint y (vi_own y V) i j th t (not_eq_sym Hn) Hi Hj) as (D & _). rewrite re_triple in D.
  assert (R : ∀ k, k ∈ triple t → 0 ≤ k < 8 ∧ h ≠ k ∧ m ≠ k ∧ s ≠ k).
  { intros k Hk. split; [by eapply triple_range|]. split_and!; intros ->; apply (D k); set_solver. }
  destruct (vi_shape y V). split; try done.
  - intros k Hk. destruct (R k Hk) as (?&?&?&?). simpl. rewrite !at_put by (rewrite ?length_insert; done || lia). by rewrite !decide_False.
  - intros k Hk. destruct (R k Hk) as (?&?&?&?). simpl. rewrite !at_put by (rewrite ?length_insert; done || lia). by rewrite !decide_False.
Qed.
Lemma rw_returns : vinv y'.
Proof.
  destruct re_was as (C & U & F & Fin). destruct re_range as (?&?&?). pose proof (sized_inv y V) as Hz. destruct (V). split.
  - destruct vi_shape. split; simpl; rewrite ?length_insert; done.
  - apply (own_update y y' i th PDone); auto; unfold triple; simpl; [split; constructor|]. intros j t _ _ k Hk. by apply elem_of_nil in Hk.
  - intros j t Hj. simpl in Hj. apply lookup_insert_Some in Hj as [[<- <-]|[? Hj]]; [exact Fin|]. eapply same_thread_ok; [apply (re_same j); done|eauto].
  - intros k. change (is_free (y_v y') k) with (is_free (given3 h m s (forget_info h (put_lock true (y_v y)))) k).
    rewrite free_given3 by done. change (is_free (forget_info h (put_lock true (y_v y))) k) with (is_free (y_v y) k). rewrite vi_free. split.
    + intros HF. assert (0 ≤ k < 8) as Hk by (destruct HF as [[]|Hk]; [done|eapply triple_range; [done..|by rewrite re_triple]]). split; [done|].
      intros j t Hj. simpl in Hj. apply lookup_insert_Some in Hj as [[<- <-]|[? Hj]]; [by intros ?%elem_of_nil|]. destruct HF as [[_ HF]|Hin]; [by eapply HF|].
      intros Hk2. destruct (ow_disjoint y vi_own i j th t) as [D _]; [done..|]. apply (D k); [by rewrite re_triple|done].
    + intros [Hk HF]. destruct (decide (k ∈ [h; m; s])) as [|Hn]; [by right|]. left. split; [done|]. intros j t Hj. destruct (decide (j = i)) as [->|].
      * replace t with th by congruence. by rewrite re_triple.
      * apply (HF j t). simpl. by rewrite lookup_insert_ne.
  - intros k Hk. destruct (vi_heads k Hk) as (j & t & Hj & Ht). exists j, t. split; [|done]. simpl. rewrite lookup_insert_ne; [done|]. intros ->.
    unfold head_of in Ht. replace t with th in Ht by congruence. rewrite Hpc in Ht. injection Ht as ->. change (k ∈ flight y ++ unseen y) in Hk. set_solver.
  - done.
  - destruct vi_lock as [_ HI HL| |]; [|congruence..]. apply L_none; [done|done|]. intros j t Hj. simpl in Hj.
    apply lookup_insert_Some in Hj as [[<- <-]|[Hn Hj]]; [by intros []|by apply (HL j)].
  - intros j c Hj. apply (asleep_given3 (forget_info h (put_lock true (y_v y))) h m s) in Hj as [Hj Hc]. destruct (vi_asleep j c Hj) as (t & Ht & Hs).
    assert (j ≠ i) as Hn by (intros ->; by apply (Haw c)). exists t. split; [simpl; by rewrite lookup_insert_ne|].
    unfold sleeps_for in *. destruct (th_pc t); try done. by destruct Hs.
Qed.
End returns.

(** ** Calls, interrupts and the device preserve the invariant of the disk driver *)

(** ** Calls and returns *)

Lemma thread_ok_table y x t : thread_ok y t → thread_ok (set_thr x y) t.
Proof. by apply same_thread_ok. Qed.

Lemma call_ok y i b write : vinv y → y_thr y !! i = None → unused b y → fresh_block (bf_blockno (y_buf y b)) y → 0 ≤ b →
  0 ≤ bf_blockno (y_buf y b) < 2 ^ 31 →
  vinv (set_thr (<[i := Thread b write PAlloc (bf_data (y_buf y b)) (y_blocks y (bf_blockno (y_buf y b)))]> (y_thr y)) y).
Proof.
  intros V Hi Hu Hf Hb Hk. destruct (V). assert (LE : ∀ j t th, y_thr y !! j = Some t → <[i := th]> (y_thr y) !! j = Some t).
  { intros j t th Hj. rewrite lookup_insert_ne; [done|congruence]. }
  split; [by destruct vi_shape|..].
  - destruct vi_own as [O1 O2 O3]. split; simpl.
    + intros j t Hj. apply lookup_insert_Some in Hj as [[<- <-]|[? Hj]]; [split; constructor|eauto].
    + intros j k t t' Hn Hj Hk'. apply lookup_insert_Some in Hj as [[<- <-]|[? Hj]], Hk' as [[<- <-]|[? Hk']]; [done|..|by apply (O2 j k)].
      * split_and!; [intros ? []%elem_of_nil|simpl; apply not_eq_sym; by eapply Hu|apply not_eq_sym; by eapply Hf].
      * split_and!; [intros ? _ []%elem_of_nil|by eapply Hu|by eapply Hf].
    + intros j t Hj. apply lookup_insert_Some in Hj as [[<- <-]|[? Hj]]; [done|by eapply O3].
  - intros j t Hj. simpl in Hj. apply lookup_insert_Some in Hj as [[<- <-]|[? Hj]]; [by split|by eapply thread_ok_table, vi_threads].
  - intros k. change (is_free (y_v y) k ↔ 0 ≤ k < 8 ∧ ∀ j t, <[i := Thread b write PAlloc (bf_data (y_buf y b)) (y_blocks y (bf_blockno (y_buf y b)))]> (y_thr y) !! j = Some t → k ∉ triple t).
    rewrite vi_free. split; intros [? HF]; (split; [done|]); intros j t Hj; [|by eapply HF, LE].
    apply lookup_insert_Some in Hj as [[<- <-]|[? Hj]]; [by intros []%elem_of_nil|by eapply HF].
  - intros h Hh. destruct (vi_heads h Hh) as (j & t & Hj & Ht). exists j, t. split; [by apply LE|done].
  - done.
  - destruct vi_lock as [L1 L2 L3|L1 L2 L3|j t L1 L2 L3 L4 L5]; [apply L_none|apply L_intr|apply (L_post _ j t)]; try done; simpl.
    + intros k t Hj. apply lookup_insert_Some in Hj as [[<- <-]|[? Hj]]; [by intros []|by eapply L3].
    + intros k t Hj. apply lookup_insert_Some in Hj as [[<- <-]|[? Hj]]; [by intros []|by eapply L3].
    + by apply LE.
    + intros k t' Hn Hj. apply lookup_insert_Some in Hj as [[<- <-]|[? Hj]]; [by intros []|by eapply L5].
  - intros j c Hj. destruct (vi_asleep j c Hj) as (t & Ht & Hs). exists t. split; [by apply LE|done].
Qed.

Lemma return_ok y i th : vinv y → y_thr y !! i = Some th → th_pc th = PDone → vinv (set_thr (delete i (y_thr y)) y).
Proof.
  intros V Hi Hpc. destruct (V). assert (LD : ∀ j t, delete i (y_thr y) !! j = Some t → y_thr y !! j = Some t).
  { intros j t Hj. by apply lookup_delete_Some in Hj as [_ ?]. }
  assert (LK : ∀ j t, y_thr y !! j = Some t → th_pc t ≠ PDone → delete i (y_thr y) !! j = Some t).
  { intros j t Hj Hp. rewrite lookup_delete_ne; [done|]. congruence. }
  split; [by destruct vi_shape|..].
  - destruct vi_own as [O1 O2 O3]. split; simpl; eauto.
  - intros j t Hj. by eapply thread_ok_table, vi_threads, LD.
  - intros k. change (is_free (y_v y) k ↔ 0 ≤ k < 8 ∧ ∀ j t, delete i (y_thr y) !! j = Some t → k ∉ triple t).
    rewrite vi_free. split; intros [? HF]; (split; [done|]); intros j t Hj; [by eapply HF, LD|]. destruct (decide (th_pc t = PDone)) as [E|]; [|by eapply HF, LK].
    unfold triple. rewrite E. by intros []%elem_of_nil.
  - intros h Hh. destruct (vi_heads h Hh) as (j & t & Hj & Ht). exists j, t. split; [|done]. apply LK; [done|]. intros E. unfold head_of in Ht. by rewrite E in Ht.
  - done.
  - destruct vi_lock as [L1 L2 L3|L1 L2 L3|j t L1 L2 L3 L4 L5]; [apply L_none|apply L_intr|apply (L_post _ j t)]; try done; simpl; eauto.
    apply LK; [done|]. intros E. unfold is_post in L4. by rewrite E in L4.
  - intros j c Hj. destruct (vi_asleep j c Hj) as (t & Ht & Hs). exists t. split; [|done]. apply LK; [done|]. intros E. unfold sleeps_for in Hs. by rewrite E in Hs.
Qed.

(** ** Steps that do not touch the table of threads *)

(** It suffices to look at the threads one by one. *)
Lemma vinv_frame y y' : vinv y → shape y' → y_thr y' = y_thr y → (∀ j t, y_thr y !! j = Some t → blk y' t = blk y t) →
  (∀ j t, y_thr y !! j = Some t → thread_ok y' t) → dk_free (y_disk y') = dk_free (y_disk y) →
  flight y' ++ unseen y' ⊆+ flight y ++ unseen y → lock_state y' →
  (∀ j c, (j, c) ∈ vs_asleep (y_v y') → ∃ t, y_thr y !! j = Some t ∧ sleeps_for y' t c) → vinv y'.
Proof.
  intros V Hs Et Eb Ht Ef Hq HL Ha. destruct (V). split; rewrite ?Et; try done.
  - by apply (own_same y).
  - unfold is_free. unfold y_disk in Ef. rewrite Ef. done.
  - intros h Hh. apply vi_heads. by eapply elem_of_submseteq.
  - apply submseteq_Permutation in Hq as [k Hk]. rewrite Hk in vi_nodup. by apply NoDup_app in vi_nodup as [? _].
Qed.

Lemma touch_ok y b x : vinv y → unused b y → vinv (set_v (put_buf b x (y_v y)) y).
Proof.
  intros V Hu. assert (SF : ∀ j t, y_thr y !! j = Some t → same_for y (set_v (put_buf b x (y_v y)) y) t).
  { intros j t Hj. split; try done. unfold y_buf. simpl. rewrite fn_put_ne; [done|]. apply not_eq_sym. by eapply Hu. }
  apply (vinv_frame y); try done.
  - by destruct (vi_shape y V).
  - intros j t Hj. by eapply same_blk, SF.
  - intros j t Hj. eapply same_thread_ok; [by eapply SF|]. by eapply vi_threads.
  - destruct (vi_lock y V); [by apply L_none|by apply L_intr|by eapply L_post].
  - intros j c Hj. destruct (vi_asleep y V j c Hj) as (t & Ht & Hs). exists t. split; [done|]. eapply same_sleeps; [by eapply SF| |done]. eauto.
Qed.

Lemma intr_begins y : vinv y → vs_lock (y_v y) = false → vinv (set_intr true (set_v (put_lock true (y_v y)) y)).
Proof.
  intros V Hl. apply (vinv_frame y); try done.
  - by destruct (vi_shape y V).
  - intros j t Hj. eapply same_thread_ok; [|by eapply vi_threads]. done.
  - destruct (vi_lock y V); [by apply L_intr|congruence..].
  - apply (vi_asleep y V).
Qed.
Lemma intr_ends y : vinv y → y_intr y = true → vinv (set_intr false (set_v (put_lock false (y_v y)) y)).
Proof.
  intros V Hi. apply (vinv_frame y); try done.
  - by destruct (vi_shape y V).
  - intros j t Hj. eapply same_thread_ok; [|by eapply vi_threads]. done.
  - destruct (vi_lock y V); [congruence|by apply L_none|congruence].
  - apply (vi_asleep y V).
Qed.

(** ** The device takes a request *)

Lemma fetch_flight y : vinv y → y_seen y ≠ dk_avail_idx (y_disk y) → flight (dev_fetch y) ≡ₚ flight y.
Proof.
  intros V Hn. destruct (vi_shape y V). unfold flight, posted at 2. rewrite (queue_pop 16 8); [|lia|lia|apply div8_16|done..].
  simpl. change NUM with 8. rewrite app_assoc. symmetry. apply Permutation_cons_append.
Qed.
Lemma fetch_ok y : vinv y → y_seen y ≠ dk_avail_idx (y_disk y) → vinv (dev_fetch y).
Proof.
  intros V Hn. pose proof (fetch_flight y V Hn) as F. apply (vinv_frame y); try done.
  - destruct (vi_shape y V). split; try done. apply wrap16_range.
  - intros j t Hj. eapply same_thread_ok; [|by eapply vi_threads]. split; try done. intros k _. by rewrite F.
  - rewrite F. done.
  - destruct (vi_lock y V); [by apply L_none|by apply L_intr|by eapply L_post].
  - apply (vi_asleep y V).
Qed.

(** ** The device completes a request *)

Lemma waiting_for y h : vinv y → h ∈ flight y ++ unseen y → ∃ i th m s, y_thr y !! i = Some th ∧ th_pc th = PWait h m s ∧ chain_ok y th h m s ∧ where_is y th h.
Proof.
  intros V Hh. destruct (vi_heads y V h Hh) as (i & th & Hi & Ht). pose proof (vi_threads y V i th Hi) as Hok. unfold head_of in Ht. unfold thread_ok in Hok.
  destruct (th_pc th) as [| |h' m s|] eqn:Hpc; try done. injection Ht as ->. destruct Hok as [C W]. by exists i, th, m, s.
Qed.
Lemma dev_request_chain y th h m s : chain_ok y th h m s → dev_request (y_disk y) h = Some (th_write th, blk y th, th_b th, h).
Proof.
  intros [C1 C2 C3 C4 _]. unfold dev_request. rewrite (at_total _ _ _ C1). cbn [ds_next ds_addr ds_flags ds_len].
  rewrite (at_total _ _ _ C2). cbn [ds_next ds_addr ds_flags ds_len]. rewrite (at_total _ _ _ C3). cbn [ds_next ds_addr ds_flags ds_len].
  rewrite (at_total _ _ _ C4). cbn [rq_type rq_sector]. rewrite Z.mul_comm, Z.div_mul by done. by destruct (th_write th).
Qed.
Lemma list_difference_one (l : list Z) h : NoDup l → h ∈ l → l ≡ₚ h :: list_difference l [h].
Proof.
  intros Hn Hh. apply NoDup_Permutation; [done| |].
  - constructor; [rewrite list_elem_of_difference; set_solver|by apply NoDup_list_difference].
  - intros x. rewrite elem_of_cons, list_elem_of_difference, list_elem_of_singleton. destruct (decide (x = h)) as [->|]; tauto.
Qed.

Section completes.
Variables (y : vsys) (i : Z) (th : thread) (h m s : Z).
Hypotheses (V : vinv y) (Hi : y_thr y !! i = Some th) (Hpc : th_pc th = PWait h m s) (Ha : h ∈ y_active y).
Hypotheses (C : chain_ok y th h m s) (Hbd : bf_disk (y_buf y (th_b th)) = 1) (Hun : h ∉ unseen y) (Hp : pending y th).

Let d' := set_used (wrap 16 (dk_used_idx (y_disk y) + 1)) (<[Z.to_nat (dk_used_idx (y_disk y) `mod` 8) := h]> (dk_used_ring (y_disk y)))
  (set_status (<[Z.to_nat h := 0]> (dk_status (y_disk y))) (y_disk y)).
Let x' := if th_write th then y_buf y (th_b th) else DBuf (bf_disk (y_buf y (th_b th))) (blk y th) (disk_of y th).
Let y' := VSys (put_buf (th_b th) x' (put_disk d' (y_v y)))
  (if th_write th then <[blk y th := data_of y th]> (y_blocks y) else y_blocks y) (y_seen y) (list_difference (y_active y) [h]) (y_thr y) (y_intr y).

Lemma co_is : dev_complete h y = Some y'.
Proof. unfold dev_complete. change (vs_disk (y_v y)) with (y_disk y). rewrite (dev_request_chain y th h m s C). done. Qed.
Lemma co_triple : h ∈ triple th ∧ 0 ≤ h < 8.
Proof. assert (h ∈ triple th) by (unfold triple; rewrite Hpc; set_solver). split; [done|by eapply triple_range]. Qed.
Lemma co_unseen : unseen y' = unseen y ++ [h].
Proof.
  unfold unseen, y', d'. simpl. apply (queue_push 16 8); [lia|lia|apply div8_16|lia|apply (sh_uring y (vi_shape y V))|].
  pose proof (vi_nodup y V) as Hn. apply NoDup_app in Hn as (_ & _ & Hn).
  assert (length (unseen y) < 8)%nat as Hl.
  { apply (eight_at_most _ h); [done| |apply co_triple|done]. intros k Hk. apply (head_range y k V). set_solver. }
  unfold unseen, y_disk in *. lia.
Qed.
Lemma co_active : y_active y ≡ₚ h :: y_active y'.
Proof.
  apply list_difference_one; [|done]. pose proof (vi_nodup y V) as Hn. apply NoDup_app in Hn as [Hn _]. by apply NoDup_app in Hn as (_ & _ & Hn).
Qed.
Lemma co_flight : flight y ≡ₚ h :: flight y'.
Proof. unfold flight. rewrite co_active. change (posted y') with (posted y). symmetry. apply Permutation_middle. Qed.
Lemma co_not_flight : h ∉ flight y'.
Proof. pose proof (vi_nodup y V) as Hn. rewrite co_flight in Hn. simpl in Hn. apply NoDup_cons in Hn as [Hn _]. set_solver. Qed.
Lemma co_buf t : y_buf y' (th_b t) = if decide (th_b th = th_b t) then x' else y_buf y (th_b t).
Proof. unfold y_buf. simpl. case_decide as E; [rewrite <- E; apply fn_put_eq|by apply fn_put_ne]. Qed.
Lemma co_keeps t : bf_disk (y_buf y' (th_b t)) = bf_disk (y_buf y (th_b t)) ∧ blk y' t = blk y t.
Proof. unfold blk. rewrite co_buf. case_decide as E; [|done]. unfold x', blk. rewrite <- E. by destruct (th_write th). Qed.
Lemma co_same j t : j ≠ i → y_thr y !! j = Some t → same_for y y' t.
Proof.
  intros Hn Hj. destruct (ow_disjoint y (vi_own y V) i j th t (not_eq_sym Hn) Hi Hj) as (D & Nb & Nk). destruct co_triple as [Ht Hr].
  assert (R : ∀ k, k ∈ triple t → 0 ≤ k < 8 ∧ h ≠ k) by (intros k Hk; split; [by eapply triple_range|intros ->; by apply (D k)]).
  destruct (vi_shape y V). split; try done.
  - by rewrite co_buf, decide_False.
  - unfold y'. simpl. destruct (th_write th); [by apply fn_put_ne|done].
  - intros k Hk. destruct (R k Hk). simpl. rewrite at_put by (done || lia). by rewrite decide_False.
  - intros k Hk. destruct (R k Hk). rewrite co_flight. set_solver.
  - intros k Hk. destruct (R k Hk). rewrite co_unseen. set_solver.
Qed.
Lemma co_finished : finished y' th.
Proof.
  destruct Hp as [P1 P2]. unfold finished, disk_of, data_of in *. rewrite (proj2 (co_keeps th)), co_buf, decide_True by done. unfold x'. simpl.
  destruct (th_write th); [by rewrite fn_put_eq|done].
Qed.
Lemma co_thread : thread_ok y' th.
Proof.
  destruct co_triple as [Ht Hr]. destruct (vi_shape y V). unfold thread_ok. rewrite Hpc. split.
  - destruct C. split; try done. by rewrite (proj2 (co_keeps th)).
  - apply W_unseen; [by rewrite (proj1 (co_keeps th))|rewrite co_unseen; set_solver|apply co_not_flight|apply co_finished|].
    simpl. rewrite at_put by (done || lia). by rewrite decide_True.
Qed.
Lemma completes : vinv y'.
Proof.
  apply (vinv_frame y); try done.
  - destruct (vi_shape y V). split; simpl; rewrite ?length_insert; try done. apply wrap16_range.
  - intros j t _. apply co_keeps.
  - intros j t Hj. destruct (decide (j = i)) as [->|Hn]; [by simplify_eq; apply co_thread|]. eapply same_thread_ok; [by apply (co_same j)|by eapply vi_threads].
  - rewrite co_flight, co_unseen. rewrite app_assoc, <- Permutation_cons_append. done.
  - destruct (vi_lock y V); [by apply L_none|by apply L_intr|by eapply L_post].
  - intros j c Hj. destruct (vi_asleep y V j c Hj) as (t & Hj' & Hs). exists t. split; [done|]. unfold sleeps_for in *.
    rewrite (proj1 (co_keeps t)). done.
Qed.
End completes.

(** What a step may do to the disk: write the data of a call that is a write. *)
Definition only_writes (y y' : vsys) : Prop := ∀ k, y_blocks y' k = y_blocks y k ∨
  ∃ i th, y_thr y !! i = Some th ∧ th_write th = true ∧ blk y th = k ∧ y_blocks y' k = th_data th.

Lemma complete_ok y h : vinv y → h ∈ y_active y → ∃ y', dev_complete h y = Some y' ∧ vinv y' ∧ only_writes y y'.
Proof.
  intros V Ha. assert (h ∈ flight y) as Hf by (unfold flight; set_solver). destruct (waiting_for y h V) as (i & th & m & s & Hi & Hpc & C & W); [set_solver|].
  destruct W as [B _ U P| |]; [|done..]. eexists. split_and!; [by apply (co_is y th h m s)|by apply (completes y i th h m s)|].
  intros k. simpl. destruct (th_write th) eqn:Hw; [|by left]. destruct (decide (blk y th = k)) as [<-|]; [|left; by apply fn_put_ne].
  right. exists i, th. rewrite fn_put_eq. by destruct P.
Qed.

(** ** The interrupt handler reports a request *)

Section reports.
Variables (y : vsys) (i : Z) (th : thread) (h m s : Z) (q : list Z).
Hypotheses (V : vinv y) (Hi : y_thr y !! i = Some th) (Hpc : th_pc th = PWait h m s) (Hin : y_intr y = true) (Hq : unseen y = h :: q).
Hypotheses (C : chain_ok y th h m s) (Hfl : h ∉ flight y) (Hfin : finished y th).

Let y' := set_v (reported (th_b th) (y_v y)) y.
Hypothesis Hq' : unseen y' = q.

Lemma rp_buf t : y_buf y' (th_b t) =
  if decide (th_b th = th_b t) then DBuf 0 (bf_blockno (y_buf y (th_b th))) (bf_data (y_buf y (th_b th))) else y_buf y (th_b t).
Proof. unfold y_buf. simpl. case_decide as E; [rewrite <- E; apply fn_put_eq|by apply fn_put_ne]. Qed.
Lemma rp_keeps t : blk y' t = blk y t ∧ data_of y' t = data_of y t.
Proof. unfold blk, data_of. rewrite rp_buf. by case_decide as E; [rewrite <- E|]. Qed.
Lemma rp_same j t : j ≠ i → y_thr y !! j = Some t → same_for y y' t.
Proof.
  intros Hn Hj. destruct (ow_disjoint y (vi_own y V) i j th t (not_eq_sym Hn) Hi Hj) as (D & Nb & Nk).
  assert (R : ∀ k, k ∈ triple t → k ≠ h) by (intros k Hk ->; apply (D h); [unfold triple; rewrite Hpc; set_solver|done]).
  split; try done.
  - by rewrite rp_buf, decide_False.
  - intros k Hk. rewrite Hq', Hq. pose proof (R k Hk). set_solver.
Qed.
Lemma rp_thread : thread_ok y' th.
Proof.
  unfold thread_ok. rewrite Hpc. destruct (rp_keeps th) as [Eb Ed]. split; [destruct C; split; try done; by rewrite Eb|].
  apply W_seen; [by rewrite rp_buf, decide_True| |done|unfold finished, disk_of; by rewrite Eb, Ed].
  rewrite Hq'. pose proof (vi_nodup y V) as Hn. apply NoDup_app in Hn as (_ & _ & Hn). rewrite Hq in Hn. by apply NoDup_cons in Hn as [Hn _].
Qed.
Lemma reports : vinv y'.
Proof.
  apply (vinv_frame y); try done.
  - destruct (vi_shape y V). split; simpl; try done. apply wrap16_range.
  - intros j t _. apply rp_keeps.
  - intros j t Hj. destruct (decide (j = i)) as [->|Hn]; [replace t with th by congruence; apply rp_thread|]. eapply same_thread_ok; [by apply (rp_same j)|by eapply vi_threads].
  - change (flight y') with (flight y). rewrite Hq, Hq'. apply submseteq_app; [done|]. by apply submseteq_cons.
  - destruct (vi_lock y V); [congruence|by apply L_intr|congruence].
  - intros j c Hj. simpl in Hj. apply list_elem_of_In, List.filter_In in Hj as [Hj Hc]. apply list_elem_of_In in Hj. simpl in Hc.
    destruct (vi_asleep y V j c Hj) as (t & Hj' & Hs). exists t. split; [done|]. destruct (decide (j = i)) as [->|Hn].
    + replace t with th in Hs by congruence. unfold sleeps_for in Hs. rewrite Hpc in Hs. destruct Hs as [-> _]. by rewrite Z.eqb_refl in Hc.
    + eapply same_sleeps; [by apply (rp_same j)| |done]. eauto.
Qed.
End reports.

Lemma round_ok y : vinv y → y_intr y = true →
  (∃ v, intr_round (y_v y) = Ok true v ∧ vinv (set_v v y)) ∨ (intr_round (y_v y) = Ok false (y_v y)).
Proof.
  intros V Hi. destruct (decide (dk_seen (y_disk y) = dk_used_idx (y_disk y))) as [E|Hn]; [right; by apply intr_round_done|left].
  destruct (vi_shape y V). pose proof (queue_pop 16 8 ltac:(lia) ltac:(lia) div8_16 (dk_used_ring (y_disk y)) _ _ sh_seen sh_uidx Hn) as Hq.
  change (queue 16 8 (dk_used_ring (y_disk y)) (dk_seen (y_disk y)) (dk_used_idx (y_disk y))) with (unseen y) in Hq.
  set (h := _ !!! _) in Hq. destruct (waiting_for y h V) as (i & th & m & s & Hth & Hpc & C & W); [rewrite Hq; set_solver|].
  destruct W as [_ _ U _|B U F Fin St|_ U _ _]; [by destruct U; rewrite Hq; set_solver| |by destruct U; rewrite Hq; set_solver].
  exists (reported (th_b th) (y_v y)). split; [by apply (intr_round_more _ h), C|]. by apply (reports y i th h m s _ V Hth Hpc Hi Hq).
Qed.
