(* ===== verification/VirtioProps.v ===== *)
(** * The disk driver transfers the right blocks *)
From S2P Require Import Prelude Kstring Kalloc Block Ring Virtio VirtioSys VirtioSteps.

(** ** Every step preserves the invariant *)

Lemma rw_wait_returns me b h m s th y (Q : unit → vstate → Prop) R v : sized (vs_disk v) → vs_lock v = true → bf_disk (vs_buf v b) ≠ 1 →
  NoDup [h; m; s] → is_taken v h → is_taken v m → is_taken v s → vs_disk v = y_disk y → chain_ok y th h m s →
  Q tt (put_lock false (given3 h m s (forget_info h v))) → wps (rw_wait me b h) Q R v.
Proof.
  intros Hs Hl Hb HN Th Tm Ts Ed [C1 C2 C3 _ _] HQ. unfold rw_wait. apply wps_bind_wp, wp_gets. rewrite (proj2 (Z.eqb_neq _ _) Hb). apply wps_wp.
  apply wp_bind, wp_modify, wp_bind. rewrite <- Ed in *. eapply (free_chain_spec _ (forget_info h v)); try done; [apply has_next|]. by apply wp_release.
Qed.

Lemma start_ok bufs blocks : vinv (start bufs blocks).
Proof.
  split.
  - by split.
  - split; simpl; [intros i th Hi|intros i j th th' _ Hi|intros i th Hi]; by rewrite lookup_empty in Hi.
  - intros i th Hi. simpl in Hi. by rewrite lookup_empty in Hi.
  - intros k. split; [intros [Hk _]; split; [done|intros i th Hi; simpl in Hi; by rewrite lookup_empty in Hi]|]. intros [Hk _]. split; [done|].
    unfold at_. simpl. apply (lookup_replicate_2 8). lia.
  - intros h Hh. by apply elem_of_nil in Hh.
  - constructor.
  - apply L_none; [done|done|]. intros j th Hj. simpl in Hj. by rewrite lookup_empty in Hj.
  - intros i c Hi. by apply elem_of_nil in Hi.
Qed.

Section system.
Variable dev : vsys → option vsys → Prop.
Hypothesis device : virtio_device dev.
Abbreviation vstep := (vstep dev).
Abbreviation reachable := (reachable dev).

Lemma wps_result {A} (m : M vstate A) Q R i th y p q : wps m Q R (y_v y) →
  (∀ a v, Q a v → vinv (set_v v (set_thr (<[i := set_pc (p a) th]> (y_thr y)) y))) →
  (∀ v, R v → vinv (set_v v (set_thr (<[i := set_pc q th]> (y_thr y)) y))) →
  ∃ y', thread_result i th y (m (y_v y)) p q = Some y' ∧ vinv y' ∧ y_blocks y' = y_blocks y.
Proof. unfold wps, thread_result. intros Hm HQ HR. destruct (m (y_v y)); try done; eexists; split_and!; eauto. Qed.

Lemma alloc_step y i th : vinv y → y_thr y !! i = Some th → th_pc th = PAlloc → awake i y → vs_lock (y_v y) = false →
  ∃ y', thread_result i th y (rw_begin i (th_b th) (th_write th) (y_v y)) (λ x, PPost x.1.1 x.1.2 x.2) PAlloc = Some y' ∧ vinv y' ∧ y_blocks y' = y_blocks y.
Proof.
  intros V Hi Hpc Ha Hl.
  apply (wps_result _ (λ x v, ∃ h m s, x = (h, m, s) ∧ is_free (y_v y) h ∧ is_free (y_v y) m ∧ is_free (y_v y) s ∧ NoDup [h; m; s] ∧
      v = formatted (th_b th) (th_write th) h m s (taken3 h m s (put_lock true (y_v y))))
    (λ v, ∃ v', v = fell_asleep i FREE_CHAN v' ∧ put_back (put_lock true (y_v y)) v' ∧ ∃ k, is_taken (y_v y) k)).
  - apply rw_begin_spec; [by apply sized_inv|done|eauto|]. intros h m s Hh Hm Hs HN. by exists h, m, s.
  - intros x v (h & m & s & -> & Hh & Hm & Hs & HN & ->). by apply alloc_gets.
  - intros v (v' & -> & Hp & Ht). rewrite <- Hpc at 1. rewrite set_pc_id, set_thr_id by done. by apply (alloc_sleeps y i th).
Qed.
Lemma post_step y i th h m s : vinv y → y_thr y !! i = Some th → th_pc th = PPost h m s →
  ∃ y', thread_result i th y (rw_end i (th_b th) h (y_v y)) (λ _, PDone) (PWait h m s) = Some y' ∧ vinv y' ∧ y_blocks y' = y_blocks y.
Proof.
  intros V Hi Hpc. pose proof (vi_threads y V i th Hi) as Hth. unfold thread_ok in Hth. rewrite Hpc in Hth. destruct Hth as (_ & _ & B & _).
  destruct (posting_alone y i th V Hi) as (HL & _); [unfold is_post; by rewrite Hpc|].
  apply (wps_result _ (λ _ _, False) (λ v, v = fell_asleep i (th_b th) (advanced (y_v y)))); [|done|].
  - unfold rw_end. apply wps_bind_wp, wp_modify, rw_wait_sleeps; done.
  - intros v ->. by apply rw_posts.
Qed.
Lemma wait_step y i th h m s : vinv y → y_thr y !! i = Some th → th_pc th = PWait h m s → awake i y → vs_lock (y_v y) = false →
  ∃ y', thread_result i th y (rw_wait_resume i (th_b th) h (y_v y)) (λ _, PDone) (PWait h m s) = Some y' ∧ vinv y' ∧ y_blocks y' = y_blocks y.
Proof.
  intros V Hi Hpc Ha Hl. pose proof (vi_threads y V i th Hi) as Hth. unfold thread_ok in Hth. rewrite Hpc in Hth. destruct Hth as [C _].
  assert (Et : triple th = [h; m; s]) by (unfold triple; by rewrite Hpc).
  destruct (decide (bf_disk (y_buf y (th_b th)) = 1)) as [Hb|Hb].
  - apply (wps_result _ (λ _ _, False) (λ v, v = fell_asleep i (th_b th) (put_lock true (y_v y)))); [|done|].
    + unfold rw_wait_resume. apply wps_bind_wp, wp_acquire; [done|]. by apply rw_wait_sleeps.
    + intros v ->. rewrite <- Hpc at 1. rewrite set_pc_id, set_thr_id by done. by apply (rw_waits_again y i th h m s).
  - apply (wps_result _ (λ _ v, v = put_lock false (given3 h m s (forget_info h (put_lock true (y_v y))))) (λ _, False)); [|intros _ v ->; by apply rw_returns|done].
    unfold rw_wait_resume. apply wps_bind_wp, wp_acquire; [done|]. eapply (rw_wait_returns _ _ _ m s th y); try done; [by apply sized_inv|..].
    + rewrite <- Et. by apply (ow_triple y (vi_own y V) i).
    + apply (triple_taken y i th h V Hi). rewrite Et. set_solver.
    + apply (triple_taken y i th m V Hi). rewrite Et. set_solver.
    + apply (triple_taken y i th s V Hi). rewrite Et. set_solver.
Qed.

Lemma vstep_ok y o : vinv y → vstep y o → ∃ y', o = Some y' ∧ vinv y' ∧ only_writes y y'.
Proof.
  intros V Hs. assert (K : ∀ o, (∃ y', o = Some y' ∧ vinv y' ∧ y_blocks y' = y_blocks y) → ∃ y', o = Some y' ∧ vinv y' ∧ only_writes y y').
  { intros o' (y' & E & V' & Eb). exists y'. split_and!; [done|done|]. intros k. left. by rewrite Eb. }
  destruct Hs as [i b write ? ? ? ? ? ?|i th|i th h m s|i th h m s|i th ? ?|b x ?|?|?|o Hd]; [apply K; eexists; split_and!; [done|by apply call_ok|done]|..].
  - by apply K, alloc_step.
  - by apply K, post_step.
  - by apply K, wait_step.
  - apply K. eexists. split_and!; [done|by apply (return_ok y i th)|done].
  - apply K. eexists. split_and!; [done|by apply touch_ok|done].
  - apply K. eexists. split_and!; [done|by apply intr_begins|done].
  - apply K. destruct (round_ok y V) as [(v & -> & V')| ->]; [done|by eexists|]. eexists. split_and!; [done|by apply intr_ends|done].
  - destruct (device y o Hd) as [[Hn ->]|(h & Hh & ->)]; [|by apply complete_ok]. apply K. eexists. split_and!; [done|by apply fetch_ok|done].
Qed.
Lemma vreachable_ok bufs blocks y : reachable (start bufs blocks) y → vinv y.
Proof.
  induction 1 as [|y y' _ IH Hs]; [apply start_ok|]. destruct (vstep_ok y _ IH Hs) as (y'' & [= <-] & V & _). done.
Qed.
End system.

(** C18: However calls of [virtio_disk_rw], interrupts and the steps of a
    virtio device interleave, starting from the state that the
    initialisation leaves: no step panics or shows the device a malformed
    request; the only changes to the disk are that blocks of calls that write
    get the data the caller's buffer held; and when a call is done, buffer and
    block agree, the data being the buffer's if it was a write and the block's
    if it was a read, as they were when the call began. *)
Theorem virtio_rw_correct dev bufs blocks y : virtio_device dev → reachable dev (start bufs blocks) y →
  (∀ o, vstep dev y o → ∃ y', o = Some y' ∧ only_writes y y') ∧
  (∀ i th, y_thr y !! i = Some th → th_pc th = PDone →
     disk_of y th = data_of y th ∧ if th_write th then data_of y th = th_data th else disk_of y th = th_block th).
Proof.
  intros Hd Hr. pose proof (vreachable_ok dev Hd bufs blocks y Hr) as V. split.
  - intros o Hs. destruct (vstep_ok dev Hd y o V Hs) as (y' & E & _ & Hw). by exists y'.
  - intros i th Hi Hpc. pose proof (vi_threads y V i th Hi) as Hth. unfold thread_ok in Hth. by rewrite Hpc in Hth.
Qed.

(** ** No wakeup is lost *)

(** Someone can go on: a thread that does not sleep, the interrupt handler,
    which runs or has something to do, or the device. *)
Definition can_go (dev : vsys → option vsys → Prop) (y : vsys) : Prop :=
  (∃ i th, y_thr y !! i = Some th ∧ (is_post th ∨ (th_pc th ≠ PDone ∧ awake i y ∧ vs_lock (y_v y) = false))) ∨
  y_intr y = true ∨
  (vs_lock (y_v y) = false ∧ dk_seen (y_disk y) ≠ dk_used_idx (y_disk y)) ∨
  (∃ o, dev y o).

Lemma awake_or_not i y : awake i y ∨ ∃ c, (i, c) ∈ vs_asleep (y_v y).
Proof.
  unfold awake. induction (vs_asleep (y_v y)) as [|[j c] l IH]; [left; intros c []%elem_of_nil|].
  destruct (decide (j = i)) as [->|Hn]; [right; exists c; set_solver|]. destruct IH as [IH|[c' Hc]]; [left|right; exists c'; set_solver].
  intros c' [[= <- <-]|Hc]%elem_of_cons; [done|by apply (IH c')].
Qed.
Lemma queue_nonempty buf i j x : x ∈ queue 16 8 buf i j → i ≠ j.
Proof. intros Hx ->. rewrite queue_empty in Hx. by apply elem_of_nil in Hx. Qed.

Section progress.
Variables (dev : vsys → option vsys → Prop) (y : vsys).
Hypotheses (works : device_works dev) (V : vinv y) (Hl : vs_lock (y_v y) = false).

Lemma waiter_goes i th h m s : y_thr y !! i = Some th → th_pc th = PWait h m s → can_go dev y.
Proof.
  intros Hi Hpc. destruct (awake_or_not i y) as [Ha|[c Hc]]; [left; exists i, th; split; [done|right; by rewrite Hpc]|].
  destruct (vi_asleep y V i c Hc) as (t & Ht & Hs). replace t with th in Hs by congruence. unfold sleeps_for in Hs. rewrite Hpc in Hs. destruct Hs as [_ B].
  pose proof (vi_threads y V i th Hi) as Hth. unfold thread_ok in Hth. rewrite Hpc in Hth. destruct Hth as [_ [_ F _ _|_ U _ _ _|B' _ _ _]]; [| |congruence].
  - right; right; right. apply works. apply elem_of_app in F as [F|F]; [left; by eapply queue_nonempty|right]. intros E. rewrite E in F. by apply elem_of_nil in F.
  - right; right; left. split; [done|]. by eapply queue_nonempty.
Qed.
Lemma taken_by_thread k : is_taken (y_v y) k → ∃ i th, y_thr y !! i = Some th ∧ k ∈ triple th.
Proof.
  intros [Hk Ht]. destruct (decide (map_Forall (λ _ th, k ∉ triple th) (y_thr y))) as [HF|HF].
  - assert (is_free (y_v y) k) as [_ E] by (by apply (vi_free y V)). congruence.
  - apply map_not_Forall in HF as (i & th & Hi & Hn); [|solve_decision]. exists i, th. split; [done|]. by apply dec_stable.
Qed.
End progress.


(** ** A run of the disk driver

    A call writes buffer 7 to block 5, from its beginning to its return. *)

Module VirtioDemo.

(** A device that may do whatever a device may do. *)
Definition ideal (y : vsys) (o : option vsys) : Prop :=
  (y_seen y ≠ dk_avail_idx (y_disk y) ∧ o = Some (dev_fetch y)) ∨ (∃ h, h ∈ y_active y ∧ o = dev_complete h y).
Lemma ideal_virtio : virtio_device ideal.
Proof. by intros y o. Qed.
Lemma ideal_works : device_works ideal.
Proof.
  intros y [Hn|Ha]; [by eexists; left|]. destruct (y_active y) as [|h l] eqn:E; [done|].
  eexists. right. exists h. rewrite E. split; [by left|done].
Qed.

Definition bufs (b : Z) : dbuf := if b =? 7 then DBuf 0 5 [1; 2; 3] else DBuf 0 6 [].
Definition blocks (k : Z) : list Z := [k; k].

(** The first call, up to its sleep. *)
Definition called : vsys := set_thr {[ 1 := Thread 7 true PAlloc [1; 2; 3] [5; 5] ]} (start bufs blocks).
Definition result (o : option vsys) : vsys := default (start bufs blocks) o.
Definition th_of (i : Z) (y : vsys) : thread := default (Thread 0 false PDone [] []) (y_thr y !! i).
Definition formats : vsys := result (thread_result 1 (th_of 1 called) called (rw_begin 1 7 true (y_v called)) (λ x, PPost x.1.1 x.1.2 x.2) PAlloc).
Definition sleeps : vsys := result (thread_result 1 (th_of 1 formats) formats (rw_end 1 7 0 (y_v formats)) (λ _, PDone) (PWait 0 1 2)).
Definition fetched : vsys := dev_fetch sleeps.
Definition completed : vsys := result (dev_complete 0 fetched).
Definition interrupted : vsys := set_intr true (set_v (put_lock true (y_v completed)) completed).
Definition round (y : vsys) : option vsys :=
  match intr_round (y_v y) with
  | Ok true v => Some (set_v v y)
  | Ok false v => Some (set_intr false (set_v (put_lock false v) y))
  | _ => None
  end.
Definition handled : vsys := result (round (result (round interrupted))).
Definition returned : vsys := result (thread_result 1 (th_of 1 handled) handled (rw_wait_resume 1 7 0 (y_v handled)) (λ _, PDone) (PWait 0 1 2)).

(** Steps that do not fail. *)
Definition succeeds (o : option vsys) : bool := if o is Some _ then true else false.
Lemma goes y0 y o : reachable ideal y0 y → vstep ideal y o → succeeds o = true → reachable ideal y0 (result o).
Proof. intros Hr Hs Ho. destruct o; [|done]. by eapply R_step. Qed.
Lemma awake_nobody y i : vs_asleep (y_v y) = [] → awake i y.
Proof. intros E c Hc. rewrite E in Hc. by apply elem_of_nil in Hc. Qed.

Lemma reach_called : reachable ideal (start bufs blocks) called.
Proof.
  eapply R_step; [apply R_start|]. apply (S_call _ (start bufs blocks) 1 7 true); try done. by apply awake_nobody.
Qed.
Lemma reach_formats : reachable ideal (start bufs blocks) formats.
Proof.
  apply (goes _ called); [apply reach_called| |vm_compute; reflexivity].
  apply (S_alloc _ called 1 (th_of 1 called)); [reflexivity|reflexivity|by apply awake_nobody|reflexivity].
Qed.
Lemma reach_sleeps : reachable ideal (start bufs blocks) sleeps.
Proof.
  apply (goes _ formats); [apply reach_formats| |vm_compute; reflexivity].
  apply (S_post _ formats 1 (th_of 1 formats) 0 1 2); vm_compute; reflexivity.
Qed.
Lemma reach_completed : reachable ideal (start bufs blocks) completed.
Proof.
  apply (goes _ fetched); [|apply S_device; right; exists 0; split; [by left|reflexivity]|vm_compute; reflexivity].
  eapply R_step; [apply reach_sleeps|]. apply S_device. left. split; [|reflexivity]. vm_compute. discriminate.
Qed.
Lemma reach_handled : reachable ideal (start bufs blocks) handled.
Proof.
  apply (goes _ (result (round interrupted))); [|apply S_round; vm_compute; reflexivity|vm_compute; reflexivity].
  apply (goes _ interrupted); [|apply S_round; reflexivity|vm_compute; reflexivity].
  eapply R_step; [apply reach_completed|]. apply S_intr. vm_compute. reflexivity.
Qed.
Lemma reach_returned : reachable ideal (start bufs blocks) returned.
Proof.
  apply (goes _ handled); [apply reach_handled| |vm_compute; reflexivity].
  apply (S_wait _ handled 1 (th_of 1 handled) 0 1 2); [vm_compute; reflexivity|vm_compute; reflexivity| |vm_compute; reflexivity].
  apply awake_nobody. vm_compute. reflexivity.
Qed.

Lemma virtio_rw_correct_witness : virtio_device ideal ∧ reachable ideal (start bufs blocks) returned ∧
  th_pc (th_of 1 returned) = PDone ∧ disk_of returned (th_of 1 returned) = data_of returned (th_of 1 returned) ∧ data_of returned (th_of 1 returned) = [1; 2; 3].
Proof.
  split; [apply ideal_virtio|]. split; [apply reach_returned|]. split; [vm_compute; reflexivity|].
  exact (proj2 (virtio_rw_correct ideal bufs blocks returned ideal_virtio reach_returned) 1 (th_of 1 returned) eq_refl eq_refl).
Defined.
Lemma sleeps_asleep : vs_asleep (y_v sleeps) = [(1, 7)].
Proof. vm_compute. reflexivity. Qed.
Lemma sleeps_not_done : th_pc (th_of 1 sleeps) ≠ PDone.
Proof. vm_compute. discriminate. Qed.

(** With two descriptors left, two callers that wait for three wake each other
    up in turn: [alloc3_desc] takes the two and gives them back with
    [free_desc], which calls [wakeup].  They do not sleep until the disk is
    done. *)
Definition crowded (asleep : list (Z * Z)) : vstate :=
  VState (set_free [false; false; false; false; false; false; true; true] fresh_disk) bufs false asleep.
Definition left_asleep {A} (o : outcome vstate A) : option (list (Z * Z)) :=
  if o is Sleep _ v then Some (vs_asleep v) else None.
Example waiters_wake_each_other :
  left_asleep (rw_begin 4 9 false (crowded [(3, FREE_CHAN)])) = Some [(4, FREE_CHAN)] ∧
  left_asleep (rw_begin 3 7 false (crowded [(4, FREE_CHAN)])) = Some [(3, FREE_CHAN)].
Proof. vm_compute. done. Qed.

End VirtioDemo.

(** ** The disk driver's initialisation *)

Section init.
Variables (kend : Z) (read : list (Z * Z) → Z → Z).
Hypothesis kend_pos : 0 < kend.

(** What the device answers: its identity, a status register that keeps what
    the driver writes, and a queue that is long enough and not in use before
    the driver says so. *)
Record answers : Prop := {
  an_magic : ∀ w, read w VIRTIO_MMIO_MAGIC_VALUE = 0x74726976;
  an_version : ∀ w, read w VIRTIO_MMIO_VERSION = 2;
  an_device : ∀ w, read w VIRTIO_MMIO_DEVICE_ID = 2;
  an_vendor : ∀ w, read w VIRTIO_MMIO_VENDOR_ID = 0x554d4551;
  an_status : ∀ w v, read ((VIRTIO_MMIO_STATUS, v) :: w) VIRTIO_MMIO_STATUS = v;
  an_ready : ∀ w, (∀ v, (VIRTIO_MMIO_QUEUE_READY, v) ∉ w) → read w VIRTIO_MMIO_QUEUE_READY = 0;
  an_max : ∀ w, NUM ≤ read w VIRTIO_MMIO_QUEUE_NUM_MAX < 2 ^ 32
}.
Hypothesis answers_ok : answers.

(** A register's value is the last one written to it. *)
Definition reg (w : list (Z * Z)) (r : Z) : option Z := snd <$> List.find (λ x, x.1 =? r) w.

Lemma wp_zoom_k {A} (m : M kstate A) (Q : A → istate → Prop) s :
  wp m (λ a k, Q a (IState k (is_writes s) (is_v s))) (is_k s) → wp (ikern m) Q s.
Proof. unfold wp, ikern, zoom. by destruct (m (is_k s)). Qed.
Lemma wp_R r (Q : Z → istate → Prop) s : Q (u32 (read (is_writes s) r)) s → wp (R read r) Q s.
Proof. done. Qed.
Lemma wp_W r x (Q : unit → istate → Prop) k w v : Q tt (IState k ((r, u32 x) :: w) v) → wp (W r x) Q (IState k w v).
Proof. done. Qed.
Lemma memset_free m h l p : page_ok kend p → Forall (page_ok kend) l → p ∉ l → free_at m h l → free_at (memset m p 0 PGSIZE) h l.
Proof.
  intros Hp Hl Hn. eapply free_at_same_outside; [done..|]. intros x Hx. apply memset_out; unfold PGSIZE in *; lia.
Qed.
Lemma memset_kmem s p l : kmem_ok kend s l → page_ok kend p → p ∉ l →
  wp (upd_mem (λ m, memset m p 0 PGSIZE)) (λ _ s', kmem_ok kend s' l ∧ same_outside p (k_mem s) (k_mem s')) s.
Proof.
  intros [Hb Hl Hp Hn Hk] Hok Hnin. unfold upd_mem. apply wp_modify. split; [split; simpl; auto using memset_bytes_ok, memset_free|].
  intros x Hx. simpl. apply memset_out; [done|]. unfold PGSIZE in *. lia.
Qed.

(** The device is found and told where the three pages of the queue are, and
    the driver's state is the one of the system's [start].  No other memory
    changes. *)
Lemma virtio_disk_init_ok s p1 p2 p3 l : kmem_ok kend (is_k s) (p1 :: p2 :: p3 :: l) → is_writes s = [] →
  wp (virtio_disk_init read) (λ _ s', kmem_ok kend (is_k s') l ∧
    (∀ x, (∀ p, p ∈ [p1; p2; p3] → x < p ∨ p + PGSIZE ≤ x) → k_mem (is_k s') x = k_mem (is_k s) x) ∧
    vs_disk (is_v s') = fresh_disk ∧ vs_lock (is_v s') = false ∧ vs_asleep (is_v s') = vs_asleep (is_v s) ∧
    reg (is_writes s') VIRTIO_MMIO_QUEUE_NUM = Some NUM ∧ reg (is_writes s') VIRTIO_MMIO_QUEUE_READY = Some 1 ∧
    reg (is_writes s') VIRTIO_MMIO_QUEUE_DESC_LOW = Some (u32 p1) ∧ reg (is_writes s') VIRTIO_MMIO_DRIVER_DESC_LOW = Some (u32 p2) ∧
    reg (is_writes s') VIRTIO_MMIO_DEVICE_DESC_LOW = Some (u32 p3) ∧
    reg (is_writes s') VIRTIO_MMIO_STATUS = Some (1 + 2 + 8 + 4)) s.
Proof.
  intros Hk Hw. destruct s as [k w v]. simpl in *. subst w. unfold virtio_disk_init, R. wp_steps. simpl.
  rewrite (an_magic answers_ok), (an_version answers_ok), (an_device answers_ok), (an_vendor answers_ok). simpl. repeat (wp_step || apply wp_W). simpl.
  rewrite (an_status answers_ok). change (has_bits _ _) with true. simpl. repeat (wp_step || apply wp_W). simpl.
  rewrite (an_ready answers_ok) by set_solver. simpl. wp_steps. simpl.
  match goal with |- context [read ?w VIRTIO_MMIO_QUEUE_NUM_MAX] => pose proof (an_max answers_ok w) as Hm end. unfold NUM in Hm.
  rewrite wrap_small by lia. rewrite (proj2 (Z.eqb_neq _ 0)) by lia. rewrite (proj2 (Z.ltb_ge _ NUM)) by (unfold NUM; lia).
  pose proof (ok_pages _ _ _ Hk) as Hp. pose proof (ok_nodup _ _ _ Hk) as Hn.
  apply wp_bind, wp_zoom_k. wp_use kalloc_wp; [done|exact Hk|]. intros ? k1 (-> & Hk1 & S1 & _). apply wp_bind, wp_zoom_k. wp_use kalloc_wp; [done|exact Hk1|].
  intros ? k2 (-> & Hk2 & S2 & _). apply wp_bind, wp_zoom_k. wp_use kalloc_wp; [done|exact Hk2|]. intros ? k3 (-> & Hk3 & S3 & _).
  apply Forall_cons in Hp as [P1 Hp]. apply Forall_cons in Hp as [P2 Hp]. apply Forall_cons in Hp as [P3 Hp].
  apply NoDup_cons in Hn as [N1 Hn]. apply NoDup_cons in Hn as [N2 Hn]. apply NoDup_cons in Hn as [N3 _].
  apply not_elem_of_cons in N1 as [_ N1]. apply not_elem_of_cons in N1 as [_ N1]. apply not_elem_of_cons in N2 as [_ N2].
  rewrite !(proj2 (Z.eqb_neq _ 0)) by (eapply page_ok_nz; done). cbn [orb].
  apply wp_bind, wp_zoom_k. wp_use memset_kmem; [exact Hk3|done|done|]. intros _ k4 [Hk4 S4].
  apply wp_bind, wp_zoom_k. wp_use memset_kmem; [exact Hk4|done|done|]. intros _ k5 [Hk5 S5].
  apply wp_bind, wp_zoom_k. wp_use memset_kmem; [exact Hk5|done|done|]. intros _ k6 [Hk6 S6].
  do 8 apply wp_bind, wp_W. apply wp_bind, wp_modify, wp_W. split; [exact Hk6|]. split; [|repeat split; reflexivity].
  intros x Hx. assert (x < p1 ∨ p1 + PGSIZE ≤ x) by (apply Hx; set_solver). assert (x < p2 ∨ p2 + PGSIZE ≤ x) by (apply Hx; set_solver).
  assert (x < p3 ∨ p3 + PGSIZE ≤ x) by (apply Hx; set_solver). simpl. by rewrite S6, S5, S4, S3, S2, S1.
Qed.
End init.
