(* ===== verification/Mkfs.v ===== *)
(** * mkfs/mkfs.c: making the first disk image

    The image is a file of blocks on the host; reading past its end fails,
    writing there makes it longer.  A [struct dinode] and a [struct dirent]
    are the lists of their bytes.  [die] and a failed [assert] are panics. *)
From S2P Require Import Prelude Kstring Block Fs.

Definition NINODES : Z := 200.
Definition FSSIZE : Z := 2000.
Definition nbitmap : Z := FSSIZE / (BSIZE * 8) + 1.
Definition ninodeblocks : Z := NINODES / IPB + 1.
Definition nlog : Z := LOGSIZE.

Record mstate := MState {
  m_blocks : Z → block; m_len : Z;        (* the image *)
  m_sb : superblock;
  m_freeinode : Z; m_freeblock : Z
}.
Definition set_image f n s := MState f n (m_sb s) (m_freeinode s) (m_freeblock s).
Definition set_msb x s := MState (m_blocks s) (m_len s) x (m_freeinode s) (m_freeblock s).
Definition set_freeinode x s := MState (m_blocks s) (m_len s) (m_sb s) x (m_freeblock s).
Definition set_freeblock x s := MState (m_blocks s) (m_len s) (m_sb s) (m_freeinode s) x.

Definition die {A} (s : string) : M mstate A := panic s.
Definition assert (b : bool) : M mstate unit := if b then mret tt else panic "assert".

(** On a host that stores the low byte first. *)
Definition xshort (x : Z) : Z :=
  let a0 := u8 x in let a1 := u8 (Z.shiftr x 8) in a0 + 256 * a1.
Definition xint (x : Z) : Z :=
  let a0 := u8 x in let a1 := u8 (Z.shiftr x 8) in let a2 := u8 (Z.shiftr x 16) in let a3 := u8 (Z.shiftr x 24) in
  a0 + 256 * a1 + 256 ^ 2 * a2 + 256 ^ 3 * a3.

Definition wsect (sec : Z) (buf : block) : M mstate unit :=
  modify (λ s, let k := u32 (sec * BSIZE) / BSIZE in set_image (<[k := buf]> (m_blocks s)) (Z.max (m_len s) (k + 1)) s).
Definition rsect (sec : Z) : M mstate block :=
  let k := u32 (sec * BSIZE) / BSIZE in
  n ← gets m_len;
  if k <? n then gets (λ s, m_blocks s k) else die "read".

Definition winode (inum : Z) (ip : list Z) : M mstate unit :=
  sb ← gets m_sb;
  let bn := IBLOCK inum sb in
  buf ← rsect bn;
  wsect bn (blk_write buf ((inum `mod` IPB) * sizeof_dinode) ip).
Definition rinode (inum : Z) : M mstate (list Z) :=
  sb ← gets m_sb;
  let bn := IBLOCK inum sb in
  buf ← rsect bn;
  mret (blk_read buf ((inum `mod` IPB) * sizeof_dinode) (Z.to_nat sizeof_dinode)).

(** The fields [type], [nlink], [size] and [addrs[k]] of a [struct dinode]. *)
Definition din_size (din : list Z) : Z := blk_load 4 din 8.
Definition din_addr (k : Z) (din : list Z) : Z := blk_load 4 din (12 + 4 * k).
Definition set_din_type (x : Z) (din : list Z) : list Z := blk_store 2 din 0 x.
Definition set_din_nlink (x : Z) (din : list Z) : list Z := blk_store 2 din 6 x.
Definition set_din_size (x : Z) (din : list Z) : list Z := blk_store 4 din 8 x.
Definition set_din_addr (k x : Z) (din : list Z) : list Z := blk_store 4 din (12 + 4 * k) x.

Definition ialloc (type : Z) : M mstate Z :=
  inum ← gets m_freeinode;
  modify (set_freeinode (u32 (inum + 1))) ;;
  let din := replicate (Z.to_nat sizeof_dinode) 0 in
  let din := set_din_type (xshort type) din in
  let din := set_din_nlink (xshort 1) din in
  let din := set_din_size (xint 0) din in
  winode inum din ;;
  mret inum.

Fixpoint balloc_loop (i : Z) (k : nat) (buf : block) : block :=
  match k with
  | O => buf
  | S k => balloc_loop (i + 1) k (blk_store 1 buf (i / 8) (Z.lor (blk_load 1 buf (i / 8)) (Z.shiftl 1 (i `mod` 8))))
  end.
Definition balloc (used : Z) : M mstate unit :=
  assert (used <? BSIZE * 8) ;;
  sb ← gets m_sb;
  wsect (sb_bmapstart sb) (balloc_loop 0 (Z.to_nat used) zero_block).

(** [freeblock++] *)
Definition next_block : M mstate Z := b ← gets m_freeblock; modify (set_freeblock (u32 (b + 1))) ;; mret b.

(** The block of [fbn], allocated if there is none yet. *)
Definition append_block (din : list Z) (fbn : Z) : M mstate (list Z * Z) :=
  if fbn <? NDIRECT then
    din ← (if xint (din_addr fbn din) =? 0 then b ← next_block; mret (set_din_addr fbn (xint b) din) else mret din);
    mret (din, xint (din_addr fbn din))
  else
    din ← (if xint (din_addr NDIRECT din) =? 0 then b ← next_block; mret (set_din_addr NDIRECT (xint b) din) else mret din);
    indirect ← rsect (xint (din_addr NDIRECT din));
    indirect ← (if blk_load 4 indirect (4 * (fbn - NDIRECT)) =? 0 then
                  b ← next_block;
                  let indirect := blk_store 4 indirect (4 * (fbn - NDIRECT)) (xint b) in
                  wsect (xint (din_addr NDIRECT din)) indirect ;;
                  mret indirect
                else mret indirect);
    mret (din, xint (blk_load 4 indirect (4 * (fbn - NDIRECT)))).

(** [p] are the bytes that are left; every round takes one at least. *)
Fixpoint iappend_loop (fuel : nat) (din : list Z) (off : Z) (p : list Z) : M mstate (list Z * Z) :=
  match fuel with
  | O => nofuel
  | S fuel =>
      let n := Z.of_nat (length p) in
      if n >? 0 then
        let fbn := off / BSIZE in
        assert (fbn <? MAXFILE) ;;
        '(din, x) ← append_block din fbn;
        let n1 := Z.min n ((fbn + 1) * BSIZE - off) in
        buf ← rsect x;
        wsect x (blk_write buf (off - fbn * BSIZE) (firstn (Z.to_nat n1) p)) ;;
        iappend_loop fuel din (u32 (off + n1)) (skipn (Z.to_nat n1) p)
      else mret (din, off)
  end.
Definition iappend (inum : Z) (p : list Z) : M mstate unit :=
  din ← rinode inum;
  '(din, off) ← iappend_loop (length p + 1) din (xint (din_size din)) p;
  winode inum (set_din_size (xint off) din).

(** ** main *)

Fixpoint zero_loop (i : Z) (k : nat) : M mstate unit :=
  match k with O => mret tt | S k => wsect i zero_block ;; zero_loop (i + 1) k end.

(** [sizeof(sb)] bytes, eight words. *)
Definition sb_bytes (sb : superblock) : list Z :=
  flat_map (λ x, read_bytes (store_le (λ _, 0) 0 4 x) 0 4)
    [sb_magic sb; sb_size sb; sb_nblocks sb; sb_ninodes sb; sb_nlog sb; sb_logstart sb; sb_inodestart sb; sb_bmapstart sb].

Definition zero_dirent : list Z := replicate (Z.to_nat sizeof_dirent) 0.
(** A directory entry with its name. *)
Definition dirent (inum : Z) (name : list Z) : list Z := put_dirent (name ++ [0]) (xshort inum) zero_dirent.

(** An argument: its name, and the file's bytes in the pieces that [read]
    returns, or nothing if it cannot be opened. *)
Record input := Input { in_name : list Z; in_data : option (list (list Z)) }.

Definition user_slash : list Z := [117; 115; 101; 114; 47].
Definition skip_user (name : list Z) : list Z := if bool_decide (firstn 5 name = user_slash) then skipn 5 name else name.
Definition skip_underscore (name : list Z) : list Z := match name with c :: l => if c =? 95 then l else name | [] => [] end.

Fixpoint append_pieces (inum : Z) (l : list (list Z)) : M mstate unit :=
  match l with [] => mret tt | p :: l => iappend inum p ;; append_pieces inum l end.

Definition add_file (rootino : Z) (f : input) : M mstate unit :=
  let shortname := skip_user (in_name f) in
  assert (bool_decide (SLASH ∉ shortname)) ;;
  match in_data f with
  | None => die "open"
  | Some pieces =>
      let shortname := skip_underscore shortname in
      inum ← ialloc T_FILE;
      iappend rootino (dirent inum shortname) ;;
      append_pieces inum pieces
  end.
Fixpoint add_files (rootino : Z) (l : list input) : M mstate unit :=
  match l with [] => mret tt | f :: l => add_file rootino f ;; add_files rootino l end.

Definition nmeta : Z := 2 + nlog + ninodeblocks + nbitmap.
Definition nblocks : Z := FSSIZE - nmeta.
Definition mkfs_sb : superblock :=
  Superblock FSMAGIC (xint FSSIZE) (xint nblocks) (xint NINODES) (xint nlog) (xint 2) (xint (2 + nlog)) (xint (2 + nlog + ninodeblocks)).

(** [main], from the opened and truncated image on. *)
Definition main (files : list input) : M mstate unit :=
  modify (set_msb mkfs_sb) ;;
  modify (set_freeblock nmeta) ;;
  zero_loop 0 (Z.to_nat FSSIZE) ;;
  wsect 1 (blk_write zero_block 0 (sb_bytes mkfs_sb)) ;;
  rootino ← ialloc T_DIR;
  assert (rootino =? ROOTINO) ;;
  iappend rootino (dirent rootino [46]) ;;
  iappend rootino (dirent rootino [46; 46]) ;;
  add_files rootino files ;;
  din ← rinode rootino;
  let off := xint (din_size din) in
  let off := (off / BSIZE + 1) * BSIZE in
  winode rootino (set_din_size (xint off) din) ;;
  used ← gets m_freeblock;
  balloc used.

(** The globals when [main] starts, and the empty image. *)
Definition mkfs_start : mstate := MState (λ _, zero_block) 0 (Superblock 0 0 0 0 0 0 0 0) 1 0.
