(* ===== verification/MkfsProps.v ===== *)
(** * The image that mkfs writes is a file system

    The blocks of an image are described file by file: which blocks a file
    has, and what they hold.  [iappend] extends the contents of one file and
    leaves the others alone. *)
From S2P Require Import Prelude Kstring Block Sleeplock BufCache Log LogDisk LogProps Txn Fs FsBase FsBlock FsFile FsInode Mkfs.

(** ** Words and inodes *)

Lemma xint_id x : 0 ≤ x < 2 ^ 32 → xint x = x.
Proof.
  intros Hx. unfold xint, wrap. rewrite !Z.shiftr_div_pow2 by lia. change (2 ^ 8) with 256. change (2 ^ 16) with 65536. change (2 ^ 24) with 16777216.
  change (256 ^ 2) with 65536. change (256 ^ 3) with 16777216. change (2 ^ 32) with 4294967296 in Hx.
  Z.to_euclidean_division_equations. lia.
Qed.
Lemma xshort_id x : 0 ≤ x < 2 ^ 16 → xshort x = x.
Proof.
  intros Hx. unfold xshort, wrap. rewrite !Z.shiftr_div_pow2 by lia. change (2 ^ 8) with 256. change (2 ^ 16) with 65536 in Hx.
  Z.to_euclidean_division_equations. lia.
Qed.

Lemma blk_load_read n b off k i : 0 ≤ off → 0 ≤ i → i + Z.of_nat n ≤ Z.of_nat k → blk_load n (blk_read b off k) i = blk_load n b (off + i).
Proof.
  intros Ho Hi Hn. unfold blk_load. revert i Hi Hn. induction n as [|n IH]; intros i Hi Hn; [done|]. simpl.
  rewrite IH by lia. rewrite Z.add_assoc. f_equal. unfold blk_mem at 1, blk_read. rewrite list_lookup_total_alt, read_bytes_lookup by lia. simpl. f_equal. lia.
Qed.

(** The layout that [main] uses. *)
Abbreviation sb := mkfs_sb.
Definition IB (inum : Z) : Z := inum / 16 + 32.
Definition at_block (inum : Z) : Z := inum `mod` 16 * 64.
Definition din_at (V : Z → block) (inum : Z) : list Z := blk_read (V (IB inum)) (at_block inum) 64.
Definition put_din (inum : Z) (din : list Z) (V : Z → block) : Z → block := <[IB inum := blk_write (V (IB inum)) (at_block inum) din]> V.
Definition img (V : Z → block) (fb fi : Z) : mstate := MState V FSSIZE sb fi fb.

Lemma mkfs_sb_is : sb = Superblock FSMAGIC 2000 1954 200 30 2 32 45.
Proof. reflexivity. Qed.
Lemma mkfs_sb_ok : sb_ok sb.
Proof. split; vm_compute; intuition discriminate. Qed.

Lemma sect_small sec : 0 ≤ sec < FSSIZE → u32 (sec * BSIZE) / BSIZE = sec.
Proof. unfold FSSIZE, BSIZE. intros Hs. rewrite wrap_small by lia. by rewrite Z.div_mul. Qed.
Lemma wsect_spec (Q : unit → mstate → Prop) sec buf V fb fi : 0 ≤ sec < FSSIZE → Q tt (img (<[sec := buf]> V) fb fi) → wp (wsect sec buf) Q (img V fb fi).
Proof. intros Hs HQ. unfold wsect. apply wp_modify. rewrite sect_small by done. unfold set_image. simpl. rewrite Z.max_l by lia. done. Qed.
Lemma rsect_spec (Q : block → mstate → Prop) sec V fb fi : 0 ≤ sec < FSSIZE → Q (V sec) (img V fb fi) → wp (rsect sec) Q (img V fb fi).
Proof. intros Hs HQ. unfold rsect. rewrite sect_small by done. apply wp_bind, wp_gets. simpl. rewrite (proj2 (Z.ltb_lt _ _)) by lia. by apply wp_gets. Qed.

Lemma IB_range inum : 0 ≤ inum < 208 → 32 ≤ IB inum < 45 ∧ 0 ≤ at_block inum ∧ at_block inum + 64 ≤ 1024.
Proof. intros Hi. unfold IB, at_block. Z.to_euclidean_division_equations. lia. Qed.
Lemma winode_spec (Q : unit → mstate → Prop) inum din V fb fi : 0 ≤ inum < 208 → Q tt (img (put_din inum din V) fb fi) → wp (winode inum din) Q (img V fb fi).
Proof.
  intros Hi HQ. destruct (IB_range inum Hi) as [HB _]. unfold winode. apply wp_bind, wp_gets. change (IBLOCK inum (m_sb (img V fb fi))) with (IB inum).
  apply wp_bind, rsect_spec; [unfold FSSIZE; lia|]. apply wsect_spec; [unfold FSSIZE; lia|]. exact HQ.
Qed.
Lemma rinode_spec (Q : list Z → mstate → Prop) inum V fb fi : 0 ≤ inum < 208 → Q (din_at V inum) (img V fb fi) → wp (rinode inum) Q (img V fb fi).
Proof.
  intros Hi HQ. destruct (IB_range inum Hi) as [HB _]. unfold rinode. apply wp_bind, wp_gets. change (IBLOCK inum (m_sb (img V fb fi))) with (IB inum).
  apply wp_bind, rsect_spec; [unfold FSSIZE; lia|]. apply wp_ret. exact HQ.
Qed.

Lemma din_at_put V i j din : (∀ n, blk_ok (V n)) → 0 ≤ i < 208 → 0 ≤ j < 208 → length din = 64%nat →
  din_at (put_din i din V) j = if decide (i = j) then din else din_at V j.
Proof.
  intros HV Hi Hj Hl. destruct (IB_range i Hi) as (_ & ? & ?), (IB_range j Hj) as (_ & ? & ?). pose proof (proj1 (HV (IB i))) as HL. change (Z.to_nat BSIZE) with 1024%nat in HL.
  unfold din_at, put_din. destruct (decide (IB i = IB j)) as [E|E].
  - rewrite <- E, fn_lookup_insert. case_decide as Eij.
    + subst j. rewrite <- Hl. apply blk_read_write; lia.
    + apply blk_read_write_other; try lia. unfold IB, at_block in *. Z.to_euclidean_division_equations. lia.
  - rewrite fn_lookup_insert_ne by done. rewrite decide_False; [done|congruence].
Qed.
Lemma put_din_ok V i din : (∀ n, blk_ok (V n)) → 0 ≤ i < 208 → length din = 64%nat → Forall (λ x, 0 ≤ x < 256) din → ∀ n, blk_ok (put_din i din V n).
Proof.
  intros HV Hi Hl Hf n. destruct (IB_range i Hi) as (_ & ? & ?). unfold put_din. destruct (decide (IB i = n)) as [<-|]; [|by rewrite fn_lookup_insert_ne].
  rewrite fn_lookup_insert. apply blk_write_ok; [done|lia|change BSIZE with 1024; lia|done].
Qed.

(** ** The files of an image *)

(** The slots of a file and its bytes, from its inode on. *)
Definition dslot (V : Z → block) (din : list Z) (k : Z) : Z :=
  if k <=? 12 then din_addr k din else if din_addr 12 din =? 0 then 0 else blk_load 4 (V (din_addr 12 din)) (4 * (k - 13)).
Definition daddr (V : Z → block) (din : list Z) (bn : Z) : Z := dslot V din (slot_of bn).
Definition dbyte (V : Z → block) (din : list Z) (o : Z) : Z :=
  if daddr V din (o / BSIZE) =? 0 then 0 else blk_mem (V (daddr V din (o / BSIZE))) (o `mod` BSIZE).

(** A file: its inode, its number of blocks, whether it has an indirect block,
    and its contents. *)
Record fent := Fent { f_din : list Z; f_m : Z; f_ib : bool; f_c : list Z }.
Definition cost (m : Z) (ib : bool) : Z := m + if ib then 1 else 0.
Definition total (fs : list fent) : Z := foldr (λ f a, cost (f_m f) (f_ib f) + a) 0 fs.

Record file_at (V : Z → block) (f : fent) : Prop := {
  fa_len : length (f_din f) = 64%nat;
  fa_bytes : Forall (λ x, 0 ≤ x < 256) (f_din f);
  fa_m : 0 ≤ f_m f ≤ MAXFILE;
  fa_blocks : ∀ bn, 0 ≤ bn < MAXFILE → daddr V (f_din f) bn ≠ 0 ↔ bn < f_m f;
  fa_ib : din_addr 12 (f_din f) ≠ 0 ↔ f_ib f = true;
  fa_many : 12 < f_m f → f_ib f = true;
  fa_data : ∀ o, 0 ≤ o < MAXFILE * BSIZE → dbyte V (f_din f) o = default 0 (f_c f !! Z.to_nat o)
}.
Record world (V : Z → block) (fb : Z) (fs : list fent) : Prop := {
  w_blk : ∀ n, blk_ok (V n);
  w_file : ∀ i f, fs !! i = Some f → file_at V f;
  w_range : ∀ i f k, fs !! i = Some f → 0 ≤ k < NSLOT → dslot V (f_din f) k ≠ 0 → nmeta ≤ dslot V (f_din f) k < fb;
  w_uniq : ∀ i j f g k l, fs !! i = Some f → fs !! j = Some g → 0 ≤ k < NSLOT → 0 ≤ l < NSLOT →
    dslot V (f_din f) k = dslot V (f_din g) l → dslot V (f_din f) k ≠ 0 → i = j ∧ k = l;
  w_fresh : ∀ n, fb ≤ n → V n = zero_block;
  w_fb : fb = nmeta + total fs
}.

Lemma total_insert fs (i : nat) f g : fs !! i = Some f → total (<[i := g]> fs) = total fs - cost (f_m f) (f_ib f) + cost (f_m g) (f_ib g).
Proof.
  revert i. induction fs as [|h fs IH]; intros [|i] Hi; simpl in *; try done; [injection Hi as ->; lia|]. rewrite (IH i Hi). lia.
Qed.
Lemma total_nonneg V fb fs : world V fb fs → 0 ≤ total fs.
Proof.
  intros W. assert (H : ∀ i f, fs !! i = Some f → 0 ≤ f_m f) by (intros i f Hi; apply (w_file _ _ _ W i f Hi)). clear W.
  induction fs as [|f fs IH]; simpl; [lia|]. pose proof (H 0%nat f eq_refl). pose proof (IH (λ i, H (S i))). unfold cost. destruct (f_ib f); lia.
Qed.
Lemma world_fb V fb fs : world V fb fs → nmeta ≤ fb.
Proof. intros W. pose proof (total_nonneg _ _ _ W). pose proof (w_fb _ _ _ W). lia. Qed.

(** The slots depend on the indirect block only. *)
Lemma dslot_ext V V' din k : (din_addr 12 din ≠ 0 → V (din_addr 12 din) = V' (din_addr 12 din)) → dslot V din k = dslot V' din k.
Proof. intros E. unfold dslot. destruct (k <=? 12); [done|]. destruct (Z.eqb_spec (din_addr 12 din) 0); [done|]. by rewrite E. Qed.
Lemma slot_12 V din : dslot V din 12 = din_addr 12 din.
Proof. done. Qed.
Lemma slot_of_12 bn : 0 ≤ bn < MAXFILE → 0 ≤ slot_of bn < NSLOT ∧ slot_of bn ≠ 12.
Proof. apply slot_of_range. Qed.
Lemma off_range o : 0 ≤ o < MAXFILE * BSIZE → 0 ≤ o / BSIZE < MAXFILE ∧ 0 ≤ o `mod` BSIZE < BSIZE.
Proof. unfold BSIZE. change MAXFILE with 268. intros. Z.to_euclidean_division_equations. lia. Qed.

(** What is not a block of the files may change. *)
Lemma file_at_ext V V' f : file_at V f → (∀ k, 0 ≤ k < NSLOT → dslot V (f_din f) k ≠ 0 → V' (dslot V (f_din f) k) = V (dslot V (f_din f) k)) →
  file_at V' f ∧ ∀ k, dslot V' (f_din f) k = dslot V (f_din f) k.
Proof.
  intros [F1 F2 F3 F4 F5 F6 F7] E. assert (ES : ∀ k, dslot V' (f_din f) k = dslot V (f_din f) k).
  { intros k. apply dslot_ext. intros Hn. rewrite <- (slot_12 V) in *. by apply E. }
  split; [|done]. split; try done.
  - intros bn Hb. unfold daddr. rewrite ES. by apply F4.
  - intros o Ho. rewrite <- F7 by done. unfold dbyte, daddr. rewrite ES. destruct (Z.eqb_spec (dslot V (f_din f) (slot_of (o / BSIZE))) 0) as [|Hn]; [done|].
    rewrite E; [done| |done]. by apply slot_of_12, off_range.
Qed.
Lemma world_ext V V' fb fs : world V fb fs → (∀ n, nmeta ≤ n → V' n = V n) → (∀ n, blk_ok (V' n)) → world V' fb fs.
Proof.
  intros W E HV. assert (X : ∀ i f, fs !! i = Some f → file_at V' f ∧ ∀ k, dslot V' (f_din f) k = dslot V (f_din f) k).
  { intros i f Hi. apply file_at_ext; [by apply (w_file _ _ _ W i)|]. intros k Hk Hn. apply E. by apply (w_range _ _ _ W i f k). }
  destruct (W) as [W1 W2 W3 W4 W5 W6]. split; try done.
  - intros i f Hi. by apply (X i f).
  - intros i f k Hi. rewrite (proj2 (X i f Hi)). eauto.
  - intros i j f g k l Hi Hj. rewrite (proj2 (X i f Hi)), (proj2 (X j g Hj)). eauto.
  - intros n Hn. rewrite E; [by apply W5|]. pose proof (world_fb _ _ _ W). lia.
Qed.

(** ** Writing the data of a file *)

Lemma app_default (c p : list Z) o : 0 ≤ o →
  default 0 ((c ++ p) !! Z.to_nat o) = if decide (Z.of_nat (length c) ≤ o < Z.of_nat (length c + length p)) then p !!! Z.to_nat (o - length c) else default 0 (c !! Z.to_nat o).
Proof.
  intros Ho. case_decide as Hd.
  - rewrite lookup_app_r by lia. rewrite list_lookup_total_alt. replace (Z.to_nat o - length c)%nat with (Z.to_nat (o - length c)) by lia.
    destruct (lookup_lt_is_Some_2 p (Z.to_nat (o - length c))) as [x ->]; [lia|done].
  - destruct (decide (o < Z.of_nat (length c))); [by rewrite lookup_app_l by lia|]. rewrite lookup_ge_None_2 by (rewrite length_app; lia).
    by rewrite lookup_ge_None_2 by lia.
Qed.

Section writes.
Variables (V : Z → block) (fb : Z) (fs : list fent) (i : nat) (f : fent) (p : list Z).
Let off := Z.of_nat (length (f_c f)).
Hypotheses (W : world V fb fs) (Hi : fs !! i = Some f) (Hoff : off / BSIZE < f_m f) (Hp : off `mod` BSIZE + Z.of_nat (length p) ≤ BSIZE).
Hypothesis (Hb : Forall (λ x, 0 ≤ x < 256) p).
Let x := daddr V (f_din f) (off / BSIZE).
Let V' : Z → block := <[x := blk_write (V x) (off `mod` BSIZE) p]> V.

Lemma wr_fbn : 0 ≤ off / BSIZE < MAXFILE ∧ 0 ≤ off `mod` BSIZE < BSIZE.
Proof. pose proof (fa_m _ _ (w_file _ _ _ W i f Hi)). unfold BSIZE in *. change MAXFILE with 268 in *. Z.to_euclidean_division_equations. lia. Qed.
Lemma wr_x : x ≠ 0.
Proof. apply (fa_blocks _ _ (w_file _ _ _ W i f Hi)); [apply wr_fbn|done]. Qed.
Lemma wr_other j g k : fs !! j = Some g → 0 ≤ k < NSLOT → dslot V (f_din g) k = x → j = i ∧ k = slot_of (off / BSIZE).
Proof.
  intros Hj Hk E. pose proof wr_x. assert (dslot V (f_din g) k ≠ 0) by congruence.
  apply (w_uniq _ _ _ W j i g f k (slot_of (off / BSIZE))); auto. by apply slot_of_12, wr_fbn.
Qed.
Lemma wr_slots j g k : fs !! j = Some g → dslot V' (f_din g) k = dslot V (f_din g) k.
Proof.
  intros Hj. apply dslot_ext. intros Hn. unfold V'. rewrite fn_lookup_insert_ne; [done|]. intros E. symmetry in E. rewrite <- (slot_12 V) in E.
  destruct (wr_other j g 12 Hj ltac:(done) E) as [_ E']. by apply (slot_of_12 (off / BSIZE)); [apply wr_fbn|].
Qed.
Lemma wr_data o : 0 ≤ o < MAXFILE * BSIZE → dbyte V' (f_din f) o = default 0 ((f_c f ++ p) !! Z.to_nat o).
Proof.
  intros Ho. destruct (off_range o Ho) as [Hq Hr]. pose proof (proj1 (w_blk _ _ _ W x)) as Hl. destruct wr_fbn as [Hf Hm].
  pose proof (fa_data _ _ (w_file _ _ _ W i f Hi) o Ho) as HD. rewrite app_default by lia. change (Z.of_nat (length (f_c f))) with off.
  rewrite <- HD. unfold dbyte, daddr. rewrite (wr_slots i f _ Hi). destruct (decide (o / BSIZE = off / BSIZE)) as [E|E].
  - rewrite E. change (dslot V (f_din f) (slot_of (off / BSIZE))) with x. rewrite (proj2 (Z.eqb_neq x 0) wr_x). unfold V'. rewrite fn_lookup_insert.
    rewrite blk_mem_write by (rewrite ?Hl; unfold BSIZE in *; lia).
    assert (o - off = o `mod` BSIZE - off `mod` BSIZE) as Ed by (unfold BSIZE in *; Z.to_euclidean_division_equations; lia). fold off. rewrite Ed.
    destruct (decide (off `mod` BSIZE ≤ _ < _)); [rewrite decide_True by lia; done|rewrite decide_False by lia; done].
  - rewrite decide_False by (unfold BSIZE in *; Z.to_euclidean_division_equations; lia).
    destruct (Z.eqb_spec (dslot V (f_din f) (slot_of (o / BSIZE))) 0) as [|Hn]; [done|]. unfold V'. rewrite fn_lookup_insert_ne; [done|]. intros Ex.
    symmetry in Ex. destruct (wr_other i f (slot_of (o / BSIZE)) Hi) as [_ Es]; [by apply slot_of_12|done|]. apply E. apply slot_of_inj; [done|lia|lia].
Qed.
Lemma wr_file : file_at V' (Fent (f_din f) (f_m f) (f_ib f) (f_c f ++ p)).
Proof.
  destruct (w_file _ _ _ W i f Hi). split; try done; simpl; [|apply wr_data]. intros bn Hbn. unfold daddr. rewrite (wr_slots i f _ Hi). by apply fa_blocks0.
Qed.
Lemma world_write : world V' fb (<[i := Fent (f_din f) (f_m f) (f_ib f) (f_c f ++ p)]> fs).
Proof.
  assert (Hlt := lookup_lt_Some _ _ _ Hi). destruct wr_fbn as [Hf Hm]. pose proof (proj1 (slot_of_12 _ Hf)) as Hs.
  assert (G : ∀ j g, <[i := Fent (f_din f) (f_m f) (f_ib f) (f_c f ++ p)]> fs !! j = Some g → ∃ g', fs !! j = Some g' ∧ f_din g = f_din g').
  { intros j g Hj. destruct (decide (j = i)) as [->|]; [rewrite list_lookup_insert_eq in Hj by done; injection Hj as <-; eauto|].
    rewrite list_lookup_insert_ne in Hj by done. eauto. }
  split.
  - intros n. unfold V'. destruct (decide (x = n)) as [<-|]; [|rewrite fn_lookup_insert_ne by done; apply W]. rewrite fn_lookup_insert.
    apply blk_write_ok; [apply W|lia|done|done].
  - intros j g Hj. destruct (decide (j = i)) as [->|Hn]; [rewrite list_lookup_insert_eq in Hj by done; injection Hj as <-; apply wr_file|].
    rewrite list_lookup_insert_ne in Hj by done. apply (file_at_ext V); [by apply (w_file _ _ _ W j)|]. intros k Hk Hnz. unfold V'.
    rewrite fn_lookup_insert_ne; [done|]. intros E. by destruct (wr_other j g k Hj Hk (eq_sym E)).
  - intros j g k Hj Hk. destruct (G j g Hj) as (g' & Hg & ->). rewrite (wr_slots j g' k Hg). by apply (w_range _ _ _ W j).
  - intros j j' g h k l Hj Hj' Hk Hl'. destruct (G j g Hj) as (g' & Hg & ->), (G j' h Hj') as (h' & Hh & ->).
    rewrite (wr_slots j g' k Hg), (wr_slots j' h' l Hh). by apply (w_uniq _ _ _ W j j' g' h').
  - intros n Hn. unfold V'. rewrite fn_lookup_insert_ne; [by apply (w_fresh _ _ _ W)|].
    assert (nmeta ≤ x < fb) by (apply (w_range _ _ _ W i f (slot_of (off / BSIZE))); [done|done|apply wr_x]). lia.
  - rewrite (total_insert _ _ f) by done. simpl. pose proof (w_fb _ _ _ W). lia.
Qed.
End writes.

(** ** Giving a file a block *)

Section allocs.
Variables (V : Z → block) (fb : Z) (fs : list fent) (i : nat) (f : fent).
Variables (k0 : Z) (V' : Z → block) (din' : list Z) (m' : Z) (ib' : bool).
Hypotheses (W : world V fb fs) (Hi : fs !! i = Some f) (Hk0 : 0 ≤ k0 < NSLOT) (Hz : dslot V (f_din f) k0 = 0).
(** The slot [k0] gets the next block; only the indirect block is written. *)
Hypothesis Hslots : ∀ k, 0 ≤ k < NSLOT → dslot V' din' k = if decide (k = k0) then fb else dslot V (f_din f) k.
Hypothesis Hsame : ∀ n, n = din_addr 12 (f_din f) ∧ n ≠ 0 ∨ V' n = V n.
Hypotheses (HV : ∀ n, blk_ok (V' n)) (Hlen : length din' = 64%nat) (Hbytes : Forall (λ x, 0 ≤ x < 256) din').
Hypotheses (Hm : 0 ≤ m' ≤ MAXFILE) (Hblocks : ∀ bn, 0 ≤ bn < MAXFILE → daddr V' din' bn ≠ 0 ↔ bn < m').
Hypotheses (Hib : din_addr 12 din' ≠ 0 ↔ ib' = true) (Hmany : 12 < m' → ib' = true) (Hcost : cost m' ib' = cost (f_m f) (f_ib f) + 1).

Lemma al_same j g k : fs !! j = Some g → 0 ≤ k < NSLOT → dslot V (f_din g) k ≠ 0 → j ≠ i ∨ k ≠ 12 → V' (dslot V (f_din g) k) = V (dslot V (f_din g) k).
Proof.
  intros Hj Hk Hn Hd. destruct (Hsame (dslot V (f_din g) k)) as [[E Hn']|]; [|done]. rewrite <- (slot_12 V) in E.
  destruct (w_uniq _ _ _ W j i g f k 12 Hj Hi Hk ltac:(done) E Hn) as [-> ->]. by destruct Hd.
Qed.
Lemma al_fresh n : fb ≤ n → V' n = zero_block.
Proof.
  intros Hn. destruct (Hsame n) as [[E Hn']| ->]; [|by apply (w_fresh _ _ _ W)]. rewrite <- (slot_12 V) in E.
  assert (nmeta ≤ n < fb) by (rewrite E; apply (w_range _ _ _ W i f 12); [done|done|congruence]). lia.
Qed.
Lemma al_file : file_at V' (Fent din' m' ib' (f_c f)).
Proof.
  split; try done. simpl. intros o Ho. rewrite <- (fa_data _ _ (w_file _ _ _ W i f Hi) o Ho). unfold dbyte, daddr. destruct (off_range o Ho) as [Hq Hr].
  destruct (slot_of_12 _ Hq) as [Hs Hs']. rewrite Hslots by done. pose proof (world_fb _ _ _ W) as Hfb. case_decide as E.
  - rewrite E, Hz. simpl. rewrite al_fresh by lia. destruct (fb =? 0); [done|]. unfold blk_mem, zero_block. apply lookup_total_replicate_2. lia.
  - destruct (Z.eqb_spec (dslot V (f_din f) (slot_of (o / BSIZE))) 0) as [|Hn]; [done|]. by rewrite (al_same i f) by auto.
Qed.
Lemma world_alloc : world V' (fb + 1) (<[i := Fent din' m' ib' (f_c f)]> fs).
Proof.
  assert (Hlt := lookup_lt_Some _ _ _ Hi). pose proof (world_fb _ _ _ W) as Hfb.
  assert (X : ∀ j g, j ≠ i → fs !! j = Some g → file_at V' g ∧ ∀ k, dslot V' (f_din g) k = dslot V (f_din g) k).
  { intros j g Hn Hj. apply file_at_ext; [by apply (w_file _ _ _ W j)|]. intros k Hk Hnz. by apply (al_same j); auto. }
  (* a slot of the new table is the new block, or a slot of the old one *)
  assert (G : ∀ j g k, <[i := Fent din' m' ib' (f_c f)]> fs !! j = Some g → 0 ≤ k < NSLOT → dslot V' (f_din g) k ≠ 0 →
    (j = i ∧ k = k0 ∧ dslot V' (f_din g) k = fb) ∨ (∃ g', fs !! j = Some g' ∧ dslot V' (f_din g) k = dslot V (f_din g') k)).
  { intros j g k Hj Hk Hn. destruct (decide (j = i)) as [->|Hji].
    - rewrite list_lookup_insert_eq in Hj by done. injection Hj as <-. simpl in *. rewrite Hslots in * by done. case_decide; [by left|right; eauto].
    - rewrite list_lookup_insert_ne in Hj by done. right. exists g. split; [done|]. by apply (X j). }
  split; [done|..].
  - intros j g Hj. destruct (decide (j = i)) as [->|Hn]; [rewrite list_lookup_insert_eq in Hj by done; injection Hj as <-; apply al_file|].
    rewrite list_lookup_insert_ne in Hj by done. by apply (X j).
  - intros j g k Hj Hk Hn. destruct (G j g k Hj Hk Hn) as [(_ & _ & ->)|(g' & Hg & E)]; [lia|]. rewrite E in *.
    pose proof (w_range _ _ _ W j g' k Hg Hk Hn). lia.
  - intros j j' g h k l Hj Hj' Hk Hl E Hn. destruct (G j g k Hj Hk Hn) as [(-> & -> & E1)|(g' & Hg & E1)];
      (destruct (G j' h l Hj' Hl ltac:(congruence)) as [(-> & -> & E2)|(h' & Hh & E2)]); [done|..].
    + assert (nmeta ≤ dslot V (f_din h') l < fb) by (apply (w_range _ _ _ W j' h' l); [done|done|congruence]). lia.
    + assert (nmeta ≤ dslot V (f_din g') k < fb) by (apply (w_range _ _ _ W j g' k); [done|done|congruence]). lia.
    + apply (w_uniq _ _ _ W j j' g' h'); [done..|congruence|congruence].
  - intros n Hn. apply al_fresh. lia.
  - rewrite (total_insert _ _ f) by done. simpl. rewrite Hcost. pose proof (w_fb _ _ _ W). lia.
Qed.
End allocs.

(** The fields of an inode before the addresses. *)
Definition same_head (din din' : list Z) : Prop := ∀ n o, 0 ≤ o → o + Z.of_nat n ≤ 12 → blk_load n din' o = blk_load n din o.

Lemma din_addr_set din j k v : length din = 64%nat → 0 ≤ j ≤ 12 → 0 ≤ k ≤ 12 → 0 ≤ v < 2 ^ 32 →
  din_addr k (set_din_addr j v din) = if decide (k = j) then v else din_addr k din.
Proof.
  intros Hl Hj Hk Hv. unfold din_addr, set_din_addr. case_decide as E; [|apply blk_load_store_other; lia].
  subst. rewrite blk_load_store by lia. apply Z.mod_small. done.
Qed.
Lemma set_din_addr_ok din j v : length din = 64%nat → Forall (λ x, 0 ≤ x < 256) din → 0 ≤ j →
  length (set_din_addr j v din) = 64%nat ∧ Forall (λ x, 0 ≤ x < 256) (set_din_addr j v din) ∧ same_head din (set_din_addr j v din).
Proof.
  intros Hl Hb Hj. unfold set_din_addr. split; [by rewrite length_blk_store|]. split.
  - by apply mem_blk_ok, store_le_bytes_ok, blk_mem_bytes.
  - intros n o Ho Hn. apply blk_load_store_other; lia.
Qed.
Lemma dslot_direct V din k : k ≤ 12 → dslot V din k = din_addr k din.
Proof. intros Hk. unfold dslot. by rewrite (proj2 (Z.leb_le k 12)). Qed.
Lemma dslot_entry V din k : 12 < k → din_addr 12 din ≠ 0 → dslot V din k = blk_load 4 (V (din_addr 12 din)) (4 * (k - 13)).
Proof. intros Hk Hn. unfold dslot. rewrite (proj2 (Z.leb_gt k 12)), (proj2 (Z.eqb_neq _ 0)) by done. done. Qed.
Lemma daddr_direct V din bn : bn < 12 → daddr V din bn = din_addr bn din.
Proof. intros Hb. unfold daddr, slot_of. change NDIRECT with 12. rewrite (proj2 (Z.ltb_lt bn 12)) by done. apply dslot_direct. lia. Qed.
Lemma daddr_entry V din bn : 12 ≤ bn → din_addr 12 din ≠ 0 → daddr V din bn = blk_load 4 (V (din_addr 12 din)) (4 * (bn - 12)).
Proof.
  intros Hb Hn. unfold daddr, slot_of. change NDIRECT with 12. rewrite (proj2 (Z.ltb_ge bn 12)) by done. rewrite dslot_entry by (done || lia).
  f_equal. lia.
Qed.

Section fresh.
Variables (V : Z → block) (fb : Z) (fs : list fent) (i : nat) (f : fent).
Hypotheses (W : world V fb fs) (Hi : fs !! i = Some f) (Hfb : fb < FSSIZE).

Lemma fr_fb : 0 < fb < 2 ^ 32.
Proof. pose proof (world_fb _ _ _ W). unfold FSSIZE in *. change nmeta with 46 in *. lia. Qed.

Lemma alloc_direct : f_m f < 12 →
  world V (fb + 1) (<[i := Fent (set_din_addr (f_m f) fb (f_din f)) (f_m f + 1) (f_ib f) (f_c f)]> fs).
Proof.
  intros Hm. pose proof fr_fb as Hf. destruct (w_file _ _ _ W i f Hi) as [F1 F2 F3 F4 F5 F6 F7].
  destruct (set_din_addr_ok (f_din f) (f_m f) fb F1 F2 ltac:(lia)) as (L1 & L2 & _).
  assert (S12 : din_addr 12 (set_din_addr (f_m f) fb (f_din f)) = din_addr 12 (f_din f)) by (rewrite din_addr_set by lia; by rewrite decide_False by lia).
  assert (HS : ∀ k, 0 ≤ k < NSLOT → dslot V (set_din_addr (f_m f) fb (f_din f)) k = if decide (k = f_m f) then fb else dslot V (f_din f) k).
  { intros k Hk. destruct (decide (k ≤ 12)); [rewrite !dslot_direct, din_addr_set by lia; done|]. rewrite decide_False by lia. unfold dslot. rewrite S12.
    by rewrite (proj2 (Z.leb_gt k 12)) by lia. }
  assert (E0 : dslot V (f_din f) (f_m f) = 0).
  { destruct (decide (dslot V (f_din f) (f_m f) = 0)) as [|Hn]; [done|]. rewrite dslot_direct in Hn by lia. rewrite <- (daddr_direct V) in Hn by lia.
    apply F4 in Hn; change MAXFILE with 268 in *; lia. }
  assert (0 ≤ f_m f < NSLOT) by (change NSLOT with 269; lia). apply (world_alloc V fb fs i f (f_m f)); try done.
  - by right.
  - apply W.
  - change MAXFILE with 268 in *. lia.
  - intros bn Hbn. unfold daddr. rewrite HS by (by apply slot_of_12). unfold daddr in F4. specialize (F4 bn Hbn). unfold slot_of in *. change NDIRECT with 12 in *.
    destruct (Z.ltb_spec bn 12); case_decide; lia.
  - rewrite S12. done.
  - intros. lia.
  - unfold cost. lia.
Qed.
Lemma alloc_ind : f_ib f = false → f_m f ≤ 12 → world V (fb + 1) (<[i := Fent (set_din_addr 12 fb (f_din f)) (f_m f) true (f_c f)]> fs).
Proof.
  intros Hib Hm. pose proof fr_fb as Hf. destruct (w_file _ _ _ W i f Hi) as [F1 F2 F3 F4 F5 F6 F7].
  destruct (set_din_addr_ok (f_din f) 12 fb F1 F2 ltac:(lia)) as (L1 & L2 & _).
  assert (S12 : din_addr 12 (set_din_addr 12 fb (f_din f)) = fb) by (rewrite din_addr_set by lia; by rewrite decide_True by lia).
  assert (E0 : din_addr 12 (f_din f) = 0) by (destruct (decide (din_addr 12 (f_din f) = 0)) as [|Hn]; [done|]; apply F5 in Hn; congruence).
  assert (HS : ∀ k, 0 ≤ k < NSLOT → dslot V (set_din_addr 12 fb (f_din f)) k = if decide (k = 12) then fb else dslot V (f_din f) k).
  { intros k Hk. change NSLOT with 269 in Hk. destruct (decide (k ≤ 12)); [rewrite !dslot_direct, din_addr_set by lia; done|]. rewrite decide_False by lia.
    rewrite dslot_entry, S12, (w_fresh _ _ _ W) by (rewrite ?S12; lia). rewrite load_zero by (unfold BSIZE; lia). unfold dslot. by rewrite (proj2 (Z.leb_gt k 12)), E0 by lia. }
  apply (world_alloc V fb fs i f 12); try done.
  - by right.
  - apply W.
  - intros bn Hbn. unfold daddr. rewrite HS by (by apply slot_of_12). rewrite decide_False by (by apply slot_of_12). by apply F4.
  - rewrite S12. split; [done|lia].
  - unfold cost. rewrite Hib. lia.
Qed.
Lemma alloc_entry : f_ib f = true → 12 ≤ f_m f < MAXFILE → let ind := din_addr 12 (f_din f) in
  world (<[ind := blk_store 4 (V ind) (4 * (f_m f - 12)) fb]> V) (fb + 1) (<[i := Fent (f_din f) (f_m f + 1) true (f_c f)]> fs) ∧
  (nmeta ≤ ind < fb) ∧ blk_load 4 (V ind) (4 * (f_m f - 12)) = 0.
Proof.
  intros Hib Hm ind. pose proof fr_fb as Hf. destruct (w_file _ _ _ W i f Hi) as [F1 F2 F3 F4 F5 F6 F7]. assert (Hn : ind ≠ 0) by (by apply F5).
  assert (Hr : nmeta ≤ ind < fb) by (unfold ind; rewrite <- (slot_12 V); apply (w_range _ _ _ W i f 12); done).
  pose proof (proj1 (w_blk _ _ _ W ind)) as Hlen. change (Z.to_nat BSIZE) with 1024%nat in Hlen. change MAXFILE with 268 in *.
  assert (E0 : daddr V (f_din f) (f_m f) = 0).
  { destruct (decide (daddr V (f_din f) (f_m f) = 0)) as [|Hd]; [done|]. apply F4 in Hd; [lia|]. lia. }
  rewrite daddr_entry in E0 by (done || lia). split; [|done].
  assert (HS : ∀ k, 0 ≤ k < NSLOT → dslot (<[ind := blk_store 4 (V ind) (4 * (f_m f - 12)) fb]> V) (f_din f) k = if decide (k = f_m f + 1) then fb else dslot V (f_din f) k).
  { intros k Hk. change NSLOT with 269 in Hk. destruct (decide (k ≤ 12)); [rewrite !dslot_direct by lia; by rewrite decide_False by lia|].
    rewrite !dslot_entry by (done || lia). fold ind. rewrite fn_lookup_insert. case_decide as E.
    - replace (4 * (k - 13)) with (4 * (f_m f - 12)) by lia. rewrite blk_load_store by lia. apply Z.mod_small. change (256 ^ 4%nat) with (2 ^ 32). lia.
    - apply blk_load_store_other; lia. }
  assert (0 ≤ f_m f + 1 < NSLOT) by (change NSLOT with 269; lia). apply (world_alloc V fb fs i f (f_m f + 1)); try done.
  - rewrite dslot_entry by (done || lia). rewrite <- E0. f_equal. lia.
  - intros n. destruct (decide (n = ind)) as [->|]; [by left|right; apply fn_lookup_insert_ne; congruence].
  - intros n. destruct (decide (ind = n)) as [<-|]; [rewrite fn_lookup_insert; apply blk_store_ok, W|rewrite fn_lookup_insert_ne by done; apply W].
  - change MAXFILE with 268. lia.
  - intros bn Hbn. unfold daddr. rewrite HS by (by apply slot_of_12). unfold daddr in F4. specialize (F4 bn Hbn). unfold slot_of in *. change NDIRECT with 12 in *.
    destruct (Z.ltb_spec bn 12); case_decide; lia.
  - unfold cost. rewrite Hib. lia.
Qed.
End fresh.

(** ** iappend *)

Definition blocks (n : Z) : Z := (n + 1023) / 1024.
(** A file between two calls. *)
Definition rest (din c : list Z) : fent := Fent din (blocks (length c)) (12 <? blocks (length c)) c.
Definition price (n : Z) : Z := cost (blocks n) (12 <? blocks n).

Lemma blocks_step n : 0 ≤ n → (n `mod` 1024 = 0 ∧ blocks n = n / 1024) ∨ (n `mod` 1024 ≠ 0 ∧ blocks n = n / 1024 + 1).
Proof. intros Hn. unfold blocks. Z.to_euclidean_division_equations. lia. Qed.
Lemma xint_load n b o : (n ≤ 4)%nat → Forall (λ x, 0 ≤ x < 256) b → xint (blk_load n b o) = blk_load n b o.
Proof.
  intros Hn Hb. apply xint_id. pose proof (blk_load_range n b o Hb). assert (256 ^ Z.of_nat n ≤ 256 ^ 4) by (apply Z.pow_le_mono_r; lia). lia.
Qed.
Lemma xint_addr k din : Forall (λ x, 0 ≤ x < 256) din → xint (din_addr k din) = din_addr k din.
Proof. apply xint_load. lia. Qed.
Lemma next_block_spec (Q : Z → mstate → Prop) V fb fi : 0 ≤ fb < FSSIZE → Q fb (img V (fb + 1) fi) → wp next_block Q (img V fb fi).
Proof.
  intros Hf HQ. unfold next_block. apply wp_bind, wp_gets, wp_bind, wp_modify, wp_ret. simpl. unfold set_freeblock. simpl.
  rewrite wrap_small by (unfold FSSIZE in *; lia). exact HQ.
Qed.

(** An entry of the indirect block. *)
Lemma append_entry (Q : list Z * Z → mstate → Prop) V fb fi fs (i : nat) din fbn c : world V fb fs → fs !! i = Some (Fent din fbn true c) →
  12 ≤ fbn < MAXFILE → fb < FSSIZE →
  (∀ V' fb', world V' fb' (<[i := Fent din (fbn + 1) true c]> fs) → (∀ n, n < nmeta → V' n = V n) → Q (din, daddr V' din fbn) (img V' fb' fi)) →
  wp (indirect ← rsect (xint (din_addr 12 din));
      indirect ← (if blk_load 4 indirect (4 * (fbn - 12)) =? 0 then
                    b ← next_block;
                    let indirect := blk_store 4 indirect (4 * (fbn - 12)) (xint b) in
                    wsect (xint (din_addr 12 din)) indirect ;;
                    mret indirect
                  else mret indirect);
      mret (din, xint (blk_load 4 indirect (4 * (fbn - 12))))) Q (img V fb fi).
Proof.
  intros W Hi Hb Hf HQ. destruct (alloc_entry V fb fs i _ W Hi Hf eq_refl Hb) as (WE & Hr & E0). simpl in *. pose proof (w_file _ _ _ W i _ Hi) as F.
  pose proof (fa_bytes _ _ F) as F2. simpl in F2. assert (Hn : din_addr 12 din ≠ 0) by (by apply (fa_ib _ _ F)). change nmeta with 46 in *.
  rewrite xint_addr by done. apply wp_bind, rsect_spec; [lia|]. rewrite E0. simpl. apply wp_bind, wp_bind, next_block_spec; [lia|].
  rewrite xint_id by (unfold FSSIZE in *; lia). apply wp_bind, wsect_spec; [lia|]. apply wp_ret, wp_ret.
  specialize (HQ _ _ WE). rewrite daddr_entry in HQ by (done || lia). rewrite fn_lookup_insert in HQ. rewrite xint_load by (lia || apply blk_store_ok, W).
  apply HQ. intros n Hn'. apply fn_lookup_insert_ne. lia.
Qed.

Section append.
Variables (V : Z → block) (fb fi : Z) (fs : list fent) (i : nat) (din c : list Z).
Hypotheses (W : world V fb fs) (Hi : fs !! i = Some (rest din c)).
Let off := Z.of_nat (length c).
Let fbn := off / BSIZE.
Let new (din' : list Z) : fent := Fent din' (fbn + 1) (12 <? fbn + 1) c.
Hypotheses (Hfbn : fbn < MAXFILE) (Hcap : fb + cost (fbn + 1) (12 <? fbn + 1) - price off ≤ FSSIZE).

Lemma ap_file : file_at V (rest din c) ∧ 0 ≤ fbn.
Proof. split; [by apply (w_file _ _ _ W i)|]. unfold fbn, off. apply Z.div_pos; [lia|done]. Qed.

(** The file ends inside a block. *)
Lemma append_old (Q : list Z * Z → mstate → Prop) : off `mod` 1024 ≠ 0 →
  (world V fb (<[i := new din]> fs) → Q (din, daddr V din fbn) (img V fb fi)) → wp (append_block din fbn) Q (img V fb fi).
Proof.
  intros Hm HQ. destruct ap_file as [[F1 F2 F3 F4 F5 F6 F7] Hf]. simpl in *. destruct (blocks_step off ltac:(lia)) as [[? _]|[_ E]]; [done|].
  change (off / 1024) with fbn in E. fold off in F3, F4, F5, F6. rewrite E in *. assert (Hd : daddr V din fbn ≠ 0) by (apply F4; lia).
  assert (EQ : <[i := new din]> fs = fs) by (apply list_insert_id; rewrite Hi; unfold rest, new; fold off; by rewrite E).
  rewrite EQ in HQ. specialize (HQ W). unfold append_block. change NDIRECT with 12. rewrite !xint_addr by done.
  destruct (Z.ltb_spec fbn 12) as [Hl|Hl].
  - rewrite daddr_direct in * by done. rewrite (proj2 (Z.eqb_neq _ 0)) by done. apply wp_bind, wp_ret, wp_ret. by rewrite xint_addr.
  - assert (Hn : din_addr 12 din ≠ 0) by (apply F5, F6; lia). rewrite (proj2 (Z.eqb_neq _ 0)) by done. apply wp_bind, wp_ret.
    assert (nmeta ≤ din_addr 12 din < fb) as Hr by (rewrite <- (slot_12 V); by apply (w_range _ _ _ W i _ 12 Hi)). change nmeta with 46 in Hr.
    rewrite xint_addr by done. rewrite daddr_entry in * by done. unfold price in Hcap. rewrite E in Hcap.
    apply wp_bind, rsect_spec; [lia|]. rewrite (proj2 (Z.eqb_neq _ 0)) by done. apply wp_bind, wp_ret, wp_ret. by rewrite xint_load by (apply W || lia).
Qed.

(** The file ends with a full block, and gets a new one. *)
Lemma append_new (Q : list Z * Z → mstate → Prop) : off `mod` 1024 = 0 →
  (∀ V' fb' din', world V' fb' (<[i := new din']> fs) → (∀ n, n < nmeta → V' n = V n) → same_head din din' → Q (din', daddr V' din' fbn) (img V' fb' fi)) →
  wp (append_block din fbn) Q (img V fb fi).
Proof.
  intros Hm HQ. pose proof (world_fb _ _ _ W) as Hfb. change nmeta with 46 in Hfb. destruct ap_file as [F Hf]. pose proof (fa_len _ _ F) as F1. pose proof (fa_bytes _ _ F) as F2.
  simpl in F1, F2. destruct (blocks_step off ltac:(lia)) as [[_ E]|[? _]]; [|done]. change (off / 1024) with fbn in E.
  unfold price in Hcap. rewrite E in Hcap. unfold cost in Hcap. unfold append_block. change NDIRECT with 12. rewrite !xint_addr by done.
  destruct (Z.ltb_spec fbn 12) as [Hl|Hl].
  - rewrite (proj2 (Z.ltb_ge 12 (fbn + 1))), (proj2 (Z.ltb_ge 12 fbn)) in Hcap by lia.
    pose proof (alloc_direct V fb fs i _ W Hi ltac:(lia)) as WD. simpl in WD. fold off in WD. rewrite E in WD. specialize (WD Hl).
    assert (E0 : din_addr fbn din = 0).
    { rewrite <- (daddr_direct V) by done. destruct (decide (daddr V din fbn = 0)) as [|Hn]; [done|]. apply (fa_blocks _ _ F) in Hn; [|lia]. simpl in Hn. fold off in Hn. lia. }
    rewrite E0. simpl. apply wp_bind, wp_bind, next_block_spec; [lia|]. apply wp_ret, wp_ret. rewrite (xint_id fb) by (unfold FSSIZE in *; lia).
    destruct (set_din_addr_ok din fbn fb F1 F2 Hf) as (L1 & L2 & L3). rewrite xint_addr by done. rewrite <- (daddr_direct V) by done.
    apply HQ; [|done|done]. unfold new. rewrite (proj2 (Z.ltb_ge 12 (fbn + 1))) by lia. by rewrite (proj2 (Z.ltb_ge 12 fbn)) in WD by lia.
  - rewrite (proj2 (Z.ltb_lt 12 (fbn + 1))) in Hcap by lia. unfold new in HQ. rewrite (proj2 (Z.ltb_lt 12 (fbn + 1))) in HQ by lia.
    assert (Hlt := lookup_lt_Some _ _ _ Hi). unfold rest in Hi. fold off in Hi. rewrite E in Hi. destruct (Z.ltb_spec 12 fbn) as [Hg|Hg].
    + assert (Hn : din_addr 12 din ≠ 0) by (apply (fa_ib _ _ F); simpl; fold off; rewrite E; by apply Z.ltb_lt).
      rewrite (proj2 (Z.eqb_neq _ 0)) by done. apply wp_bind, wp_ret. eapply append_entry; [exact W|exact Hi|lia|lia|]. intros V' fb' W' HV. by apply HQ.
    + assert (E0 : din_addr 12 din = 0).
      { destruct (decide (din_addr 12 din = 0)) as [|Hn]; [done|]. apply (fa_ib _ _ F) in Hn. simpl in Hn. fold off in Hn. rewrite E in Hn. apply Z.ltb_lt in Hn. lia. }
      rewrite E0. simpl. apply wp_bind, wp_bind, next_block_spec; [lia|]. apply wp_ret. rewrite (xint_id fb) by (unfold FSSIZE in *; lia).
      destruct (set_din_addr_ok din 12 fb F1 F2 ltac:(lia)) as (L1 & L2 & L3).
      eapply append_entry; [apply (alloc_ind V fb fs i _ W Hi); simpl; [lia|done|lia]|by apply list_lookup_insert_eq|lia|lia|].
      intros V' fb' W' HV. apply HQ; [|done|done]. simpl in W'. by rewrite list_insert_insert_eq in W'.
Qed.
End append.

Lemma price_mono a b : 0 ≤ a ≤ b → price a ≤ price b.
Proof.
  intros Hab. assert (blocks a ≤ blocks b) by (unfold blocks; Z.to_euclidean_division_equations; lia). unfold price, cost.
  destruct (Z.ltb_spec 12 (blocks a)), (Z.ltb_spec 12 (blocks b)); lia.
Qed.
Lemma append_block_spec (Q : list Z * Z → mstate → Prop) V fb fi fs (i : nat) din c : world V fb fs → fs !! i = Some (rest din c) →
  let off := Z.of_nat (length c) in let fbn := off / BSIZE in fbn < MAXFILE → fb + cost (fbn + 1) (12 <? fbn + 1) - price off ≤ FSSIZE →
  (∀ V' fb' din', world V' fb' (<[i := Fent din' (fbn + 1) (12 <? fbn + 1) c]> fs) → (∀ n, n < nmeta → V' n = V n) → same_head din din' →
    Q (din', daddr V' din' fbn) (img V' fb' fi)) → wp (append_block din fbn) Q (img V fb fi).
Proof.
  intros W Hi off fbn Hf Hc HQ. destruct (decide (off `mod` 1024 = 0)) as [Hm|Hm]; [by eapply append_new|].
  eapply append_old; [done..|]. intros W'. by apply HQ.
Qed.

Lemma cut_block c n : 0 < n → let off := Z.of_nat (length (c : list Z)) in let fbn := off / BSIZE in let n1 := Z.min n ((fbn + 1) * BSIZE - off) in
  0 < n1 ≤ n ∧ off - fbn * BSIZE = off `mod` BSIZE ∧ off `mod` BSIZE + n1 ≤ BSIZE ∧ blocks (off + n1) = fbn + 1.
Proof. intros Hn off fbn n1. unfold n1, fbn, blocks, BSIZE. Z.to_euclidean_division_equations. lia. Qed.

Lemma append_data V fb fs (i : nat) din c p : let off := Z.of_nat (length c) in let fbn := off / BSIZE in
  world V fb (<[i := Fent din (fbn + 1) (12 <? fbn + 1) c]> fs) → (i < length fs)%nat → 0 ≤ fbn < MAXFILE →
  off `mod` BSIZE + Z.of_nat (length p) ≤ BSIZE → blocks (off + length p) = fbn + 1 → Forall (λ x, 0 ≤ x < 256) p →
  let x := daddr V din fbn in
  nmeta ≤ x < fb ∧ world (<[x := blk_write (V x) (off `mod` BSIZE) p]> V) fb (<[i := rest din (c ++ p)]> fs).
Proof.
  intros off fbn W Hlt Hf Hfit Eblk Hb x. set (f := Fent din (fbn + 1) (12 <? fbn + 1) c) in *.
  assert (Hi : <[i := f]> fs !! i = Some f) by (by apply list_lookup_insert_eq). split.
  - apply (w_range _ _ _ W i f (slot_of fbn) Hi); [by apply slot_of_12|]. apply (fa_blocks _ _ (w_file _ _ _ W i f Hi)); simpl; [done|lia].
  - pose proof (world_write V fb _ i f p W Hi) as WW. simpl in WW. fold off in WW. fold fbn in WW. specialize (WW ltac:(lia) Hfit Hb).
    rewrite list_insert_insert_eq in WW. unfold rest. rewrite length_app, Nat2Z.inj_add. fold off. rewrite Eblk. exact WW.
Qed.

Lemma iappend_loop_spec (Q : list Z * Z → mstate → Prop) fi (i : nat) fuel p V fb fs din c : world V fb fs → fs !! i = Some (rest din c) →
  (length p < fuel)%nat → Forall (λ x, 0 ≤ x < 256) p → let len := Z.of_nat (length c) + Z.of_nat (length p) in
  len ≤ MAXFILE * BSIZE → fb + price len - price (length c) ≤ FSSIZE →
  (∀ V' fb' din', world V' fb' (<[i := rest din' (c ++ p)]> fs) → (∀ n, n < nmeta → V' n = V n) → same_head din din' → Q (din', len) (img V' fb' fi)) →
  wp (iappend_loop fuel din (length c) p) Q (img V fb fi).
Proof.
  change (MAXFILE * BSIZE) with (268 * 1024).
  revert p V fb fs din c. induction fuel as [|fuel IH]; intros p V fb fs din c W Hi Hfu Hb len Hlen Hcap HQ; [lia|]. cbn [iappend_loop].
  destruct (decide (p = [])) as [->|Hne].
  { simpl. apply wp_ret. replace (Z.of_nat (length c)) with len by (unfold len; simpl; lia). apply HQ; [|done|done]. by rewrite app_nil_r, list_insert_id. }
  assert (Hp : 0 < Z.of_nat (length p)) by (destruct p; [done|simpl; lia]). rewrite Z.gtb_ltb, (proj2 (Z.ltb_lt 0 _)) by done.
  destruct (cut_block c _ Hp) as (Hn1 & Eo & Hfit & Eblk). set (off := Z.of_nat (length c)) in *. set (fbn := off / BSIZE) in *. set (n1 := Z.min _ _) in *.
  assert (Hfbn : 0 ≤ fbn < 268) by (unfold fbn, off, len, BSIZE in *; Z.to_euclidean_division_equations; lia).
  rewrite (proj2 (Z.ltb_lt fbn _)) by apply Hfbn. apply wp_bind, wp_ret.
  assert (Epr : cost (fbn + 1) (12 <? fbn + 1) = price (off + n1)) by (unfold price; by rewrite Eblk).
  pose proof (price_mono (off + n1) len ltac:(unfold off, len in *; lia)) as Hmono. assert (Hlt := lookup_lt_Some _ _ _ Hi).
  apply wp_bind. eapply append_block_spec; [exact W|exact Hi|apply Hfbn|fold off fbn; lia|]. fold off fbn. intros V1 fb1 din1 W1 HV1 HS1.
  assert (Efb : fb1 = fb - price off + price (off + n1)).
  { rewrite (w_fb _ _ _ W1), (w_fb _ _ _ W), (total_insert _ _ _ _ Hi). rewrite <- Epr. change (cost (f_m (rest din c)) (f_ib (rest din c))) with (price off).
    cbn [f_m f_ib]. lia. }
  set (p1 := firstn (Z.to_nat n1) p) in *. assert (Hl1 : Z.of_nat (length p1) = n1) by (unfold p1; rewrite length_firstn; lia).
  destruct (append_data V1 fb1 fs i din1 c p1 W1 Hlt Hfbn) as [Hx W2]; [fold off; lia|fold off; by rewrite Hl1|by apply Forall_take|].
  fold off fbn in Hx, W2. change nmeta with 46 in Hx. apply wp_bind, rsect_spec; [lia|]. apply wp_bind, wsect_spec; [lia|]. rewrite Eo.
  assert (Ec : Z.of_nat (length (c ++ p1)) = off + n1) by (rewrite length_app, Nat2Z.inj_add, Hl1; done).
  rewrite wrap_small by (unfold off, len in *; lia). rewrite <- Ec.
  assert (El : Z.of_nat (length (c ++ p1)) + Z.of_nat (length (skipn (Z.to_nat n1) p)) = len) by (rewrite length_skipn; unfold len, off in *; lia).
  eapply IH; [exact W2|by apply list_lookup_insert_eq|rewrite length_skipn; lia|by apply Forall_drop|lia|rewrite El, Ec; lia|].
  intros V3 fb3 din3 W3 HV3 HS3. rewrite list_insert_insert_eq, <- app_assoc in W3. unfold p1 in W3. rewrite take_drop in W3. rewrite El. apply HQ; [exact W3| |].
  - intros n Hn. rewrite HV3 by done. change nmeta with 46 in Hn. rewrite fn_lookup_insert_ne by lia. by apply HV1.
  - intros k o Ho Hk. rewrite HS3 by done. by apply HS1.
Qed.

(** ** Inodes with types and sizes *)

Record ent := Ent { e_type : Z; e_din : list Z; e_c : list Z }.
Definition ent_f (e : ent) : fent := rest (e_din e) (e_c e).
Definition head_ok (d : list Z) (t n : Z) : Prop :=
  blk_load 2 d 0 = t ∧ blk_load 2 d 2 = 0 ∧ blk_load 2 d 4 = 0 ∧ blk_load 2 d 6 = 1 ∧ blk_load 4 d 8 = n.
Definition no_dinode : list Z := replicate 64 0.
Definition sb_block : block := blk_write zero_block 0 (sb_bytes sb).

Record image (V : Z → block) (fb fi : Z) (es : list ent) : Prop := {
  im_world : world V fb (ent_f <$> es);
  im_fi : fi = Z.of_nat (length es) + 1 ∧ fi ≤ 208;
  im_ent : ∀ (i : nat) e, es !! i = Some e → din_at V (Z.of_nat i + 1) = e_din e ∧ head_ok (e_din e) (e_type e) (length (e_c e));
  im_free : ∀ inum, inum = 0 ∨ fi ≤ inum < 208 → din_at V inum = no_dinode;
  im_low : V 1 = sb_block ∧ ∀ n, 0 ≤ n < 32 → n ≠ 1 → V n = zero_block
}.

Lemma din_addr_ext V din din' : (∀ k, 0 ≤ k ≤ 12 → din_addr k din' = din_addr k din) → ∀ k, 0 ≤ k → dslot V din' k = dslot V din k.
Proof. intros E k Hk. unfold dslot. rewrite (E 12) by lia. destruct (Z.leb_spec k 12); [by apply E|done]. Qed.

(** Another inode with the same addresses. *)
Lemma world_din V fb fs (i : nat) f din : world V fb fs → fs !! i = Some f → length din = 64%nat → Forall (λ x, 0 ≤ x < 256) din →
  (∀ k, 0 ≤ k ≤ 12 → din_addr k din = din_addr k (f_din f)) → world V fb (<[i := Fent din (f_m f) (f_ib f) (f_c f)]> fs).
Proof.
  intros W Hi Hl Hb Ha. assert (ES := din_addr_ext V _ _ Ha). assert (Hlt := lookup_lt_Some _ _ _ Hi). set (g := Fent _ _ _ _).
  assert (G : ∀ j h k, <[i := g]> fs !! j = Some h → 0 ≤ k → ∃ h', fs !! j = Some h' ∧ dslot V (f_din h) k = dslot V (f_din h') k).
  { intros j h k Hj Hk. destruct (decide (j = i)) as [->|]; [|rewrite list_lookup_insert_ne in Hj by done; eauto].
    rewrite list_lookup_insert_eq in Hj by done. injection Hj as <-. exists f. split; [done|by apply ES]. }
  destruct (W) as [W1 W2 W3 W4 W5 W6]. split; try done.
  - intros j h Hj. destruct (decide (j = i)) as [->|]; [|rewrite list_lookup_insert_ne in Hj by done; by apply (W2 j)].
    rewrite list_lookup_insert_eq in Hj by done. injection Hj as <-. destruct (W2 i f Hi) as [F1 F2 F3 F4 F5 F6 F7]. split; try done; simpl.
    + intros bn Hbn. unfold daddr. rewrite ES by (by apply slot_of_12). by apply F4.
    + rewrite Ha by lia. done.
    + intros o Ho. rewrite <- F7 by done. unfold dbyte, daddr. by rewrite ES by (by apply slot_of_12, off_range).
  - intros j h k Hj Hk. destruct (G j h k Hj ltac:(lia)) as (h' & Hh & ->). by apply (W3 j).
  - intros j j' h h2 k l Hj Hj' Hk Hl'. destruct (G j h k Hj ltac:(lia)) as (h' & Hh & ->), (G j' h2 l Hj' ltac:(lia)) as (h2' & Hh2 & ->). by apply W4.
  - rewrite (total_insert _ _ _ _ Hi). simpl. lia.
Qed.
Lemma world_new V fb fs din : world V fb fs → length din = 64%nat → Forall (λ x, 0 ≤ x < 256) din → (∀ k, 0 ≤ k ≤ 12 → din_addr k din = 0) →
  world V fb (fs ++ [rest din []]).
Proof.
  intros W Hl Hb Ha. assert (ES : ∀ k, 0 ≤ k → dslot V din k = 0).
  { intros k Hk. unfold dslot. rewrite (Ha 12) by lia. destruct (Z.leb_spec k 12); [by apply Ha|done]. }
  assert (G : ∀ j h k, (fs ++ [rest din []]) !! j = Some h → 0 ≤ k → dslot V (f_din h) k ≠ 0 → fs !! j = Some h).
  { intros j h k Hj Hk Hn. apply lookup_app_Some in Hj as [Hj|[_ Hj]]; [done|]. apply list_lookup_singleton_Some in Hj as [_ <-]. by rewrite ES in Hn. }
  destruct (W) as [W1 W2 W3 W4 W5 W6]. split; try done.
  - intros j h Hj. apply lookup_app_Some in Hj as [Hj|[_ Hj]]; [by apply (W2 j)|]. apply list_lookup_singleton_Some in Hj as [_ <-]. split; try done; simpl.
    + intros bn Hbn. unfold daddr. rewrite ES by (by apply slot_of_12). replace (blocks _) with 0 by done. lia.
    + rewrite Ha by lia. by split.
    + intros o Ho. unfold dbyte, daddr. by rewrite ES by (by apply slot_of_12, off_range).
  - intros j h k Hj Hk Hn. apply (W3 j); [|done|done]. eapply G; [done| |done]. lia.
  - intros j j' h h2 k l Hj Hj' Hk Hl' E Hn. apply (W4 j j' h h2); try done; [apply (G j h k); [done|lia|done]|]. eapply (G j' h2 l); [done|lia|congruence].
  - rewrite W6. f_equal. clear. induction fs as [|f fs IH]; [done|]. simpl. by rewrite IH.
Qed.

Lemma din_at_ext V V' inum : (∀ n, n < nmeta → V' n = V n) → 0 ≤ inum < 208 → din_at V' inum = din_at V inum.
Proof. intros E Hi. unfold din_at. destruct (IB_range inum Hi) as [? _]. rewrite E; [done|]. change nmeta with 46. lia. Qed.
Lemma put_din_high V inum d n : 0 ≤ inum < 208 → nmeta ≤ n → put_din inum d V n = V n.
Proof. intros Hi Hn. unfold put_din. destruct (IB_range inum Hi) as [? _]. apply fn_lookup_insert_ne. change nmeta with 46 in Hn. lia. Qed.
Lemma put_din_low V inum d n : 0 ≤ inum < 208 → n < 32 → put_din inum d V n = V n.
Proof. intros Hi Hn. unfold put_din. destruct (IB_range inum Hi) as [? _]. apply fn_lookup_insert_ne. lia. Qed.

(** The image after the inode [i] was written back, with a table [es'] that
    differs from [es] there only. *)
Lemma image_put V0 fb0 fi0 V fb fi es es' (i : nat) e : image V0 fb0 fi0 es → (∀ n, n < nmeta → V n = V0 n) →
  world V fb (ent_f <$> es') → fi = Z.of_nat (length es') + 1 → fi0 ≤ fi ≤ 208 → es' !! i = Some e →
  (∀ j e, j ≠ i → es' !! j = Some e → es !! j = Some e) → length (e_din e) = 64%nat → Forall (λ x, 0 ≤ x < 256) (e_din e) →
  head_ok (e_din e) (e_type e) (length (e_c e)) → image (put_din (Z.of_nat i + 1) (e_din e) V) fb fi es'.
Proof.
  intros I HV W Efi Hfi Hi Hold Hl Hb Hh. assert (Hlt := lookup_lt_Some _ _ _ Hi). assert (Hr : 0 ≤ Z.of_nat i + 1 < 208) by lia.
  pose proof (w_blk _ _ _ W) as HB. split.
  - eapply world_ext; [exact W|intros n Hn; by apply put_din_high|by apply put_din_ok].
  - lia.
  - intros j e' Hj. assert (Hltj := lookup_lt_Some _ _ _ Hj). destruct (decide (j = i)) as [->|Hn].
    + assert (e' = e) as -> by congruence. rewrite din_at_put by (done || lia). by rewrite decide_True by done.
    + rewrite din_at_put by (done || lia). rewrite decide_False by lia. rewrite (din_at_ext V0) by (done || lia). by apply (im_ent _ _ _ _ I), Hold.
  - intros inum Hn. rewrite din_at_put by (done || lia). rewrite decide_False by lia. rewrite (din_at_ext V0) by (done || lia). apply (im_free _ _ _ _ I). lia.
  - destruct (im_low _ _ _ _ I) as [L1 L2]. change nmeta with 46 in HV. split; [rewrite put_din_low, HV by lia; done|].
    intros n Hn Hn1. rewrite put_din_low, HV by lia. by apply L2.
Qed.

Lemma set_size_ok din n : length din = 64%nat → Forall (λ x, 0 ≤ x < 256) din → 0 ≤ n < 2 ^ 32 → let d := set_din_size n din in
  length d = 64%nat ∧ Forall (λ x, 0 ≤ x < 256) d ∧ (∀ k, 0 ≤ k ≤ 12 → din_addr k d = din_addr k din) ∧ blk_load 4 d 8 = n ∧
  ∀ o, 0 ≤ o ≤ 6 → blk_load 2 d o = blk_load 2 din o.
Proof.
  intros Hl Hb Hn d. unfold d, set_din_size. split_and!.
  - by rewrite length_blk_store.
  - by apply mem_blk_ok, store_le_bytes_ok, blk_mem_bytes.
  - intros k Hk. apply blk_load_store_other; lia.
  - rewrite blk_load_store by lia. by apply Z.mod_small.
  - intros o Ho. apply blk_load_store_other; lia.
Qed.

Lemma ent_lookup (es : list ent) (i : nat) e : es !! i = Some e → (ent_f <$> es) !! i = Some (rest (e_din e) (e_c e)).
Proof. intros Hi. by rewrite list_lookup_fmap, Hi. Qed.

Lemma iappend_spec (Q : unit → mstate → Prop) V fb fi es (i : nat) t din c p : image V fb fi es → es !! i = Some (Ent t din c) →
  Forall (λ x, 0 ≤ x < 256) p → let len := Z.of_nat (length c) + Z.of_nat (length p) in
  len ≤ MAXFILE * BSIZE → fb + price len - price (length c) ≤ FSSIZE →
  (∀ V' fb' din', image V' fb' fi (<[i := Ent t din' (c ++ p)]> es) → Q tt (img V' fb' fi)) → wp (iappend (Z.of_nat i + 1) p) Q (img V fb fi).
Proof.
  intros I Hi Hp len Hlen Hcap HQ. assert (Hlt := lookup_lt_Some _ _ _ Hi). destruct (im_fi _ _ _ _ I) as [Efi Hfi].
  destruct (im_ent _ _ _ _ I i _ Hi) as [Ed (H1 & H2 & H3 & H4 & H5)]. cbn [e_din e_type e_c] in *.
  assert (Hr : Z.of_nat (length c) + Z.of_nat (length p) < 2 ^ 32) by (change (MAXFILE * BSIZE) with 274432 in Hlen; lia).
  unfold iappend. apply wp_bind, rinode_spec; [lia|]. rewrite Ed. unfold din_size. rewrite H5, xint_id by lia.
  apply wp_bind. eapply iappend_loop_spec; [apply I|exact (ent_lookup es i _ Hi)|lia|done|done|done|]. intros V' fb' din' W' HV HS. cbv beta iota.
  apply winode_spec; [lia|]. rewrite xint_id by (unfold len; lia).
  assert (Hi' : <[i := rest din' (c ++ p)]> (ent_f <$> es) !! i = Some (rest din' (c ++ p))) by (apply list_lookup_insert_eq; by rewrite length_fmap).
  pose proof (w_file _ _ _ W' i _ Hi') as F. destruct (set_size_ok din' len (fa_len _ _ F) (fa_bytes _ _ F) ltac:(unfold len; lia)) as (L1 & L2 & L3 & L4 & L5).
  pose proof (world_din _ _ _ i _ _ W' Hi' L1 L2 L3) as W2. simpl in W2. rewrite list_insert_insert_eq in W2.
  apply (HQ _ _ (set_din_size len din')). eapply (image_put V fb fi V' fb' fi es _ i (Ent t (set_din_size len din') (c ++ p))); [done|done| | |lia|by apply list_lookup_insert_eq|..].
  - rewrite list_fmap_insert. exact W2.
  - by rewrite length_insert.
  - intros j e Hj. by rewrite list_lookup_insert_ne.
  - done.
  - done.
  - cbn [e_din e_type e_c]. unfold head_ok. rewrite !L5 by lia. rewrite !HS by lia. split_and!; try done. rewrite L4, length_app. unfold len. lia.
Qed.

Lemma load_zeros (n k : nat) o : 0 ≤ o → o + Z.of_nat n ≤ Z.of_nat k → blk_load n (replicate k 0) o = 0.
Proof.
  unfold blk_load. revert o. induction n as [|n IH]; intros o Ho Hn; [done|]. cbn [load_le]. rewrite IH by lia.
  unfold blk_mem. rewrite lookup_total_replicate_2 by lia. done.
Qed.
Lemma ialloc_spec (Q : Z → mstate → Prop) V fb fi es t : image V fb fi es → fi < 208 → 0 ≤ t < 2 ^ 16 →
  (∀ V' din', image V' fb (fi + 1) (es ++ [Ent t din' []]) → Q fi (img V' fb (fi + 1))) → wp (ialloc t) Q (img V fb fi).
Proof.
  intros I Hfi Ht HQ. destruct (im_fi _ _ _ _ I) as [Efi _]. unfold ialloc. apply wp_bind, wp_gets, wp_bind, wp_modify. cbn [m_freeinode img].
  replace (set_freeinode (u32 (fi + 1)) (img V fb fi)) with (img V fb (fi + 1)) by (unfold set_freeinode; simpl; by rewrite wrap_small by lia).
  rewrite (xshort_id t) by done. change (xshort 1) with 1. change (xint 0) with 0. apply wp_bind, winode_spec; [lia|]. apply wp_ret.
  change (replicate (Z.to_nat sizeof_dinode) 0) with no_dinode. set (din := set_din_size 0 _). apply (HQ _ din).
  assert (Z0 : ∀ n o, 0 ≤ o → o + Z.of_nat n ≤ 64 → blk_load n no_dinode o = 0) by (intros n o ??; by apply load_zeros).
  assert (ZL : length no_dinode = 64%nat) by done. assert (ZB : Forall (λ x, 0 ≤ x < 256) no_dinode) by (apply Forall_replicate; lia).
  revert din. generalize dependent no_dinode. intros z Z0 ZL ZB din.
  assert (L : length din = 64%nat) by (unfold din, set_din_size, set_din_nlink, set_din_type; by rewrite !length_blk_store, ZL).
  assert (B : Forall (λ x, 0 ≤ x < 256) din).
  { by repeat (apply mem_blk_ok, store_le_bytes_ok, blk_mem_bytes). }
  assert (A : ∀ k, 0 ≤ k ≤ 12 → din_addr k din = 0).
  { intros k Hk. unfold din_addr, din, set_din_size, set_din_nlink, set_din_type. rewrite !blk_load_store_other by (rewrite ?length_blk_store, ?ZL; lia).
    apply Z0; lia. }
  assert (Hd : head_ok din t 0).
  { unfold head_ok, din, set_din_size, set_din_nlink, set_din_type. split_and!;
      repeat (rewrite blk_load_store_other by (rewrite ?length_blk_store, ?ZL; lia)); try (apply Z0; lia);
      (rewrite blk_load_store by (rewrite ?length_blk_store, ?ZL; lia)); [by apply Z.mod_small|done|done]. }
  replace fi with (Z.of_nat (length es) + 1) at 1. eapply (image_put V fb fi V fb _ es _ (length es) (Ent t din [])); try done.
  - rewrite fmap_app. apply world_new; [apply I|done..].
  - rewrite length_app. simpl. lia.
  - lia.
  - by apply list_lookup_middle.
  - intros j e Hj He. apply lookup_app_Some in He as [He|[Hge He]]; [done|]. apply list_lookup_singleton_Some in He as [? _]. lia.
Qed.
