(* ===== verification/MkfsMain.v ===== *)
(** * mkfs makes a file system of the files it is given *)
From S2P Require Import Prelude Kstring Block Sleeplock BufCache Log LogDisk LogProps Txn Fs FsBase FsBlock FsFile FsInode Mkfs MkfsProps.

Definition short (f : input) : list Z := skip_underscore (skip_user (in_name f)).
Definition contents (f : input) : list Z := concat (default [] (in_data f)).
(** The entries of the root directory for files from [inum] on. *)
Fixpoint entries (inum : Z) (l : list input) : list Z :=
  match l with [] => [] | f :: l => dirent inum (short f) ++ entries (inum + 1) l end.
Definition demand (l : list input) : Z := foldr (λ f a, price (length (contents f)) + a) 0 l.

(** A file that can be opened, with a name that has no slash. *)
Record good (f : input) : Prop := {
  go_slash : SLASH ∉ skip_user (in_name f);
  go_name : Forall (λ x, 0 ≤ x < 256) (in_name f);
  go_open : is_Some (in_data f);
  go_bytes : Forall (λ x, 0 ≤ x < 256) (contents f);
  go_size : Z.of_nat (length (contents f)) ≤ MAXFILE * BSIZE
}.

Lemma dirent_ok inum name : Forall (λ x, 0 ≤ x < 256) name → length (dirent inum name) = 16%nat ∧ Forall (λ x, 0 ≤ x < 256) (dirent inum name).
Proof.
  intros Hn. unfold dirent, put_dirent. split; [by rewrite length_app, !length_read_bytes|]. rewrite Forall_app. split; apply read_bytes_ok.
  - apply store_le_bytes_ok, blk_mem_bytes. apply Forall_take, Forall_replicate. lia.
  - assert (Hm : bytes_ok (names_mem (de_name zero_dirent) (name ++ [0]))).
    { apply blk_mem_bytes. rewrite !Forall_app. split_and!; [apply Forall_take, Forall_drop, Forall_replicate; lia|done|]. repeat constructor; lia. }
    intros x. change DIRSIZ with (Z.of_nat 14). rewrite strncpy_at by (done || lia). repeat case_bool_decide; try apply Hm. lia.
Qed.
Lemma short_bytes f : Forall (λ x, 0 ≤ x < 256) (in_name f) → Forall (λ x, 0 ≤ x < 256) (short f).
Proof.
  intros Hf. unfold short. assert (H : Forall (λ x, 0 ≤ x < 256) (skip_user (in_name f))) by (unfold skip_user; case_bool_decide; [by apply Forall_drop|done]).
  destruct (skip_user (in_name f)) as [|c l]; [done|]. simpl. destruct (c =? 95); [by inversion H|done].
Qed.
Lemma entries_length inum l : Forall good l → Z.of_nat (length (entries inum l)) = 16 * Z.of_nat (length l).
Proof.
  intros Hl. revert inum. induction Hl as [|f l Hf Hl IH]; intros inum; [done|]. cbn [entries length]. rewrite length_app, Nat2Z.inj_add, IH.
  rewrite (proj1 (dirent_ok inum (short f) (short_bytes f (go_name f Hf)))). lia.
Qed.

(** Types and contents. *)
Definition view (es : list ent) : list (Z * list Z) := (λ e, (e_type e, e_c e)) <$> es.
Lemma view_lookup es (i : nat) t c : view es !! i = Some (t, c) → ∃ din, es !! i = Some (Ent t din c).
Proof. unfold view. rewrite list_lookup_fmap. intros Hi. apply fmap_Some in Hi as ([t' d c'] & Hi & [= -> ->]). by exists d. Qed.
Lemma view_insert es (i : nat) t d c : view (<[i := Ent t d c]> es) = <[i := (t, c)]> (view es).
Proof. unfold view. by rewrite list_fmap_insert. Qed.

Lemma image_fb V fb fi es : image V fb fi es → fb = nmeta + foldr (λ x a, price (length x.2) + a) 0 (view es).
Proof.
  intros I. rewrite (w_fb _ _ _ (im_world _ _ _ _ I)). f_equal. clear. induction es as [|e es IH]; [done|]. simpl. f_equal. exact IH.
Qed.

(** [iappend] seen from outside. *)
Lemma iappend_view (Q : unit → mstate → Prop) V fb fi es (i : nat) t c p l : image V fb fi es → view es = l → l !! i = Some (t, c) →
  Forall (λ x, 0 ≤ x < 256) p → let len := Z.of_nat (length c) + Z.of_nat (length p) in len ≤ MAXFILE * BSIZE → fb + price len - price (length c) ≤ FSSIZE →
  (∀ V' fb' es', image V' fb' fi es' → view es' = <[i := (t, c ++ p)]> l → fb' = fb + price len - price (length c) → Q tt (img V' fb' fi)) →
  wp (iappend (Z.of_nat i + 1) p) Q (img V fb fi).
Proof.
  intros I <- Hi Hp len Hlen Hcap HQ. destruct (view_lookup es i t c Hi) as [din He]. eapply iappend_spec; [done..|]. intros V' fb' din' I'.
  eapply HQ; [done|by rewrite view_insert|]. rewrite (w_fb _ _ _ (im_world _ _ _ _ I')), (w_fb _ _ _ (im_world _ _ _ _ I)), list_fmap_insert.
  rewrite (total_insert _ _ _ _ (ent_lookup es i _ He)). unfold price, len, cost. simpl. rewrite length_app, Nat2Z.inj_add. lia.
Qed.

Lemma append_pieces_spec (Q : unit → mstate → Prop) ps V fb fi es (i : nat) t c l : image V fb fi es → view es = l → l !! i = Some (t, c) →
  Forall (λ x, 0 ≤ x < 256) (concat ps) → let len := Z.of_nat (length c) + Z.of_nat (length (concat ps)) in len ≤ MAXFILE * BSIZE → fb + price len - price (length c) ≤ FSSIZE →
  (∀ V' fb' es', image V' fb' fi es' → view es' = <[i := (t, c ++ concat ps)]> l → fb' = fb + price len - price (length c) → Q tt (img V' fb' fi)) →
  wp (append_pieces (Z.of_nat i + 1) ps) Q (img V fb fi).
Proof.
  revert V fb es c l. induction ps as [|p ps IH]; intros V fb es c l I Hv Hi Hb len Hlen Hcap HQ; cbn [append_pieces concat] in *.
  - apply wp_ret. eapply HQ; [done|rewrite app_nil_r, list_insert_id by done; done|unfold len; simpl; rewrite Z.add_0_r; lia].
  - apply Forall_app in Hb as [Hb1 Hb2]. unfold len in *. rewrite length_app, Nat2Z.inj_add in *. assert (Hlt := lookup_lt_Some _ _ _ Hi).
    pose proof (price_mono (length c + length p) (length c + (length p + length (concat ps))) ltac:(lia)).
    apply wp_bind. eapply iappend_view; [done..|lia|lia|]. intros V' fb' es' I' Hv' Efb.
    eapply IH; [exact I'|exact Hv'|by apply list_lookup_insert_eq|done|rewrite length_app; lia|rewrite length_app, Nat2Z.inj_add, <- Z.add_assoc; lia|].
    intros V2 fb2 es2 I2 Hv2 Efb2. eapply HQ; [done|rewrite Hv2, list_insert_insert_eq, <- app_assoc; done|].
    rewrite Efb2, Efb, length_app, Nat2Z.inj_add, <- Z.add_assoc. lia.
Qed.

Lemma view_length es l : view es = l → length es = length l.
Proof. intros <-. unfold view. by rewrite length_fmap. Qed.

Lemma add_file_spec (Q : unit → mstate → Prop) f V fb fi es r l : image V fb fi es → view es = (T_DIR, r) :: l → good f → fi < 208 →
  Z.of_nat (length r) + 16 ≤ MAXFILE * BSIZE → let price' := price (Z.of_nat (length r) + 16) - price (length r) + price (length (contents f)) in fb + price' ≤ FSSIZE →
  (∀ V' fb' es', image V' fb' (fi + 1) es' → view es' = (T_DIR, r ++ dirent fi (short f)) :: l ++ [(T_FILE, contents f)] → fb' = fb + price' → Q tt (img V' fb' (fi + 1))) →
  wp (add_file 1 f) Q (img V fb fi).
Proof.
  intros I Hv Hf Hfi Hr price' Hcap HQ. unfold add_file. rewrite bool_decide_eq_true_2 by apply Hf. apply wp_bind, wp_ret.
  destruct (go_open f Hf) as [ps Ep]. pose proof (go_size f Hf) as Hsz. pose proof (go_bytes f Hf) as Hby. assert (Ec : contents f = concat ps) by (unfold contents; by rewrite Ep).
  rewrite Ep. unfold price' in *. clear price'. rewrite Ec in *.
  destruct (im_fi _ _ _ _ I) as [Efi _]. pose proof (view_length es _ Hv) as Hle. simpl in Hle.
  change (skip_underscore (skip_user (in_name f))) with (short f). cbv zeta.
  apply wp_bind. eapply ialloc_spec; [done|done|done|]. intros V1 d1 I1.
  assert (Hv1 : view (es ++ [Ent T_FILE d1 []]) = (T_DIR, r) :: l ++ [(T_FILE, [])]) by (unfold view in *; rewrite fmap_app, Hv; done).
  destruct (dirent_ok fi (short f) (short_bytes f (go_name f Hf))) as [Ld Bd]. assert (Hp0 : 0 ≤ price (length (concat ps))) by (apply (price_mono 0); lia).
  apply wp_bind. change (iappend 1) with (iappend (Z.of_nat 0 + 1)). eapply (iappend_view _ _ _ _ _ 0); [exact I1|exact Hv1|done|exact Bd|rewrite Ld; simpl; lia|rewrite Ld; change (Z.of_nat 16) with 16; lia|].
  intros V2 fb2 es2 I2 Hv2 Efb2. rewrite Ld in Efb2. simpl in Hv2. change (Z.of_nat 16) with 16 in Efb2.
  replace (append_pieces fi ps) with (append_pieces (Z.of_nat (length es) + 1) ps) by (by rewrite Efi). eapply (append_pieces_spec _ _ _ _ _ _ (length es) T_FILE []); [exact I2|exact Hv2| |exact Hby|cbn [length]; lia|cbn [length]; change (Z.of_nat 0) with 0; rewrite Z.add_0_l; change (price 0) with 0; lia|].
  - rewrite Hle. simpl. by apply list_lookup_middle.
  - intros V3 fb3 es3 I3 Hv3 Efb3. eapply HQ; [exact I3| |].
    + rewrite Hv3, Hle. simpl. f_equal. by rewrite insert_app_r_alt, Nat.sub_diag by lia.
    + rewrite Efb3, Efb2. cbn [length]. change (Z.of_nat 0) with 0. rewrite Z.add_0_l. change (price 0) with 0. lia.
Qed.

Lemma add_files_spec (Q : unit → mstate → Prop) l V fb fi es r l0 : image V fb fi es → view es = (T_DIR, r) :: l0 → Forall good l → fi + Z.of_nat (length l) ≤ 208 →
  let r' := Z.of_nat (length r) + 16 * Z.of_nat (length l) in r' ≤ MAXFILE * BSIZE → fb + (price r' - price (length r)) + demand l ≤ FSSIZE →
  (∀ V' fb' es', image V' fb' (fi + Z.of_nat (length l)) es' → view es' = (T_DIR, r ++ entries fi l) :: l0 ++ ((λ f, (T_FILE, contents f)) <$> l) →
    Q tt (img V' fb' (fi + Z.of_nat (length l)))) →
  wp (add_files 1 l) Q (img V fb fi).
Proof.
  revert V fb fi es r l0. induction l as [|f l IH]; intros V fb fi es r l0 I Hv Hl Hfi r' Hr' Hcap HQ; cbn [add_files entries demand foldr length] in *.
  - apply wp_ret. rewrite Z.add_0_r in HQ. eapply HQ; [exact I|]. by rewrite !app_nil_r.
  - apply Forall_cons in Hl as [Hf Hl]. destruct (dirent_ok fi (short f) (short_bytes f (go_name f Hf))) as [Ld _].
    assert (Hd : 0 ≤ demand l) by (clear; induction l as [|f l IH]; simpl; [lia|]; pose proof (price_mono 0 (length (contents f)) ltac:(lia)); change (price 0) with 0 in *; lia).
    pose proof (price_mono (Z.of_nat (length r) + 16) r' ltac:(unfold r'; lia)) as Hpm. fold (demand l) in Hcap.
    apply wp_bind. eapply add_file_spec; [exact I|exact Hv|exact Hf|lia|unfold r' in *; lia|lia|]. intros V1 fb1 es1 I1 Hv1 Efb1.
    eapply IH; [exact I1|exact Hv1|done|lia|rewrite length_app, Ld; unfold r' in *; lia|rewrite length_app, Ld|].
    + replace (Z.of_nat (length r + 16) + 16 * Z.of_nat (length l)) with r' by (unfold r'; lia). rewrite Nat2Z.inj_add. change (Z.of_nat 16) with 16. lia.
    + intros V2 fb2 es2 I2 Hv2. replace (fi + 1 + Z.of_nat (length l)) with (fi + Z.of_nat (S (length l))) in * by lia. eapply HQ; [exact I2|].
      rewrite Hv2. by rewrite <- !app_assoc.
Qed.

(** The empty image. *)
Lemma zero_loop_spec (Q : unit → mstate → Prop) k i V fb fi : (∀ n, V n = zero_block) → 0 ≤ i → i + Z.of_nat k = FSSIZE →
  (∀ V', (∀ n, V' n = zero_block) → Q tt (img V' fb fi)) → wp (zero_loop i k) Q (MState V i sb fi fb).
Proof.
  revert i V. induction k as [|k IH]; intros i V HV Hi Hk HQ; cbn [zero_loop].
  - apply wp_ret. replace i with FSSIZE by lia. by apply HQ.
  - apply wp_bind. unfold wsect. apply wp_modify. rewrite sect_small by lia. unfold set_image. cbn [m_blocks m_len m_sb m_freeinode m_freeblock].
    rewrite Z.max_r by lia. apply IH; [|lia|lia|done]. intros n. destruct (decide (i = n)) as [->|]; [apply fn_lookup_insert|by rewrite fn_lookup_insert_ne].
Qed.
Lemma sb_block_ok : blk_ok sb_block.
Proof. split; [by vm_compute|]. apply Forall_forall. assert (E : forallb (λ x, (0 <=? x) && (x <? 256)) sb_block = true) by (vm_compute; reflexivity).
  intros x Hx. rewrite forallb_forall in E. apply list_elem_of_In in Hx. apply E, andb_true_iff in Hx as [H1 H2]. lia.
Qed.
Lemma zero_din : blk_read zero_block 0 64 = no_dinode ∧ ∀ o, 0 ≤ o → o + 64 ≤ 1024 → blk_read zero_block o 64 = no_dinode.
Proof.
  assert (H : ∀ o, 0 ≤ o → o + 64 ≤ 1024 → blk_read zero_block o 64 = no_dinode); [|split; [apply H; lia|done]].
  intros o Ho Hl. apply list_eq. intros i. unfold blk_read, no_dinode. destruct (decide (i < 64)%nat) as [Hi|].
  - rewrite read_bytes_lookup by done. rewrite lookup_replicate_2 by done. f_equal. unfold blk_mem, zero_block. apply lookup_total_replicate_2.
    change (Z.to_nat BSIZE) with 1024%nat. lia.
  - rewrite !lookup_ge_None_2; [done|rewrite length_replicate; lia|rewrite length_read_bytes; lia].
Qed.
Lemma image_empty V : (∀ n, V n = zero_block) → image (<[1 := sb_block]> V) nmeta 1 [].
Proof.
  intros HV. assert (E : ∀ n, n ≠ 1 → (<[1 := sb_block]> V) n = zero_block) by (intros n Hn; by rewrite fn_lookup_insert_ne). split.
  - split; try done; simpl.
    + intros n. destruct (decide (n = 1)) as [->|]; [rewrite fn_lookup_insert; apply sb_block_ok|rewrite E by done; apply zero_block_ok].
    + intros n Hn. change nmeta with 46 in Hn. apply E. lia.
  - done.
  - done.
  - intros inum Hi. destruct (IB_range inum ltac:(lia)) as (? & ? & ?). unfold din_at. rewrite E by lia. by apply zero_din.
  - split; [apply fn_lookup_insert|]. intros n _ Hn. by apply E.
Qed.

Definition root_entries (files : list input) : list Z := dirent 1 [46] ++ dirent 1 [46; 46] ++ entries 2 files.
(** What the image holds: the root directory, then the files. *)
Definition listing (files : list input) : list (Z * list Z) := (T_DIR, root_entries files) :: ((λ f, (T_FILE, contents f)) <$> files).
(** What mkfs needs of its arguments. *)
Record fits (files : list input) : Prop := {
  ft_good : Forall good files;
  ft_inodes : Z.of_nat (length files) + 2 ≤ NINODES;
  ft_blocks : nmeta + price (32 + 16 * Z.of_nat (length files)) + demand files ≤ FSSIZE
}.

Lemma dot_ok n : Forall (λ x, 0 ≤ x < 256) (replicate n 46).
Proof. apply Forall_replicate. lia. Qed.

Ltac lens := cbn [length]; change (MAXFILE * BSIZE) with 274432; change nmeta with 46 in *; change FSSIZE with 2000 in *; change (Z.of_nat 0) with 0; change (Z.of_nat 16) with 16; rewrite ?Z.add_0_l;
  change (price 0) with 0 in *; change (16 + 16) with 32; lia.

(** The part of [main] that fills the image. *)
Lemma fill_spec (Q : unit → mstate → Prop) (k : Z → M mstate unit) V files : fits files → (∀ n, V n = zero_block) →
  (∀ V' fb fi es, image V' fb fi es → view es = listing files → wp (k 1) Q (img V' fb fi)) →
  wp (rootino ← ialloc T_DIR;
      assert (rootino =? ROOTINO) ;;
      iappend rootino (dirent rootino [46]) ;;
      iappend rootino (dirent rootino [46; 46]) ;;
      add_files rootino files ;;
      k rootino) Q (img (<[1 := sb_block]> V) nmeta 1).
Proof.
  intros [Hg Hn Hc] HV HQ. apply wp_bind. eapply ialloc_spec; [by apply image_empty|done|done|]. intros V1 d1 I1. apply wp_bind, wp_ret.
  destruct (dirent_ok 1 [46] (dot_ok 1)) as [L1 B1]. destruct (dirent_ok 1 [46; 46] (dot_ok 2)) as [L2 B2]. unfold NINODES in Hn.
  assert (Hd : 0 ≤ demand files) by (clear; induction files as [|f l IH]; simpl; [lia|]; pose proof (price_mono 0 (length (contents f)) ltac:(lia)); change (price 0) with 0 in *; lia).
  pose proof (price_mono 16 (32 + 16 * Z.of_nat (length files)) ltac:(lia)) as P1. pose proof (price_mono 32 (32 + 16 * Z.of_nat (length files)) ltac:(lia)) as P2.
  apply wp_bind. change (iappend 1) with (iappend (Z.of_nat 0 + 1)).
  eapply (iappend_view _ _ _ _ _ 0 T_DIR [] _ [(T_DIR, [])]); [exact I1|done|done|exact B1|rewrite L1; lens|rewrite L1; lens|].
  rewrite L1. intros V2 fb2 es2 I2 Hv2 E2. change (view es2 = [(T_DIR, dirent 1 [46])]) in Hv2. apply wp_bind. change (iappend 1) with (iappend (Z.of_nat 0 + 1)).
  eapply (iappend_view _ _ _ _ _ 0); [exact I2|exact Hv2|done|exact B2|rewrite L1, L2; lens|rewrite L1, L2, E2; lens|].
  rewrite L1, L2, E2. intros V3 fb3 es3 I3 Hv3 E3. change (view es3 = [(T_DIR, dirent 1 [46] ++ dirent 1 [46; 46])]) in Hv3.
  apply wp_bind. eapply add_files_spec; [exact I3|exact Hv3|exact Hg|lia|rewrite length_app, L1, L2; lens|..].
  - rewrite length_app, L1, L2, E3. change (Z.of_nat (16 + 16)) with 32. lens.
  - intros V4 fb4 es4 I4 Hv4. eapply HQ; [exact I4|]. rewrite Hv4. unfold listing, root_entries. by rewrite app_assoc.
Qed.

(** ** The kernel's view of the image *)

Lemma set_bit_loop i k buf : balloc_loop i (S k) buf = balloc_loop (i + 1) k (set_bit buf i).
Proof. done. Qed.
Lemma balloc_loop_bit k i buf j : blk_ok buf → 0 ≤ i → i + Z.of_nat k ≤ BPB → 0 ≤ j < BPB →
  blk_ok (balloc_loop i k buf) ∧ bit (balloc_loop i k buf) j = if decide (i ≤ j < i + Z.of_nat k) then true else bit buf j.
Proof.
  revert i buf. induction k as [|k IH]; intros i buf Hb Hi Hk Hj; [split; [done|rewrite decide_False by lia; done]|].
  rewrite set_bit_loop. destruct (IH (i + 1) (set_bit buf i)) as [H1 H2]; [by apply blk_store_ok|lia|lia|done|]. split; [done|]. rewrite H2, bit_set by (done || lia).
  repeat case_decide; try lia; done.
Qed.

(** The inode that [ilock] reads. *)
Definition disk_inode (V : Z → block) (inum : Z) (x0 : inode) : inode := load_inode (V (IBLOCK inum sb)) (dinode_off inum) x0.

(** [V] holds a file system whose blocks from [free] on are free and whose
    inodes from 1 on are [l], with types and contents. *)
Record fs_image (V : Z → block) (free : Z) (l : list (Z * list Z)) : Prop := {
  fi_super : (λ k, blk_load 4 (V 1) (4 * k)) <$> seqZ 0 8 = [FSMAGIC; sb_size sb; sb_nblocks sb; sb_ninodes sb; sb_nlog sb; sb_logstart sb; sb_inodestart sb; sb_bmapstart sb];
  fi_sb : sb_ok sb;
  fi_log : hdr_n (V (sb_logstart sb)) = 0;
  fi_file : ∀ (i : nat) t c x0, l !! i = Some (t, c) → let x := disk_inode V (Z.of_nat i + 1) x0 in
    i_type x = t ∧ i_nlink x = 1 ∧ i_size x = (if t =? T_DIR then (Z.of_nat (length c) / BSIZE + 1) * BSIZE else Z.of_nat (length c)) ∧
    file_ok V sb x ∧ (∀ bn, 0 ≤ bn < MAXFILE → baddr V x bn ≠ 0 ↔ bn * BSIZE < Z.of_nat (length c)) ∧
    fbytes V x 0 (i_size x) = c ++ replicate (Z.to_nat (i_size x - length c)) 0;
  fi_apart : ∀ (i j : nat) x0 y0 k k', (i < length l)%nat → (j < length l)%nat → 0 ≤ k < NSLOT → 0 ≤ k' < NSLOT →
    slot V (disk_inode V (Z.of_nat i + 1) x0) k = slot V (disk_inode V (Z.of_nat j + 1) y0) k' → slot V (disk_inode V (Z.of_nat i + 1) x0) k ≠ 0 → i = j ∧ k = k';
  fi_used : ∀ b, 0 ≤ b < sb_size sb → used V sb b = (b <? free);
  fi_unused : ∀ inum, Z.of_nat (length l) < inum < sb_ninodes sb → di_type (V (IBLOCK inum sb)) (dinode_off inum) = 0
}.

Lemma disk_load V inum n o : 0 ≤ inum < 208 → 0 ≤ o → o + Z.of_nat n ≤ 64 →
  blk_load n (V (IBLOCK inum sb)) (dinode_off inum + o) = blk_load n (din_at V inum) o.
Proof.
  intros Hi Ho Hn. destruct (IB_range inum Hi) as (_ & ? & ?). unfold din_at. rewrite blk_load_read by lia. done.
Qed.
Lemma disk_slot V inum x0 k : 0 ≤ inum < 208 → 0 ≤ k < NSLOT → slot V (disk_inode V inum x0) k = dslot V (din_at V inum) k.
Proof.
  intros Hi Hk. assert (A : ∀ k, 0 ≤ k ≤ 12 → iaddr k (disk_inode V inum x0) = din_addr k (din_at V inum)).
  { intros k' Hk'. unfold iaddr, disk_inode, load_inode, di_addrs. cbn [i_addrs]. rewrite list_lookup_total_alt, list_lookup_fmap, lookup_seqZ_lt by (change (NDIRECT + 1) with 13; lia).
    simpl. unfold din_addr. rewrite <- disk_load by (lia || done). f_equal. lia. }
  unfold slot, dslot. change NDIRECT with 12. rewrite (A 12) by lia. destruct (Z.leb_spec k 12); [apply A; lia|]. destruct (din_addr 12 (din_at V inum) =? 0); [done|].
  f_equal. lia.
Qed.
Lemma disk_head V inum x0 d t n : 0 ≤ inum < 208 → din_at V inum = d → head_ok d t n → 0 ≤ t < 2 ^ 15 → let x := disk_inode V inum x0 in
  i_type x = t ∧ i_nlink x = 1 ∧ i_size x = n.
Proof.
  intros Hi <- (H1 & _ & _ & H4 & H5) Ht x. unfold x, disk_inode, load_inode, di_type, di_nlink, di_size. cbn [i_type i_nlink i_size].
  rewrite <- (Z.add_0_r (dinode_off inum)) at 1. rewrite !disk_load by (lia || done). rewrite H1, H4, H5. split_and!; [|done|done].
  apply swrap_small; [|done]. change (2 ^ (16 - 1)) with (2 ^ 15). lia.
Qed.

Lemma default_bytes (g : Z → Z) (c : list Z) n : Z.of_nat (length c) ≤ n → (∀ o, 0 ≤ o < n → g o = default 0 (c !! Z.to_nat o)) →
  g <$> seqZ 0 n = c ++ replicate (Z.to_nat (n - length c)) 0.
Proof.
  intros Hn Hg. apply list_eq. intros i. rewrite list_lookup_fmap. destruct (decide (Z.of_nat i < n)) as [Hi|Hi].
  - rewrite lookup_seqZ_lt by done. simpl. rewrite Hg by lia. replace (Z.to_nat (0 + Z.of_nat i)) with i by lia. destruct (decide (i < length c)%nat) as [Hc|Hc].
    + rewrite lookup_app_l by done. by destruct (lookup_lt_is_Some_2 c i Hc) as [x ->].
    + rewrite lookup_app_r, lookup_replicate_2, lookup_ge_None_2 by lia. done.
  - rewrite lookup_seqZ_ge by lia. rewrite lookup_ge_None_2; [done|]. rewrite length_app, length_replicate. lia.
Qed.
Lemma blocks_below bn n : 0 ≤ n → bn < blocks n ↔ bn * BSIZE < n.
Proof. unfold blocks, BSIZE. intros. Z.to_euclidean_division_equations. lia. Qed.

(** The files of the image, for the kernel. *)
Section kernel_view.
Variables (V : Z → block) (fb : Z) (fs : list fent).
Hypotheses (W : world V fb fs) (Hfb : fb ≤ FSSIZE) (Hnum : Z.of_nat (length fs) < 200).
Hypothesis (Hdin : ∀ (i : nat) f, fs !! i = Some f → din_at V (Z.of_nat i + 1) = f_din f ∧ f_m f = blocks (length (f_c f))).
Hypothesis (Hused : ∀ b, 0 ≤ b < 2000 → used V sb b = (b <? fb)).

Lemma kv_slot (i : nat) f x0 k : fs !! i = Some f → 0 ≤ k < NSLOT → slot V (disk_inode V (Z.of_nat i + 1) x0) k = dslot V (f_din f) k.
Proof. intros Hi Hk. assert (Hlt := lookup_lt_Some _ _ _ Hi). destruct (Hdin i f Hi) as [<- _]. apply disk_slot; [lia|done]. Qed.
Lemma kv_file_ok (i : nat) f x0 : fs !! i = Some f → file_ok V sb (disk_inode V (Z.of_nat i + 1) x0).
Proof.
  intros Hi. split.
  - unfold disk_inode, load_inode, di_addrs. cbn [i_addrs]. by rewrite length_fmap, length_seqZ.
  - intros k Hk. rewrite (kv_slot i f) by done. intros Hn. pose proof (w_range _ _ _ W i f k Hi Hk Hn). change (datastart sb) with nmeta. change (sb_size sb) with 2000.
    unfold FSSIZE in *. change nmeta with 46 in *. rewrite Hused by lia. split; [lia|]. apply Z.ltb_lt. lia.
  - intros j k Hj Hk. rewrite !(kv_slot i f) by done. intros E Hn. by apply (w_uniq _ _ _ W i i f f j k).
Qed.
Lemma kv_data (i : nat) f x0 n : fs !! i = Some f → Z.of_nat (length (f_c f)) ≤ n ≤ MAXFILE * BSIZE → let x := disk_inode V (Z.of_nat i + 1) x0 in
  (∀ bn, 0 ≤ bn < MAXFILE → baddr V x bn ≠ 0 ↔ bn * BSIZE < Z.of_nat (length (f_c f))) ∧
  fbytes V x 0 n = f_c f ++ replicate (Z.to_nat (n - length (f_c f))) 0.
Proof.
  intros Hi Hn x. pose proof (w_file _ _ _ W i f Hi) as F. destruct (Hdin i f Hi) as [_ Em].
  assert (EA : ∀ bn, 0 ≤ bn < MAXFILE → baddr V x bn = daddr V (f_din f) bn) by (intros bn Hbn; apply (kv_slot i f); [done|by apply slot_of_12]). split.
  - intros bn Hbn. rewrite EA by done. rewrite (fa_blocks _ _ F), Em by done. apply blocks_below. lia.
  - apply default_bytes; [lia|]. intros o Ho. rewrite <- (fa_data _ _ F) by lia. unfold fbyte, dbyte. rewrite EA by (apply off_range; lia). done.
Qed.
End kernel_view.

(** The size of the root directory is rounded up, and the bitmap written. *)
Section ends.
Variables (V : Z → block) (fb fi : Z) (es : list ent) (r : list Z) (l : list (Z * list Z)) (d : list Z).
Hypotheses (I : image V fb fi es) (Hv : view es = (T_DIR, r) :: l) (Hl : Forall (λ x, x.1 = T_FILE ∧ Z.of_nat (length x.2) ≤ MAXFILE * BSIZE) l).
Hypotheses (Hr : Z.of_nat (length r) + BSIZE ≤ MAXFILE * BSIZE) (Hfb : fb ≤ FSSIZE) (Hfi : fi ≤ 200) (Hd : es !! 0%nat = Some (Ent T_DIR d r)).
Let size := (Z.of_nat (length r) / BSIZE + 1) * BSIZE.
Let d' := set_din_size size d.
Let bitmap := balloc_loop 0 (Z.to_nat fb) zero_block.
Let V' : Z → block := <[45 := bitmap]> (put_din 1 d' V).
Let fs := <[0%nat := rest d' r]> (ent_f <$> es).

Lemma en_size : Z.of_nat (length r) ≤ size ≤ MAXFILE * BSIZE.
Proof using Hr. clear -Hr. unfold size, BSIZE in *. change MAXFILE with 268 in *. Z.to_euclidean_division_equations. lia. Qed.
Lemma en_root : file_at V (rest d r) ∧ head_ok d T_DIR (length r) ∧ din_at V 1 = d.
Proof.
  split; [|by destruct (im_ent _ _ _ _ I 0%nat _ Hd)]. apply (w_file _ _ _ (im_world _ _ _ _ I) 0%nat). exact (ent_lookup es 0 _ Hd).
Qed.
Lemma en_d : length d' = 64%nat ∧ Forall (λ x, 0 ≤ x < 256) d' ∧ (∀ k, 0 ≤ k ≤ 12 → din_addr k d' = din_addr k d) ∧ head_ok d' T_DIR size.
Proof.
  destruct en_root as (F & (H1 & H2 & H3 & H4 & H5) & _). pose proof en_size as Hs. change (MAXFILE * BSIZE) with 274432 in Hs.
  destruct (set_size_ok d size (fa_len _ _ F) (fa_bytes _ _ F) ltac:(lia)) as (L1 & L2 & L3 & L4 & L5). split_and!; try done.
  unfold head_ok, d'. rewrite !L5 by lia. by split_and!.
Qed.
Lemma en_bitmap : blk_ok bitmap ∧ ∀ b, 0 ≤ b < 2000 → bit bitmap b = (b <? fb).
Proof.
  pose proof (world_fb _ _ _ (im_world _ _ _ _ I)) as Hm. change nmeta with 46 in Hm. unfold FSSIZE in Hfb.
  assert (H : ∀ j, 0 ≤ j < BPB → blk_ok bitmap ∧ bit bitmap j = if decide (0 ≤ j < 0 + Z.of_nat (Z.to_nat fb)) then true else bit zero_block j).
  { intros j Hj. apply balloc_loop_bit; [apply zero_block_ok|lia|change BPB with 8192; lia|done]. }
  split; [by apply (H 0)|]. intros b Hb. destruct (H b ltac:(change BPB with 8192; lia)) as [_ ->]. destruct (Z.ltb_spec b fb); case_decide; try lia.
  unfold bit. rewrite load_zero; [apply Z.bits_0|..]; unfold BSIZE; Z.to_euclidean_division_equations; lia.
Qed.
Lemma en_world : world V' fb fs.
Proof.
  destruct en_d as (L1 & L2 & L3 & _). pose proof (im_world _ _ _ _ I) as W. pose proof (w_blk _ _ _ W) as HB.
  pose proof (world_din V fb _ 0 _ d' W (ent_lookup es 0 _ Hd) L1 L2 L3) as W2. eapply world_ext; [exact W2| |].
  - intros n Hn. unfold V'. change nmeta with 46 in Hn. rewrite fn_lookup_insert_ne by lia. by apply put_din_high.
  - intros n. unfold V'. destruct (decide (45 = n)) as [<-|]; [rewrite fn_lookup_insert; apply en_bitmap|rewrite fn_lookup_insert_ne by done; by apply put_din_ok].
Qed.
Lemma en_din inum : 0 ≤ inum < 208 → din_at V' inum = if decide (1 = inum) then d' else din_at V inum.
Proof.
  intros Hi. destruct en_d as (L1 & _). rewrite <- (din_at_put V 1 inum d') by (done || lia || apply (w_blk _ _ _ (im_world _ _ _ _ I))).
  unfold din_at, V'. destruct (IB_range inum Hi). by rewrite fn_lookup_insert_ne by lia.
Qed.
Lemma en_used b : 0 ≤ b < 2000 → used V' sb b = (b <? fb).
Proof.
  intros Hb. unfold used. assert (E : BBLOCK b sb = 45) by (unfold BBLOCK; change (sb_bmapstart sb) with 45; change BPB with 8192; rewrite Z.div_small by lia; done).
  rewrite E. unfold V'. rewrite fn_lookup_insert. rewrite Z.mod_small by (change BPB with 8192; lia). by apply en_bitmap.
Qed.
Lemma en_ent (i : nat) t c : ((T_DIR, r) :: l) !! i = Some (t, c) → ∃ e, es !! i = Some (Ent t e c).
Proof. rewrite <- Hv. apply view_lookup. Qed.
Lemma en_fs (i : nat) f : fs !! i = Some f → (din_at V' (Z.of_nat i + 1) = f_din f ∧ f_m f = blocks (length (f_c f))) ∧
  ∃ t, ((T_DIR, r) :: l) !! i = Some (t, f_c f) ∧ head_ok (f_din f) t (if t =? T_DIR then size else length (f_c f)).
Proof.
  intros Hi. assert (Hlt := lookup_lt_Some _ _ _ Hi). unfold fs in Hlt. rewrite length_insert, length_fmap in Hlt. destruct (im_fi _ _ _ _ I) as [Ei _].
  assert (Hz := lookup_lt_Some _ _ _ Hd). destruct i as [|i].
  - unfold fs in Hi. rewrite list_lookup_insert_eq in Hi by (by rewrite length_fmap). injection Hi as <-. split; [split; [by apply en_din|done]|].
    exists T_DIR. split; [done|]. apply en_d.
  - unfold fs in Hi. rewrite list_lookup_insert_ne, list_lookup_fmap in Hi by done. apply fmap_Some in Hi as (e & He & ->).
    destruct (im_ent _ _ _ _ I _ _ He) as [Ed Hh]. split; [split; [|done]|].
    + rewrite en_din by lia. rewrite decide_False by lia. exact Ed.
    + exists (e_type e). assert (Hl' : ((T_DIR, r) :: l) !! S i = Some (e_type e, e_c e)) by (rewrite <- Hv; unfold view; rewrite list_lookup_fmap, He; done).
      split; [done|]. simpl in Hl'. rewrite Forall_lookup in Hl. destruct (Hl _ _ Hl') as [Et _]. simpl in Et. rewrite Et in *. exact Hh.
Qed.
Lemma en_lookup (i : nat) t c : ((T_DIR, r) :: l) !! i = Some (t, c) → ∃ f, fs !! i = Some f ∧ f_c f = c.
Proof.
  intros Hi. assert (Hz := lookup_lt_Some _ _ _ Hd). unfold fs. destruct i as [|i].
  - injection Hi as <- <-. exists (rest d' r). split; [apply list_lookup_insert_eq; by rewrite length_fmap|done].
  - destruct (en_ent _ _ _ Hi) as [e He]. exists (rest e c). rewrite list_lookup_insert_ne, list_lookup_fmap by done. rewrite He. done.
Qed.
Lemma en_low n : 0 ≤ n < 32 → V' n = V n.
Proof. intros Hn. unfold V'. rewrite fn_lookup_insert_ne by lia. apply put_din_low; lia. Qed.
Lemma en_image : fs_image V' fb ((T_DIR, r) :: l).
Proof.
  pose proof en_world as W. destruct (im_low _ _ _ _ I) as [L1 L2]. destruct (im_fi _ _ _ _ I) as [Ei _]. pose proof (view_length es _ Hv) as Hle.
  assert (Hfs : length fs = length es) by (unfold fs; by rewrite length_insert, length_fmap).
  assert (HD : ∀ (i : nat) f, fs !! i = Some f → din_at V' (Z.of_nat i + 1) = f_din f ∧ f_m f = blocks (length (f_c f))) by (intros i f Hi; apply (en_fs i f Hi)).
  split.
  - rewrite en_low, L1 by lia. vm_compute. reflexivity.
  - apply mkfs_sb_ok.
  - change (sb_logstart sb) with 2. rewrite en_low, L2 by lia. unfold hdr_n. rewrite load_zero; [done|lia|unfold BSIZE; lia].
  - intros i t c x0 Hi. destruct (en_lookup i t c Hi) as (f & Hf & <-). destruct (en_fs i f Hf) as [[Ed _] (t' & Ht' & Hh)].
    assert (t' = t) as -> by congruence. assert (Hlt := lookup_lt_Some _ _ _ Hf).
    assert (Ht : 0 ≤ t < 2 ^ 15 ∧ Z.of_nat (length (f_c f)) ≤ (if t =? T_DIR then size else length (f_c f)) ≤ MAXFILE * BSIZE).
    { destruct i as [|i]; [injection Hi as <- <-; split; [done|]; apply en_size|]. simpl in Hi. rewrite Forall_lookup in Hl. destruct (Hl _ _ Hi) as [Et Hs].
      simpl in Et, Hs. rewrite Et. split; [done|]. change (T_FILE =? T_DIR) with false. lia. }
    destruct (disk_head V' (Z.of_nat i + 1) x0 _ t _ ltac:(lia) Ed Hh (proj1 Ht)) as (E1 & E2 & E3).
    destruct (kv_data V' fb fs W ltac:(lia) HD i f x0 _ Hf (proj2 Ht)) as [B1 B2].
    cbv zeta. rewrite E1, E2, E3. split_and!; [done|done| |exact (kv_file_ok V' fb fs W Hfb ltac:(lia) HD en_used i f x0 Hf)|done|done]. destruct (Z.eqb_spec t T_DIR) as [->|]; [|done].
    destruct i as [|i]; [by injection Hi as <-|]. simpl in Hi. rewrite Forall_lookup in Hl. by destruct (Hl _ _ Hi) as [Et _].
  - intros i j x0 y0 k k' Hi Hj Hk Hk'. destruct (lookup_lt_is_Some_2 fs i ltac:(lia)) as [f Hf], (lookup_lt_is_Some_2 fs j ltac:(lia)) as [g Hg].
    rewrite (kv_slot V' fs ltac:(lia) HD i f), (kv_slot V' fs ltac:(lia) HD j g) by done. by apply (w_uniq _ _ _ W).
  - apply en_used.
  - intros inum Hn. change (sb_ninodes sb) with 200 in Hn. unfold di_type. rewrite <- (Z.add_0_r (dinode_off inum)), disk_load by (lia || done).
    rewrite en_din by lia. rewrite decide_False by (simpl in Hn; lia). rewrite (im_free _ _ _ _ I) by (simpl in *; lia). unfold no_dinode. by rewrite load_zeros by lia.
Qed.
End ends.

Lemma finish_spec (Q : unit → mstate → Prop) V fb fi es r l : image V fb fi es → view es = (T_DIR, r) :: l →
  Forall (λ x, x.1 = T_FILE ∧ Z.of_nat (length x.2) ≤ MAXFILE * BSIZE) l → Z.of_nat (length r) + BSIZE ≤ MAXFILE * BSIZE → fb ≤ FSSIZE → fi ≤ 200 →
  (∀ V', fs_image V' fb ((T_DIR, r) :: l) → Q tt (img V' fb fi)) →
  wp (din ← rinode 1;
      let off := xint (din_size din) in
      let off := (off / BSIZE + 1) * BSIZE in
      winode 1 (set_din_size (xint off) din) ;;
      used ← gets m_freeblock;
      balloc used) Q (img V fb fi).
Proof.
  intros I Hv Hl Hr Hfb Hfi HQ. destruct (view_lookup es 0 T_DIR r) as [d Hd]; [by rewrite Hv|]. pose proof (world_fb _ _ _ (im_world _ _ _ _ I)) as Hm.
  destruct (en_root V fb fi es r d I Hd) as (F & (_ & _ & _ & _ & H5) & Ed). pose proof (en_size r Hr) as Hs. change (MAXFILE * BSIZE) with 274432 in *.
  apply wp_bind, rinode_spec; [lia|]. rewrite Ed. unfold din_size. rewrite H5, (xint_id (length r)) by (unfold BSIZE in *; lia). cbv zeta. rewrite xint_id by lia.
  apply wp_bind, winode_spec; [lia|]. apply wp_bind, wp_gets. unfold balloc. cbn [m_freeblock img]. unfold FSSIZE in Hfb. change nmeta with 46 in Hm.
  rewrite (proj2 (Z.ltb_lt fb _)) by (unfold BSIZE; lia). apply wp_bind, wp_ret, wp_bind, wp_gets. change (sb_bmapstart (m_sb (img _ _ _))) with 45.
  apply wsect_spec; [unfold FSSIZE; lia|]. apply HQ. by apply (en_image V fb fi es r l d).
Qed.

(** C31: mkfs makes a file system that the kernel's code can use, of any files
    that fit: the superblock describes the layout, the log is empty, the root
    directory lists the files by their short names, every file's inode, read
    as [ilock] reads it, has its type and size, its blocks are data blocks
    marked in use that no other file has, and they hold the file's contents;
    all other blocks and inodes are free.  mkfs neither dies nor fails an
    assertion. *)
Theorem mkfs_makes_fs files : fits files →
  wp (main files) (λ _ s, m_len s = FSSIZE ∧ m_freeblock s = nmeta + price (32 + 16 * Z.of_nat (length files)) + demand files ∧
    fs_image (m_blocks s) (m_freeblock s) (listing files)) mkfs_start.
Proof.
  intros Hf. unfold main. apply wp_bind, wp_modify, wp_bind, wp_modify, wp_bind. apply (zero_loop_spec _ (Z.to_nat FSSIZE) 0 (λ _, zero_block) nmeta 1); [done|lia|done|]. intros V HV.
  apply wp_bind, wsect_spec; [done|]. apply fill_spec; [done|done|]. intros V' fb fi es I Hv. destruct Hf as [Hg Hn Hc]. unfold NINODES in Hn.
  assert (Hr : Z.of_nat (length (root_entries files)) = 32 + 16 * Z.of_nat (length files)).
  { unfold root_entries. rewrite !length_app, !Nat2Z.inj_add, entries_length by done. rewrite (proj1 (dirent_ok 1 [46] (dot_ok 1))), (proj1 (dirent_ok 1 [46; 46] (dot_ok 2))). lia. }
  assert (Efb : fb = nmeta + price (32 + 16 * Z.of_nat (length files)) + demand files).
  { rewrite (image_fb _ _ _ _ I), Hv. unfold listing. cbn [foldr snd]. rewrite Hr. rewrite <- Z.add_assoc. do 2 f_equal. unfold demand. clear.
    induction files as [|f fs IH]; [done|]. simpl. f_equal. exact IH. }
  destruct (im_fi _ _ _ _ I) as [Ei _]. pose proof (view_length es _ Hv) as Hle. unfold listing in Hle. cbn [length] in Hle. rewrite length_fmap in Hle.
  eapply finish_spec; [exact I|exact Hv| |change (MAXFILE * BSIZE) with 274432; unfold BSIZE; lia|lia|lia|].
  - apply Forall_fmap. eapply Forall_impl; [exact Hg|]. intros f Hf. split; [done|apply Hf].
  - intros V2 HI. done.
Qed.

(** ** An image with two files *)

Module MkfsDemo.
(** [user/_cat] in two pieces, and [README]. *)
Definition sample : list input :=
  [Input ([117; 115; 101; 114; 47] ++ [95; 99; 97; 116]) (Some [[1; 2; 3]; [4; 5]]); Input [82; 69; 65; 68; 77; 69] (Some [[120; 118; 54]])].
Lemma sample_names : short <$> sample = [[99; 97; 116]; [82; 69; 65; 68; 77; 69]].
Proof. vm_compute. reflexivity. Qed.
Definition bytes_in (l : list Z) : bool := forallb (λ x, (0 <=? x) && (x <? 256)) l.
Lemma bytes_in_ok l : bytes_in l = true → Forall (λ x, 0 ≤ x < 256) l.
Proof.
  intros E. apply Forall_forall. intros x Hx. unfold bytes_in in E. rewrite forallb_forall in E. apply list_elem_of_In, E, andb_true_iff in Hx as [H1 H2]. lia.
Qed.
Lemma good_check n d : bool_decide (SLASH ∉ skip_user n) = true → bytes_in n = true → bytes_in (concat d) = true →
  (Z.of_nat (length (concat d)) <=? MAXFILE * BSIZE) = true → good (Input n (Some d)).
Proof.
  intros H1 H2 H3 H4. split; [exact (bool_decide_eq_true_1 _ H1)|by apply bytes_in_ok|by eexists|by apply bytes_in_ok|by apply Z.leb_le].
Qed.
Lemma sample_fits : fits sample.
Proof.
  split; [|done|vm_compute; discriminate]. apply Forall_cons. split; [|apply Forall_cons; split; [|done]]; apply good_check; vm_compute; reflexivity.
Qed.
Lemma mkfs_makes_fs_witness : fits sample ∧ wp (main sample) (λ _ s, m_freeblock s = 49 ∧ fs_image (m_blocks s) 49 (listing sample)) mkfs_start.
Proof.
  split; [apply sample_fits|]. eapply wp_mono; [exact (mkfs_makes_fs sample sample_fits)|]. intros _ s (_ & E & H). cbv beta.
  change (nmeta + price (32 + 16 * Z.of_nat (length sample)) + demand sample) with 49 in E. rewrite E in H. split; [exact E|exact H].
Defined.

(** There is no check of the number of inodes: the inode 208 lies in the block
    of the bitmap. *)
Lemma inodes_run_into_bitmap : IBLOCK 208 mkfs_sb = sb_bmapstart mkfs_sb.
Proof. reflexivity. Qed.
End MkfsDemo.
