(* ===== verification/Asm.v ===== *)
(** * The assembly of the kernel: entry.S, swtch.S, kernelvec.S, trampoline.S

    A small RISC-V machine: the registers, control registers, privilege mode
    and memory of one hart, the address translation of Sv39, and the
    instructions the four files use.  The programs are lists of instructions
    in the order of the source; pseudo-instructions ([li], [la], [call]) are
    single steps.  The code is placed at physical addresses by [code], with
    the lengths the assembler chose; a fetch goes through the page table, as
    loads and stores do, so that code that switches page tables has to be
    mapped by both.  Interrupts are not taken while the code below runs: the
    hardware disables them when it enters a trap. *)
From S2P Require Import Prelude Kstring Kalloc Vm VmProps Trap.

(** ** Registers *)

Inductive reg :=
  | zero | ra | sp | gp | tp | t0 | t1 | t2 | s0 | s1
  | a0 | a1 | a2 | a3 | a4 | a5 | a6 | a7
  | s2 | s3 | s4 | s5 | s6 | s7 | s8 | s9 | s10 | s11 | t3 | t4 | t5 | t6.
#[global] Instance reg_eq_dec : EqDecision reg.
Proof. solve_decision. Defined.

(** [sstatus] is a view of [mstatus], and [sie] of [mie]. *)
Inductive csr :=
  | mhartid | mstatus | mepc | mie | medeleg | mideleg | mtvec | mscratch | pmpaddr0 | pmpcfg0
  | sepc | scause | stvec | satp | sscratch | sip | sie.
#[global] Instance csr_eq_dec : EqDecision csr.
Proof. solve_decision. Defined.

Inductive mode := User | Supervisor | Machine.
#[global] Instance mode_eq_dec : EqDecision mode.
Proof. solve_decision. Defined.

Record hart := Hart { h_mode : mode; h_reg : reg → Z; h_csr : csr → Z; h_mem : mem }.

Definition put_mode md h := Hart md (h_reg h) (h_csr h) (h_mem h).
Definition put_csr c v h := Hart (h_mode h) (h_reg h) (<[c := v]> (h_csr h)) (h_mem h).
Definition put_mem m h := Hart (h_mode h) (h_reg h) (h_csr h) m.

(** Register [zero] reads as zero and ignores what is written to it. *)
Definition get (r : reg) (h : hart) : Z := match r with zero => 0 | _ => h_reg h r end.
Definition set (r : reg) (v : Z) (h : hart) : hart :=
  match r with zero => h | _ => Hart (h_mode h) (<[r := v]> (h_reg h)) (h_csr h) (h_mem h) end.

(** ** The fields of [mstatus] *)

Definition BIT_SIE : Z := 1.
Definition BIT_MIE : Z := 3.
Definition BIT_SPIE : Z := 5.
Definition BIT_MPIE : Z := 7.
Definition BIT_SPP : Z := 8.
Definition BIT_MPP : Z := 11.

Definition put_bit (k : Z) (b : bool) (x : Z) : Z := if b then Z.setbit x k else Z.clearbit x k.
(** The two bits of MPP. *)
Definition mpp (x : Z) : mode :=
  if Z.testbit x BIT_MPP then (if Z.testbit x (BIT_MPP + 1) then Machine else Supervisor) else User.
Definition put_mpp (md : mode) (x : Z) : Z :=
  put_bit BIT_MPP (bool_decide (md ≠ User)) (put_bit (BIT_MPP + 1) (bool_decide (md = Machine)) x).

(** ** Address translation

    A leaf above the last level (a large page) counts as a fault: xv6 never
    makes one. *)

Inductive access := Fetch | Load | Store.

Definition RWX : Z := Z.lor PTE_R (Z.lor PTE_W PTE_X).
Definition is_table (pte : Z) : bool := has_bits pte PTE_V && negb (has_bits pte RWX).
Definition is_leaf (pte : Z) : bool := has_bits pte PTE_V && has_bits pte RWX.

(** The entries the hardware reads for [va], from the root. *)
Definition pte2 (m : mem) (pt va : Z) : Z := load64 m (pt + 8 * PX 2 va).
Definition pte1 (m : mem) (pt va : Z) : Z := load64 m (PTE2PA (pte2 m pt va) + 8 * PX 1 va).
Definition pte0 (m : mem) (pt va : Z) : Z := load64 m (PTE2PA (pte1 m pt va) + 8 * PX 0 va).

Definition sv39 (m : mem) (pt va : Z) : option Z :=
  if (0 <=? va) && (va <? MAXVA) && is_table (pte2 m pt va) && is_table (pte1 m pt va) && is_leaf (pte0 m pt va)
  then Some (pte0 m pt va) else None.

Definition allowed (md : mode) (a : access) (pte : Z) : bool :=
  has_bits pte (match a with Fetch => PTE_X | Load => PTE_R | Store => PTE_W end) &&
  eqb (has_bits pte PTE_U) (bool_decide (md = User)).

Definition satp_mode (x : Z) : Z := Z.shiftr x 60.
Definition satp_table (x : Z) : Z := Z.shiftl (Z.land x (Z.ones 44)) 12.

Definition translate (a : access) (va : Z) (h : hart) : option Z :=
  let x := h_csr h satp in
  if bool_decide (h_mode h = Machine) || (satp_mode x =? 0) then Some va
  else if satp_mode x =? 8 then
    pte ← sv39 (h_mem h) (satp_table x) va;
    if allowed (h_mode h) a pte then Some (PTE2PA pte + va `mod` PGSIZE) else None
  else None.

(** 64-bit loads and stores; the code keeps them aligned. *)
Definition load (va : Z) (h : hart) : option Z :=
  if va `mod` 8 =? 0 then pa ← translate Load va h; Some (load64 (h_mem h) pa) else None.
Definition store (va v : Z) (h : hart) : option hart :=
  if va `mod` 8 =? 0 then pa ← translate Store va h; Some (put_mem (store64 (h_mem h) pa v) h) else None.

(** ** Control registers *)

(** The lowest mode that may access a register. *)
Definition machine_only (c : csr) : bool :=
  match c with
  | mhartid | mstatus | mepc | mie | medeleg | mideleg | mtvec | mscratch | pmpaddr0 | pmpcfg0 => true
  | _ => false
  end.
Definition csr_allowed (md : mode) (c : csr) : bool :=
  match md with User => false | Supervisor => negb (machine_only c) | Machine => true end.

(** ** Instructions *)

Inductive instr :=
  | sd (src : reg) (off : Z) (base : reg)
  | ld (dst : reg) (off : Z) (base : reg)
  | addi (dst src : reg) (imm : Z)
  | add (dst src1 src2 : reg)
  | mul (dst src1 src2 : reg)
  | li (dst : reg) (imm : Z)
  | la (dst : reg) (addr : Z)
  | csrr (dst : reg) (c : csr)
  | csrw (c : csr) (src : reg)
  | csrrw (dst : reg) (c : csr) (src : reg)
  | sfence_vma
  | jr (r : reg)
  | ret
  | j (target : Z)
  | call (target : Z)
  | ecall
  | sret
  | mret_.

Definition trap_target (tvec : Z) : Z := Z.ldiff tvec 3.
Definition jump_target (v : Z) : Z := Z.clearbit v 0.

(** The hardware enters a trap: an exception or interrupt that is delegated
    to supervisor mode, and one that is not. *)
Definition strap (cause pc : Z) (h : hart) : Z * hart :=
  let st := h_csr h mstatus in
  (trap_target (h_csr h stvec),
   put_mode Supervisor (put_csr sepc pc (put_csr scause cause (put_csr mstatus
     (put_bit BIT_SPP (bool_decide (h_mode h = Supervisor))
       (put_bit BIT_SPIE (Z.testbit st BIT_SIE) (put_bit BIT_SIE false st))) h)))).
Definition mtrap (pc : Z) (h : hart) : Z * hart :=
  let st := h_csr h mstatus in
  (trap_target (h_csr h mtvec),
   put_mode Machine (put_csr mepc pc (put_csr mstatus
     (put_mpp (h_mode h) (put_bit BIT_MPIE (Z.testbit st BIT_MIE) (put_bit BIT_MIE false st))) h))).

Definition exec_sret (h : hart) : option (Z * hart) :=
  let st := h_csr h mstatus in
  if bool_decide (h_mode h = User) then None
  else Some (h_csr h sepc,
    put_mode (if Z.testbit st BIT_SPP then Supervisor else User) (put_csr mstatus
      (put_bit BIT_SPP false (put_bit BIT_SPIE true (put_bit BIT_SIE (Z.testbit st BIT_SPIE) st))) h)).
Definition exec_mret (h : hart) : option (Z * hart) :=
  let st := h_csr h mstatus in
  if bool_decide (h_mode h = Machine) then
    Some (h_csr h mepc,
      put_mode (mpp st) (put_csr mstatus
        (put_mpp User (put_bit BIT_MPIE true (put_bit BIT_MIE (Z.testbit st BIT_MPIE) st))) h))
  else None.

Section machine.
(** The bits of [medeleg] and [mideleg] that the hart implements. *)
Variables (medeleg_mask mideleg_mask : Z).

Definition read_csr (c : csr) (h : hart) : option Z :=
  if csr_allowed (h_mode h) c then
    Some (match c with
          | sie => Z.land (h_csr h mie) (h_csr h mideleg)
          | sip => Z.land (h_csr h sip) (h_csr h mideleg)
          | _ => h_csr h c
          end)
  else None.

(** [old] with the bits of [mask] taken from [v]. *)
Definition merge (old mask v : Z) : Z := Z.lor (Z.ldiff old mask) (Z.land v mask).

(** Of [sip] only the software interrupt can be written. *)
Definition write_csr (c : csr) (v : Z) (h : hart) : option hart :=
  if csr_allowed (h_mode h) c then
    match c with
    | mhartid => None
    | medeleg => Some (put_csr medeleg (Z.land v medeleg_mask) h)
    | mideleg => Some (put_csr mideleg (Z.land v mideleg_mask) h)
    | sie => Some (put_csr mie (merge (h_csr h mie) (h_csr h mideleg) v) h)
    | sip => Some (put_csr sip (merge (h_csr h sip) (Z.land (h_csr h mideleg) 2) v) h)
    | _ => Some (put_csr c v h)
    end
  else None.

(** The instructions that only go on to the next one. *)
Definition straight (i : instr) (h : hart) : option hart :=
  match i with
  | sd r off b => store (u64 (get b h + off)) (get r h) h
  | ld r off b => v ← load (u64 (get b h + off)) h; Some (set r v h)
  | addi d r imm => Some (set d (u64 (get r h + imm)) h)
  | add d r1 r2 => Some (set d (u64 (get r1 h + get r2 h)) h)
  | mul d r1 r2 => Some (set d (u64 (get r1 h * get r2 h)) h)
  | li d v | la d v => Some (set d (u64 v) h)
  | csrr d c => v ← read_csr c h; Some (set d v h)
  | csrw c r => write_csr c (get r h) h
  | csrrw d c r => v ← read_csr c h; h' ← write_csr c (get r h) h; Some (set d v h')
  | sfence_vma => if bool_decide (h_mode h = User) then None else Some h
  | _ => None
  end.

Definition exec (i : instr) (pc next : Z) (h : hart) : option (Z * hart) :=
  match i with
  | jr r => Some (jump_target (get r h), h)
  | ret => Some (jump_target (get ra h), h)
  | j t => Some (t, h)
  | call t => Some (t, set ra next h)
  | ecall => if bool_decide (h_mode h = User) then Some (strap 8 pc h) else None
  | sret => exec_sret h
  | mret_ => exec_mret h
  | _ => h' ← straight i h; Some (next, h')
  end.

(** The instruction at a physical address, and its length. *)
Variable code : Z → option (instr * Z).

Definition step (st : Z * hart) : option (Z * hart) :=
  let '(pc, h) := st in
  pa ← translate Fetch pc h;
  '(i, len) ← code pa;
  exec i pc (u64 (pc + len)) h.

Fixpoint steps (n : nat) (st : Z * hart) : option (Z * hart) :=
  match n with O => Some st | S n => st' ← step st; steps n st' end.

(** [prog] lies from [a] to [b]. *)
Fixpoint placed (a : Z) (prog : list instr) (b : Z) : Prop :=
  match prog with
  | [] => a = b
  | i :: prog => ∃ len, code a = Some (i, len) ∧ 0 < len ∧ placed (a + len) prog b
  end.
(** ** The programs *)

(** entry.S; [spin] is the address of its last instruction. *)
Definition _entry (stack0 start spin : Z) : list instr := [
    la sp stack0; li a0 (1024 * 4); csrr a1 mhartid; addi a1 a1 1; mul a0 a0 a1; add sp sp a0;
    call start; j spin
  ].
(** swtch.S *)
Definition swtch : list instr := [
    sd ra 0 a0; sd sp 8 a0; sd s0 16 a0; sd s1 24 a0; sd s2 32 a0; sd s3 40 a0;
    sd s4 48 a0; sd s5 56 a0; sd s6 64 a0; sd s7 72 a0; sd s8 80 a0; sd s9 88 a0;
    sd s10 96 a0; sd s11 104 a0; ld ra 0 a1; ld sp 8 a1; ld s0 16 a1; ld s1 24 a1;
    ld s2 32 a1; ld s3 40 a1; ld s4 48 a1; ld s5 56 a1; ld s6 64 a1; ld s7 72 a1;
    ld s8 80 a1; ld s9 88 a1; ld s10 96 a1; ld s11 104 a1; ret
  ].
(** trampoline.S *)
Definition uservec : list instr := [
    csrw sscratch a0; li a0 TRAPFRAME; sd ra 40 a0; sd sp 48 a0; sd gp 56 a0; sd tp 64 a0;
    sd t0 72 a0; sd t1 80 a0; sd t2 88 a0; sd s0 96 a0; sd s1 104 a0; sd a1 120 a0;
    sd a2 128 a0; sd a3 136 a0; sd a4 144 a0; sd a5 152 a0; sd a6 160 a0; sd a7 168 a0;
    sd s2 176 a0; sd s3 184 a0; sd s4 192 a0; sd s5 200 a0; sd s6 208 a0; sd s7 216 a0;
    sd s8 224 a0; sd s9 232 a0; sd s10 240 a0; sd s11 248 a0; sd t3 256 a0; sd t4 264 a0;
    sd t5 272 a0; sd t6 280 a0; csrr t0 sscratch; sd t0 112 a0; ld sp 8 a0; ld tp 32 a0;
    ld t0 16 a0; ld t1 0 a0; sfence_vma; csrw satp t1; sfence_vma; jr t0
  ].
Definition userret : list instr := [
    sfence_vma; csrw satp a0; sfence_vma; li a0 TRAPFRAME; ld ra 40 a0; ld sp 48 a0;
    ld gp 56 a0; ld tp 64 a0; ld t0 72 a0; ld t1 80 a0; ld t2 88 a0; ld s0 96 a0;
    ld s1 104 a0; ld a1 120 a0; ld a2 128 a0; ld a3 136 a0; ld a4 144 a0; ld a5 152 a0;
    ld a6 160 a0; ld a7 168 a0; ld s2 176 a0; ld s3 184 a0; ld s4 192 a0; ld s5 200 a0;
    ld s6 208 a0; ld s7 216 a0; ld s8 224 a0; ld s9 232 a0; ld s10 240 a0; ld s11 248 a0;
    ld t3 256 a0; ld t4 264 a0; ld t5 272 a0; ld t6 280 a0; ld a0 112 a0; sret
  ].
(** kernelvec.S *)
Definition kernelvec (kerneltrap : Z) : list instr := [
    addi sp sp (-256); sd ra 0 sp; sd sp 8 sp; sd gp 16 sp; sd tp 24 sp; sd t0 32 sp;
    sd t1 40 sp; sd t2 48 sp; sd s0 56 sp; sd s1 64 sp; sd a0 72 sp; sd a1 80 sp;
    sd a2 88 sp; sd a3 96 sp; sd a4 104 sp; sd a5 112 sp; sd a6 120 sp; sd a7 128 sp;
    sd s2 136 sp; sd s3 144 sp; sd s4 152 sp; sd s5 160 sp; sd s6 168 sp; sd s7 176 sp;
    sd s8 184 sp; sd s9 192 sp; sd s10 200 sp; sd s11 208 sp; sd t3 216 sp; sd t4 224 sp;
    sd t5 232 sp; sd t6 240 sp; call kerneltrap; ld ra 0 sp; ld sp 8 sp; ld gp 16 sp;
    ld t0 32 sp; ld t1 40 sp; ld t2 48 sp; ld s0 56 sp; ld s1 64 sp; ld a0 72 sp;
    ld a1 80 sp; ld a2 88 sp; ld a3 96 sp; ld a4 104 sp; ld a5 112 sp; ld a6 120 sp;
    ld a7 128 sp; ld s2 136 sp; ld s3 144 sp; ld s4 152 sp; ld s5 160 sp; ld s6 168 sp;
    ld s7 176 sp; ld s8 184 sp; ld s9 192 sp; ld s10 200 sp; ld s11 208 sp; ld t3 216 sp;
    ld t4 224 sp; ld t5 232 sp; ld t6 240 sp; addi sp sp 256; sret
  ].
Definition timervec : list instr := [
    csrrw a0 mscratch a0; sd a1 0 a0; sd a2 8 a0; sd a3 16 a0; ld a1 24 a0; ld a2 32 a0;
    ld a3 0 a1; add a3 a3 a2; sd a3 0 a1; li a1 2; csrw sip a1; ld a3 16 a0;
    ld a2 8 a0; ld a1 0 a0; csrrw a0 mscratch a0; mret_
  ].

(** ** struct trapframe and struct context (proc.h)

    Where the registers are kept. *)
Definition trapframe (r : reg) : option Z :=
  match r with
  | zero => None
  | ra => Some 40 | sp => Some 48 | gp => Some 56 | tp => Some 64 | t0 => Some 72 | t1 => Some 80 | t2 => Some 88
  | s0 => Some 96 | s1 => Some 104 | a0 => Some 112 | a1 => Some 120 | a2 => Some 128 | a3 => Some 136
  | a4 => Some 144 | a5 => Some 152 | a6 => Some 160 | a7 => Some 168
  | s2 => Some 176 | s3 => Some 184 | s4 => Some 192 | s5 => Some 200 | s6 => Some 208 | s7 => Some 216
  | s8 => Some 224 | s9 => Some 232 | s10 => Some 240 | s11 => Some 248
  | t3 => Some 256 | t4 => Some 264 | t5 => Some 272 | t6 => Some 280
  end.
Definition context (r : reg) : option Z :=
  match r with
  | ra => Some 0 | sp => Some 8
  | s0 => Some 16 | s1 => Some 24 | s2 => Some 32 | s3 => Some 40 | s4 => Some 48 | s5 => Some 56
  | s6 => Some 64 | s7 => Some 72 | s8 => Some 80 | s9 => Some 88 | s10 => Some 96 | s11 => Some 104
  | _ => None
  end.

(* ------------------------------------------------------------------ *)
(** ** Running a block

    [wpb P prog Q h]: the straight-line code [prog] runs from [h] to a state
    in [Q], through states of [P], in which its instructions can be fetched. *)
Section blocks.
Variable P : hart → Prop.

Fixpoint wpb (prog : list instr) (Q : hart → Prop) (h : hart) : Prop :=
  match prog with
  | [] => Q h
  | i :: prog => P h ∧ match straight i h with Some h' => wpb prog Q h' | None => False end
  end.

Lemma wpb_app p1 p2 Q h : wpb p1 (wpb p2 Q) h → wpb (p1 ++ p2) Q h.
Proof.
  revert h. induction p1 as [|i p1 IH]; intros h; [done|]. cbn. intros [HP H]. split; [done|].
  destruct (straight i h); [by apply IH|done].
Qed.
Lemma wpb_nil (Q : hart → Prop) h : Q h → wpb [] Q h.
Proof. done. Qed.
Lemma wpb_cons i p Q h h' : P h → straight i h = Some h' → wpb p Q h' → wpb (i :: p) Q h.
Proof. intros ? E ?. cbn. by rewrite E. Qed.
Lemma wpb_mono p Q R h : wpb p Q h → (∀ h', Q h' → R h') → wpb p R h.
Proof.
  intros H HQ. revert h H. induction p as [|i p IH]; intros h; cbn; [by apply HQ|].
  intros [? H]. split; [done|]. destruct (straight i h); [by apply IH|done].
Qed.

Lemma exec_straight i pc next h h' : straight i h = Some h' → exec i pc next h = Some (next, h').
Proof. intros E. destruct i; try discriminate E; unfold exec; by rewrite E. Qed.

Lemma placed_le a prog b : placed a prog b → a ≤ b.
Proof.
  revert a. induction prog as [|i prog IH]; intros a; cbn; [lia|].
  intros (len & _ & ? & ?%IH). lia.
Qed.
Lemma placed_app a p1 p2 c : placed a (p1 ++ p2) c → ∃ b, placed a p1 b ∧ placed b p2 c.
Proof.
  revert a. induction p1 as [|i p1 IH]; intros a; cbn; [eauto|].
  intros (len & ? & ? & (b & ? & ?)%IH). eauto 10.
Qed.

(** Code at physical addresses [pa] to [pb], seen at [d] above them. *)
Lemma wpb_steps prog pa pb d Q h :
  placed pa prog pb → 0 ≤ pa + d → pb + d < 2 ^ 64 →
  (∀ h x, P h → pa ≤ x < pb → translate Fetch (x + d) h = Some x) →
  wpb prog Q h → ∃ h', steps (length prog) (pa + d, h) = Some (pb + d, h') ∧ Q h'.
Proof.
  intros Hpl Hlo Hhi HP. revert pa h Hpl Hlo HP. induction prog as [|i prog IH]; intros pa h Hpl Hlo HP Hw.
  - cbn in Hpl. subst. exists h. eauto.
  - destruct Hpl as (len & Hc & Hlen & Hpl). pose proof (placed_le _ _ _ Hpl). destruct Hw as [Hh Hw].
    destruct (straight i h) as [h1|] eqn:E; [|done].
    destruct (IH (pa + len) h1) as (h' & Hs & HQ); [done|lia| |done|].
    { intros; apply HP; [done|lia]. }
    exists h'. split; [|done]. cbn [length steps]. unfold step. rewrite HP by (done || lia). cbn.
    rewrite Hc. cbn. rewrite (exec_straight _ _ _ _ _ E). cbn. rewrite wrap_small by lia.
    replace (pa + d + len) with (pa + len + d) by lia. done.
Qed.

(** A block that ends in a jump or a return. *)
Lemma steps_S n st st' st'' : steps n st = Some st' → step st' = Some st'' →
  steps (S n) st = Some st''.
Proof.
  revert st. induction n as [|n IH]; intros st.
  - cbn. intros [= ->] ->. done.
  - intros H1 H2. cbn [steps] in *. destruct (step st) as [st1|]; [|done]. by apply IH.
Qed.

Lemma wpb_jump prog i pa pb d h R :
  placed pa (prog ++ [i]) pb → 0 ≤ pa + d → pb + d < 2 ^ 64 →
  (∀ h x, P h → pa ≤ x < pb → translate Fetch (x + d) h = Some x) →
  wpb prog (λ h', P h' ∧ ∀ pc, ∃ st, exec i pc (pb + d) h' = Some st ∧ R st) h →
  ∃ st, steps (S (length prog)) (pa + d, h) = Some st ∧ R st.
Proof.
  intros (b & Hp1 & len & Hc & Hlen & Hb)%placed_app Hlo Hhi HP Hw. cbn in Hb. subst pb.
  pose proof (placed_le _ _ _ Hp1).
  eapply wpb_steps in Hw as (h' & Hs & Hh' & He); [|exact Hp1|done|lia|intros; apply HP; [done|lia]].
  destruct (He (b + d)) as (st & Hst & HR). exists st. split; [|done]. eapply steps_S; [done|].
  unfold step. rewrite HP by (done || lia). cbn. rewrite Hc. cbn. rewrite wrap_small by lia.
  by replace (b + d + len) with (b + len + d) by lia.
Qed.

(** ** Saving and loading registers *)

Definition saves (base : reg) (l : list (reg * Z)) : list instr := (λ '(r, o), sd r o base) <$> l.
Definition loads (base : reg) (l : list (reg * Z)) : list instr := (λ '(r, o), ld r o base) <$> l.
Definition saved (pa : Z) (l : list (reg * Z)) (h : hart) (m : mem) : mem :=
  foldl (λ m '(r, o), store64 m (pa + o) (get r h)) m l.
Definition loaded (pa : Z) (l : list (reg * Z)) (h : hart) : hart :=
  foldl (λ h '(r, o), set r (load64 (h_mem h) (pa + o)) h) h l.

(** Registers are saved through an address the states of [P'] translate. *)
Lemma wpb_saves (P' : hart → Prop) base b pa l Q h :
  (∀ h, P' h → P h) →
  (∀ h r o, P' h → (r, o) ∈ l → u64 (b + o) `mod` 8 = 0 ∧ translate Store (u64 (b + o)) h = Some (pa + o)) →
  (∀ h r o v, P' h → (r, o) ∈ l → P' (put_mem (store64 (h_mem h) (pa + o) v) h)) →
  P' h → get base h = b → Q (put_mem (saved pa l h (h_mem h)) h) → wpb (saves base l) Q h.
Proof.
  intros HP Ht Hst Hh Hb. revert h Hh Hb. induction l as [|[r o] l IH]; intros h Hh Hb HQ.
  - by destruct h.
  - assert ((r, o) ∈ (r, o) :: l) as Hin by (apply elem_of_cons; auto).
    destruct (Ht h r o Hh Hin) as [Hal Htr].
    eapply wpb_cons; [by apply HP|..].
    { cbn. unfold store. rewrite Hb, Hal, Htr. cbn. done. }
    apply IH; [| |by apply Hst with (r := r)|by destruct base|exact HQ].
    + intros; apply (Ht h0 r0 o0); [done|]. apply elem_of_cons; auto.
    + intros; apply (Hst h0 r0 o0); [done|]. apply elem_of_cons; auto.
Qed.

Lemma get_set_eq r v h : r ≠ zero → get r (set r v h) = v.
Proof. intros. destruct r; try done; cbn; by rewrite fn_lookup_insert. Qed.
Lemma get_set_ne r r' v h : r ≠ r' → get r (set r' v h) = get r h.
Proof. intros. destruct r'; try done; destruct r; try done; cbn; by rewrite fn_lookup_insert_ne. Qed.
Lemma get_put_csr r c v h : get r (put_csr c v h) = get r h.
Proof. done. Qed.
Lemma get_put_mem r m h : get r (put_mem m h) = get r h.
Proof. done. Qed.
Lemma set_mode r v h : h_mode (set r v h) = h_mode h.
Proof. by destruct r. Qed.
Lemma set_csr r v h : h_csr (set r v h) = h_csr h.
Proof. by destruct r. Qed.
Lemma set_mem r v h : h_mem (set r v h) = h_mem h.
Proof. by destruct r. Qed.

Lemma wpb_loads (P' : hart → Prop) base b pa l Q h :
  (∀ h, P' h → P h) →
  (∀ h r o, P' h → (r, o) ∈ l → u64 (b + o) `mod` 8 = 0 ∧ translate Load (u64 (b + o)) h = Some (pa + o)) →
  (∀ h r v, P' h → P' (set r v h)) →
  P' h → base ≠ zero → get base h = b → (∀ o, (base, o) ∈ l → load64 (h_mem h) (pa + o) = b) →
  Q (loaded pa l h) → wpb (loads base l) Q h.
Proof.
  intros HP Ht Hst Hh Hz Hb. revert h Hh Hb. induction l as [|[r o] l IH]; intros h Hh Hb Hl HQ; [done|].
  assert ((r, o) ∈ (r, o) :: l) as Hin by (apply elem_of_cons; auto).
  destruct (Ht h r o Hh Hin) as [Hal Htr].
  eapply wpb_cons; [by apply HP|..].
  { cbn. unfold load. rewrite Hb, Hal, Htr. cbn. done. }
  apply IH; [|by apply Hst| | |exact HQ].
  - intros; apply (Ht h0 r0 o0); [done|]. apply elem_of_cons; auto.
  - destruct (decide (base = r)) as [->|]; [|by rewrite get_set_ne].
    rewrite get_set_eq by done. by apply Hl.
  - intros o' Ho'. rewrite set_mem. apply Hl. apply elem_of_cons; auto.
Qed.
End blocks.

Lemma loaded_cons pa r o l h : loaded pa ((r, o) :: l) h = loaded pa l (set r (load64 (h_mem h) (pa + o)) h).
Proof. done. Qed.
Lemma saved_cons pa r o l h m : saved pa ((r, o) :: l) h m = saved pa l h (store64 m (pa + o) (get r h)).
Proof. done. Qed.

Lemma loaded_rest pa l h :
  h_mode (loaded pa l h) = h_mode h ∧ h_csr (loaded pa l h) = h_csr h ∧ h_mem (loaded pa l h) = h_mem h.
Proof.
  revert h. induction l as [|[r o] l IH]; intros h; [done|]. rewrite loaded_cons.
  destruct (IH (set r (load64 (h_mem h) (pa + o)) h)) as (-> & -> & ->).
  by rewrite set_mode, set_csr, set_mem.
Qed.
Lemma get_loaded_out pa l h r : r ∉ l.*1 → get r (loaded pa l h) = get r h.
Proof.
  revert h. induction l as [|[r' o] l IH]; intros h; [done|].
  rewrite loaded_cons, fmap_cons, not_elem_of_cons. intros [? ?]. rewrite IH by done. by apply get_set_ne.
Qed.
Lemma get_loaded_in pa l h r o : NoDup l.*1 → (r, o) ∈ l → r ≠ zero → get r (loaded pa l h) = load64 (h_mem h) (pa + o).
Proof.
  revert h. induction l as [|[r' o'] l IH]; intros h; [by intros _ ?%elem_of_nil|].
  rewrite loaded_cons, fmap_cons, NoDup_cons. intros [Hn Hnd] Hin Hz. apply elem_of_cons in Hin as [[= -> ->]|Hin].
  - rewrite get_loaded_out by done. by apply get_set_eq.
  - rewrite IH by done. by rewrite set_mem.
Qed.

Lemma saved_other pa l h m x : (∀ r o, (r, o) ∈ l → x < pa + o ∨ pa + o + 8 ≤ x) → saved pa l h m x = m x.
Proof.
  revert m. induction l as [|[r o] l IH]; intros m Hx; [done|]. rewrite saved_cons.
  rewrite IH by (intros; eapply Hx, elem_of_cons; eauto). apply store_le_other.
  destruct (Hx r o); [apply elem_of_cons; auto|lia..].
Qed.
Lemma saved_regs pa l h h' m : (∀ r o, (r, o) ∈ l → get r h = get r h') → saved pa l h m = saved pa l h' m.
Proof.
  revert m. induction l as [|[r o] l IH]; intros m Hx; [done|]. rewrite !saved_cons, (Hx r o) by (apply elem_of_cons; auto).
  apply IH. intros; eapply Hx, elem_of_cons; eauto.
Qed.
Lemma saved_bytes_ok pa l h m : bytes_ok m → bytes_ok (saved pa l h m).
Proof. revert m. induction l as [|[r o] l IH]; intros m Hm; [done|]. rewrite saved_cons. apply IH. by apply store_le_bytes_ok. Qed.
(** The offsets are distinct multiples of 8. *)
Definition slots (l : list (reg * Z)) : Prop := NoDup l.*2 ∧ Forall (λ x, x.2 `mod` 8 = 0) l.
Lemma load_saved pa l h m r o :
  slots l → (r, o) ∈ l → 0 ≤ get r h < 2 ^ 64 → load64 (saved pa l h m) (pa + o) = get r h.
Proof.
  unfold slots. revert m. induction l as [|[r' o'] l IH]; intros m; [by intros _ ?%elem_of_nil|].
  rewrite fmap_cons, NoDup_cons, Forall_cons. intros ((Hn & Hnd) & Ho & Hal) Hin Hr.
  apply elem_of_cons in Hin as [[= -> ->]|Hin].
  - rewrite saved_cons, (load64_ext _ (store64 m (pa + o') (get r' h))).
    + by apply load64_store64.
    + intros x Hx. apply saved_other. intros r2 o2 H2.
      assert (o2 ≠ o') by (intros ->; apply Hn, list_elem_of_fmap; by exists (r2, o')).
      rewrite Forall_forall in Hal. specialize (Hal _ H2). cbn in Hal, Ho.
      apply Z.mod_divide in Hal as [k ->], Ho as [k' ->]; lia.
  - rewrite saved_cons. apply IH; [by split|done|done].
Qed.

Lemma store64_out m a v x : x < a ∨ a + 8 ≤ x → store64 m a v x = m x.
Proof. intros. apply store_le_other. lia. Qed.

#[local] Opaque saved loaded load64 store64.

(* ------------------------------------------------------------------ *)
(** ** Pages *)

(** The memory cells that hold the entries for [va]. *)
Definition pte_cells (m : mem) (pt va : Z) : list Z :=
  [pt + 8 * PX 2 va; PTE2PA (pte2 m pt va) + 8 * PX 1 va; PTE2PA (pte1 m pt va) + 8 * PX 0 va].
(** None of them is in the part [W] of memory, which the code writes. *)
Definition clear_of (W : Z → Prop) (m : mem) (pt va : Z) : Prop :=
  Forall (λ a, ∀ x, a ≤ x < a + 8 → ¬ W x) (pte_cells m pt va).
Definition but (W : Z → Prop) (m m' : mem) : Prop := ∀ x, ¬ W x → m' x = m x.
(** The page table [pt] maps the page [va] to the page [pa]. *)
Definition maps (W : Z → Prop) (m : mem) (pt va pa perm : Z) : Prop :=
  sv39 m pt va = Some (mkpte pa perm) ∧ clear_of W m pt va ∧ aligned va ∧ aligned pa ∧ 0 ≤ pa < 2 ^ 56.
Definition is_root (pt : Z) : Prop := aligned pt ∧ 0 ≤ pt < 2 ^ 56.
(** The [n] bytes from [va] are those from [pa]. *)
Definition seen (W : Z → Prop) (m : mem) (pt va pa n perm : Z) : Prop :=
  ∀ o, 0 ≤ o < n → ∃ k, 0 ≤ k < PGSIZE ∧ maps W m pt (va + o - k) (pa + o - k) perm.
Definition RX : Z := Z.lor PTE_R PTE_X.
Definition RW : Z := Z.lor PTE_R PTE_W.

Lemma maps_but W m m' pt va pa perm : but W m m' → maps W m pt va pa perm → maps W m' pt va pa perm.
Proof.
  unfold maps, clear_of, pte_cells. rewrite !Forall_cons. intros Hx (Hs & (H2 & H1 & H0 & _) & ?).
  assert (∀ a, (∀ x, a ≤ x < a + 8 → ¬ W x) → load64 m' a = load64 m a) as Hl.
  { intros a Ha. apply load64_ext. intros x ?. by apply Hx, Ha. }
  assert (pte2 m' pt va = pte2 m pt va) as E2 by (unfold pte2; auto).
  assert (pte1 m' pt va = pte1 m pt va) as E1 by (unfold pte1; rewrite E2; auto).
  assert (pte0 m' pt va = pte0 m pt va) as E0 by (unfold pte0; rewrite E1; auto).
  unfold sv39 in *. rewrite E2, E1, E0. split; [done|]. split; [|done]. split_and!; auto.
Qed.
Lemma seen_but W m m' pt va pa n perm : but W m m' → seen W m pt va pa n perm → seen W m' pt va pa n perm.
Proof. intros Hb Hs o Ho. destruct (Hs o Ho) as (k & ? & ?). exists k. split; [done|]. by eapply maps_but. Qed.
Lemma seen_pos W m pt va pa n perm : 0 < n → seen W m pt va pa n perm → 0 ≤ pa.
Proof. intros Hn Hs. destruct (Hs 0) as (k & ? & ?); [lia|]. unfold maps in *. lia. Qed.

Lemma sv39_page m pt va o : aligned va → 0 ≤ o < PGSIZE → 0 ≤ va < MAXVA → sv39 m pt (va + o) = sv39 m pt va.
Proof.
  intros Hal%aligned_inv Ho Hva.
  assert ((va + o) / PGSIZE = va / PGSIZE) as Hp.
  { generalize dependent (va / PGSIZE). intros k ->. rewrite Z.mul_comm, Z.div_add_l by done.
    rewrite (Z.div_small o) by done. lia. }
  assert (0 ≤ va + o < MAXVA).
  { revert Hal Hva. generalize (va / PGSIZE). change MAXVA with (PGSIZE * 67108864). intros. unfold PGSIZE in *. lia. }
  unfold sv39, pte0, pte1, pte2. rewrite !(PX_same_page _ (va + o) va) by (lia || done).
  by zbool.
Qed.

Lemma satp_MAKE pt : is_root pt → satp_mode (MAKE_SATP pt) = 8 ∧ satp_table (MAKE_SATP pt) = pt.
Proof.
  intros [Hal Hpt]. unfold satp_mode, satp_table, MAKE_SATP. split.
  - rewrite Z.shiftr_lor, Z.shiftr_shiftr by lia. rewrite (Z.shiftr_div_pow2 pt), Z.div_small by lia. done.
  - rewrite Z.land_lor_distr_l. change (Z.land SATP_SV39 (Z.ones 44)) with 0. rewrite Z.lor_0_l, Z.land_ones by lia.
    rewrite Z.mod_small.
    + rewrite Z.shiftl_mul_pow2, Z.shiftr_div_pow2 by lia. change (2 ^ 12) with PGSIZE.
      apply aligned_inv in Hal. lia.
    + rewrite Z.shiftr_div_pow2 by lia. split; [apply Z.div_pos; lia|apply Z.div_lt_upper_bound; lia].
Qed.

(** A page of the table in [satp], in supervisor mode. *)
Lemma translate_page a h W pt va pa perm o :
  h_mode h = Supervisor → h_csr h satp = MAKE_SATP pt → is_root pt → maps W (h_mem h) pt va pa perm →
  0 ≤ perm < 1024 → has_bits perm (match a with Fetch => PTE_X | Load => PTE_R | Store => PTE_W end) = true →
  has_bits perm PTE_U = false → 0 ≤ o < PGSIZE →
  translate a (va + o) h = Some (pa + o).
Proof.
  intros Hm Hs Hr (Hsv & _ & Hva & Hal & Hpa) Hp Ha Hu Ho. unfold translate. rewrite Hm, Hs.
  destruct (satp_MAKE pt Hr) as [-> ->]. rewrite bool_decide_eq_false_2 by done. cbn [orb].
  change (8 =? 0) with false. change (8 =? 8) with true. cbv iota.
  assert (0 ≤ va < MAXVA).
  { unfold sv39 in Hsv. destruct (0 <=? va) eqn:E1; [|done]. destruct (va <? MAXVA) eqn:E2; [|done].
    apply Z.leb_le in E1. by apply Z.ltb_lt in E2. }
  rewrite sv39_page by done. rewrite Hsv. cbn [mbind option_bind]. unfold allowed.
  assert (has_bits (mkpte pa perm) PTE_U = false) as ->.
  { unfold PTE_U. rewrite mkpte_bit by (done || lia). done. }
  assert (has_bits (mkpte pa perm) (match a with Fetch => PTE_X | Load => PTE_R | Store => PTE_W end) = true) as ->.
  { destruct a; unfold PTE_X, PTE_R, PTE_W; rewrite mkpte_bit by (done || lia); done. }
  rewrite bool_decide_eq_false_2 by done. cbn [andb eqb].
  rewrite mkpte_PTE2PA by done. do 2 f_equal. apply aligned_inv in Hva. rewrite Hva.
  rewrite Z.add_comm, Z.mul_comm, Z.mod_add by done. by apply Z.mod_small.
Qed.

Lemma translate_seen a h W pt va pa n perm o :
  h_mode h = Supervisor → h_csr h satp = MAKE_SATP pt → is_root pt → seen W (h_mem h) pt va pa n perm →
  perm = RX ∧ a = Fetch ∨ perm = RW ∧ a ≠ Fetch → 0 ≤ o < n → translate a (va + o) h = Some (pa + o).
Proof.
  intros Hm Hs Hr Hse Hp Ho. destruct (Hse o Ho) as (k & Hk & Hmap).
  replace (va + o) with (va + o - k + k) by lia. replace (pa + o) with (pa + o - k + k) by lia.
  eapply translate_page; try done; destruct Hp as [[-> ->]|[-> ?]]; try done; by destruct a.
Qed.

(* ------------------------------------------------------------------ *)
(** ** The trampoline *)

Section trampoline.
(** The physical pages of the trampoline and of the process's trap frame,
    and the roots of the user and of the kernel page table. *)
Variables (tramp tf upt kpt : Z).

Definition in_tf (x : Z) : Prop := tf ≤ x < tf + PGSIZE.
(** Both page tables map the trampoline, the user one also the trap frame,
    with entries outside the trap frame. *)
Record tramp_env (m : mem) : Prop := {
  te_upt : is_root upt; te_kpt : is_root kpt;
  te_utramp : seen in_tf m upt TRAMPOLINE tramp PGSIZE RX;
  te_ktramp : seen in_tf m kpt TRAMPOLINE tramp PGSIZE RX;
  te_tf : seen in_tf m upt TRAPFRAME tf PGSIZE RW
}.

Lemma tramp_env_but m m' : but in_tf m m' → tramp_env m → tramp_env m'.
Proof. intros Hb []. split; by eauto using seen_but. Qed.

Definition in_tramp (h : hart) : Prop :=
  h_mode h = Supervisor ∧ (h_csr h satp = MAKE_SATP upt ∨ h_csr h satp = MAKE_SATP kpt) ∧ tramp_env (h_mem h).
Definition in_user (h : hart) : Prop :=
  h_mode h = Supervisor ∧ h_csr h satp = MAKE_SATP upt ∧ tramp_env (h_mem h).

Lemma fetch_tramp h x : in_tramp h → tramp ≤ x < tramp + PGSIZE →
  translate Fetch (x + (TRAMPOLINE - tramp)) h = Some x.
Proof.
  intros (Hm & Hs & []) Hx. replace (x + (TRAMPOLINE - tramp)) with (TRAMPOLINE + (x - tramp)) by lia.
  replace (Some x) with (Some (tramp + (x - tramp))) by (f_equal; lia).
  destruct Hs; eapply translate_seen; try done; (by left) || lia.
Qed.

Lemma tf_access a h o : in_user h → a ≠ Fetch → 0 ≤ o < PGSIZE → o `mod` 8 = 0 →
  u64 (TRAPFRAME + o) `mod` 8 = 0 ∧ translate a (u64 (TRAPFRAME + o)) h = Some (tf + o).
Proof.
  intros (Hm & Hs & []) Ha Ho Hal. rewrite wrap_small by (change TRAPFRAME with 274877898752; unfold PGSIZE in *; lia).
  split; [by rewrite Z.add_mod, Hal by done|]. eapply translate_seen; try done. by right.
Qed.

Lemma in_user_store h o v : in_user h → 0 ≤ o → o + 8 ≤ PGSIZE → in_user (put_mem (store64 (h_mem h) (tf + o) v) h).
Proof.
  intros (? & ? & ?) ? ?. split; [done|]. split; [done|]. eapply tramp_env_but; [|done].
  intros x Hx. cbn [h_mem put_mem]. apply store64_out. unfold in_tf in Hx. lia.
Qed.
Lemma in_user_set h r v : in_user h → in_user (set r v h).
Proof. unfold in_user. by rewrite set_mode, set_csr, set_mem. Qed.
Lemma in_user_tramp h : in_user h → in_tramp h.
Proof. unfold in_user, in_tramp. tauto. Qed.

(** The registers but a0, where they are kept. *)
Definition tf_regs : list (reg * Z) :=
  omap (λ r, (λ o, (r, o)) <$> trapframe r)
    [ra; sp; gp; tp; t0; t1; t2; s0; s1; a1; a2; a3; a4; a5; a6; a7; s2; s3; s4; s5; s6; s7; s8; s9; s10; s11; t3; t4; t5; t6].

Lemma tf_regs_spec r o : (r, o) ∈ tf_regs ↔ trapframe r = Some o ∧ r ≠ a0.
Proof.
  unfold tf_regs. rewrite list_elem_of_omap. split.
  - intros (r' & Hin & E). destruct (trapframe r') as [o'|] eqn:E'; [|done]. injection E as -> ->. split; [done|]. intros ->. by apply list_elem_of_In in Hin; repeat destruct Hin as [Hin|Hin].
  - intros [E ?]. exists r. rewrite E. split; [|done]. apply list_elem_of_In. destruct r; try done; cbn; clear; repeat (left; reflexivity) || right.
Qed.
Lemma trapframe_range r o : trapframe r = Some o → 40 ≤ o ∧ o + 8 ≤ 288 ∧ o `mod` 8 = 0.
Proof. destruct r; intros [= <-]; done. Qed.
Lemma tf_regs_slots : slots tf_regs.
Proof. split; [|by vm_compute; repeat constructor]. apply (bool_decide_unpack _). by vm_compute. Qed.
Lemma tf_regs_nodup : NoDup tf_regs.*1.
Proof. apply (bool_decide_unpack _). by vm_compute. Qed.

Definition regs64 (h : hart) : Prop := ∀ r, 0 ≤ get r h < 2 ^ 64.

Definition uservec_end (h0 h : hart) : Prop :=
  h_mode h = Supervisor ∧ h_csr h = <[satp := MAKE_SATP kpt]> (<[sscratch := get a0 h0]> (h_csr h0)) ∧
  get sp h = load64 (h_mem h0) (tf + TF_kernel_sp) ∧ get tp h = load64 (h_mem h0) (tf + TF_kernel_hartid) ∧
  (∀ r o, trapframe r = Some o → load64 (h_mem h) (tf + o) = get r h0) ∧
  (∀ x, x < tf + 40 ∨ tf + 288 ≤ x → h_mem h x = h_mem h0 x).

Lemma uservec_split : uservec =
  ([csrw sscratch a0; li a0 TRAPFRAME] ++ saves a0 tf_regs ++ [csrr t0 sscratch; sd t0 112 a0] ++
   loads a0 [(sp, 8); (tp, 32); (t0, 16); (t1, 0)] ++ [sfence_vma; csrw satp t1; sfence_vma]) ++ [jr t0].
Proof. reflexivity. Qed.

(** After the registers are in the trap frame. *)
Definition uservec_mem (h : hart) : mem := store64 (saved tf tf_regs h (h_mem h)) (tf + 112) (get a0 h).
Lemma uservec_mem_in h r o : regs64 h → trapframe r = Some o → load64 (uservec_mem h) (tf + o) = get r h.
Proof.
  intros Hr E. unfold uservec_mem. destruct (decide (r = a0)) as [->|Hne].
  - injection E as <-. by apply load64_store64.
  - assert ((r, o) ∈ tf_regs) as Hin by by apply tf_regs_spec.
    rewrite load64_store64_other; [by apply load_saved; [apply tf_regs_slots|..]|].
    assert (o ≤ 104 ∨ 120 ≤ o) by (clear -E Hne; destruct r; try done; injection E as <-; lia). lia.
Qed.
Lemma uservec_mem_out h x : x < tf + 40 ∨ tf + 288 ≤ x → uservec_mem h x = h_mem h x.
Proof.
  intros Hx. unfold uservec_mem. rewrite store64_out by lia. apply saved_other.
  intros r o [Hin _]%tf_regs_spec. apply trapframe_range in Hin. lia.
Qed.

(** From the first instruction to the jump. *)
Definition uservec_body : list instr :=
  [csrw sscratch a0; li a0 TRAPFRAME] ++ saves a0 tf_regs ++ [csrr t0 sscratch; sd t0 112 a0] ++
  loads a0 [(sp, 8); (tp, 32); (t0, 16); (t1, 0)] ++ [sfence_vma; csrw satp t1; sfence_vma].

Lemma uservec_saves h Q :
  in_user h → get a0 h = TRAPFRAME → Q (put_mem (saved tf tf_regs h (h_mem h)) h) →
  wpb in_tramp (saves a0 tf_regs) Q h.
Proof.
  intros. eapply (wpb_saves _ in_user _ TRAPFRAME tf); try done.
  - apply in_user_tramp.
  - intros h1 r o Hh1 [(?&?&?)%trapframe_range _]%tf_regs_spec. apply tf_access; try done. unfold PGSIZE. lia.
  - intros h1 r o v Hh1 [(?&?&?)%trapframe_range _]%tf_regs_spec. apply in_user_store; try done; unfold PGSIZE; lia.
Qed.

Lemma uservec_kernel h Q :
  in_user h → get a0 h = TRAPFRAME → load64 (h_mem h) tf = MAKE_SATP kpt →
  (∀ h', h_mode h' = Supervisor → h_mem h' = h_mem h → h_csr h' = <[satp := MAKE_SATP kpt]> (h_csr h) →
    get sp h' = load64 (h_mem h) (tf + 8) → get tp h' = load64 (h_mem h) (tf + 32) →
    get t0 h' = load64 (h_mem h) (tf + 16) → Q h') →
  wpb in_tramp
    (loads a0 [(sp, 8); (tp, 32); (t0, 16); (t1, 0)] ++ [sfence_vma; csrw satp t1; sfence_vma]) Q h.
Proof.
  intros Hu Ha Hk HQ. apply wpb_app. eapply (wpb_loads _ in_user _ TRAPFRAME tf); try done.
  - apply in_user_tramp.
  - intros h1 r o Hh1 Hin. assert (o = 8 ∨ o = 32 ∨ o = 16 ∨ o = 0) as Ho.
    { rewrite !elem_of_cons, elem_of_nil in Hin. naive_solver. }
    apply tf_access; [done|done|..]; destruct Ho as [->|[->|[->| ->]]]; done.
  - intros; by apply in_user_set.
  - intros o Hin. rewrite !elem_of_cons, elem_of_nil in Hin. naive_solver.
  - destruct (loaded_rest tf [(sp, 8); (tp, 32); (t0, 16); (t1, 0)] h) as (Em & Ec & Emem).
    assert (NoDup [(sp, 8); (tp, 32); (t0, 16); (t1, 0)].*1) as Hnd by (apply (bool_decide_unpack _); by vm_compute).
    pose proof (λ r o H, get_loaded_in tf _ h r o Hnd H) as Hg.
    set (h1 := loaded tf _ h) in *. clearbody h1.
    destruct Hu as (Hm & Hs & He).
    assert (in_tramp h1) as Hh1. { rewrite <- Em in Hm. split; [done|]. rewrite Ec, Emem. auto. }
    eapply wpb_cons; [done|..].
    { cbn. by rewrite bool_decide_eq_false_2 by (rewrite Em, Hm; done). }
    eapply wpb_cons; [done|..].
    { cbn. unfold write_csr. rewrite Em, Hm. cbn. done. }
    assert (get t1 h1 = MAKE_SATP kpt) as Ht1.
    { rewrite (Hg t1 0) by (done || rewrite !elem_of_cons; tauto). by rewrite Z.add_0_r. }
    unfold get in Ht1. rewrite Ht1.
    eapply wpb_cons.
    { split; [cbn; congruence|]. cbn. rewrite fn_lookup_insert, Emem. auto. }
    { cbn. rewrite bool_decide_eq_false_2 by (rewrite Em, Hm; done). done. }
    apply wpb_nil, HQ; [cbn; congruence..| | |].
    + rewrite get_put_csr. apply Hg; [rewrite !elem_of_cons; tauto|done].
    + rewrite get_put_csr. apply Hg; [rewrite !elem_of_cons; tauto|done].
    + rewrite get_put_csr. apply Hg; [rewrite !elem_of_cons; tauto|done].
Qed.

Lemma uservec_a0 h Q :
  in_user h → get a0 h = TRAPFRAME →
  (let h' := put_mem (store64 (h_mem h) (tf + 112) (h_csr h sscratch)) (set t0 (h_csr h sscratch) h) in in_user h' → Q h') →
  wpb in_tramp [csrr t0 sscratch; sd t0 112 a0] Q h.
Proof.
  intros Hu Ha HQ. eapply wpb_cons; [by apply in_user_tramp|..].
  { cbn [straight]. unfold read_csr. replace (h_mode h) with Supervisor by (symmetry; apply Hu). reflexivity. }
  apply (in_user_set _ t0 (h_csr h sscratch)) in Hu.
  destruct (tf_access Store _ 112 Hu) as [Hal Ht]; [done..|].
  eapply wpb_cons; [by apply in_user_tramp| |].
  { cbn [straight]. unfold store. rewrite get_set_ne, Ha, Hal, Ht by done. cbn [mbind option_bind]. reflexivity. }
  rewrite get_set_eq, set_mem by done. apply wpb_nil, HQ.
  apply (in_user_store _ 112 (h_csr h sscratch)) in Hu; [|done|done]. by rewrite set_mem in Hu.
Qed.

Lemma u64_TRAPFRAME : u64 TRAPFRAME = TRAPFRAME.
Proof. by vm_compute. Qed.

Lemma uservec_begin h Q :
  in_user h →
  (∀ h', in_user h' → get a0 h' = TRAPFRAME → h_csr h' = <[sscratch := get a0 h]> (h_csr h) →
    h_mem h' = saved tf tf_regs h (h_mem h) → Q h') →
  wpb in_tramp ([csrw sscratch a0; li a0 TRAPFRAME] ++ saves a0 tf_regs) Q h.
Proof.
  intros Hu HQ. assert (in_user (put_csr sscratch (get a0 h) h)) as Hu0 by exact Hu.
  apply wpb_app. eapply wpb_cons; [by apply in_user_tramp| |].
  { cbn [straight]. unfold write_csr. replace (h_mode h) with Supervisor by (symmetry; apply Hu). reflexivity. }
  eapply wpb_cons; [by apply in_user_tramp|cbn [straight]; rewrite u64_TRAPFRAME; reflexivity|].
  apply (in_user_set _ a0 TRAPFRAME) in Hu0. apply wpb_nil, uservec_saves; [done|by apply get_set_eq|].
  set (h1 := set a0 TRAPFRAME _) in *.
  assert (saved tf tf_regs h1 (h_mem h1) = saved tf tf_regs h (h_mem h)) as ->.
  { apply saved_regs. intros r o [_ Hne]%tf_regs_spec. unfold h1. by rewrite get_set_ne. }
  apply HQ; [|rewrite get_put_mem; by apply get_set_eq|reflexivity|reflexivity].
  destruct Hu0 as (? & ? & ?). split; [done|]. split; [done|]. eapply tramp_env_but; [|done].
  intros x Hx. apply saved_other. intros r o [(?&?&?)%trapframe_range _]%tf_regs_spec. unfold in_tf, PGSIZE in Hx. lia.
Qed.

Lemma uservec_run h Q :
  in_user h → regs64 h → load64 (h_mem h) (tf + TF_kernel_satp) = MAKE_SATP kpt →
  (∀ h', uservec_end h h' → in_tramp h' → get t0 h' = load64 (h_mem h) (tf + TF_kernel_trap) → Q h') →
  wpb in_tramp uservec_body Q h.
Proof.
  intros Hu Hr Hk HQ. unfold uservec_body. rewrite app_assoc. apply wpb_app, uservec_begin; [done|].
  intros h1 Hu1 Ha1 Hc1 Hm1. apply wpb_app, uservec_a0; [done..|]. intros h2 Hu2.
  assert (h_mem h2 = uservec_mem h) as Hm2.
  { unfold h2, uservec_mem. cbn [h_mem put_mem]. by rewrite Hm1, Hc1, fn_lookup_insert. }
  assert (∀ o, 0 ≤ o → o + 8 ≤ 40 → load64 (h_mem h2) (tf + o) = load64 (h_mem h) (tf + o)) as Hlow.
  { intros o ? ?. rewrite Hm2. apply load64_ext. intros x ?. apply uservec_mem_out. lia. }
  apply uservec_kernel; [done|..].
  - unfold h2. by rewrite get_put_mem, get_set_ne.
  - rewrite <- Hk, <- Hlow by done. unfold TF_kernel_satp. by rewrite Z.add_0_r.
  - rewrite !Hlow by done. intros h' Hm' Hmem Hcsr Hsp Htp Ht0. rewrite Hm2 in Hmem. apply HQ; [|..|done].
    + split_and!; [done|..|done|done|by intros; rewrite Hmem; apply uservec_mem_in|by intros; rewrite Hmem; apply uservec_mem_out].
      rewrite Hcsr. unfold h2. cbn [put_mem h_csr]. by rewrite set_csr, Hc1.
    + destruct Hu2 as (_ & _ & He2). split; [done|]. rewrite Hcsr, fn_lookup_insert, Hmem, <- Hm2. auto.
Qed.

Variables (upa uend : Z).
Hypothesis uservec_placed : placed upa uservec uend.
Hypothesis uservec_page : tramp ≤ upa ∧ uend ≤ tramp + PGSIZE.

Lemma tramp_pc_range : 0 ≤ tramp → 0 ≤ upa + (TRAMPOLINE - tramp) ∧ uend + (TRAMPOLINE - tramp) < 2 ^ 64.
Proof using uservec_page. change TRAMPOLINE with 274877902848. unfold PGSIZE in *. lia. Qed.

(** [uservec] ends at [usertrap]. *)
Lemma uservec_ok h :
  in_user h → regs64 h → load64 (h_mem h) (tf + TF_kernel_satp) = MAKE_SATP kpt →
  ∃ h', steps (length uservec) (upa + (TRAMPOLINE - tramp), h) =
    Some (jump_target (load64 (h_mem h) (tf + TF_kernel_trap)), h') ∧ uservec_end h h'.
Proof using uservec_placed uservec_page.
  intros Hu Hr Hk.
  assert (0 ≤ tramp) by by eapply seen_pos, te_utramp, Hu.
  destruct (wpb_jump in_tramp uservec_body (jr t0) upa uend (TRAMPOLINE - tramp) h
    (λ st, st.1 = jump_target (load64 (h_mem h) (tf + TF_kernel_trap)) ∧ uservec_end h st.2))
    as ([pc h'] & Hst & Hpc & Hend); [done|by apply tramp_pc_range..| | |].
  - intros h1 x Hh1 Hx. apply fetch_tramp; [done|lia].
  - apply uservec_run; [done..|]. intros h' He' Ht' Ht0. split; [done|]. intros pc. eexists. split; [reflexivity|].
    cbn [fst snd]. by rewrite <- Ht0.
  - exists h'. cbn in Hpc. subst pc. done.
Qed.

(** ** userret *)

Definition sret_status (st : Z) : Z := put_bit BIT_SPP false (put_bit BIT_SPIE true (put_bit BIT_SIE (Z.testbit st BIT_SPIE) st)).
Definition userret_end (h0 h : hart) : Prop :=
  h_mode h = (if Z.testbit (h_csr h0 mstatus) BIT_SPP then Supervisor else User) ∧
  h_csr h = <[mstatus := sret_status (h_csr h0 mstatus)]> (<[satp := MAKE_SATP upt]> (h_csr h0)) ∧
  (∀ r o, trapframe r = Some o → get r h = load64 (h_mem h0) (tf + o)) ∧ h_mem h = h_mem h0.

Definition userret_body : list instr :=
  [sfence_vma; csrw satp a0; sfence_vma; li a0 TRAPFRAME] ++ loads a0 tf_regs ++ [ld a0 112 a0].
Lemma userret_split : userret = userret_body ++ [sret].
Proof. reflexivity. Qed.

Lemma userret_begin h Q :
  in_tramp h → get a0 h = MAKE_SATP upt →
  (∀ h', in_user h' → get a0 h' = TRAPFRAME → h_csr h' = <[satp := MAKE_SATP upt]> (h_csr h) → h_mem h' = h_mem h → Q h') →
  wpb in_tramp [sfence_vma; csrw satp a0; sfence_vma; li a0 TRAPFRAME] Q h.
Proof.
  intros Ht Ha HQ. pose proof Ht as (Hm & _ & He).
  eapply wpb_cons; [done|cbn [straight]; rewrite bool_decide_eq_false_2 by (rewrite Hm; done); reflexivity|].
  eapply wpb_cons; [done|cbn [straight]; unfold write_csr; rewrite Hm, Ha; reflexivity|].
  assert (in_user (put_csr satp (MAKE_SATP upt) h)) as Hu.
  { split; [done|]. split; [|done]. cbn [h_csr put_csr]. apply fn_lookup_insert. }
  eapply wpb_cons; [by apply in_user_tramp|cbn [straight]; rewrite bool_decide_eq_false_2 by (cbn; rewrite Hm; done); reflexivity|].
  eapply wpb_cons; [by apply in_user_tramp|cbn [straight]; rewrite u64_TRAPFRAME; reflexivity|].
  apply wpb_nil, HQ; [by apply in_user_set|by apply get_set_eq|..]; by rewrite ?set_csr, ?set_mem.
Qed.

Lemma userret_loads h Q :
  in_user h → get a0 h = TRAPFRAME →
  (∀ h', in_user h' → h_csr h' = h_csr h → h_mem h' = h_mem h →
    (∀ r o, trapframe r = Some o → get r h' = load64 (h_mem h) (tf + o)) → Q h') →
  wpb in_tramp (loads a0 tf_regs ++ [ld a0 112 a0]) Q h.
Proof.
  intros Hu Ha HQ. apply wpb_app. eapply (wpb_loads _ in_user _ TRAPFRAME tf); [apply in_user_tramp| | |done|done|done|..].
  - intros h1 r o Hh1 [(?&?&?)%trapframe_range _]%tf_regs_spec. apply tf_access; try done. unfold PGSIZE. lia.
  - intros; by apply in_user_set.
  - by intros o [_ ?]%tf_regs_spec.
  - destruct (loaded_rest tf tf_regs h) as (Em & Ec & Emem).
    pose proof (λ r o H, get_loaded_in tf _ h r o tf_regs_nodup H) as Hg.
    pose proof (get_loaded_out tf tf_regs h a0) as Ha0.
    set (h1 := loaded tf _ h) in *. clearbody h1.
    assert (in_user h1) as Hu1. { unfold in_user. by rewrite Em, Ec, Emem. }
    destruct (tf_access Load h1 112 Hu1) as [Hal Ht]; [done..|].
    eapply wpb_cons; [by apply in_user_tramp| |].
    { cbn [straight]. unfold load. rewrite Ha0, Ha, Hal, Ht.
      - cbn [mbind option_bind]. reflexivity.
      - intros ([r o] & E & [_ Hne]%tf_regs_spec)%list_elem_of_fmap. by cbn in E; subst r. }
    apply wpb_nil, HQ; [by apply in_user_set|by rewrite set_csr|by rewrite set_mem|].
    intros r o Hro. rewrite Emem. destruct (decide (r = a0)) as [->|].
    + rewrite get_set_eq by done. by injection Hro as <-.
    + rewrite get_set_ne by done. apply Hg; [by apply tf_regs_spec|]. by intros ->.
Qed.

Variables (rpa rend : Z).
Hypothesis userret_placed : placed rpa userret rend.
Hypothesis userret_page : tramp ≤ rpa ∧ rend ≤ tramp + PGSIZE.

(** [userret] ends where the user program goes on. *)
Lemma userret_ok h :
  in_tramp h → get a0 h = MAKE_SATP upt →
  ∃ h', steps (length userret) (rpa + (TRAMPOLINE - tramp), h) = Some (h_csr h sepc, h') ∧ userret_end h h'.
Proof using userret_placed userret_page.
  intros Hu Ha. assert (0 ≤ tramp) by by eapply seen_pos, te_utramp, Hu.
  destruct (wpb_jump in_tramp userret_body sret rpa rend (TRAMPOLINE - tramp) h
    (λ st, st.1 = h_csr h sepc ∧ userret_end h st.2)) as ([pc h'] & Hst & Hpc & Hend); [done|..].
  - change TRAMPOLINE with 274877902848. lia.
  - change TRAMPOLINE with 274877902848. unfold PGSIZE in *. lia.
  - intros h1 x Hh1 Hx. apply fetch_tramp; [done|lia].
  - apply wpb_app, userret_begin; [done..|]. intros h1 Hu1 Ha1 Hc1 Hm1.
    apply userret_loads; [done..|]. intros h2 Hu2 Hc2 Hm2 Hg. split; [by apply in_user_tramp|].
    rewrite Hc1 in Hc2. rewrite Hm1 in Hm2, Hg. destruct Hu2 as (Hmode & _).
    intros pc. eexists. split.
    { cbn [exec]. unfold exec_sret. rewrite Hmode, bool_decide_eq_false_2 by done. reflexivity. }
    cbn [fst snd]. rewrite Hc2, !fn_lookup_insert_ne by done. split; [done|]. split_and!; [done| |done|done].
    cbn [h_csr put_csr put_mode]. by rewrite Hc2.
  - exists h'. cbn in Hpc. subst pc. done.
Qed.
End trampoline.

(* ------------------------------------------------------------------ *)
(** ** Code in the kernel's text: swtch and kernelvec *)

Section kernel_code.
(** The kernel page table, the memory the code writes, its text (mapped to
    itself) and the windows through which it accesses data. *)
Variables (kpt : Z) (W : Z → Prop) (lo hi : Z) (wins : list (Z * Z * Z)).

Record in_kern (h : hart) : Prop := {
  ik_mode : h_mode h = Supervisor;
  ik_satp : h_csr h satp = MAKE_SATP kpt;
  ik_root : is_root kpt;
  ik_text : seen W (h_mem h) kpt lo lo (hi - lo) RX;
  ik_wins : ∀ va pa n, (va, pa, n) ∈ wins → seen W (h_mem h) kpt va pa n RW
}.

Lemma in_kern_set h r v : in_kern h → in_kern (set r v h).
Proof. intros []. split; by rewrite ?set_mode, ?set_csr, ?set_mem. Qed.
Lemma in_kern_but h m : in_kern h → but W (h_mem h) m → in_kern (put_mem m h).
Proof. intros [] Hb. split; try done; intros; by eapply seen_but; eauto. Qed.
Lemma kern_fetch h x : in_kern h → lo ≤ x < hi → translate Fetch (x + 0) h = Some x.
Proof.
  intros [] Hx. replace (x + 0) with (lo + (x - lo)) by lia. replace (Some x) with (Some (lo + (x - lo))) by (f_equal; lia).
  eapply translate_seen; try done; (by left) || lia.
Qed.

(** A window of whole 64-bit cells. *)
Variables (va pa n : Z).
Hypothesis win : (va, pa, n) ∈ wins.
Hypothesis win_aligned : va `mod` 8 = 0.
Hypothesis win_range : 0 ≤ va ∧ va + n < 2 ^ 64.
Variable l : list (reg * Z).
Hypothesis l_range : ∀ r o, (r, o) ∈ l → 0 ≤ o ∧ o + 8 ≤ n ∧ o `mod` 8 = 0.

Lemma kern_access a h r o : in_kern h → a ≠ Fetch → (r, o) ∈ l →
  u64 (va + o) `mod` 8 = 0 ∧ translate a (u64 (va + o)) h = Some (pa + o).
Proof using win win_aligned win_range l_range.
  intros [] Ha Hin. destruct (l_range r o Hin) as (? & ? & Hal). rewrite wrap_small by lia.
  split; [by rewrite Z.add_mod, Hal, win_aligned by done|]. eapply translate_seen; eauto. lia.
Qed.

Lemma saves_kern base h Q :
  in_kern h → get base h = va → (∀ x, pa ≤ x < pa + n → W x) →
  (let h' := put_mem (saved pa l h (h_mem h)) h in in_kern h' → Q h') → wpb in_kern (saves base l) Q h.
Proof using win win_aligned win_range l_range.
  intros Hk Hb HW HQ. eapply (wpb_saves _ in_kern _ va pa); [done| | |done|done|].
  - intros. by eapply kern_access.
  - intros h1 r o v Hh1 Hin. destruct (l_range r o Hin) as (? & ? & _). apply in_kern_but; [done|].
    intros x Hx. apply store64_out. destruct (decide (pa ≤ x < pa + n)) as [?%HW|]; [done|lia].
  - apply HQ, in_kern_but; [done|]. intros x Hx. apply saved_other. intros r o Hin.
    destruct (l_range r o Hin) as (? & ? & _). destruct (decide (pa ≤ x < pa + n)) as [?%HW|]; [done|lia].
Qed.

Lemma loads_kern base h Q :
  in_kern h → base ≠ zero → get base h = va → (∀ o, (base, o) ∈ l → load64 (h_mem h) (pa + o) = va) →
  (in_kern (loaded pa l h) → Q (loaded pa l h)) → wpb in_kern (loads base l) Q h.
Proof using win win_aligned win_range l_range.
  intros Hk Hz Hb Hl HQ. eapply (wpb_loads _ in_kern _ va pa); [done| | |done|done|done|done|].
  - intros. by eapply kern_access.
  - intros; by apply in_kern_set.
  - apply HQ. destruct Hk, (loaded_rest pa l h) as (? & ? & ?). split; by congruence || (intros; rewrite H1; auto).
Qed.
End kernel_code.

(** ** swtch *)

Definition ctx_regs : list (reg * Z) :=
  omap (λ r, (λ o, (r, o)) <$> context r) [ra; sp; s0; s1; s2; s3; s4; s5; s6; s7; s8; s9; s10; s11].
Lemma ctx_regs_spec r o : (r, o) ∈ ctx_regs ↔ context r = Some o.
Proof.
  unfold ctx_regs. rewrite list_elem_of_omap. split.
  - intros (r' & Hin & E). destruct (context r') as [o'|] eqn:E'; [|done]. by injection E as -> ->.
  - intros E. exists r. rewrite E. split; [|done]. apply list_elem_of_In. destruct r; try done; cbn; clear; repeat (left; reflexivity) || right.
Qed.
Lemma context_range r o : context r = Some o → 0 ≤ o ∧ o + 8 ≤ 112 ∧ o `mod` 8 = 0.
Proof. destruct r; intros [= <-]; done. Qed.
Lemma ctx_regs_slots : slots ctx_regs.
Proof. split; [|by vm_compute; repeat constructor]. apply (bool_decide_unpack _). by vm_compute. Qed.
Lemma ctx_regs_nodup : NoDup ctx_regs.*1.
Proof. apply (bool_decide_unpack _). by vm_compute. Qed.
Lemma swtch_split : swtch = (saves a0 ctx_regs ++ loads a1 ctx_regs) ++ [ret].
Proof. reflexivity. Qed.

Section swtch.
Variables (kpt lo hi : Z).
Hypothesis swtch_placed : placed lo swtch hi.
Hypothesis swtch_range : 0 ≤ lo ∧ hi < 2 ^ 64.

(** The contexts are kernel data, mapped to themselves. *)
Definition swtch_kern (old new : Z) : hart → Prop :=
  in_kern kpt (λ x, old ≤ x < old + 112) lo hi [(old, old, 112); (new, new, 112)].
(** [swtch(old, new)] is called in the kernel. *)
Record swtch_call (h : hart) (old new : Z) : Prop := {
  sc_kern : swtch_kern old new h;
  sc_old : get a0 h = old; sc_new : get a1 h = new;
  sc_aligned : old `mod` 8 = 0 ∧ new `mod` 8 = 0;
  sc_range : 0 ≤ old ∧ old + 112 < 2 ^ 64 ∧ 0 ≤ new ∧ new + 112 < 2 ^ 64;
  sc_regs : regs64 h
}.
Definition swtch_end (old new : Z) (h h' : hart) : Prop :=
  h_mode h' = h_mode h ∧ h_csr h' = h_csr h ∧
  (∀ x, x < old ∨ old + 112 ≤ x → h_mem h' x = h_mem h x) ∧
  (∀ r o, context r = Some o → load64 (h_mem h') (old + o) = get r h) ∧
  (∀ r o, context r = Some o → get r h' = load64 (h_mem h') (new + o)) ∧
  (∀ r, context r = None → get r h' = get r h).

Lemma swtch_run h old new Q : swtch_call h old new →
  (∀ h', swtch_end old new h h' → swtch_kern old new h' → Q h') →
  wpb (swtch_kern old new) (saves a0 ctx_regs ++ loads a1 ctx_regs) Q h.
Proof.
  intros [Hk Ha0 Ha1 [Hal1 Hal2] (?&?&?&?) Hr] HQ.
  assert (∀ r o, (r, o) ∈ ctx_regs → 0 ≤ o ∧ o + 8 ≤ 112 ∧ o `mod` 8 = 0) as Hrange.
  { intros r o Hin%ctx_regs_spec. by apply context_range in Hin. }
  apply wpb_app. eapply (saves_kern _ _ _ _ _ old old 112); try done; [apply elem_of_cons; auto|].
  intros h1 Hk1. assert (get a1 h1 = new) as Ha1' by done.
  eapply (loads_kern _ _ _ _ _ new new 112); try done; [rewrite !elem_of_cons; auto| |].
  { by intros o Hin%ctx_regs_spec. }
  intros Hk2. destruct (loaded_rest new ctx_regs h1) as (Em & Ec & Emem). apply HQ; [|done].
  unfold swtch_end. rewrite Em, Ec, Emem. split_and!; [done|done|..].
  - intros x Hx. apply saved_other. intros r o (?&?&?)%Hrange. lia.
  - intros r o Hro. apply load_saved; [apply ctx_regs_slots|by apply ctx_regs_spec|apply Hr].
  - intros r o Hro. apply get_loaded_in; [apply ctx_regs_nodup|by apply ctx_regs_spec|by intros ->].
  - intros r Hro. rewrite get_loaded_out; [done|].
    intros ([r' o] & E & Hin%ctx_regs_spec)%list_elem_of_fmap. cbn in E. by subst; rewrite Hin in Hro.
Qed.

Lemma swtch_ok h old new : swtch_call h old new →
  ∃ h', steps (length swtch) (lo, h) = Some (jump_target (load64 (h_mem h') new), h') ∧ swtch_end old new h h'.
Proof using swtch_placed swtch_range.
  intros Hc. destruct (wpb_jump (swtch_kern old new) (saves a0 ctx_regs ++ loads a1 ctx_regs) ret lo hi 0 h
    (λ st, st.1 = jump_target (load64 (h_mem st.2) new) ∧ swtch_end old new h st.2)) as ([pc h'] & Hst & Hpc & He).
  - done.
  - lia.
  - lia.
  - intros h1 x Hh1 Hx. eapply kern_fetch; [exact Hh1|done].
  - eapply swtch_run; [done|]. intros h' He Hk. split; [done|]. intros pc. eexists. split; [reflexivity|].
    split; [|done]. cbn [fst snd]. destruct He as (_&_&_&_&He&_). by rewrite (He ra 0), Z.add_0_r.
  - exists h'. cbn in Hpc. subst pc. rewrite Z.add_0_r in Hst. done.
Qed.
End swtch.

(** ** kernelvec *)

Definition kv_regs : list (reg * Z) :=
  [(ra, 0); (sp, 8); (gp, 16); (tp, 24); (t0, 32); (t1, 40); (t2, 48); (s0, 56); (s1, 64); (a0, 72); (a1, 80); (a2, 88);
   (a3, 96); (a4, 104); (a5, 112); (a6, 120); (a7, 128); (s2, 136); (s3, 144); (s4, 152); (s5, 160); (s6, 168); (s7, 176);
   (s8, 184); (s9, 192); (s10, 200); (s11, 208); (t3, 216); (t4, 224); (t5, 232); (t6, 240)].
Definition kv_loads : list (reg * Z) := filter (λ x, x.1 ≠ tp) kv_regs.

Lemma kernelvec_split kerneltrap : kernelvec kerneltrap =
  (([addi sp sp (-256)] ++ saves sp kv_regs) ++ [call kerneltrap]) ++ ((loads sp kv_loads ++ [addi sp sp 256]) ++ [sret]).
Proof. reflexivity. Qed.
Lemma kv_regs_all r : r ≠ zero → ∃ o, (r, o) ∈ kv_regs.
Proof. intros. destruct r; try done; eexists; apply list_elem_of_In; cbn; clear; repeat (left; reflexivity) || right. Qed.
Lemma kv_regs_range r o : (r, o) ∈ kv_regs → 0 ≤ o ∧ o + 8 ≤ 256 ∧ o `mod` 8 = 0 ∧ r ≠ zero.
Proof.
  assert (Forall (λ x, 0 ≤ x.2 ∧ x.2 + 8 ≤ 256 ∧ x.2 `mod` 8 = 0 ∧ x.1 ≠ zero) kv_regs) as H by (repeat constructor; done).
  rewrite Forall_forall in H. apply H.
Qed.
Lemma kv_regs_slots : slots kv_regs.
Proof. split; [|by vm_compute; repeat constructor]. apply (bool_decide_unpack _). by vm_compute. Qed.
Lemma kv_loads_nodup : NoDup kv_loads.*1.
Proof. apply (bool_decide_unpack _). by vm_compute. Qed.
Lemma kv_loads_spec r o : (r, o) ∈ kv_loads ↔ r ≠ tp ∧ (r, o) ∈ kv_regs.
Proof. unfold kv_loads. by rewrite list_elem_of_filter. Qed.
Lemma kv_sp o : (sp, o) ∈ kv_regs → o = 8.
Proof. intros H. apply list_elem_of_In in H. cbn in H. repeat destruct H as [[= H]|H]; done. Qed.

Section kernelvec.
Variables (kpt lo hi kerneltrap : Z).
Hypothesis kernelvec_placed : placed lo (kernelvec kerneltrap) hi.
Hypothesis kernelvec_range : 0 ≤ lo ∧ hi < 2 ^ 64.
(** The stack below [sp0], at the physical address [pa] and up. *)
Variables (sp0 pa : Z).
Hypothesis sp0_range : 256 ≤ sp0 < 2 ^ 64.
Hypothesis sp0_aligned : sp0 `mod` 8 = 0.
Definition in_frame (x : Z) : Prop := pa ≤ x < pa + 256.
Definition kv_kern : hart → Prop := in_kern kpt in_frame lo hi [(sp0 - 256, pa, 256)].

Lemma frame_aligned : (sp0 - 256) `mod` 8 = 0.
Proof using sp0_aligned. by rewrite Zminus_mod, sp0_aligned. Qed.

Definition kv_called (h h' : hart) : Prop :=
  kv_kern h' ∧ h_csr h' = h_csr h ∧ get sp h' = sp0 - 256 ∧
  (∀ r o, (r, o) ∈ kv_regs → load64 (h_mem h') (pa + o) = if decide (r = sp) then sp0 - 256 else get r h) ∧
  (∀ x, ¬ in_frame x → h_mem h' x = h_mem h x).

Lemma kernelvec_save h Q : kv_kern h → get sp h = sp0 → regs64 h → (∀ h', kv_called h h' → Q h') →
  wpb kv_kern ([addi sp sp (-256)] ++ saves sp kv_regs) Q h.
Proof using sp0_range sp0_aligned.
  intros Hk Hsp Hr HQ. apply wpb_app. eapply wpb_cons; [done|reflexivity|]. rewrite Hsp, wrap_small by lia.
  change (sp0 + -256) with (sp0 - 256). apply wpb_nil. pose proof (in_kern_set _ _ _ _ _ _ sp (sp0 - 256) Hk) as Hk1.
  set (h1 := set sp (sp0 - 256) h) in *.
  assert (∀ r o, (r, o) ∈ kv_regs → get r h1 = if decide (r = sp) then sp0 - 256 else get r h) as Hg.
  { intros r o _. case_decide as E; [rewrite E; by apply get_set_eq|by apply get_set_ne]. }
  eapply (saves_kern _ _ _ _ _ (sp0 - 256) pa 256); [by apply elem_of_cons; left|apply frame_aligned|lia| |done|by apply get_set_eq|done|].
  { intros r o (?&?&?&_)%kv_regs_range. done. }
  intros h2 Hk2. apply HQ. split; [done|]. split; [apply set_csr|]. split; [unfold h2; rewrite get_put_mem; by apply get_set_eq|]. split.
  - intros r o Hin. cbn [h_mem h2 put_mem]. rewrite (load_saved _ _ _ _ r); [exact (Hg r o Hin)|apply kv_regs_slots|done|].
    rewrite (Hg r o) by done. case_decide; [lia|apply Hr].
  - intros x Hx. cbn [h_mem h2 put_mem]. rewrite saved_other; [unfold h1; by rewrite set_mem|].
    intros r o (?&?&?&_)%kv_regs_range. unfold in_frame in Hx. lia.
Qed.

Lemma kernelvec_restore h Q :
  kv_kern h → get sp h = sp0 - 256 → load64 (h_mem h) (pa + 8) = sp0 - 256 →
  (∀ h', kv_kern h' → h_csr h' = h_csr h → h_mem h' = h_mem h → get sp h' = sp0 → get tp h' = get tp h →
    (∀ r o, (r, o) ∈ kv_loads → r ≠ sp → get r h' = load64 (h_mem h) (pa + o)) → Q h') →
  wpb kv_kern (loads sp kv_loads ++ [addi sp sp 256]) Q h.
Proof using sp0_range sp0_aligned.
  intros Hk Hsp Hslot HQ. apply wpb_app.
  eapply (loads_kern _ _ _ _ _ (sp0 - 256) pa 256); [by apply elem_of_cons; left|apply frame_aligned|lia| |done|done|done|..].
  { intros r o [_ (?&?&?&_)%kv_regs_range]%kv_loads_spec. done. }
  { intros o [_ ->%kv_sp]%kv_loads_spec. done. }
  intros Hk1. destruct (loaded_rest pa kv_loads h) as (Em & Ec & Emem).
  pose proof (λ r o H, get_loaded_in pa _ h r o kv_loads_nodup H) as Hg.
  assert (get tp (loaded pa kv_loads h) = get tp h) as Htp.
  { apply get_loaded_out. intros ([r o] & E & [? _]%kv_loads_spec)%list_elem_of_fmap. cbn in E. congruence. }
  set (h1 := loaded pa kv_loads h) in *. clearbody h1.
  assert (get sp h1 = sp0 - 256) as Hsp1.
  { rewrite (Hg sp 8); [done| |done]. apply kv_loads_spec. split; [done|]. apply list_elem_of_In. right. by left. }
  eapply wpb_cons; [done|reflexivity|]. rewrite Hsp1, wrap_small by lia. replace (sp0 - 256 + 256) with sp0 by lia.
  apply wpb_nil, HQ; [by apply in_kern_set|by rewrite set_csr|by rewrite set_mem|by apply get_set_eq|by rewrite get_set_ne|].
  intros r o Hin Hne. rewrite get_set_ne by done. apply Hg; [done|]. by apply kv_loads_spec in Hin as [_ (_&_&_&?)%kv_regs_range].
Qed.

Definition sret_mode (st : Z) : mode := if Z.testbit st BIT_SPP then Supervisor else User.
(** What the handler has to leave alone: the stack pointer, the frame and
    the page table (as its calling convention makes it). *)
Definition kv_handled (h1 h2 : hart) : Prop :=
  kv_kern h2 ∧ get sp h2 = get sp h1 ∧ (∀ x, in_frame x → h_mem h2 x = h_mem h1 x).

(** The first half ends in the call of [kerneltrap], which returns to [mid]. *)
Lemma kernelvec_first mid h : placed lo (([addi sp sp (-256)] ++ saves sp kv_regs) ++ [call kerneltrap]) mid → mid ≤ hi →
  kv_kern h → get sp h = sp0 → regs64 h →
  ∃ n h1, steps n (lo, h) = Some (kerneltrap, set ra mid h1) ∧ kv_called h h1.
Proof using kernelvec_range sp0_range sp0_aligned.
  intros Hp Hmid Hk Hsp Hr.
  destruct (wpb_jump kv_kern ([addi sp sp (-256)] ++ saves sp kv_regs) (call kerneltrap) lo mid 0 h (λ st, ∃ h1, st = (kerneltrap, set ra mid h1) ∧ kv_called h h1))
    with (1 := Hp) as (st & Hst & h1 & -> & Hc).
  - lia.
  - lia.
  - intros h1 x Hh1 Hx. eapply kern_fetch; [exact Hh1|lia].
  - apply kernelvec_save; [done..|]. intros h' Hc. split; [apply Hc|]. intros pc. rewrite Z.add_0_r. eauto.
  - rewrite Z.add_0_r in Hst. eauto.
Qed.

Lemma kernelvec_second mid h : placed mid ((loads sp kv_loads ++ [addi sp sp 256]) ++ [sret]) hi → lo ≤ mid →
  kv_kern h → get sp h = sp0 - 256 → load64 (h_mem h) (pa + 8) = sp0 - 256 →
  ∃ n h', steps n (mid, h) = Some (h_csr h sepc, h') ∧ h_mode h' = sret_mode (h_csr h mstatus) ∧
    h_csr h' = <[mstatus := sret_status (h_csr h mstatus)]> (h_csr h) ∧ h_mem h' = h_mem h ∧ get sp h' = sp0 ∧ get tp h' = get tp h ∧
    (∀ r o, (r, o) ∈ kv_loads → r ≠ sp → get r h' = load64 (h_mem h) (pa + o)).
Proof using kernelvec_range sp0_range sp0_aligned.
  intros Hp Hmid Hk Hsp Hslot.
  destruct (wpb_jump kv_kern (loads sp kv_loads ++ [addi sp sp 256]) sret mid hi 0 h (λ st, st.1 = h_csr h sepc ∧ h_mode st.2 = sret_mode (h_csr h mstatus) ∧
    h_csr st.2 = <[mstatus := sret_status (h_csr h mstatus)]> (h_csr h) ∧ h_mem st.2 = h_mem h ∧ get sp st.2 = sp0 ∧
    get tp st.2 = get tp h ∧ (∀ r o, (r, o) ∈ kv_loads → r ≠ sp → get r st.2 = load64 (h_mem h) (pa + o))))
    with (1 := Hp) as ([pc h'] & Hst & Hpc & He).
  - lia.
  - lia.
  - intros h1 x Hh1 Hx. eapply kern_fetch; [exact Hh1|lia].
  - apply kernelvec_restore; [done..|]. intros h' Hk' Hc Hm Hsp' Htp' Hg. split; [done|]. intros pc. eexists. split.
    { cbn [exec]. unfold exec_sret. rewrite (ik_mode _ _ _ _ _ _ Hk'), bool_decide_eq_false_2 by done. reflexivity. }
    cbn [fst snd]. split_and!; [by rewrite Hc|by rewrite Hc|cbn [h_csr put_csr put_mode]; by rewrite Hc|done..].
  - rewrite Z.add_0_r in Hst. cbn [fst snd] in *. subst pc. eauto.
Qed.

(** [kernelvec] around [kerneltrap]. *)
Lemma kernelvec_ok h : kv_kern h → get sp h = sp0 → regs64 h →
  ∃ n1 mid h1, steps n1 (lo, h) = Some (kerneltrap, set ra mid h1) ∧ kv_called h h1 ∧
  ∀ h2, kv_handled h1 h2 → ∃ n2 h3, steps n2 (mid, h2) = Some (h_csr h2 sepc, h3) ∧
    h_mode h3 = sret_mode (h_csr h2 mstatus) ∧ h_csr h3 = <[mstatus := sret_status (h_csr h2 mstatus)]> (h_csr h2) ∧
    h_mem h3 = h_mem h2 ∧ get tp h3 = get tp h2 ∧ ∀ r, r ≠ tp → get r h3 = get r h.
Proof using kernelvec_placed kernelvec_range sp0_range sp0_aligned.
  intros Hk Hsp Hr. pose proof kernelvec_placed as Hpl. rewrite kernelvec_split in Hpl.
  apply placed_app in Hpl as (mid & Hp1 & Hp2). pose proof (placed_le _ _ _ Hp1). pose proof (placed_le _ _ _ Hp2).
  destruct (kernelvec_first mid h) as (n1 & h1 & Hs1 & Hc); [done..|]. exists n1, mid, h1. split; [done|]. split; [done|].
  destruct Hc as (_ & _ & Hsp1 & Hsaved & _). intros h2 (Hk2 & Hsp2 & Hfr).
  assert (∀ r o, (r, o) ∈ kv_regs → load64 (h_mem h2) (pa + o) = if decide (r = sp) then sp0 - 256 else get r h) as Hs2.
  { intros r o Hin. rewrite <- (Hsaved r o Hin). apply load64_ext. intros x ?. apply Hfr.
    apply kv_regs_range in Hin as (?&?&_). unfold in_frame. lia. }
  destruct (kernelvec_second mid h2) as (n2 & h3 & Hst & Hm & Hcsr & Hmem & Hsp3 & Htp & Hg); [done|done|done|congruence| |].
  { rewrite (Hs2 sp); [done|]. apply list_elem_of_In. right. by left. }
  exists n2, h3. split_and!; try done. intros r Hne. destruct (decide (r = sp)) as [->|Hne2]; [congruence|].
  destruct (decide (r = zero)) as [->|Hz]; [done|]. destruct (kv_regs_all r Hz) as (o & Hin).
  rewrite (Hg r o), (Hs2 r o), decide_False by (done || by apply kv_loads_spec). done.
Qed.
End kernelvec.
End machine.

(** ** Bits of mstatus *)

Lemma put_bit_eq k b x : 0 ≤ k → Z.testbit (put_bit k b x) k = b.
Proof. intros. destruct b; cbn; [by apply Z.setbit_eq|by apply Z.clearbit_eq]. Qed.
Lemma put_bit_ne k j b x : 0 ≤ k → j ≠ k → Z.testbit (put_bit k b x) j = Z.testbit x j.
Proof. intros. destruct b; cbn; [by apply Z.setbit_neq|by apply Z.clearbit_neq]. Qed.

Lemma strap_bits cause pc h : let h' := (strap cause pc h).2 in
  Z.testbit (h_csr h' mstatus) BIT_SPP = bool_decide (h_mode h = Supervisor) ∧
  Z.testbit (h_csr h' mstatus) BIT_SPIE = Z.testbit (h_csr h mstatus) BIT_SIE ∧
  Z.testbit (h_csr h' mstatus) BIT_SIE = false.
Proof.
  cbn [strap snd h_csr put_mode put_csr]. rewrite !fn_lookup_insert_ne, fn_lookup_insert by done.
  split_and!.
  - by apply put_bit_eq.
  - rewrite put_bit_ne by done. by apply put_bit_eq.
  - rewrite !put_bit_ne by done. by apply put_bit_eq.
Qed.
Lemma sret_status_SIE st : Z.testbit (sret_status st) BIT_SIE = Z.testbit st BIT_SPIE.
Proof. unfold sret_status. rewrite !put_bit_ne by done. by apply put_bit_eq. Qed.

Lemma trap_target_id x : x `mod` 4 = 0 → trap_target x = x.
Proof.
  intros H. unfold trap_target. change 3 with (Z.ones 2). rewrite Z.ldiff_ones_r, Z.shiftl_mul_pow2, Z.shiftr_div_pow2 by done.
  change (2 ^ 2) with 4. pose proof (Z.div_mod x 4). lia.
Qed.

(** ** Programs laid out with four bytes per instruction *)

Definition lay (base : Z) (prog : list instr) (a : Z) : option (instr * Z) :=
  if (base <=? a) && ((a - base) `mod` 4 =? 0) then (λ i, (i, 4)) <$> prog !! Z.to_nat ((a - base) / 4) else None.
Lemma lay_placed base prog p1 p2 p3 : prog = p1 ++ p2 ++ p3 →
  placed (lay base prog) (base + 4 * length p1) p2 (base + 4 * length p1 + 4 * length p2).
Proof.
  intros ->. revert p1. induction p2 as [|i p2 IH]; intros p1; cbn [placed]; [cbn [length]; lia|].
  exists 4. split; [|split; [lia|]].
  - unfold lay. zbool. replace (base + 4 * length p1 - base) with (length p1 * 4) by lia.
    rewrite Z.mod_mul, Z.div_mul by done. cbn. rewrite Nat2Z.id, list_lookup_middle by done. done.
  - specialize (IH (p1 ++ [i])). rewrite <- app_assoc in IH. cbn [app] in IH. rewrite length_app in IH. cbn [length app] in *.
    replace (base + 4 * length p1 + 4) with (base + 4 * (length p1 + 1)%nat) by lia.
    by replace (base + 4 * length p1 + 4 * S (length p2)) with (base + 4 * (length p1 + 1)%nat + 4 * length p2) by lia.
Qed.
Lemma seen_page W m pt va pa perm : maps W m pt va pa perm → seen W m pt va pa PGSIZE perm.
Proof. intros H o Ho. exists o. by replace (va + o - o) with va by lia; replace (pa + o - o) with pa by lia. Qed.
Lemma seen_part W m pt va pa perm k n : maps W m pt va pa perm → 0 ≤ k → k + n ≤ PGSIZE → seen W m pt (va + k) (pa + k) n perm.
Proof.
  intros H Hk Hn o Ho. exists (k + o). split; [lia|].
  by replace (va + k + o - (k + o)) with va by lia; replace (pa + k + o - (k + o)) with pa by lia.
Qed.
