(* ===== verification/AsmProps.v ===== *)
(** * Entering and leaving the kernel

    The correctness of the assembly of [Asm]: a trap from user space saves the
    registers where [struct trapframe] has them and reaches [usertrap] on the
    kernel's stack and page table, and the way back restores them;
    [usertrapret] of trap.c prepares exactly what the trampoline expects;
    [kernelvec] is transparent to the code it interrupts; [swtch] resumes a
    context as it was left. *)
From S2P Require Import Prelude Kstring Kalloc Vm VmProps Block BufCache Bio Log LogDemo BioProps BioSpec Fs UserVm Proc ProcProps File Syscall Trap Asm.

#[local] Opaque load64 store64.

(** ** usertrapret *)

(** [myproc] outside of any lock. *)
Lemma curproc_quiet p s : c_noff (ps_cpu s) = 0 → c_proc (ps_cpu s) = Some p →
  curproc s = Ok p (set_cpu (put_intena (c_intr (ps_cpu s)) (ps_cpu s)) s).
Proof.
  destruct s as [f nx he ini [cp n ie i] k fi]. cbn. intros -> ->.
  unfold curproc, myproc, push_off, pop_off, intr_get, intr_off, intr_on, upd_cpu. cbn. by destruct i.
Qed.

Section ret.
Context {S : Type} `{!BufCache S}.
Variables (trampoline uservec usertrap_addr : Z).
Abbreviation usertrapret := (usertrapret (S := S) trampoline uservec usertrap_addr).
Implicit Types t : Trap.mach S.

Definition procs_of t : pstate := sys_procs (mc_sys t).
Definition mem_of t : mem := k_mem (ps_k (procs_of t)).

(** Process [p] runs in the kernel and holds no lock. *)
Record in_proc (p : Z) (x : proc) (c : csrs) (i : bool) (m : mem) t : Prop := {
  ip_csr : mc_csr t = c;
  ip_noff : c_noff (ps_cpu (procs_of t)) = 0;
  ip_proc : c_proc (ps_cpu (procs_of t)) = Some p;
  ip_intr : c_intr (ps_cpu (procs_of t)) = i;
  ip_slot : ps_proc (procs_of t) p = x;
  ip_mem : mem_of t = m
}.

Lemma wp_prm {A} (m : M pstate A) (Q : A → Trap.mach S → Prop) t :
  wp m (λ a ps, Q a (Mach (mc_csr t) (set_sys_procs ps (mc_sys t)))) (procs_of t) → wp (prm m) Q t.
Proof. unfold wp, prm, kern_sys, pr, zoom, procs_of. by destruct (m _). Qed.
Lemma wp_kern_sys_pr {A} (m : M pstate A) (Q : A → Trap.mach S → Prop) t :
  wp (prm m) Q t → wp (kern_sys (pr m)) Q t.
Proof. done. Qed.
Lemma wp_kern_bind {A B} (m : M (sys S) A) (k : A → M (sys S) B) (Q : B → Trap.mach S → Prop) t :
  wp (kern_sys m) (λ a, wp (kern_sys (k a)) Q) t → wp (kern_sys (m ≫= k)) Q t.
Proof. unfold wp, kern_sys, zoom, mbind, M_bind. by destruct (m _). Qed.

Section steps.
Variables (p : Z) (x : proc) (c : csrs) (i : bool) (m : mem).
Lemma wp_curproc (Q : Z → Trap.mach S → Prop) t :
  in_proc p x c i m t → (∀ t', in_proc p x c i m t' → Q p t') → wp (prm curproc) Q t.
Proof.
  intros [] HQ. apply wp_prm. unfold wp. erewrite curproc_quiet by done. apply HQ.
  split; try done; cbn; by destruct (ps_cpu _).
Qed.
Lemma wp_field {A} (f : proc → A) (Q : A → Trap.mach S → Prop) t :
  in_proc p x c i m t → (∀ t', in_proc p x c i m t' → Q (f x) t') → wp (prm (field f p)) Q t.
Proof. intros [] HQ. apply wp_prm. unfold field. wp_steps. rewrite ip_slot0. apply HQ. by split. Qed.
Lemma wp_tf_load off (Q : Z → Trap.mach S → Prop) t :
  in_proc p x c i m t → (∀ t', in_proc p x c i m t' → Q (load64 m (p_trapframe x + off)) t') → wp (kern_sys (tf_load off)) Q t.
Proof.
  intros Ht HQ. unfold tf_load. apply wp_kern_bind, wp_kern_sys_pr, wp_curproc; [done|]. intros t1 H1.
  apply wp_kern_bind, wp_kern_sys_pr, wp_field; [done|]. intros t2 []. apply wp_kern_sys_pr, wp_prm. wp_steps.
  fold (procs_of t2) (mem_of t2). rewrite ip_mem0. apply HQ. by split.
Qed.
Lemma wp_csr {A} (f : csrs → A) (Q : A → Trap.mach S → Prop) t :
  in_proc p x c i m t → Q (f c) t → wp (Trap.csr f) Q t.
Proof. intros [] HQ. unfold Trap.csr. wp_steps. by rewrite ip_csr0. Qed.
Lemma wp_upd_csr f (Q : unit → Trap.mach S → Prop) t :
  in_proc p x c i m t → (∀ t', in_proc p x (f c) i m t' → Q tt t') → wp (upd_csr f) Q t.
Proof. intros [] HQ. unfold upd_csr. wp_steps. rewrite ip_csr0. apply HQ. by split. Qed.
Lemma wp_set_intr b (Q : unit → Trap.mach S → Prop) t :
  in_proc p x c i m t → (∀ t', in_proc p x c b m t' → Q tt t') → wp (prm (if b : bool then intr_on else intr_off)) Q t.
Proof.
  intros [] HQ. apply wp_prm. destruct b; unfold intr_on, intr_off, upd_cpu; wp_steps; apply HQ; split; try done; cbn; by destruct (ps_cpu _).
Qed.
Lemma wp_r_sstatus (Q : Z → Trap.mach S → Prop) t :
  in_proc p x c i m t → (∀ t', in_proc p x c i m t' → Q (if i then Z.lor (r_sstatus_rest c) SSTATUS_SIE else r_sstatus_rest c) t') →
  wp r_sstatus Q t.
Proof.
  intros Ht HQ. unfold r_sstatus. wp_step. apply wp_csr; [done|]. wp_step. apply wp_prm. unfold intr_get. wp_steps.
  destruct Ht. rewrite ip_intr0. apply HQ. by split.
Qed.
End steps.

Lemma wp_tf_store p x c i m off v (Q : unit → Trap.mach S → Prop) t :
  in_proc p x c i m t → (∀ t', in_proc p x c i (store64 m (p_trapframe x + off) (u64 v)) t' → Q tt t') →
  wp (kern_sys (tf_store off v)) Q t.
Proof.
  intros Ht HQ. unfold tf_store. apply wp_kern_bind, wp_kern_sys_pr. eapply wp_curproc; [done|]. intros t1 H1.
  apply wp_kern_bind, wp_kern_sys_pr. eapply wp_field; [done|]. intros t2 []. apply wp_kern_sys_pr, wp_prm.
  unfold kern, upd_mem, wp, zoom, modify. apply HQ. split; try done. rewrite <- ip_mem0. reflexivity.
Qed.

(** The trap frame after [usertrapret]: what the trampoline will need. *)
Definition ret_mem (x : proc) (c : csrs) (m : mem) : mem :=
  let tf := p_trapframe x in
  store64 (store64 (store64 (store64 m (tf + TF_kernel_satp) (u64 (r_satp c))) (tf + TF_kernel_sp) (u64 (p_kstack x + PGSIZE)))
    (tf + TF_kernel_trap) (u64 usertrap_addr)) (tf + TF_kernel_hartid) (u64 (r_tp c)).
(** [sstatus] as [usertrapret] leaves it. *)
Definition ret_status (x : Z) : Z := Z.lor (Z.land x (Z.lnot SSTATUS_SPP)) SSTATUS_SPIE.

Lemma ret_status_SIE x : Z.testbit x BIT_SIE = false → Z.testbit (ret_status x) BIT_SIE = false.
Proof. intros H. unfold ret_status. by rewrite Z.lor_spec, Z.land_spec, H. Qed.
Lemma ldiff_SIE x : Z.testbit x BIT_SIE = false → Z.ldiff x SSTATUS_SIE = x.
Proof.
  intros H. apply Z.bits_inj'. intros n Hn. rewrite Z.ldiff_spec.
  destruct (decide (n = BIT_SIE)) as [->|Hne]; [by rewrite H|].
  assert (Z.testbit SSTATUS_SIE n = false) as ->; [|apply andb_true_r].
  unfold SSTATUS_SIE. rewrite Z.shiftl_1_l, Z.pow2_bits_eqb by lia. apply Z.eqb_neq. unfold BIT_SIE in Hne. lia.
Qed.

Lemma usertrapret_spec p x c i m t : in_proc p x c i m t → Z.testbit (r_sstatus_rest c) BIT_SIE = false →
  wp usertrapret (λ v t', v = MAKE_SATP (p_pagetable x) ∧ ∃ c', in_proc p x c' false (ret_mem x c m) t' ∧
    r_stvec c' = u64 (TRAMPOLINE + (uservec - trampoline)) ∧ r_satp c' = r_satp c ∧ r_tp c' = r_tp c ∧
    r_sepc c' = load64 m (p_trapframe x + TF_epc) ∧ r_sstatus_rest c' = ret_status (r_sstatus_rest c)) t.
Proof.
  intros Ht Hsie. unfold usertrapret. wp_step. eapply wp_curproc; [done|]. clear t Ht. intros t Ht.
  wp_step. eapply (wp_set_intr _ _ _ _ _ false); [done|]. clear t Ht. intros t Ht.
  wp_step. eapply wp_upd_csr; [done|]. clear t Ht. intros t Ht.
  wp_step. eapply wp_csr; [done|].
  wp_step. eapply wp_tf_store; [done|]. clear t Ht. intros t Ht.
  wp_step. eapply wp_field; [done|]. clear t Ht. intros t Ht.
  wp_step. eapply wp_tf_store; [done|]. clear t Ht. intros t Ht.
  wp_step. eapply wp_tf_store; [done|]. clear t Ht. intros t Ht.
  wp_step. eapply wp_csr; [done|].
  wp_step. eapply wp_tf_store; [done|]. clear t Ht. intros t Ht.
  wp_step. eapply wp_r_sstatus; [done|]. clear t Ht. intros t Ht. cbn [r_sstatus_rest w_stvec].
  fold (ret_status (r_sstatus_rest c)). pose proof (ret_status_SIE _ Hsie) as Hs.
  wp_step. unfold w_sstatus. wp_step. eapply wp_upd_csr; [done|]. clear t Ht. intros t Ht.
  assert (has_bits (ret_status (r_sstatus_rest c)) SSTATUS_SIE = false) as ->.
  { unfold SSTATUS_SIE. by rewrite has_bits_testbit. }
  rewrite ldiff_SIE in Ht by done.
  eapply (wp_set_intr _ _ _ _ _ false); [done|]. clear t Ht. intros t Ht.
  wp_step. eapply wp_tf_load; [done|]. clear t Ht. intros t Ht.
  wp_step. eapply wp_upd_csr; [done|]. clear t Ht. intros t Ht.
  wp_step. eapply wp_field; [done|]. clear t Ht. intros t Ht.
  wp_step. split; [done|]. eexists. split; [exact Ht|]. cbn. split_and!; try done.
  unfold TF_epc, TF_kernel_satp, TF_kernel_sp, TF_kernel_trap, TF_kernel_hartid.
  by rewrite !load64_store64_other by lia.
Qed.

(** The machine at the state [t] of the kernel. *)
Record represents t (h : hart) : Prop := {
  re_mode : h_mode h = Supervisor;
  re_mem : h_mem h = mem_of t;
  re_satp : h_csr h satp = r_satp (mc_csr t);
  re_stvec : h_csr h stvec = r_stvec (mc_csr t);
  re_sepc : h_csr h sepc = r_sepc (mc_csr t);
  re_tp : get tp h = r_tp (mc_csr t);
  re_spp : Z.testbit (h_csr h mstatus) BIT_SPP = has_bits (r_sstatus_rest (mc_csr t)) SSTATUS_SPP;
  re_spie : Z.testbit (h_csr h mstatus) BIT_SPIE = has_bits (r_sstatus_rest (mc_csr t)) SSTATUS_SPIE;
  re_sie : Z.testbit (h_csr h mstatus) BIT_SIE = c_intr (ps_cpu (procs_of t))
}.
End ret.

(** ** The trampoline in place *)

Section tramp.
Variables (medeleg_mask mideleg_mask : Z) (code : Z → option (instr * Z)).
Abbreviation steps := (steps medeleg_mask mideleg_mask code).
Variables (tramp upa uend rpa rend : Z).
(** The code of the trampoline page, as linked: [uservec] at [upa],
    [userret] at [rpa]. *)
Record trampoline_linked : Prop := {
  tl_tramp : aligned tramp;
  tl_uservec : placed code upa uservec uend; tl_uservec_page : tramp ≤ upa ∧ uend ≤ tramp + PGSIZE;
  tl_uservec_aligned : upa `mod` 4 = 0;
  tl_userret : placed code rpa userret rend; tl_userret_page : tramp ≤ rpa ∧ rend ≤ tramp + PGSIZE
}.
Hypothesis linked : trampoline_linked.
Variables (tf upt kpt : Z).
Abbreviation tramp_env := (tramp_env tramp tf upt kpt).

(** A trap from user space, up to the call of [usertrap]. *)
Lemma user_trap cause pc h :
  h_mode h = User → h_csr h satp = MAKE_SATP upt → h_csr h stvec = TRAMPOLINE + (upa - tramp) → regs64 h →
  tramp_env (h_mem h) → load64 (h_mem h) (tf + TF_kernel_satp) = MAKE_SATP kpt →
  ∃ h', steps (length uservec) (strap cause pc h) = Some (jump_target (load64 (h_mem h) (tf + TF_kernel_trap)), h') ∧
    uservec_end tf kpt (strap cause pc h).2 h'.
Proof using linked.
  intros Hm Hs Hv Hr He Hk. destruct linked.
  assert (strap cause pc h = (upa + (TRAMPOLINE - tramp), (strap cause pc h).2)) as E.
  { unfold strap. rewrite Hv. cbn [snd]. f_equal. rewrite trap_target_id; [lia|].
    apply aligned_inv in tl_tramp0. revert tl_tramp0. generalize (tramp / PGSIZE). change TRAMPOLINE with (4 * 68719475712).
    intros k ->. change PGSIZE with (4 * 1024). apply Z.mod_divide in tl_uservec_aligned0 as [k' ->]; [|done].
    replace (4 * 68719475712 + (k' * 4 - 4 * 1024 * k)) with ((68719475712 + k' - 1024 * k) * 4) by lia. apply Z.mod_mul. done. }
  destruct (uservec_ok medeleg_mask mideleg_mask code tramp tf upt kpt upa uend tl_uservec0 tl_uservec_page0
    (strap cause pc h).2) as (h' & Hst & He').
  - split; [done|]. split; [|done]. cbn [strap snd h_csr put_mode put_csr]. by rewrite !fn_lookup_insert_ne.
  - done.
  - done.
  - exists h'. split; [|done]. by rewrite E.
Qed.


(** ** The kernel's way out, and back in *)

Section cycle.
Context {S : Type} `{!BufCache S}.
Variables (usertrap_addr p : Z) (x : proc) (c : csrs) (i : bool) (m : mem).

Lemma ret_mem_at :
  p_trapframe x = tf → 0 ≤ r_satp c < 2 ^ 64 → 0 ≤ r_tp c < 2 ^ 64 → 0 ≤ usertrap_addr < 2 ^ 64 → 0 ≤ p_kstack x + PGSIZE < 2 ^ 64 →
  let m' := ret_mem usertrap_addr x c m in
  load64 m' (tf + TF_kernel_satp) = r_satp c ∧ load64 m' (tf + TF_kernel_sp) = p_kstack x + PGSIZE ∧
  load64 m' (tf + TF_kernel_trap) = usertrap_addr ∧ load64 m' (tf + TF_kernel_hartid) = r_tp c ∧
  (∀ o, 40 ≤ o → load64 m' (tf + o) = load64 m (tf + o)) ∧ (∀ y, y < tf ∨ tf + 40 ≤ y → m' y = m y).
Proof.
  intros Htf Hs Ht Hu Hk. unfold ret_mem, TF_kernel_satp, TF_kernel_sp, TF_kernel_trap, TF_kernel_hartid. cbv zeta. rewrite Htf.
  rewrite !wrap_small by done. split_and!.
  - by rewrite !load64_store64_other, load64_store64 by (lia || done).
  - by rewrite !load64_store64_other, load64_store64 by (lia || done).
  - by rewrite !load64_store64_other, load64_store64 by (lia || done).
  - by rewrite load64_store64.
  - intros o Ho. by rewrite !load64_store64_other by lia.
  - intros y Hy. by rewrite !store64_out by lia.
Qed.

(** The next trap of the program that runs after [usertrapret]. *)
Lemma next_trap h cause pc :
  r_satp c = MAKE_SATP kpt → p_trapframe x = tf →
  0 ≤ r_satp c < 2 ^ 64 → 0 ≤ r_tp c < 2 ^ 64 → 0 ≤ usertrap_addr < 2 ^ 64 → 0 ≤ p_kstack x + PGSIZE < 2 ^ 64 →
  h_mode h = User → h_csr h satp = MAKE_SATP upt → h_csr h stvec = TRAMPOLINE + (upa - tramp) → regs64 h →
  tramp_env (h_mem h) → (∀ y, tf ≤ y < tf + PGSIZE → h_mem h y = ret_mem usertrap_addr x c m y) →
  ∃ h3, steps (length uservec) (strap cause pc h) = Some (jump_target usertrap_addr, h3) ∧
    h_mode h3 = Supervisor ∧ h_csr h3 satp = r_satp c ∧ get sp h3 = p_kstack x + PGSIZE ∧ get tp h3 = r_tp c ∧
    h_csr h3 sepc = pc ∧ h_csr h3 scause = cause ∧
    ∀ r o, trapframe r = Some o → load64 (h_mem h3) (tf + o) = get r h.
Proof using linked.
  intros Hkpt Htf Hr1 Hr2 Hr3 Hr4 Hm Hs Hv Hr He Hsame.
  destruct (ret_mem_at Htf Hr1 Hr2 Hr3 Hr4) as (M1 & M2 & M3 & M4 & _).
  assert (∀ o, 0 ≤ o → o + 8 ≤ PGSIZE → load64 (h_mem h) (tf + o) = load64 (ret_mem usertrap_addr x c m) (tf + o)) as Hl.
  { intros o ? ?. apply load64_ext. intros y ?. apply Hsame. lia. }
  destruct (user_trap cause pc h) as (h3 & Hst & Hm3 & Hc3 & Hsp & Htp & Hsaved & _); [done..|rewrite Hl, M1; done|].
  rewrite Hl, M3 in Hst by done. exists h3. split; [done|]. split; [done|].
  rewrite Hc3, fn_lookup_insert, !fn_lookup_insert_ne by done. split_and!; try done.
  - rewrite Hsp. cbn [strap snd h_mem put_mode put_csr]. by rewrite Hl, M2.
  - rewrite Htp. cbn [strap snd h_mem put_mode put_csr]. by rewrite Hl, M4.
Qed.

Lemma ret_status_bits st : has_bits (ret_status st) SSTATUS_SPP = false ∧ has_bits (ret_status st) SSTATUS_SPIE = true.
Proof.
  unfold SSTATUS_SPP, SSTATUS_SPIE. rewrite !has_bits_testbit by done. unfold ret_status. rewrite !Z.lor_spec, !Z.land_spec.
  split; [|by rewrite orb_true_r]. by rewrite andb_false_r.
Qed.

(** C11: from [usertrapret] in trap.c to the program and back.  On a process
    that holds no locks [usertrapret] answers its page table, and [userret],
    called with it, enters user mode at the saved program counter, with
    interrupts on and the registers of the trap frame.  Whatever the program
    does then, as long as its memory accesses leave the trap frame and the
    page tables alone, its next trap saves its registers in the trap frame and
    arrives at [usertrap] on the top of the process's kernel stack, with the
    hart id and the page table the kernel had. *)
Theorem usertrapret_enters_user t :
  in_proc p x c i m t → Z.testbit (r_sstatus_rest c) BIT_SIE = false →
  r_satp c = MAKE_SATP kpt → p_pagetable x = upt → p_trapframe x = tf → tramp_env m →
  0 ≤ r_satp c < 2 ^ 64 → 0 ≤ r_tp c < 2 ^ 64 → 0 ≤ usertrap_addr < 2 ^ 64 → 0 ≤ p_kstack x + PGSIZE < 2 ^ 64 →
  wp (usertrapret (S := S) tramp upa usertrap_addr) (λ v t', ∀ h, represents t' h → get a0 h = v →
    ∃ h1, steps (length userret) (rpa + (TRAMPOLINE - tramp), h) = Some (load64 m (tf + TF_epc), h1) ∧
      h_mode h1 = User ∧ Z.testbit (h_csr h1 mstatus) BIT_SIE = true ∧
      (∀ r o, trapframe r = Some o → get r h1 = load64 m (tf + o)) ∧
      ∀ h2 cause pc, h_mode h2 = User → h_csr h2 satp = h_csr h1 satp → h_csr h2 stvec = h_csr h1 stvec → regs64 h2 →
        tramp_env (h_mem h2) → (∀ y, tf ≤ y < tf + PGSIZE → h_mem h2 y = h_mem h1 y) →
        ∃ h3, steps (length uservec) (strap cause pc h2) = Some (jump_target usertrap_addr, h3) ∧
          h_mode h3 = Supervisor ∧ h_csr h3 satp = r_satp c ∧ get sp h3 = p_kstack x + PGSIZE ∧ get tp h3 = r_tp c ∧
          h_csr h3 sepc = pc ∧ h_csr h3 scause = cause ∧
          ∀ r o, trapframe r = Some o → load64 (h_mem h3) (tf + o) = get r h2) t.
Proof using linked.
  intros Ht Hsie Hkpt Hupt Htf He Hr1 Hr2 Hr3 Hr4.
  destruct (ret_mem_at Htf Hr1 Hr2 Hr3 Hr4) as (M1 & M2 & M3 & M4 & M5 & M6).
  eapply wp_mono; [exact (usertrapret_spec tramp upa usertrap_addr p x c i m t Ht Hsie)|]. intros v t' (-> & c' & Ht' & Hv & Hs & Htp & Hepc & Hrest).
  intros h Hh Ha. destruct linked, Hh, Ht'. rewrite ip_csr0 in *. rewrite Hupt in Ha. rewrite ip_mem0 in re_mem0.
  rewrite Hrest in re_spp0, re_spie0.
  destruct (userret_ok medeleg_mask mideleg_mask code tramp tf upt kpt rpa rend tl_userret0 tl_userret_page0 h)
    as (h1 & Hst & Hm1 & Hc1 & Hg1 & Hmem1); [|done|].
  { split; [done|]. rewrite re_satp0, re_mem0, Hs, Hkpt. split; [auto|]. eapply tramp_env_but; [|done].
    intros y Hy. apply M6. unfold in_tf, PGSIZE in Hy. lia. }
  destruct (ret_status_bits (r_sstatus_rest c)) as [Hb1 Hb2]. rewrite Hb1 in re_spp0. rewrite Hb2 in re_spie0. rewrite re_spp0 in Hm1.
  exists h1. rewrite Hst, re_sepc0, Hepc, Htf. split; [done|]. split; [done|]. split.
  { rewrite Hc1, fn_lookup_insert, sret_status_SIE. done. }
  split.
  { intros r o Hro. rewrite (Hg1 r o Hro), re_mem0. apply M5. apply trapframe_range in Hro. lia. }
  assert (h_csr h1 satp = MAKE_SATP upt ∧ h_csr h1 stvec = TRAMPOLINE + (upa - tramp)) as [-> ->].
  { split; rewrite Hc1, fn_lookup_insert_ne by done; [by rewrite fn_lookup_insert|rewrite fn_lookup_insert_ne by done].
    rewrite re_stvec0, Hv. apply wrap_small. pose proof (placed_le _ _ _ _ tl_uservec0).
    change TRAMPOLINE with 274877902848. unfold PGSIZE in *. lia. }
  intros h2 cause pc Hm2 Hs2 Hv2 Hr Henv Hsame. apply next_trap; try done.
  intros y Hy. by rewrite Hsame, Hmem1, re_mem0.
Qed.
End cycle.
End tramp.

(** ** Context switches *)

Section switch.
Variables (medeleg_mask mideleg_mask : Z) (code : Z → option (instr * Z)) (kpt lo hi : Z).
Abbreviation steps := (steps medeleg_mask mideleg_mask code).
Hypothesis swtch_placed : placed code lo swtch hi.
Hypothesis swtch_range : 0 ≤ lo ∧ hi < 2 ^ 64.

(** C12: [swtch(A, B)] stores the return address, the stack pointer and the
    callee-saved registers in the context [A], and continues where [B] says
    with the registers of [B], changing nothing else; and when any hart later
    calls [swtch(C, A)], with the context [A] as it was left, that hart returns
    from the first call: to its return address, with its stack pointer and its
    callee-saved registers, and with the other registers, the hart id in [tp]
    among them, of the second. *)
Theorem swtch_resumes h A B :
  swtch_call kpt lo hi h A B →
  ∃ h1, steps (length swtch) (lo, h) = Some (jump_target (load64 (h_mem h1) B), h1) ∧
    (∀ r o, context r = Some o → get r h1 = load64 (h_mem h1) (B + o)) ∧
    (∀ r, context r = None → get r h1 = get r h) ∧
    (∀ y, y < A ∨ A + 112 ≤ y → h_mem h1 y = h_mem h y) ∧
    ∀ h2 C, swtch_call kpt lo hi h2 C A → C + 112 ≤ A ∨ A + 112 ≤ C → (∀ y, A ≤ y < A + 112 → h_mem h2 y = h_mem h1 y) →
      ∃ h3, steps (length swtch) (lo, h2) = Some (jump_target (get ra h), h3) ∧
        (∀ r o, context r = Some o → get r h3 = get r h) ∧ (∀ r, context r = None → get r h3 = get r h2).
Proof using swtch_placed swtch_range.
  intros Hc. destruct (swtch_ok medeleg_mask mideleg_mask code kpt lo hi swtch_placed swtch_range h A B Hc)
    as (h1 & Hst & _ & _ & Hout & Hsaved & Hloaded & Hkept).
  exists h1. split_and!; try done. intros h2 C Hc2 Hdis Hsame.
  destruct (swtch_ok medeleg_mask mideleg_mask code kpt lo hi swtch_placed swtch_range h2 C A Hc2)
    as (h3 & Hst3 & _ & _ & Hout3 & _ & Hloaded3 & Hkept3).
  assert (∀ r o, context r = Some o → load64 (h_mem h3) (A + o) = get r h) as Hl.
  { intros r o Hro. rewrite <- (Hsaved r o Hro). apply load64_ext. intros y Hy. apply context_range in Hro.
    rewrite Hout3 by lia. apply Hsame. lia. }
  exists h3. split_and!; [|intros r o Hro; rewrite (Hloaded3 r o Hro); by apply Hl|done].
  rewrite Hst3. by rewrite <- (Hl ra 0), Z.add_0_r.
Qed.
End switch.

(** ** Traps in the kernel *)

Section kvec.
Variables (medeleg_mask mideleg_mask : Z) (code : Z → option (instr * Z)) (kpt lo hi kerneltrap sp0 pa : Z).
Abbreviation steps := (steps medeleg_mask mideleg_mask code).

(** C13: an interrupt in the kernel is transparent to the code it interrupts.
    The trap goes to [kernelvec], which saves all registers in 256 bytes below
    the stack pointer and calls [kerneltrap] with interrupts off; if
    [kerneltrap] returns with its stack pointer and that part of the stack as
    they were, and with [sepc] and [sstatus] restored, as it does,
    then [kernelvec] returns to the interrupted instruction in supervisor mode,
    with interrupts enabled as before and every register as before but [tp],
    which is that of the hart the code now runs on. *)
Theorem kernelvec_transparent cause pc h :
  placed code lo (kernelvec kerneltrap) hi → 0 ≤ lo ∧ hi < 2 ^ 64 → 256 ≤ sp0 < 2 ^ 64 → sp0 `mod` 8 = 0 →
  kv_kern kpt lo hi sp0 pa h → get sp h = sp0 → regs64 h → h_csr h stvec = lo → lo `mod` 4 = 0 →
  let h0 := (strap cause pc h).2 in
  ∃ n1 mid h1, steps n1 (strap cause pc h) = Some (kerneltrap, set ra mid h1) ∧
    (h_mode h1 = Supervisor ∧ h_csr h1 = h_csr h0 ∧ Z.testbit (h_csr h0 mstatus) BIT_SIE = false ∧ get sp h1 = sp0 - 256 ∧
     (∀ y, ¬ in_frame pa y → h_mem h1 y = h_mem h y)) ∧
    ∀ h2, kv_handled kpt lo hi sp0 pa h1 h2 → h_csr h2 sepc = pc → h_csr h2 mstatus = h_csr h0 mstatus →
      ∃ n2 h3, steps n2 (mid, h2) = Some (pc, h3) ∧ h_mode h3 = Supervisor ∧ h_mem h3 = h_mem h2 ∧
        Z.testbit (h_csr h3 mstatus) BIT_SIE = Z.testbit (h_csr h mstatus) BIT_SIE ∧
        get tp h3 = get tp h2 ∧ ∀ r, r ≠ tp → get r h3 = get r h.
Proof.
  intros Hp Hr1 Hr2 Hal Hk Hsp Hr Hv Hv4 h0.
  destruct (strap_bits cause pc h) as (Hb1 & Hb2 & Hb3). fold h0 in Hb1, Hb2, Hb3.
  rewrite (ik_mode _ _ _ _ _ _ Hk), bool_decide_eq_true_2 in Hb1 by done.
  assert (kv_kern kpt lo hi sp0 pa h0) as Hk0.
  { by destruct Hk. }
  assert (strap cause pc h = (lo, h0)) as E.
  { unfold strap. by rewrite Hv, trap_target_id. }
  destruct (kernelvec_ok medeleg_mask mideleg_mask code kpt lo hi kerneltrap Hp Hr1 sp0 pa Hr2 Hal h0 Hk0 Hsp Hr)
    as (n1 & mid & h1 & Hst & (Hk1 & Hc1 & Hsp1 & _ & Hm1) & Hret).
  exists n1, mid, h1. rewrite E. split; [done|]. split; [split_and!; try done; apply Hk1|].
  intros h2 Hh2 Hepc Hst2. destruct (Hret h2 Hh2) as (n2 & h3 & Hs3 & Hm3 & Hc3 & Hmem3 & Htp & Hg).
  exists n2, h3. rewrite Hs3, Hepc, Hm3, Hc3, fn_lookup_insert, sret_status_SIE, Hst2. unfold sret_mode. rewrite Hb1, Hb2.
  split_and!; done.
Qed.
End kvec.

(** ** A small machine

    A user page table with the trampoline and a trap frame, and a kernel page
    table with the trampoline, a page of text, a page of data and a stack. *)
Module AsmDemo.
Definition upt : Z := 0x87000000.
Definition kpt : Z := 0x87003000.
Definition tf : Z := 0x87006000.
Definition tramp : Z := 0x80007000.
Definition usertrap_addr : Z := 0x80002000.
Definition cells : list (Z * Z) :=
  [(upt + 8 * 255, mkpte 0x87001000 0); (0x87001000 + 8 * 511, mkpte 0x87002000 0);
   (0x87002000 + 8 * 511, mkpte tramp RX); (0x87002000 + 8 * 510, mkpte tf RW);
   (kpt + 8 * 255, mkpte 0x87004000 0); (0x87004000 + 8 * 511, mkpte 0x87005000 0);
   (0x87005000 + 8 * 511, mkpte tramp RX); (0x87005000 + 8 * 509, mkpte 0x87007000 RW);
   (kpt + 8 * 2, mkpte 0x87008000 0); (0x87008000 + 8 * 0, mkpte 0x87009000 0);
   (0x87009000 + 8 * 5, mkpte 0x80005000 RX); (0x87009000 + 8 * 8, mkpte 0x80008000 RW);
   (tf + TF_kernel_satp, MAKE_SATP kpt); (tf + TF_kernel_sp, KSTACK 0 + PGSIZE);
   (tf + TF_kernel_trap, usertrap_addr); (tf + TF_kernel_hartid, 1)].
Definition mem0 : mem := foldr (λ '(a, v) m, store64 m a v) (λ _, 0) cells.

Definition code0 : Z → option (instr * Z) := lay tramp (uservec ++ userret).
Lemma linked0 : trampoline_linked code0 tramp tramp (tramp + 4 * 42) (tramp + 4 * 42) (tramp + 4 * 42 + 4 * 36).
Proof.
  split; [reflexivity| |unfold PGSIZE; lia|reflexivity| |unfold PGSIZE; lia].
  - apply (lay_placed tramp (uservec ++ userret) [] uservec userret). reflexivity.
  - apply (lay_placed tramp (uservec ++ userret) uservec userret []). by rewrite app_nil_r.
Qed.

(** A page of one of the tables, whose entries are not written. *)
Ltac demo_page :=
  split; [vm_compute; reflexivity|]; split; [|done]; unfold clear_of;
  match goal with |- Forall _ ?l => let v := eval vm_compute in l in replace l with v by (vm_compute; reflexivity) end;
  repeat constructor; unfold in_tf, in_frame, tf, PGSIZE; lia.

Lemma env0 : tramp_env tramp tf upt kpt mem0.
Proof. split; [done|done|apply seen_page; demo_page..]. Qed.

(** A program about to trap. *)
Definition user0 : hart :=
  Hart User (λ r, if decide (r = sp) then 0x3ff0 else 7)
    (<[satp := MAKE_SATP upt]> (<[stvec := TRAMPOLINE + (tramp - tramp)]> (λ _, 0))) mem0.
Lemma user0_regs : regs64 user0.
Proof. intros r. destruct r; vm_compute; split; congruence. Qed.


(** The kernel in process 0, about to return to it. *)
Definition proc0 : proc :=
  Proc RUNNING 0 0 1 None (KSTACK 0) 4096 upt tf (Context 0 0 []) false [] None.
Definition csrs0 : csrs := Csrs 0 0 8 0x80005000 (MAKE_SATP kpt) 1 0.
Definition mach0 : Trap.mach bstate :=
  Mach csrs0 (Sys (λ _, File FD_NONE 0 false false 0 0 0 0) (λ _, Pipe [] 0 0 false false)
    (FState false ∅ (Superblock 0 0 0 0 0 0 0 0) (LogDemo.log0 (BState false ∅ BioDemo.disk0))
      (PState (λ _, proc0) 2 [] (Some 0) (Cpu (Some 0) 0 false true) (KState mem0 0 false) false)) 0).

Lemma usertrapret_enters_user_witness :
  wp (usertrapret (S := bstate) tramp tramp usertrap_addr) (λ v t', ∀ h, represents t' h → get a0 h = v →
    ∃ h1, steps 0 0 code0 (length userret) (tramp + 4 * 42 + (TRAMPOLINE - tramp), h) = Some (0, h1) ∧ h_mode h1 = User) mach0.
Proof.
  eapply wp_mono.
  - refine (usertrapret_enters_user 0 0 code0 tramp tramp (tramp + 4 * 42) (tramp + 4 * 42) (tramp + 4 * 42 + 4 * 36) linked0
      tf upt kpt usertrap_addr 0 proc0 csrs0 true mem0 mach0 _ _ _ _ _ _ _ _ _ _).
    + by split.
    + reflexivity.
    + reflexivity.
    + reflexivity.
    + reflexivity.
    + apply env0.
    + vm_compute. split; congruence.
    + vm_compute. split; congruence.
    + vm_compute. split; congruence.
    + vm_compute. split; congruence.
  - intros v t' H h Hh Ha. destruct (H h Hh Ha) as (h1 & Hst & Hm & _). exists h1. split; [|exact Hm].
    rewrite Hst. reflexivity.
Defined.

(** A hart in the kernel that calls [swtch]. *)
Definition text : Z := 0x80005000.
Definition data : Z := 0x80008000.
Definition kernel0 : hart :=
  Hart Supervisor (λ r, match r with a0 => data | a1 => data + 256 | ra => text + 0x200 | sp => KSTACK 0 + PGSIZE | _ => 5 end)
    (<[satp := MAKE_SATP kpt]> (<[stvec := text]> (λ _, 0))) mem0.
Lemma kernel0_regs : regs64 kernel0.
Proof. intros r. destruct r; vm_compute; split; congruence. Qed.
Lemma text_page W n : (∀ x, W x → 0x80008000 ≤ x < 0x80009000 ∨ 0x87007000 ≤ x < 0x87008000) → n ≤ PGSIZE → seen W mem0 kpt text text n RX.
Proof.
  intros HW Hn. replace text with (text + 0) by lia. apply seen_part; [|done|lia]. split; [vm_compute; reflexivity|]. split; [|done].
  unfold clear_of. match goal with |- Forall _ ?l => let v := eval vm_compute in l in replace l with v by (vm_compute; reflexivity) end.
  repeat constructor; intros x ? ?%HW; lia.
Qed.
Lemma data_page W k n : (∀ x, W x → 0x80008000 ≤ x < 0x80009000 ∨ 0x87007000 ≤ x < 0x87008000) → 0 ≤ k → k + n ≤ PGSIZE →
  seen W mem0 kpt (data + k) (data + k) n RW.
Proof.
  intros HW Hk Hn. apply seen_part; [|done|lia]. split; [vm_compute; reflexivity|]. split; [|done].
  unfold clear_of. match goal with |- Forall _ ?l => let v := eval vm_compute in l in replace l with v by (vm_compute; reflexivity) end.
  repeat constructor; intros x ? ?%HW; lia.
Qed.
Lemma swtch_call0 : swtch_call kpt text (text + 116) kernel0 data (data + 256).
Proof.
  split; try done.
  - assert (∀ x, data ≤ x < data + 112 → 0x80008000 ≤ x < 0x80009000 ∨ 0x87007000 ≤ x < 0x87008000) as HW by (unfold data; lia).
    split; [done|done|done|apply text_page; [done|by vm_compute]|].
    intros va pa n Hin. apply list_elem_of_In in Hin. destruct Hin as [[= <- <- <-]|[[= <- <- <-]|[]]].
    + pose proof (data_page _ 0 112 HW ltac:(done) ltac:(done)) as H. rewrite Z.add_0_r in H. exact H.
    + exact (data_page _ 256 112 HW ltac:(done) ltac:(done)).
  - apply kernel0_regs.
Qed.

Lemma swtch_resumes_witness :
  ∃ h1, steps 0 0 (lay text swtch) (length swtch) (text, kernel0) = Some (0, h1) ∧ get s0 h1 = 0 ∧
    ∀ h2, swtch_call kpt text (text + 116) h2 (data + 512) data → (∀ y, data ≤ y < data + 112 → h_mem h2 y = h_mem h1 y) →
      ∃ h3, steps 0 0 (lay text swtch) (length swtch) (text, h2) = Some (text + 0x200, h3) ∧ get s0 h3 = 5.
Proof.
  assert (placed (lay text swtch) text swtch (text + 116)) as Hp by exact (lay_placed text swtch [] swtch [] eq_refl).
  destruct (swtch_resumes 0 0 (lay text swtch) kpt text (text + 116) Hp ltac:(split; done) kernel0 data (data + 256) swtch_call0)
    as (h1 & Hst & Hl & _ & Hm & Hret).
  assert (∀ o, 0 ≤ o < 112 → load64 (h_mem h1) (data + 256 + o) = load64 mem0 (data + 256 + o)) as Hz.
  { intros o ?. apply load64_ext. intros y ?. apply Hm. lia. }
  exists h1. split; [|split].
  - rewrite Hst. specialize (Hz 0 ltac:(clear; lia)). rewrite Z.add_0_r in Hz. rewrite Hz.
    assert (jump_target (load64 mem0 (data + 256)) = 0) as -> by (vm_compute; reflexivity). reflexivity.
  - rewrite (Hl s0 16 eq_refl), Hz by (clear; lia). vm_compute. reflexivity.
  - intros h2 Hc Hsame. destruct (Hret h2 (data + 512) Hc) as (h3 & Hs3 & Hg & _); [right; clear; unfold data; lia|exact Hsame|].
    exists h3. split; [|exact (Hg s0 16 eq_refl)]. rewrite Hs3. reflexivity.
Defined.

(** [kernel0], interrupted while it runs on an empty stack. *)
Lemma kv_kern0 : kv_kern kpt text (text + 260) (KSTACK 0 + PGSIZE) (0x87007000 + 0xf00) kernel0.
Proof.
  split; [done|done|done|apply text_page; [unfold in_frame; lia|by vm_compute]|].
  intros va pa n Hin. apply list_elem_of_In in Hin. destruct Hin as [[= <- <- <-]|[]].
  change (KSTACK 0 + PGSIZE - 256) with (KSTACK 0 + 0xf00). apply seen_part; [|done|by vm_compute].
  demo_page.
Qed.
Lemma kernelvec_transparent_witness :
  ∃ n1 mid h1, steps 0 0 (lay text (kernelvec 0x80003000)) n1 (strap 0x8000000000000009 (text + 0x300) kernel0) =
      Some (0x80003000, set ra mid h1) ∧
    ∀ h2, kv_handled kpt text (text + 260) (KSTACK 0 + PGSIZE) (0x87007000 + 0xf00) h1 h2 → h_csr h2 sepc = text + 0x300 →
      h_csr h2 mstatus = h_csr h1 mstatus →
      ∃ n2 h3, steps 0 0 (lay text (kernelvec 0x80003000)) n2 (mid, h2) = Some (text + 0x300, h3) ∧ ∀ r, r ≠ tp → get r h3 = get r kernel0.
Proof.
  assert (placed (lay text (kernelvec 0x80003000)) text (kernelvec 0x80003000) (text + 260)) as Hp
    by exact (lay_placed text (kernelvec 0x80003000) [] (kernelvec 0x80003000) [] eq_refl).
  destruct (kernelvec_transparent 0 0 (lay text (kernelvec 0x80003000)) kpt text (text + 260) 0x80003000 (KSTACK 0 + PGSIZE)
    (0x87007000 + 0xf00) 0x8000000000000009 (text + 0x300) kernel0 Hp) as (n1 & mid & h1 & Hst & (_ & Hc & _) & Hret).
  - vm_compute. split; congruence.
  - vm_compute. split; congruence.
  - reflexivity.
  - apply kv_kern0.
  - reflexivity.
  - apply kernel0_regs.
  - reflexivity.
  - reflexivity.
  - exists n1, mid, h1. split; [exact Hst|]. intros h2 Hh Hepc Hms. rewrite Hc in Hms.
    destruct (Hret h2 Hh Hepc Hms) as (n2 & h3 & Hs & _ & _ & _ & _ & Hg). exists n2, h3. split; [exact Hs|exact Hg].
Defined.
End AsmDemo.
