(* ===== verification/Boot.v ===== *)
(** * From reset to main: entry.S, start.c, timervec, plic.c

    Each hart starts in machine mode at [_entry], which gives it a stack and
    calls [start]; [start] prepares the machine registers and the timer, and
    enters [main] in supervisor mode.  From then on the hart is in machine mode
    only while [timervec] turns a timer interrupt into a supervisor software
    interrupt.  The C functions here run on a hart of [Asm]: their accesses to
    control registers and to memory are those of the machine.  The interrupt
    controller is a parameter. *)
From S2P Require Import Prelude Kstring Kalloc Vm VmProps Trap Asm.

(** ** memlayout.h, riscv.h *)
Definition NCPU : Z := 8.
Definition CLINT : Z := 0x2000000.
Definition CLINT_MTIMECMP (hartid : Z) : Z := CLINT + 0x4000 + 8 * hartid.
Definition CLINT_MTIME : Z := CLINT + 0xBFF8.
Definition MSTATUS_MPP_MASK : Z := Z.shiftl 3 11.
Definition MSTATUS_MPP_S : Z := Z.shiftl 1 11.
Definition MSTATUS_MIE : Z := Z.shiftl 1 3.
Definition SIE_SEIE : Z := Z.shiftl 1 9.
Definition SIE_STIE : Z := Z.shiftl 1 5.
Definition SIE_SSIE : Z := Z.shiftl 1 1.
Definition MIE_MTIE : Z := Z.shiftl 1 7.

#[local] Opaque load64 store64.

Ltac csr_simpl := repeat first [rewrite fn_lookup_insert | rewrite fn_lookup_insert_ne by done].

(** A register that a function has kept. *)
Ltac csr_kept H := rewrite H by (rewrite !not_elem_of_cons; split_and!; [done..|apply not_elem_of_nil]); csr_simpl.

Section boot.
Variables (medeleg_mask mideleg_mask : Z).
(** Link-time addresses: [main], [timervec], [timer_scratch]. *)
Variables (main timervec_addr timer_scratch : Z).

(** What the machine refuses is a trap that nothing handles yet. *)
Definition hw {A} (f : hart → option A) (m : A → hart → hart) : M hart A := λ h,
  match f h with Some a => Ok a (m a h) | None => Panic "machine trap" end.
Definition rcsr (c : csr) : M hart Z := hw (read_csr c) (λ _ h, h).
Definition wcsr (c : csr) (v : Z) : M hart unit := λ h,
  match write_csr medeleg_mask mideleg_mask c v h with Some h' => Ok tt h' | None => Panic "machine trap" end.
Definition rd64 (a : Z) : M hart Z := hw (load a) (λ _ h, h).
Definition wr64 (a v : Z) : M hart unit := λ h,
  match store a v h with Some h' => Ok tt h' | None => Panic "machine trap" end.

Definition asm_mret : M hart Z := λ h,
  match exec_mret h with Some (pc, h') => Ok pc h' | None => Panic "machine trap" end.

(** riscv.h *)
Definition r_mhartid : M hart Z := rcsr mhartid.
Definition r_mstatus : M hart Z := rcsr mstatus.
Definition w_mstatus (x : Z) : M hart unit := wcsr mstatus x.
Definition w_mepc (x : Z) : M hart unit := wcsr mepc x.
Definition w_satp (x : Z) : M hart unit := wcsr satp x.
Definition w_medeleg (x : Z) : M hart unit := wcsr medeleg x.
Definition w_mideleg (x : Z) : M hart unit := wcsr mideleg x.
Definition r_sie : M hart Z := rcsr sie.
Definition w_sie (x : Z) : M hart unit := wcsr sie x.
Definition r_mie : M hart Z := rcsr mie.
Definition w_mie (x : Z) : M hart unit := wcsr mie x.
Definition w_pmpaddr0 (x : Z) : M hart unit := wcsr pmpaddr0 x.
Definition w_pmpcfg0 (x : Z) : M hart unit := wcsr pmpcfg0 x.
Definition w_mscratch (x : Z) : M hart unit := wcsr mscratch x.
Definition w_mtvec (x : Z) : M hart unit := wcsr mtvec x.
Definition w_tp (x : Z) : M hart unit := modify (set tp (u64 x)).
#[local] Ltac unfold_csrs := unfold r_mhartid, r_mstatus, w_mstatus, w_mepc, w_satp, w_medeleg, w_mideleg, r_sie, w_sie, r_mie, w_mie,
  w_pmpaddr0, w_pmpcfg0, w_mscratch, w_mtvec, w_tp.

(** ** start.c *)

Definition interval : Z := 1000000.
Definition scratch (id : Z) : Z := timer_scratch + 40 * id.

Definition timerinit : M hart unit :=
  id ← r_mhartid;
  let id := s32 id in
  t ← rd64 CLINT_MTIME;
  wr64 (CLINT_MTIMECMP id) (u64 (t + interval)) ;;
  wr64 (scratch id + 8 * 3) (CLINT_MTIMECMP id) ;;
  wr64 (scratch id + 8 * 4) interval ;;
  w_mscratch (scratch id) ;;
  w_mtvec timervec_addr ;;
  x ← r_mstatus;
  w_mstatus (Z.lor x MSTATUS_MIE) ;;
  x ← r_mie;
  w_mie (Z.lor x MIE_MTIE).

(** [start]; the result is where [mret] goes. *)
Definition start : M hart Z :=
  x ← r_mstatus;
  let x := Z.ldiff x MSTATUS_MPP_MASK in
  let x := Z.lor x MSTATUS_MPP_S in
  w_mstatus x ;;
  w_mepc main ;;
  w_satp 0 ;;
  w_medeleg 0xffff ;;
  w_mideleg 0xffff ;;
  x ← r_sie;
  w_sie (Z.lor (Z.lor (Z.lor x SIE_SEIE) SIE_STIE) SIE_SSIE) ;;
  w_pmpaddr0 0x3fffffffffffff ;;
  w_pmpcfg0 0xf ;;
  timerinit ;;
  id ← r_mhartid;
  w_tp (s32 id) ;;
  asm_mret.

(** ** Rules *)

Lemma wp_rcsr c v (Q : Z → hart → Prop) h : read_csr c h = Some v → Q v h → wp (rcsr c) Q h.
Proof. intros E HQ. unfold wp, rcsr, hw. by rewrite E. Qed.
Lemma wp_wcsr c v h' (Q : unit → hart → Prop) h :
  write_csr medeleg_mask mideleg_mask c v h = Some h' → Q tt h' → wp (wcsr c v) Q h.
Proof. intros E HQ. unfold wp, wcsr. by rewrite E. Qed.
Lemma load_machine a h : h_mode h = Machine → a `mod` 8 = 0 → load a h = Some (load64 (h_mem h) a).
Proof. intros Hm Ha. unfold load, translate. by rewrite Ha, Hm. Qed.
Lemma store_machine a v h : h_mode h = Machine → a `mod` 8 = 0 → store a v h = Some (put_mem (store64 (h_mem h) a v) h).
Proof. intros Hm Ha. unfold store, translate. by rewrite Ha, Hm. Qed.
Lemma wp_rd64 a (Q : Z → hart → Prop) h : h_mode h = Machine → a `mod` 8 = 0 → Q (load64 (h_mem h) a) h → wp (rd64 a) Q h.
Proof. intros Hm Ha HQ. unfold wp, rd64, hw. by rewrite load_machine. Qed.
Lemma wp_wr64 a v (Q : unit → hart → Prop) h :
  h_mode h = Machine → a `mod` 8 = 0 → Q tt (put_mem (store64 (h_mem h) a v) h) → wp (wr64 a v) Q h.
Proof. intros Hm Ha HQ. unfold wp, wr64. by rewrite store_machine. Qed.

(** The platform implements delegation of the supervisor's interrupts and of
    no others. *)
Record platform : Prop := {
  pl_s : Z.land mideleg_mask 0x222 = 0x222;
  pl_m : Z.testbit mideleg_mask 7 = false
}.

(** The timer of hart [id] is set up for [timervec]. *)
Record timer_ready (id : Z) (h : hart) : Prop := {
  tr_mscratch : h_csr h mscratch = scratch id;
  tr_mtvec : h_csr h mtvec = timervec_addr;
  tr_cmp : load64 (h_mem h) (scratch id + 24) = CLINT_MTIMECMP id;
  tr_interval : load64 (h_mem h) (scratch id + 32) = interval;
  tr_enabled : Z.testbit (h_csr h mie) 7 = true;
  tr_machine : Z.testbit (h_csr h mideleg) 7 = false;
  tr_software : Z.testbit (h_csr h mideleg) 1 = true
}.

(** Where the machine registers point after [start]. *)
Lemma timerinit_spec id h :
  h_mode h = Machine → h_csr h mhartid = id → 0 ≤ id < NCPU → timer_scratch `mod` 8 = 0 → KERNBASE ≤ timer_scratch →
  Z.testbit (h_csr h mideleg) 7 = false → Z.testbit (h_csr h mideleg) 1 = true →
  wp timerinit (λ _ h', timer_ready id h' ∧ h_mode h' = Machine ∧ h_reg h' = h_reg h ∧
    (∀ c, c ∉ [mscratch; mtvec; mstatus; mie] → h_csr h' c = h_csr h c) ∧
    h_csr h' mstatus = Z.lor (h_csr h mstatus) MSTATUS_MIE ∧ h_csr h' mie = Z.lor (h_csr h mie) MIE_MTIE ∧
    load64 (h_mem h') (CLINT_MTIMECMP id) = u64 (load64 (h_mem h) CLINT_MTIME + interval) ∧
    (∀ x, x < CLINT_MTIMECMP id ∨ CLINT_MTIMECMP id + 8 ≤ x → x < scratch id + 24 ∨ scratch id + 40 ≤ x → h_mem h' x = h_mem h x)) h.
Proof.
  intros Hm Hid Hr Hal Hlo Hd1 Hd2. unfold NCPU in Hr. destruct h as [md rg cs m]. cbn in *. subst md.
  unfold timerinit. unfold_csrs. wp_step. eapply wp_rcsr; [reflexivity|]. cbn [h_csr]. rewrite Hid.
  assert (s32 id = id) as -> by (apply swrap_small; lia).
  wp_step. apply wp_rd64; [done|done|].
  assert (CLINT_MTIMECMP id `mod` 8 = 0) as Hc8.
  { unfold CLINT_MTIMECMP, CLINT. rewrite Z.add_mod, (Z.mul_comm 8), Z.mod_mul by done. done. }
  assert (scratch id `mod` 8 = 0) as Hs8.
  { unfold scratch. replace (40 * id) with (5 * id * 8) by lia. by rewrite Z.mod_add. }
  wp_step. apply wp_wr64; [done|done|].
  wp_step. apply wp_wr64; [done|by rewrite Z.add_mod, Hs8|].
  wp_step. apply wp_wr64; [done|by rewrite Z.add_mod, Hs8|]. cbn [put_mem h_mode h_reg h_csr h_mem].
  wp_step. eapply wp_wcsr; [reflexivity|]. wp_step. eapply wp_wcsr; [reflexivity|].
  wp_step. eapply wp_rcsr; [reflexivity|]. wp_step. eapply wp_wcsr; [reflexivity|].
  wp_step. eapply wp_rcsr; [reflexivity|]. eapply wp_wcsr; [reflexivity|].
  cbn [put_csr h_mode h_reg h_csr h_mem].
  assert (CLINT_MTIMECMP id + 8 ≤ scratch id) by (unfold CLINT_MTIMECMP, CLINT, scratch, KERNBASE in *; lia).
  split; [split; cbn [put_csr put_mem h_csr h_mem]; csr_simpl; try done|split_and!; cbn [put_csr put_mem h_csr h_mem]; csr_simpl; try done].
  - rewrite load64_store64_other by lia. apply load64_store64. unfold CLINT_MTIMECMP, CLINT. lia.
  - by apply load64_store64.
  - rewrite Z.lor_spec. apply orb_true_r.
  - intros c Hc. rewrite !not_elem_of_cons in Hc. destruct Hc as (?&?&?&?&_). by csr_simpl.
  - rewrite !load64_store64_other by lia. apply load64_store64, u64_range.
  - intros x ? ?. by rewrite !store64_out by lia.
Qed.

Lemma platform_bit : platform → ∀ k, Z.testbit 0x222 k = true → Z.testbit mideleg_mask k = true.
Proof.
  intros [H _] k Hk. apply (f_equal (λ x, Z.testbit x k)) in H. rewrite Z.land_spec, Hk, andb_true_r in H. done.
Qed.
Lemma delegable k : Z.testbit 0x222 k = true → Z.testbit 0xffff k = true.
Proof.
  intros Hk. change 0xffff with (Z.ones 16). rewrite Z.ones_spec_low; [done|].
  destruct (Z.lt_ge_cases k 0); [by rewrite Z.testbit_neg_r in Hk|].
  destruct (Z.lt_ge_cases k 16); [done|]. rewrite Z.bits_above_log2 in Hk; [done|done|]. cbn; lia.
Qed.
Lemma merge_bit old mask v k : Z.testbit (merge old mask v) k = if Z.testbit mask k then Z.testbit v k else Z.testbit old k.
Proof.
  unfold merge. rewrite Z.lor_spec, Z.ldiff_spec, Z.land_spec.
  destruct (Z.testbit mask k); cbn; by rewrite ?andb_true_r, ?andb_false_r, ?orb_false_r.
Qed.

(** A hart after [start]. *)
Record started_hart (id : Z) (h h' : hart) : Prop := {
  sh_mode : h_mode h' = Supervisor;
  sh_satp : h_csr h' satp = 0;
  sh_tp : get tp h' = id;
  sh_regs : ∀ r, r ≠ tp → get r h' = get r h;
  sh_timer : timer_ready id h';
  sh_first : load64 (h_mem h') (CLINT_MTIMECMP id) = u64 (load64 (h_mem h) CLINT_MTIME + interval);
  sh_delegated : ∀ k, Z.testbit 0x222 k = true → Z.testbit (h_csr h' mideleg) k = true ∧ Z.testbit (h_csr h' mie) k = true;
  sh_pmp : h_csr h' pmpaddr0 = 0x3fffffffffffff ∧ h_csr h' pmpcfg0 = 0xf;
  sh_mem : ∀ x, x < CLINT_MTIMECMP id ∨ CLINT_MTIMECMP id + 8 ≤ x → x < scratch id + 24 ∨ scratch id + 40 ≤ x → h_mem h' x = h_mem h x
}.

Lemma start_status st : mpp (Z.lor (Z.lor (Z.ldiff st MSTATUS_MPP_MASK) MSTATUS_MPP_S) MSTATUS_MIE) = Supervisor.
Proof.
  unfold mpp. rewrite !Z.lor_spec, !Z.ldiff_spec. change (Z.testbit MSTATUS_MPP_S BIT_MPP) with true.
  change (Z.testbit MSTATUS_MPP_MASK (BIT_MPP + 1)) with true. change (Z.testbit MSTATUS_MPP_S (BIT_MPP + 1)) with false.
  change (Z.testbit MSTATUS_MIE (BIT_MPP + 1)) with false. by rewrite orb_true_r, andb_false_r.
Qed.

(** The end of [start], from the machine registers it has set. *)
Lemma start_end id h h1 :
  h_mode h1 = Machine → h_reg h1 = h_reg h → h_csr h1 mhartid = id → 0 ≤ id < NCPU → h_csr h1 mepc = main →
  mpp (h_csr h1 mstatus) = Supervisor → h_csr h1 satp = 0 → timer_ready id h1 →
  load64 (h_mem h1) (CLINT_MTIMECMP id) = u64 (load64 (h_mem h) CLINT_MTIME + interval) →
  (∀ k, Z.testbit 0x222 k = true → Z.testbit (h_csr h1 mideleg) k = true ∧ Z.testbit (h_csr h1 mie) k = true) →
  h_csr h1 pmpaddr0 = 0x3fffffffffffff ∧ h_csr h1 pmpcfg0 = 0xf →
  (∀ x, x < CLINT_MTIMECMP id ∨ CLINT_MTIMECMP id + 8 ≤ x → x < scratch id + 24 ∨ scratch id + 40 ≤ x → h_mem h1 x = h_mem h x) →
  wp (id ← rcsr mhartid; modify (set tp (u64 (s32 id))) ;; asm_mret) (λ pc h', pc = main ∧ started_hart id h h') h1.
Proof.
  intros Hm Hrg Hid Hr Hepc Hmpp Hsatp [] Hcmp Hdel Hpmp Hmem. unfold NCPU in Hr. wp_step. eapply wp_rcsr.
  { unfold read_csr. rewrite Hm. reflexivity. }
  cbv iota. rewrite Hid. assert (s32 id = id) as -> by (apply swrap_small; lia).
  assert (u64 id = id) as -> by (apply wrap_small; lia).
  wp_steps. unfold wp, asm_mret, exec_mret. rewrite set_mode, Hm, bool_decide_eq_true_2, set_csr, Hmpp by done.
  split; [done|]. split; cbn [put_mode put_csr h_mode h_csr h_mem]; csr_simpl; rewrite ?set_mem; try done.
  - intros r Hne. destruct r; try done; cbn; rewrite fn_lookup_insert_ne, Hrg by done; done.
Qed.

Lemma start_spec id h :
  platform → h_mode h = Machine → h_csr h mhartid = id → 0 ≤ id < NCPU → timer_scratch `mod` 8 = 0 → KERNBASE ≤ timer_scratch →
  wp start (λ pc h', pc = main ∧ started_hart id h h') h.
Proof.
  intros Hpl Hm Hid Hr Hal Hlo. destruct h as [md rg cs m]. cbn in Hm, Hid. subst md.
  unfold start. unfold_csrs. wp_step. eapply wp_rcsr; [reflexivity|]. cbv zeta.
  wp_step. eapply wp_wcsr; [reflexivity|]. wp_step. eapply wp_wcsr; [reflexivity|]. wp_step. eapply wp_wcsr; [reflexivity|].
  wp_step. eapply wp_wcsr; [reflexivity|]. wp_step. eapply wp_wcsr; [reflexivity|].
  wp_step. eapply wp_rcsr; [reflexivity|]. wp_step. eapply wp_wcsr; [reflexivity|].
  wp_step. eapply wp_wcsr; [reflexivity|]. wp_step. eapply wp_wcsr; [reflexivity|].
  cbn [put_csr h_mode h_reg h_csr h_mem]. csr_simpl. wp_step.
  assert (Hb : ∀ k, Z.testbit 0x222 k = true → Z.testbit (Z.land 0xffff mideleg_mask) k = true).
  { intros k Hk. rewrite Z.land_spec, (platform_bit Hpl k Hk), andb_true_r. by apply delegable. }
  eapply wp_mono.
  - apply (timerinit_spec id); try done; cbn [put_csr h_mode h_reg h_csr h_mem]; csr_simpl; try done.
    + rewrite Z.land_spec, (pl_m Hpl). apply andb_false_r.
    + by apply Hb.
  - intros _ h1 (Htr & Hm1 & Hrg & Hcs & Hst & Hmie & Hcmp & Hmem). cbn [put_csr h_reg h_csr h_mem] in *.
    apply start_end; try done.
    + by csr_kept Hcs.
    + by csr_kept Hcs.
    + rewrite Hst. csr_simpl. apply start_status.
    + by csr_kept Hcs.
    + intros k Hk. split; [csr_kept Hcs; by apply Hb|]. rewrite Hmie. csr_simpl.
      rewrite Z.lor_spec, merge_bit, Hb, <- !Z.lor_assoc, Z.lor_spec by done.
      change (Z.lor SIE_SEIE (Z.lor SIE_STIE SIE_SSIE)) with 0x222. rewrite Hk. by rewrite orb_true_r.
    + by split; csr_kept Hcs.
Qed.

(** ** Code in machine mode *)

Section machine_code.
Variable code : Z → option (instr * Z).
Abbreviation steps := (steps medeleg_mask mideleg_mask code).
Definition in_machine (h : hart) : Prop := h_mode h = Machine.
Abbreviation wpb := (wpb medeleg_mask mideleg_mask in_machine).

Lemma machine_fetch h x : in_machine h → translate Fetch (x + 0) h = Some x.
Proof. intros Hm. unfold translate. rewrite Hm, Z.add_0_r. done. Qed.
Lemma in_machine_set h r v : in_machine h → in_machine (set r v h).
Proof. unfold in_machine. by rewrite set_mode. Qed.

Lemma straight_sd r off b a h : in_machine h → get b h + off = a → a `mod` 8 = 0 → 0 ≤ a < 2 ^ 64 →
  straight medeleg_mask mideleg_mask (sd r off b) h = Some (put_mem (store64 (h_mem h) a (get r h)) h).
Proof. intros Hm Ha Hal Hr. cbn [straight]. by rewrite Ha, wrap_small, store_machine. Qed.
Lemma straight_ld r off b a h : in_machine h → get b h + off = a → a `mod` 8 = 0 → 0 ≤ a < 2 ^ 64 →
  straight medeleg_mask mideleg_mask (ld r off b) h = Some (set r (load64 (h_mem h) a) h).
Proof. intros Hm Ha Hal Hr. cbn [straight]. by rewrite Ha, wrap_small, load_machine. Qed.

(** ** timervec *)

Section tick.
Variables (id tend : Z).
Hypothesis id_range : 0 ≤ id < NCPU.
Hypothesis timervec_placed : placed code timervec_addr timervec tend.
Hypothesis timervec_range : 0 ≤ timervec_addr ∧ tend < 2 ^ 64 ∧ timervec_addr `mod` 4 = 0.
Hypothesis scratch_range : timer_scratch `mod` 8 = 0 ∧ KERNBASE ≤ timer_scratch ∧ timer_scratch + 40 * NCPU < 2 ^ 64.

Lemma scratch_aligned : scratch id `mod` 8 = 0 ∧ CLINT_MTIMECMP id `mod` 8 = 0 ∧ CLINT_MTIMECMP id + 8 ≤ scratch id ∧
  0 ≤ CLINT_MTIMECMP id ∧ scratch id + 40 < 2 ^ 64.
Proof using id_range scratch_range.
  destruct scratch_range as (Hs & ? & ?). unfold NCPU in *. split_and!.
  - unfold scratch. replace (40 * id) with (5 * id * 8) by lia. by rewrite Z.mod_add.
  - unfold CLINT_MTIMECMP, CLINT. rewrite Z.add_mod, (Z.mul_comm 8), Z.mod_mul by done. done.
  - unfold CLINT_MTIMECMP, CLINT, scratch, KERNBASE in *. lia.
  - unfold CLINT_MTIMECMP, CLINT. lia.
  - unfold scratch. lia.
Qed.

(** The memory after the handler: its scratch space and the comparator. *)
Definition tick_mem (h : hart) : mem :=
  store64 (store64 (store64 (store64 (h_mem h) (scratch id) (get a1 h)) (scratch id + 8) (get a2 h)) (scratch id + 16) (get a3 h))
    (CLINT_MTIMECMP id) (u64 (load64 (h_mem h) (CLINT_MTIMECMP id) + interval)).

Definition timervec_body : list instr := take 15 timervec.

Lemma aligned_slot k : k `mod` 8 = 0 → (scratch id + k) `mod` 8 = 0.
Proof using id_range scratch_range. intros Hk. destruct scratch_aligned as (Hs8 & _). by rewrite Z.add_mod, Hs8, Hk. Qed.

(** One load or store at [a]. *)
Ltac m_access L a :=
  eapply wpb_cons; [reflexivity|eapply (L _ _ _ a); [reflexivity|cbn [get h_reg]; csr_simpl; lia|first [done | by apply aligned_slot]|lia]|];
  unfold put_mem; cbn [set get h_mode h_reg h_csr h_mem]; csr_simpl.

Ltac m_simple :=
  eapply wpb_cons; [reflexivity|reflexivity|]; unfold put_csr; cbn [set get h_mode h_reg h_csr h_mem]; csr_simpl.

Lemma timervec_run h Q : in_machine h → timer_ready id h → regs64 h →
  (∀ h', in_machine h' → (∀ c, h_csr h' c = if decide (c = sip) then merge (h_csr h sip) (Z.land (h_csr h mideleg) 2) 2 else h_csr h c) →
    h_mem h' = tick_mem h → (∀ r, get r h' = get r h) → Q h') →
  wpb timervec_body Q h.
Proof using id_range scratch_range.
  intros Hm [] Hr HQ. destruct scratch_aligned as (Hs8 & Hc8 & Hlt & Hc0 & Hsr).
  pose proof (Hr a1) as Hr1. pose proof (Hr a2) as Hr2. pose proof (Hr a3) as Hr3.
  destruct h as [md rg cs m]. unfold in_machine in Hm. cbn [get h_reg h_mode h_csr h_mem] in *. subst md.
  unfold timervec_body. cbn [take timervec].
  eapply wpb_cons; [reflexivity|reflexivity|]. cbn [set put_csr h_reg h_csr h_mode h_mem get]. rewrite tr_mscratch0.
  m_access straight_sd (scratch id). m_access straight_sd (scratch id + 8). m_access straight_sd (scratch id + 16).
  set (m1 := store64 _ (scratch id + 16) _).
  assert (∀ k, 24 ≤ k → load64 m1 (scratch id + k) = load64 m (scratch id + k)) as Hhi.
  { intros k Hk. unfold m1. by rewrite !load64_store64_other by lia. }
  m_access straight_ld (scratch id + 24). rewrite Hhi, tr_cmp0 by lia. m_access straight_ld (scratch id + 32). rewrite Hhi, tr_interval0 by lia.
  m_access straight_ld (CLINT_MTIMECMP id).
  assert (load64 m1 (CLINT_MTIMECMP id) = load64 m (CLINT_MTIMECMP id)) as -> by (unfold m1; by rewrite !load64_store64_other by lia).
  m_simple. m_access straight_sd (CLINT_MTIMECMP id). do 2 m_simple.
  set (m2 := store64 m1 (CLINT_MTIMECMP id) _).
  assert (load64 m2 (scratch id + 16) = rg a3 ∧ load64 m2 (scratch id + 8) = rg a2 ∧ load64 m2 (scratch id) = rg a1) as (E3 & E2 & E1).
  { unfold m2, m1. rewrite !(load64_store64_other _ (CLINT_MTIMECMP id)) by lia. split_and!.
    - by apply load64_store64.
    - rewrite load64_store64_other by lia. by apply load64_store64.
    - rewrite !load64_store64_other by lia. by apply load64_store64. }
  m_access straight_ld (scratch id + 16). m_access straight_ld (scratch id + 8). m_access straight_ld (scratch id).
  rewrite E1, E2, E3. m_simple. apply wpb_nil, HQ; [reflexivity| |reflexivity|].
  - intros c. cbn [h_csr]. destruct c; cbn; csr_simpl; done.
  - intros r. destruct r; try reflexivity; cbn; by csr_simpl.
Qed.

Lemma tick_ready h h' : timer_ready id h → h_mem h' = tick_mem h → (∀ c, c ∉ [sip; mstatus; mepc] → h_csr h' c = h_csr h c) →
  timer_ready id h'.
Proof using id_range scratch_range.
  intros [] Hm Hc. destruct scratch_aligned as (_ & _ & Hlt & _).
  split; try (csr_kept Hc; done); rewrite Hm; unfold tick_mem; by rewrite !load64_store64_other by lia.
Qed.
Lemma tick_mem_spec h : load64 (tick_mem h) (CLINT_MTIMECMP id) = u64 (load64 (h_mem h) (CLINT_MTIMECMP id) + interval) ∧
  (∀ x, x < CLINT_MTIMECMP id ∨ CLINT_MTIMECMP id + 8 ≤ x → x < scratch id ∨ scratch id + 24 ≤ x → tick_mem h x = h_mem h x).
Proof.
  unfold tick_mem. split.
  - apply load64_store64, u64_range.
  - intros x ? ?. by rewrite !store64_out by lia.
Qed.

(** [mret] undoes the trap, but for the previous mode and enable bits. *)
Lemma mret_mtrap pc h st : h_mode h ≠ Machine → st = h_csr (mtrap pc h).2 mstatus →
  mpp st = h_mode h ∧ ∀ k, k ∈ [BIT_SIE; BIT_MIE; BIT_SPIE; BIT_SPP] →
    Z.testbit (put_mpp User (put_bit BIT_MPIE true (put_bit BIT_MIE (Z.testbit st BIT_MPIE) st))) k = Z.testbit (h_csr h mstatus) k.
Proof.
  intros Hm ->. cbn [mtrap snd put_mode put_csr h_csr]. csr_simpl. split.
  - unfold mpp, put_mpp. rewrite put_bit_eq, put_bit_ne, put_bit_eq by done. by destruct (h_mode h).
  - intros k Hk. unfold put_mpp. apply list_elem_of_In in Hk.
    repeat destruct Hk as [<-|Hk]; try done; repeat first [rewrite put_bit_eq by done | rewrite put_bit_ne by done]; done.
Qed.

(** What the handler leaves behind. *)
Definition ticked (h h' : hart) : Prop :=
  h_mode h' = h_mode h ∧ (∀ r, get r h' = get r h) ∧ h_mem h' = tick_mem h ∧ Z.testbit (h_csr h' sip) 1 = true ∧
  (∀ c, c ∉ [sip; mstatus; mepc] → h_csr h' c = h_csr h c) ∧
  (∀ k, k ∈ [BIT_SIE; BIT_MIE; BIT_SPIE; BIT_SPP] → Z.testbit (h_csr h' mstatus) k = Z.testbit (h_csr h mstatus) k).

Lemma timervec_end pc h h1 :
  h_mode h ≠ Machine → timer_ready id h → in_machine h1 → h_mem h1 = tick_mem h → (∀ r, get r h1 = get r h) →
  (∀ c, h_csr h1 c = if decide (c = sip) then merge (h_csr h sip) (Z.land (h_csr h mideleg) 2) 2 else h_csr (mtrap pc h).2 c) →
  ∃ h', exec_mret h1 = Some (pc, h') ∧ ticked h h'.
Proof.
  intros Hm Ht Hm1 Hmem Hg Hc. unfold exec_mret. rewrite Hm1, bool_decide_eq_true_2 by done. eexists. split; [by rewrite Hc|].
  destruct (mret_mtrap pc h (h_csr (mtrap pc h).2 mstatus) Hm eq_refl) as [Hmpp Hbits].
  assert (h_csr h1 mstatus = h_csr (mtrap pc h).2 mstatus) as Est by by rewrite Hc.
  unfold ticked. cbn [fst snd put_mode put_csr h_mode h_csr h_mem]. rewrite Est. csr_simpl. split_and!; [done| |done|..].
  - intros r. transitivity (get r h1); [by destruct r|apply Hg].
  - rewrite Hc, decide_True, merge_bit, Z.land_spec by done. by rewrite (tr_software _ _ Ht).
  - intros c Hcc. rewrite !not_elem_of_cons in Hcc. destruct Hcc as (?&?&?&_). csr_simpl.
    rewrite Hc, decide_False by done. cbn [mtrap snd put_mode put_csr h_csr]. by csr_simpl.
  - intros k Hk. by apply Hbits.
Qed.

Lemma timervec_ok pc h : h_mode h ≠ Machine → timer_ready id h → regs64 h →
  ∃ h', steps (length timervec) (mtrap pc h) = Some (pc, h') ∧ ticked h h'.
Proof using id_range timervec_placed timervec_range scratch_range.
  intros Hm Ht Hr. destruct timervec_range as (Hlo & Hhi & H4).
  assert (mtrap pc h = (timervec_addr + 0, (mtrap pc h).2)) as E.
  { unfold mtrap. cbn [snd]. f_equal. by rewrite (tr_mtvec _ _ Ht), trap_target_id, Z.add_0_r. }
  destruct (wpb_jump medeleg_mask mideleg_mask code in_machine timervec_body mret_ timervec_addr tend 0 (mtrap pc h).2
    (λ st, st.1 = pc ∧ ticked h st.2)) as ([pc' h'] & Hst & Hpc & Hh').
  - done.
  - lia.
  - lia.
  - intros h1 x Hh1 _. by apply machine_fetch.
  - apply timervec_run; [done| |done|].
    { destruct Ht. by split. }
    intros h1 Hm1 Hc1 Hmem1 Hg1. split; [done|]. intros pc'.
    destruct (timervec_end pc h h1) as (h' & Hx & Hh'); [done..|]. exists (pc, h'). done.
  - cbn [fst snd] in *. subst pc'. exists h'. split; [|done]. rewrite E. exact Hst.
Qed.

(** C15: a timer interrupt.  Whatever the hart does in user or supervisor
    mode, a timer interrupt takes it to [timervec] in machine mode, which
    moves the comparator of this hart on by the interval, makes a supervisor
    software interrupt pending, and returns to the interrupted instruction in
    the interrupted mode, with every register and, but for its scratch space,
    all of memory unchanged; and the next timer interrupt finds everything as
    [start] had prepared it. *)
Theorem timer_tick pc h :
  h_mode h ≠ Machine → timer_ready id h → regs64 h →
  ∃ h', steps (length timervec) (mtrap pc h) = Some (pc, h') ∧ h_mode h' = h_mode h ∧ (∀ r, get r h' = get r h) ∧
    timer_ready id h' ∧ Z.testbit (h_csr h' sip) 1 = true ∧ (∀ c, c ∉ [sip; mstatus; mepc] → h_csr h' c = h_csr h c) ∧
    (∀ k, k ∈ [BIT_SIE; BIT_MIE; BIT_SPIE; BIT_SPP] → Z.testbit (h_csr h' mstatus) k = Z.testbit (h_csr h mstatus) k) ∧
    load64 (h_mem h') (CLINT_MTIMECMP id) = u64 (load64 (h_mem h) (CLINT_MTIMECMP id) + interval) ∧
    (∀ x, x < CLINT_MTIMECMP id ∨ CLINT_MTIMECMP id + 8 ≤ x → x < scratch id ∨ scratch id + 24 ≤ x → h_mem h' x = h_mem h x).
Proof using id_range timervec_placed timervec_range scratch_range.
  intros Hm Ht Hr. destruct (timervec_ok pc h Hm Ht Hr) as (h' & Hst & Hm' & Hg & Hmem & Hsip & Hc & Hb).
  exists h'. destruct (tick_mem_spec h). rewrite Hmem. split_and!; try done. by eapply tick_ready.
Qed.
End tick.

(** ** _entry *)

Variables (entry entry_end stack0 start_addr spin : Z).
Hypothesis entry_placed : placed code entry (_entry stack0 start_addr spin) entry_end.
Hypothesis entry_range : 0 ≤ entry ∧ entry_end < 2 ^ 64.

Lemma entry_ok id h : h_mode h = Machine → h_csr h mhartid = id → 0 ≤ id < NCPU → 0 ≤ stack0 → stack0 + 4096 * NCPU < 2 ^ 64 →
  ∃ h1, steps 7 (entry, h) = Some (start_addr, h1) ∧ h_mode h1 = Machine ∧ h_csr h1 = h_csr h ∧ h_mem h1 = h_mem h ∧
    get sp h1 = stack0 + 4096 * (id + 1).
Proof using entry_placed entry_range.
  intros Hm Hid Hr Hlo Hhi. unfold NCPU in *. pose proof entry_placed as Hp.
  change (_entry stack0 start_addr spin) with
    (([la sp stack0; li a0 (1024 * 4); csrr a1 mhartid; addi a1 a1 1; mul a0 a0 a1; add sp sp a0] ++ [call start_addr]) ++ [j spin]) in Hp.
  apply placed_app in Hp as (mid & Hp1 & Hp2). pose proof (placed_le _ _ _ _ Hp1). pose proof (placed_le _ _ _ _ Hp2).
  destruct (wpb_jump medeleg_mask mideleg_mask code in_machine _ _ entry mid 0 h (λ st, st.1 = start_addr ∧ h_mode st.2 = Machine ∧ h_csr st.2 = h_csr h ∧
    h_mem st.2 = h_mem h ∧ get sp st.2 = stack0 + 4096 * (id + 1)) Hp1) as ([pc h1] & Hst & Hpc & Hrest).
  - lia.
  - lia.
  - intros h1 x Hh1 _. by apply machine_fetch.
  - destruct h as [md rg cs m]. cbn in Hm, Hid. subst md.
    do 6 (eapply wpb_cons; [reflexivity|reflexivity|]). apply wpb_nil. split; [reflexivity|]. intros pc.
    eexists. split; [reflexivity|]. split_and!; try reflexivity.
    cbn [snd set get h_reg h_csr h_mode h_mem]. csr_simpl. rewrite Hid.
    rewrite (wrap_small 64 stack0), (wrap_small 64 (id + 1)), (wrap_small 64 (1024 * 4)), (wrap_small 64 (_ * _)), wrap_small by lia. lia.
  - cbn [fst snd] in *. subst pc. rewrite Z.add_0_r in Hst. eauto.
Qed.

End machine_code.
End boot.

(** ** plic.c: the interrupt controller *)

Definition PLIC : Z := 0x0c000000.
Definition PLIC_SENABLE (hart : Z) : Z := PLIC + 0x2080 + hart * 0x100.
Definition PLIC_SPRIORITY (hart : Z) : Z := PLIC + 0x201000 + hart * 0x2000.
Definition PLIC_SCLAIM (hart : Z) : Z := PLIC + 0x201004 + hart * 0x2000.

(** The controller as its registers show it, for the harts' supervisor mode:
    the priority of a source, whether it is enabled for a hart, the threshold
    of a hart, and whether the source has an interrupt pending. *)
Record plic := Plic {
  pl_priority : Z → Z; pl_enabled : Z → Z → bool; pl_threshold : Z → Z; pl_pending : Z → bool
}.
(** A source that the controller may hand to [hart]. *)
Definition deliverable (v : plic) (hart irq : Z) : bool :=
  pl_pending v irq && pl_enabled v hart irq && (pl_threshold v hart <? pl_priority v irq).

(** The device: 32-bit registers that are read, which may change it, and
    written. *)
Class PlicDevice (D : Type) := {
  plic_rd : D → Z → Z * D;
  plic_wr : D → Z → Z → D;
  plic_view : D → plic
}.
(** What the platform's specification says of the registers that plic.c uses.
    The claim register answers the deliverable source of the highest priority,
    among equals the one of the lowest number, or 0, and clears its pending
    bit. *)
Record plic_spec (D : Type) `{!PlicDevice D} : Prop := {
  ps_priority d i v : 0 < i < 1024 → let v0 := plic_view d in let v1 := plic_view (plic_wr d (PLIC + i * 4) v) in
    (∀ j, pl_priority v1 j = if decide (j = i) then v else pl_priority v0 j) ∧ pl_enabled v1 = pl_enabled v0 ∧
    pl_threshold v1 = pl_threshold v0 ∧ pl_pending v1 = pl_pending v0;
  ps_enable d hart v : 0 ≤ hart < NCPU → let v0 := plic_view d in let v1 := plic_view (plic_wr d (PLIC_SENABLE hart) v) in
    (∀ g j, 0 ≤ j < 32 → pl_enabled v1 g j = if decide (g = hart) then Z.testbit v j else pl_enabled v0 g j) ∧
    (∀ g j, 32 ≤ j → pl_enabled v1 g j = pl_enabled v0 g j) ∧
    pl_priority v1 = pl_priority v0 ∧ pl_threshold v1 = pl_threshold v0 ∧ pl_pending v1 = pl_pending v0;
  ps_threshold d hart v : 0 ≤ hart < NCPU → let v0 := plic_view d in let v1 := plic_view (plic_wr d (PLIC_SPRIORITY hart) v) in
    (∀ g, pl_threshold v1 g = if decide (g = hart) then v else pl_threshold v0 g) ∧
    pl_priority v1 = pl_priority v0 ∧ pl_enabled v1 = pl_enabled v0 ∧ pl_pending v1 = pl_pending v0;
  ps_claim d hart : 0 ≤ hart < NCPU → let v0 := plic_view d in let r := (plic_rd d (PLIC_SCLAIM hart)).1 in
    let v1 := plic_view (plic_rd d (PLIC_SCLAIM hart)).2 in
    (r = 0 ∧ (∀ i, 0 < i < 1024 → deliverable v0 hart i = false) ∨
     0 < r < 1024 ∧ deliverable v0 hart r = true ∧
       ∀ i, 0 < i < 1024 → deliverable v0 hart i = true → pl_priority v0 i < pl_priority v0 r ∨ pl_priority v0 i = pl_priority v0 r ∧ r ≤ i) ∧
    (∀ i, pl_pending v1 i = if decide (i = r) then false else pl_pending v0 i) ∧
    pl_priority v1 = pl_priority v0 ∧ pl_enabled v1 = pl_enabled v0 ∧ pl_threshold v1 = pl_threshold v0;
  ps_complete d hart v : 0 ≤ hart < NCPU → let v0 := plic_view d in let v1 := plic_view (plic_wr d (PLIC_SCLAIM hart) v) in
    pl_priority v1 = pl_priority v0 ∧ pl_enabled v1 = pl_enabled v0 ∧ pl_threshold v1 = pl_threshold v0 ∧
    (∀ i, pl_pending v0 i = true → pl_pending v1 i = true)
}.

Section plic.
Context {D : Type} `{!PlicDevice D}.

Definition preg_w (a v : Z) : M D unit := modify (λ d, plic_wr d a (u32 v)).
Definition preg_r (a : Z) : M D Z := λ d, Ok (u32 (plic_rd d a).1) (plic_rd d a).2.

Definition plicinit : M D unit :=
  preg_w (PLIC + UART0_IRQ * 4) 1 ;;
  preg_w (PLIC + VIRTIO0_IRQ * 4) 1.

(** [hart] is the answer of [cpuid]. *)
Definition plicinithart (hart : Z) : M D unit :=
  preg_w (PLIC_SENABLE hart) (Z.lor (Z.shiftl 1 UART0_IRQ) (Z.shiftl 1 VIRTIO0_IRQ)) ;;
  preg_w (PLIC_SPRIORITY hart) 0.

Definition plic_claim (hart : Z) : M D Z :=
  irq ← preg_r (PLIC_SCLAIM hart); mret (s32 irq).

Definition plic_complete (hart irq : Z) : M D unit := preg_w (PLIC_SCLAIM hart) irq.

Hypothesis Hspec : plic_spec D.

(** The uart and the disk interrupt, and only these, can reach [hart]. *)
Definition sources (v : plic) : Prop := pl_priority v UART0_IRQ = 1 ∧ pl_priority v VIRTIO0_IRQ = 1.
Definition hart_ready (v : plic) (hart : Z) : Prop :=
  pl_threshold v hart = 0 ∧ ∀ j, 0 < j < 1024 → pl_enabled v hart j = bool_decide (j = UART0_IRQ ∨ j = VIRTIO0_IRQ).

Lemma plicinit_spec d : wp plicinit (λ _ d', sources (plic_view d') ∧ pl_enabled (plic_view d') = pl_enabled (plic_view d) ∧
  pl_threshold (plic_view d') = pl_threshold (plic_view d) ∧ pl_pending (plic_view d') = pl_pending (plic_view d)) d.
Proof using Hspec.
  unfold plicinit, preg_w. wp_steps.
  destruct (ps_priority D Hspec d UART0_IRQ (u32 1) ltac:(done)) as (P1 & E1 & T1 & N1).
  destruct (ps_priority D Hspec (plic_wr d (PLIC + UART0_IRQ * 4) (u32 1)) VIRTIO0_IRQ (u32 1) ltac:(done)) as (P2 & E2 & T2 & N2).
  split; [|split_and!; congruence]. split; rewrite P2; [rewrite decide_False, P1 by done|]; by rewrite decide_True.
Qed.

Lemma plicinithart_spec hart d : 0 ≤ hart < NCPU → (∀ j, 32 ≤ j → pl_enabled (plic_view d) hart j = false) →
  wp (plicinithart hart) (λ _ d', hart_ready (plic_view d') hart ∧ pl_priority (plic_view d') = pl_priority (plic_view d) ∧
    pl_pending (plic_view d') = pl_pending (plic_view d) ∧
    (∀ g, g ≠ hart → pl_threshold (plic_view d') g = pl_threshold (plic_view d) g ∧
      ∀ j, 0 ≤ j → pl_enabled (plic_view d') g j = pl_enabled (plic_view d) g j)) d.
Proof using Hspec.
  intros Hh Hoff. unfold plicinithart, preg_w. wp_steps.
  set (x := u32 (Z.lor _ _)).
  destruct (ps_enable D Hspec d hart x Hh) as (E1 & E1' & P1 & T1 & N1).
  destruct (ps_threshold D Hspec (plic_wr d (PLIC_SENABLE hart) x) hart (u32 0) Hh) as (T2 & P2 & E2 & N2).
  split; [split|split; [congruence|split; [congruence|]]].
  - by rewrite T2, decide_True.
  - intros j Hj. rewrite E2. destruct (Z.lt_ge_cases j 32).
    + rewrite E1, decide_True by lia. change x with (Z.lor (2 ^ UART0_IRQ) (2 ^ VIRTIO0_IRQ)).
      rewrite Z.lor_spec, !Z.pow2_bits_eqb by done. rewrite bool_decide_decide.
      destruct (Z.eqb_spec UART0_IRQ j), (Z.eqb_spec VIRTIO0_IRQ j); case_decide; naive_solver.
    + rewrite E1', Hoff by done. symmetry. apply bool_decide_eq_false_2. unfold UART0_IRQ, VIRTIO0_IRQ. lia.
  - intros g Hg. rewrite T2, E2, decide_False, T1 by done. split; [done|]. intros j Hj.
    destruct (Z.lt_ge_cases j 32); [by rewrite E1, decide_False|by rewrite E1'].
Qed.

(** The claim register: the disk's interrupt before the uart's. *)
Definition next_irq (v : plic) : Z :=
  if pl_pending v VIRTIO0_IRQ then VIRTIO0_IRQ else if pl_pending v UART0_IRQ then UART0_IRQ else 0.

Lemma deliverable_ready v hart j : sources v → hart_ready v hart → 0 < j < 1024 →
  deliverable v hart j = pl_pending v j && bool_decide (j = UART0_IRQ ∨ j = VIRTIO0_IRQ).
Proof.
  intros [S1 S2] [Ht He] Hj. unfold deliverable. rewrite Ht, He by done. destruct (pl_pending v j); [|done]. cbn [andb].
  case_bool_decide as E; [|done]. destruct E as [->| ->]; by rewrite ?S1, ?S2.
Qed.

Lemma plic_claim_spec hart d : 0 ≤ hart < NCPU → sources (plic_view d) → hart_ready (plic_view d) hart →
  wp (plic_claim hart) (λ irq d', irq = next_irq (plic_view d) ∧ sources (plic_view d') ∧
    (∀ g, hart_ready (plic_view d) g → hart_ready (plic_view d') g) ∧
    ∀ i, pl_pending (plic_view d') i = if decide (i = irq) then false else pl_pending (plic_view d) i) d.
Proof using Hspec.
  intros Hh Hs Hr. destruct (ps_claim D Hspec d hart Hh) as (Hc & Hp & P & E & T).
  pose proof (λ j, deliverable_ready _ _ j Hs Hr) as Hd.
  assert ((plic_rd d (PLIC_SCLAIM hart)).1 = next_irq (plic_view d)) as Hirq.
  { pose proof (Hd UART0_IRQ ltac:(done)) as D1. pose proof (Hd VIRTIO0_IRQ ltac:(done)) as D2.
    rewrite bool_decide_eq_true_2, andb_true_r in D1, D2 by auto. destruct Hs as [S1 S2]. unfold next_irq.
    destruct Hc as [[-> Hno]|(Hr' & Hdel & Hmax)].
    - rewrite <- D1, <- D2, !Hno by done. done.
    - set (r := (plic_rd d (PLIC_SCLAIM hart)).1) in *. rewrite Hd in Hdel by done. apply andb_true_iff in Hdel as [Hpen Hr2].
      apply bool_decide_eq_true_1 in Hr2 as [Er|Er]; rewrite Er in *; rewrite Hpen; [|done].
      destruct (pl_pending (plic_view d) VIRTIO0_IRQ) eqn:Ev; [|done].
      destruct (Hmax VIRTIO0_IRQ); [done|by rewrite D2|rewrite S1, S2 in *; lia|unfold UART0_IRQ, VIRTIO0_IRQ in *; lia]. }
  unfold plic_claim, preg_r. wp_step. unfold wp at 1. wp_steps. rewrite Hirq.
  assert (s32 (u32 (next_irq (plic_view d))) = next_irq (plic_view d)) as ->.
  { unfold next_irq. by destruct (pl_pending (plic_view d) VIRTIO0_IRQ), (pl_pending (plic_view d) UART0_IRQ). }
  split; [done|]. split; [by unfold sources; rewrite P|]. split; [intros g; unfold hart_ready; by rewrite T, E|].
  rewrite <- Hirq. exact Hp.
Qed.
End plic.

(** ** Hart 3 of a machine that delegates the supervisor's interrupts *)

Module BootDemo.
Definition entry : Z := 0x80000000.
Definition stack0 : Z := 0x80009000.
Definition start_addr : Z := 0x80000100.
Definition main_addr : Z := 0x80000200.
Definition timervec_addr : Z := 0x80005200.
Definition timer_scratch : Z := 0x80019000.
Definition mem0 : mem := store64 (λ _, 0) CLINT_MTIME 42.
Definition reset : hart := Hart Machine (λ _, 0) (<[mhartid := 3]> (λ _, 0)) mem0.
Lemma platform0 : platform 0x222.
Proof. split; reflexivity. Qed.


(** The hart in user mode, its timer running. *)
Definition running : hart :=
  Hart User (λ r, match r with a0 => 17 | _ => 99 end)
    (<[mscratch := timer_scratch + 120]> (<[mtvec := timervec_addr]> (<[mie := 0x2a2]> (<[mideleg := 0x222]> (λ _, 0)))))
    (store64 (store64 (store64 mem0 (timer_scratch + 144) (CLINT_MTIMECMP 3)) (timer_scratch + 152) interval) (CLINT_MTIMECMP 3) 1000042).
Lemma running_ready : timer_ready timervec_addr timer_scratch 3 running.
Proof. split; vm_compute; reflexivity. Qed.
Lemma timer_tick_witness :
  ∃ h', steps 0xb3ff 0x222 (lay timervec_addr timervec) (length timervec) (mtrap 0x1000 running) = Some (0x1000, h') ∧
    h_mode h' = User ∧ get a0 h' = 17 ∧ load64 (h_mem h') (CLINT_MTIMECMP 3) = 2000042.
Proof.
  destruct (timer_tick 0xb3ff 0x222 timervec_addr timer_scratch (lay timervec_addr timervec) 3 (timervec_addr + 64)) with (pc := 0x1000) (h := running)
    as (h' & Hst & Hm & Hg & _ & _ & _ & _ & Hcmp & _).
  - vm_compute. split; congruence.
  - exact (lay_placed timervec_addr timervec [] timervec [] eq_refl).
  - vm_compute. repeat split; congruence.
  - vm_compute. repeat split; congruence.
  - discriminate.
  - exact running_ready.
  - intros r. destruct r; vm_compute; split; congruence.
  - exists h'. split; [exact Hst|]. split; [exact Hm|]. split; [rewrite Hg; reflexivity|]. rewrite Hcmp. vm_compute. reflexivity.
Defined.
End BootDemo.
